(* ===== verification/_CoqProject ===== *)
-Q . S2P
Prelude.v
U8.v
Buf.v
Netstring.v
RobinHood.v
Idtbl.v
Objtbl.v
Deduptbl.v
CLib.v
Csv.v
Segments.v
Os.v
Url.v
Punycode.v
Str.v
NetstringMap.v
Io.v
Fcgi.v
Ycl.v
Keeps.v
YclMsg.v
Eds.v
Supervise.v
EdsSafe.v
Services.v
Prng.v
Sindex.v
Store.v
StoreConfined.v
Kng.v
KngInv.v
KngJobs.v
Reorder.v
RoundRobin.v
Ports.v
Ip.v
IpR4.v
Vaguever.v
Nalphaver.v
VulnInterp.v
VulnReader.v
VulnStrtab.v
VulnParser.v
VulnGrammar.v
VulnRules.v
VulnCompile.v
Idset.v
Reaplan.v
ReaplanInv.v
