(* ===== verification/Prelude.v ===== *)
(** * yans: a verification library

    yans is a network scanner made of small programs that talk to each other:
    daemons that keep files and run jobs, command-line programs that probe
    hosts and grab banners, and libraries under them.  This library models the
    libraries and daemons of its C sources (paths below are relative to src/)
    in Rocq, function by function, and proves what they are for.

    ** The parts of the program

    - Containers.  lib/util/buf.c is the byte buffer that everything else
      appends to; idtbl.c, objtbl.c and deduptbl.c are hash tables with Robin
      Hood probing; idset.c hands out small numbers; reorder.c and prng.c give
      numbers in a scattered order.
    - Text.  u8.c, str.c, csv.c, netstring.c, vaguever.c, nalphaver.c and os.c
      of lib/util and punycode.c, url.c and fcgi.c of lib/net read and write
      strings, rows, versions, paths, host names and requests of a web server.
    - Addresses and ports.  lib/net/ip.c and ports.c parse lists of blocks of
      addresses and of port ranges and iterate over them, in order or
      scattered, which is the order in which a scan probes its targets.
    - Messages.  lib/util/io.c wraps the system calls on descriptors;
      lib/ycl/ycl.c sends and receives messages, netstrings that may be
      accompanied by a descriptor; apps/yclgen writes the functions that put
      the structs of lib/ycl/ycl_msg.ycl into messages and get them out again.
    - Services.  lib/util/eds.c starts the processes of a service, restarts
      them when they end, and in each of them calls handlers when descriptors
      are ready.  The daemons apps/stored (stores of files) and apps/knegd
      (jobs) are sets of such handlers.
    - Connections.  lib/net/reaplan.c keeps a number of outgoing connections
      open at a time, for the banner grabber of apps/scan.
    - Vulnerabilities.  lib/vulnspec compiles specifications, lists of CVEs
      with expressions over vendors, products and versions, to images that are
      mapped into memory, validated and evaluated.

    ** How C is modelled

    An integer is a [Z], and where the width matters the truncation is written
    ([u32], [i64], ...).  A pointer is an offset into the object it points to,
    or an index of a heap.  A function whose memory accesses or whose loops
    matter returns an [outcome]: [Ret], [OutOfBounds] when it leaves an object,
    uses one that was never set, fails an assertion or overflows a signed
    number (where a file says so), or [OutOfFuel].  A conversion that C does
    not define, of a negative score to an unsigned number, is a parameter.  Loops are fixpoints on a fuel.  The fuel of a loop over an
    object is one more than its length, since a turn of it moves on by at least
    one; that of the digits of a number is the number of its bits; that of a
    loop that waits for the kernel is an argument, and the theorems give an
    amount that is enough, computed from what is still to be sent and from how
    often the kernel delays ([SysLaws] of [Io], [EnvLaws] of [Reaplan]).  A
    theorem of a function with fuel therefore says that it returns [Ret] of
    something, but for those that show that the code itself does not end
    ([reorder32_full_range_endless], [vulnspec_cyclic_endless],
    [u8_from_cp_returns_iff]).

    Whether memory can be had is a function [alloc_ok] of the size; theorems
    are stated for all of them unless they say otherwise.  The system is a type
    class: its operations are the system calls ([Sys] of [Io], [Procs] of
    [Supervise], [Env] of [Reaplan] and those of [Services]), its laws what
    POSIX promises of them.  Every theorem that needs laws has an example in
    which they hold.

    ** The files

    - [Prelude]: integers, outcomes, accesses to memory, tactics and the lemmas
      on lists that all files share.  [CLib]: functions of the C library.
    - Containers: [Buf]; [RobinHood], the theory of the probing, with [Idtbl],
      [Objtbl] and [Deduptbl]; [Idset]; [Reorder]; [Prng]; [Sindex]
      (sindex.c, the index of stored).
    - Text: [U8], [Str], [Csv], [Netstring] and [NetstringMap] (netstring.c),
      [Vaguever], [Nalphaver], [Os] and [Url] on [Segments], the theory of paths
      rewritten in place, [Punycode], [Fcgi].
    - Addresses and ports: [Ip], [IpR4] (ip.c), [Ports], on [RoundRobin].
    - Messages: [Io], [Ycl], [YclMsg] (yclgen); [Keeps], what these operations
      keep of a system.
    - Services: [Eds] and [EdsSafe] (the event loop), [Supervise] (the parent of
      eds.c), [Services] (what the daemons share), [Store] and [StoreConfined]
      (stored), [Kng], [KngInv] and [KngJobs] (knegd).
    - Connections: [Reaplan], [ReaplanInv].
    - Vulnerabilities: [VulnInterp] (interp.c), [VulnReader] (reader.c),
      [VulnStrtab] and [VulnParser] (parser.c and progn.c), [VulnGrammar], the
      language and its meaning, [VulnRules] and [VulnCompile], the proof of the
      compiler.

    A definition that is a C function has the name of the function; one that is
    a loop or a part of it is named after what it does.  The state of a module
    is a record with the fields of the C struct.

    ** What is shown

    - Containers implement finite maps, sets and byte strings, for every
      sequence of calls and with or without memory ([idtbl_refines],
      [objtbl_refines], [deduptbl_refines], [idset_refines], [buf_refines]);
      iterations give everything once ([reorder32_enumerates],
      [ip_r4blocks_next_enumerates], [port_r4ranges_next_enumerates]); the
      random numbers are those of the recurrence ([prng_recurrence]).
    - What is written is read back: code points, rows of CSV, netstrings,
      structs, host names, versions, entries of the index ([*_roundtrip],
      [punycode_encode_decodes], [sindex_put_get]).  Parsers accept exactly the
      language that they are for ([port_ranges_from_str_parses],
      [netstring_parse_sound], [vulnspec_read_token_lexes]).  Paths are cleaned
      to what their segments say and lead where they led
      ([os_cleanpath_clean], [os_cleanpath_below],
      [url_remove_dot_segments_rfc]).
    - However a stream is cut up and delayed, the messages and requests in it
      are received, in order and complete ([ycl_structs_delivered],
      [fcgi_request_received]).
    - Whatever clients and the kernel do, the event loop touches only clients
      in use, until it accepts a descriptor that its table has no place for,
      which takes that a client was removed before ([eds_turn_invariant],
      [eds_serve_single_safe]); the supervisor
      signals only its own processes, up to one mistake
      ([eds_serve_signals]), stored works on the files of stores only
      ([store_confined]), knegd signals only its jobs, counts them and ends
      those that exceed their time ([kng_signals_own], [kng_jobs_are_children],
      [kng_escalation], [kng_slots]), and a plan closes every connection that
      it opened ([reaplan_run_invariant], [reaplan_run_closes]).
    - A specification compiles exactly when it is of the grammar, and its image
      is loaded and evaluated to what it says ([vulnspec_compile_correct]); an
      image that the validator accepts is evaluated within its bounds
      ([vulnspec_eval_meaning]).
    - Where the code does something else than it is meant to, a theorem says
      what ([eds_fd_guard_fails], [store_answers_itself],
      [fcgi_long_value_misread], [vulnspec_score_undefined], [too_many_restarts_kill_all],
      [kng_short_id_aborts], [encode_label_overflows] and others).

    ** Not modelled

    Log messages, the texts of errors built with printf, arguments of programs
    and the usage they print.  Functions that only call the system or a
    library: the rest of os.c (removing trees, changing owners, becoming a
    daemon), sandbox.c, sysinfo.c, ylog.c, nullfd.c, hexdump.c, zfile.c (zlib),
    sha1.c and x509.c (OpenSSL), dnstres.c (threads around getaddrinfo),
    tcpsrc.c and the FreeBSD driver behind it.  The statistics of the tables,
    which use floating point.  lib/match wraps the C++ library RE2.  Of url.c
    all but the removal of dot segments, whose parser is a POSIX regular
    expression.  The allocators of lib/alloc, and small clients and parsers
    (dsts.c, scgi.c, urlquery.c, flagset.c, lines.c, tcpproto.c, opener.c and
    yclcli*.c).  The programs under apps/ but the two daemons: they parse
    arguments, open files and call the libraries above.  The lexer and parser
    of yclgen are generated by lex and yacc, and the Lua bindings of genlycl.c
    are printed text. *)

From Stdlib Require Export ZArith Lia.
From stdpp Require Export base numbers list option strings.
From Stdlib Require Import Ascii.

Declare Scope yans_scope.
Delimit Scope yans_scope with yans.
#[global] Open Scope Z_scope.
#[global] Open Scope yans_scope.

(** ** Machine integers

    A C integer is a [Z]; the width is written where the code relies on it.
    [uw] truncates to an unsigned type of [w] bits, [sw] to the two's
    complement signed type of [w] bits. *)

Definition uw (w : Z) (x : Z) : Z := x mod 2 ^ w.
Definition sw (w : Z) (x : Z) : Z := (x + 2 ^ (w - 1)) mod 2 ^ w - 2 ^ (w - 1).

Abbreviation u8 := (uw 8).
Abbreviation u16 := (uw 16).
Abbreviation u32 := (uw 32).
Abbreviation u64 := (uw 64).
Abbreviation i8 := (sw 8).
Abbreviation i32 := (sw 32).
Abbreviation i64 := (sw 64).

Definition INT_MAX : Z := 2147483647.
Definition UINT32_MAX : Z := 4294967295.
Definition SIZE_MAX : Z := 18446744073709551615.

(** bool-valued bit test used for C flag words: [(x & m) != 0] *)
Definition flag_set (x m : Z) : bool := negb (Z.land x m =? 0).

(** ** Outcomes

    A C function on memory either returns, reads or writes outside the
    object it was given, or does not return within the fuel of the model. *)

Inductive outcome (A : Type) : Type :=
  | Ret (a : A)
  | OutOfBounds
  | OutOfFuel.
Arguments Ret {A} _.
Arguments OutOfBounds {A}.
Arguments OutOfFuel {A}.

#[export] Instance outcome_mret : MRet outcome := @Ret.
#[export] Instance outcome_mbind : MBind outcome := fun A B f x =>
  match x with
  | Ret a => f a
  | OutOfBounds => OutOfBounds
  | OutOfFuel => OutOfFuel
  end.
#[export] Instance outcome_fmap : FMap outcome := fun A B f x =>
  match x with
  | Ret a => Ret (f a)
  | OutOfBounds => OutOfBounds
  | OutOfFuel => OutOfFuel
  end.

(** reading [l[i]] of an object that is exactly [l] *)
Definition rd {A} (l : list A) (i : Z) : outcome A :=
  if i <? 0 then OutOfBounds
  else match l !! Z.to_nat i with Some x => Ret x | None => OutOfBounds end.

(** writing [l[i] = x] in an object that is exactly [l] *)
Definition wr {A} (l : list A) (i : Z) (x : A) : outcome (list A) :=
  if (i <? 0) || (Z.of_nat (length l) <=? i) then OutOfBounds
  else Ret (<[Z.to_nat i := x]> l).

(** ** Bytes and C strings *)

Definition is_byte (b : Z) : Prop := 0 <= b < 256.
Abbreviation bytes := (list Z).

(** length as the code sees it *)
Definition zlen {A} (l : list A) : Z := Z.of_nat (length l).

(** the bytes of a literal of the source *)
Definition lit (s : string) : bytes :=
  (fun a => Z.of_N (N_of_ascii a)) <$> String.list_ascii_of_string s.

(** a C string is given by its bytes before the terminator *)
Definition cstring (s : bytes) : Prop := Forall (fun b => 0 < b < 256) s.

(** [s[i]] of the C string [s]: the terminator follows the last byte *)
Definition cchar (s : bytes) (i : Z) : Z := nth (Z.to_nat i) s 0.

(** ** Tactics *)

(** split the booleans of C conditions into facts that [lia] uses *)
Ltac zbool :=
  repeat match goal with
  | H : (_ && _)%bool = true |- _ => apply andb_prop in H as [? ?]
  | H : (_ || _)%bool = false |- _ => apply orb_false_elim in H as [? ?]
  | H : negb _ = true |- _ => apply negb_true_iff in H
  | H : negb _ = false |- _ => apply negb_false_iff in H
  | H : (_ =? _)%Z = true |- _ => apply Z.eqb_eq in H
  | H : (_ =? _)%Z = false |- _ => apply Z.eqb_neq in H
  | H : (_ <? _)%Z = true |- _ => apply Z.ltb_lt in H
  | H : (_ <? _)%Z = false |- _ => apply Z.ltb_ge in H
  | H : (_ <=? _)%Z = true |- _ => apply Z.leb_le in H
  | H : (_ <=? _)%Z = false |- _ => apply Z.leb_gt in H
  end.

(** case analysis on the innermost test of the goal *)
Ltac case_test :=
  match goal with
  | |- context [if ?b then _ else _] =>
      lazymatch b with
      | context [if _ then _ else _] => fail
      | _ => destruct b eqn:?
      end
  end; zbool.

Ltac uw_unfold := unfold uw, sw in *.

(** ** Lemmas on machine integers *)

Lemma uw_small w x : 0 <= x < 2 ^ w -> uw w x = x.
Proof. apply Z.mod_small. Qed.

Lemma uw_range w x : 0 <= w -> 0 <= uw w x < 2 ^ w.
Proof. intros. apply Z.mod_pos_bound. lia. Qed.

Lemma sw_small w x : 0 < w -> - 2 ^ (w - 1) <= x < 2 ^ (w - 1) -> sw w x = x.
Proof.
  intros Hw Hx. unfold sw.
  assert (2 ^ w = 2 * 2 ^ (w - 1)) by (rewrite <- Z.pow_succ_r by lia; f_equal; lia).
  rewrite Z.mod_small; lia.
Qed.

Lemma sw_range w x : 0 < w -> - 2 ^ (w - 1) <= sw w x < 2 ^ (w - 1).
Proof.
  intros Hw. unfold sw.
  assert (2 ^ w = 2 * 2 ^ (w - 1)) by (rewrite <- Z.pow_succ_r by lia; f_equal; lia).
  pose proof (Z.mod_pos_bound (x + 2 ^ (w - 1)) (2 ^ w)). lia.
Qed.

Lemma uw_sw w x : 0 < w -> uw w (sw w x) = uw w x.
Proof. intros Hw. unfold uw, sw. rewrite Zminus_mod_idemp_l. f_equal. lia. Qed.

(** masks, shifts and unions of disjoint bit fields as arithmetic *)
Lemma land_mask n x : 0 <= n -> Z.land x (2 ^ n - 1) = x mod 2 ^ n.
Proof. intros. rewrite <- Z.land_ones by lia. rewrite Z.ones_equiv. f_equal; lia. Qed.

Lemma shiftr_div n x : 0 <= n -> Z.shiftr x n = x / 2 ^ n.
Proof. intros. by rewrite Z.shiftr_div_pow2. Qed.

Lemma lor_disjoint a b : Z.land a b = 0 -> Z.lor a b = a + b.
Proof. intros H. pose proof (Z.add_lor_land a b). lia. Qed.

Lemma lor_field n a c : 0 <= n -> 0 <= a < 2 ^ n -> Z.lor (c * 2 ^ n) a = c * 2 ^ n + a.
Proof.
  intros Hn Ha. apply lor_disjoint. apply Z.bits_inj'. intros i Hi.
  rewrite Z.land_spec, Z.bits_0.
  destruct (decide (i < n)) as [Hlt|Hge].
  - rewrite Z.mul_pow2_bits_low by lia. done.
  - replace a with (a mod 2 ^ n) by (apply Z.mod_small; lia).
    rewrite Z.mod_pow2_bits_high by lia. apply andb_false_r.
Qed.

(** a boolean property of bytes is decided by evaluation *)
Lemma byte_forall (f : Z -> bool) :
  forallb f (seqZ 0 256) = true -> forall x, is_byte x -> f x = true.
Proof.
  intros H x Hx. rewrite forallb_forall in H. apply H.
  apply list_elem_of_In, elem_of_seqZ. unfold is_byte in Hx. lia.
Qed.

(** ** Lemmas on reads and writes *)

Lemma zlen_nonneg {A} (l : list A) : 0 <= zlen l.
Proof. unfold zlen. lia. Qed.
Lemma zlen_app {A} (l k : list A) : zlen (l ++ k) = zlen l + zlen k.
Proof. unfold zlen. rewrite length_app. lia. Qed.
Lemma zlen_cons {A} (x : A) l : zlen (x :: l) = 1 + zlen l.
Proof. unfold zlen. simpl. lia. Qed.
Lemma zlen_nil {A} : zlen (@nil A) = 0.
Proof. done. Qed.
Lemma zlen_insert {A} i (x : A) l : zlen (<[i := x]> l) = zlen l.
Proof. unfold zlen. by rewrite length_insert. Qed.
Lemma zlen_replicate {A} n (x : A) : zlen (replicate n x) = Z.of_nat n.
Proof. unfold zlen. by rewrite length_replicate. Qed.

Lemma rd_ret {A} (l : list A) i x : rd l i = Ret x <-> 0 <= i /\ l !! Z.to_nat i = Some x.
Proof.
  unfold rd. destruct (Z.ltb_spec i 0); [split; [done|lia]|].
  destruct (l !! Z.to_nat i) as [y|] eqn:E; split; [| |done|];
    intros; destruct_and?; simplify_eq; auto.
Qed.

Lemma rd_in {A} (l : list A) i : 0 <= i < zlen l -> exists x, rd l i = Ret x /\ l !! Z.to_nat i = Some x.
Proof.
  intros Hi. destruct (lookup_lt_is_Some_2 l (Z.to_nat i)) as [x Hx]; [unfold zlen in *; lia|].
  exists x. split; [apply rd_ret; split; [lia|done]|done].
Qed.

Lemma rd_out {A} (l : list A) i : ~ (0 <= i < zlen l) -> rd l i = OutOfBounds.
Proof.
  intros Hi. unfold rd. destruct (Z.ltb_spec i 0); [done|].
  rewrite lookup_ge_None_2; [done|unfold zlen in *; lia].
Qed.

Lemma wr_in {A} (l : list A) i x : 0 <= i < zlen l -> wr l i x = Ret (<[Z.to_nat i := x]> l).
Proof. intros Hi. unfold wr, zlen in *. case_test; [|done]. lia. Qed.

Create Rewrite HintDb zlen.
#[export] Hint Rewrite @zlen_app @zlen_cons @zlen_nil @zlen_insert @zlen_replicate : zlen.
Ltac zlen_simpl := autorewrite with zlen in *.

(** goals with [/] and [mod] by constants *)
Ltac divmod_lia := Z.to_euclidean_division_equations; lia.

(** ** Blocks of memory

    [memcpy(l + i, src, zlen src)] and the bytes [l[i .. i+n-1]]. *)

Definition wrs {A} (l : list A) (i : Z) (src : list A) : outcome (list A) :=
  if (0 <=? i) && (i + zlen src <=? zlen l)
  then Ret (take (Z.to_nat i) l ++ src ++ drop (Z.to_nat i + length src) l)
  else OutOfBounds.

Definition rds {A} (l : list A) (i n : Z) : outcome (list A) :=
  if (0 <=? i) && (0 <=? n) && (i + n <=? zlen l)
  then Ret (take (Z.to_nat n) (drop (Z.to_nat i) l))
  else OutOfBounds.

Lemma wrs_in {A} (l : list A) i src : 0 <= i -> i + zlen src <= zlen l ->
  wrs l i src = Ret (take (Z.to_nat i) l ++ src ++ drop (Z.to_nat i + length src) l).
Proof. intros. unfold wrs. case_test; [done|]. apply andb_false_iff in Heqb as [?|?]; zbool; lia. Qed.

Lemma rds_in {A} (l : list A) i n : 0 <= i -> 0 <= n -> i + n <= zlen l ->
  rds l i n = Ret (take (Z.to_nat n) (drop (Z.to_nat i) l)).
Proof.
  intros. unfold rds. case_test; [done|].
  apply andb_false_iff in Heqb as [Heqb|?]; [apply andb_false_iff in Heqb as [?|?]|]; zbool; lia.
Qed.

Lemma zlen_take {A} n (l : list A) : zlen (take n l) = Z.min (Z.of_nat n) (zlen l).
Proof. unfold zlen. rewrite length_take. lia. Qed.
Lemma zlen_drop {A} n (l : list A) : zlen (drop n l) = Z.max 0 (zlen l - Z.of_nat n).
Proof. unfold zlen. rewrite length_drop. lia. Qed.
#[export] Hint Rewrite @zlen_take @zlen_drop : zlen.

Lemma uw_mod_add w x y : 0 <= w -> uw w (uw w x + y) = uw w (x + y).
Proof. intros. unfold uw. rewrite Z.add_mod_idemp_l; [done|lia]. Qed.

(** ** A slice [s] of an object: [pre ++ s ++ post] *)

Lemma rd_slice {A} (pre s post : list A) i :
  0 <= i < zlen s -> rd (pre ++ s ++ post) (zlen pre + i) = rd s i.
Proof.
  intros Hi. destruct (rd_in s i Hi) as (x & -> & Hx). apply rd_ret.
  pose proof (zlen_nonneg pre). unfold zlen in *. split; [lia|].
  rewrite lookup_app_r by lia. rewrite lookup_app_l by lia.
  rewrite <- Hx. f_equal. lia.
Qed.

Lemma rd_mid {A} (l : list A) x k : rd (l ++ x :: k) (zlen l) = Ret x.
Proof.
  apply rd_ret. split; [apply zlen_nonneg|]. unfold zlen. rewrite Nat2Z.id.
  by apply list_lookup_middle.
Qed.

Lemma rd_mid' {A} (l : list A) x k i : i = zlen l -> rd (l ++ x :: k) i = Ret x.
Proof. intros ->. apply rd_mid. Qed.

Lemma take_S_rd {A} (s : list A) i x : rd s i = Ret x ->
  take (Z.to_nat (i + 1)) s = take (Z.to_nat i) s ++ [x].
Proof.
  intros [Hi Hx]%rd_ret. replace (Z.to_nat (i + 1)) with (S (Z.to_nat i)) by lia.
  by apply take_S_r.
Qed.

Lemma drop_rd {A} (s : list A) i x : rd s i = Ret x ->
  drop (Z.to_nat i) s = x :: drop (Z.to_nat (i + 1)) s.
Proof.
  intros [Hi Hx]%rd_ret. replace (Z.to_nat (i + 1)) with (S (Z.to_nat i)) by lia.
  by apply drop_S.
Qed.

(** ** Smearing the highest bit to the right

    [x] has the bits of [v] or-ed with those up to [n - 1] places above *)
Definition spread (v x n : Z) : Prop :=
  forall i, 0 <= i -> Z.testbit x i = true <-> exists j, 0 <= j < n /\ Z.testbit v (i + j) = true.

Lemma spread_one v : spread v v 1.
Proof.
  intros i Hi. split.
  - intros H. exists 0. rewrite Z.add_0_r. split; [lia|done].
  - intros (j & Hj & H). replace (i + j) with i in H by lia. done.
Qed.

Lemma spread_double v x n : 0 < n -> spread v x n -> spread v (Z.lor x (Z.shiftr x n)) (2 * n).
Proof.
  intros Hn H i Hi. rewrite Z.lor_spec, Z.shiftr_spec, orb_true_iff by lia.
  rewrite (H i), (H (i + n)) by lia. split.
  - intros [(j & Hj & E)|(j & Hj & E)].
    + exists j. split; [lia|done].
    + exists (n + j). rewrite Z.add_assoc. split; [lia|done].
  - intros (j & Hj & E). destruct (Z_lt_le_dec j n).
    + left. exists j. split; [lia|done].
    + right. exists (j - n). replace (i + n + (j - n)) with (i + j) by lia. split; [lia|done].
Qed.

Lemma spread_ones v x n : 0 < v < 2 ^ n -> 0 <= x -> 0 < n -> spread v x n -> x = 2 ^ (Z.log2 v + 1) - 1.
Proof.
  intros Hv Hx Hn H. assert (Hl : Z.log2 v < n) by (apply Z.log2_lt_pow2; lia).
  pose proof (Z.log2_nonneg v). replace (2 ^ (Z.log2 v + 1) - 1) with (Z.ones (Z.log2 v + 1))
    by (rewrite Z.ones_equiv; lia).
  apply Z.bits_inj'. intros i Hi. destruct (Z_le_gt_dec i (Z.log2 v)).
  - rewrite Z.ones_spec_low by lia. apply H; [done|]. exists (Z.log2 v - i). split; [lia|].
    replace (i + (Z.log2 v - i)) with (Z.log2 v) by lia. apply Z.bit_log2. lia.
  - rewrite Z.ones_spec_high by lia. apply not_true_iff_false. intros (j & Hj & E)%H; [|done].
    rewrite Z.bits_above_log2 in E; [done|lia|lia].
Qed.
