(* ===== verification/U8.v ===== *)
(** * UTF-8 conversion: src/lib/util/u8.c *)

From S2P Require Import Prelude.

Definition UNICODE_REPLACEMENT_CHAR : Z := 0xFFFD.
Definition UNICODE_REPLACEMENT_CHAR_BYTES : Z := 2.

(** [u8_to_cp(str, len, width)]: the code point and the value stored in
    [*width].  The first [len] bytes of [s] are the ones the code may read;
    the guards on [len] precede every read. *)
Definition u8_to_cp (s : bytes) (len : Z) : Z * Z :=
  let s0 := cchar s 0 in
  let s1 := cchar s 1 in
  let s2 := cchar s 2 in
  let s3 := cchar s 3 in
  if (1 <=? len) && (s0 <=? 0x7f) then (s0, 1)
  else if (2 <=? len) && (Z.land s0 0xe0 =? 0xc0) && (Z.land s1 0xc0 =? 0x80) then
    (Z.lor (Z.shiftl (Z.land s0 0x1f) 6) (Z.land s1 0x3f), 2)
  else if (3 <=? len) && (Z.land s0 0xf0 =? 0xe0) && (Z.land s1 0xc0 =? 0x80)
          && (Z.land s2 0xc0 =? 0x80) then
    (Z.lor (Z.lor (Z.shiftl (Z.land s0 0x0f) 12) (Z.shiftl (Z.land s1 0x3f) 6))
           (Z.land s2 0x3f), 3)
  else if (4 <=? len) && (Z.land s0 0xf8 =? 0xf0) && (Z.land s1 0xc0 =? 0x80)
          && (Z.land s2 0xc0 =? 0x80) && (Z.land s3 0xc0 =? 0x80) then
    (Z.lor (Z.lor (Z.lor (Z.shiftl (Z.land s0 0x07) 18) (Z.shiftl (Z.land s1 0x3f) 12))
                  (Z.shiftl (Z.land s2 0x3f) 6))
           (Z.land s3 0x3f), 4)
  else (UNICODE_REPLACEMENT_CHAR, 1).

(** [u8_from_cp(s, len, cp, width)]: the bytes stored in [s] and the return
    value.  [*width] is the number of bytes stored.  One unit of fuel is one
    pass through the label [again]. *)
Fixpoint u8_from_cp (fuel : nat) (len : Z) (cp : Z) : outcome (bytes * Z) :=
  match fuel with
  | O => OutOfFuel
  | S fuel =>
    if (0 <=? cp) && (cp <? 0x80) && (1 <=? len) then Ret ([u8 cp], 0)
    else if (cp <? 0x800) && (2 <=? len) then
      Ret ([u8 (Z.lor (Z.shiftr (u32 cp) 6) 0xc0);
            u8 (Z.lor (Z.land (u32 cp) 0x3f) 0x80)], 0)
    else if (cp <? 0x10000) && (3 <=? len) then
      Ret ([u8 (Z.lor (Z.shiftr (u32 cp) 12) 0xe0);
            u8 (Z.lor (Z.land (Z.shiftr (u32 cp) 6) 0x3f) 0x80);
            u8 (Z.lor (Z.land (u32 cp) 0x3f) 0x80)], 0)
    else if (cp <? 0x200000) && (4 <=? len) then
      Ret ([u8 (Z.lor (Z.shiftr (u32 cp) 18) 0xf0);
            u8 (Z.lor (Z.land (Z.shiftr (u32 cp) 12) 0x3f) 0x80);
            u8 (Z.lor (Z.land (Z.shiftr (u32 cp) 6) 0x3f) 0x80);
            u8 (Z.lor (Z.land (u32 cp) 0x3f) 0x80)], 0)
    else if UNICODE_REPLACEMENT_CHAR_BYTES <=? len then
      u8_from_cp fuel len UNICODE_REPLACEMENT_CHAR
    else Ret ([], -1)
  end.

(** [u8_tolower]: the wide character constants are the code points of
    A-ring, A-diaeresis and O-diaeresis. *)
Definition u8_tolower (cp : Z) : Z :=
  if (0x41 <=? cp) && (cp <=? 0x5a) then Z.lor cp 0x20
  else if cp =? 0xc5 then 0xe5
  else if cp =? 0xc4 then 0xe4
  else if cp =? 0xd6 then 0xf6
  else cp.

(** ** Bit fields of the encoding *)

Lemma u8_small_lor c n a : 0 <= n -> 0 <= a < 2 ^ n -> 0 <= c -> c * 2 ^ n + a < 256 ->
  u8 (Z.lor a (c * 2 ^ n)) = c * 2 ^ n + a.
Proof.
  intros Hn Ha Hc Hb. rewrite Z.lor_comm, lor_field by lia. apply uw_small. lia.
Qed.

Definition lead2_ok (x : Z) : bool :=
  (x <? 0xc0) || (0xe0 <=? x) || ((Z.land x 0xe0 =? 0xc0) && (Z.land x 0x1f =? x - 0xc0)).
Definition lead3_ok (x : Z) : bool :=
  (x <? 0xe0) || (0xf0 <=? x) ||
  ((Z.land x 0xe0 =? 0xe0) && (Z.land x 0xf0 =? 0xe0) && (Z.land x 0x0f =? x - 0xe0)).
Definition lead4_ok (x : Z) : bool :=
  (x <? 0xf0) || (0xf8 <=? x) ||
  ((Z.land x 0xe0 =? 0xe0) && (Z.land x 0xf0 =? 0xf0) && (Z.land x 0xf8 =? 0xf0)
   && (Z.land x 0x07 =? x - 0xf0)).
Definition cont_ok (x : Z) : bool :=
  (x <? 0x80) || (0xc0 <=? x) || ((Z.land x 0xc0 =? 0x80) && (Z.land x 0x3f =? x - 0x80)).

Ltac lead_tac f :=
  intros;
  match goal with H : 0 <= ?a < _ |- context [?c + ?a] =>
    let E := fresh in
    assert (E : f (c + a) = true) by (apply byte_forall; [by vm_compute|unfold is_byte; lia]);
    unfold f in E; revert E;
    replace (c + a - c) with a by lia; repeat case_test; simpl; intros; zbool; repeat split; lia
  end.

Lemma lead2 a : 0 <= a < 32 -> Z.land (0xc0 + a) 0xe0 = 0xc0 /\ Z.land (0xc0 + a) 0x1f = a.
Proof. lead_tac lead2_ok. Qed.
Lemma lead3 a : 0 <= a < 16 ->
  Z.land (0xe0 + a) 0xe0 = 0xe0 /\ Z.land (0xe0 + a) 0xf0 = 0xe0 /\ Z.land (0xe0 + a) 0x0f = a.
Proof. lead_tac lead3_ok. Qed.
Lemma lead4 a : 0 <= a < 8 ->
  Z.land (0xf0 + a) 0xe0 = 0xe0 /\ Z.land (0xf0 + a) 0xf0 = 0xf0 /\
  Z.land (0xf0 + a) 0xf8 = 0xf0 /\ Z.land (0xf0 + a) 0x07 = a.
Proof. lead_tac lead4_ok. Qed.
Lemma cont a : 0 <= a < 64 -> Z.land (0x80 + a) 0xc0 = 0x80 /\ Z.land (0x80 + a) 0x3f = a.
Proof. lead_tac cont_ok. Qed.

(** the number of bytes of the encoding of a code point *)
Definition width (cp : Z) : Z :=
  if cp <? 0x80 then 1 else if cp <? 0x800 then 2 else if cp <? 0x10000 then 3 else 4.

(** the four shapes of an encoding, as arithmetic on the code point *)
Definition encoding (cp : Z) : bytes :=
  if cp <? 0x80 then [cp]
  else if cp <? 0x800 then [0xc0 + cp / 64; 0x80 + cp mod 64]
  else if cp <? 0x10000 then
    [0xe0 + cp / 4096; 0x80 + (cp / 64) mod 64; 0x80 + cp mod 64]
  else [0xf0 + cp / 262144; 0x80 + (cp / 4096) mod 64; 0x80 + (cp / 64) mod 64;
        0x80 + cp mod 64].

Lemma u8_cont a : u8 (Z.lor (Z.land a 0x3f) 0x80) = 0x80 + a mod 64.
Proof.
  change 0x3f with (2 ^ 6 - 1). rewrite land_mask by lia.
  pose proof (Z.mod_pos_bound a 64 ltac:(lia)).
  apply (u8_small_lor 2 6); lia.
Qed.

Lemma u8_lead c n k a : 0 <= n -> 0 <= k -> 0 <= a -> a / 2 ^ k < 2 ^ n -> 0 <= c ->
  (c + 1) * 2 ^ n <= 256 -> u8 (Z.lor (Z.shiftr a k) (c * 2 ^ n)) = c * 2 ^ n + a / 2 ^ k.
Proof.
  intros. rewrite shiftr_div by lia.
  assert (0 <= a / 2 ^ k) by (apply Z.div_pos; lia).
  apply u8_small_lor; nia.
Qed.

Lemma u8_from_cp_encoding fuel len cp :
  0 <= cp < 0x200000 -> width cp <= len -> u8_from_cp (S fuel) len cp = Ret (encoding cp, 0).
Proof.
  intros Hcp Hlen. unfold width, encoding in *. cbn [u8_from_cp].
  assert (Hu : u32 cp = cp) by (apply uw_small; lia). rewrite Hu.
  rewrite !u8_cont, !shiftr_div by lia.
  rewrite <- (shiftr_div 6 cp), <- (shiftr_div 12 cp), <- (shiftr_div 18 cp) by lia.
  assert (Hd : forall k b, 0 <= k -> cp < b * 2 ^ k -> cp / 2 ^ k < b)
    by (intros; apply Z.div_lt_upper_bound; lia).
  repeat case_test; try lia; try done; repeat f_equal; try done; try (by rewrite shiftr_div).
  - apply uw_small; lia.
  - apply (u8_lead 6 5 6); try lia. apply Hd; lia.
  - apply (u8_lead 14 4 12); try lia. apply Hd; lia.
  - apply (u8_lead 30 3 18); try lia. apply Hd; lia.
Qed.

(** reading the first bytes of a concrete prefix *)
Ltac cchar_simpl :=
  unfold cchar;
  change (Z.to_nat 0) with 0%nat; change (Z.to_nat 1) with 1%nat;
  change (Z.to_nat 2) with 2%nat; change (Z.to_nat 3) with 3%nat; cbn [app nth].

Ltac test_true := rewrite (proj2 (Z.leb_le _ _)) by lia.
Ltac test_false := rewrite (proj2 (Z.leb_gt _ _)) by lia.

Lemma field_bound cp b c : 0 < b -> 0 <= cp < c * b -> 0 <= cp / b < c.
Proof. intros. split; [apply Z.div_pos|apply Z.div_lt_upper_bound]; lia. Qed.

Lemma field6_bound a : 0 <= a mod 64 < 64.
Proof. apply Z.mod_pos_bound. lia. Qed.

Lemma join6 hi lo : 0 <= lo < 64 -> Z.lor (Z.shiftl hi 6) lo = hi * 64 + lo.
Proof. intros. rewrite Z.shiftl_mul_pow2 by lia. apply (lor_field 6); lia. Qed.

Lemma join12 a b c : 0 <= b < 64 -> 0 <= c < 64 ->
  Z.lor (Z.lor (Z.shiftl a 12) (Z.shiftl b 6)) c = (a * 64 + b) * 64 + c.
Proof.
  intros. change 12 with (6 + 6).
  by rewrite <- Z.shiftl_shiftl, <- Z.shiftl_lor, !join6 by lia.
Qed.

Lemma join18 a b c d : 0 <= b < 64 -> 0 <= c < 64 -> 0 <= d < 64 ->
  Z.lor (Z.lor (Z.lor (Z.shiftl a 18) (Z.shiftl b 12)) (Z.shiftl c 6)) d
  = ((a * 64 + b) * 64 + c) * 64 + d.
Proof.
  intros. change 18 with (12 + 6). change 12 with (6 + 6) at 2.
  rewrite <- !Z.shiftl_shiftl, <- !Z.shiftl_lor by lia.
  by rewrite join12, join6 by lia.
Qed.

Lemma u8_to_cp_encoding cp rest len :
  0 <= cp < 0x200000 -> width cp <= len ->
  u8_to_cp (encoding cp ++ rest) len = (cp, width cp).
Proof.
  intros Hcp Hlen. unfold width, encoding in *.
  pose proof (field6_bound cp). pose proof (field6_bound (cp / 64)).
  pose proof (field6_bound (cp / 4096)).
  repeat case_test; unfold u8_to_cp; cchar_simpl.
  - do 2 test_true. done.
  - destruct (lead2 (cp / 64)) as [E1 E2]; [apply field_bound; lia|].
    destruct (cont (cp mod 64)) as [E3 E4]; [done|].
    rewrite E1, E2, E3, E4, join6 by lia.
    pose proof (field_bound cp 64 32 ltac:(lia) ltac:(lia)).
    test_true. test_false. test_true. simpl. f_equal. divmod_lia.
  - destruct (lead3 (cp / 4096)) as (E0 & E1 & E2); [apply field_bound; lia|].
    destruct (cont ((cp / 64) mod 64)) as [E3 E4]; [done|].
    destruct (cont (cp mod 64)) as [E5 E6]; [done|].
    pose proof (field_bound cp 4096 16 ltac:(lia) ltac:(lia)).
    rewrite E0, E1, E2, E3, E4, E5, E6.
    test_true. test_false. test_true. test_true. simpl. f_equal.
    rewrite join12 by lia. divmod_lia.
  - destruct (lead4 (cp / 262144)) as (E0 & E00 & E1 & E2); [apply field_bound; lia|].
    destruct (cont ((cp / 4096) mod 64)) as [E3 E4]; [done|].
    destruct (cont ((cp / 64) mod 64)) as [E5 E6]; [done|].
    destruct (cont (cp mod 64)) as [E7 E8]; [done|].
    pose proof (field_bound cp 262144 8 ltac:(lia) ltac:(lia)).
    rewrite E0, E00, E1, E2, E3, E4, E5, E6, E7, E8.
    test_true. test_false. do 3 test_true. simpl. f_equal.
    rewrite join18 by lia. divmod_lia.
Qed.

Lemma encoding_length cp : zlen (encoding cp) = width cp.
Proof. unfold encoding, width. by repeat case_test. Qed.

Lemma encoding_bytes cp : 0 <= cp < 0x200000 -> Forall is_byte (encoding cp).
Proof.
  intros Hcp. pose proof (field6_bound cp). pose proof (field6_bound (cp / 64)).
  pose proof (field6_bound (cp / 4096)).
  pose proof (fun b H => Z.div_pos cp b ltac:(lia) H).
  pose proof (fun b c H G => proj2 (field_bound cp b c H G)) as Hb.
  unfold encoding, is_byte. repeat case_test; repeat constructor; try lia;
    try (specialize (Hb 64 32)); try (specialize (Hb 4096 16)); divmod_lia.
Qed.

(** Every code point below 2^21 is encoded when the buffer holds its
    encoding, in [width cp] bytes, and decoding these bytes, whatever follows
    them, gives the code point back together with the number of bytes. *)
Theorem u8_roundtrip cp len :
  0 <= cp < 0x200000 -> width cp <= len ->
  exists bs, u8_from_cp 1 len cp = Ret (bs, 0) /\ Forall is_byte bs /\
    zlen bs = width cp /\
    forall rest n, zlen bs <= n -> u8_to_cp (bs ++ rest) n = (cp, zlen bs).
Proof.
  intros Hcp Hlen. exists (encoding cp). split; [by apply u8_from_cp_encoding|].
  split; [by apply encoding_bytes|]. split; [apply encoding_length|].
  rewrite encoding_length. intros. by apply u8_to_cp_encoding.
Qed.

Lemma u8_roundtrip_witness :
  0 <= 0x20ac < 0x200000 /\ u8_from_cp 1 4 0x20ac = Ret ([0xe2; 0x82; 0xac], 0) /\
  u8_to_cp [0xe2; 0x82; 0xac; 0x41] 4 = (0x20ac, 3).
Proof.
  split; [lia|]. destruct (u8_roundtrip 0x20ac 4) as (bs & E & _ & _ & D); [lia|done|].
  vm_compute in E. injection E as <-. split; [done|]. by apply (D [0x41] 4).
Defined.

Lemma cchar_byte s i : Forall is_byte s -> is_byte (cchar s i).
Proof.
  intros Hs. unfold cchar. destruct (nth_in_or_default (Z.to_nat i) s 0) as [Hin| ->];
    [|unfold is_byte; lia].
  rewrite Forall_forall in Hs. by apply Hs, list_elem_of_In.
Qed.

Lemma land_bound a n : 0 <= n -> 0 <= Z.land a (2 ^ n - 1) < 2 ^ n.
Proof. intros. rewrite land_mask by lia. apply Z.mod_pos_bound. lia. Qed.

Lemma land63 a : 0 <= Z.land a 63 < 64.
Proof. exact (land_bound a 6 ltac:(lia)). Qed.
Lemma land31 a : 0 <= Z.land a 31 < 32.
Proof. exact (land_bound a 5 ltac:(lia)). Qed.
Lemma land15 a : 0 <= Z.land a 15 < 16.
Proof. exact (land_bound a 4 ltac:(lia)). Qed.
Lemma land7 a : 0 <= Z.land a 7 < 8.
Proof. exact (land_bound a 3 ltac:(lia)). Qed.

(** On any bytes the decoder consumes at least one byte and never more
    than the [len] it was given, and the code point it returns is non-negative
    and below 2^21, so a loop that advances by the width ends. *)
Theorem u8_to_cp_bounds s len :
  Forall is_byte s -> 1 <= len ->
  let '(cp, w) := u8_to_cp s len in 0 <= cp < 0x200000 /\ 1 <= w <= 4 /\ w <= len.
Proof.
  intros Hs Hlen. unfold u8_to_cp, UNICODE_REPLACEMENT_CHAR.
  pose proof (cchar_byte s 0 Hs) as H0. unfold is_byte in H0.
  pose proof (land63 (cchar s 1)). pose proof (land63 (cchar s 2)). pose proof (land63 (cchar s 3)).
  pose proof (land31 (cchar s 0)). pose proof (land15 (cchar s 0)). pose proof (land7 (cchar s 0)).
  repeat case_test; try (split_and!; lia).
  - rewrite join6 by lia. split_and!; lia.
  - rewrite join12 by lia. split_and!; lia.
  - rewrite join18 by lia. split_and!; lia.
Qed.

Lemma u8_to_cp_bounds_witness :
  Forall is_byte [0xff; 0xc3] /\ u8_to_cp [0xff; 0xc3] 2 = (0xFFFD, 1) /\
  (0 <= 0xFFFD < 0x200000 /\ 1 <= 1 <= 4 /\ 1 <= 2).
Proof.
  assert (Hb : Forall is_byte [0xff; 0xc3]) by (repeat constructor; unfold is_byte; lia).
  split; [exact Hb|]. split; [reflexivity|].
  exact (u8_to_cp_bounds [0xff; 0xc3] 2 Hb ltac:(lia)).
Defined.

(** C25: the encoder returns on every buffer length and code point except a
    buffer of exactly two bytes with a code point that needs three or more: the
    substitution of U+FFFD, which itself needs three bytes, is then repeated
    for ever. *)
Theorem u8_from_cp_returns_iff len cp :
  (exists fuel r, u8_from_cp fuel len cp = Ret r) <-> ~ (len = 2 /\ 0x800 <= cp).
Proof.
  split.
  - intros (fuel & r & E) [-> Hcp]. revert cp Hcp E.
    induction fuel as [|fuel IH]; intros cp Hcp E; [done|]. cbn [u8_from_cp] in E.
    rewrite (proj2 (Z.ltb_ge cp 0x80)), (proj2 (Z.ltb_ge cp 0x800)), andb_false_r in E by lia.
    rewrite !andb_false_r in E. simpl in E. revert E. apply IH.
    unfold UNICODE_REPLACEMENT_CHAR. lia.
  - intros Hn. exists 2%nat. cbn [u8_from_cp].
    unfold UNICODE_REPLACEMENT_CHAR, UNICODE_REPLACEMENT_CHAR_BYTES in *.
    repeat case_test; eauto; exfalso; zbool; simpl in *; lia.
Qed.
