(* ===== verification/Buf.v ===== *)
(** * Growable buffers: src/lib/util/buf.c, src/lib/util/buf.h

    A [buf_t] is its record of [cap], [len] and the [cap] bytes of [data].
    Whether an allocation of [n] bytes succeeds is decided by the parameter
    [alloc_ok], so both outcomes of every call are covered. *)

From S2P Require Import Prelude.

Record buf_t := Buf { cap : Z; len : Z; data : bytes }.

Definition BUF_ALIGNMENT : Z := 8.

(** [((x)+(BUF_ALIGNMENT-1))&~(BUF_ALIGNMENT-1)] in [size_t] arithmetic *)
Definition buf_align_offset (x : Z) : Z :=
  Z.land (u64 (x + (BUF_ALIGNMENT - 1))) (Z.lnot (BUF_ALIGNMENT - 1)).

Definition buf_clear (b : buf_t) : buf_t := Buf (cap b) 0 (data b).

Definition buf_shrink (b : buf_t) (nbytes : Z) : buf_t :=
  Buf (cap b) (if len b <? nbytes then 0 else len b - nbytes) (data b).

Definition buf_truncate (b : buf_t) (off : Z) : buf_t :=
  if off <? len b then Buf (cap b) off (data b) else b.

Definition buf_cleanup (b : buf_t) : buf_t := Buf 0 0 [].

Section Operations.
Context (alloc_ok : Z -> bool).

Definition buf_init (capacity : Z) : option buf_t :=
  let acap := buf_align_offset capacity in
  if alloc_ok acap then Some (Buf acap 0 (replicate (Z.to_nat acap) 0)) else None.

(** The block returned by [realloc] has [ncap] bytes, the old ones first; the
    [memset] of the [added] new bytes leaves it when [cap + added] wraps. *)
Definition buf_grow (b : buf_t) (needed : Z) : outcome (buf_t * Z) :=
  let added0 := buf_align_offset (Z.shiftr (cap b) 1) in
  let added := if added0 <? needed then buf_align_offset needed else added0 in
  let ncap := u64 (cap b + added) in
  if alloc_ok ncap then
    if ncap <? cap b + added then OutOfBounds
    else Ret (Buf ncap (len b) (data b ++ replicate (Z.to_nat added) 0), 0)
  else Ret (b, -1).

Definition buf_align (b : buf_t) : outcome (buf_t * Z) :=
  let noff := buf_align_offset (len b) in
  '(b', ret) ← (if cap b <=? noff then buf_grow b BUF_ALIGNMENT else Ret (b, 0));
  if ret <? 0 then Ret (b', -1) else Ret (Buf (cap b') noff (data b'), 0).

Definition buf_reserve (b : buf_t) (nbytes : Z) : outcome (buf_t * Z) :=
  let nleft := u64 (cap b - len b) in
  if nleft <? nbytes then
    '(b', ret) ← buf_grow b (nbytes - nleft);
    if ret <? 0 then Ret (b', -1) else Ret (b', 0)
  else Ret (b, 0).

Definition buf_adata (b : buf_t) (bs : bytes) : outcome (buf_t * Z) :=
  if zlen bs =? 0 then Ret (b, 0)
  else
    '(b', ret) ← buf_reserve b (zlen bs);
    if ret =? 0 then
      d ← wrs (data b') (len b') bs;
      Ret (Buf (cap b') (u64 (len b' + zlen bs)) d, ret)
    else Ret (b', ret).

Definition buf_achar (b : buf_t) (ch : Z) : outcome (buf_t * Z) :=
  '(b', ret) ← buf_reserve b 1;
  if ret =? 0 then
    d ← wr (data b') (len b') (u8 ch);
    Ret (Buf (cap b') (len b' + 1) d, ret)
  else Ret (b', ret).

(** the second component is [*offset], set on success only *)
Definition buf_alloc (b : buf_t) (n : Z) : outcome (buf_t * option Z * Z) :=
  if n =? 0 then Ret (b, None, -1)
  else
    let off := len b in
    '(b', ret) ← buf_reserve b n;
    if negb (ret =? 0) then Ret (b', None, -1)
    else
      let nlen := u64 (len b' + n) in
      if nlen <? len b' then Ret (b', None, -1)
      else Ret (Buf (cap b') nlen (data b'), Some off, 0).

End Operations.

(** ** Invariant *)

Record wf (b : buf_t) : Prop := Wf {
  wf_len : 0 <= len b <= cap b;
  wf_data : zlen (data b) = cap b;
  wf_align : (BUF_ALIGNMENT | cap b);
  wf_bytes : Forall is_byte (data b);
}.

(** the bytes appended so far *)
Definition contents (b : buf_t) : bytes := take (Z.to_nat (len b)) (data b).

(** sizes far from the wrap-around of [size_t] *)
Definition small (b : buf_t) : Prop := cap b < 2 ^ 61.

Lemma align_offset_spec x : 0 <= x < 2 ^ 63 ->
  x <= buf_align_offset x < x + 8 /\ (8 | buf_align_offset x).
Proof.
  intros Hx. unfold buf_align_offset, BUF_ALIGNMENT.
  rewrite uw_small by lia. change (8 - 1) with (Z.ones 3).
  rewrite <- Z.ldiff_land, Z.ldiff_ones_r by lia.
  rewrite Z.shiftr_div_pow2, Z.shiftl_mul_pow2 by lia.
  change (2 ^ 3) with 8. change (Z.ones 3) with 7. split; [divmod_lia|]. exists ((x + 7) / 8). lia.
Qed.

Lemma align_offset_id x : 0 <= x < 2 ^ 63 -> (8 | x) -> buf_align_offset x = x.
Proof.
  intros Hx [k ->]. destruct (align_offset_spec (k * 8) Hx) as [Hb [j Hj]]. lia.
Qed.

Lemma contents_length b : wf b -> zlen (contents b) = len b.
Proof. intros [? ? _ _]. unfold contents. zlen_simpl. lia. Qed.

Lemma contents_bytes b : wf b -> Forall is_byte (contents b).
Proof. intros [_ _ _ H]. by apply Forall_take. Qed.

Lemma data_contents b : data b = contents b ++ drop (Z.to_nat (len b)) (data b).
Proof. unfold contents. by rewrite take_drop. Qed.

(** moving what follows the first [n] bytes to the front *)
Lemma shift_spec b n : wf b -> 0 < n < len b ->
  exists src d, rds (data b) n (len b - n) = Ret src /\ wrs (data b) 0 src = Ret d /\
    wf (Buf (cap b) (len b - n) d) /\ contents (Buf (cap b) (len b - n) d) = drop (Z.to_nat n) (contents b).
Proof.
  intros [Hl Hd Ha Hby] Hn.
  assert (Hsrc : rds (data b) n (len b - n) = Ret (drop (Z.to_nat n) (contents b))).
  { rewrite rds_in by lia. f_equal. unfold contents. rewrite skipn_firstn_comm. f_equal. lia. }
  assert (Hz : zlen (drop (Z.to_nat n) (contents b)) = len b - n) by (unfold contents; zlen_simpl; lia).
  assert (Hb : Forall is_byte (drop (Z.to_nat n) (contents b))) by (apply Forall_drop; unfold contents; by apply Forall_take).
  generalize dependent (drop (Z.to_nat n) (contents b)). intros src Hsrc Hz Hb. exists src. eexists. split; [done|].
  split; [apply wrs_in; lia|]. split.
  - constructor; simpl; try done; [lia| |].
    + rewrite zlen_app, zlen_drop. unfold zlen in *. lia.
    + apply Forall_app. split; [done|]. by apply Forall_drop.
  - unfold contents; simpl. rewrite take_app_le by (unfold zlen in Hz; lia). by rewrite take_ge by (unfold zlen in Hz; lia).
Qed.

Section Facts.
Context (alloc_ok : Z -> bool).

Lemma buf_grow_spec b needed : wf b -> small b -> 0 < needed < 2 ^ 61 ->
  exists b' r, buf_grow alloc_ok b needed = Ret (b', r) /\
    ((r = 0 /\ wf b' /\ len b' = len b /\ contents b' = contents b /\
      cap b + needed <= cap b' <= cap b + Z.max (cap b / 2) needed + 8) \/ (r = -1 /\ b' = b)).
Proof.
  intros [Hl Hd Ha Hby] Hs Hn. unfold small in Hs. unfold buf_grow.
  destruct (align_offset_spec (Z.shiftr (cap b) 1)) as [B0 A0];
    [rewrite Z.shiftr_div_pow2 by lia; divmod_lia|].
  destruct (align_offset_spec needed) as [B1 A1]; [lia|].
  rewrite Z.shiftr_div_pow2 in * by lia.
  set (added := if _ <? needed then _ else _).
  assert (Hadd : needed <= added <= Z.max (cap b / 2) needed + 8 /\ (8 | added)).
  { unfold added. change (2 ^ 1) with 2 in *. case_test; split; auto; lia. }
  assert (cap b / 2 <= cap b) by divmod_lia.
  clearbody added. destruct Hadd as [Hadd Hadd8]. rewrite uw_small by lia.
  case_test; [|eauto 6]. case_test; [lia|].
  do 2 eexists. split; [done|]. left.
  split_and!; simpl; [done|..|done| |lia|lia].
  - constructor; simpl; [lia|zlen_simpl; lia|by apply Z.divide_add_r|].
    apply Forall_app. split; [done|]. apply Forall_replicate. unfold is_byte; lia.
  - unfold contents; simpl. rewrite take_app_le; [done|]. unfold zlen in *; lia.
Qed.

Lemma buf_reserve_spec b n : wf b -> small b -> 0 < n < 2 ^ 61 ->
  exists b' r, buf_reserve alloc_ok b n = Ret (b', r) /\
    ((r = 0 /\ wf b' /\ len b' = len b /\ contents b' = contents b /\
      len b + n <= cap b' <= Z.max (cap b) (2 * (len b + n) + 16)) \/ (r = -1 /\ b' = b)).
Proof.
  intros Hwf Hs Hn. unfold buf_reserve. pose proof Hwf as [Hl _ _ _]. unfold small in Hs.
  rewrite uw_small by lia. case_test.
  - destruct (buf_grow_spec b (n - (cap b - len b)) Hwf Hs) as (b' & r & -> & H); [lia|].
    simpl. destruct H as [(-> & ? & ? & ? & ?)|[-> ->]]; simpl; [|by eauto 10].
    assert (2 * (cap b / 2) <= cap b) by divmod_lia.
    do 2 eexists; split; [done|]. left. split_and!; done || lia.
  - do 2 eexists; split; [done|]. left. split_and!; done || lia.
Qed.

(** storing a block right after the contents *)
Lemma store_after b bs : wf b -> len b + zlen bs <= cap b -> Forall is_byte bs ->
  exists d, wrs (data b) (len b) bs = Ret d /\ wf (Buf (cap b) (len b + zlen bs) d) /\
    contents (Buf (cap b) (len b + zlen bs) d) = contents b ++ bs.
Proof.
  intros [Hl Hd Ha Hby] Hc Hbs. pose proof (zlen_nonneg bs).
  eexists; split; [apply wrs_in; lia|]. split.
  - constructor; simpl; try done; try lia.
    + zlen_simpl. unfold zlen in *. lia.
    + rewrite !Forall_app. auto using Forall_take, Forall_drop.
  - unfold contents; simpl. rewrite app_assoc, take_app_le.
    + rewrite take_ge; [done|]. rewrite length_app, length_take. unfold zlen in *; lia.
    + rewrite length_app, length_take. unfold zlen in *; lia.
Qed.

(** a single byte is a block of one *)
Lemma wr_wrs {A} (l : list A) i (x : A) : wr l i x = wrs l i [x].
Proof.
  unfold wr, wrs. zlen_simpl. unfold zlen.
  destruct (Z.ltb_spec i 0), (Z.leb_spec 0 i), (Z.leb_spec (Z.of_nat (length l)) i),
    (Z.leb_spec (i + (1 + 0)) (Z.of_nat (length l))); try lia; simpl; try done.
  f_equal. rewrite insert_take_drop by lia. do 3 f_equal. lia.
Qed.

Lemma buf_adata_spec b bs : wf b -> small b -> Forall is_byte bs -> zlen bs < 2 ^ 61 ->
  exists b' r, buf_adata alloc_ok b bs = Ret (b', r) /\
    ((r = 0 /\ wf b' /\ contents b' = contents b ++ bs /\
      cap b' <= Z.max (cap b) (2 * (len b + zlen bs) + 16)) \/ (r = -1 /\ b' = b)).
Proof.
  intros Hwf Hs Hbs Hn. unfold buf_adata. pose proof (zlen_nonneg bs). case_test.
  - do 2 eexists; split; [done|]. left. split_and!; [done|done| |].
    + destruct bs; [by rewrite app_nil_r|]. zlen_simpl. pose proof (zlen_nonneg bs). lia.
    + lia.
  - destruct (buf_reserve_spec b (zlen bs) Hwf Hs)
      as (b' & r & -> & [(-> & Hwf' & El & Ec & Hcap)|[-> ->]]); [lia| |]; simpl; [|by eauto 10].
    destruct (store_after b' bs Hwf') as (d & -> & Hd & Hc); [lia|done|]. simpl.
    pose proof Hwf as [? _ _ _]. unfold small in Hs.
    rewrite uw_small by lia. do 2 eexists; split; [done|]. left. rewrite Hc, Ec.
    split_and!; simpl; done || lia.
Qed.

Lemma buf_achar_spec b ch : wf b -> small b ->
  exists b' r, buf_achar alloc_ok b ch = Ret (b', r) /\
    ((r = 0 /\ wf b' /\ contents b' = contents b ++ [u8 ch] /\
      cap b' <= Z.max (cap b) (2 * (len b + 1) + 16)) \/ (r = -1 /\ b' = b)).
Proof.
  intros Hwf Hs. unfold buf_achar.
  destruct (buf_reserve_spec b 1 Hwf Hs)
    as (b' & r & -> & [(-> & Hwf' & El & Ec & Hcap)|[-> ->]]); [lia| |]; simpl; [|by eauto 10].
  rewrite wr_wrs. destruct (store_after b' [u8 ch] Hwf') as (d & -> & Hd & Hc).
  - change (zlen [u8 ch]) with 1. lia.
  - repeat constructor; pose proof (uw_range 8 ch ltac:(lia)); lia.
  - simpl. do 2 eexists; split; [done|]. left.
    change (zlen [u8 ch]) with 1 in *. rewrite Hc, Ec. split_and!; simpl; done || lia.
Qed.

(** moving [len] forward exposes bytes the buffer already holds *)
Lemma extend_len b n : wf b -> len b <= n <= cap b ->
  wf (Buf (cap b) n (data b)) /\
  exists pad, contents (Buf (cap b) n (data b)) = contents b ++ pad /\ zlen pad = n - len b.
Proof.
  intros [Hl Hd Ha Hby] Hn. split; [constructor; simpl; done || lia|].
  exists (take (Z.to_nat n - Z.to_nat (len b)) (drop (Z.to_nat (len b)) (data b))).
  unfold contents; simpl. split.
  - rewrite <- (take_drop (Z.to_nat (len b)) (take (Z.to_nat n) (data b))) at 1.
    rewrite take_take, Nat.min_l by lia. by rewrite skipn_firstn_comm.
  - zlen_simpl. lia.
Qed.

Lemma buf_align_spec b : wf b -> small b ->
  exists b' r, buf_align alloc_ok b = Ret (b', r) /\
    ((r = 0 /\ wf b' /\ (8 | len b') /\
      exists pad, contents b' = contents b ++ pad /\ zlen pad < 8) \/ (r = -1 /\ b' = b)).
Proof.
  intros Hwf Hs. unfold buf_align. pose proof Hwf as [Hl Hd Ha _]. unfold small in Hs.
  destruct (align_offset_spec (len b)) as [B A]; [lia|].
  assert (Hle : buf_align_offset (len b) <= cap b).
  { destruct A as [j Hj]. destruct Ha as [k Hk]. unfold BUF_ALIGNMENT in Hk. lia. }
  case_test.
  - destruct (buf_grow_spec b BUF_ALIGNMENT Hwf Hs)
      as (b' & r & -> & [(-> & Hwf' & El & Ec & [Hcap _])|[-> ->]]);
      [unfold BUF_ALIGNMENT; lia| |]; simpl; [|by eauto 10]. unfold BUF_ALIGNMENT in Hcap.
    destruct (extend_len b' (buf_align_offset (len b)) Hwf') as (Hw & pad & Hp & Hpl); [lia|].
    do 2 eexists; split; [done|]. left. split_and!; auto.
    exists pad. rewrite Hp, Ec. split; [done|lia].
  - destruct (extend_len b (buf_align_offset (len b)) Hwf) as (Hw & pad & Hp & Hpl); [lia|].
    simpl. do 2 eexists; split; [done|]. left. split_and!; auto.
    exists pad. split; [done|lia].
Qed.

Lemma buf_alloc_spec b n : wf b -> small b -> 0 <= n < 2 ^ 61 ->
  exists b' o r, buf_alloc alloc_ok b n = Ret (b', o, r) /\
    ((r = 0 /\ o = Some (len b) /\ wf b' /\
      exists blk, contents b' = contents b ++ blk /\ zlen blk = n) \/
     (r = -1 /\ o = None /\ b' = b)).
Proof.
  intros Hwf Hs Hn. unfold buf_alloc. case_test; [by eauto 10|].
  destruct (buf_reserve_spec b n Hwf Hs)
    as (b' & r & -> & [(-> & Hwf' & El & Ec & Hcap)|[-> ->]]); [lia| |]; simpl; [|by eauto 10].
  pose proof Hwf as [Hl _ _ _]. unfold small in Hs. rewrite uw_small by lia.
  case_test; [lia|]. do 3 eexists; split; [done|]. left. rewrite El in *.
  destruct (extend_len b' (len b + n) Hwf') as (Hw & blk & Hp & Hpl); [lia|].
  split_and!; auto. exists blk. rewrite Hp, Ec. split; [done|lia].
Qed.

(** appends under a bound [K] on the capacity, for clients that make several *)
Definition fits (K : Z) (b : buf_t) : Prop := wf b /\ cap b <= K /\ K < 2 ^ 61.

Lemma clear_fits K b : fits K b -> fits K (buf_clear b) /\ contents (buf_clear b) = [].
Proof. intros ([Hl Hd Ha Hb] & ? & ?). split; [|done]. split; [|done]. constructor; cbn; done || lia. Qed.

Lemma buf_adata_fits K b bs : fits K b -> Forall is_byte bs ->
  2 * (len b + zlen bs) + 16 <= K ->
  exists b' r, buf_adata alloc_ok b bs = Ret (b', r) /\ fits K b' /\
    ((r = 0 /\ contents b' = contents b ++ bs) \/ (r = -1 /\ b' = b)).
Proof.
  intros (Hwf & Hc & HK) Hbs Hr. pose proof Hwf as [? _ _ _].
  destruct (buf_adata_spec b bs) as (b' & r & -> & [(-> & ? & ? & ?)|[-> ->]]);
    [done|unfold small; lia|done|lia| |]; do 2 eexists; (split; [done|]); unfold fits;
    split_and!; auto; lia.
Qed.

Lemma buf_achar_fits K b ch : fits K b -> 2 * (len b + 1) + 16 <= K ->
  exists b' r, buf_achar alloc_ok b ch = Ret (b', r) /\ fits K b' /\
    ((r = 0 /\ contents b' = contents b ++ [u8 ch]) \/ (r = -1 /\ b' = b)).
Proof.
  intros (Hwf & Hc & HK) Hr. pose proof Hwf as [? _ _ _].
  destruct (buf_achar_spec b ch) as (b' & r & -> & [(-> & ? & ? & ?)|[-> ->]]);
    [done|unfold small; lia| |]; do 2 eexists; (split; [done|]); unfold fits;
    split_and!; auto; lia.
Qed.

End Facts.

(** ** With memory *)

Section Succeeds.
Context (alloc_ok : Z -> bool) (Halloc : forall n, alloc_ok n = true).

Lemma buf_grow_ok b n b' r : buf_grow alloc_ok b n = Ret (b', r) -> r = 0.
Proof. unfold buf_grow. rewrite Halloc. case_match; [done|]. by intros [= _ <-]. Qed.

Lemma buf_reserve_ok b n b' r : buf_reserve alloc_ok b n = Ret (b', r) -> r = 0.
Proof.
  unfold buf_reserve. case_test; [|by intros [= _ <-]]. destruct (buf_grow _ _ _) as [[b1 r1]| |] eqn:E; [|done|done].
  apply buf_grow_ok in E as ->. cbn. by intros [= _ <-].
Qed.

Lemma buf_adata_ok b bs b' r : buf_adata alloc_ok b bs = Ret (b', r) -> r = 0.
Proof.
  unfold buf_adata. case_test; [by intros [= _ <-]|]. destruct (buf_reserve _ _ _) as [[b1 r1]| |] eqn:E; [|done|done].
  apply buf_reserve_ok in E as ->. cbn. destruct (wrs _ _ _); cbn; [|done|done]. by intros [= _ <-].
Qed.

Lemma buf_achar_ok b c b' r : buf_achar alloc_ok b c = Ret (b', r) -> r = 0.
Proof.
  unfold buf_achar. destruct (buf_reserve _ _ _) as [[b1 r1]| |] eqn:E; [|done|done].
  apply buf_reserve_ok in E as ->. cbn. destruct (wr _ _ _); cbn; [|done|done]. by intros [= _ <-].
Qed.

Lemma buf_align_ok b b' r : buf_align alloc_ok b = Ret (b', r) -> r = 0.
Proof.
  unfold buf_align. case_test; [|by intros [= _ <-]]. destruct (buf_grow _ _ _) as [[b1 r1]| |] eqn:E; [|done|done].
  apply buf_grow_ok in E as ->. cbn. by intros [= _ <-].
Qed.

(** the operations on a buffer with room below [K] *)
Lemma buf_adata_all K b bs : fits K b -> Forall is_byte bs -> 2 * (len b + zlen bs) + 16 <= K ->
  exists b', buf_adata alloc_ok b bs = Ret (b', 0) /\ fits K b' /\ contents b' = contents b ++ bs.
Proof.
  intros Hf Hbs Hr. destruct (buf_adata_fits alloc_ok K b bs Hf Hbs Hr) as (b' & r & E & Hf' & Hc).
  pose proof (buf_adata_ok _ _ _ _ E) as ->. destruct Hc as [[_ Hc]|[? _]]; [|done]. by exists b'.
Qed.

Lemma buf_align_all K b : fits K b -> 2 * len b + 40 <= K ->
  exists b', buf_align alloc_ok b = Ret (b', 0) /\ fits K b' /\ (8 | len b') /\ exists pad, contents b' = contents b ++ pad /\ zlen pad < 8.
Proof.
  intros (Hwf & Hcap & HK) Hr. assert (Hs : small b) by (unfold small; lia).
  destruct (buf_align_spec alloc_ok b Hwf Hs) as (b' & r & E & Hc). pose proof (buf_align_ok _ _ _ E) as ->.
  destruct Hc as [(_ & Hwf' & Ha & Hp)|[? _]]; [|done]. exists b'. split; [done|]. split; [|done]. split; [done|]. split; [|done].
  unfold buf_align in E. pose proof Hwf as [Hl _ _ _]. destruct (align_offset_spec (len b)) as [B _]; [lia|].
  destruct (Z.leb_spec (cap b) (buf_align_offset (len b))).
  - destruct (buf_grow_spec alloc_ok b BUF_ALIGNMENT Hwf Hs) as (b1 & r1 & Eg & Hg); [unfold BUF_ALIGNMENT; lia|].
    rewrite Eg in E. cbn [mbind outcome_mbind] in E. destruct (Z.ltb_spec r1 0); [by injection E|]. injection E as <-. cbn [cap].
    destruct Hg as [(_ & _ & _ & _ & _ & Hcap1)|[? _]]; [|lia]. unfold BUF_ALIGNMENT in Hcap1.
    assert (cap b / 2 <= cap b) by divmod_lia. lia.
  - cbn [mbind outcome_mbind] in E. by injection E as <-.
Qed.

End Succeeds.

(** ** Refinement of a byte string

    The abstract buffer is the byte string appended so far; every operation
    is a step of it, failed allocations leave it as it was. *)

Inductive op :=
  | Adata (bs : bytes) | Achar (ch : Z) | Align | Alloc (n : Z)
  | Clear | Shrink (n : Z) | Truncate (n : Z).

Definition exec (alloc_ok : Z -> bool) (o : op) (b : buf_t) : outcome (buf_t * Z) :=
  match o with
  | Adata bs => buf_adata alloc_ok b bs
  | Achar ch => buf_achar alloc_ok b ch
  | Align => buf_align alloc_ok b
  | Alloc n => '(b', _, r) ← buf_alloc alloc_ok b n; Ret (b', r)
  | Clear => Ret (buf_clear b, 0)
  | Shrink n => Ret (buf_shrink b n, 0)
  | Truncate n => Ret (buf_truncate b n, 0)
  end.

Definition op_ok (o : op) : Prop :=
  match o with
  | Adata bs => Forall is_byte bs /\ zlen bs < 2 ^ 61
  | Alloc n => 0 <= n < 2 ^ 61
  | Shrink n | Truncate n => 0 <= n
  | _ => True
  end.

Inductive spec : op -> bytes -> Z -> bytes -> Prop :=
  | spec_fail o l : spec o l (-1) l
  | spec_adata bs l : spec (Adata bs) l 0 (l ++ bs)
  | spec_achar ch l : spec (Achar ch) l 0 (l ++ [u8 ch])
  | spec_align l pad : (8 | zlen (l ++ pad)) -> zlen pad < 8 -> spec Align l 0 (l ++ pad)
  | spec_alloc n l blk : zlen blk = n -> spec (Alloc n) l 0 (l ++ blk)
  | spec_clear l : spec Clear l 0 []
  | spec_shrink n l : spec (Shrink n) l 0 (take (length l - Z.to_nat n) l)
  | spec_truncate n l : spec (Truncate n) l 0 (take (Z.to_nat n) l).

Lemma cut_len b n : wf b -> 0 <= n <= len b ->
  wf (Buf (cap b) n (data b)) /\
  contents (Buf (cap b) n (data b)) = take (Z.to_nat n) (contents b).
Proof.
  intros [Hl Hd Ha Hby] Hn. split; [constructor; simpl; done || lia|].
  unfold contents; simpl. rewrite take_take, Nat.min_l by lia. done.
Qed.

(** C26: every buffer operation refines its step on the byte string, keeps the
    buffer well formed and never touches memory outside [data]. *)
Theorem buf_refines alloc_ok o b :
  wf b -> small b -> op_ok o ->
  exists b' r, exec alloc_ok o b = Ret (b', r) /\ wf b' /\
    spec o (contents b) r (contents b').
Proof.
  intros Hwf Hs Ho. pose proof (contents_length b Hwf) as Hcl. pose proof Hwf as [Hl _ _ _].
  destruct o as [bs|ch| |n| |n|n]; simpl in *.
  - destruct (buf_adata_spec alloc_ok b bs) as (b' & r & -> & [(-> & ? & E & _)|[-> ->]]);
      [done..|tauto|tauto| |]; [|by eauto 6 using spec].
    do 2 eexists; split_and!; [done..|]. rewrite E. constructor.
  - destruct (buf_achar_spec alloc_ok b ch) as (b' & r & -> & [(-> & ? & E & _)|[-> ->]]);
      [done..| |]; [|by eauto 6 using spec].
    do 2 eexists; split_and!; [done..|]. rewrite E. constructor.
  - destruct (buf_align_spec alloc_ok b)
      as (b' & r & -> & [(-> & Hw & ? & pad & Hp & ?)|[-> ->]]); [done..| |]; [|by eauto 6 using spec].
    do 2 eexists; split_and!; [done..|]. rewrite Hp. constructor; [|done].
    by rewrite <- Hp, contents_length.
  - destruct (buf_alloc_spec alloc_ok b n)
      as (b' & off & r & -> & [(-> & _ & Hw & blk & Hp & ?)|(-> & _ & ->)]); [done..| |];
      simpl; [|by eauto 6 using spec].
    do 2 eexists; split_and!; [done..|]. rewrite Hp. by constructor.
  - do 2 eexists; split_and!; [done| |apply spec_clear]. destruct (cut_len b 0) as [? _]; [done|lia|done].
  - do 2 eexists; split; [done|]. unfold buf_shrink.
    destruct (cut_len b (if len b <? n then 0 else len b - n)) as [? E]; [done|case_test; lia|].
    split; [done|]. rewrite E. unfold zlen in Hcl.
    replace (Z.to_nat _) with (length (contents b) - Z.to_nat n)%nat by (case_test; lia).
    constructor.
  - do 2 eexists; split; [done|]. unfold buf_truncate. case_test.
    + destruct (cut_len b n) as [? E]; [done|lia|]. rewrite E. split; [done|constructor].
    + split; [done|]. rewrite <- (take_ge (contents b) (Z.to_nat n)) at 2; [constructor|].
      unfold zlen in Hcl. lia.
Qed.

Definition all_ok : Z -> bool := fun _ => true.

Lemma buf_refines_witness :
  exists b, buf_init all_ok 16 = Some b /\ wf b /\ contents b = [] /\
  exists b', exec all_ok (Adata (lit "abc")) b = Ret (b', 0) /\ wf b' /\
    spec (Adata (lit "abc")) [] 0 (contents b').
Proof.
  eexists. split; [reflexivity|].
  assert (Hwf : wf (Buf 16 0 (replicate (Z.to_nat 16) 0))).
  { constructor; simpl; [lia|done|by exists 2|repeat constructor; unfold is_byte; lia]. }
  split; [exact Hwf|]. split; [reflexivity|].
  destruct (buf_refines all_ok (Adata (lit "abc")) _ Hwf) as (b' & r & E & Hw & Hsp).
  - unfold small; simpl; lia.
  - simpl. split; [repeat constructor; unfold is_byte; lia|reflexivity].
  - exists b'. vm_compute in E. injection E as <- <-. split; [reflexivity|]. split; [exact Hw|exact Hsp].
Defined.
