(* ===== verification/Netstring.v ===== *)
(** * Netstrings: src/lib/util/netstring.c

    A pointer into a buffer is an offset into the object [m] that holds the
    buffer; [base] is the offset the code's [src] or [data] points to. *)

From S2P Require Import Prelude Buf.

Definition NETSTRING_OK : Z := 0.
Definition NETSTRING_ERRFMT : Z := -1.
Definition NETSTRING_ERRTOOLARGE : Z := -2.
Definition NETSTRING_ERRINCOMPLETE : Z := -3.
Definition NETSTRING_ERRMEM : Z := -4.

Definition CR : Z := 13.
Definition LF : Z := 10.
Definition TAB : Z := 9.
Definition SP : Z := 32.
Definition CH_0 : Z := 48.
Definition CH_9 : Z := 57.
Definition COLON : Z := 58.
Definition COMMA : Z := 44.

Definition NETSTRING_WS (c : Z) : bool :=
  (c =? CR) || (c =? LF) || (c =? TAB) || (c =? SP).

Definition is_digit (c : Z) : bool := (CH_0 <=? c) && (c <=? CH_9).

(** ** Parsing *)

Inductive pstate := NETSTRING_SWS | NETSTRING_SLEN | NETSTRING_SDATA.

(** The body of the [for] loop of [_netstring_parse]; [n] is the number of
    iterations left, [srclen - i].  The result is the offset and length of the
    data, or an error code. *)
Fixpoint netstring_parse_loop (n : nat) (m : bytes) (base srclen i : Z) (st : pstate)
    (len : Z) : outcome ((Z * Z) + Z) :=
  match n with
  | O => Ret (inr NETSTRING_ERRINCOMPLETE)
  | S n =>
    c ← rd m (base + i);
    let slen :=
      if is_digit c then
        let lenbuf := u64 (u64 (len * 10) + (c - CH_0)) in
        if lenbuf <? len then Ret (inr NETSTRING_ERRTOOLARGE)
        else netstring_parse_loop n m base srclen (i + 1) NETSTRING_SLEN lenbuf
      else if (0 <? i) && (c =? COLON) then
        netstring_parse_loop n m base srclen (i + 1) NETSTRING_SDATA len
      else Ret (inr NETSTRING_ERRFMT) in
    match st with
    | NETSTRING_SWS =>
        if NETSTRING_WS c
        then netstring_parse_loop n m base srclen (i + 1) NETSTRING_SWS len
        else slen
    | NETSTRING_SLEN => slen
    | NETSTRING_SDATA =>
        if srclen <=? u64 (i + len) then Ret (inr NETSTRING_ERRINCOMPLETE)
        else
          c' ← rd m (base + u64 (i + len));
          if negb (c' =? COMMA) then Ret (inr NETSTRING_ERRFMT)
          else Ret (inl (i, len))
    end
  end.

Definition _netstring_parse (m : bytes) (base srclen : Z) : outcome ((Z * Z) + Z) :=
  netstring_parse_loop (Z.to_nat srclen) m base srclen 0 NETSTRING_SWS 0.

(** return value and, on success, [*nextoff] *)
Definition netstring_tryparse (m : bytes) (base srclen : Z) : outcome (Z * option Z) :=
  r ← _netstring_parse m base srclen;
  match r with
  | inl (nsoff, nslen) => Ret (NETSTRING_OK, Some (u64 (nsoff + nslen + 1)))
  | inr e => Ret (e, None)
  end.

(** [netstring_parse]: the terminating comma is overwritten; the result holds
    the object afterwards and, on success, the offset of [*out] in it and
    [*outlen]. *)
Definition netstring_parse (m : bytes) (base srclen : Z) : outcome (bytes * ((Z * Z) + Z)) :=
  r ← _netstring_parse m base srclen;
  match r with
  | inl (nsoff, nslen) =>
      m' ← wr m (base + u64 (nsoff + nslen)) 0;
      Ret (m', inl (base + nsoff, nslen))
  | inr e => Ret (m, inr e)
  end.

(** [netstring_next]: [data] and [datalen] are advanced past the netstring. *)
Definition netstring_next (m : bytes) (data datalen : Z)
    : outcome (bytes * ((Z * Z) + Z) * Z * Z) :=
  if datalen =? 0 then Ret (m, inr NETSTRING_ERRINCOMPLETE, data, datalen)
  else
    '(m', r) ← netstring_parse m data datalen;
    match r with
    | inr e => Ret (m', inr e, data, datalen)
    | inl (out, outlen) =>
        let next_off := u64 (out + outlen + 1 - data) in
        if datalen <? next_off then Ret (m', inr NETSTRING_ERRINCOMPLETE, data, datalen)
        else Ret (m', inl (out, outlen), data + next_off, datalen - next_off)
    end.

Record netstring_pair := Pair { key : Z; keylen : Z; value : Z; valuelen : Z }.

Definition netstring_next_pair (m : bytes) (data datalen : Z)
    : outcome (bytes * (netstring_pair + Z) * Z * Z) :=
  if datalen =? 0 then Ret (m, inr NETSTRING_ERRINCOMPLETE, data, datalen)
  else
    '(m, r) ← netstring_parse m data datalen;
    match r with
    | inr e => Ret (m, inr e, data, datalen)
    | inl (k, kl) =>
        let next_off := u64 (k + kl + 1 - data) in
        if datalen <=? next_off then Ret (m, inr NETSTRING_ERRINCOMPLETE, data, datalen)
        else
          '(m, r) ← netstring_parse m (data + next_off) (datalen - next_off);
          match r with
          | inr _ => Ret (m, inr NETSTRING_ERRINCOMPLETE, data, datalen)
          | inl (v, vl) =>
              let next_off := u64 (v + vl + 1 - data) in
              Ret (m, inl (Pair k kl v vl), data + next_off, datalen - next_off)
          end
    end.

(** ** Formatting *)

Section Append.
Context (alloc_ok : Z -> bool).

(** The [do ... while] loop that writes the decimal digits of [tmplen] downwards
    from the end of [szbuf]; [room] is the number of bytes left below [szptr]. *)
Fixpoint dec_digits (room : nat) (tmplen : Z) (acc : bytes) : outcome bytes :=
  match room with
  | O => OutOfBounds
  | S room =>
      let acc' := (CH_0 + tmplen mod 10) :: acc in
      let tmplen' := tmplen / 10 in
      if tmplen' =? 0 then Ret acc' else dec_digits room tmplen' acc'
  end.

(** [sizeof(szbuf)] is 48 and the colon takes its last byte *)
Definition netstring_append_buf (b : buf_t) (str : bytes) : outcome (buf_t * Z) :=
  let oldlen := len b in
  let fail b' := Ret (Buf (cap b') oldlen (data b'), NETSTRING_ERRMEM) in
  hdr ← dec_digits 47 (zlen str) [COLON];
  '(b, ret) ← buf_adata alloc_ok b hdr;
  if ret <? 0 then fail b else
  '(b, ret) ← buf_adata alloc_ok b str;
  if ret <? 0 then fail b else
  '(b, ret) ← buf_achar alloc_ok b COMMA;
  if ret <? 0 then fail b else Ret (b, NETSTRING_OK).

Fixpoint netstring_append_elems (b : buf_t) (elems : list bytes) : outcome (buf_t * Z) :=
  match elems with
  | [] => Ret (b, NETSTRING_OK)
  | e :: elems =>
      '(b, ret) ← netstring_append_buf b e;
      if negb (ret =? NETSTRING_OK) then Ret (b, ret) else netstring_append_elems b elems
  end.

Definition netstring_append_list (b : buf_t) (elems : list bytes) : outcome (buf_t * Z) :=
  let oldlen := len b in
  '(b, ret) ← netstring_append_elems b elems;
  if ret =? NETSTRING_OK then Ret (b, ret) else Ret (Buf (cap b) oldlen (data b), ret).

Definition netstring_append_pair (b : buf_t) (str0 str1 : bytes) : outcome (buf_t * Z) :=
  let oldlen := len b in
  '(b, ret) ← netstring_append_buf b str0;
  if negb (ret =? NETSTRING_OK) then Ret (Buf (cap b) oldlen (data b), ret) else
  '(b, ret) ← netstring_append_buf b str1;
  if negb (ret =? NETSTRING_OK) then Ret (Buf (cap b) oldlen (data b), ret) else
  Ret (b, NETSTRING_OK).

End Append.

(** ** The grammar of netstrings *)

(** the decimal value of a string of digits *)
Definition dval (v : Z) (ds : bytes) : Z := foldl (fun v c => v * 10 + (c - CH_0)) v ds.

Definition all_ws : bytes -> Prop := Forall (fun c => NETSTRING_WS c = true).
Definition all_digits : bytes -> Prop := Forall (fun c => is_digit c = true).

(** [s] starts with a netstring of data [payload] at offset [off] *)
Inductive is_netstring (s : bytes) (off : Z) (payload : bytes) : Prop :=
  | is_netstring_intro ws ds rest :
      all_ws ws -> all_digits ds -> ws ++ ds <> [] -> dval 0 ds = zlen payload ->
      off = zlen (ws ++ ds) + 1 ->
      s = ws ++ ds ++ COLON :: payload ++ COMMA :: rest ->
      is_netstring s off payload.

Lemma digit_range c : is_digit c = true -> 0 <= c - CH_0 <= 9.
Proof. unfold is_digit, CH_0, CH_9. intros; zbool. lia. Qed.

Lemma dval_snoc v ds c : dval v (ds ++ [c]) = dval v ds * 10 + (c - CH_0).
Proof. unfold dval. by rewrite foldl_app. Qed.

Lemma dval_cons v c ds : dval v (c :: ds) = dval (v * 10 + (c - CH_0)) ds.
Proof. done. Qed.

Lemma dval_nonneg ds : forall v, 0 <= v -> all_digits ds -> v <= dval v ds.
Proof.
  induction ds as [|c ds IH]; intros v Hv Hd; [done|].
  apply Forall_cons in Hd as [Hc Hd]. apply digit_range in Hc. cbn.
  etrans; [|apply IH; [|done]]; lia.
Qed.

Lemma ws_not_comma c : NETSTRING_WS c = true -> c <> COMMA.
Proof. unfold NETSTRING_WS. intros H ->. by vm_compute in H. Qed.
Lemma digit_not_comma c : is_digit c = true -> c <> COMMA.
Proof. intros H ->. by vm_compute in H. Qed.

(** ** Soundness and memory safety of the parser *)

Section Sound.
Context (pre s post : bytes) (small_src : zlen s <= 2 ^ 60).
Abbreviation m := (pre ++ s ++ post).

(** the length read so far is the decimal value, or too big to be accepted *)
Definition len_ok (len : Z) (ds : bytes) : Prop :=
  0 <= len < 2 ^ 64 /\ (len = dval 0 ds \/ 2 ^ 60 < len).

Definition loop_inv (i : Z) (st : pstate) (len : Z) : Prop :=
  0 <= i <= zlen s /\
  match st with
  | NETSTRING_SWS => all_ws (take (Z.to_nat i) s) /\ len = 0
  | NETSTRING_SLEN => exists ws ds, take (Z.to_nat i) s = ws ++ ds /\ all_ws ws /\
      all_digits ds /\ len_ok len ds /\ 0 < i
  | NETSTRING_SDATA => exists ws ds, take (Z.to_nat i) s = ws ++ ds ++ [COLON] /\ all_ws ws /\
      all_digits ds /\ ws ++ ds <> [] /\ len_ok len ds
  end.

Lemma len_ok_step len ds c : is_digit c = true -> len_ok len ds ->
  let lenbuf := u64 (u64 (len * 10) + (c - CH_0)) in
  len <= lenbuf -> len_ok lenbuf (ds ++ [c]).
Proof.
  intros Hc [Hl Hd] lenbuf Hle. pose proof (digit_range c Hc). unfold len_ok.
  rewrite dval_snoc. subst lenbuf. rewrite uw_mod_add in * by lia.
  pose proof (uw_range 64 (len * 10 + (c - CH_0)) ltac:(lia)).
  split; [lia|].
  destruct (decide (len * 10 + (c - CH_0) < 2 ^ 64)) as [Hs|Hs].
  - rewrite uw_small in * by lia. lia.
  - right. lia.
Qed.

Lemma prefix_no_comma i j st len : loop_inv i st len -> 0 <= j < i -> rd s j <> Ret COMMA.
Proof.
  intros [Hi Hinv] Hj [_ Hr]%rd_ret.
  assert (Hin : COMMA ∈ take (Z.to_nat i) s).
  { apply list_elem_of_lookup. exists (Z.to_nat j). by rewrite lookup_take_lt by lia. }
  assert (Hw : forall ws : bytes, all_ws ws -> COMMA ∉ ws).
  { intros ws Hws H. unfold all_ws in Hws. rewrite Forall_forall in Hws.
    by apply Hws, ws_not_comma in H. }
  assert (Hd : forall ds : bytes, all_digits ds -> COMMA ∉ ds).
  { intros ds Hds H. unfold all_digits in Hds. rewrite Forall_forall in Hds.
    by apply Hds, digit_not_comma in H. }
  destruct st.
  - destruct Hinv as [Hws _]. by apply (Hw _ Hws).
  - destruct Hinv as (ws & ds & E & Hws & Hds & _). rewrite E in Hin.
    apply elem_of_app in Hin as [?|?]; [by eapply Hw|by eapply Hd].
  - destruct Hinv as (ws & ds & E & Hws & Hds & _). rewrite E in Hin.
    rewrite !elem_of_app, list_elem_of_singleton in Hin.
    destruct Hin as [?|[?|?]]; [by eapply Hw|by eapply Hd|done].
Qed.

Definition parse_result_ok (r : outcome ((Z * Z) + Z)) : Prop :=
  match r with
  | Ret (inl (off, l)) => exists payload, is_netstring s off payload /\ l = zlen payload
  | Ret (inr e) => e < 0
  | _ => False
  end.

Lemma read_slice i : 0 <= i < zlen s ->
  exists c, rd m (zlen pre + i) = Ret c /\ rd s i = Ret c.
Proof. intros Hi. rewrite rd_slice by done. destruct (rd_in s i Hi) as (c & E & _). eauto. Qed.

Lemma accept i len : 0 <= i < zlen s -> loop_inv i NETSTRING_SDATA len ->
  u64 (i + len) < zlen s -> rd s (u64 (i + len)) = Ret COMMA ->
  exists payload, is_netstring s i payload /\ len = zlen payload.
Proof.
  intros Hi Hinv Hlt Hc. pose proof (prefix_no_comma i (u64 (i + len)) _ _ Hinv) as Hnc.
  destruct Hinv as [_ (ws & ds & Et & Hws & Hds & Hne & Hl & Hd)].
  assert (Hw : u64 (i + len) = i + len).
  { apply uw_small. destruct (decide (i + len < 2 ^ 64)) as [|Hge]; [lia|].
    exfalso. apply Hnc; [|done]. unfold uw.
    rewrite <- (Z.mod_unique_pos (i + len) (2 ^ 64) 1 (i + len - 2 ^ 64)) by lia. lia. }
  rewrite Hw in Hlt, Hc. clear Hnc Hw.
  exists (take (Z.to_nat len) (drop (Z.to_nat i) s)).
  assert (Hlen : zlen (take (Z.to_nat len) (drop (Z.to_nat i) s)) = len) by (zlen_simpl; lia).
  split; [|lia]. apply (is_netstring_intro _ _ _ ws ds (drop (Z.to_nat (i + len + 1)) s)); auto.
  - lia.
  - apply (f_equal zlen) in Et. zlen_simpl. lia.
  - rewrite <- (take_drop (Z.to_nat i) s) at 1. rewrite Et, <- !app_assoc. simpl.
    do 3 f_equal. rewrite <- (take_drop (Z.to_nat len) (drop (Z.to_nat i) s)) at 1. f_equal.
    rewrite drop_drop. replace (Z.to_nat i + Z.to_nat len)%nat with (Z.to_nat (i + len)) by lia.
    by apply drop_rd.
Qed.

Lemma parse_loop_sound n : forall i st len,
  i + Z.of_nat n = zlen s -> loop_inv i st len ->
  parse_result_ok (netstring_parse_loop n m (zlen pre) (zlen s) i st len).
Proof.
  induction n as [|n IH]; intros i st len Hn Hinv; [done|].
  cbn [netstring_parse_loop]. destruct Hinv as [Hi Hst] eqn:Hinv'. clear Hinv'.
  destruct (read_slice i) as (c & Hm & Hs); [lia|]. rewrite Hm. simpl.
  pose proof (take_S_rd _ _ _ Hs) as Htake.
  assert (Hslen : forall ws ds, take (Z.to_nat i) s = ws ++ ds -> all_ws ws -> all_digits ds ->
    len_ok len ds ->
    parse_result_ok (if is_digit c then
        if u64 (u64 (len * 10) + (c - CH_0)) <? len then Ret (inr NETSTRING_ERRTOOLARGE)
        else netstring_parse_loop n m (zlen pre) (zlen s) (i + 1) NETSTRING_SLEN
               (u64 (u64 (len * 10) + (c - CH_0)))
      else if (0 <? i) && (c =? COLON) then
        netstring_parse_loop n m (zlen pre) (zlen s) (i + 1) NETSTRING_SDATA len
      else Ret (inr NETSTRING_ERRFMT))).
  { intros ws ds Et Hws Hds Hok. repeat case_test; try (by simpl); apply IH; try lia.
    - split; [lia|]. exists ws, (ds ++ [c]). rewrite Htake, Et, <- app_assoc.
      split_and!; auto; [by apply Forall_app; split; [|constructor]| |lia].
      by apply len_ok_step.
    - split; [lia|]. exists ws, ds. subst c. rewrite Htake, Et, <- app_assoc.
      split_and!; auto. intros E. rewrite E in Et.
      apply (f_equal zlen) in Et. zlen_simpl. lia. }
  destruct st.
  - destruct Hst as [Hws ->]. case_test.
    + apply IH; [lia|]. split; [lia|]. rewrite Htake. split; [|done].
      apply Forall_app. by split; [|constructor].
    + apply (Hslen (take (Z.to_nat i) s) []); [by rewrite app_nil_r|done|constructor|].
      split; [lia|]. by left.
  - destruct Hst as (ws & ds & ? & ? & ? & ? & _). by apply (Hslen ws ds).
  - case_test; [by simpl|]. pose proof (uw_range 64 (i + len) ltac:(lia)).
    destruct (read_slice (u64 (i + len))) as (c' & Hm' & Hs'); [lia|]. rewrite Hm'. simpl.
    case_test; [by simpl|]. subst c'. simpl. apply accept; [lia|by split|done|done].
Qed.
End Sound.

(** ** Completeness of the parser *)

Section Complete.
Context (pre s post : bytes).
Abbreviation m := (pre ++ s ++ post).
Abbreviation loop := (fun n i st len => netstring_parse_loop n m (zlen pre) (zlen s) i st len).

Lemma read_at k c tl : s = k ++ c :: tl -> rd m (zlen pre + zlen k) = Ret c.
Proof.
  intros E. pose proof (zlen_nonneg tl). pose proof (zlen_nonneg k).
  rewrite rd_slice by (rewrite E; zlen_simpl; lia). rewrite E. apply rd_mid.
Qed.

Lemma loop_ws w : forall k tl n len, s = k ++ w ++ tl -> all_ws w ->
  loop (length w + n)%nat (zlen k) NETSTRING_SWS len
  = loop n (zlen k + zlen w) NETSTRING_SWS len.
Proof.
  induction w as [|c w IH]; intros k tl n len E Hw; [by rewrite zlen_nil, Z.add_0_r|].
  apply Forall_cons in Hw as [Hc Hw]. cbn [length Nat.add netstring_parse_loop].
  rewrite (read_at k c (w ++ tl)) by done. cbn. rewrite Hc.
  specialize (IH (k ++ [c]) tl n len). zlen_simpl.
  replace (zlen k + (1 + zlen w)) with (zlen k + (1 + 0) + zlen w) by lia.
  rewrite <- IH; [f_equal; lia|by rewrite E, <- app_assoc|done].
Qed.

Lemma loop_digits d : forall k tl n len, s = k ++ d ++ tl -> all_digits d ->
  0 <= len -> dval len d < 2 ^ 64 ->
  loop (length d + n)%nat (zlen k) NETSTRING_SLEN len
  = loop n (zlen k + zlen d) NETSTRING_SLEN (dval len d).
Proof.
  induction d as [|c d IH]; intros k tl n len E Hd Hl Hb; [by rewrite zlen_nil, Z.add_0_r|].
  apply Forall_cons in Hd as [Hc Hd]. cbn [length Nat.add netstring_parse_loop].
  rewrite (read_at k c (d ++ tl)) by done. cbn [mbind outcome_mbind]. rewrite Hc.
  pose proof (digit_range c Hc). rewrite dval_cons in *. pose proof (dval_nonneg d (len * 10 + (c - CH_0)) ltac:(lia) Hd) as Hge.
  rewrite uw_mod_add, uw_small by lia. case_test; [lia|].
  specialize (IH (k ++ [c]) tl n (len * 10 + (c - CH_0))). zlen_simpl.
  replace (zlen k + (1 + zlen d)) with (zlen k + (1 + 0) + zlen d) by lia.
  rewrite <- IH; [f_equal; lia|by rewrite E, <- app_assoc|done|lia|done].
Qed.

Lemma loop_skip_ws n k c tl len : s = k ++ c :: tl -> NETSTRING_WS c = false ->
  loop (S n) (zlen k) NETSTRING_SWS len = loop (S n) (zlen k) NETSTRING_SLEN len.
Proof.
  intros E Hc. cbn [netstring_parse_loop]. rewrite (read_at k c tl) by done. cbn. by rewrite Hc.
Qed.

Lemma loop_colon n k tl len st : s = k ++ COLON :: tl -> 0 < zlen k -> st <> NETSTRING_SDATA ->
  loop (S n) (zlen k) st len = loop n (zlen k + 1) NETSTRING_SDATA len.
Proof.
  intros E Hk Hst. cbn [netstring_parse_loop]. rewrite (read_at k COLON tl) by done.
  destruct st; [..|done]; cbn; by rewrite (proj2 (Z.ltb_lt 0 (zlen k))) by lia.
Qed.

Lemma loop_data n k payload rest : s = k ++ payload ++ COMMA :: rest -> zlen s < 2 ^ 63 ->
  loop (S n) (zlen k) NETSTRING_SDATA (zlen payload) = Ret (inl (zlen k, zlen payload)).
Proof.
  intros E Hs. pose proof (zlen_nonneg k). pose proof (zlen_nonneg payload).
  pose proof (zlen_nonneg rest).
  cbn [netstring_parse_loop].
  destruct (read_slice pre s post (zlen k)) as (c & -> & _); [rewrite E; zlen_simpl; lia|]. cbn.
  assert (Hlen : zlen k + zlen payload < zlen s) by (rewrite E; zlen_simpl; lia).
  rewrite uw_small by lia. case_test; [lia|].
  rewrite app_assoc in E. pose proof (read_at _ _ _ E) as Hr. rewrite zlen_app in Hr.
  by rewrite Hr.
Qed.

Lemma netstring_parse_complete off payload : zlen s < 2 ^ 63 ->
  is_netstring s off payload -> _netstring_parse m (zlen pre) (zlen s) = Ret (inl (off, zlen payload)).
Proof.
  intros Hs [ws ds rest Hws Hds Hne Hv -> E]. unfold _netstring_parse.
  pose proof (zlen_nonneg payload). pose proof (zlen_nonneg rest).
  assert (Hk : 0 < zlen (ws ++ ds)) by (destruct (ws ++ ds); [done|]; unfold zlen; simpl; lia).
  set (n := (length payload + length rest)%nat).
  assert (En : Z.to_nat (zlen s) = (length ws + (length ds + S (S n)))%nat).
  { rewrite E. unfold zlen. rewrite Nat2Z.id. rewrite !length_app. simpl.
    rewrite length_app. simpl. lia. }
  rewrite En. pose proof (loop_ws ws [] _ (length ds + S (S n)) 0 E Hws) as L1.
  cbn beta in L1. rewrite zlen_nil, Z.add_0_l in L1. rewrite L1. clear L1.
  assert (Hsl : loop (length ds + S (S n))%nat (zlen ws) NETSTRING_SWS 0
    = loop (S (S n)) (zlen (ws ++ ds)) NETSTRING_SLEN (zlen payload)
    \/ ds = []).
  { destruct ds as [|d ds]; [by right|left].
    pose proof Hds as [Hd _]%Forall_cons.
    cbn [length Nat.add].
    rewrite (loop_skip_ws _ ws d (ds ++ COLON :: payload ++ COMMA :: rest));
      [|done|by unfold NETSTRING_WS, is_digit, CH_0, CH_9, CR, LF, TAB, SP in *; zbool;
        repeat (rewrite (proj2 (Z.eqb_neq _ _)) by lia)].
    rewrite <- Hv. pose proof (loop_digits (d :: ds) ws _ (S (S n)) 0 E Hds ltac:(lia)) as L.
    cbn [length Nat.add] in L. rewrite L; [by rewrite zlen_app|]. rewrite Hv. unfold zlen. 
    rewrite E in Hs. zlen_simpl. unfold zlen in *. lia. }
  assert (Hlast : loop (S (S n)) (zlen (ws ++ ds)) NETSTRING_SLEN (zlen payload)
    = Ret (inl (zlen (ws ++ ds) + 1, zlen payload))).
  { rewrite (loop_colon _ (ws ++ ds) (payload ++ COMMA :: rest)); [|by rewrite E, <- app_assoc|done..].
    pose proof (loop_data n ((ws ++ ds) ++ [COLON]) payload rest) as L.
    rewrite zlen_app in L. change (zlen [COLON]) with 1 in L. rewrite L; [done| |done]. by rewrite E, <- !app_assoc. }
  destruct Hsl as [->| ->]; [exact Hlast|]. cbn [length Nat.add].
  rewrite app_nil_r in *. rewrite <- Hlast. cbn in Hv. rewrite <- Hv.
  rewrite !(loop_colon _ ws (payload ++ COMMA :: rest)); done.
Qed.
End Complete.

(** ** Formatting *)

Definition encodes (str e : bytes) : Prop :=
  exists ds, all_digits ds /\ ds <> [] /\ dval 0 ds = zlen str /\ zlen ds <= 47 /\
    e = ds ++ COLON :: str ++ [COMMA].

Lemma digit_of v : is_digit (CH_0 + v mod 10) = true.
Proof.
  pose proof (Z.mod_pos_bound v 10 ltac:(lia)). unfold is_digit, CH_0, CH_9.
  by rewrite !(proj2 (Z.leb_le _ _)) by lia.
Qed.

Lemma dec_digits_spec room : forall v acc, 0 <= v < 10 ^ Z.of_nat room -> (0 < room)%nat ->
  exists ds, dec_digits room v acc = Ret (ds ++ acc) /\ all_digits ds /\ ds <> [] /\
    dval 0 ds = v /\ zlen ds <= Z.of_nat room.
Proof.
  induction room as [|room IH]; intros v acc Hv Hr; [lia|]. cbn [dec_digits].
  pose proof (digit_of v). pose proof (Z.mod_pos_bound v 10 ltac:(lia)).
  case_test.
  - exists [CH_0 + v mod 10]. split_and!; [done|by constructor|done| |unfold zlen; simpl; lia].
    cbn. divmod_lia.
  - rewrite Nat2Z.inj_succ, Z.pow_succ_r in Hv by lia.
    destruct room as [|room]; [change (Z.of_nat 0) with 0 in Hv; divmod_lia|].
    destruct (IH (v / 10) ((CH_0 + v mod 10) :: acc)) as (ds & -> & Hd & Hne & Hv' & Hl);
      [split; [apply Z.div_pos|apply Z.div_lt_upper_bound]; lia|lia|].
    exists (ds ++ [CH_0 + v mod 10]). rewrite <- app_assoc. split_and!; [done|..].
    + apply Forall_app. by split; [|constructor].
    + by destruct ds.
    + rewrite dval_snoc, Hv'. divmod_lia.
    + zlen_simpl. lia.
Qed.

Lemma digits_bytes ds : all_digits ds -> Forall is_byte ds.
Proof.
  intros H. eapply Forall_impl; [exact H|]. intros c Hc. apply digit_range in Hc. unfold is_byte, CH_0 in *. lia.
Qed.

Section AppendFacts.
Context (alloc_ok : Z -> bool) (K : Z).

Lemma rollback b b' l : fits K b' -> contents b' = contents b ++ l -> wf b ->
  fits K (Buf (cap b') (len b) (data b')) /\
  contents (Buf (cap b') (len b) (data b')) = contents b.
Proof.
  intros (Hwf & Hc & HK) E Hb. pose proof (contents_length b Hb) as Hl.
  pose proof (contents_length b' Hwf) as Hl'. rewrite E in Hl'. zlen_simpl.
  pose proof (zlen_nonneg l). pose proof Hb as [? _ _ _].
  destruct (cut_len b' (len b)) as [? ->]; [done|lia|]. split; [by split|].
  rewrite E, take_app_le by (unfold zlen in *; lia). apply take_ge. unfold zlen in *; lia.
Qed.

Lemma netstring_append_buf_spec b str : fits K b -> Forall is_byte str ->
  2 * (len b + zlen str + 49) + 16 <= K ->
  exists b' r, netstring_append_buf alloc_ok b str = Ret (b', r) /\ fits K b' /\
    ((r = NETSTRING_OK /\ exists e, encodes str e /\ contents b' = contents b ++ e) \/
     (r = NETSTRING_ERRMEM /\ contents b' = contents b)).
Proof.
  intros Hf Hs Hr. pose proof (zlen_nonneg str). unfold netstring_append_buf.
  pose proof Hf as (Hwf & Hcap & HK). pose proof (contents_length b Hwf) as Hl.
  pose proof Hwf as [Hlb _ _ _].
  destruct (dec_digits_spec 47 (zlen str) [COLON]) as (ds & -> & Hd & Hne & Hv & Hdl);
    [lia|lia|]. cbn [mbind outcome_mbind].
  destruct (buf_adata_fits alloc_ok K b (ds ++ [COLON])) as (b1 & r1 & -> & Hf1 & [(-> & E1)|[-> ->]]);
    [done|apply Forall_app; split; [by apply digits_bytes|by repeat constructor]
    |zlen_simpl; lia| |]; cbn [mbind outcome_mbind]; simpl (_ <? 0); cbv iota.
  2: { do 2 eexists; split; [done|]. destruct (rollback b b []) as [??]; [done|by rewrite app_nil_r|done|]. auto. }
  pose proof (contents_length b1 (proj1 Hf1)) as Hl1. rewrite E1 in Hl1. zlen_simpl.
  destruct (buf_adata_fits alloc_ok K b1 str) as (b2 & r2 & -> & Hf2 & [(-> & E2)|[-> ->]]);
    [done|done|lia| |]; cbn [mbind outcome_mbind]; simpl (_ <? 0); cbv iota.
  2: { do 2 eexists; split; [done|]. destruct (rollback b b1 (ds ++ [COLON])) as [??]; auto. }
  rewrite E1, <- app_assoc in E2.
  pose proof (contents_length b2 (proj1 Hf2)) as Hl2. rewrite E2 in Hl2. zlen_simpl.
  destruct (buf_achar_fits alloc_ok K b2 COMMA) as (b3 & r3 & -> & Hf3 & [(-> & E3)|[-> ->]]);
    [done|lia| |]; cbn [mbind outcome_mbind]; simpl (_ <? 0); cbv iota.
  2: { do 2 eexists; split; [done|]. destruct (rollback b b2 ((ds ++ [COLON]) ++ str)) as [??]; auto. }
  do 2 eexists; split; [done|]. split; [done|]. left. split; [done|].
  exists (ds ++ COLON :: str ++ [COMMA]). split; [by exists ds|].
  rewrite E3, E2, <- !app_assoc. done.
Qed.

Definition total (elems : list bytes) : Z := foldr (fun e n => zlen e + 49 + n) 0 elems.

Lemma total_nonneg elems : 0 <= total elems.
Proof. induction elems as [|e l IH]; cbn; [lia|]. pose proof (zlen_nonneg e). fold (total l). lia. Qed.

Lemma encodes_length str e : encodes str e -> zlen e <= zlen str + 49.
Proof. intros (ds & _ & _ & _ & Hl & ->). zlen_simpl. lia. Qed.

Lemma netstring_append_elems_spec elems : forall b, fits K b -> Forall (Forall is_byte) elems ->
  2 * (len b + total elems) + 16 <= K ->
  exists b' r, netstring_append_elems alloc_ok b elems = Ret (b', r) /\ fits K b' /\
    ((r = NETSTRING_OK /\ exists es, Forall2 encodes elems es /\
        contents b' = contents b ++ concat es) \/
     (r = NETSTRING_ERRMEM /\ exists l, contents b' = contents b ++ l)).
Proof.
  induction elems as [|str elems IH]; intros b Hf Hs Hr.
  - do 2 eexists; split; [done|]. split; [done|]. left. split; [done|]. exists [].
    by rewrite app_nil_r.
  - apply Forall_cons in Hs as [Hstr Hs]. cbn in Hr. fold (total elems) in Hr.
    pose proof (total_nonneg elems). cbn [netstring_append_elems].
    destruct (netstring_append_buf_spec b str) as (b1 & r1 & -> & Hf1 & [(-> & e & He & E)|[-> E]]);
      [done|done|lia| |]; cbn.
    + pose proof (contents_length b (proj1 Hf)). pose proof (contents_length b1 (proj1 Hf1)) as Hl.
      rewrite E in Hl. zlen_simpl. pose proof (encodes_length str e He).
      destruct (IH b1) as (b2 & r2 & -> & Hf2 & [(-> & es & Hes & E2)|(-> & l & E2)]); [done..|lia| |];
        do 2 eexists; (split; [done|]); (split; [done|]).
      * left. split; [done|]. exists (e :: es). split; [by constructor|].
        by rewrite E2, E, <- app_assoc.
      * right. split; [done|]. exists (e ++ l). by rewrite E2, E, <- app_assoc.
    + do 2 eexists; split; [done|]. split; [done|]. right. split; [done|]. exists [].
      by rewrite E, app_nil_r.
Qed.

Lemma netstring_append_list_spec b elems : fits K b -> Forall (Forall is_byte) elems ->
  2 * (len b + total elems) + 16 <= K ->
  exists b' r, netstring_append_list alloc_ok b elems = Ret (b', r) /\ fits K b' /\
    ((r = NETSTRING_OK /\ exists es, Forall2 encodes elems es /\
        contents b' = contents b ++ concat es) \/
     (r = NETSTRING_ERRMEM /\ contents b' = contents b)).
Proof.
  intros Hf Hs Hr. unfold netstring_append_list.
  destruct (netstring_append_elems_spec elems b Hf Hs Hr)
    as (b1 & r1 & -> & Hf1 & [(-> & es & Hes & E)|(-> & l & E)]); cbn; do 2 eexists; (split; [done|]).
  - split; [done|]. left. eauto.
  - destruct (rollback b b1 l) as [??]; [done..|apply Hf|]. auto.
Qed.
End AppendFacts.

(** with memory *)
Section AppendAll.
Context (alloc_ok : Z -> bool) (Halloc : forall n, alloc_ok n = true).

Lemma netstring_append_buf_ok b str b' r : netstring_append_buf alloc_ok b str = Ret (b', r) -> r = NETSTRING_OK.
Proof.
  unfold netstring_append_buf. destruct (dec_digits _ _ _) as [hdr| |]; [cbn [mbind outcome_mbind]|done|done].
  destruct (buf_adata alloc_ok b hdr) as [[b1 r1]| |] eqn:E1; [cbn [mbind outcome_mbind]|done|done]. rewrite (buf_adata_ok _ Halloc _ _ _ _ E1). cbn [Z.ltb].
  destruct (buf_adata alloc_ok b1 str) as [[b2 r2]| |] eqn:E2; [cbn [mbind outcome_mbind]|done|done]. rewrite (buf_adata_ok _ Halloc _ _ _ _ E2). cbn [Z.ltb].
  destruct (buf_achar alloc_ok b2 COMMA) as [[b3 r3]| |] eqn:E3; [cbn [mbind outcome_mbind]|done|done]. rewrite (buf_achar_ok _ Halloc _ _ _ _ E3).
  by intros [= _ <-].
Qed.

Lemma netstring_append_buf_all K b str : fits K b -> Forall is_byte str -> 2 * (len b + zlen str + 49) + 16 <= K ->
  exists b' e, netstring_append_buf alloc_ok b str = Ret (b', NETSTRING_OK) /\ fits K b' /\ encodes str e /\ contents b' = contents b ++ e.
Proof.
  intros Hf Hs Hr. destruct (netstring_append_buf_spec alloc_ok K b str Hf Hs Hr) as (b' & r & E & Hf' & Hc).
  pose proof (netstring_append_buf_ok _ _ _ _ E) as ->. destruct Hc as [(_ & e & He & Hc)|[? _]]; [|done]. by exists b', e.
Qed.
End AppendAll.

(** ** Reading back what was appended *)

Lemma encodes_is_netstring str e tl : encodes str e ->
  exists off, is_netstring (e ++ tl) off str /\ off + zlen str + 1 = zlen e.
Proof.
  intros (ds & Hd & Hne & Hv & _ & ->). exists (zlen ds + 1). split.
  - apply (is_netstring_intro _ _ _ [] ds tl); simpl; auto; [constructor|].
    rewrite <- app_assoc. simpl. by rewrite <- app_assoc.
  - zlen_simpl. lia.
Qed.

Lemma wr_mid {A} (l : list A) x y k : wr (l ++ x :: k) (zlen l) y = Ret (l ++ y :: k).
Proof.
  rewrite wr_in by (pose proof (zlen_nonneg l); pose proof (zlen_nonneg k); zlen_simpl; lia).
  f_equal. unfold zlen. rewrite Nat2Z.id. by rewrite insert_app_r_alt, Nat.sub_diag by lia.
Qed.

(** one step of an iteration over [e ++ tl] where [e] encodes [str] *)
Lemma netstring_next_encoded pre str e tl post :
  encodes str e -> zlen pre + zlen (e ++ tl) < 2 ^ 62 ->
  exists e', zlen e' = zlen e /\
    netstring_next (pre ++ (e ++ tl) ++ post) (zlen pre) (zlen (e ++ tl))
    = Ret (pre ++ (e' ++ tl) ++ post, inl (zlen pre + (zlen e - zlen str - 1), zlen str),
           zlen (pre ++ e'), zlen tl) /\
    rds (pre ++ (e' ++ tl) ++ post) (zlen pre + (zlen e - zlen str - 1)) (zlen str) = Ret str.
Proof.
  intros He Hb. pose proof (zlen_nonneg pre). pose proof (zlen_nonneg tl).
  pose proof (zlen_nonneg str).
  destruct (encodes_is_netstring str e tl He) as (off & Hns & Hoff).
  pose proof He as (ds & Hd & Hne & Hv & Hdl & Ee). pose proof (zlen_nonneg ds).
  set (e' := ds ++ COLON :: str ++ [0]).
  assert (Hl : zlen e' = zlen e) by (rewrite Ee; unfold e'; zlen_simpl; lia).
  assert (Eoff : off = zlen ds + 1) by (rewrite Ee in Hoff; zlen_simpl; lia).
  assert (Hz : zlen (e ++ tl) = zlen e + zlen tl) by (by zlen_simpl).
  exists e'. split; [done|]. unfold netstring_next. case_test; [lia|].
  unfold netstring_parse. rewrite (netstring_parse_complete _ _ _ off str) by (done || lia).
  cbn [mbind outcome_mbind]. rewrite uw_small by lia.
  assert (Ew : wr (pre ++ (e ++ tl) ++ post) (zlen pre + (off + zlen str)) 0
    = Ret (pre ++ (e' ++ tl) ++ post)).
  { rewrite Ee. unfold e'.
    replace (pre ++ ((ds ++ COLON :: str ++ [COMMA]) ++ tl) ++ post)
      with ((pre ++ ds ++ COLON :: str) ++ COMMA :: tl ++ post)
      by (rewrite <- !app_assoc; simpl; by rewrite <- !app_assoc).
    replace (zlen pre + (off + zlen str)) with (zlen (pre ++ ds ++ COLON :: str))
      by (zlen_simpl; lia).
    rewrite wr_mid. f_equal. rewrite <- !app_assoc; simpl; by rewrite <- !app_assoc. }
  rewrite Ew. cbn [mbind outcome_mbind]. rewrite uw_small by lia. case_test; [lia|].
  split; [f_equal; repeat f_equal; zlen_simpl; lia|].
  rewrite rds_in by (zlen_simpl; pose proof (zlen_nonneg post); lia). f_equal.
  unfold e'.
  replace (pre ++ ((ds ++ COLON :: str ++ [0]) ++ tl) ++ post)
    with ((pre ++ ds ++ [COLON]) ++ str ++ 0 :: tl ++ post)
    by (rewrite <- !app_assoc; simpl; by rewrite <- !app_assoc).
  rewrite drop_app_length' by (rewrite !length_app; simpl; unfold zlen in *; lia).
  apply take_app_length'. unfold zlen. lia.
Qed.

(** the client's loop [while (netstring_next(...) == NETSTRING_OK)]: the values
    read and the code that ended the loop *)
Fixpoint drain (fuel : nat) (m : bytes) (data datalen : Z) : outcome (list bytes * Z) :=
  match fuel with
  | O => OutOfFuel
  | S fuel =>
      '(m', r, data', datalen') ← netstring_next m data datalen;
      match r with
      | inr e => Ret ([], e)
      | inl (out, outlen) =>
          x ← rds m' out outlen;
          '(xs, e) ← drain fuel m' data' datalen';
          Ret (x :: xs, e)
      end
  end.

Lemma drain_encoded elems : forall es pre post, Forall2 encodes elems es ->
  zlen pre + zlen (concat es) < 2 ^ 62 ->
  drain (S (length elems)) (pre ++ concat es ++ post) (zlen pre) (zlen (concat es))
  = Ret (elems, NETSTRING_ERRINCOMPLETE).
Proof.
  induction elems as [|str elems IH]; intros es pre post Hes Hb.
  - apply Forall2_nil_inv_l in Hes as ->. done.
  - apply Forall2_cons_inv_l in Hes as (e & es' & He & Hes & ->). cbn [length].
    cbn [concat] in *.
    destruct (netstring_next_encoded pre str e (concat es') post He Hb) as (e' & Hl & E & Hr).
    remember (S (length elems)) as n. cbn [drain]. rewrite E. cbn [mbind outcome_mbind].
    rewrite Hr. cbn [mbind outcome_mbind].
    replace (pre ++ (e' ++ concat es') ++ post) with ((pre ++ e') ++ concat es' ++ post)
      by (by rewrite <- !app_assoc).
    subst n. rewrite IH; [done|done|]. zlen_simpl. lia.
Qed.

(** C24: _netstring_parse, for every object and every slice of it below 2^60
    bytes: it never reads outside the slice although [i + len] is computed with
    wrap-around, and when it accepts, the slice starts with blanks, decimal
    digits, a colon, as many bytes as the digits say and a comma. *)
Theorem netstring_parse_sound pre s post :
  zlen s <= 2 ^ 60 ->
  match _netstring_parse (pre ++ s ++ post) (zlen pre) (zlen s) with
  | Ret (inl (off, len)) => exists payload, is_netstring s off payload /\ len = zlen payload
  | Ret (inr e) => e < 0
  | OutOfBounds | OutOfFuel => False
  end.
Proof.
  intros Hs. pose proof (parse_loop_sound pre s post Hs (Z.to_nat (zlen s)) 0 NETSTRING_SWS 0) as H.
  pose proof (zlen_nonneg s). apply H; [lia|]. split; [lia|]. split; [constructor|done].
Qed.

Lemma netstring_parse_sound_witness :
  zlen (lit "3:abc,") <= 2 ^ 60 /\
  _netstring_parse (lit "x3:abc,y") 1 6 = Ret (inl (2, 3)) /\
  exists payload, is_netstring (lit "3:abc,") 2 payload /\ 3 = zlen payload.
Proof.
  split; [by vm_compute|]. split; [reflexivity|].
  exact (netstring_parse_sound (lit "x") (lit "3:abc,") (lit "y") ltac:(by vm_compute)).
Defined.

(** Every string of the grammar (blanks, digits, colon, data, comma, then
    anything) is accepted with the offset and length of its data. *)
Theorem netstring_parse_accepts pre s post off payload :
  zlen s < 2 ^ 63 -> is_netstring s off payload ->
  _netstring_parse (pre ++ s ++ post) (zlen pre) (zlen s) = Ret (inl (off, zlen payload)) /\
  netstring_tryparse (pre ++ s ++ post) (zlen pre) (zlen s)
    = Ret (NETSTRING_OK, Some (off + zlen payload + 1)).
Proof.
  intros Hs Hn. pose proof (netstring_parse_complete pre s post off payload Hs Hn) as E.
  split; [done|]. unfold netstring_tryparse. rewrite E. cbn.
  destruct Hn as [ws ds rest _ _ _ _ -> Es]. rewrite Es in Hs.
  pose proof (zlen_nonneg ws); pose proof (zlen_nonneg ds); pose proof (zlen_nonneg payload);
  pose proof (zlen_nonneg rest). zlen_simpl. rewrite uw_small by lia. done.
Qed.

Lemma netstring_parse_accepts_witness :
  is_netstring (lit " 2:ab,") 3 (lit "ab") /\
  _netstring_parse (lit " 2:ab,") 0 6 = Ret (inl (3, 2)).
Proof.
  assert (H : is_netstring (lit " 2:ab,") 3 (lit "ab")).
  { refine (is_netstring_intro _ _ _ (lit " ") (lit "2") [] _ _ _ _ _ _);
      try reflexivity; try (by repeat constructor); by vm_compute. }
  split; [exact H|].
  exact (proj1 (netstring_parse_accepts [] (lit " 2:ab,") [] 3 (lit "ab") ltac:(by vm_compute) H)).
Defined.

(** Whatever list of byte strings is appended to an empty buffer, when the
    call succeeds the loop over [netstring_next] reads back exactly this list
    and stops with the code of an exhausted input. *)
Theorem netstring_list_roundtrip alloc_ok K b elems b' :
  fits K b -> contents b = [] -> Forall (Forall is_byte) elems -> 2 * total elems + 16 <= K ->
  netstring_append_list alloc_ok b elems = Ret (b', NETSTRING_OK) ->
  drain (S (length elems)) (data b') 0 (len b') = Ret (elems, NETSTRING_ERRINCOMPLETE).
Proof.
  intros Hf Hc Hs Hr Happ. pose proof (contents_length b (proj1 Hf)) as Hl. rewrite Hc, zlen_nil in Hl.
  destruct (netstring_append_list_spec alloc_ok K b elems Hf Hs) as (b1 & r & E & Hf1 & H);
    [lia|]. rewrite E in Happ. injection Happ as -> ->.
  destruct H as [(_ & es & Hes & Hct)|[? _]]; [|done].
  rewrite Hc in Hct. cbn in Hct. pose proof (contents_length b' (proj1 Hf1)) as Hl'.
  destruct Hf1 as ([Hlen _ _ _] & Hcap & HK).
  rewrite <- (take_drop (Z.to_nat (len b')) (data b')). fold (contents b'). rewrite Hct in *.
  rewrite <- Hl'. pose proof (drain_encoded elems es [] (drop (Z.to_nat (len b')) (data b')) Hes) as D.
  rewrite Hl' in *. apply D. rewrite zlen_nil. lia.
Qed.

Lemma netstring_list_roundtrip_witness :
  let b := Buf 64 0 (replicate 64 0) in
  exists b', netstring_append_list all_ok b [lit "foo"; []; lit "a,b"] = Ret (b', NETSTRING_OK) /\
    drain 4 (data b') 0 (len b') = Ret ([lit "foo"; []; lit "a,b"], NETSTRING_ERRINCOMPLETE).
Proof.
  intros b. destruct (netstring_append_list all_ok b [lit "foo"; []; lit "a,b"]) as [[b' r]| |] eqn:E;
    [|by vm_compute in E|by vm_compute in E].
  assert (r = NETSTRING_OK) as -> by (vm_compute in E; by injection E).
  exists b'. split; [reflexivity|].
  apply (netstring_list_roundtrip all_ok 1024 b [lit "foo"; []; lit "a,b"] b').
  - split; [|split; [by vm_compute|done]].
    constructor; simpl; [lia|done|by exists 8|repeat constructor; unfold is_byte; lia].
  - reflexivity.
  - repeat constructor; unfold is_byte; lia.
  - by vm_compute.
  - exact E.
Defined.
