(* ===== verification/RobinHood.v ===== *)
(** * Robin Hood probing

    The theory shared by the hash tables of src/lib/util (idtbl.c, objtbl.c,
    deduptbl.c): open addressing, an entry stays at most as far from its home
    slot as the entries before it, and removal shifts the entries behind back
    by one.  A table is seen here as the function that gives, for a slot, the
    key, value and distance stored in it. *)

From S2P Require Import Prelude.

Section RobinHood.
Context {K V : Type} `{EqDecision K} (n : Z) (n_pos : 0 < n) (home : K -> Z).

Abbreviation view := (Z -> option (K * V * Z)).

Definition slot (p : Z) : Z := p mod n.
Definition valid (p : Z) : Prop := 0 <= p < n.

Lemma slot_valid p : valid (slot p).
Proof. unfold valid, slot. apply Z.mod_pos_bound. lia. Qed.
Lemma slot_id p : valid p -> slot p = p.
Proof. apply Z.mod_small. Qed.
Lemma slot_add a b : slot (slot a + b) = slot (a + b).
Proof. unfold slot. by rewrite Z.add_mod_idemp_l by lia. Qed.
Lemma slot_sub a b : slot (slot a - b) = slot (a - b).
Proof. unfold Z.sub. apply slot_add. Qed.
Lemma slot_full a : slot (a + n) = slot a.
Proof. unfold slot. by rewrite <- (Z.mul_1_l n) at 1; rewrite Z.mod_add by lia. Qed.

(** the offset [0 <= o < n] from slot [a] to slot [p] *)
Lemma slot_offset a p : valid p -> exists o, 0 <= o < n /\ slot (a + o) = p.
Proof.
  intros Hp. exists (slot (p - a)). split; [apply slot_valid|].
  rewrite Z.add_comm, slot_add. replace (p - a + a) with p by lia. by apply slot_id.
Qed.

Lemma slot_offset_inj a o o' : 0 <= o < n -> 0 <= o' < n -> slot (a + o) = slot (a + o') -> o = o'.
Proof.
  unfold slot. intros Ho Ho' E. rewrite (Z.mod_eq (a + o)), (Z.mod_eq (a + o')) in E by lia.
  assert (o - o' = n * ((a + o) / n - (a + o') / n)) by lia.
  assert ((a + o) / n - (a + o') / n = 0) by nia. lia.
Qed.

(** [f] with [x] stored in slot [p] *)
Definition upd (f : view) (p : Z) (x : option (K * V * Z)) : view :=
  fun q => if decide (q = p) then x else f q.

Lemma upd_eq f p x : upd f p x p = x.
Proof. unfold upd. by rewrite decide_True. Qed.
Lemma upd_ne f p q x : q <> p -> upd f p x q = f q.
Proof. intros. unfold upd. by rewrite decide_False. Qed.

(** ** The invariant *)

Definition inv_home (f : view) : Prop := forall p k v d, valid p -> f p = Some (k, v, d) ->
  0 <= d < n /\ p = slot (home k + d).

(** the slot before an entry that is away from its home is taken by an entry
    at least as far away, less one *)
Definition behind (f : view) (p d : Z) : Prop :=
  0 < d -> exists k' v' d', f (slot (p - 1)) = Some (k', v', d') /\ d - 1 <= d'.

Definition inv_chain (f : view) : Prop := forall p k v d, valid p -> f p = Some (k, v, d) ->
  behind f p d.

Definition inv_uniq (f : view) : Prop := forall p q k v d v' d', valid p -> valid q ->
  f p = Some (k, v, d) -> f q = Some (k, v', d') -> p = q.

(** a slot at which the shift of a removal stops *)
Definition stops (f : view) (p : Z) : Prop :=
  f p = None \/ exists k v, f p = Some (k, v, 0).

Record inv (f : view) : Prop := Inv {
  ihome : inv_home f;
  ichain : inv_chain f;
  iuniq : inv_uniq f;
  istop : exists p, valid p /\ stops f p;
}.

Definition has (f : view) (k : K) (v : V) : Prop := exists p d, valid p /\ f p = Some (k, v, d).
Definition absent (f : view) (k : K) : Prop := forall v, ~ has f k v.

(** ** Probing *)

(** walking back from an entry at distance [d]: the [d] slots before it are
    taken by entries that are far enough from home *)
Lemma chain_back f (Hc : inv_chain f) i : forall p d, 0 <= i <= d -> valid p -> behind f p d ->
  0 < i -> exists k' v' d', f (slot (p - i)) = Some (k', v', d') /\ d - i <= d'.
Proof.
  destruct (Z_lt_le_dec i 0) as [|Hi0]; [lia|]. revert i Hi0. apply (natlike_ind (fun i =>
    forall p d, 0 <= i <= d -> valid p -> behind f p d -> 0 < i ->
    exists k' v' d', f (slot (p - i)) = Some (k', v', d') /\ d - i <= d')); [lia|].
  intros i Hi IH p d Hid Hp Hb _. destruct (Z.eq_dec i 0) as [->|Hne].
  - destruct (Hb ltac:(lia)) as (k' & v' & d' & E & Hd). exists k', v', d'. split; [done|lia].
  - destruct (IH p d ltac:(lia) Hp Hb ltac:(lia)) as (k1 & v1 & d1 & E1 & Hd1).
    destruct (Hc _ _ _ _ (slot_valid _) E1 ltac:(lia)) as (k' & v' & d' & E & Hd).
    rewrite slot_sub in E. exists k', v', d'.
    replace (p - Z.succ i) with (p - i - 1) by lia. split; [done|lia].
Qed.

(** every slot from the home of a stored key up to its entry is taken by an
    entry that does not stop the search *)
Lemma probe_reaches f k v p d : inv_home f -> inv_chain f -> valid p -> f p = Some (k, v, d) ->
  forall j, 0 <= j < d -> exists k' v' d', f (slot (home k + j)) = Some (k', v', d') /\ j <= d'.
Proof.
  intros Hh Hc Hp E j Hj. destruct (Hh _ _ _ _ Hp E) as [Hd Ep].
  destruct (chain_back f Hc (d - j) p d) as (k' & v' & d' & E' & Hd'); [lia|done| |lia|].
  - by eapply Hc.
  - exists k', v', d'. split; [|lia]. rewrite <- E'. f_equal.
    rewrite Ep, slot_sub. f_equal. lia.
Qed.

(** ** Insertion *)

(** the entry carried by the insertion loop may be put into slot [c] *)
Record carry (f : view) (c : Z) (k : K) (v : V) (d : Z) : Prop := Carry {
  carry_dist : 0 <= d;
  carry_slot : c = slot (home k + d);
  carry_behind : behind f c d;
  carry_absent : absent f k;
}.

Lemma carry_bound f c k v d z : inv_chain f -> carry f c k v d -> valid z -> f z = None -> d < n.
Proof.
  intros Hc [Hd Ec Hb _] Hz Ez. destruct (Z_lt_le_dec d n) as [|Hge]; [done|exfalso].
  destruct (slot_offset z c) as (o & Ho & Eo); [rewrite Ec; apply slot_valid|].
  assert (exists i, 0 < i <= d /\ slot (c - i) = z) as (i & Hi & Ei).
  { destruct (Z.eq_dec o 0) as [->|].
    - exists n. split; [lia|]. rewrite <- Eo, slot_sub, Z.add_0_r, <- slot_full.
      replace (z - n + n) with z by lia. by apply slot_id.
    - exists o. split; [lia|]. rewrite <- Eo, slot_sub.
      replace (z + o - o) with z by lia. by apply slot_id. }
  destruct (chain_back f Hc i c d) as (? & ? & ? & E & _);
    [lia|rewrite Ec; apply slot_valid|done|lia|]. congruence.
Qed.

Lemma slot_pred p q : valid p -> slot (q - 1) = p -> valid q -> q = slot (p + 1).
Proof.
  intros Hp <- Hq. rewrite slot_add. replace (q - 1 + 1) with q by lia. by rewrite slot_id.
Qed.

(** storing the carried entry where it is farther from home than what is there *)
Lemma store_inv f c k v d : inv_home f -> inv_chain f -> inv_uniq f -> carry f c k v d -> d < n ->
  (forall k2 v2 d2, f c = Some (k2, v2, d2) -> d2 <= d) ->
  (forall k2 v2 d2, f (slot (c + 1)) = Some (k2, v2, d2) -> 0 < d2 -> is_Some (f c)) ->
  inv_home (upd f c (Some (k, v, d))) /\ inv_chain (upd f c (Some (k, v, d))) /\
  inv_uniq (upd f c (Some (k, v, d))).
Proof.
  intros Hh Hc Hu [Hd Ec Hb Ha] Hn Hle Hnext.
  assert (Hvc : valid c) by (rewrite Ec; apply slot_valid). split_and!.
  - intros p k' v' d' Hp E. destruct (decide (p = c)) as [->|Hne].
    + rewrite upd_eq in E. simplify_eq. split; [lia|done].
    + rewrite upd_ne in E by done. by eapply Hh.
  - intros p k' v' d' Hp E Hpos. destruct (decide (slot (p - 1) = c)) as [Epc|Hne1].
    + rewrite Epc, upd_eq. exists k, v, d. split; [done|].
      destruct (decide (p = c)) as [->|Hne]; [rewrite upd_eq in E; simplify_eq; lia|].
      rewrite upd_ne in E by done. pose proof (slot_pred c p Hvc Epc Hp) as ->.
      destruct (Hnext _ _ _ E Hpos) as [[[k2 v2] d2] E2].
      destruct (Hc _ _ _ _ Hp E Hpos) as (k3 & v3 & d3 & E3 & Hd3). rewrite Epc, E2 in E3.
      simplify_eq. specialize (Hle _ _ _ E2). lia.
    + rewrite upd_ne by done. destruct (decide (p = c)) as [->|Hne].
      * rewrite upd_eq in E. simplify_eq. by apply Hb.
      * rewrite upd_ne in E by done. by eapply Hc.
  - intros p q k' v1 d1 v2 d2 Hp Hq Ep Eq.
    destruct (decide (p = c)) as [->|Hnp], (decide (q = c)) as [->|Hnq]; [done|..].
    + rewrite upd_eq in Ep. rewrite upd_ne in Eq by done. simplify_eq.
      exfalso. eapply Ha. exists q, d2. eauto.
    + rewrite upd_eq in Eq. rewrite upd_ne in Ep by done. simplify_eq.
      exfalso. eapply Ha. exists p, d1. eauto.
    + rewrite !upd_ne in * by done. by eapply Hu.
Qed.

(** a slot behind an empty one holds nothing that is away from its home *)
Lemma after_empty f c k2 v2 d2 : inv_chain f -> valid c -> f (slot (c + 1)) = Some (k2, v2, d2) ->
  0 < d2 -> is_Some (f c).
Proof.
  intros Hc Hv E Hd. destruct (Hc _ _ _ _ (slot_valid _) E Hd) as (k & v & d & E' & _).
  rewrite slot_sub in E'. replace (c + 1 - 1) with c in E' by lia. rewrite slot_id in E' by done.
  by eexists.
Qed.

Lemma has_upd f c k v d k' v' : valid c ->
  has (upd f c (Some (k, v, d))) k' v' <->
  (k' = k /\ v' = v) \/ exists p d', valid p /\ p <> c /\ f p = Some (k', v', d').
Proof.
  intros Hc. split.
  - intros (p & d' & Hp & E). destruct (decide (p = c)) as [->|Hne].
    + rewrite upd_eq in E. simplify_eq. by left.
    + rewrite upd_ne in E by done. right. eauto.
  - intros [[-> ->]|(p & d' & Hp & Hne & E)].
    + exists c, d. by rewrite upd_eq.
    + exists p, d'. by rewrite upd_ne.
Qed.

Lemma place_spec f c k v d : inv_home f -> inv_chain f -> inv_uniq f -> carry f c k v d ->
  f c = None ->
  inv (upd f c (Some (k, v, d))) /\
  forall k' v', has (upd f c (Some (k, v, d))) k' v' <-> (k' = k /\ v' = v) \/ has f k' v'.
Proof.
  intros Hh Hc Hu Hca E. assert (Hv : valid c) by (rewrite (carry_slot _ _ _ _ _ Hca); apply slot_valid).
  pose proof (carry_bound f c k v d c Hc Hca Hv E) as Hd.
  destruct (store_inv f c k v d Hh Hc Hu Hca Hd) as (H1 & H2 & H3).
  { intros ??? E'. congruence. }
  { intros ??? E' ?. by eapply after_empty. }
  split; [split; try done|].
  - exists (slot (c + 1)). split; [apply slot_valid|]. unfold stops, upd. case_decide as Hs.
    + right. exists k, v. do 2 f_equal. assert (n = 1).
      { destruct (Z.eq_dec n 1) as [|Hn]; [done|].
        rewrite <- (slot_id c) in Hs at 2 by done. rewrite <- (Z.add_0_r c) in Hs at 2.
        apply slot_offset_inj in Hs; lia. }
      pose proof (carry_dist _ _ _ _ _ Hca). lia.
    + destruct (f (slot (c + 1))) as [[[k2 v2] d2]|] eqn:E2; [right|by left].
      exists k2, v2. do 2 f_equal. destruct (Hh _ _ _ _ (slot_valid _) E2) as [? _].
      destruct (Z.eq_dec d2 0) as [|Hd2]; [done|].
      destruct (after_empty f c k2 v2 d2 Hc Hv E2) as [? ?]; [lia|]. congruence.
  - intros k' v'. rewrite has_upd by done. split; [intros [?|(p & d' & ? & ? & ?)]; [by left|]|].
    + right. by exists p, d'.
    + intros [?|(p & d' & ? & ?)]; [by left|right]. exists p, d'. split_and!; try done. congruence.
Qed.

Lemma carry_next f c k v d k2 v2 d2 : inv_home f -> inv_chain f -> inv_uniq f ->
  carry f c k v d -> d < n -> f c = Some (k2, v2, d2) -> d2 < d ->
  let f' := upd f c (Some (k, v, d)) in
  inv_home f' /\ inv_chain f' /\ inv_uniq f' /\ carry f' (slot (c + 1)) k2 v2 (d2 + 1) /\
  forall k' v', (has f' k' v' \/ (k' = k2 /\ v' = v2)) <-> (has f k' v' \/ (k' = k /\ v' = v)).
Proof.
  intros Hh Hc Hu Hca Hd E Hlt f'.
  assert (Hv : valid c) by (rewrite (carry_slot _ _ _ _ _ Hca); apply slot_valid).
  destruct (store_inv f c k v d Hh Hc Hu Hca Hd) as (H1 & H2 & H3).
  { intros ??? E'. simplify_eq. lia. }
  { intros. rewrite E. by eexists. }
  destruct (Hh _ _ _ _ Hv E) as [Hd2 Ec].
  split_and!; try done.
  - split; [lia| | |].
    + rewrite Ec at 1. rewrite slot_add. f_equal. lia.
    + intros _. rewrite slot_sub. replace (c + 1 - 1) with c by lia. rewrite slot_id by done.
      exists k, v, d. unfold f'. rewrite upd_eq. split; [done|lia].
    + intros w Hw. apply has_upd in Hw; [|done]. destruct Hw as [[-> _]|(p & d' & Hp & Hne & Ep)].
      * eapply (carry_absent _ _ _ _ _ Hca). by exists c, d2.
      * apply Hne. by eapply Hu.
  - intros k' v'. unfold f'. rewrite has_upd by done. split.
    + intros [[?|(p & d' & ? & ? & ?)]|[-> ->]]; [by right|left; by exists p, d'|left; by exists c, d2].
    + intros [(p & d' & Hp & Ep)|?]; [|by left; left].
      destruct (decide (p = c)) as [->|Hne]; [right; by simplify_eq|].
      left. right. by exists p, d'.
Qed.

Lemma carry_skip f c k v d k2 v2 d2 : carry f c k v d -> f c = Some (k2, v2, d2) -> d <= d2 ->
  carry f (slot (c + 1)) k v (d + 1).
Proof.
  intros Hca E Hle.
  assert (Hv : valid c) by (rewrite (carry_slot _ _ _ _ _ Hca); apply slot_valid).
  destruct Hca as [Hd Ec Hb Ha]. split; [lia| | |done].
  - rewrite Ec, slot_add. f_equal. lia.
  - intros _. rewrite slot_sub. replace (c + 1 - 1) with c by lia. rewrite slot_id by done.
    exists k2, v2, d2. split; [done|lia].
Qed.

(** replacing the value of an entry *)
Lemma replace_spec f p k v w d : inv f -> valid p -> f p = Some (k, v, d) ->
  inv (upd f p (Some (k, w, d))) /\
  forall k' v', has (upd f p (Some (k, w, d))) k' v' <->
    (k' = k /\ v' = w) \/ (k' <> k /\ has f k' v').
Proof.
  intros [Hh Hc Hu (z & Hz & Hs)] Hp E.
  assert (Hsame : forall q k1 v1 d1, upd f p (Some (k, w, d)) q = Some (k1, v1, d1) ->
    exists v2, f q = Some (k1, v2, d1)).
  { intros q k1 v1 d1. unfold upd. case_decide; intros; simplify_eq; eauto. }
  assert (Hback : forall q k1 v1 d1, f q = Some (k1, v1, d1) ->
    exists v2, upd f p (Some (k, w, d)) q = Some (k1, v2, d1)).
  { intros q k1 v1 d1 E1. unfold upd. case_decide; simplify_eq; eauto. }
  split; [split|].
  - intros q k1 v1 d1 Hq [v2 E2]%Hsame. by eapply Hh.
  - intros q k1 v1 d1 Hq [v2 E2]%Hsame Hpos.
    destruct (Hc _ _ _ _ Hq E2 Hpos) as (k3 & v3 & d3 & [v4 E3]%Hback & ?). eauto 6.
  - intros p1 p2 k1 v1 d1 v2 d2 H1 H2 [w1 E1]%Hsame [w2 E2]%Hsame. by eapply Hu.
  - exists z. split; [done|]. destruct Hs as [Hs|(k1 & v1 & Hs)].
    + left. unfold upd. case_decide; [simplify_eq|done]. 
    + right. destruct (Hback _ _ _ _ Hs) as [v2 ?]. eauto.
  - intros k' v'. rewrite has_upd by done. split.
    + intros [?|(q & d' & Hq & Hne & Eq)]; [by left|]. destruct (decide (k' = k)) as [->|Hk].
      * exfalso. apply Hne. by eapply Hu.
      * right. split; [done|]. by exists q, d'.
    + intros [?|[Hk (q & d' & Hq & Eq)]]; [by left|right]. exists q, d'.
      split_and!; try done. intros ->. congruence.
Qed.

(** ** Removal

    While the entries behind are shifted back by one, slot [c] holds an entry
    that was already copied to the slot before it: the table satisfies the
    invariant but for this duplicate. *)
Record hole (f0 f : view) (k0 : K) (c : Z) : Prop := Hole {
  hole_valid : valid c;
  hole_home : inv_home f;
  hole_chain : inv_chain f;
  hole_uniq : forall p q k v d v' d', valid p -> valid q -> p <> c -> q <> c ->
    f p = Some (k, v, d) -> f q = Some (k, v', d') -> p = q;
  hole_taken : is_Some (f c);
  hole_has : forall k v, (exists p d, valid p /\ p <> c /\ f p = Some (k, v, d)) <->
    (k <> k0 /\ has f0 k v);
}.

Lemma hole_init f k v p d : inv f -> valid p -> f p = Some (k, v, d) -> hole f f k p.
Proof.
  intros [Hh Hc Hu _] Hp E. split; try done.
  - intros p1 q k1 v1 d1 v2 d2 H1 H2 _ _ E1 E2. by eapply Hu.
  - intros k' v'. split.
    + intros (q & d' & Hq & Hne & Eq). split; [|by exists q, d'].
      intros ->. apply Hne. by eapply Hu.
    + intros [Hk (q & d' & Hq & Eq)]. exists q, d'. split_and!; try done.
      intros ->. congruence.
Qed.

(** one turn of the loop: the entry behind the hole moves into it *)
Lemma hole_shift f0 f k0 c k v d : hole f0 f k0 c -> f (slot (c + 1)) = Some (k, v, d) -> 0 < d ->
  slot (c + 1) <> c /\ hole f0 (upd f c (Some (k, v, d - 1))) k0 (slot (c + 1)).
Proof.
  intros [Hv Hh Hc Hu Ht Hhas] E Hd. pose proof (slot_valid (c + 1)) as Hv'.
  destruct (Hh _ _ _ _ Hv' E) as [Hdn Ehome].
  assert (Hback : exists k1 v1 d1, f c = Some (k1, v1, d1) /\ d - 1 <= d1).
  { destruct (Hc _ _ _ _ Hv' E Hd) as (k1 & v1 & d1 & E1 & ?). rewrite slot_sub in E1.
    replace (c + 1 - 1) with c in E1 by lia. rewrite slot_id in E1 by done. eauto. }
  destruct Hback as (k1 & v1 & d1 & E1 & Hd1).
  assert (Hne : slot (c + 1) <> c).
  { intros Hs. assert (n = 1).
    { destruct (Z.eq_dec n 1) as [|Hn]; [done|].
      rewrite <- (slot_id c) in Hs at 2 by done. rewrite <- (Z.add_0_r c) in Hs at 2.
      apply slot_offset_inj in Hs; lia. }
    lia. }
  split; [done|]. split.
  - done.
  - intros p k' v' d' Hp Ep. destruct (decide (p = c)) as [->|Hpc].
    + rewrite upd_eq in Ep. simplify_eq. split; [lia|].
      rewrite <- (slot_id c) by done. replace c with (c + 1 - 1) at 1 by lia.
      rewrite <- slot_sub, Ehome, slot_sub. f_equal. lia.
    + rewrite upd_ne in Ep by done. by eapply Hh.
  - intros p k' v' d' Hp Ep Hpos. destruct (decide (slot (p - 1) = c)) as [Epc|Hpc1].
    + rewrite Epc, upd_eq. exists k, v, (d - 1). split; [done|].
      pose proof (slot_pred c p Hv Epc Hp) as ->. rewrite upd_ne in Ep by done.
      rewrite E in Ep. simplify_eq. lia.
    + rewrite upd_ne by done. destruct (decide (p = c)) as [->|Hpc].
      * rewrite upd_eq in Ep. simplify_eq.
        destruct (Hc _ _ _ _ Hv E1 ltac:(lia)) as (k3 & v3 & d3 & E3 & ?). eauto with lia.
      * rewrite upd_ne in Ep by done. by eapply Hc.
  - intros p q k' v2 d2 v3 d3 Hp Hq Hpn Hqn Ep Eq.
    destruct (decide (p = c)) as [->|Hpc], (decide (q = c)) as [->|Hqc]; [done|..].
    + rewrite upd_eq in Ep. rewrite upd_ne in Eq by done. simplify_eq.
      exfalso. apply Hqn. by eapply Hu.
    + rewrite upd_eq in Eq. rewrite upd_ne in Ep by done. simplify_eq.
      exfalso. apply Hpn. by eapply Hu.
    + rewrite !upd_ne in * by done. by eapply (Hu p q).
  - rewrite upd_ne by done. rewrite E. by eexists.
  - intros k' v'. rewrite <- Hhas. split.
    + intros (p & d' & Hp & Hpn & Ep). destruct (decide (p = c)) as [->|Hpc].
      * rewrite upd_eq in Ep. simplify_eq. exists (slot (c + 1)), d. done.
      * rewrite upd_ne in Ep by done. by exists p, d'.
    + intros (p & d' & Hp & Hpc & Ep). destruct (decide (p = slot (c + 1))) as [->|Hpn].
      * rewrite E in Ep. simplify_eq. exists c, (d' - 1). by rewrite upd_eq.
      * exists p, d'. by rewrite upd_ne.
Qed.

(** the hole is cleared once nothing behind it can move *)
Lemma hole_clear f0 f k0 c : hole f0 f k0 c ->
  (forall k v d, f (slot (c + 1)) = Some (k, v, d) -> d <= 0) ->
  inv (upd f c None) /\ forall k v, has (upd f c None) k v <-> (k <> k0 /\ has f0 k v).
Proof.
  intros [Hv Hh Hc Hu Ht Hhas] Hnext.
  assert (Hup : forall p k v d, upd f c None p = Some (k, v, d) -> p <> c /\ f p = Some (k, v, d)).
  { intros p k v d. unfold upd. by case_decide. }
  split; [split|].
  - intros p k v d Hp [_ E]%Hup. by eapply Hh.
  - intros p k v d Hp [Hne E]%Hup Hpos. destruct (decide (slot (p - 1) = c)) as [Epc|Hpc].
    + pose proof (slot_pred c p Hv Epc Hp) as ->. specialize (Hnext _ _ _ E). lia.
    + rewrite upd_ne by done. by eapply Hc.
  - intros p q k v d v' d' Hp Hq [Hpc Ep]%Hup [Hqc Eq]%Hup. by eapply (Hu p q).
  - exists c. split; [done|]. left. apply upd_eq.
  - intros k v. rewrite <- Hhas. split.
    + intros (p & d & Hp & [Hpc Ep]%Hup). by exists p, d.
    + intros (p & d & Hp & Hpc & Ep). exists p, d. by rewrite upd_ne.
Qed.

(** the distance, in slots, to where the shift stops never grows *)
Lemma hole_stop f0 f k0 c k v d o : hole f0 f k0 c -> f (slot (c + 1)) = Some (k, v, d) -> 0 < d ->
  1 <= o <= n -> stops f (slot (c + o)) ->
  1 < o /\ stops (upd f c (Some (k, v, d - 1))) (slot (slot (c + 1) + (o - 1))).
Proof.
  intros Hf E Hd Ho Hs. pose proof (hole_valid _ _ _ _ Hf) as Hv. split.
  - destruct (Z.eq_dec o 1) as [->|]; [|lia]. destruct Hs as [Hs|(? & ? & Hs)]; simplify_eq; lia.
  - rewrite slot_add. replace (c + 1 + (o - 1)) with (c + o) by lia.
    destruct (decide (slot (c + o) = c)) as [Eo|Hne]; [|unfold stops; by rewrite upd_ne].
    rewrite Eo in *. unfold stops. rewrite upd_eq. right. exists k, v. do 2 f_equal.
    destruct (hole_chain _ _ _ _ Hf _ _ _ _ (slot_valid _) E Hd) as (k1 & v1 & d1 & E1 & ?).
    rewrite slot_sub in E1. replace (c + 1 - 1) with c in E1 by lia. rewrite slot_id in E1 by done.
    destruct Hs as [Hs|(? & ? & Hs)]; simplify_eq. lia.
Qed.

(** ** The start of an insertion *)

Lemma carry_init f k v : absent f k -> carry f (slot (home k)) k v 0.
Proof. intros Ha. split; [lia|by rewrite Z.add_0_r|intros ?; lia|done]. Qed.

(** nothing above depends on a view outside the valid slots *)
Definition veq (f g : view) : Prop := forall p, valid p -> f p = g p.

#[export] Instance veq_equiv : Equivalence veq.
Proof.
  split; [by intros f p|intros f g E p Hp; symmetry; by apply E|].
  intros f g h E1 E2 p Hp. by rewrite E1, E2.
Qed.

Lemma veq_has f g k v : veq f g -> has f k v -> has g k v.
Proof. intros E (p & d & Hp & Ep). exists p, d. by rewrite <- E. Qed.

#[export] Instance has_proper : Proper (veq ==> eq ==> eq ==> iff) has.
Proof. intros f g E k _ <- v _ <-. split; apply veq_has; [done|by symmetry]. Qed.

Lemma veq_inv f g : veq f g -> inv f -> inv g.
Proof.
  intros E [Hh Hc Hu (z & Hz & Hs)]. split.
  - intros p k v d Hp Ep. rewrite <- E in Ep by done. by eapply Hh.
  - intros p k v d Hp Ep Hd. rewrite <- E in Ep by done.
    rewrite <- E by apply slot_valid. by eapply Hc.
  - intros p q k v d v' d' Hp Hq Ep Eq. rewrite <- E in Ep, Eq by done. by eapply Hu.
  - exists z. split; [done|]. unfold stops. by rewrite <- !E.
Qed.

#[export] Instance inv_proper : Proper (veq ==> iff) inv.
Proof. intros f g E. split; apply veq_inv; [done|by symmetry]. Qed.

(** ** Tables as lists of slots *)

Abbreviation table := (list (option (K * V * Z))).

Definition view_of (t : table) : view := fun p => mjoin (t !! Z.to_nat p).

Definition occ (x : option (K * V * Z)) : Z := match x with Some _ => 1 | None => 0 end.
Fixpoint used (t : table) : Z := match t with [] => 0 | x :: t => occ x + used t end.

Lemma used_app t t' : used (t ++ t') = used t + used t'.
Proof. induction t as [|x t IH]; simpl; lia. Qed.
Lemma occ_range x : 0 <= occ x <= 1.
Proof. destruct x; simpl; lia. Qed.

Lemma view_insert t p x : zlen t = n -> valid p ->
  veq (view_of (<[Z.to_nat p := x]> t)) (upd (view_of t) p x).
Proof.
  unfold zlen, valid. intros Ht Hp q Hq. unfold view_of, upd. unfold valid in Hq. case_decide as E.
  - subst. rewrite list_lookup_insert_eq by lia. done.
  - rewrite list_lookup_insert_ne by lia. done.
Qed.

Lemma view_insert_has t p x k v : zlen t = n -> valid p ->
  has (view_of (<[Z.to_nat p := x]> t)) k v <-> has (upd (view_of t) p x) k v.
Proof. intros. apply has_proper; [|done..]. by apply view_insert. Qed.

Lemma view_insert_inv t p x : zlen t = n -> valid p ->
  inv (upd (view_of t) p x) -> inv (view_of (<[Z.to_nat p := x]> t)).
Proof. intros. apply (inv_proper (upd (view_of t) p x)); [|done]. symmetry. by apply view_insert. Qed.

Lemma view_rd t p x : zlen t = n -> valid p -> view_of t p = x -> rd t p = Ret x.
Proof.
  intros Ht Hp Hx. destruct (rd_in t p) as (y & -> & Hy); [unfold valid in Hp; lia|].
  unfold view_of in Hx. rewrite Hy in Hx. simpl in Hx. congruence.
Qed.

Lemma used_insert t p (x : option (K * V * Z)) : zlen t = n -> valid p ->
  used (<[Z.to_nat p := x]> t) = used t + occ x - occ (view_of t p).
Proof.
  intros Ht Hp. destruct (lookup_lt_is_Some_2 t (Z.to_nat p)) as [y Hy];
    [unfold valid, zlen in *; lia|].
  assert (Hlt : (Z.to_nat p < length t)%nat) by (by eapply lookup_lt_Some).
  unfold view_of. rewrite Hy. simpl. rewrite insert_take_drop by done.
  rewrite <- (take_drop_middle t (Z.to_nat p) y Hy) at 3.
  rewrite !used_app. simpl. lia.
Qed.

Lemma used_empty t : zlen t = n -> used t < n -> exists p, valid p /\ view_of t p = None.
Proof.
  intros Ht Hu. assert (exists i : nat, t !! i = Some None) as [i Hi].
  { rewrite <- Ht in Hu. clear -Hu. unfold zlen in *. induction t as [|[x|] t IH]; simpl in *.
    - lia.
    - destruct IH as [i Hi]; [lia|]. by exists (S i).
    - by exists 0%nat. }
  exists (Z.of_nat i). pose proof (lookup_lt_Some _ _ _ Hi). unfold valid, view_of, zlen in *.
  split; [lia|]. rewrite Nat2Z.id, Hi. done.
Qed.

Lemma used_le t : 0 <= used t <= zlen t.
Proof.
  unfold zlen. induction t as [|x t IH]; simpl length; simpl used; [lia|].
  pose proof (occ_range x). lia.
Qed.

(** the table before anything is stored *)
Lemma inv_empty : inv (view_of (replicate (Z.to_nat n) None)).
Proof.
  assert (E : forall p, view_of (replicate (Z.to_nat n) None) p = None).
  { intros p. unfold view_of. destruct (_ !! _) as [x|] eqn:Hx; [|done].
    apply lookup_replicate in Hx as [-> _]. done. }
  split; try (intros ?; intros; congruence).
  exists 0. split; [unfold valid; lia|]. left. apply E.
Qed.

Lemma has_empty k v : ~ has (view_of (replicate (Z.to_nat n) None)) k v.
Proof.
  intros (p & d & _ & E). unfold view_of in E. destruct (_ !! _) as [x|] eqn:Hx; [|done].
  apply lookup_replicate in Hx as [-> _]. done.
Qed.

Lemma used_replicate : used (replicate (Z.to_nat n) None) = 0.
Proof. by induction (Z.to_nat n). Qed.

(** *** Searching

    [dist_first] tells whether the test on the distance comes before the
    comparison of the keys. *)
Fixpoint g_find (dist_first : bool) (fuel : nat) (t : table) (start : Z) (k : K) (pos dist : Z) :
    outcome (option Z) :=
  match fuel with
  | O => OutOfFuel
  | S fuel =>
      e ← rd t pos;
      match e with
      | None => Ret None
      | Some (k', _, d') =>
          if dist_first && (d' <? dist) then Ret None
          else if decide (k = k') then Ret (Some pos)
          else if d' <? dist then Ret None
          else let pos' := slot (pos + 1) in
               if pos' =? start then Ret None
               else g_find dist_first fuel t start k pos' (dist + 1)
      end
  end.

Definition find_result (t : table) (k : K) (r : option Z) : Prop :=
  match r with
  | Some p => valid p /\ exists v d, view_of t p = Some (k, v, d)
  | None => absent (view_of t) k
  end.

Lemma g_find_spec_aux order t k : zlen t = n -> inv (view_of t) -> forall fuel j,
  0 <= j < n -> Z.of_nat fuel = n - j ->
  (forall i, 0 <= i < j -> exists k' v' d', view_of t (slot (home k + i)) = Some (k', v', d') /\ k' <> k) ->
  exists r, g_find order fuel t (slot (home k)) k (slot (home k + j)) j = Ret r /\ find_result t k r.
Proof.
  intros Ht [Hh Hc Hu _]. induction fuel as [|fuel IH]; intros j Hj Hf Hseen; [lia|].
  assert (Hstop : view_of t (slot (home k + j)) = None \/ (exists k' v' d',
      view_of t (slot (home k + j)) = Some (k', v', d') /\ (d' < j)) -> absent (view_of t) k).
  { intros Hs v (p & d & Hp & Ep). destruct (Hh _ _ _ _ Hp Ep) as [Hd Hpd].
    destruct (Z_lt_le_dec d j) as [Hlt|Hge].
    - destruct (Hseen d) as (? & ? & ? & E & ?); [lia|]. rewrite <- Hpd in E. congruence.
    - assert (exists k' v' d', view_of t (slot (home k + j)) = Some (k', v', d') /\ j <= d')
        as (k1 & v1 & d1 & E1 & ?).
      { destruct (Z.eq_dec d j) as [->|]; [rewrite <- Hpd; do 3 eexists; split; [exact Ep|lia]|].
        apply (probe_reaches (view_of t) k v p d Hh Hc Hp Ep). lia. }
      destruct Hs as [E|(? & ? & ? & E & ?)]; rewrite E in E1; simplify_eq; lia. }
  cbn [g_find]. erewrite view_rd by (done || apply slot_valid). cbn [mbind outcome_mbind].
  destruct (view_of t (slot (home k + j))) as [[[k' v'] d']|] eqn:E.
  2: { exists None. split; [done|]. apply Hstop. by left. }
  destruct (order && (d' <? j)) eqn:Eo.
  { exists None. split; [done|]. apply Hstop. right. zbool. eauto 6. }
  case_decide as Hk.
  { subst k'. eexists. split; [done|]. split; [apply slot_valid|eauto]. }
  destruct (d' <? j) eqn:El.
  { exists None. split; [done|]. apply Hstop. right. zbool. eauto 6. }
  rewrite slot_add. replace (home k + j + 1) with (home k + (j + 1)) by lia.
  assert (Hseen' : forall i, 0 <= i < j + 1 -> exists k' v' d',
    view_of t (slot (home k + i)) = Some (k', v', d') /\ k' <> k).
  { intros i Hi. destruct (Z.eq_dec i j) as [->|]; [|apply Hseen; lia]. eauto 6. }
  destruct (slot (home k + (j + 1)) =? slot (home k)) eqn:Es; zbool.
  - exists None. split; [done|]. intros v (p & d & Hp & Ep). destruct (Hh _ _ _ _ Hp Ep) as [Hd Hpd].
    assert (j + 1 = n).
    { destruct (Z.eq_dec (j + 1) n) as [|Hn]; [done|]. rewrite <- (Z.add_0_r (home k)) in Es at 2.
      apply slot_offset_inj in Es; lia. }
    destruct (Hseen' d) as (? & ? & ? & E' & ?); [lia|]. rewrite <- Hpd in E'. congruence.
  - apply IH; [|lia|done]. destruct (Z.eq_dec (j + 1) n) as [Hn|]; [|lia].
    rewrite Hn, slot_full in Es. done.
Qed.

(** with the table's size as fuel, the search ends, and it finds every stored
    key and no other *)
Lemma g_find_spec order t k : zlen t = n -> inv (view_of t) ->
  exists r, g_find order (Z.to_nat n) t (slot (home k)) k (slot (home k)) 0 = Ret r /\ find_result t k r.
Proof.
  intros Ht Hi. pose proof (g_find_spec_aux order t k Ht Hi (Z.to_nat n) 0) as H.
  rewrite Z.add_0_r in H. apply H; lia.
Qed.

(** *** Inserting

    [k0] is the key the loop compares with, [(k, v, d)] the entry it carries:
    the one to insert, or the one it last took out of a slot. *)
Inductive ins_result : Type :=
  | Placed (t : table)
  | Matched (t : table) (p : Z) (x : K * V * Z)
  | NoSlot (t : table).

Fixpoint g_insert (fuel : nat) (t : table) (start : Z) (k0 : K) (pos : Z) (x : K * V * Z) :
    outcome ins_result :=
  match fuel with
  | O => OutOfFuel
  | S fuel =>
      e ← rd t pos;
      match e with
      | None => Ret (Placed (<[Z.to_nat pos := Some x]> t))
      | Some y =>
          if decide (k0 = y.1.1) then Ret (Matched t pos x)
          else
            let '(t', x') := if y.2 <? x.2 then (<[Z.to_nat pos := Some x]> t, y) else (t, x) in
            let pos' := slot (pos + 1) in
            let x'' := (x'.1, x'.2 + 1) in
            if pos' =? start then Ret (NoSlot t')
            else g_insert fuel t' start k0 pos' x''
      end
  end.

(** the state of the insertion of a new key after [j] slots *)
Record inserting (f0 : view) (n0 : Z) (k0 : K) (v0 : V) (t : table) (j : Z) (k : K) (v : V) (d : Z) :
    Prop := Inserting {
  i_len : zlen t = n;
  i_home : inv_home (view_of t);
  i_chain : inv_chain (view_of t);
  i_uniq : inv_uniq (view_of t);
  i_carry : carry (view_of t) (slot (home k0 + j)) k v d;
  i_key : k = k0 \/ exists i w d', 0 <= i < j /\ view_of t (slot (home k0 + i)) = Some (k0, w, d');
  i_has : forall k' v', (has (view_of t) k' v' \/ (k' = k /\ v' = v)) <->
                        (has f0 k' v' \/ (k' = k0 /\ v' = v0));
  i_used : used t = n0;
  i_room : exists o, j <= o < n /\ view_of t (slot (home k0 + o)) = None;
}.

Lemma inserting_key f0 n0 k0 v0 t j k v d k2 v2 d2 : inserting f0 n0 k0 v0 t j k v d -> 0 <= j < n ->
  view_of t (slot (home k0 + j)) = Some (k2, v2, d2) -> k0 <> k2.
Proof.
  intros Hi Hj E <-. destruct (i_key _ _ _ _ _ _ _ _ _ Hi) as [->|(i & w & d' & Hij & E')].
  - eapply (carry_absent _ _ _ _ _ (i_carry _ _ _ _ _ _ _ _ _ Hi)).
    exists (slot (home k0 + j)), d2. split; [apply slot_valid|done].
  - pose proof (i_uniq _ _ _ _ _ _ _ _ _ Hi _ _ _ _ _ _ _ (slot_valid _) (slot_valid _) E E') as Ep.
    apply slot_offset_inj in Ep; lia.
Qed.

Lemma inserting_bound f0 n0 k0 v0 t j k v d : inserting f0 n0 k0 v0 t j k v d -> d < n.
Proof.
  intros [_ _ Hc _ Hca _ _ _ (o & _ & Eo)]. eapply carry_bound; [done..| |done]. apply slot_valid.
Qed.

(** the carried entry replaces one that is nearer to its home *)
Lemma inserting_swap f0 n0 k0 v0 t j k v d k2 v2 d2 : inserting f0 n0 k0 v0 t j k v d -> 0 <= j < n ->
  view_of t (slot (home k0 + j)) = Some (k2, v2, d2) -> d2 < d ->
  inserting f0 n0 k0 v0 (<[Z.to_nat (slot (home k0 + j)) := Some (k, v, d)]> t) (j + 1) k2 v2 (d2 + 1).
Proof.
  intros Hi Hj E Hlt. pose proof (inserting_bound _ _ _ _ _ _ _ _ _ Hi) as Hd.
  destruct Hi as [Hl Hh Hc Hu Hca Hk Hhas Hused Hroom].
  set (c := slot (home k0 + j)) in *. assert (Hv : valid c) by apply slot_valid.
  destruct (carry_next _ _ _ _ _ _ _ _ Hh Hc Hu Hca Hd E Hlt) as (Hh' & Hc' & Hu' & Hca' & Hhas').
  pose proof (view_insert t c (Some (k, v, d)) Hl Hv) as Hview.
  assert (Hbeh : forall q e, valid q -> behind (upd (view_of t) c (Some (k, v, d))) q e ->
    behind (view_of (<[Z.to_nat c:=Some (k, v, d)]> t)) q e).
  { intros q e Hq Hb Hpos. rewrite Hview by apply slot_valid. by apply Hb. }
  split.
  - by rewrite zlen_insert.
  - intros p k' v' d' Hp Ep. rewrite Hview in Ep by done. by eapply Hh'.
  - intros p k' v' d' Hp Ep. rewrite Hview in Ep by done. apply Hbeh; [done|]. by eapply Hc'.
  - intros p q k' v1 d1 v2' d2' Hp Hq Ep Eq. rewrite Hview in Ep, Eq by done. by eapply Hu'.
  - destruct Hca' as [H1 H2 H3 H4]. unfold c in H2, H3 |- *. rewrite slot_add in H2, H3.
    replace (home k0 + j + 1) with (home k0 + (j + 1)) in H2, H3 by lia. split; [done|done| |].
    + apply Hbeh; [apply slot_valid|done].
    + intros w Hw. apply view_insert_has in Hw; [|done..]. by eapply H4.
  - destruct Hk as [->|(i & w & d' & Hij & Ei)].
    + right. exists j, v, d. split; [lia|]. rewrite Hview by done. by rewrite upd_eq.
    + right. exists i, w, d'. split; [lia|]. rewrite Hview by apply slot_valid.
      rewrite upd_ne; [done|]. intros Ec. apply slot_offset_inj in Ec; lia.
  - intros k' v'. rewrite view_insert_has, Hhas', <- Hhas by done. done.
  - rewrite used_insert by done. rewrite E. simpl. lia.
  - destruct Hroom as (o & Ho & Eo). exists o.
    assert (o <> j) by (intros ->; fold c in Eo; congruence).
    split; [lia|]. rewrite Hview by apply slot_valid. rewrite upd_ne; [done|].
    intros Ec. apply slot_offset_inj in Ec; lia.
Qed.

Lemma inserting_skip f0 n0 k0 v0 t j k v d k2 v2 d2 : inserting f0 n0 k0 v0 t j k v d -> 0 <= j < n ->
  view_of t (slot (home k0 + j)) = Some (k2, v2, d2) -> d <= d2 ->
  inserting f0 n0 k0 v0 t (j + 1) k v (d + 1).
Proof.
  intros [Hl Hh Hc Hu Hca Hk Hhas Hused (o & Ho & Eo)] Hj E Hle. split; try done.
  - pose proof (carry_skip _ _ _ _ _ _ _ _ Hca E Hle) as H. rewrite slot_add in H.
    by replace (home k0 + (j + 1)) with (home k0 + j + 1) by lia.
  - destruct Hk as [->|(i & w & d' & ? & ?)]; [by left|right]. exists i, w, d'. split; [lia|done].
  - exists o. assert (o <> j) by (intros ->; congruence). split; [lia|done].
Qed.

Lemma g_insert_new_aux f0 n0 k0 v0 : forall fuel t j k v d, inserting f0 n0 k0 v0 t j k v d ->
  0 <= j < n -> Z.of_nat fuel = n - j ->
  exists t', g_insert fuel t (slot (home k0)) k0 (slot (home k0 + j)) (k, v, d) = Ret (Placed t') /\
    zlen t' = n /\ inv (view_of t') /\ used t' = n0 + 1 /\
    forall k' v', has (view_of t') k' v' <-> (has f0 k' v' \/ (k' = k0 /\ v' = v0)).
Proof.
  induction fuel as [|fuel IH]; intros t j k v d Hi Hj Hf; [lia|].
  pose proof (i_len _ _ _ _ _ _ _ _ _ Hi) as Hl.
  cbn [g_insert]. erewrite view_rd by (done || apply slot_valid). cbn [mbind outcome_mbind].
  destruct (view_of t (slot (home k0 + j))) as [[[k2 v2] d2]|] eqn:E.
  2: { eexists. split; [done|]. pose proof (slot_valid (home k0 + j)) as Hv.
       destruct Hi as [_ Hh Hc Hu Hca _ Hhas Hused _].
       destruct (place_spec _ _ _ _ _ Hh Hc Hu Hca E) as [Hinv Hpl]. split_and!.
       - by rewrite zlen_insert.
       - by apply view_insert_inv.
       - rewrite used_insert by done. rewrite E. simpl. lia.
       - intros k' v'. rewrite view_insert_has by done. rewrite Hpl, <- Hhas. tauto. }
  pose proof (inserting_key _ _ _ _ _ _ _ _ _ _ _ _ Hi Hj E) as Hne.
  simpl fst. simpl snd. rewrite decide_False by done.
  assert (Hnext : j + 1 < n).
  { destruct (i_room _ _ _ _ _ _ _ _ _ Hi) as (o & Ho & Eo).
    assert (o <> j) by (intros ->; congruence). lia. }
  rewrite slot_add. replace (home k0 + j + 1) with (home k0 + (j + 1)) by lia.
  assert (Es : (slot (home k0 + (j + 1)) =? slot (home k0)) = false).
  { apply Z.eqb_neq. intros Es. rewrite <- (Z.add_0_r (home k0)) in Es at 2.
    apply slot_offset_inj in Es; lia. }
  destruct (d2 <? d) eqn:Ed; zbool; cbn -[slot Z.add Z.to_nat]; rewrite (proj2 (Z.eqb_neq _ _) Es); apply IH; try lia.
  - by eapply inserting_swap.
  - by eapply inserting_skip.
Qed.

(** a key that is not stored goes into a slot, if one is free *)
Lemma g_insert_new t k v : zlen t = n -> inv (view_of t) -> used t < n -> absent (view_of t) k ->
  exists t', g_insert (Z.to_nat n) t (slot (home k)) k (slot (home k)) (k, v, 0) = Ret (Placed t') /\
    zlen t' = n /\ inv (view_of t') /\ used t' = used t + 1 /\
    forall k' v', has (view_of t') k' v' <-> (has (view_of t) k' v' \/ (k' = k /\ v' = v)).
Proof.
  intros Hl [Hh Hc Hu _] Hused Ha.
  pose proof (g_insert_new_aux (view_of t) (used t) k v (Z.to_nat n) t 0 k v 0) as H.
  rewrite Z.add_0_r in H. apply H; [|lia|lia]. split; try done.
  - by left.
  - destruct (used_empty t Hl Hused) as (p & Hp & Ep).
    destruct (slot_offset (home k) p Hp) as (o & Ho & Eo). exists o. by rewrite Eo.
Qed.

(** a key that is stored is reached before anything is moved *)
Lemma g_insert_old t k v0 p w d : zlen t = n -> inv (view_of t) -> valid p -> view_of t p = Some (k, w, d) ->
  g_insert (Z.to_nat n) t (slot (home k)) k (slot (home k)) (k, v0, 0) = Ret (Matched t p (k, v0, d)).
Proof.
  intros Hl [Hh Hc Hu _] Hp Ep. destruct (Hh _ _ _ _ Hp Ep) as [Hd Epd].
  cut (forall fuel j, 0 <= j <= d -> Z.of_nat fuel = n - j ->
    g_insert fuel t (slot (home k)) k (slot (home k + j)) (k, v0, j) = Ret (Matched t p (k, v0, d))).
  { intros H. specialize (H (Z.to_nat n) 0). rewrite Z.add_0_r in H. apply H; lia. }
  induction fuel as [|fuel IH]; intros j Hj Hf; [lia|].
  cbn [g_insert]. erewrite view_rd by (done || apply slot_valid). cbn [mbind outcome_mbind].
  destruct (Z.eq_dec j d) as [->|Hne].
  { rewrite <- Epd, Ep. simpl. by rewrite decide_True. }
  destruct (probe_reaches (view_of t) k w p d Hh Hc Hp Ep j) as (k2 & v2 & d2 & E2 & Hd2); [lia|].
  rewrite E2. simpl fst. simpl snd. rewrite decide_False.
  2: { intros <-. pose proof (Hu _ _ _ _ _ _ _ Hp (slot_valid _) Ep E2) as ->.
       apply slot_offset_inj in Epd; lia. }
  assert ((d2 <? j) = false) as -> by (apply Z.ltb_ge; lia).
  rewrite slot_add. replace (home k + j + 1) with (home k + (j + 1)) by lia.
  assert (Es : (slot (home k + (j + 1)) =? slot (home k)) = false).
  { apply Z.eqb_neq. intros Es. rewrite <- (Z.add_0_r (home k)) in Es at 2.
    apply slot_offset_inj in Es; lia. }
  cbn -[slot Z.add Z.to_nat]. rewrite Es. apply IH; lia.
Qed.

(** *** Removing: shifting back what follows slot [pos] *)
Fixpoint g_shift (fuel : nat) (t : table) (pos : Z) : outcome table :=
  match fuel with
  | O => OutOfFuel
  | S fuel =>
      e ← rd t (slot (pos + 1));
      match e with
      | Some (kv, d) =>
          if 0 <? d then g_shift fuel (<[Z.to_nat pos := Some (kv, d - 1)]> t) (slot (pos + 1))
          else Ret (<[Z.to_nat pos := None]> t)
      | None => Ret (<[Z.to_nat pos := None]> t)
      end
  end.

Lemma hole_veq f0 f g k c : veq f g -> hole f0 g k c -> hole f0 f k c.
Proof.
  assert (H : forall f g k c, veq f g -> hole f0 f k c -> hole f0 g k c).
  { intros f1 g1 k1 c1 E [Hv Hh Hc Hu Ht Hhas]. split; [done|..].
    - intros p k' v d Hp Ep. rewrite <- E in Ep by done. by eapply Hh.
    - intros p k' v d Hp Ep Hd. rewrite <- E in Ep by done.
      rewrite <- E by apply slot_valid. by eapply Hc.
    - intros p q k' v d v' d' Hp Hq ?? Ep Eq. rewrite <- E in Ep, Eq by done. by eapply (Hu p q).
    - by rewrite <- E.
    - intros k' v. rewrite <- Hhas. split; intros (p & d & Hp & ? & Ep); exists p, d;
        [rewrite E|rewrite <- E]; done. }
  intros E. apply H. by symmetry.
Qed.

Lemma g_shift_aux f0 k0 : forall fuel t c o, zlen t = n -> hole f0 (view_of t) k0 c ->
  1 <= o <= n -> o <= Z.of_nat fuel -> stops (view_of t) (slot (c + o)) ->
  exists t', g_shift fuel t c = Ret t' /\ zlen t' = n /\ inv (view_of t') /\ used t' = used t - 1 /\
    forall k v, has (view_of t') k v <-> (k <> k0 /\ has f0 k v).
Proof.
  induction fuel as [|fuel IH]; intros t c o Hl Hf Ho Hfu Hs; [lia|].
  pose proof (hole_valid _ _ _ _ Hf) as Hv. destruct (hole_taken _ _ _ _ Hf) as [x Ex].
  cbn [g_shift]. erewrite view_rd by (done || apply slot_valid). cbn [mbind outcome_mbind].
  assert (Hdone : (forall k v d, view_of t (slot (c + 1)) = Some (k, v, d) -> d <= 0) ->
    exists t', Ret (<[Z.to_nat c := None]> t) = Ret t' /\ zlen t' = n /\ inv (view_of t') /\
      used t' = used t - 1 /\ forall k v, has (view_of t') k v <-> (k <> k0 /\ has f0 k v)).
  { intros Hnext. destruct (hole_clear _ _ _ _ Hf Hnext) as [Hi Hh]. eexists. split; [done|].
    split_and!.
    - by rewrite zlen_insert.
    - by apply view_insert_inv.
    - rewrite used_insert by done. rewrite Ex. simpl. lia.
    - intros k v. by rewrite view_insert_has. }
  destruct (view_of t (slot (c + 1))) as [[[k v] d]|] eqn:E.
  2: { apply Hdone. intros. congruence. }
  destruct (0 <? d) eqn:Ed; zbool.
  2: { apply Hdone. intros. simplify_eq. lia. }
  destruct (hole_shift _ _ _ _ _ _ _ Hf E Ed) as [_ Hf'].
  destruct (hole_stop _ _ _ _ _ _ _ _ Hf E Ed Ho Hs) as [Ho' Hs'].
  pose proof (view_insert t c (Some (k, v, d - 1)) Hl Hv) as Hview.
  destruct (IH (<[Z.to_nat c := Some (k, v, d - 1)]> t) (slot (c + 1)) (o - 1))
    as (t' & Et & Hl' & Hi' & Hu' & Hh').
  - by rewrite zlen_insert.
  - eapply hole_veq; [by apply view_insert|done..].
  - lia.
  - lia.
  - unfold stops. rewrite Hview by apply slot_valid. done.
  - exists t'. split_and!; try done. rewrite Hu', used_insert by done. rewrite Ex. simpl. lia.
Qed.

(** with the table's size as fuel, the shift ends and removes the entry of slot [p] *)
Lemma g_shift_spec t p k v d : zlen t = n -> inv (view_of t) -> valid p -> view_of t p = Some (k, v, d) ->
  exists t', g_shift (Z.to_nat n) t p = Ret t' /\ zlen t' = n /\ inv (view_of t') /\
    used t' = used t - 1 /\ forall k' v', has (view_of t') k' v' <-> (k' <> k /\ has (view_of t) k' v').
Proof.
  intros Hl Hi Hp E. destruct (istop _ Hi) as (z & Hz & Hs).
  assert (exists o, 1 <= o <= n /\ slot (p + o) = z) as (o & Ho & Eo).
  { destruct (slot_offset p z Hz) as (o & Ho & Eo). destruct (Z.eq_dec o 0) as [->|].
    - exists n. rewrite slot_full. rewrite Z.add_0_r in Eo. split; [lia|done].
    - exists o. split; [lia|done]. }
  apply (g_shift_aux (view_of t) k (Z.to_nat n) t p o); try done; [|lia|by rewrite Eo].
  by eapply hole_init.
Qed.

(** overwriting the value of a stored key *)
Lemma replace_table t p k v w d : zlen t = n -> inv (view_of t) -> valid p -> view_of t p = Some (k, v, d) ->
  let t' := <[Z.to_nat p := Some (k, w, d)]> t in
  zlen t' = n /\ inv (view_of t') /\ used t' = used t /\
  forall k' v', has (view_of t') k' v' <-> (k' = k /\ v' = w) \/ (k' <> k /\ has (view_of t) k' v').
Proof.
  intros Hl Hi Hp E t'. destruct (replace_spec _ _ _ _ w _ Hi Hp E) as [Hi' Hh'].
  unfold t'. split_and!.
  - by rewrite zlen_insert.
  - by apply view_insert_inv.
  - rewrite used_insert by done. rewrite E. simpl. lia.
  - intros k' v'. by rewrite view_insert_has.
Qed.

Lemma has_fun t k v v' : inv (view_of t) -> has (view_of t) k v -> has (view_of t) k v' -> v = v'.
Proof.
  intros [_ _ Hu _] (p & d & Hp & E) (q & d' & Hq & E').
  pose proof (Hu _ _ _ _ _ _ _ Hp Hq E E') as ->. congruence.
Qed.
End RobinHood.

(** ** Capacities: the smallest power of two from [v] on, in 32 bits *)

Definition pow2_up (v : Z) : Z :=
  let v := u32 (v - 1) in
  let v := Z.lor v (Z.shiftr v 1) in
  let v := Z.lor v (Z.shiftr v 2) in
  let v := Z.lor v (Z.shiftr v 4) in
  let v := Z.lor v (Z.shiftr v 8) in
  let v := Z.lor v (Z.shiftr v 16) in
  u32 (v + 1).

Lemma pow2_up_spec v : 1 <= v <= UINT32_MAX ->
  exists lg, 0 <= lg <= 32 /\ v <= 2 ^ lg < 2 * v /\ pow2_up v = u32 (2 ^ lg).
Proof.
  unfold UINT32_MAX. intros Hv. destruct (Z.eq_dec v 1) as [->|Hne].
  { exists 0. split_and!; try lia. reflexivity. }
  unfold pow2_up. rewrite (uw_small 32 (v - 1)) by lia. cbv zeta.
  set (x := Z.lor _ (Z.shiftr _ 16)).
  assert (Hs : spread (v - 1) x (2 * (2 * (2 * (2 * (2 * 1)))))).
  { do 5 (apply spread_double; [done|]). apply spread_one. }
  assert (Hx : 0 <= x).
  { subst x. repeat first [apply Z.lor_nonneg; split|apply Z.shiftr_nonneg]; lia. }
  apply spread_ones in Hs as ->; [|lia..].
  pose proof (Z.log2_spec (v - 1) ltac:(lia)) as Hlog. pose proof (Z.log2_nonneg (v - 1)).
  assert (Z.log2 (v - 1) < 32) by (apply Z.log2_lt_pow2; lia).
  exists (Z.log2 (v - 1) + 1). rewrite <- Z.add_1_r in Hlog.
  rewrite Z.pow_add_r in * by lia. split_and!; [lia|lia|lia|lia|]. f_equal. lia.
Qed.

Lemma pow2_up_pow lg : 0 <= lg <= 31 -> pow2_up (2 ^ lg) = 2 ^ lg.
Proof.
  intros H. pose proof (Z.pow_le_mono_r 2 lg 31). pose proof (Z.pow_pos_nonneg 2 lg).
  destruct (pow2_up_spec (2 ^ lg)) as (lg' & Hlg' & Hle & ->); [unfold UINT32_MAX; lia|].
  replace (2 * 2 ^ lg) with (2 ^ (lg + 1)) in Hle by (rewrite Z.pow_add_r; lia).
  assert (lg <= lg' < lg + 1).
  { split; [apply (Z.pow_le_mono_r_iff 2); lia|apply (Z.pow_lt_mono_r_iff 2); lia]. }
  replace lg' with lg by lia. apply uw_small. lia.
Qed.

Lemma land_pow2 lg x m : 0 <= lg -> m = 2 ^ lg - 1 -> Z.land x m = x mod 2 ^ lg.
Proof. intros H ->. by apply land_mask. Qed.

Lemma pow2_range lg n : 0 <= lg <= 31 -> n = 2 ^ lg -> 0 < n <= 2 ^ 31.
Proof. intros H ->. pose proof (Z.pow_le_mono_r 2 lg 31). pose proof (Z.pow_pos_nonneg 2 lg). lia. Qed.
