(* ===== verification/Idtbl.v ===== *)
(** * Identifier tables (src/lib/util/idtbl.c)

    A map from 32-bit identifiers to pointers: Robin Hood hashing with
    backward-shift removal, growing at 5/6 of its capacity.  The theorems
    show that it refines a finite map. *)

From stdpp Require Import gmap.
From S2P Require Import Prelude RobinHood.

Definition IDTBL_OK : Z := 0.
Definition IDTBL_ENOTFOUND : Z := -1.
Definition IDTBL_EFULL : Z := -2.
Definition IDTBL_EINVAL : Z := -3.
Definition IDTBL_ENOSLOT : Z := -4.
Definition IDTBL_ENOMEM : Z := -5.

(** [key] is an [int32_t] that holds the bits of an unsigned key *)
Record idtbl_entry : Type := Entry {
  e_distance : Z;
  e_key : Z;
  e_value : Z;
}.

Record idtbl_header : Type := Header {
  cap : Z;
  size : Z;
  hashseed : Z;
  modmask : Z;
  rehash_limit : Z;
}.

Record idtbl_ctx : Type := Ctx {
  header : idtbl_header;
  entries : list idtbl_entry;
}.

Definition empty_entry : idtbl_entry := Entry 0 0 0.

Definition IDTBL_SIZE (cap_ : Z) : Z := u64 (cap_ * 16).
Definition TABLE_INDEX (tbl : idtbl_ctx) (val : Z) : Z := Z.land val (modmask (header tbl)).
Definition FNV1A_OFFSET : Z := 0x811c9dc5.
Definition FNV1A_PRIME : Z := 0x1000193.
Definition REHASH_ROUND_UP (val : Z) : Z := u32 (val + val / 6).
Definition REHASH_LIMIT (val : Z) : Z := u32 (val - val / 6).

Fixpoint hash_bytes (i : nat) (key hash : Z) : Z :=
  match i with
  | O => hash
  | S i => hash_bytes i (Z.shiftr key 8) (u32 (Z.lxor hash (Z.land key 0xff) * FNV1A_PRIME))
  end.

Definition hashfunc (key seed : Z) : Z := hash_bytes 4 key seed.

Definition round_up_pow2 (v : Z) : Z :=
  let v := u32 (v - 1) in
  let v := Z.lor v (Z.shiftr v 1) in
  let v := Z.lor v (Z.shiftr v 2) in
  let v := Z.lor v (Z.shiftr v 4) in
  let v := Z.lor v (Z.shiftr v 8) in
  let v := Z.lor v (Z.shiftr v 16) in
  u32 (v + 1).

Definition init_header (nslots seed : Z) : option idtbl_header :=
  let cap := round_up_pow2 nslots in
  if cap <? nslots then None
  else Some (Header cap 0 (hashfunc seed FNV1A_OFFSET) (u32 (cap - 1)) (REHASH_LIMIT cap)).

(** [alloc_ok n] tells whether [malloc] or [calloc] of [n] bytes succeeds *)
Definition init_table (alloc_ok : Z -> bool) (nslots seed : Z) : option idtbl_ctx :=
  match init_header nslots seed with
  | None => None
  | Some hdr =>
      if alloc_ok (IDTBL_SIZE (cap hdr))
      then Some (Ctx hdr (replicate (Z.to_nat (cap hdr)) empty_entry))
      else None
  end.

Definition copy_table (alloc_ok : Z -> bool) (src : idtbl_ctx) : option idtbl_ctx :=
  if alloc_ok (IDTBL_SIZE (cap (header src)))
  then Some (Ctx (header src) (take (Z.to_nat (cap (header src))) (entries src)))
  else None.

Definition idtbl_cleanup (ctx : idtbl_ctx) : idtbl_ctx := Ctx (Header 0 0 0 0 0) [].

Fixpoint find_loop (fuel : nat) (tbl : idtbl_ctx) (key start_pos current_pos distance : Z) :
    outcome (option Z) :=
  match fuel with
  | O => OutOfFuel
  | S fuel =>
      elem ← rd (entries tbl) current_pos;
      if u32 (e_key elem) =? key then Ret (Some current_pos)
      else if (e_key elem =? 0) || (u32 (e_distance elem) <? distance) then Ret None
      else
        let current_pos := TABLE_INDEX tbl (u32 (current_pos + 1)) in
        let distance := u32 (distance + 1) in
        if negb (current_pos =? start_pos)
        then find_loop fuel tbl key start_pos current_pos distance
        else Ret None
  end.

(** the index of the entry, if any *)
Definition find_table_entry (tbl : idtbl_ctx) (key : Z) : outcome (option Z) :=
  let key := u32 (key + 1) in
  let start_pos := TABLE_INDEX tbl (hashfunc key (hashseed (header tbl))) in
  find_loop (length (entries tbl)) tbl key start_pos start_pos 0.

Definition idtbl_get (ctx : idtbl_ctx) (key : Z) : outcome (Z * option Z) :=
  ent ← find_table_entry ctx key;
  match ent with
  | None => Ret (IDTBL_ENOTFOUND, None)
  | Some i => e ← rd (entries ctx) i; Ret (IDTBL_OK, Some (e_value e))
  end.

Definition idtbl_contains (ctx : idtbl_ctx) (key : Z) : outcome Z :=
  ent ← find_table_entry ctx key;
  Ret (match ent with None => 0 | Some _ => 1 end).

Definition set_entries (ctx : idtbl_ctx) (es : list idtbl_entry) : idtbl_ctx := Ctx (header ctx) es.
Definition set_size (ctx : idtbl_ctx) (n : Z) : idtbl_ctx :=
  let h := header ctx in
  Ctx (Header (cap h) n (hashseed h) (modmask h) (rehash_limit h)) (entries ctx).

Fixpoint shift_loop (fuel : nat) (ctx : idtbl_ctx) (curr next : Z) : outcome (idtbl_ctx * Z) :=
  match fuel with
  | O => OutOfFuel
  | S fuel =>
      e ← rd (entries ctx) next;
      if negb (e_key e =? 0) && (0 <? e_distance e) then
        es ← wr (entries ctx) curr (Entry (e_distance e - 1) (e_key e) (e_value e));
        shift_loop fuel (set_entries ctx es) (TABLE_INDEX ctx (u32 (curr + 1)))
          (TABLE_INDEX ctx (u32 (next + 1)))
      else Ret (ctx, curr)
  end.

Definition idtbl_remove (ctx : idtbl_ctx) (key : Z) : outcome (idtbl_ctx * Z) :=
  ent ← find_table_entry ctx key;
  match ent with
  | None => Ret (ctx, IDTBL_ENOTFOUND)
  | Some curr =>
      let next := TABLE_INDEX ctx (u32 (curr + 1)) in
      '(ctx, curr) ← shift_loop (length (entries ctx)) ctx curr next;
      es ← wr (entries ctx) curr empty_entry;
      Ret (set_size (set_entries ctx es) (u32 (size (header ctx) - 1)), IDTBL_OK)
  end.

Fixpoint set_loop (fuel : nat) (tbl : idtbl_ctx) (key start_pos current_pos : Z) (elem : idtbl_entry) :
    outcome (idtbl_ctx * Z) :=
  match fuel with
  | O => OutOfFuel
  | S fuel =>
      curr ← rd (entries tbl) current_pos;
      if e_key curr =? 0 then
        es ← wr (entries tbl) current_pos elem;
        Ret (set_size (set_entries tbl es) (u32 (size (header tbl) + 1)), IDTBL_OK)
      else if u32 (e_key curr) =? key then
        es ← wr (entries tbl) current_pos elem;
        Ret (set_entries tbl es, IDTBL_OK)
      else
        '(tbl, elem) ←
          (if e_distance curr <? e_distance elem
           then es ← wr (entries tbl) current_pos elem; Ret (set_entries tbl es, curr)
           else Ret (tbl, elem));
        let elem := Entry (e_distance elem + 1) (e_key elem) (e_value elem) in
        let current_pos := TABLE_INDEX tbl (u32 (current_pos + 1)) in
        if negb (current_pos =? start_pos)
        then set_loop fuel tbl key start_pos current_pos elem
        else Ret (tbl, IDTBL_ENOSLOT)
  end.

Definition set_table_value (tbl : idtbl_ctx) (key value : Z) : outcome (idtbl_ctx * Z) :=
  if key =? UINT32_MAX then Ret (tbl, IDTBL_EINVAL)
  else if cap (header tbl) <=? size (header tbl) then Ret (tbl, IDTBL_EFULL)
  else
    let key := u32 (key + 1) in
    let start_pos := TABLE_INDEX tbl (hashfunc key (hashseed (header tbl))) in
    set_loop (length (entries tbl)) tbl key start_pos start_pos (Entry 0 (i32 key) value).

(** the loop of [grow] over the entries of the old table; the results of
    [set_table_value] are ignored *)
Fixpoint reinsert (ents : list idtbl_entry) (new_tbl : idtbl_ctx) : outcome idtbl_ctx :=
  match ents with
  | [] => Ret new_tbl
  | ent :: ents =>
      if negb (e_key ent =? 0) then
        '(new_tbl, _) ← set_table_value new_tbl (u32 (e_key ent - 1)) (e_value ent);
        reinsert ents new_tbl
      else reinsert ents new_tbl
  end.

Definition grow (alloc_ok : Z -> bool) (ctx : idtbl_ctx) : outcome (idtbl_ctx * Z) :=
  let new_cap := u32 (Z.shiftl (cap (header ctx)) 1) in
  if new_cap <? cap (header ctx) then Ret (ctx, IDTBL_ENOMEM)
  else
    match init_table alloc_ok new_cap (hashseed (header ctx)) with
    | None => Ret (ctx, IDTBL_ENOMEM)
    | Some new_tbl =>
        new_tbl ← reinsert (take (Z.to_nat (cap (header ctx))) (entries ctx)) new_tbl;
        Ret (new_tbl, IDTBL_OK)
    end.

Definition idtbl_init (alloc_ok : Z -> bool) (nslots seed : Z) : option idtbl_ctx * Z :=
  let nslots := if nslots =? 0 then 1 else nslots in
  let cap := REHASH_ROUND_UP nslots in
  if cap <? nslots then (None, IDTBL_ENOMEM)
  else
    match init_table alloc_ok cap seed with
    | None => (None, IDTBL_ENOMEM)
    | Some ctx => (Some ctx, IDTBL_OK)
    end.

Definition idtbl_insert (alloc_ok : Z -> bool) (ctx : idtbl_ctx) (key value : Z) :
    outcome (idtbl_ctx * Z) :=
  '(ctx, ret) ←
    (if rehash_limit (header ctx) <=? size (header ctx) then grow alloc_ok ctx
     else Ret (ctx, IDTBL_OK));
  if negb (ret =? IDTBL_OK) then Ret (ctx, ret)
  else set_table_value ctx key value.

Definition idtbl_copy (alloc_ok : Z -> bool) (src : idtbl_ctx) : option idtbl_ctx * Z :=
  match copy_table alloc_ok src with
  | None => (None, IDTBL_ENOMEM)
  | Some dst => (Some dst, IDTBL_OK)
  end.

Definition idtbl_strerror (code : Z) : string :=
  if code =? IDTBL_OK then "success"
  else if code =? IDTBL_ENOTFOUND then "element not found"
  else if code =? IDTBL_EFULL then "table full"
  else if code =? IDTBL_EINVAL then "invalid argument"
  else if code =? IDTBL_ENOSLOT then "no slot available"
  else if code =? IDTBL_ENOMEM then "out of memory"
  else "unknown error".

(** ** The table as a Robin Hood table *)

Definition abs (e : idtbl_entry) : option (Z * Z * Z) :=
  if e_key e =? 0 then None else Some (u32 (e_key e), e_value e, e_distance e).

Definition entry_ok (e : idtbl_entry) : Prop :=
  - 2 ^ 31 <= e_key e < 2 ^ 31 /\ 0 <= e_distance e < 2 ^ 31.

Definition home (seed key : Z) : Z := hashfunc key seed.

(** what holds of a table also inside the loops *)
Record shape (ctx : idtbl_ctx) : Prop := Shape {
  wf_lg : exists lg, 0 <= lg <= 31 /\ cap (header ctx) = 2 ^ lg;
  wf_mask : modmask (header ctx) = cap (header ctx) - 1;
  wf_limit : rehash_limit (header ctx) = REHASH_LIMIT (cap (header ctx));
  wf_len : zlen (entries ctx) = cap (header ctx);
  wf_entries : Forall entry_ok (entries ctx);
}.

Record wf (ctx : idtbl_ctx) : Prop := Wf {
  wf_shape : shape ctx;
  wf_inv : inv (cap (header ctx)) (home (hashseed (header ctx))) (view_of (abs <$> entries ctx));
  wf_size : size (header ctx) = used (abs <$> entries ctx);
}.

(** [m] is the content of the table *)
Definition repr (ctx : idtbl_ctx) (m : gmap Z Z) : Prop :=
  wf ctx /\ size (header ctx) = Z.of_nat (base.size m) /\
  forall k v, m !! k = Some v <-> has (cap (header ctx)) (view_of (abs <$> entries ctx)) (k + 1) v.

(** ** Capacities *)

Lemma idt_round_up_pow2_eq v : round_up_pow2 v = pow2_up v.
Proof. unfold round_up_pow2, pow2_up. reflexivity. Qed.

Lemma idt_round_up_pow2_spec v : 1 <= v <= UINT32_MAX ->
  exists lg, 0 <= lg <= 32 /\ v <= 2 ^ lg < 2 * v /\ round_up_pow2 v = u32 (2 ^ lg).
Proof. intros Hv. rewrite idt_round_up_pow2_eq. by apply pow2_up_spec. Qed.

Lemma idt_round_up_pow2_pow lg : 0 <= lg <= 31 -> round_up_pow2 (2 ^ lg) = 2 ^ lg.
Proof. intros Hlg. rewrite idt_round_up_pow2_eq. by apply pow2_up_pow. Qed.

Lemma idt_wf_cap ctx : shape ctx -> 0 < cap (header ctx) <= 2 ^ 31.
Proof. intros [(lg & Hlg & E) _ _ _ _]. by eapply pow2_range. Qed.

Lemma idt_wf_index ctx x : shape ctx -> TABLE_INDEX ctx x = slot (cap (header ctx)) x.
Proof.
  intros [(lg & Hlg & E) Hm _ _ _]. unfold TABLE_INDEX, slot. rewrite E in *. apply land_pow2; lia.
Qed.

(** ** The loops are the loops of a Robin Hood table *)

Lemma idt_rd_abs es p e : rd es p = Ret e -> rd (abs <$> es) p = Ret (abs e).
Proof. intros [Hp E]%rd_ret. apply rd_ret. split; [done|]. by rewrite list_lookup_fmap, E. Qed.

Lemma idt_abs_some e : entry_ok e -> (e_key e =? 0) = false ->
  abs e = Some (u32 (e_key e), e_value e, e_distance e) /\ u32 (e_key e) <> 0.
Proof.
  unfold abs, entry_ok, uw. intros [Hk Hd] E. rewrite E. zbool. split; [done|]. divmod_lia.
Qed.

Lemma idt_abs_none e : (e_key e =? 0) = true -> abs e = None /\ u32 (e_key e) = 0.
Proof. unfold abs. intros E. rewrite E. zbool. by rewrite E. Qed.

Lemma idt_wf_rd ctx p : shape ctx -> valid (cap (header ctx)) p ->
  exists e, rd (entries ctx) p = Ret e /\ rd (abs <$> entries ctx) p = Ret (abs e) /\ entry_ok e.
Proof.
  intros Hw Hp. destruct (rd_in (entries ctx) p) as (e & E & Hl).
  { rewrite (wf_len _ Hw). done. }
  exists e. split_and!; [done|by apply idt_rd_abs|]. pose proof (wf_entries _ Hw) as Hf.
  rewrite Forall_lookup in Hf. by eapply Hf.
Qed.

Lemma idt_wf_step ctx p : shape ctx -> valid (cap (header ctx)) p ->
  TABLE_INDEX ctx (u32 (p + 1)) = slot (cap (header ctx)) (p + 1).
Proof.
  intros Hw Hp. rewrite idt_wf_index by done. pose proof (idt_wf_cap _ Hw). unfold valid in Hp.
  by rewrite uw_small by lia.
Qed.

Lemma idt_find_loop_sim ctx key start : shape ctx -> 0 < key < 2 ^ 32 -> forall fuel pos dist,
  valid (cap (header ctx)) pos -> 0 <= dist -> dist + Z.of_nat fuel < 2 ^ 32 ->
  find_loop fuel ctx key start pos dist =
  g_find (cap (header ctx)) false fuel (abs <$> entries ctx) start key pos dist.
Proof.
  intros Hw Hkey. pose proof (idt_wf_cap _ Hw) as Hcap.
  induction fuel as [|fuel IH]; intros pos dist Hp Hd Hf; [done|].
  cbn [find_loop g_find]. destruct (idt_wf_rd ctx pos Hw Hp) as (e & -> & -> & He).
  cbn [mbind outcome_mbind]. destruct (e_key e =? 0) eqn:Ek.
  - destruct (idt_abs_none e Ek) as [-> ->]. rewrite (proj2 (Z.eqb_neq _ _)) by lia. done.
  - destruct (idt_abs_some e He Ek) as [-> Hne]. rewrite andb_false_l. cbn [orb].
    rewrite (uw_small 32 (e_distance e)) by (destruct He; lia).
    rewrite idt_wf_step, (uw_small 32 (dist + 1)) by (done || lia).
    case_decide as Hk.
    + rewrite <- Hk, Z.eqb_refl. done.
    + rewrite (proj2 (Z.eqb_neq _ _)) by congruence. case_match; [done|]. cbv zeta.
      destruct (slot (cap (header ctx)) (pos + 1) =? start); [done|].
      apply IH; [|lia|lia]. apply slot_valid. lia.
Qed.

(** what a search returns *)
Lemma idt_find_spec ctx m key : repr ctx m -> 0 <= key < UINT32_MAX ->
  exists r, find_table_entry ctx key = Ret r /\
  match r with
  | Some i => valid (cap (header ctx)) i /\ exists e v, rd (entries ctx) i = Ret e /\
      abs e = Some (key + 1, v, e_distance e) /\ e_value e = v /\ m !! key = Some v
  | None => m !! key = None
  end.
Proof.
  unfold UINT32_MAX. intros ([Hw Hinv _] & _ & Hm) Hk. pose proof (idt_wf_cap _ Hw) as Hcap.
  unfold find_table_entry. rewrite (uw_small 32) by lia. cbv zeta.
  rewrite idt_wf_index by done.
  rewrite (idt_find_loop_sim ctx (key + 1)); [|done|lia|apply slot_valid; lia|done|].
  2: { pose proof (wf_len _ Hw). unfold zlen in *. lia. }
  replace (length (entries ctx)) with (Z.to_nat (cap (header ctx)))
    by (pose proof (wf_len _ Hw); unfold zlen in *; lia).
  destruct (g_find_spec (cap (header ctx)) ltac:(lia) (home (hashseed (header ctx))) false
    (abs <$> entries ctx) (key + 1)) as (r & Hr & Hres).
  { unfold zlen. rewrite length_fmap. apply (wf_len _ Hw). }
  { apply Hinv. }
  exists r. split; [done|]. destruct r as [p|]; simpl in Hres.
  - destruct Hres as (Hp & v & d & E). split; [done|].
    destruct (idt_wf_rd ctx p Hw Hp) as (e & Er & Ea & He).
    assert (abs e = Some (key + 1, v, d)) as Eabs.
    { apply rd_ret in Ea as [_ Ea]. unfold view_of in E. rewrite Ea in E. done. }
    exists e, v. assert (e_value e = v /\ e_distance e = d) as [<- <-].
    { unfold abs in Eabs. case_match; by simplify_eq. }
    split_and!; try done. apply Hm. by exists p, (e_distance e).
  - apply eq_None_not_Some. intros [v Hv]. apply Hm in Hv. by eapply Hres.
Qed.

Lemma idt_shape_entries ctx es : shape ctx -> zlen es = cap (header ctx) -> Forall entry_ok es ->
  shape (set_entries ctx es).
Proof. by intros [H1 H2 H3 _ _] Hl He. Qed.

Lemma idt_shape_size ctx es n : shape ctx -> zlen es = cap (header ctx) -> Forall entry_ok es ->
  shape (set_size (set_entries ctx es) n).
Proof. by intros [H1 H2 H3 _ _] Hl He. Qed.

(** ** Removal *)

Lemma idt_shift_loop_sim t' : forall fuel ctx curr, shape ctx -> valid (cap (header ctx)) curr ->
  g_shift (cap (header ctx)) fuel (abs <$> entries ctx) curr = Ret t' ->
  exists es c, shift_loop fuel ctx curr (slot (cap (header ctx)) (curr + 1)) = Ret (set_entries ctx es, c) /\
    valid (cap (header ctx)) c /\ zlen es = cap (header ctx) /\ Forall entry_ok es /\
    abs <$> <[Z.to_nat c := empty_entry]> es = t'.
Proof.
  induction fuel as [|fuel IH]; intros ctx curr Hw Hp; [done|].
  pose proof (idt_wf_cap _ Hw) as Hcap. pose proof (wf_len _ Hw) as Hlen.
  assert (Hv : valid (cap (header ctx)) (slot (cap (header ctx)) (curr + 1))) by (apply slot_valid; lia).
  cbn [shift_loop g_shift]. destruct (idt_wf_rd ctx _ Hw Hv) as (e & -> & -> & He).
  cbn [mbind outcome_mbind].
  assert (Hdone : Ret (<[Z.to_nat curr := None]> (abs <$> entries ctx)) = Ret t' ->
    exists es c, Ret (ctx, curr) = Ret (set_entries ctx es, c) /\ valid (cap (header ctx)) c /\
      zlen es = cap (header ctx) /\ Forall entry_ok es /\ abs <$> <[Z.to_nat c := empty_entry]> es = t').
  { intros [= <-]. exists (entries ctx), curr. split_and!; try done.
    - by destruct ctx.
    - apply (wf_entries _ Hw).
    - by rewrite list_fmap_insert. }
  destruct (e_key e =? 0) eqn:Ek.
  { destruct (idt_abs_none e Ek) as [-> _]. apply Hdone. }
  destruct (idt_abs_some e He Ek) as [-> Hne]. cbn [negb andb].
  destruct (0 <? e_distance e) eqn:Ed; [zbool|apply Hdone].
  rewrite wr_in by (rewrite Hlen; done). cbn [mbind outcome_mbind]. intros Hs.
  set (e' := Entry (e_distance e - 1) (e_key e) (e_value e)) in *.
  assert (He' : entry_ok e') by (destruct He; split; simpl; lia).
  assert (Ha' : abs e' = Some (u32 (e_key e), e_value e, e_distance e - 1)).
  { unfold abs, e'. simpl. rewrite (proj2 (Z.eqb_neq _ _)) by done. done. }
  rewrite !idt_wf_step by done.
  destruct (IH (set_entries ctx (<[Z.to_nat curr := e']> (entries ctx)))
    (slot (cap (header ctx)) (curr + 1))) as (es & c & E & H).
  - apply idt_shape_entries; [done|by rewrite zlen_insert|]. apply Forall_insert; [apply (wf_entries _ Hw)|done].
  - done.
  - simpl. by rewrite list_fmap_insert, Ha'.
  - exists es, c. split; [exact E|exact H].
Qed.

Lemma slot_step ctx p : shape ctx -> valid (cap (header ctx)) p ->
  TABLE_INDEX ctx (u32 (p + 1)) = slot (cap (header ctx)) (p + 1).
Proof. apply idt_wf_step. Qed.

Lemma idt_length_cap ctx : shape ctx -> length (entries ctx) = Z.to_nat (cap (header ctx)).
Proof. intros Hw. pose proof (wf_len _ Hw). unfold zlen in *. lia. Qed.

Lemma idt_zlen_abs ctx : shape ctx -> zlen (abs <$> entries ctx) = cap (header ctx).
Proof. intros Hw. unfold zlen. rewrite length_fmap. apply (wf_len _ Hw). Qed.

Lemma idt_map_size_delete (m : gmap Z Z) k v : m !! k = Some v ->
  Z.of_nat (base.size (delete k m)) = Z.of_nat (base.size m) - 1.
Proof. intros E. rewrite (map_size_delete_Some k m) by (by eexists).
  assert (base.size m <> 0%nat); [|lia]. intros H0%map_size_empty_inv. subst. by rewrite lookup_empty in E.
Qed.

Lemma idt_remove_spec ctx m key : repr ctx m -> 0 <= key < UINT32_MAX ->
  match m !! key with
  | Some _ => exists ctx', idtbl_remove ctx key = Ret (ctx', IDTBL_OK) /\ repr ctx' (delete key m) /\
      cap (header ctx') = cap (header ctx)
  | None => idtbl_remove ctx key = Ret (ctx, IDTBL_ENOTFOUND)
  end.
Proof.
  intros Hr Hk. destruct (idt_find_spec ctx m key Hr Hk) as (r & Hf & Hres).
  unfold idtbl_remove. rewrite Hf. cbn [mbind outcome_mbind].
  destruct r as [p|]; [|by rewrite Hres].
  destruct Hres as (Hp & e & v & He & Ha & Hev & Hm). rewrite Hm.
  destruct Hr as ([Hw Hinv Hsz] & Hmsz & Hmap). pose proof (idt_wf_cap _ Hw) as Hcap.
  destruct (g_shift_spec (cap (header ctx)) ltac:(lia) (home (hashseed (header ctx)))
    (abs <$> entries ctx) p (key + 1) v (e_distance e)) as (t' & Hg & Hl' & Hi' & Hu' & Hh').
  { by apply idt_zlen_abs. } { done. } { done. }
  { apply idt_rd_abs, rd_ret in He as [_ He]. unfold view_of. rewrite He. done. }
  rewrite slot_step by done. rewrite idt_length_cap by done.
  destruct (idt_shift_loop_sim t' _ ctx p Hw Hp Hg) as (es & c & -> & Hc & Hles & Hfes & Et).
  cbn [mbind outcome_mbind]. simpl entries. rewrite wr_in by (rewrite Hles; done). cbn [mbind outcome_mbind].
  pose proof (used_le (abs <$> entries ctx)) as Hule. rewrite idt_zlen_abs in Hule by done.
  pose proof (idt_map_size_delete m key v Hm) as Hms.
  eexists. split; [done|]. split; [|done]. split; [split|split]; simpl.
  - apply (idt_shape_size ctx); [done|by rewrite zlen_insert|]. by apply Forall_insert.
  - by rewrite Et.
  - rewrite Et, Hu', <- Hsz. apply uw_small. lia.
  - rewrite uw_small by lia. lia.
  - intros k w. rewrite Et, Hh', <- Hmap. rewrite lookup_delete_Some.
    split; intros [? ?]; split; done || congruence || lia.
Qed.

(** ** Insertion *)

Definition set_result (ctx : idtbl_ctx) (r : @ins_result Z Z) (c : outcome (idtbl_ctx * Z)) : Prop :=
  match r with
  | Placed t' => exists es,
      c = Ret (set_size (set_entries ctx es) (u32 (size (header ctx) + 1)), IDTBL_OK) /\
      zlen es = cap (header ctx) /\ Forall entry_ok es /\ abs <$> es = t'
  | Matched t' p x => exists es e,
      c = Ret (set_entries ctx (<[Z.to_nat p := e]> es), IDTBL_OK) /\
      zlen es = cap (header ctx) /\ Forall entry_ok es /\ abs <$> es = t' /\
      entry_ok e /\ abs e = Some x
  | NoSlot _ => True
  end.

Lemma idt_set_result_entries ctx es r c : set_result (set_entries ctx es) r c -> set_result ctx r c.
Proof. done. Qed.

Lemma idt_set_loop_sim key start r : 0 < key < 2 ^ 32 -> forall fuel ctx pos elem,
  shape ctx -> valid (cap (header ctx)) pos ->
  - 2 ^ 31 <= e_key elem < 2 ^ 31 -> e_key elem <> 0 ->
  0 <= e_distance elem -> e_distance elem + Z.of_nat fuel <= 2 ^ 31 ->
  g_insert (cap (header ctx)) fuel (abs <$> entries ctx) start key pos
    (u32 (e_key elem), e_value elem, e_distance elem) = Ret r ->
  set_result ctx r (set_loop fuel ctx key start pos elem).
Proof.
  intros Hkey. induction fuel as [|fuel IH]; intros ctx pos elem Hw Hp Hk Hk0 Hd Hdf; [done|].
  pose proof (idt_wf_cap _ Hw) as Hcap. pose proof (wf_len _ Hw) as Hlen.
  assert (Hv : valid (cap (header ctx)) (slot (cap (header ctx)) (pos + 1))) by (apply slot_valid; lia).
  assert (He : entry_ok elem) by (split; lia).
  assert (Ha : abs elem = Some (u32 (e_key elem), e_value elem, e_distance elem)).
  { unfold abs. by rewrite (proj2 (Z.eqb_neq _ _)). }
  cbn [set_loop g_insert]. destruct (idt_wf_rd ctx pos Hw Hp) as (curr & -> & -> & Hc).
  cbn [mbind outcome_mbind]. rewrite !wr_in by (rewrite Hlen; done). cbn [mbind outcome_mbind].
  destruct (e_key curr =? 0) eqn:Ek.
  { destruct (idt_abs_none curr Ek) as [-> _]. intros [= <-]. eexists. split; [done|]. split_and!.
    - by rewrite zlen_insert.
    - apply Forall_insert; [apply (wf_entries _ Hw)|done].
    - by rewrite list_fmap_insert, Ha. }
  destruct (idt_abs_some curr Hc Ek) as [-> Hne]. cbn [fst snd]. case_decide as Hm.
  { rewrite <- Hm, Z.eqb_refl. intros [= <-]. exists (entries ctx), elem.
    split_and!; try done. apply (wf_entries _ Hw). }
  rewrite (proj2 (Z.eqb_neq (u32 (e_key curr)) key)) by congruence.
  destruct (e_distance curr <? e_distance elem) eqn:Ed; cbn [mbind outcome_mbind fst snd]; zbool.
  - change (TABLE_INDEX (set_entries ctx ?es) ?x) with (TABLE_INDEX ctx x). rewrite idt_wf_step by done.
    destruct (_ =? start); [by intros [= <-]|]. cbn [negb].
    rewrite <- Ha, <- list_fmap_insert. intros Hg. apply (idt_set_result_entries ctx (<[Z.to_nat pos := elem]> (entries ctx))).
    destruct Hc as [Hc1 Hc2]. apply IH; simpl; try done; try lia.
    apply idt_shape_entries; [done|by rewrite zlen_insert|]. apply Forall_insert; [apply (wf_entries _ Hw)|done].
  - rewrite idt_wf_step by done. destruct (_ =? start); [by intros [= <-]|]. cbn [negb].
    intros Hg. apply IH; simpl; try done; lia.
Qed.

Lemma u32_i32 k : 0 <= k < 2 ^ 32 -> u32 (i32 k) = k /\ - 2 ^ 31 <= i32 k < 2 ^ 31.
Proof. intros Hk. unfold uw, sw. change (32 - 1) with 31. split; divmod_lia. Qed.

Lemma idt_map_size_bound (m : gmap Z Z) ctx : repr ctx m -> Z.of_nat (base.size m) <= cap (header ctx).
Proof.
  intros ([Hw _ Hs] & <- & _). rewrite Hs. pose proof (used_le (abs <$> entries ctx)) as H.
  rewrite idt_zlen_abs in H by done. lia.
Qed.

Definition same_table (a b : idtbl_ctx) : Prop :=
  cap (header b) = cap (header a) /\ rehash_limit (header b) = rehash_limit (header a) /\
  hashseed (header b) = hashseed (header a).

(** storing in a table that has room *)
Lemma idt_set_spec ctx m key v : repr ctx m -> 0 <= key < UINT32_MAX -> size (header ctx) < cap (header ctx) ->
  exists ctx', set_table_value ctx key v = Ret (ctx', IDTBL_OK) /\ repr ctx' (<[key := v]> m) /\
    same_table ctx ctx'.
Proof.
  intros ([Hw Hi Hs] & Hm & Hmap) Hk Hroom. pose proof (idt_wf_cap _ Hw) as Hcap. unfold UINT32_MAX in Hk.
  unfold set_table_value, UINT32_MAX.
  rewrite (proj2 (Z.eqb_neq _ _)), (proj2 (Z.leb_gt _ _)) by lia.
  rewrite (uw_small 32) by lia. cbv zeta. rewrite idt_wf_index, idt_length_cap by done.
  set (n := cap (header ctx)) in *. set (hm := home (hashseed (header ctx))) in *.
  change (hashfunc (key + 1) (hashseed (header ctx))) with (hm (key + 1)). destruct (u32_i32 (key + 1)) as [Hu Hr]; [lia|].
  assert (Hne : i32 (key + 1) <> 0) by (intros E; rewrite E in Hu; change (u32 0) with 0 in Hu; lia).
  assert (Hsim : forall r, g_insert n (Z.to_nat n) (abs <$> entries ctx) (slot n (hm (key + 1))) (key + 1)
      (slot n (hm (key + 1))) (key + 1, v, 0) = Ret r ->
    set_result ctx r (set_loop (Z.to_nat n) ctx (key + 1) (slot n (hm (key + 1)))
      (slot n (hm (key + 1))) (Entry 0 (i32 (key + 1)) v))).
  { intros r Hg. apply idt_set_loop_sim; simpl; try done; try lia; [apply slot_valid; lia|by rewrite Hu]. }
  destruct (m !! key) as [w|] eqn:Em.
  - apply Hmap in Em as Hhas. destruct Hhas as (p & d & Hp & Ep).
    pose proof (g_insert_old n ltac:(lia) hm (abs <$> entries ctx) (key + 1) v p w d
      (idt_zlen_abs _ Hw) Hi Hp Ep) as Hg.
    apply Hsim in Hg as (es & e & -> & Hl & Hf & Et & He & Ha).
    destruct (replace_table n ltac:(lia) hm (abs <$> es) p (key + 1) w v d) as (_ & Hi' & Hu' & Hh');
      [unfold zlen; rewrite length_fmap; exact Hl|by rewrite Et|done|by rewrite Et|].
    eexists. split; [done|]. split; [|done]. split; [split|split]; simpl; rewrite ?list_fmap_insert, ?Ha, ?Et in *.
    + apply idt_shape_entries; [done|by rewrite zlen_insert|by apply Forall_insert].
    + done.
    + by rewrite Hu'.
    + rewrite map_size_insert_Some by (by eexists). done.
    + intros k' w'. fold n. rewrite Hh', <- Hmap, lookup_insert_Some. intuition (lia || congruence).
  - destruct (g_insert_new n ltac:(lia) hm (abs <$> entries ctx) (key + 1) v)
      as (t' & Hg & Hl' & Hi' & Hu' & Hh'); [by apply idt_zlen_abs|done|lia| |].
    { intros w Hw'%Hmap. congruence. }
    apply Hsim in Hg as (es & -> & Hl & Hf & Et).
    eexists. split; [done|]. split; [|done]. split; [split|split]; simpl; rewrite ?Et in *.
    + by apply idt_shape_size.
    + done.
    + rewrite Hu', <- Hs. apply uw_small. lia.
    + rewrite map_size_insert_None by done. rewrite uw_small by lia. lia.
    + intros k' w'. fold n. rewrite Hh', <- Hmap, lookup_insert_Some.
      split; [intros [[-> ->]|[? ?]]|intros [?|[? ->]]]; auto.
      * destruct (decide (key = k')) as [->|]; [congruence|auto].
      * left. split; [lia|done].
Qed.

(** ** Growing *)

Lemma key_pred e v d k : entry_ok e -> abs e = Some (k, v, d) ->
  (e_key e =? 0) = false /\ u32 (e_key e - 1) = k - 1 /\ e_value e = v /\ 0 <= k - 1 < UINT32_MAX.
Proof.
  intros He Ha. destruct (e_key e =? 0) eqn:Ek; [by apply idt_abs_none in Ek as [? _]; congruence|].
  destruct (idt_abs_some e He Ek) as [Ha' Hne]. rewrite Ha in Ha'. simplify_eq.
  pose proof (uw_range 32 (e_key e) ltac:(lia)). unfold UINT32_MAX. split_and!; try done; try lia.
  unfold uw in *. destruct He. zbool. divmod_lia.
Qed.

(** the content to insert is a part of [m0], which the new table can hold *)
Lemma idt_reinsert_spec m0 : forall ents new m,
  Forall (fun e => entry_ok e /\ forall k v d, abs e = Some (k, v, d) -> m0 !! (k - 1) = Some v) ents ->
  repr new m -> m ⊆ m0 -> Z.of_nat (base.size m0) < cap (header new) ->
  exists new' m', reinsert ents new = Ret new' /\ repr new' m' /\ m ⊆ m' /\ m' ⊆ m0 /\
    same_table new new' /\
    Forall (fun e => forall k v d, abs e = Some (k, v, d) -> m' !! (k - 1) = Some v) ents.
Proof.
  induction ents as [|e ents IH]; intros new m Hents Hr Hsub Hcap.
  { exists new, m. by split_and!. }
  apply Forall_cons in Hents as [[He Hm0] Hents]. cbn [reinsert].
  destruct (abs e) as [[[k v] d]|] eqn:Ea.
  - destruct (key_pred e v d k He Ea) as (-> & -> & -> & Hk). cbn [negb].
    pose proof (Hm0 _ _ _ eq_refl) as Hkv. pose proof Hr as (_ & Hsz & _).
    pose proof (map_subseteq_size _ _ Hsub).
    destruct (idt_set_spec new m (k - 1) v Hr Hk) as (new1 & -> & Hr1 & Hs1); [lia|].
    cbn [mbind outcome_mbind].
    destruct (IH new1 (<[k - 1 := v]> m) Hents Hr1) as (new' & m' & E & Hr' & Hsub1 & Hsub2 & Hs2 & Hall).
    { apply map_subseteq_spec. intros j w [[<- <-]|[_ Hj]]%lookup_insert_Some; [done|].
      by eapply lookup_weaken. }
    { destruct Hs1 as (-> & _ & _). done. }
    exists new', m'. split_and!; try done.
    + etrans; [|exact Hsub1]. apply map_subseteq_spec. intros j w Hj. apply lookup_insert_Some.
      destruct (decide (k - 1 = j)) as [<-|]; [left|by right]. split; [done|].
      pose proof (lookup_weaken _ _ _ _ Hj Hsub). congruence.
    + destruct Hs1 as (E1 & E2 & E3), Hs2 as (E4 & E5 & E6). unfold same_table. split_and!; congruence.
    + apply Forall_cons. split; [|done]. intros k' v' d' Ea'. rewrite Ea in Ea'. simplify_eq.
      eapply lookup_weaken; [|exact Hsub1]. by rewrite lookup_insert_eq.
  - assert ((e_key e =? 0) = true) as ->.
    { unfold abs in Ea. by case_match. }
    cbn [negb]. destruct (IH new m Hents Hr Hsub Hcap) as (new' & m' & E & Hr' & H1 & H2 & H3 & Hall).
    exists new', m'. split_and!; try done. apply Forall_cons. split; [congruence|done].
Qed.

Lemma idt_abs_empties n : abs <$> replicate n empty_entry = replicate n None.
Proof. by rewrite fmap_replicate. Qed.

Lemma idt_init_table_spec alloc_ok lg nslots seed ctx : 0 <= lg <= 31 -> round_up_pow2 nslots = 2 ^ lg ->
  init_table alloc_ok nslots seed = Some ctx ->
  repr ctx ∅ /\ cap (header ctx) = 2 ^ lg /\ size (header ctx) = 0.
Proof.
  intros Hlg Hn. unfold init_table, init_header. rewrite Hn. destruct (2 ^ lg <? nslots); [done|].
  cbn [cap]. destruct (alloc_ok _); [|done]. intros [= <-]. simpl.
  pose proof (pow2_range lg _ Hlg eq_refl) as Hcap.
  split; [|done]. split; [split; simpl; [split; simpl|..]|split; simpl].
  - by exists lg.
  - apply uw_small. lia.
  - done.
  - rewrite zlen_replicate. lia.
  - apply Forall_replicate. split; simpl; lia.
  - rewrite idt_abs_empties. apply inv_empty. lia.
  - by rewrite idt_abs_empties, used_replicate.
  - done.
  - intros k v. rewrite lookup_empty, idt_abs_empties. split; [done|]. by intros ?%has_empty.
Qed.

Lemma idt_grow_spec alloc_ok ctx m : repr ctx m ->
  grow alloc_ok ctx = Ret (ctx, IDTBL_ENOMEM) \/
  exists ctx', grow alloc_ok ctx = Ret (ctx', IDTBL_OK) /\ repr ctx' m /\
    cap (header ctx') = 2 * cap (header ctx).
Proof.
  intros Hr. pose proof Hr as ([Hw Hi Hs] & Hm & Hmap). pose proof (idt_wf_cap _ Hw) as Hcap.
  pose proof (idt_map_size_bound m ctx Hr) as Hsz.
  unfold grow. rewrite Z.shiftl_mul_pow2 by lia. change (2 ^ 1) with 2.
  destruct (wf_lg _ Hw) as (lg & Hlg & Elg). destruct (Z.eq_dec lg 31) as [->|Hne].
  { left. rewrite Elg. reflexivity. }
  pose proof (Z.pow_le_mono_r 2 lg 30 ltac:(lia) ltac:(lia)).
  rewrite (uw_small 32) by lia. rewrite (proj2 (Z.ltb_ge _ _)) by lia. cbv zeta.
  destruct (init_table _ _ _) as [new|] eqn:Ei; [right|by left].
  assert (Ep : cap (header ctx) * 2 = 2 ^ (lg + 1)) by (rewrite Z.pow_add_r; lia).
  rewrite Ep in Ei. apply (idt_init_table_spec _ (lg + 1)) in Ei as (Hr0 & Hcn & Hsn);
    [|lia|apply idt_round_up_pow2_pow; lia].
  rewrite take_ge by (rewrite idt_length_cap by done; lia).
  destruct (idt_reinsert_spec m (entries ctx) new ∅) as (new' & m' & -> & Hr' & _ & Hsub & (Ecap & _) & Hall).
  - pose proof (wf_entries _ Hw) as Hf. rewrite Forall_lookup in Hf |- *. intros i e He.
    split; [by eapply Hf|]. intros k v d Ea. apply Hmap. pose proof (lookup_lt_Some _ _ _ He).
    exists (Z.of_nat i), d. split; [unfold valid; rewrite idt_length_cap in * by done; lia|].
    unfold view_of. rewrite Nat2Z.id, list_lookup_fmap, He. simpl. rewrite Ea. do 3 f_equal. lia.
  - done.
  - apply map_empty_subseteq.
  - lia.
  - cbn [mbind outcome_mbind]. exists new'. split; [done|]. split; [|lia].
    replace m with m'; [done|]. apply (anti_symm (⊆)); [done|]. apply map_subseteq_spec.
    intros k v (p & d & Hp & E)%Hmap. unfold view_of in E. rewrite list_lookup_fmap in E.
    destruct (entries ctx !! Z.to_nat p) as [e|] eqn:Ee; [|done]. simpl in E.
    rewrite Forall_lookup in Hall. specialize (Hall _ _ Ee _ _ _ E).
    by replace (k + 1 - 1) with k in Hall by lia.
Qed.

Lemma idt_rehash_limit_range ctx : shape ctx -> rehash_limit (header ctx) = cap (header ctx) - cap (header ctx) / 6 /\
  0 < rehash_limit (header ctx) <= cap (header ctx).
Proof.
  intros Hw. pose proof (idt_wf_cap _ Hw). rewrite (wf_limit _ Hw). unfold REHASH_LIMIT.
  rewrite uw_small by divmod_lia. split; [done|divmod_lia].
Qed.

Lemma idt_insert_spec alloc_ok ctx m key v : repr ctx m -> 0 <= key < UINT32_MAX ->
  (rehash_limit (header ctx) <= size (header ctx) /\ grow alloc_ok ctx = Ret (ctx, IDTBL_ENOMEM) /\
   idtbl_insert alloc_ok ctx key v = Ret (ctx, IDTBL_ENOMEM)) \/
  exists ctx', idtbl_insert alloc_ok ctx key v = Ret (ctx', IDTBL_OK) /\ repr ctx' (<[key := v]> m).
Proof.
  intros Hr Hk. pose proof Hr as ([Hw _ _] & Hm & _). pose proof (idt_rehash_limit_range ctx Hw) as [_ Hlim].
  pose proof (idt_wf_cap _ Hw) as Hcap. pose proof (idt_map_size_bound m ctx Hr).
  unfold idtbl_insert. destruct (Z.leb_spec (rehash_limit (header ctx)) (size (header ctx))).
  - destruct (idt_grow_spec alloc_ok ctx m Hr) as [E|(ctx1 & -> & Hr1 & Hc1)].
    { left. by rewrite E. }
    right. cbn [mbind outcome_mbind]. change (negb (IDTBL_OK =? IDTBL_OK)) with false. cbv iota.
    pose proof Hr1 as (_ & Hm1 & _).
    destruct (idt_set_spec ctx1 m key v Hr1 Hk) as (ctx' & E & Hr' & _); [lia|eauto].
  - right. cbn [mbind outcome_mbind]. change (negb (IDTBL_OK =? IDTBL_OK)) with false. cbv iota.
    destruct (idt_set_spec ctx m key v Hr Hk) as (ctx' & E & Hr' & _); [lia|eauto].
Qed.

Lemma grow_ok ctx m : repr ctx m -> cap (header ctx) < 2 ^ 31 ->
  grow (fun _ => true) ctx <> Ret (ctx, IDTBL_ENOMEM).
Proof.
  intros ([Hw _ _] & _) Hlt. pose proof (idt_wf_cap _ Hw) as Hcap. unfold grow.
  rewrite Z.shiftl_mul_pow2 by lia. change (2 ^ 1) with 2. rewrite uw_small by lia.
  rewrite (proj2 (Z.ltb_ge _ _)) by lia. cbv zeta. unfold init_table, init_header.
  destruct (wf_lg _ Hw) as (lg & Hlg & Elg).
  assert (lg < 31) by (apply (Z.pow_lt_mono_r_iff 2); lia).
  replace (cap (header ctx) * 2) with (2 ^ (lg + 1)) by (rewrite Z.pow_add_r; lia).
  rewrite idt_round_up_pow2_pow, Z.ltb_irrefl by lia.
  destruct (reinsert _ _); cbn [mbind outcome_mbind]; intros E; congruence || done.
Qed.

(** ** Runs *)

Inductive op : Type :=
  | Get (key : Z)
  | Contains (key : Z)
  | Insert (key value : Z)
  | Remove (key : Z).

Definition op_key (o : op) : Z :=
  match o with Get k | Contains k | Insert k _ | Remove k => k end.

(** one call: the table afterwards, the code returned and the value stored
    through the out parameter *)
Definition exec (alloc_ok : Z -> bool) (ctx : idtbl_ctx) (o : op) : outcome (idtbl_ctx * (Z * option Z)) :=
  match o with
  | Get key => r ← idtbl_get ctx key; Ret (ctx, r)
  | Contains key => r ← idtbl_contains ctx key; Ret (ctx, (r, None))
  | Insert key value => '(ctx, r) ← idtbl_insert alloc_ok ctx key value; Ret (ctx, (r, None))
  | Remove key => '(ctx, r) ← idtbl_remove ctx key; Ret (ctx, (r, None))
  end.

Fixpoint run (alloc_ok : Z -> bool) (ctx : idtbl_ctx) (os : list op) :
    outcome (idtbl_ctx * list (Z * option Z)) :=
  match os with
  | [] => Ret (ctx, [])
  | o :: os =>
      '(ctx, r) ← exec alloc_ok ctx o;
      '(ctx, rs) ← run alloc_ok ctx os;
      Ret (ctx, r :: rs)
  end.

(** what a call does to the map, and returns *)
Inductive spec : gmap Z Z -> op -> Z * option Z -> gmap Z Z -> Prop :=
  | spec_get m k v : m !! k = Some v -> spec m (Get k) (IDTBL_OK, Some v) m
  | spec_get_none m k : m !! k = None -> spec m (Get k) (IDTBL_ENOTFOUND, None) m
  | spec_contains m k v : m !! k = Some v -> spec m (Contains k) (1, None) m
  | spec_contains_none m k : m !! k = None -> spec m (Contains k) (0, None) m
  | spec_insert m k v : spec m (Insert k v) (IDTBL_OK, None) (<[k := v]> m)
  | spec_insert_fails m k v : spec m (Insert k v) (IDTBL_ENOMEM, None) m
  | spec_remove m k v : m !! k = Some v -> spec m (Remove k) (IDTBL_OK, None) (delete k m)
  | spec_remove_none m k : m !! k = None -> spec m (Remove k) (IDTBL_ENOTFOUND, None) m.

Inductive specs : gmap Z Z -> list op -> list (Z * option Z) -> gmap Z Z -> Prop :=
  | specs_nil m : specs m [] [] m
  | specs_cons m o r m' os rs m'' : spec m o r m' -> specs m' os rs m'' ->
      specs m (o :: os) (r :: rs) m''.

Lemma idt_exec_spec alloc_ok ctx m o : repr ctx m -> 0 <= op_key o < UINT32_MAX ->
  exists ctx' r m', exec alloc_ok ctx o = Ret (ctx', r) /\ spec m o r m' /\ repr ctx' m'.
Proof.
  intros Hr Hk. destruct o as [k|k|k v|k]; simpl in *.
  - destruct (idt_find_spec ctx m k Hr Hk) as (r & Hf & Hres). unfold idtbl_get. rewrite Hf.
    cbn [mbind outcome_mbind]. destruct r as [p|].
    + destruct Hres as (_ & e & v & -> & _ & Hv & Hm). cbn [mbind outcome_mbind]. rewrite Hv.
      eexists _, _, m. split_and!; [done|by constructor|done].
    + eexists _, _, m. split_and!; [done|by constructor|done].
  - destruct (idt_find_spec ctx m k Hr Hk) as (r & Hf & Hres). unfold idtbl_contains. rewrite Hf.
    cbn [mbind outcome_mbind]. destruct r as [p|].
    + destruct Hres as (_ & e & v & _ & _ & _ & Hm).
      eexists _, _, m. split_and!; [done|by econstructor|done].
    + eexists _, _, m. split_and!; [done|by constructor|done].
  - destruct (idt_insert_spec alloc_ok ctx m k v Hr Hk) as [(_ & _ & ->)|(ctx' & -> & Hr')];
      cbn [mbind outcome_mbind].
    + eexists _, _, m. split_and!; [done|constructor|done].
    + eexists _, _, _. split_and!; [done|constructor|done].
  - pose proof (idt_remove_spec ctx m k Hr Hk) as H. destruct (m !! k) as [v|] eqn:E.
    + destruct H as (ctx' & -> & Hr' & _). cbn [mbind outcome_mbind].
      eexists _, _, _. split_and!; [done|by econstructor|done].
    + rewrite H. cbn [mbind outcome_mbind]. eexists _, _, _. split_and!; [done|by constructor|done].
Qed.

Lemma idt_run_spec alloc_ok os : forall ctx m, repr ctx m -> Forall (fun o => 0 <= op_key o < UINT32_MAX) os ->
  exists ctx' rs m', run alloc_ok ctx os = Ret (ctx', rs) /\ specs m os rs m' /\ repr ctx' m'.
Proof.
  induction os as [|o os IH]; intros ctx m Hr Hos.
  - exists ctx, [], m. split_and!; [done|constructor|done].
  - apply Forall_cons in Hos as [Ho Hos]. cbn [run].
    destruct (idt_exec_spec alloc_ok ctx m o Hr Ho) as (ctx1 & r & m1 & -> & Hs & Hr1).
    destruct (IH ctx1 m1 Hr1 Hos) as (ctx2 & rs & m2 & E & Hs2 & Hr2). cbn [mbind outcome_mbind].
    rewrite E. cbn [mbind outcome_mbind]. eexists _, _, m2. split_and!; [done|by econstructor|done].
Qed.

(** a size above 2 ^ 31 does not round up *)
Lemma idt_init_table_zero alloc_ok nslots seed : round_up_pow2 nslots = 0 -> 0 < nslots -> init_table alloc_ok nslots seed = None.
Proof. intros E Hn. unfold init_table, init_header. rewrite E. cbv zeta. by rewrite (proj2 (Z.ltb_lt 0 nslots)). Qed.

Lemma idt_init_spec alloc_ok nslots seed ctx : 0 <= nslots < 2 ^ 32 ->
  idtbl_init alloc_ok nslots seed = (Some ctx, IDTBL_OK) -> repr ctx ∅.
Proof.
  intros Hn. unfold idtbl_init. set (n := if nslots =? 0 then 1 else nslots).
  assert (1 <= n < 2 ^ 32) as Hn1 by (subst n; destruct (Z.eqb_spec nslots 0); lia).
  destruct (Z.ltb_spec (REHASH_ROUND_UP n) n); [done|].
  destruct (init_table _ _ _) as [c|] eqn:Ei; [|done]. intros [= ->].
  assert (0 <= REHASH_ROUND_UP n < 2 ^ 32) by (apply (uw_range 32); lia).
  set (c := REHASH_ROUND_UP n) in *. clearbody c.
  destruct (idt_round_up_pow2_spec c) as (lg & Hlg & Hle & Er); [unfold UINT32_MAX; lia|].
  destruct (Z.eq_dec lg 32) as [->|].
  - rewrite idt_init_table_zero in Ei; [done|exact Er|lia].
  - pose proof (Z.pow_le_mono_r 2 lg 31 ltac:(lia) ltac:(lia)).
    rewrite (uw_small 32) in Er by lia. apply (idt_init_table_spec alloc_ok lg c seed); [lia|done|done].
Qed.

(** ** Properties *)

(** C21: from a freshly initialized table, any sequence of gets, lookups,
    insertions and removals with keys below [UINT32_MAX] runs without leaving
    the table's memory and in the fuel of one turn per slot, and returns what a
    finite map returns; the table then represents the map, and its [size] is
    the number of its keys.  An insertion may instead return [IDTBL_ENOMEM]
    and change nothing. *)
Theorem idtbl_refines alloc_ok nslots seed ctx os :
  0 <= nslots < 2 ^ 32 -> idtbl_init alloc_ok nslots seed = (Some ctx, IDTBL_OK) ->
  Forall (fun o => 0 <= op_key o < UINT32_MAX) os ->
  exists ctx' rs m, run alloc_ok ctx os = Ret (ctx', rs) /\ specs ∅ os rs m /\ repr ctx' m /\
    size (header ctx') = Z.of_nat (base.size m).
Proof.
  intros Hn Hi Hos. apply idt_init_spec in Hi as Hr; [|done].
  destruct (idt_run_spec alloc_ok os ctx ∅ Hr Hos) as (ctx' & rs & m & E & Hs & Hr').
  exists ctx', rs, m. split_and!; try done. by destruct Hr' as (_ & ? & _).
Qed.

Definition demo_ops : list op :=
  [Insert 5 50; Insert 21 210; Insert 5 51; Contains 7; Get 5; Remove 5; Get 5; Get 21].

Lemma idtbl_refines_witness : exists ctx, idtbl_init (fun _ => true) 4 7 = (Some ctx, IDTBL_OK) /\
  exists ctx' rs m, run (fun _ => true) ctx demo_ops = Ret (ctx', rs) /\ specs ∅ demo_ops rs m /\
    repr ctx' m /\ size (header ctx') = Z.of_nat (base.size m).
Proof.
  eexists. split; [reflexivity|].
  refine (idtbl_refines (fun _ => true) 4 7 _ demo_ops _ eq_refl _); [lia|].
  unfold demo_ops, UINT32_MAX. repeat constructor; simpl; lia.
Defined.

(** An insertion can fail only for want of memory: if the allocator
    succeeds and the table has less than 2^30 entries, it returns
    [IDTBL_OK] and the key is mapped to the value. *)
Theorem idtbl_insert_succeeds ctx m key v :
  repr ctx m -> 0 <= key < UINT32_MAX -> Z.of_nat (base.size m) < 2 ^ 30 ->
  exists ctx', idtbl_insert (fun _ => true) ctx key v = Ret (ctx', IDTBL_OK) /\ repr ctx' (<[key := v]> m).
Proof.
  intros Hr Hk Hsz. destruct (idt_insert_spec (fun _ => true) ctx m key v Hr Hk) as [(Hle & Hg & _)|?]; [|done].
  exfalso. pose proof Hr as ([Hw _ _] & Hm & _). pose proof (idt_wf_cap _ Hw).
  pose proof (idt_rehash_limit_range ctx Hw) as [Hlim _].
  destruct (Z_lt_le_dec (cap (header ctx)) (2 ^ 31)).
  - by eapply grow_ok.
  - assert (cap (header ctx) = 2 ^ 31) as E by lia. rewrite E in Hlim.
    change (2 ^ 31 - 2 ^ 31 / 6) with 1789569707 in Hlim. lia.
Qed.

Definition demo_ctx : idtbl_ctx :=
  Eval vm_compute in match idtbl_init (fun _ => true) 1 7 with (Some c, _) => c | _ => Ctx (Header 0 0 0 0 0) [] end.

Lemma idtbl_insert_succeeds_witness : repr demo_ctx ∅ /\
  exists ctx', idtbl_insert (fun _ => true) demo_ctx 3 9 = Ret (ctx', IDTBL_OK) /\ repr ctx' (<[3 := 9]> ∅).
Proof.
  assert (H : repr demo_ctx ∅) by (apply (idt_init_spec (fun _ => true) 1 7); [lia|reflexivity]).
  split; [exact H|].
  refine (idtbl_insert_succeeds demo_ctx ∅ 3 9 H _ _); [unfold UINT32_MAX; lia|rewrite map_size_empty; lia].
Defined.

(** The key [UINT32_MAX], which insertion refuses, is not refused by the
    lookups: in a fresh table it is found, and removing it makes the table's
    size wrap around. *)
Theorem idtbl_uint32_max : forall v,
  idtbl_insert (fun _ => true) demo_ctx UINT32_MAX v = Ret (demo_ctx, IDTBL_EINVAL) /\
  idtbl_contains demo_ctx UINT32_MAX = Ret 1 /\
  exists ctx', idtbl_remove demo_ctx UINT32_MAX = Ret (ctx', IDTBL_OK) /\ size (header ctx') = UINT32_MAX.
Proof. intros v. split_and!; [reflexivity..|]. eexists. split; reflexivity. Qed.
