(* ===== verification/Objtbl.v ===== *)
(** * Object tables (src/lib/util/objtbl.c)

    A map from keys to objects, where an object carries its key: the caller
    gives a hash function and a comparison.  Robin Hood hashing as in
    idtbl.c, with the hash cached in the entry; a hash of zero marks an empty
    slot.  The theorems show, for a comparison that decides equality of keys
    and a hash that depends on the key alone, that the table refines a finite
    map, and that the iteration visits every object once. *)

From stdpp Require Import gmap.
From S2P Require Import Prelude RobinHood.

Definition OBJTBL_OK : Z := 0.
Definition OBJTBL_ENOTFOUND : Z := -1.
Definition OBJTBL_EFULL : Z := -2.
Definition OBJTBL_EINVAL : Z := -3.
Definition OBJTBL_ENOSLOT : Z := -4.
Definition OBJTBL_ENOMEM : Z := -5.

(** [value] is a pointer, [NULL] is 0 *)
Record objtbl_entry : Type := Entry {
  e_hash : Z;
  e_distance : Z;
  e_value : Z;
}.

Record objtbl_opts : Type := Opts {
  hashseed : Z;
  hashfunc : Z -> Z -> Z;
  cmpfunc : Z -> Z -> Z;
}.

Record objtbl_header : Type := Header {
  cap : Z;
  size : Z;
  modmask : Z;
  rehash_limit : Z;
  opts : objtbl_opts;
}.

Record objtbl_ctx : Type := Ctx {
  header : objtbl_header;
  entries : list objtbl_entry;
}.

Definition empty_entry : objtbl_entry := Entry 0 0 0.

Definition OBJTBL_SIZE (cap_ : Z) : Z := u64 (cap_ * 16).
Definition TABLE_INDEX (tbl : objtbl_ctx) (val : Z) : Z := Z.land val (modmask (header tbl)).
Definition FNV1A_OFFSET : Z := 0x811c9dc5.
Definition FNV1A_PRIME : Z := 0x1000193.
Definition REHASH_ROUND_UP (val : Z) : Z := u32 (val + val / 6).
Definition REHASH_LIMIT (val : Z) : Z := u32 (val - val / 6).
Definition ENTRY_IS_EMPTY (e : objtbl_entry) : bool := e_hash e =? 0.

Definition round_up_pow2 (v : Z) : Z :=
  let v := u32 (v - 1) in
  let v := Z.lor v (Z.shiftr v 1) in
  let v := Z.lor v (Z.shiftr v 2) in
  let v := Z.lor v (Z.shiftr v 4) in
  let v := Z.lor v (Z.shiftr v 8) in
  let v := Z.lor v (Z.shiftr v 16) in
  u32 (v + 1).

(** the options are set by [init_table], after the header's other fields *)
Definition init_header (nslots : Z) (o : objtbl_opts) : option objtbl_header :=
  let cap := round_up_pow2 nslots in
  if cap <? nslots then None
  else Some (Header cap 0 (u32 (cap - 1)) (REHASH_LIMIT cap) o).

(** [alloc_ok n] tells whether [malloc] or [calloc] of [n] bytes succeeds *)
Definition init_table (alloc_ok : Z -> bool) (o : objtbl_opts) (nslots : Z) : option objtbl_ctx :=
  match init_header nslots o with
  | None => None
  | Some hdr =>
      if alloc_ok (OBJTBL_SIZE (cap hdr))
      then Some (Ctx hdr (replicate (Z.to_nat (cap hdr)) empty_entry))
      else None
  end.

Definition copy_table (alloc_ok : Z -> bool) (src : objtbl_ctx) : option objtbl_ctx :=
  if alloc_ok (OBJTBL_SIZE (cap (header src)))
  then Some (Ctx (header src) (take (Z.to_nat (cap (header src))) (entries src)))
  else None.

Definition calchash (tbl : objtbl_ctx) (keyobj : Z) : Z :=
  let o := opts (header tbl) in
  let h := hashfunc o keyobj (hashseed o) in
  if h =? 0 then u32 (h + 1) else h.

Fixpoint find_loop (fuel : nat) (tbl : objtbl_ctx) (keyobj start_pos current_pos distance : Z) :
    outcome (option Z) :=
  match fuel with
  | O => OutOfFuel
  | S fuel =>
      elem ← rd (entries tbl) current_pos;
      if ENTRY_IS_EMPTY elem || (u32 (e_distance elem) <? distance) then Ret None
      else if cmpfunc (opts (header tbl)) keyobj (e_value elem) =? 0 then Ret (Some current_pos)
      else
        let current_pos := TABLE_INDEX tbl (u32 (current_pos + 1)) in
        let distance := u32 (distance + 1) in
        if negb (current_pos =? start_pos)
        then find_loop fuel tbl keyobj start_pos current_pos distance
        else Ret None
  end.

(** the index of the entry, if any *)
Definition find_table_entry (tbl : objtbl_ctx) (keyobj : Z) : outcome (option Z) :=
  if keyobj =? 0 then Ret None
  else
    let keyhash := calchash tbl keyobj in
    let start_pos := TABLE_INDEX tbl keyhash in
    find_loop (length (entries tbl)) tbl keyobj start_pos start_pos 0.

Definition objtbl_get (tbl : objtbl_ctx) (keyobj : Z) : outcome (Z * option Z) :=
  ent ← find_table_entry tbl keyobj;
  match ent with
  | None => Ret (OBJTBL_ENOTFOUND, None)
  | Some i => e ← rd (entries tbl) i; Ret (OBJTBL_OK, Some (e_value e))
  end.

Definition objtbl_contains (tbl : objtbl_ctx) (keyobj : Z) : outcome Z :=
  ent ← find_table_entry tbl keyobj;
  Ret (match ent with None => 0 | Some _ => 1 end).

Definition set_entries (tbl : objtbl_ctx) (es : list objtbl_entry) : objtbl_ctx := Ctx (header tbl) es.
Definition set_size (tbl : objtbl_ctx) (n : Z) : objtbl_ctx :=
  let h := header tbl in
  Ctx (Header (cap h) n (modmask h) (rehash_limit h) (opts h)) (entries tbl).

Fixpoint shift_loop (fuel : nat) (tbl : objtbl_ctx) (curr next : Z) : outcome (objtbl_ctx * Z) :=
  match fuel with
  | O => OutOfFuel
  | S fuel =>
      e ← rd (entries tbl) next;
      if negb (ENTRY_IS_EMPTY e) && (0 <? e_distance e) then
        es ← wr (entries tbl) curr (Entry (e_hash e) (e_distance e - 1) (e_value e));
        shift_loop fuel (set_entries tbl es) (TABLE_INDEX tbl (u32 (curr + 1)))
          (TABLE_INDEX tbl (u32 (next + 1)))
      else Ret (tbl, curr)
  end.

Definition objtbl_remove (tbl : objtbl_ctx) (keyobj : Z) : outcome (objtbl_ctx * Z) :=
  ent ← find_table_entry tbl keyobj;
  match ent with
  | None => Ret (tbl, OBJTBL_ENOTFOUND)
  | Some curr =>
      let next := TABLE_INDEX tbl (u32 (curr + 1)) in
      '(tbl, curr) ← shift_loop (length (entries tbl)) tbl curr next;
      es ← wr (entries tbl) curr empty_entry;
      Ret (set_size (set_entries tbl es) (u32 (size (header tbl) - 1)), OBJTBL_OK)
  end.

Fixpoint set_loop (fuel : nat) (tbl : objtbl_ctx) (obj start_pos current_pos : Z) (elem : objtbl_entry) :
    outcome (objtbl_ctx * Z) :=
  match fuel with
  | O => OutOfFuel
  | S fuel =>
      curr ← rd (entries tbl) current_pos;
      if ENTRY_IS_EMPTY curr then
        es ← wr (entries tbl) current_pos elem;
        Ret (set_size (set_entries tbl es) (u32 (size (header tbl) + 1)), OBJTBL_OK)
      else if cmpfunc (opts (header tbl)) obj (e_value curr) =? 0 then
        es ← wr (entries tbl) current_pos elem;
        Ret (set_entries tbl es, OBJTBL_OK)
      else
        '(tbl, elem) ←
          (if e_distance curr <? e_distance elem
           then es ← wr (entries tbl) current_pos elem; Ret (set_entries tbl es, curr)
           else Ret (tbl, elem));
        let elem := Entry (e_hash elem) (e_distance elem + 1) (e_value elem) in
        let current_pos := TABLE_INDEX tbl (u32 (current_pos + 1)) in
        if negb (current_pos =? start_pos)
        then set_loop fuel tbl obj start_pos current_pos elem
        else Ret (tbl, OBJTBL_ENOSLOT)
  end.

Definition set_table_value (tbl : objtbl_ctx) (obj : Z) : outcome (objtbl_ctx * Z) :=
  if obj =? 0 then Ret (tbl, OBJTBL_EINVAL)
  else if cap (header tbl) <=? size (header tbl) then Ret (tbl, OBJTBL_EFULL)
  else
    let hash := calchash tbl obj in
    let start_pos := TABLE_INDEX tbl hash in
    set_loop (length (entries tbl)) tbl obj start_pos start_pos (Entry hash 0 obj).

(** the loop of [grow] over the entries of the old table; the results of
    [set_table_value] are ignored *)
Fixpoint reinsert (ents : list objtbl_entry) (new_tbl : objtbl_ctx) : outcome objtbl_ctx :=
  match ents with
  | [] => Ret new_tbl
  | ent :: ents =>
      if negb (ENTRY_IS_EMPTY ent) then
        '(new_tbl, _) ← set_table_value new_tbl (e_value ent);
        reinsert ents new_tbl
      else reinsert ents new_tbl
  end.

Definition grow (alloc_ok : Z -> bool) (tbl : objtbl_ctx) : outcome (objtbl_ctx * Z) :=
  let new_cap := u32 (Z.shiftl (cap (header tbl)) 1) in
  if new_cap <? cap (header tbl) then Ret (tbl, OBJTBL_ENOMEM)
  else
    match init_table alloc_ok (opts (header tbl)) new_cap with
    | None => Ret (tbl, OBJTBL_ENOMEM)
    | Some new_tbl =>
        new_tbl ← reinsert (take (Z.to_nat (cap (header tbl))) (entries tbl)) new_tbl;
        Ret (new_tbl, OBJTBL_OK)
    end.

Definition objtbl_init (alloc_ok : Z -> bool) (o : objtbl_opts) (nslots : Z) : option objtbl_ctx * Z :=
  let nslots := if nslots =? 0 then 1 else nslots in
  let cap := REHASH_ROUND_UP nslots in
  if cap <? nslots then (None, OBJTBL_ENOMEM)
  else
    match init_table alloc_ok o cap with
    | None => (None, OBJTBL_ENOMEM)
    | Some tbl => (Some tbl, OBJTBL_OK)
    end.

Definition objtbl_insert (alloc_ok : Z -> bool) (tbl : objtbl_ctx) (obj : Z) :
    outcome (objtbl_ctx * Z) :=
  '(tbl, ret) ←
    (if rehash_limit (header tbl) <=? size (header tbl) then grow alloc_ok tbl
     else Ret (tbl, OBJTBL_OK));
  if negb (ret =? OBJTBL_OK) then Ret (tbl, ret)
  else set_table_value tbl obj.

Definition objtbl_copy (alloc_ok : Z -> bool) (src : objtbl_ctx) : option objtbl_ctx * Z :=
  match copy_table alloc_ok src with
  | None => (None, OBJTBL_ENOMEM)
  | Some dst => (Some dst, OBJTBL_OK)
  end.

(** the callback works on the state [data] points to and returns an [int] *)
Fixpoint foreach_loop {S : Type} (ents : list objtbl_entry) (nseen size : Z) (func : S -> Z -> S * Z)
    (data : S) : S * Z :=
  match ents with
  | [] => (data, 0)
  | e :: ents =>
      if negb (nseen <? size) then (data, 0)
      else if ENTRY_IS_EMPTY e then foreach_loop ents nseen size func data
      else
        let '(data, ret) := func data (e_value e) in
        if negb (ret =? 1) then (data, ret)
        else foreach_loop ents (u32 (nseen + 1)) size func data
  end.

Definition objtbl_foreach {S : Type} (ctx : objtbl_ctx) (func : S -> Z -> S * Z) (data : S) : S * Z :=
  foreach_loop (take (Z.to_nat (cap (header ctx))) (entries ctx)) 0 (size (header ctx)) func data.

Definition objtbl_strerror (code : Z) : string :=
  if code =? OBJTBL_OK then "success"
  else if code =? OBJTBL_ENOTFOUND then "element not found"
  else if code =? OBJTBL_EFULL then "table full"
  else if code =? OBJTBL_EINVAL then "invalid argument"
  else if code =? OBJTBL_ENOSLOT then "no slot available"
  else if code =? OBJTBL_ENOMEM then "out of memory"
  else "unknown error".

(** *** Hash and comparison of strings *)

Fixpoint hash_seed (i : nat) (seed hash : Z) : Z :=
  match i with
  | O => hash
  | S i => hash_seed i (Z.shiftr seed 8) (u32 (Z.lxor hash (Z.land seed 0xff) * FNV1A_PRIME))
  end.

Definition hash_data (data : bytes) (hash : Z) : Z :=
  foldl (fun hash c => u32 (Z.lxor hash c * FNV1A_PRIME)) hash data.

(** [None] is a null pointer *)
Definition objtbl_strhash (obj : option bytes) (seed : Z) : Z :=
  match obj with
  | None => seed
  | Some data => hash_data data (hash_seed 4 seed FNV1A_OFFSET)
  end.

(** [strcmp] of the C library on strings of unsigned characters: the sign
    of the first difference *)
Fixpoint strcmp (a b : bytes) : Z :=
  match a, b with
  | [], [] => 0
  | [], _ => -1
  | _, [] => 1
  | x :: a, y :: b => if x <? y then -1 else if y <? x then 1 else strcmp a b
  end.

Definition objtbl_strcmp (k e : option bytes) : Z :=
  match k, e with
  | None, None => 0
  | None, Some _ => 1
  | Some _, None => -1
  | Some k, Some e => strcmp k e
  end.

(** *** Sequences of calls *)

Inductive op : Type :=
  | Get (keyobj : Z)
  | Contains (keyobj : Z)
  | Insert (obj : Z)
  | Remove (keyobj : Z).

(** one call: the table afterwards, the code returned and the value stored
    through the out parameter *)
Definition exec (alloc_ok : Z -> bool) (tbl : objtbl_ctx) (x : op) : outcome (objtbl_ctx * (Z * option Z)) :=
  match x with
  | Get a => r ← objtbl_get tbl a; Ret (tbl, r)
  | Contains a => r ← objtbl_contains tbl a; Ret (tbl, (r, None))
  | Insert v => '(tbl, r) ← objtbl_insert alloc_ok tbl v; Ret (tbl, (r, None))
  | Remove a => '(tbl, r) ← objtbl_remove tbl a; Ret (tbl, (r, None))
  end.

Fixpoint run (alloc_ok : Z -> bool) (tbl : objtbl_ctx) (os : list op) :
    outcome (objtbl_ctx * list (Z * option Z)) :=
  match os with
  | [] => Ret (tbl, [])
  | x :: os =>
      '(tbl, r) ← exec alloc_ok tbl x;
      '(tbl, rs) ← run alloc_ok tbl os;
      Ret (tbl, r :: rs)
  end.

(** ** Keys

    What a table needs of the caller's functions: objects have a key, the
    comparison decides whether two objects have the same one, and the hash
    of an object is a function of its key. *)

Class ObjKeys (K : Type) (o : objtbl_opts) : Type := {
  key_of : Z -> K;
  key_hash : K -> Z;
  cmp_key : forall a b, a <> 0 -> b <> 0 -> cmpfunc o a b = 0 <-> key_of a = key_of b;
  hash_key : forall a, a <> 0 -> hashfunc o a (hashseed o) = key_hash (key_of a);
  hash_range : forall k, 0 <= key_hash k < 2 ^ 32;
}.

Section Table.
Context `{Countable K} (o : objtbl_opts) `{!ObjKeys K o}.

(** ** The table as a Robin Hood table *)

Definition home (k : K) : Z := if key_hash k =? 0 then 1 else key_hash k.

Definition abs (e : objtbl_entry) : option (K * Z * Z) :=
  if ENTRY_IS_EMPTY e then None else Some (key_of (e_value e), e_value e, e_distance e).

Definition entry_ok (e : objtbl_entry) : Prop :=
  0 <= e_distance e < 2 ^ 31 /\ (e_hash e <> 0 -> e_value e <> 0).

(** what holds of a table also inside the loops *)
Record shape (tbl : objtbl_ctx) : Prop := Shape {
  wf_opts : opts (header tbl) = o;
  wf_lg : exists lg, 0 <= lg <= 31 /\ cap (header tbl) = 2 ^ lg;
  wf_mask : modmask (header tbl) = cap (header tbl) - 1;
  wf_limit : rehash_limit (header tbl) = REHASH_LIMIT (cap (header tbl));
  wf_len : zlen (entries tbl) = cap (header tbl);
  wf_entries : Forall entry_ok (entries tbl);
}.

Record wf (tbl : objtbl_ctx) : Prop := Wf {
  wf_shape : shape tbl;
  wf_inv : inv (cap (header tbl)) home (view_of (abs <$> entries tbl));
  wf_size : size (header tbl) = used (abs <$> entries tbl);
}.

(** [m] is the content of the table *)
Definition repr (tbl : objtbl_ctx) (m : gmap K Z) : Prop :=
  wf tbl /\ size (header tbl) = Z.of_nat (base.size m) /\
  forall k v, m !! k = Some v <-> has (cap (header tbl)) (view_of (abs <$> entries tbl)) k v.

Lemma obt_round_up_pow2_eq v : round_up_pow2 v = pow2_up v.
Proof. unfold round_up_pow2, pow2_up. reflexivity. Qed.

Lemma obt_round_up_pow2_spec v : 1 <= v <= UINT32_MAX ->
  exists lg, 0 <= lg <= 32 /\ v <= 2 ^ lg < 2 * v /\ round_up_pow2 v = u32 (2 ^ lg).
Proof. intros Hv. rewrite obt_round_up_pow2_eq. by apply pow2_up_spec. Qed.

Lemma obt_round_up_pow2_pow lg : 0 <= lg <= 31 -> round_up_pow2 (2 ^ lg) = 2 ^ lg.
Proof. intros Hlg. rewrite obt_round_up_pow2_eq. by apply pow2_up_pow. Qed.

Lemma obt_wf_cap tbl : shape tbl -> 0 < cap (header tbl) <= 2 ^ 31.
Proof. intros [_ (lg & Hlg & E) _ _ _ _]. by eapply pow2_range. Qed.

Lemma obt_wf_index tbl x : shape tbl -> TABLE_INDEX tbl x = slot (cap (header tbl)) x.
Proof.
  intros [_ (lg & Hlg & E) Hm _ _ _]. unfold TABLE_INDEX, slot. rewrite E in *. apply land_pow2; lia.
Qed.

Lemma calchash_home tbl obj : shape tbl -> obj <> 0 -> calchash tbl obj = home (key_of obj).
Proof.
  intros Hw Ho. unfold calchash, home. rewrite (wf_opts _ Hw). cbv zeta. rewrite hash_key by done.
  destruct (Z.eqb_spec (key_hash (key_of obj)) 0) as [->|]; done.
Qed.

Lemma home_pos k : 0 < home k < 2 ^ 32.
Proof. unfold home. pose proof (hash_range k). destruct (Z.eqb_spec (key_hash k) 0); lia. Qed.

(** ** The loops are the loops of a Robin Hood table *)

Lemma obt_rd_abs es p e : rd es p = Ret e -> rd (abs <$> es) p = Ret (abs e).
Proof. intros [Hp E]%rd_ret. apply rd_ret. split; [done|]. by rewrite list_lookup_fmap, E. Qed.

Lemma obt_abs_some e : entry_ok e -> ENTRY_IS_EMPTY e = false ->
  abs e = Some (key_of (e_value e), e_value e, e_distance e) /\ e_value e <> 0.
Proof. unfold abs. intros [_ Hv] E. rewrite E. split; [done|]. apply Hv. by apply Z.eqb_neq. Qed.

Lemma obt_abs_none e : ENTRY_IS_EMPTY e = true -> abs e = None.
Proof. unfold abs. by intros ->. Qed.

Lemma obt_wf_rd tbl p : shape tbl -> valid (cap (header tbl)) p ->
  exists e, rd (entries tbl) p = Ret e /\ rd (abs <$> entries tbl) p = Ret (abs e) /\ entry_ok e.
Proof.
  intros Hw Hp. destruct (rd_in (entries tbl) p) as (e & E & Hl).
  { rewrite (wf_len _ Hw). done. }
  exists e. split_and!; [done|by apply obt_rd_abs|]. pose proof (wf_entries _ Hw) as Hf.
  rewrite Forall_lookup in Hf. by eapply Hf.
Qed.

Lemma obt_wf_step tbl p : shape tbl -> valid (cap (header tbl)) p ->
  TABLE_INDEX tbl (u32 (p + 1)) = slot (cap (header tbl)) (p + 1).
Proof.
  intros Hw Hp. rewrite obt_wf_index by done. pose proof (obt_wf_cap _ Hw). unfold valid in Hp.
  by rewrite uw_small by lia.
Qed.

Lemma obt_length_cap tbl : shape tbl -> length (entries tbl) = Z.to_nat (cap (header tbl)).
Proof. intros Hw. pose proof (wf_len _ Hw). unfold zlen in *. lia. Qed.

Lemma obt_zlen_abs tbl : shape tbl -> zlen (abs <$> entries tbl) = cap (header tbl).
Proof. intros Hw. unfold zlen. rewrite length_fmap. apply (wf_len _ Hw). Qed.

Lemma cmp_dec tbl a b : shape tbl -> a <> 0 -> b <> 0 ->
  (cmpfunc (opts (header tbl)) a b =? 0) = bool_decide (key_of a = key_of b).
Proof.
  intros Hw Ha Hb. rewrite (wf_opts _ Hw). pose proof (cmp_key a b Ha Hb) as Hc.
  case_bool_decide; [apply Z.eqb_eq|apply Z.eqb_neq]; tauto.
Qed.

Lemma obt_find_loop_sim tbl obj start : shape tbl -> obj <> 0 -> forall fuel pos dist,
  valid (cap (header tbl)) pos -> 0 <= dist -> dist + Z.of_nat fuel < 2 ^ 32 ->
  find_loop fuel tbl obj start pos dist =
  g_find (cap (header tbl)) true fuel (abs <$> entries tbl) start (key_of obj) pos dist.
Proof.
  intros Hw Hobj. pose proof (obt_wf_cap _ Hw) as Hcap.
  induction fuel as [|fuel IH]; intros pos dist Hp Hd Hf; [done|].
  cbn [find_loop g_find]. destruct (obt_wf_rd tbl pos Hw Hp) as (e & -> & -> & He).
  cbn [mbind outcome_mbind]. destruct (ENTRY_IS_EMPTY e) eqn:Ek.
  - by rewrite (obt_abs_none e Ek).
  - destruct (obt_abs_some e He Ek) as [-> Hne]. rewrite andb_true_l. cbn [orb].
    rewrite (uw_small 32 (e_distance e)) by (destruct He; lia).
    destruct (e_distance e <? dist) eqn:Ed; [done|].
    rewrite cmp_dec, obt_wf_step, (uw_small 32 (dist + 1)) by (done || lia).
    case_bool_decide; [by rewrite decide_True|]. rewrite decide_False by done. cbv zeta.
    destruct (slot (cap (header tbl)) (pos + 1) =? start); [done|].
    apply IH; [|lia|lia]. apply slot_valid. lia.
Qed.

(** what a search returns *)
Lemma obt_find_spec tbl m obj : repr tbl m -> obj <> 0 ->
  exists r, find_table_entry tbl obj = Ret r /\
  match r with
  | Some i => valid (cap (header tbl)) i /\ exists e v, rd (entries tbl) i = Ret e /\
      abs e = Some (key_of obj, v, e_distance e) /\ e_value e = v /\ m !! key_of obj = Some v
  | None => m !! key_of obj = None
  end.
Proof.
  intros ([Hw Hinv _] & _ & Hm) Hk. pose proof (obt_wf_cap _ Hw) as Hcap.
  unfold find_table_entry. rewrite (proj2 (Z.eqb_neq _ _)) by done. cbv zeta.
  rewrite obt_wf_index, calchash_home by done.
  rewrite (obt_find_loop_sim tbl obj); [|done|done|apply slot_valid; lia|done|].
  2: { pose proof (wf_len _ Hw). unfold zlen in *. lia. }
  rewrite obt_length_cap by done.
  destruct (g_find_spec (cap (header tbl)) ltac:(lia) home true
    (abs <$> entries tbl) (key_of obj)) as (r & Hr & Hres).
  { by apply obt_zlen_abs. }
  { apply Hinv. }
  exists r. split; [done|]. destruct r as [p|]; simpl in Hres.
  - destruct Hres as (Hp & v & d & E). split; [done|].
    destruct (obt_wf_rd tbl p Hw Hp) as (e & Er & Ea & He).
    assert (abs e = Some (key_of obj, v, d)) as Eabs.
    { apply rd_ret in Ea as [_ Ea]. unfold view_of in E. rewrite Ea in E. done. }
    exists e, v. assert (e_value e = v /\ e_distance e = d) as [<- <-].
    { unfold abs in Eabs. case_match; by simplify_eq. }
    split_and!; try done. apply Hm. by exists p, (e_distance e).
  - apply eq_None_not_Some. intros [v Hv]. apply Hm in Hv. by eapply Hres.
Qed.

Lemma obt_shape_entries tbl es : shape tbl -> zlen es = cap (header tbl) -> Forall entry_ok es ->
  shape (set_entries tbl es).
Proof. by intros [H0 H1 H2 H3 _ _] Hl He. Qed.

Lemma obt_shape_size tbl es n : shape tbl -> zlen es = cap (header tbl) -> Forall entry_ok es ->
  shape (set_size (set_entries tbl es) n).
Proof. by intros [H0 H1 H2 H3 _ _] Hl He. Qed.

(** ** Removal *)

Lemma obt_shift_loop_sim t' : forall fuel tbl curr, shape tbl -> valid (cap (header tbl)) curr ->
  g_shift (cap (header tbl)) fuel (abs <$> entries tbl) curr = Ret t' ->
  exists es c, shift_loop fuel tbl curr (slot (cap (header tbl)) (curr + 1)) = Ret (set_entries tbl es, c) /\
    valid (cap (header tbl)) c /\ zlen es = cap (header tbl) /\ Forall entry_ok es /\
    abs <$> <[Z.to_nat c := empty_entry]> es = t'.
Proof.
  induction fuel as [|fuel IH]; intros tbl curr Hw Hp; [done|].
  pose proof (obt_wf_cap _ Hw) as Hcap. pose proof (wf_len _ Hw) as Hlen.
  assert (Hv : valid (cap (header tbl)) (slot (cap (header tbl)) (curr + 1))) by (apply slot_valid; lia).
  cbn [shift_loop g_shift]. destruct (obt_wf_rd tbl _ Hw Hv) as (e & -> & -> & He).
  cbn [mbind outcome_mbind].
  assert (Hdone : Ret (<[Z.to_nat curr := None]> (abs <$> entries tbl)) = Ret t' ->
    exists es c, Ret (tbl, curr) = Ret (set_entries tbl es, c) /\ valid (cap (header tbl)) c /\
      zlen es = cap (header tbl) /\ Forall entry_ok es /\ abs <$> <[Z.to_nat c := empty_entry]> es = t').
  { intros [= <-]. exists (entries tbl), curr. split_and!; try done.
    - by destruct tbl.
    - apply (wf_entries _ Hw).
    - by rewrite list_fmap_insert. }
  destruct (ENTRY_IS_EMPTY e) eqn:Ek.
  { rewrite (obt_abs_none e Ek). apply Hdone. }
  destruct (obt_abs_some e He Ek) as [-> Hne]. cbn [negb andb].
  destruct (0 <? e_distance e) eqn:Ed; [zbool|apply Hdone].
  rewrite wr_in by (rewrite Hlen; done). cbn [mbind outcome_mbind]. intros Hs.
  set (e' := Entry (e_hash e) (e_distance e - 1) (e_value e)) in *.
  assert (He' : entry_ok e') by (destruct He; split; simpl; [lia|done]).
  assert (Ha' : abs e' = Some (key_of (e_value e), e_value e, e_distance e - 1)).
  { unfold abs, ENTRY_IS_EMPTY in *. simpl. by rewrite Ek. }
  rewrite !obt_wf_step by done.
  destruct (IH (set_entries tbl (<[Z.to_nat curr := e']> (entries tbl)))
    (slot (cap (header tbl)) (curr + 1))) as (es & c & E & Hes).
  - apply obt_shape_entries; [done|by rewrite zlen_insert|]. apply Forall_insert; [apply (wf_entries _ Hw)|done].
  - done.
  - simpl. by rewrite list_fmap_insert, Ha'.
  - exists es, c. split; [exact E|exact Hes].
Qed.

Lemma obt_map_size_delete (m : gmap K Z) k v : m !! k = Some v ->
  Z.of_nat (base.size (delete k m)) = Z.of_nat (base.size m) - 1.
Proof. intros E. rewrite (map_size_delete_Some k m) by (by eexists).
  assert (base.size m <> 0%nat); [|lia]. intros H0%map_size_empty_inv. subst. by rewrite lookup_empty in E.
Qed.

Lemma obt_remove_spec tbl m obj : repr tbl m -> obj <> 0 ->
  match m !! key_of obj with
  | Some _ => exists tbl', objtbl_remove tbl obj = Ret (tbl', OBJTBL_OK) /\ repr tbl' (delete (key_of obj) m) /\
      cap (header tbl') = cap (header tbl)
  | None => objtbl_remove tbl obj = Ret (tbl, OBJTBL_ENOTFOUND)
  end.
Proof.
  intros Hr Hk. destruct (obt_find_spec tbl m obj Hr Hk) as (r & Hf & Hres).
  unfold objtbl_remove. rewrite Hf. cbn [mbind outcome_mbind].
  destruct r as [p|]; [|by rewrite Hres].
  destruct Hres as (Hp & e & v & He & Ha & Hev & Hm). rewrite Hm.
  destruct Hr as ([Hw Hinv Hsz] & Hmsz & Hmap). pose proof (obt_wf_cap _ Hw) as Hcap.
  destruct (g_shift_spec (cap (header tbl)) ltac:(lia) home
    (abs <$> entries tbl) p (key_of obj) v (e_distance e)) as (t' & Hg & Hl' & Hi' & Hu' & Hh').
  { by apply obt_zlen_abs. } { done. } { done. }
  { apply obt_rd_abs, rd_ret in He as [_ He]. unfold view_of. rewrite He. done. }
  rewrite obt_wf_step by done. rewrite obt_length_cap by done.
  destruct (obt_shift_loop_sim t' _ tbl p Hw Hp Hg) as (es & c & -> & Hc & Hles & Hfes & Et).
  cbn [mbind outcome_mbind]. simpl entries. rewrite wr_in by (rewrite Hles; done). cbn [mbind outcome_mbind].
  pose proof (used_le (abs <$> entries tbl)) as Hule. rewrite obt_zlen_abs in Hule by done.
  pose proof (obt_map_size_delete m (key_of obj) v Hm) as Hms.
  eexists. split; [done|]. split; [|done]. split; [split|split]; simpl.
  - apply (obt_shape_size tbl); [done|by rewrite zlen_insert|]. by apply Forall_insert.
  - by rewrite Et.
  - rewrite Et, Hu', <- Hsz. apply uw_small. lia.
  - rewrite uw_small by lia. lia.
  - intros k w. rewrite Et, Hh', <- Hmap. rewrite lookup_delete_Some. intuition congruence.
Qed.

(** ** Insertion *)

Definition set_result (tbl : objtbl_ctx) (r : @ins_result K Z) (c : outcome (objtbl_ctx * Z)) : Prop :=
  match r with
  | Placed t' => exists es,
      c = Ret (set_size (set_entries tbl es) (u32 (size (header tbl) + 1)), OBJTBL_OK) /\
      zlen es = cap (header tbl) /\ Forall entry_ok es /\ abs <$> es = t'
  | Matched t' p x => exists es e,
      c = Ret (set_entries tbl (<[Z.to_nat p := e]> es), OBJTBL_OK) /\
      zlen es = cap (header tbl) /\ Forall entry_ok es /\ abs <$> es = t' /\
      entry_ok e /\ abs e = Some x
  | NoSlot _ => True
  end.

Lemma obt_set_result_entries tbl es r c : set_result (set_entries tbl es) r c -> set_result tbl r c.
Proof. done. Qed.

Lemma obt_set_loop_sim obj start r : obj <> 0 -> forall fuel tbl pos elem,
  shape tbl -> valid (cap (header tbl)) pos ->
  ENTRY_IS_EMPTY elem = false -> e_value elem <> 0 ->
  0 <= e_distance elem -> e_distance elem + Z.of_nat fuel <= 2 ^ 31 ->
  g_insert (cap (header tbl)) fuel (abs <$> entries tbl) start (key_of obj) pos
    (key_of (e_value elem), e_value elem, e_distance elem) = Ret r ->
  set_result tbl r (set_loop fuel tbl obj start pos elem).
Proof.
  intros Hobj. induction fuel as [|fuel IH]; intros tbl pos elem Hw Hp Hk Hk0 Hd Hdf; [done|].
  pose proof (obt_wf_cap _ Hw) as Hcap. pose proof (wf_len _ Hw) as Hlen.
  assert (Hv : valid (cap (header tbl)) (slot (cap (header tbl)) (pos + 1))) by (apply slot_valid; lia).
  assert (He : entry_ok elem) by (split; [lia|done]).
  assert (Ha : abs elem = Some (key_of (e_value elem), e_value elem, e_distance elem)).
  { unfold abs. by rewrite Hk. }
  cbn [set_loop g_insert]. destruct (obt_wf_rd tbl pos Hw Hp) as (curr & -> & -> & Hc).
  cbn [mbind outcome_mbind]. rewrite !wr_in by (rewrite Hlen; done). cbn [mbind outcome_mbind].
  destruct (ENTRY_IS_EMPTY curr) eqn:Ek.
  { rewrite (obt_abs_none curr Ek). intros [= <-]. eexists. split; [done|]. split_and!.
    - by rewrite zlen_insert.
    - apply Forall_insert; [apply (wf_entries _ Hw)|done].
    - by rewrite list_fmap_insert, Ha. }
  destruct (obt_abs_some curr Hc Ek) as [-> Hne]. cbn [fst snd]. rewrite cmp_dec by done.
  case_bool_decide as Hm.
  { rewrite decide_True by done. intros [= <-]. exists (entries tbl), elem.
    split_and!; try done. apply (wf_entries _ Hw). }
  rewrite decide_False by done.
  destruct (e_distance curr <? e_distance elem) eqn:Ed; cbn [mbind outcome_mbind fst snd]; zbool.
  - change (TABLE_INDEX (set_entries tbl ?es) ?x) with (TABLE_INDEX tbl x). rewrite obt_wf_step by done.
    destruct (_ =? start); [by intros [= <-]|]. cbn [negb].
    rewrite <- Ha, <- list_fmap_insert. intros Hg. apply (obt_set_result_entries tbl (<[Z.to_nat pos := elem]> (entries tbl))).
    destruct Hc as [Hc1 Hc2]. apply IH; simpl; try done; try lia.
    apply obt_shape_entries; [done|by rewrite zlen_insert|]. apply Forall_insert; [apply (wf_entries _ Hw)|done].
  - rewrite obt_wf_step by done. destruct (_ =? start); [by intros [= <-]|]. cbn [negb].
    intros Hg. apply IH; simpl; try done; lia.
Qed.

Lemma obt_map_size_bound (m : gmap K Z) tbl : repr tbl m -> Z.of_nat (base.size m) <= cap (header tbl).
Proof.
  intros ([Hw _ Hs] & <- & _). rewrite Hs. pose proof (used_le (abs <$> entries tbl)) as Hu.
  rewrite obt_zlen_abs in Hu by done. lia.
Qed.

(** storing in a table that has room *)
Lemma obt_set_spec tbl m v : repr tbl m -> v <> 0 -> size (header tbl) < cap (header tbl) ->
  exists tbl', set_table_value tbl v = Ret (tbl', OBJTBL_OK) /\ repr tbl' (<[key_of v := v]> m) /\
    cap (header tbl') = cap (header tbl).
Proof.
  intros ([Hw Hi Hs] & Hm & Hmap) Hk Hroom. pose proof (obt_wf_cap _ Hw) as Hcap.
  unfold set_table_value.
  rewrite (proj2 (Z.eqb_neq _ _)), (proj2 (Z.leb_gt _ _)) by done.
  cbv zeta. rewrite obt_wf_index, calchash_home, obt_length_cap by done.
  set (n := cap (header tbl)) in *. set (key := key_of v) in *.
  pose proof (home_pos key) as Hpos.
  assert (Hsim : forall r, g_insert n (Z.to_nat n) (abs <$> entries tbl) (slot n (home key)) key
      (slot n (home key)) (key, v, 0) = Ret r ->
    set_result tbl r (set_loop (Z.to_nat n) tbl v (slot n (home key))
      (slot n (home key)) (Entry (home key) 0 v))).
  { intros r Hg. apply obt_set_loop_sim; simpl; try done; try lia.
    - apply slot_valid; lia.
    - unfold ENTRY_IS_EMPTY. simpl. apply Z.eqb_neq. lia. }
  destruct (m !! key) as [w|] eqn:Em.
  - apply Hmap in Em as Hhas. destruct Hhas as (p & d & Hp & Ep).
    pose proof (g_insert_old n ltac:(lia) home (abs <$> entries tbl) key v p w d
      (obt_zlen_abs _ Hw) Hi Hp Ep) as Hg.
    apply Hsim in Hg as (es & e & -> & Hl & Hf & Et & He & Ha).
    destruct (replace_table n ltac:(lia) home (abs <$> es) p key w v d) as (_ & Hi' & Hu' & Hh');
      [unfold zlen; rewrite length_fmap; exact Hl|by rewrite Et|done|by rewrite Et|].
    eexists. split; [done|]. split; [|done]. split; [split|split]; simpl; rewrite ?list_fmap_insert, ?Ha, ?Et in *.
    + apply obt_shape_entries; [done|by rewrite zlen_insert|by apply Forall_insert].
    + done.
    + by rewrite Hu'.
    + rewrite map_size_insert_Some by (by eexists). done.
    + intros k' w'. fold n. rewrite Hh', <- Hmap, lookup_insert_Some. intuition congruence.
  - destruct (g_insert_new n ltac:(lia) home (abs <$> entries tbl) key v)
      as (t' & Hg & Hl' & Hi' & Hu' & Hh'); [by apply obt_zlen_abs|done|lia| |].
    { intros w Hw'%Hmap. congruence. }
    apply Hsim in Hg as (es & -> & Hl & Hf & Et).
    eexists. split; [done|]. split; [|done]. split; [split|split]; simpl; rewrite ?Et in *.
    + by apply obt_shape_size.
    + done.
    + rewrite Hu', <- Hs. apply uw_small. lia.
    + rewrite map_size_insert_None by done. rewrite uw_small by lia. lia.
    + intros k' w'. fold n. rewrite Hh', <- Hmap, lookup_insert_Some.
      split; [intros [[-> ->]|[? ?]]|intros [?|[? ->]]]; auto.
      destruct (decide (key = k')) as [->|]; [congruence|auto].
Qed.

(** ** Growing *)

(** the content to insert is a part of [m0], which the new table can hold *)
Lemma obt_reinsert_spec (m0 : gmap K Z) : forall ents new m,
  Forall (fun e => entry_ok e /\ forall k v d, abs e = Some (k, v, d) -> m0 !! k = Some v) ents ->
  repr new m -> m ⊆ m0 -> Z.of_nat (base.size m0) < cap (header new) ->
  exists new' m', reinsert ents new = Ret new' /\ repr new' m' /\ m ⊆ m' /\ m' ⊆ m0 /\
    cap (header new') = cap (header new) /\
    Forall (fun e => forall k v d, abs e = Some (k, v, d) -> m' !! k = Some v) ents.
Proof.
  induction ents as [|e ents IH]; intros new m Hents Hr Hsub Hcap.
  { exists new, m. by split_and!. }
  apply Forall_cons in Hents as [[He Hm0] Hents]. cbn [reinsert].
  destruct (ENTRY_IS_EMPTY e) eqn:Ek; cbn [negb].
  { destruct (IH new m Hents Hr Hsub Hcap) as (new' & m' & E & Hr' & H1 & H2 & H3 & Hall).
    exists new', m'. split_and!; try done. apply Forall_cons. rewrite (obt_abs_none e Ek). by split. }
  destruct (obt_abs_some e He Ek) as [Ea Hne]. set (v := e_value e) in *.
  pose proof (Hm0 _ _ _ Ea) as Hkv. pose proof Hr as (_ & Hsz & _).
  pose proof (map_subseteq_size _ _ Hsub).
  destruct (obt_set_spec new m v Hr Hne) as (new1 & -> & Hr1 & Hs1); [lia|].
  cbn [mbind outcome_mbind].
  destruct (IH new1 (<[key_of v := v]> m) Hents Hr1) as (new' & m' & E & Hr' & Hsub1 & Hsub2 & Hs2 & Hall).
  { apply map_subseteq_spec. intros j w [[<- <-]|[_ Hj]]%lookup_insert_Some; [done|].
    by eapply lookup_weaken. }
  { by rewrite Hs1. }
  exists new', m'. split_and!; try done.
  - etrans; [|exact Hsub1]. apply map_subseteq_spec. intros j w Hj. apply lookup_insert_Some.
    destruct (decide (key_of v = j)) as [<-|]; [left|by right]. split; [done|].
    pose proof (lookup_weaken _ _ _ _ Hj Hsub). congruence.
  - by rewrite <- Hs1.
  - apply Forall_cons. split; [|done]. intros k' v' d' Ea'. rewrite Ea in Ea'. simplify_eq.
    eapply lookup_weaken; [|exact Hsub1]. by rewrite lookup_insert_eq.
Qed.

Lemma obt_abs_empties n : abs <$> replicate n empty_entry = replicate n None.
Proof. by rewrite fmap_replicate. Qed.

Lemma obt_init_table_spec alloc_ok lg nslots tbl : 0 <= lg <= 31 -> round_up_pow2 nslots = 2 ^ lg ->
  init_table alloc_ok o nslots = Some tbl ->
  repr tbl ∅ /\ cap (header tbl) = 2 ^ lg /\ size (header tbl) = 0.
Proof.
  intros Hlg Hn. unfold init_table, init_header. rewrite Hn. destruct (2 ^ lg <? nslots); [done|].
  cbn [cap]. destruct (alloc_ok _); [|done]. intros [= <-]. simpl.
  pose proof (pow2_range lg _ Hlg eq_refl) as Hcap.
  split; [|done]. split; [split; simpl; [split; simpl|..]|split; simpl].
  - done.
  - by exists lg.
  - apply uw_small. lia.
  - done.
  - rewrite zlen_replicate. lia.
  - apply Forall_replicate. split; simpl; [lia|done].
  - rewrite obt_abs_empties. apply inv_empty. lia.
  - by rewrite obt_abs_empties, used_replicate.
  - done.
  - intros k v. rewrite lookup_empty, obt_abs_empties. split; [done|]. by intros ?%has_empty.
Qed.

(** the entries of a table are the bindings of its map *)
Lemma repr_entry tbl m i e k v d : repr tbl m -> entries tbl !! i = Some e -> abs e = Some (k, v, d) ->
  entry_ok e /\ m !! k = Some v.
Proof.
  intros ([Hw _ _] & _ & Hmap) He Ea. pose proof (wf_entries _ Hw) as Hf. rewrite Forall_lookup in Hf.
  split; [by eapply Hf|]. apply Hmap. pose proof (lookup_lt_Some _ _ _ He).
  exists (Z.of_nat i), d. split; [unfold valid; rewrite obt_length_cap in * by done; pose proof (obt_wf_cap _ Hw); lia|].
  unfold view_of. rewrite Nat2Z.id, list_lookup_fmap, He. simpl. by rewrite Ea.
Qed.

Lemma repr_lookup tbl m k v : repr tbl m -> m !! k = Some v ->
  exists i e d, entries tbl !! i = Some e /\ abs e = Some (k, v, d).
Proof.
  intros (_ & _ & Hmap) (p & d & _ & E)%Hmap. unfold view_of in E. rewrite list_lookup_fmap in E.
  destruct (entries tbl !! Z.to_nat p) as [e|] eqn:Ee; [|done]. by exists (Z.to_nat p), e, d.
Qed.

Lemma obt_grow_spec alloc_ok tbl m : repr tbl m ->
  grow alloc_ok tbl = Ret (tbl, OBJTBL_ENOMEM) \/
  exists tbl', grow alloc_ok tbl = Ret (tbl', OBJTBL_OK) /\ repr tbl' m /\
    cap (header tbl') = 2 * cap (header tbl).
Proof.
  intros Hr. pose proof Hr as ([Hw Hi Hs] & Hm & _). pose proof (obt_wf_cap _ Hw) as Hcap.
  pose proof (obt_map_size_bound m tbl Hr) as Hsz.
  unfold grow. rewrite Z.shiftl_mul_pow2 by lia. change (2 ^ 1) with 2.
  destruct (wf_lg _ Hw) as (lg & Hlg & Elg). destruct (Z.eq_dec lg 31) as [->|Hne].
  { left. rewrite Elg. reflexivity. }
  pose proof (Z.pow_le_mono_r 2 lg 30 ltac:(lia) ltac:(lia)).
  rewrite (uw_small 32) by lia. rewrite (proj2 (Z.ltb_ge _ _)) by lia. cbv zeta.
  rewrite (wf_opts _ Hw). destruct (init_table _ _ _) as [new|] eqn:Ei; [right|by left].
  assert (Ep : cap (header tbl) * 2 = 2 ^ (lg + 1)) by (rewrite Z.pow_add_r; lia).
  rewrite Ep in Ei. apply (obt_init_table_spec _ (lg + 1)) in Ei as (Hr0 & Hcn & Hsn);
    [|lia|apply obt_round_up_pow2_pow; lia].
  rewrite take_ge by (rewrite obt_length_cap by done; lia).
  destruct (obt_reinsert_spec m (entries tbl) new ∅) as (new' & m' & -> & Hr' & _ & Hsub & Ecap & Hall).
  - apply Forall_lookup. intros i e He. pose proof (wf_entries _ Hw) as Hf. rewrite Forall_lookup in Hf.
    split; [by eapply Hf|]. intros k v d Ea. by eapply repr_entry.
  - done.
  - apply map_empty_subseteq.
  - lia.
  - cbn [mbind outcome_mbind]. exists new'. split; [done|]. split; [|lia].
    replace m with m'; [done|]. apply (anti_symm (⊆)); [done|]. apply map_subseteq_spec.
    intros k v Hkv. destruct (repr_lookup _ _ _ _ Hr Hkv) as (i & e & d & He & Ea).
    rewrite Forall_lookup in Hall. by eapply Hall.
Qed.

Lemma obt_rehash_limit_range tbl : shape tbl -> rehash_limit (header tbl) = cap (header tbl) - cap (header tbl) / 6 /\
  0 < rehash_limit (header tbl) <= cap (header tbl).
Proof.
  intros Hw. pose proof (obt_wf_cap _ Hw). rewrite (wf_limit _ Hw). unfold REHASH_LIMIT.
  rewrite uw_small by divmod_lia. split; [done|divmod_lia].
Qed.

Lemma obt_insert_spec alloc_ok tbl m v : repr tbl m -> v <> 0 ->
  objtbl_insert alloc_ok tbl v = Ret (tbl, OBJTBL_ENOMEM) \/
  exists tbl', objtbl_insert alloc_ok tbl v = Ret (tbl', OBJTBL_OK) /\ repr tbl' (<[key_of v := v]> m).
Proof.
  intros Hr Hk. pose proof Hr as ([Hw _ _] & Hm & _). pose proof (obt_rehash_limit_range tbl Hw) as [_ Hlim].
  pose proof (obt_wf_cap _ Hw) as Hcap. pose proof (obt_map_size_bound m tbl Hr).
  unfold objtbl_insert. destruct (Z.leb_spec (rehash_limit (header tbl)) (size (header tbl))).
  - destruct (obt_grow_spec alloc_ok tbl m Hr) as [E|(tbl1 & -> & Hr1 & Hc1)].
    { left. by rewrite E. }
    right. cbn [mbind outcome_mbind]. change (negb (OBJTBL_OK =? OBJTBL_OK)) with false. cbv iota.
    pose proof Hr1 as (_ & Hm1 & _).
    destruct (obt_set_spec tbl1 m v Hr1 Hk) as (tbl' & E & Hr' & _); [lia|eauto].
  - right. cbn [mbind outcome_mbind]. change (negb (OBJTBL_OK =? OBJTBL_OK)) with false. cbv iota.
    destruct (obt_set_spec tbl m v Hr Hk) as (tbl' & E & Hr' & _); [lia|eauto].
Qed.

(** with memory, and far from the largest capacity, an insertion succeeds *)
Lemma obt_insert_total alloc_ok tbl m v : repr tbl m -> v <> 0 -> (forall n, alloc_ok n = true) ->
  size (header tbl) < 2 ^ 29 ->
  exists tbl', objtbl_insert alloc_ok tbl v = Ret (tbl', OBJTBL_OK) /\ repr tbl' (<[key_of v := v]> m).
Proof.
  intros Hr Hv Ha Hsz. destruct (obt_insert_spec alloc_ok tbl m v Hr Hv) as [E|Hok]; [exfalso|exact Hok].
  pose proof Hr as ([Hw _ _] & _). pose proof (obt_rehash_limit_range tbl Hw) as [El Hlim].
  destruct (wf_lg _ Hw) as (lg & Hlg & Elg).
  unfold objtbl_insert in E. destruct (Z.leb_spec (rehash_limit (header tbl)) (size (header tbl))) as [Hle|Hgt].
  - assert (Hcap : cap (header tbl) < 2 ^ 30) by (rewrite El in Hle; divmod_lia).
    assert (Hlg' : lg < 30) by (apply (Z.pow_lt_mono_r_iff 2); lia).
    assert (2 ^ (lg + 1) <= 2 ^ 30) by (apply Z.pow_le_mono_r; lia).
    assert (Ep : u32 (Z.shiftl (cap (header tbl)) 1) = 2 ^ (lg + 1)).
    { rewrite Z.shiftl_mul_pow2, Elg, <- Z.pow_add_r by lia. apply uw_small. lia. }
    assert (Hinit : exists new, init_table alloc_ok (opts (header tbl)) (2 ^ (lg + 1)) = Some new).
    { unfold init_table, init_header. rewrite obt_round_up_pow2_pow by lia. rewrite Z.ltb_irrefl. rewrite Ha. by eexists. }
    destruct Hinit as (new & Ei). destruct (obt_grow_spec alloc_ok tbl m Hr) as [Eg|(tbl1 & Eg & Hr1 & Ecap)].
    + unfold grow in Eg. rewrite Ep in Eg. rewrite (proj2 (Z.ltb_ge _ _)) in Eg by (rewrite Elg, Z.pow_add_r; lia).
      cbv zeta in Eg. rewrite Ei in Eg. destruct (reinsert _ new); cbn [mbind outcome_mbind] in Eg; done.
    + rewrite Eg in E. cbn [mbind outcome_mbind] in E. change (negb (OBJTBL_OK =? OBJTBL_OK)) with false in E. cbv iota in E.
      pose proof (obt_map_size_bound m tbl Hr). pose proof Hr1 as (_ & Hm1 & _). destruct Hr as (_ & Hm & _). pose proof (obt_wf_cap _ Hw).
      destruct (obt_set_spec tbl1 m v Hr1 Hv) as (t2 & E2 & _); [lia|]. by rewrite E2 in E.
  - cbn [mbind outcome_mbind] in E. change (negb (OBJTBL_OK =? OBJTBL_OK)) with false in E. cbv iota in E.
    pose proof (obt_wf_cap _ Hw). destruct (obt_set_spec tbl m v Hr Hv) as (t2 & E2 & _); [lia|]. by rewrite E2 in E.
Qed.

(** ** Iteration *)

(** what the iteration does with the objects in the order it meets them *)
Fixpoint visit {S : Type} (func : S -> Z -> S * Z) (data : S) (l : list Z) : S * Z :=
  match l with
  | [] => (data, 0)
  | v :: l => let '(data, ret) := func data v in if ret =? 1 then visit func data l else (data, ret)
  end.

Definition binding (e : objtbl_entry) : option (K * Z) := fst <$> abs e.

Lemma bindings_cons e es : omap binding (e :: es) =
  match binding e with Some x => x :: omap binding es | None => omap binding es end.
Proof. done. Qed.

Lemma foreach_visit {S} (func : S -> Z -> S * Z) n : 0 <= n < 2 ^ 32 -> forall es nseen data,
  Forall entry_ok es -> 0 <= nseen -> nseen + used (abs <$> es) = n ->
  foreach_loop es nseen n func data = visit func data (snd <$> omap binding es).
Proof.
  intros Hn. induction es as [|e es IH]; intros nseen data Hok Hs Hu; [done|].
  apply Forall_cons in Hok as [He Hok]. cbn [foreach_loop]. rewrite bindings_cons.
  change (used (abs <$> e :: es)) with (occ (abs e) + used (abs <$> es)) in Hu.
  change (binding e) with (fst <$> abs e). pose proof (used_le (abs <$> es)) as Hle.
  destruct (ENTRY_IS_EMPTY e) eqn:Ek.
  - rewrite (obt_abs_none e Ek) in *. cbn [occ fmap option_fmap option_map] in *. destruct (Z.ltb_spec nseen n) as [|Hge]; cbn [negb].
    { apply IH; [done|lia|lia]. }
    assert (Hz : used (abs <$> es) = 0) by lia. clear -Hz Hok.
    induction es as [|e es IH]; [done|]. apply Forall_cons in Hok as [He Hok].
    change (occ (abs e) + used (abs <$> es) = 0) in Hz. pose proof (occ_range (abs e)). pose proof (used_le (abs <$> es)).
    assert (occ (abs e) = 0 /\ used (abs <$> es) = 0) as [Ho Hu] by lia. rewrite bindings_cons.
    change (binding e) with (fst <$> abs e). destruct (abs e); [done|]. simpl. by apply IH.
  - destruct (obt_abs_some e He Ek) as [Ea _]. rewrite Ea in *. cbn [occ fmap option_fmap option_map] in *.
    rewrite (proj2 (Z.ltb_lt _ _)) by lia. cbn [negb list_fmap fst snd visit].
    destruct (func data (e_value e)) as [data' ret]. destruct (ret =? 1); cbn [negb]; [|done].
    rewrite uw_small by lia. apply IH; [done|lia|lia].
Qed.

Lemma NoDup_binding es : (forall i j k v d v' d', (abs <$> es) !! i = Some (Some (k, v, d)) ->
    (abs <$> es) !! j = Some (Some (k, v', d')) -> i = j) -> NoDup (omap binding es).
Proof.
  induction es as [|e es IH]; intros Hu; [constructor|].
  assert (Hu' : NoDup (omap binding es)).
  { apply IH. intros i j k v d v' d' Hi Hj. specialize (Hu (S i) (S j) k v d v' d' Hi Hj). lia. }
  rewrite bindings_cons. change (binding e) with (fst <$> abs e). destruct (abs e) as [[[k v] d]|] eqn:Ea; [|done]. simpl.
  apply NoDup_cons. split; [|done]. intros (e' & He' & Eb)%list_elem_of_omap.
  apply list_elem_of_lookup in He' as [i Hi]. unfold binding in Eb.
  destruct (abs e') as [[[k' v'] d']|] eqn:Ea'; [|done]. simpl in Eb. simplify_eq.
  specialize (Hu 0%nat (S i) k v d v d'). simpl in Hu. rewrite Ea in Hu.
  rewrite list_lookup_fmap, Hi in Hu. simpl in Hu. rewrite Ea' in Hu. by specialize (Hu eq_refl eq_refl).
Qed.

Lemma bindings_perm tbl m : repr tbl m -> omap binding (entries tbl) ≡ₚ map_to_list m.
Proof.
  intros Hr. pose proof Hr as ([Hw Hi _] & _ & _). apply NoDup_Permutation.
  - apply NoDup_binding. intros i j k v d v' d' Hli Hlj.
    assert (Hv : forall i x, (abs <$> entries tbl) !! i = Some x ->
      valid (cap (header tbl)) (Z.of_nat i) /\ view_of (abs <$> entries tbl) (Z.of_nat i) = x).
    { intros i' x Hx. pose proof (lookup_lt_Some _ _ _ Hx) as Hlt. rewrite length_fmap, obt_length_cap in Hlt by done.
      unfold valid, view_of. rewrite Nat2Z.id, Hx. split; [lia|done]. }
    apply Hv in Hli as [Hvi Ei], Hlj as [Hvj Ej].
    pose proof (iuniq _ _ _ Hi _ _ _ _ _ _ _ Hvi Hvj Ei Ej). lia.
  - apply NoDup_map_to_list.
  - intros [k v]. rewrite elem_of_map_to_list, list_elem_of_omap. split.
    + intros (e & [i He]%list_elem_of_lookup & Eb). unfold binding in Eb.
      destruct (abs e) as [[[k' v'] d']|] eqn:Ea; [|done]. simpl in Eb. simplify_eq.
      by eapply repr_entry.
    + intros Hkv. destruct (repr_lookup _ _ _ _ Hr Hkv) as (i & e & d & He & Ea).
      exists e. split; [by eapply list_elem_of_lookup_2|]. unfold binding. by rewrite Ea.
Qed.

Lemma foreach_spec {S} tbl m (func : S -> Z -> S * Z) data : repr tbl m ->
  exists l, l ≡ₚ snd <$> map_to_list m /\ objtbl_foreach tbl func data = visit func data l.
Proof.
  intros Hr. pose proof Hr as ([Hw _ Hs] & _ & _). exists (snd <$> omap binding (entries tbl)). split.
  - apply fmap_Permutation. by apply bindings_perm.
  - unfold objtbl_foreach. rewrite take_ge by (rewrite obt_length_cap by done; lia).
    apply foreach_visit; [|apply (wf_entries _ Hw)|done|by rewrite Hs].
    pose proof (obt_wf_cap _ Hw). pose proof (used_le (abs <$> entries tbl)) as Hle.
    rewrite obt_zlen_abs in Hle by done. lia.
Qed.

(** a size above 2 ^ 31 does not round up *)
Lemma obt_init_table_zero alloc_ok nslots opts : round_up_pow2 nslots = 0 -> 0 < nslots -> init_table alloc_ok opts nslots = None.
Proof. intros E Hn. unfold init_table, init_header. rewrite E. cbv zeta. by rewrite (proj2 (Z.ltb_lt 0 nslots)). Qed.

Lemma obt_init_spec alloc_ok nslots tbl : 0 <= nslots < 2 ^ 32 ->
  objtbl_init alloc_ok o nslots = (Some tbl, OBJTBL_OK) -> repr tbl ∅.
Proof.
  intros Hn. unfold objtbl_init. set (n := if nslots =? 0 then 1 else nslots).
  assert (1 <= n < 2 ^ 32) as Hn1 by (subst n; destruct (Z.eqb_spec nslots 0); lia).
  destruct (Z.ltb_spec (REHASH_ROUND_UP n) n); [done|].
  destruct (init_table _ _ _) as [c|] eqn:Ei; [|done]. intros [= ->].
  assert (0 <= REHASH_ROUND_UP n < 2 ^ 32) by (apply (uw_range 32); lia).
  set (c := REHASH_ROUND_UP n) in *. clearbody c.
  destruct (obt_round_up_pow2_spec c) as (lg & Hlg & Hle & Er); [unfold UINT32_MAX; lia|].
  destruct (Z.eq_dec lg 32) as [->|].
  - rewrite obt_init_table_zero in Ei; [done|exact Er|lia].
  - pose proof (Z.pow_le_mono_r 2 lg 31 ltac:(lia) ltac:(lia)).
    rewrite (uw_small 32) in Er by lia. apply (obt_init_table_spec alloc_ok lg c); [lia|done|done].
Qed.

(** ** Runs *)

Inductive spec : gmap K Z -> op -> Z * option Z -> gmap K Z -> Prop :=
  | spec_get m a v : a <> 0 -> m !! key_of a = Some v -> spec m (Get a) (OBJTBL_OK, Some v) m
  | spec_get_none m a : a = 0 \/ m !! key_of a = None -> spec m (Get a) (OBJTBL_ENOTFOUND, None) m
  | spec_contains m a v : a <> 0 -> m !! key_of a = Some v -> spec m (Contains a) (1, None) m
  | spec_contains_none m a : a = 0 \/ m !! key_of a = None -> spec m (Contains a) (0, None) m
  | spec_insert m v : v <> 0 -> spec m (Insert v) (OBJTBL_OK, None) (<[key_of v := v]> m)
  | spec_insert_null m : spec m (Insert 0) (OBJTBL_EINVAL, None) m
  | spec_insert_fails m v : spec m (Insert v) (OBJTBL_ENOMEM, None) m
  | spec_remove m a v : a <> 0 -> m !! key_of a = Some v ->
      spec m (Remove a) (OBJTBL_OK, None) (delete (key_of a) m)
  | spec_remove_none m a : a = 0 \/ m !! key_of a = None -> spec m (Remove a) (OBJTBL_ENOTFOUND, None) m.

Inductive specs : gmap K Z -> list op -> list (Z * option Z) -> gmap K Z -> Prop :=
  | specs_nil m : specs m [] [] m
  | specs_cons m x r m' os rs m'' : spec m x r m' -> specs m' os rs m'' ->
      specs m (x :: os) (r :: rs) m''.

Lemma find_null tbl : find_table_entry tbl 0 = Ret None.
Proof. done. Qed.

Lemma insert_null alloc_ok tbl m : repr tbl m ->
  objtbl_insert alloc_ok tbl 0 = Ret (tbl, OBJTBL_ENOMEM) \/
  exists tbl', objtbl_insert alloc_ok tbl 0 = Ret (tbl', OBJTBL_EINVAL) /\ repr tbl' m.
Proof.
  intros Hr. unfold objtbl_insert. destruct (rehash_limit _ <=? _); [|right; by exists tbl].
  destruct (obt_grow_spec alloc_ok tbl m Hr) as [->|(tbl' & -> & Hr' & _)]; [by left|right; by exists tbl'].
Qed.

(** a search in terms of the map *)
Lemma find_cases tbl m a : repr tbl m ->
  (find_table_entry tbl a = Ret None /\ (a = 0 \/ m !! key_of a = None)) \/
  exists i e, find_table_entry tbl a = Ret (Some i) /\ rd (entries tbl) i = Ret e /\ a <> 0 /\
    m !! key_of a = Some (e_value e).
Proof.
  intros Hr. destruct (decide (a = 0)) as [->|Ha]; [left; auto|].
  destruct (obt_find_spec tbl m a Hr Ha) as ([i|] & Hf & Hres); [right|left; auto].
  destruct Hres as (_ & e & v & He & _ & <- & Hm). by exists i, e.
Qed.

Lemma obt_exec_spec alloc_ok tbl m x : repr tbl m ->
  exists tbl' r m', exec alloc_ok tbl x = Ret (tbl', r) /\ spec m x r m' /\ repr tbl' m'.
Proof.
  intros Hr. destruct x as [a|a|v|a]; simpl.
  - unfold objtbl_get. destruct (find_cases tbl m a Hr) as [[-> Hm]|(i & e & -> & He & Ha & Hm)];
      cbn [mbind outcome_mbind]; [|rewrite He; cbn [mbind outcome_mbind]].
    + eexists _, _, m. split_and!; [done|by constructor|done].
    + eexists _, _, m. split_and!; [done|by constructor|done].
  - unfold objtbl_contains. destruct (find_cases tbl m a Hr) as [[-> Hm]|(i & e & -> & He & Ha & Hm)];
      cbn [mbind outcome_mbind].
    + eexists _, _, m. split_and!; [done|by constructor|done].
    + eexists _, _, m. split_and!; [done|by econstructor|done].
  - destruct (decide (v = 0)) as [->|Hv].
    + destruct (insert_null alloc_ok tbl m Hr) as [->|(tbl' & -> & Hr')]; cbn [mbind outcome_mbind];
        eexists _, _, m; (split_and!; [done|constructor|done]).
    + destruct (obt_insert_spec alloc_ok tbl m v Hr Hv) as [->|(tbl' & -> & Hr')]; cbn [mbind outcome_mbind];
        eexists _, _, _; (split_and!; [done|by constructor|done]).
  - destruct (decide (a = 0)) as [->|Ha].
    { eexists _, _, m. split_and!; [done|constructor; by left|done]. }
    pose proof (obt_remove_spec tbl m a Hr Ha) as Hrm. destruct (m !! key_of a) as [v|] eqn:E.
    + destruct Hrm as (tbl' & -> & Hr' & _). cbn [mbind outcome_mbind].
      eexists _, _, _. split_and!; [done|by econstructor|done].
    + rewrite Hrm. cbn [mbind outcome_mbind]. eexists _, _, _. split_and!; [done|constructor; by right|done].
Qed.

Lemma obt_run_spec alloc_ok os : forall tbl m, repr tbl m ->
  exists tbl' rs m', run alloc_ok tbl os = Ret (tbl', rs) /\ specs m os rs m' /\ repr tbl' m'.
Proof.
  induction os as [|x os IH]; intros tbl m Hr.
  - exists tbl, [], m. split_and!; [done|constructor|done].
  - cbn [run]. destruct (obt_exec_spec alloc_ok tbl m x Hr) as (tbl1 & r & m1 & -> & Hs & Hr1).
    destruct (IH tbl1 m1 Hr1) as (tbl2 & rs & m2 & E & Hs2 & Hr2). cbn [mbind outcome_mbind].
    rewrite E. cbn [mbind outcome_mbind]. eexists _, _, m2. split_and!; [done|by econstructor|done].
Qed.

(** ** Properties *)

(** C22: whatever the keys are, any sequence of gets, lookups, insertions and
    removals on a freshly initialized table stays in the table's memory, ends
    in one turn per slot and call, and returns what a map from keys to objects
    returns; the table then holds exactly that map.  An insertion may instead
    return [OBJTBL_ENOMEM] and change nothing, and a null pointer is never
    stored. *)
Theorem objtbl_refines alloc_ok nslots tbl os :
  0 <= nslots < 2 ^ 32 -> objtbl_init alloc_ok o nslots = (Some tbl, OBJTBL_OK) ->
  exists tbl' rs m, run alloc_ok tbl os = Ret (tbl', rs) /\ specs ∅ os rs m /\ repr tbl' m /\
    size (header tbl') = Z.of_nat (base.size m).
Proof.
  intros Hn Hi. apply obt_init_spec in Hi as Hr; [|done].
  destruct (obt_run_spec alloc_ok os tbl ∅ Hr) as (tbl' & rs & m & E & Hs & Hr').
  exists tbl', rs, m. split_and!; try done. by destruct Hr' as (_ & ? & _).
Qed.

(** On a table that holds the map [m], [objtbl_foreach] calls the function
    on every object of [m] exactly once, in some order, until a call returns
    something else than 1, which it then returns. *)
Theorem objtbl_foreach_visits {S} tbl m (func : S -> Z -> S * Z) data : repr tbl m ->
  exists l, l ≡ₚ snd <$> map_to_list m /\ objtbl_foreach tbl func data = visit func data l.
Proof. apply foreach_spec. Qed.

End Table.

(** ** Strings as objects

    Objects are pointers to C strings of a heap that does not change. *)
Section Strings.
Context (heap : Z -> bytes).

Definition heap_obj (p : Z) : option bytes := if p =? 0 then None else Some (heap p).

Definition str_opts (seed : Z) : objtbl_opts :=
  Opts seed (fun p s => objtbl_strhash (heap_obj p) s)
    (fun p q => objtbl_strcmp (heap_obj p) (heap_obj q)).

Lemma strcmp_eq a b : strcmp a b = 0 <-> a = b.
Proof.
  revert b. induction a as [|x a IH]; intros [|y b]; simpl; try done.
  destruct (Z.ltb_spec x y); [split; [done|intros [= -> ->]; lia]|].
  destruct (Z.ltb_spec y x); [split; [done|intros [= -> ->]; lia]|].
  rewrite IH. split; [intros ->; f_equal; lia|by intros [= _ ->]].
Qed.

Lemma hash_data_range data h : 0 <= h < 2 ^ 32 -> 0 <= hash_data data h < 2 ^ 32.
Proof.
  unfold hash_data. revert h. induction data as [|c data IH]; intros h Hh; [done|]. simpl.
  apply IH. apply (uw_range 32). lia.
Qed.

#[export] Program Instance str_keys (seed : Z) : ObjKeys bytes (str_opts seed) := {
  key_of := heap;
  key_hash := fun s => objtbl_strhash (Some s) seed;
}.
Next Obligation.
  intros seed a b Ha Hb. simpl. unfold heap_obj. rewrite !(proj2 (Z.eqb_neq _ _)) by done. apply strcmp_eq.
Qed.
Next Obligation.
  intros seed a Ha. simpl. unfold heap_obj. by rewrite (proj2 (Z.eqb_neq _ _)).
Qed.
Next Obligation. intros seed k. apply hash_data_range. apply (uw_range 32). lia. Qed.
End Strings.

Definition demo_heap (p : Z) : bytes := lit (if p <? 3 then "abc" else "x").
Definition demo_ops : list op := [Insert 1; Insert 3; Insert 2; Get 1; Remove 4; Get 3; Insert 0].

Lemma objtbl_refines_witness : exists tbl,
  objtbl_init (fun _ => true) (str_opts demo_heap 7) 4 = (Some tbl, OBJTBL_OK) /\
  exists tbl' rs m, run (fun _ => true) tbl demo_ops = Ret (tbl', rs) /\
    specs (str_opts demo_heap 7) ∅ demo_ops rs m /\ repr (str_opts demo_heap 7) tbl' m /\
    size (header tbl') = Z.of_nat (base.size m).
Proof.
  eexists. split; [reflexivity|].
  refine (objtbl_refines (str_opts demo_heap 7) (fun _ => true) 4 _ demo_ops _ eq_refl). lia.
Defined.

Definition demo_tbl : objtbl_ctx :=
  match objtbl_init (fun _ => true) (str_opts demo_heap 7) 4 with
  | (Some tbl, _) => tbl
  | _ => Ctx (Header 0 0 0 0 (str_opts demo_heap 7)) []
  end.

Lemma objtbl_foreach_visits_witness : repr (str_opts demo_heap 7) demo_tbl ∅ /\
  exists l, l ≡ₚ snd <$> map_to_list (∅ : gmap bytes Z) /\
    objtbl_foreach demo_tbl (fun n v => (n + v, 1)) 0 = visit (fun n v => (n + v, 1)) 0 l.
Proof.
  assert (Hr : repr (str_opts demo_heap 7) demo_tbl ∅).
  { apply (obt_init_spec _ (fun _ => true) 4); [lia|reflexivity]. }
  split; [exact Hr|].
  exact (objtbl_foreach_visits (str_opts demo_heap 7) demo_tbl ∅ (fun n v => (n + v, 1)) 0 Hr).
Defined.
