(* ===== verification/Deduptbl.v ===== *)
(** * Tables of seen identifiers (src/lib/util/deduptbl.c)

    A set of SHA-1 digests that lives in a memory-mapped file or in memory:
    Robin Hood hashing of a fixed capacity without removal.  The theorems
    show that it refines a finite set of at most [nmax] elements, and which
    of the tables that can be created can be loaded again. *)

From stdpp Require Import gmap.
From S2P Require Import Prelude RobinHood.

Definition DEDUPTBL_MAGIC : Z := 0x75646564.
Definition DEDUPTBL_MAX_ENTRIES : Z := 0x3fffffff.
Definition DEDUPTBL_OK : Z := 0.
Definition DEDUPTBL_EERRNO : Z := -1.
Definition DEDUPTBL_ETOOBIG : Z := -2.
Definition DEDUPTBL_EMAGIC : Z := -3.
Definition DEDUPTBL_ESIZE : Z := -4.
Definition DEDUPTBL_EFULL : Z := -5.
Definition DEDUPTBL_EEXIST : Z := -6.
Definition DEDUPTBL_ENOSLOT : Z := -7.
Definition DEDUPTBL_EHEADER : Z := -8.

(** the 20 bytes of the union; [val.u32[0]] is the first four of them as a
    little-endian word *)
Abbreviation deduptbl_id_t := (list Z).

Record deduptbl_entry : Type := Entry {
  e_distance : Z;
  e_id : deduptbl_id_t;
}.

Record deduptbl_table : Type := Table {
  magic : Z;
  nmax : Z;
  nused : Z;
  cap_log2 : Z;
  entries : list deduptbl_entry;
}.

Record deduptbl_ctx : Type := Ctx {
  table : deduptbl_table;
  filesize : Z;
}.

Definition DEDUPTBL_ID_EMPTY : deduptbl_id_t := replicate 20 0.
Definition empty_entry : deduptbl_entry := Entry 0 DEDUPTBL_ID_EMPTY.

Definition u32_0 (id : deduptbl_id_t) : Z :=
  match id with
  | a :: b :: c :: d :: _ => a + b * 2 ^ 8 + c * 2 ^ 16 + d * 2 ^ 24
  | _ => 0
  end.

Definition set_u32_0 (id : deduptbl_id_t) (v : Z) : deduptbl_id_t :=
  match id with
  | _ :: _ :: _ :: _ :: r => v mod 2 ^ 8 :: v / 2 ^ 8 mod 2 ^ 8 :: v / 2 ^ 16 mod 2 ^ 8 :: v / 2 ^ 24 mod 2 ^ 8 :: r
  | _ => id
  end.

(** [1 << cap_log2] is an [int] *)
Definition TABLE_INDEX (tbl : deduptbl_table) (val : Z) : Z :=
  Z.land val (u32 (i32 (i32 (Z.shiftl 1 (cap_log2 tbl)) - 1))).

Definition id_eqb (a b : deduptbl_id_t) : bool := bool_decide (a = b).

(** [sha1] is the digest function of the OpenSSL library; its context is
    modelled by the bytes given to [SHA1_Update] so far *)
Definition deduptbl_id (sha1 : bytes -> bytes) (data : bytes) : deduptbl_id_t :=
  let id := sha1 data in
  if id_eqb id DEDUPTBL_ID_EMPTY then set_u32_0 id (u32 (u32_0 id + 1)) else id.

Definition deduptbl_idv (sha1 : bytes -> bytes) (vec : list bytes) : deduptbl_id_t :=
  let id := sha1 (foldl (fun c d => c ++ d) [] vec) in
  if id_eqb id DEDUPTBL_ID_EMPTY then set_u32_0 id (u32 (u32_0 id + 1)) else id.

Definition deduptbl_strerror (strerror : string) (err : Z) : string :=
  if err =? DEDUPTBL_OK then "no error"
  else if err =? DEDUPTBL_EERRNO then strerror
  else if err =? DEDUPTBL_ETOOBIG then "table size too big"
  else if err =? DEDUPTBL_EMAGIC then "invalid magic number in table"
  else if err =? DEDUPTBL_ESIZE then "invalid table size"
  else if err =? DEDUPTBL_EFULL then "table is full"
  else if err =? DEDUPTBL_EEXIST then "entry already exist in table"
  else if err =? DEDUPTBL_ENOSLOT then "no available slot in non-empty table"
  else if err =? DEDUPTBL_EHEADER then "missing/invalid header"
  else "unknown error".

Definition round_up_pow2 (v : Z) : Z :=
  let v := u32 (v - 1) in
  let v := Z.lor v (Z.shiftr v 1) in
  let v := Z.lor v (Z.shiftr v 2) in
  let v := Z.lor v (Z.shiftr v 4) in
  let v := Z.lor v (Z.shiftr v 8) in
  let v := Z.lor v (Z.shiftr v 16) in
  u32 (v + 1).

Definition sizeof_table : Z := 16.
Definition sizeof_entry : Z := 24.

(** [while (cap >>= 1) cap_log2++] *)
Fixpoint log2_loop (fuel : nat) (cap cap_log2 : Z) : outcome Z :=
  match fuel with
  | O => OutOfFuel
  | S fuel =>
      let cap := Z.shiftr cap 1 in
      if cap =? 0 then Ret cap_log2 else log2_loop fuel cap (cap_log2 + 1)
  end.

(** [fd_ok], [mmap_ok]: whether the system calls succeed; the mapping is an
    anonymous one, or that of a file that was empty, and reads zero bytes *)
Definition deduptbl_create (fd_ok mmap_ok : bool) (max_entries fd : Z) : outcome (option deduptbl_ctx * Z) :=
  if DEDUPTBL_MAX_ENTRIES <? max_entries then Ret (None, DEDUPTBL_ETOOBIG)
  else
    let cap := round_up_pow2 (Z.max (u32 (max_entries + max_entries / 6)) 32) in
    let filesize := u64 (sizeof_table + sizeof_entry * cap) in
    if (0 <=? fd) && negb fd_ok then Ret (None, DEDUPTBL_EERRNO)
    else if negb mmap_ok then Ret (None, DEDUPTBL_EERRNO)
    else
      lg ← log2_loop 64 cap 0;
      Ret (Some (Ctx (Table DEDUPTBL_MAGIC max_entries 0 lg (replicate (Z.to_nat cap) empty_entry)) filesize), 0).

(** a file: its size, and the table in its first bytes if there are that many *)
Record file : Type := File {
  st_size : Z;
  content : option deduptbl_table;
}.

Definition deduptbl_load (fstat_ok mmap_ok : bool) (f : file) : option deduptbl_ctx * Z :=
  match content f with
  | None => (None, DEDUPTBL_EHEADER)
  | Some tbl =>
      if negb (magic tbl =? DEDUPTBL_MAGIC) then (None, DEDUPTBL_EMAGIC)
      else if negb fstat_ok then (None, DEDUPTBL_EERRNO)
      else if negb (u64 (u64 (i32 (Z.shiftl 1 (cap_log2 tbl))) * sizeof_entry + sizeof_table) =? st_size f)
      then (None, DEDUPTBL_ESIZE)
      else if negb mmap_ok then (None, DEDUPTBL_EERRNO)
      else (Some (Ctx tbl (st_size f)), 0)
  end.

Fixpoint contains_loop (fuel : nat) (tbl : deduptbl_table) (id : deduptbl_id_t)
    (start_pos current_pos distance : Z) : outcome Z :=
  match fuel with
  | O => OutOfFuel
  | S fuel =>
      ent ← rd (entries tbl) current_pos;
      if id_eqb (e_id ent) id then Ret 1
      else if (e_distance ent <? distance) || id_eqb (e_id ent) DEDUPTBL_ID_EMPTY then Ret 0
      else
        let current_pos := TABLE_INDEX tbl (u32 (current_pos + 1)) in
        let distance := u32 (distance + 1) in
        if negb (current_pos =? start_pos)
        then contains_loop fuel tbl id start_pos current_pos distance
        else Ret 0
  end.

Definition deduptbl_contains (ctx : deduptbl_ctx) (id : deduptbl_id_t) : outcome Z :=
  let start_pos := TABLE_INDEX (table ctx) (u32_0 id) in
  contains_loop (length (entries (table ctx))) (table ctx) id start_pos start_pos 0.

Definition set_entries (tbl : deduptbl_table) (es : list deduptbl_entry) : deduptbl_table :=
  Table (magic tbl) (nmax tbl) (nused tbl) (cap_log2 tbl) es.
Definition set_nused (tbl : deduptbl_table) (n : Z) : deduptbl_table :=
  Table (magic tbl) (nmax tbl) n (cap_log2 tbl) (entries tbl).

Fixpoint update_loop (fuel : nat) (tbl : deduptbl_table) (id : deduptbl_id_t)
    (start_pos current_pos : Z) (elem : deduptbl_entry) : outcome (deduptbl_table * Z) :=
  match fuel with
  | O => OutOfFuel
  | S fuel =>
      curr ← rd (entries tbl) current_pos;
      if id_eqb (e_id curr) DEDUPTBL_ID_EMPTY then
        es ← wr (entries tbl) current_pos elem;
        Ret (set_nused (set_entries tbl es) (u32 (nused tbl + 1)), DEDUPTBL_OK)
      else if id_eqb (e_id curr) id then Ret (tbl, DEDUPTBL_EEXIST)
      else
        '(tbl, elem) ←
          (if e_distance curr <? e_distance elem
           then es ← wr (entries tbl) current_pos elem; Ret (set_entries tbl es, curr)
           else Ret (tbl, elem));
        let elem := Entry (u32 (e_distance elem + 1)) (e_id elem) in
        let current_pos := TABLE_INDEX tbl (u32 (current_pos + 1)) in
        if negb (current_pos =? start_pos)
        then update_loop fuel tbl id start_pos current_pos elem
        else Ret (tbl, DEDUPTBL_ENOSLOT)
  end.

Definition deduptbl_update (ctx : deduptbl_ctx) (id : deduptbl_id_t) : outcome (deduptbl_ctx * Z) :=
  let tbl := table ctx in
  if nmax tbl <=? nused tbl then Ret (ctx, DEDUPTBL_EFULL)
  else
    let start_pos := TABLE_INDEX tbl (u32_0 id) in
    '(tbl, ret) ← update_loop (length (entries tbl)) tbl id start_pos start_pos (Entry 0 id);
    Ret (Ctx tbl (filesize ctx), ret).

(** ** The table as a Robin Hood table *)

Definition slots (tbl : deduptbl_table) : Z := 2 ^ cap_log2 tbl.

Definition abs (e : deduptbl_entry) : option (deduptbl_id_t * unit * Z) :=
  if id_eqb (e_id e) DEDUPTBL_ID_EMPTY then None else Some (e_id e, tt, e_distance e).

Definition entry_ok (e : deduptbl_entry) : Prop := 0 <= e_distance e < 2 ^ 32.

Record shape (tbl : deduptbl_table) : Prop := Shape {
  wf_lg : 0 <= cap_log2 tbl <= 31;
  wf_len : zlen (entries tbl) = slots tbl;
  wf_nmax : nmax tbl <= slots tbl;
  wf_entries : Forall entry_ok (entries tbl);
}.

Record wf (tbl : deduptbl_table) : Prop := Wf {
  wf_shape : shape tbl;
  wf_inv : inv (slots tbl) u32_0 (view_of (abs <$> entries tbl));
  wf_used : nused tbl = used (abs <$> entries tbl);
}.

(** [s] is the content of the table *)
Definition repr (tbl : deduptbl_table) (s : gset deduptbl_id_t) : Prop :=
  wf tbl /\ nused tbl = Z.of_nat (base.size s) /\
  forall id, id ∈ s <-> has (slots tbl) (view_of (abs <$> entries tbl)) id tt.

Lemma id_eqb_true a b : id_eqb a b = true <-> a = b.
Proof. unfold id_eqb. apply bool_decide_eq_true. Qed.
Lemma id_eqb_false a b : id_eqb a b = false <-> a <> b.
Proof. unfold id_eqb. apply bool_decide_eq_false. Qed.

Lemma slots_range tbl : shape tbl -> 0 < slots tbl <= 2 ^ 31.
Proof. intros [Hlg _ _ _]. by apply (pow2_range (cap_log2 tbl)). Qed.

Lemma index_mask lg : 0 <= lg <= 31 -> u32 (i32 (i32 (Z.shiftl 1 lg) - 1)) = 2 ^ lg - 1.
Proof.
  intros Hlg. assert (E : forallb (fun lg => u32 (i32 (i32 (Z.shiftl 1 lg) - 1)) =? 2 ^ lg - 1) (seqZ 0 32) = true)
    by reflexivity.
  rewrite forallb_forall in E. apply Z.eqb_eq, E, list_elem_of_In, elem_of_seqZ. lia.
Qed.

Lemma ddt_wf_index tbl x : shape tbl -> TABLE_INDEX tbl x = slot (slots tbl) x.
Proof.
  intros [Hlg _ _ _]. unfold TABLE_INDEX, slot, slots. rewrite index_mask by done. apply land_pow2; lia.
Qed.

Lemma ddt_wf_step tbl p : shape tbl -> valid (slots tbl) p ->
  TABLE_INDEX tbl (u32 (p + 1)) = slot (slots tbl) (p + 1).
Proof.
  intros Hw Hp. rewrite ddt_wf_index by done. pose proof (slots_range _ Hw). unfold valid in Hp.
  by rewrite uw_small by lia.
Qed.

Lemma ddt_rd_abs es p e : rd es p = Ret e -> rd (abs <$> es) p = Ret (abs e).
Proof. intros [Hp E]%rd_ret. apply rd_ret. split; [done|]. by rewrite list_lookup_fmap, E. Qed.

Lemma ddt_wf_rd tbl p : shape tbl -> valid (slots tbl) p ->
  exists e, rd (entries tbl) p = Ret e /\ rd (abs <$> entries tbl) p = Ret (abs e) /\ entry_ok e.
Proof.
  intros Hw Hp. destruct (rd_in (entries tbl) p) as (e & E & Hl).
  { rewrite (wf_len _ Hw). done. }
  exists e. split_and!; [done|by apply ddt_rd_abs|]. pose proof (wf_entries _ Hw) as Hf.
  rewrite Forall_lookup in Hf. by eapply Hf.
Qed.

Lemma length_slots tbl : shape tbl -> length (entries tbl) = Z.to_nat (slots tbl).
Proof. intros Hw. pose proof (wf_len _ Hw). unfold zlen in *. lia. Qed.

Lemma ddt_zlen_abs tbl : shape tbl -> zlen (abs <$> entries tbl) = slots tbl.
Proof. intros Hw. unfold zlen. rewrite length_fmap. apply (wf_len _ Hw). Qed.

Lemma contains_loop_sim tbl id start : shape tbl -> id <> DEDUPTBL_ID_EMPTY -> forall fuel pos dist,
  valid (slots tbl) pos -> 0 <= dist -> dist + Z.of_nat fuel < 2 ^ 32 ->
  contains_loop fuel tbl id start pos dist =
  (r ← g_find (slots tbl) false fuel (abs <$> entries tbl) start id pos dist;
   Ret (match r with Some _ => 1 | None => 0 end)).
Proof.
  intros Hw Hid. pose proof (slots_range _ Hw) as Hcap.
  induction fuel as [|fuel IH]; intros pos dist Hp Hd Hf; [done|].
  cbn [contains_loop g_find]. destruct (ddt_wf_rd tbl pos Hw Hp) as (e & -> & -> & He).
  cbn [mbind outcome_mbind]. unfold abs. destruct (id_eqb (e_id e) DEDUPTBL_ID_EMPTY) eqn:Ek.
  - apply id_eqb_true in Ek. rewrite Ek, (proj2 (id_eqb_false _ _)) by done. by rewrite orb_true_r.
  - rewrite andb_false_l, orb_false_r. case_decide as Hm.
    { by rewrite Hm, (proj2 (id_eqb_true _ _)). }
    rewrite (proj2 (id_eqb_false _ _)) by congruence. destruct (e_distance e <? dist); [done|].
    rewrite ddt_wf_step, (uw_small 32 (dist + 1)) by (done || lia). cbv zeta.
    destruct (slot (slots tbl) (pos + 1) =? start); [done|]. cbn [negb].
    apply IH; [|lia|lia]. apply slot_valid. lia.
Qed.

Lemma contains_spec ctx s id : repr (table ctx) s -> id <> DEDUPTBL_ID_EMPTY ->
  deduptbl_contains ctx id = Ret (if decide (id ∈ s) then 1 else 0).
Proof.
  intros ([Hw Hi _] & _ & Hs) Hid. unfold deduptbl_contains. pose proof (slots_range _ Hw).
  rewrite ddt_wf_index, length_slots by done.
  rewrite contains_loop_sim; [|done|done|apply slot_valid; lia|done|lia].
  destruct (g_find_spec (slots (table ctx)) ltac:(lia) u32_0 false (abs <$> entries (table ctx)) id)
    as (r & -> & Hres); [by apply ddt_zlen_abs|done|]. cbn [mbind outcome_mbind]. f_equal.
  destruct r as [p|]; simpl in Hres; case_decide as Hin; try done; exfalso.
  - destruct Hres as (Hp & [] & d & E). apply Hin, Hs. by exists p, d.
  - apply Hs in Hin. by eapply Hres.
Qed.

(** ** Updates *)

Definition update_result (tbl : deduptbl_table) (r : @ins_result deduptbl_id_t unit)
    (c : outcome (deduptbl_table * Z)) : Prop :=
  match r with
  | Placed t' => exists es,
      c = Ret (set_nused (set_entries tbl es) (u32 (nused tbl + 1)), DEDUPTBL_OK) /\
      zlen es = slots tbl /\ Forall entry_ok es /\ abs <$> es = t'
  | Matched t' _ _ => exists es,
      c = Ret (set_entries tbl es, DEDUPTBL_EEXIST) /\
      zlen es = slots tbl /\ Forall entry_ok es /\ abs <$> es = t'
  | NoSlot _ => True
  end.

Lemma update_result_entries tbl es r c : update_result (set_entries tbl es) r c -> update_result tbl r c.
Proof. done. Qed.

Lemma ddt_shape_entries tbl es : shape tbl -> zlen es = slots tbl -> Forall entry_ok es ->
  shape (set_entries tbl es).
Proof. by intros [H1 H2 H3 _] Hl He. Qed.

Lemma shape_nused tbl es n : shape tbl -> zlen es = slots tbl -> Forall entry_ok es ->
  shape (set_nused (set_entries tbl es) n).
Proof. by intros [H1 H2 H3 _] Hl He. Qed.

Lemma update_loop_sim id start r : forall fuel tbl pos elem,
  shape tbl -> valid (slots tbl) pos -> e_id elem <> DEDUPTBL_ID_EMPTY ->
  0 <= e_distance elem -> e_distance elem + Z.of_nat fuel <= 2 ^ 31 ->
  g_insert (slots tbl) fuel (abs <$> entries tbl) start id pos (e_id elem, tt, e_distance elem) = Ret r ->
  update_result tbl r (update_loop fuel tbl id start pos elem).
Proof.
  induction fuel as [|fuel IH]; intros tbl pos elem Hw Hp Hk Hd Hdf; [done|].
  pose proof (slots_range _ Hw) as Hcap. pose proof (wf_len _ Hw) as Hlen.
  assert (Hv : valid (slots tbl) (slot (slots tbl) (pos + 1))) by (apply slot_valid; lia).
  assert (He : entry_ok elem) by (unfold entry_ok; lia).
  assert (Ha : abs elem = Some (e_id elem, tt, e_distance elem)).
  { unfold abs. by rewrite (proj2 (id_eqb_false _ _)). }
  cbn [update_loop g_insert]. destruct (ddt_wf_rd tbl pos Hw Hp) as (curr & -> & -> & Hc).
  cbn [mbind outcome_mbind]. rewrite !wr_in by (rewrite Hlen; done). cbn [mbind outcome_mbind].
  destruct (id_eqb (e_id curr) DEDUPTBL_ID_EMPTY) eqn:Ek.
  { assert (abs curr = None) as -> by (unfold abs; by rewrite Ek). intros [= <-].
    eexists. split; [done|]. split_and!.
    - by rewrite zlen_insert.
    - apply Forall_insert; [apply (wf_entries _ Hw)|done].
    - by rewrite list_fmap_insert, Ha. }
  assert (abs curr = Some (e_id curr, tt, e_distance curr)) as -> by (unfold abs; by rewrite Ek).
  apply id_eqb_false in Ek. cbn [fst snd]. case_decide as Hm.
  { rewrite Hm, (proj2 (id_eqb_true _ _)) by done. intros [= <-]. exists (entries tbl).
    split_and!; try done; [by destruct tbl|apply (wf_entries _ Hw)]. }
  rewrite (proj2 (id_eqb_false _ _)) by congruence. unfold entry_ok in *.
  destruct (e_distance curr <? e_distance elem) eqn:Ed; cbn [mbind outcome_mbind fst snd]; zbool.
  - change (TABLE_INDEX (set_entries tbl ?es) ?x) with (TABLE_INDEX tbl x). rewrite ddt_wf_step by done.
    destruct (_ =? start); [by intros [= <-]|]. cbn [negb]. rewrite (uw_small 32) by lia.
    rewrite <- Ha, <- list_fmap_insert. intros Hg.
    apply (update_result_entries tbl (<[Z.to_nat pos := elem]> (entries tbl))).
    apply IH; simpl; try done; try lia.
    apply ddt_shape_entries; [done|by rewrite zlen_insert|]. apply Forall_insert; [apply (wf_entries _ Hw)|done].
  - rewrite ddt_wf_step by done. destruct (_ =? start); [by intros [= <-]|]. cbn [negb].
    rewrite (uw_small 32) by lia. intros Hg. apply IH; simpl; try done; lia.
Qed.

Lemma used_bound tbl s : repr tbl s -> 0 <= nused tbl <= slots tbl.
Proof.
  intros ([Hw _ Hu] & _ & _). pose proof (used_le (abs <$> entries tbl)) as H.
  rewrite ddt_zlen_abs in H by done. lia.
Qed.

(** adding an identifier that is not in a table that has room *)
Lemma update_new ctx s id : repr (table ctx) s -> id <> DEDUPTBL_ID_EMPTY ->
  nused (table ctx) < nmax (table ctx) -> id ∉ s ->
  exists ctx', deduptbl_update ctx id = Ret (ctx', DEDUPTBL_OK) /\ repr (table ctx') ({[id]} ∪ s) /\
    nmax (table ctx') = nmax (table ctx).
Proof.
  intros Hr Hid Hroom Hin. pose proof Hr as ([Hw Hi Hu] & Hn & Hs). pose proof (slots_range _ Hw) as Hcap.
  pose proof (used_bound _ _ Hr). pose proof (wf_nmax _ Hw).
  unfold deduptbl_update. rewrite (proj2 (Z.leb_gt _ _)) by lia. cbv zeta.
  rewrite ddt_wf_index, length_slots by done. set (tbl := table ctx) in *. set (n := slots tbl) in *.
  destruct (g_insert_new n ltac:(lia) u32_0 (abs <$> entries tbl) id tt)
    as (t' & Hg & Hl' & Hi' & Hu' & Hh'); [by apply ddt_zlen_abs|done|lia| |].
  { intros [] Hh%Hs. done. }
  assert (Hsim : update_result tbl (Placed t')
    (update_loop (Z.to_nat n) tbl id (slot n (u32_0 id)) (slot n (u32_0 id)) (Entry 0 id))).
  { apply update_loop_sim; simpl; try done; [apply slot_valid; lia|lia]. }
  destruct Hsim as (es & -> & Hl & Hf & Et). cbn [mbind outcome_mbind].
  eexists. split; [done|]. split; [|done]. split; [split|split]; simpl; rewrite ?Et in *.
  - by apply shape_nused.
  - done.
  - rewrite Hu', <- Hu. apply uw_small. lia.
  - rewrite size_union by set_solver. rewrite size_singleton, uw_small by lia. lia.
  - intros id'. fold n. change (slots (set_nused _ _)) with n. rewrite Hh', <- Hs, elem_of_union, elem_of_singleton.
    tauto.
Qed.

(** adding one that is there *)
Lemma update_old ctx s id : repr (table ctx) s -> id <> DEDUPTBL_ID_EMPTY ->
  nused (table ctx) < nmax (table ctx) -> id ∈ s ->
  exists ctx', deduptbl_update ctx id = Ret (ctx', DEDUPTBL_EEXIST) /\ repr (table ctx') s /\
    nmax (table ctx') = nmax (table ctx).
Proof.
  intros Hr Hid Hroom Hin. pose proof Hr as ([Hw Hi Hu] & Hn & Hs). pose proof (slots_range _ Hw) as Hcap.
  unfold deduptbl_update. rewrite (proj2 (Z.leb_gt _ _)) by lia. cbv zeta.
  rewrite ddt_wf_index, length_slots by done. set (tbl := table ctx) in *. set (n := slots tbl) in *.
  apply Hs in Hin as (p & d & Hp & Ep).
  pose proof (g_insert_old n ltac:(lia) u32_0 (abs <$> entries tbl) id tt p tt d
      (ddt_zlen_abs _ Hw) Hi Hp Ep) as Hg.
  assert (Hsim : update_result tbl (Matched (abs <$> entries tbl) p (id, tt, d))
    (update_loop (Z.to_nat n) tbl id (slot n (u32_0 id)) (slot n (u32_0 id)) (Entry 0 id))).
  { apply update_loop_sim; simpl; try done; [apply slot_valid; lia|lia]. }
  destruct Hsim as (es & -> & Hl & Hf & Et). cbn [mbind outcome_mbind].
  eexists. split; [done|]. split; [|done].
  split; [split|split]; simpl; unfold slots, set_entries in *; simpl in *; rewrite ?Et; try done.
  by apply (ddt_shape_entries tbl).
Qed.

(** ** Creation *)

Lemma log2_loop_spec lg : forall fuel acc, 0 <= lg < Z.of_nat fuel ->
  log2_loop fuel (2 ^ lg) acc = Ret (acc + lg).
Proof.
  destruct (Z_lt_le_dec lg 0) as [|H0]; [lia|]. revert lg H0.
  apply (natlike_ind (fun lg => forall fuel acc, 0 <= lg < Z.of_nat fuel ->
    log2_loop fuel (2 ^ lg) acc = Ret (acc + lg))).
  - intros [|fuel] acc Hf; [lia|]. simpl. by rewrite Z.add_0_r.
  - intros lg Hlg IH [|fuel] acc Hf; [lia|]. cbn [log2_loop].
    rewrite shiftr_div, Z.pow_succ_r by lia. change (2 ^ 1) with 2.
    rewrite Z.mul_comm, Z.div_mul by lia. pose proof (Z.pow_pos_nonneg 2 lg ltac:(lia) Hlg).
    rewrite (proj2 (Z.eqb_neq _ _)) by lia. rewrite IH by lia. f_equal. lia.
Qed.

Lemma ddt_round_up_pow2_eq v : round_up_pow2 v = pow2_up v.
Proof. unfold round_up_pow2, pow2_up. reflexivity. Qed.

Lemma create_spec fd_ok mmap_ok max_entries fd : 0 <= max_entries < 2 ^ 32 ->
  deduptbl_create fd_ok mmap_ok max_entries fd = Ret (None, DEDUPTBL_ETOOBIG) /\
    DEDUPTBL_MAX_ENTRIES < max_entries \/
  deduptbl_create fd_ok mmap_ok max_entries fd = Ret (None, DEDUPTBL_EERRNO) /\
    (0 <= fd /\ fd_ok = false \/ mmap_ok = false) \/
  exists lg, 5 <= lg <= 31 /\ max_entries + max_entries / 6 <= 2 ^ lg /\
    (5 < lg -> 2 ^ lg < 2 * (max_entries + max_entries / 6)) /\
    deduptbl_create fd_ok mmap_ok max_entries fd =
      Ret (Some (Ctx (Table DEDUPTBL_MAGIC max_entries 0 lg (replicate (Z.to_nat (2 ^ lg)) empty_entry))
        (16 + 24 * 2 ^ lg)), 0).
Proof.
  intros Hm. unfold deduptbl_create, DEDUPTBL_MAX_ENTRIES.
  destruct (Z.ltb_spec 0x3fffffff max_entries) as [|Hle]; [by left|right].
  destruct ((0 <=? fd) && negb fd_ok) eqn:Ef.
  { left. split; [done|]. zbool. left. split; [done|]. by destruct fd_ok. }
  destruct mmap_ok; [right|left; split; [done|by right]]. cbn [negb].
  rewrite (uw_small 32) by divmod_lia. set (k := max_entries + max_entries / 6).
  assert (Hk : 0 <= k < 1300000000) by (subst k; divmod_lia).
  destruct (pow2_up_spec (Z.max k 32)) as (lg & Hlg & Hb & E); [unfold UINT32_MAX; lia|].
  rewrite ddt_round_up_pow2_eq, E. clear E.
  assert (5 <= lg <= 31) as Hlg'.
  { split; [apply (Z.pow_le_mono_r_iff 2); lia|].
    assert (lg < 32); [|lia]. apply (Z.pow_lt_mono_r_iff 2); lia. }
  pose proof (Z.pow_le_mono_r 2 lg 31 ltac:(lia) ltac:(lia)).
  rewrite (uw_small 32) by lia. exists lg. split_and!; [lia|lia|lia| |].
  { intros H5. destruct (Z_lt_le_dec 32 k); [lia|].
    pose proof (Z.pow_le_mono_r 2 6 lg ltac:(lia) ltac:(lia)). lia. }
  rewrite (log2_loop_spec lg 64) by lia. cbn [mbind outcome_mbind]. do 4 f_equal.
  unfold sizeof_table, sizeof_entry. apply uw_small. lia.
Qed.

Lemma empty_repr lg m : 0 <= lg <= 31 -> m <= 2 ^ lg ->
  repr (Table DEDUPTBL_MAGIC m 0 lg (replicate (Z.to_nat (2 ^ lg)) empty_entry)) ∅.
Proof.
  intros Hlg Hm. pose proof (pow2_range lg _ Hlg eq_refl).
  assert (E : abs <$> replicate (Z.to_nat (2 ^ lg)) empty_entry = replicate (Z.to_nat (2 ^ lg)) None)
    by (by rewrite fmap_replicate).
  split; [split|split]; simpl; rewrite ?E.
  - split; simpl; [done|unfold slots; simpl; rewrite zlen_replicate; lia|done|].
    apply Forall_replicate. unfold entry_ok. simpl. lia.
  - apply inv_empty. lia.
  - by rewrite used_replicate.
  - done.
  - intros id. split; [set_solver|]. by intros ?%has_empty.
Qed.

(** ** Runs *)

Inductive op : Type := Seen (id : deduptbl_id_t) | Add (id : deduptbl_id_t).

Definition op_id (o : op) : deduptbl_id_t := match o with Seen id | Add id => id end.

Definition exec (ctx : deduptbl_ctx) (o : op) : outcome (deduptbl_ctx * Z) :=
  match o with
  | Seen id => r ← deduptbl_contains ctx id; Ret (ctx, r)
  | Add id => deduptbl_update ctx id
  end.

Fixpoint run (ctx : deduptbl_ctx) (os : list op) : outcome (deduptbl_ctx * list Z) :=
  match os with
  | [] => Ret (ctx, [])
  | o :: os => '(ctx, r) ← exec ctx o; '(ctx, rs) ← run ctx os; Ret (ctx, r :: rs)
  end.

(** what a call does to a set of at most [n] identifiers, and returns *)
Definition spec (n : Z) (s : gset deduptbl_id_t) (o : op) : gset deduptbl_id_t * Z :=
  match o with
  | Seen id => (s, if decide (id ∈ s) then 1 else 0)
  | Add id =>
      if n <=? Z.of_nat (base.size s) then (s, DEDUPTBL_EFULL)
      else if decide (id ∈ s) then (s, DEDUPTBL_EEXIST)
      else ({[id]} ∪ s, DEDUPTBL_OK)
  end.

Fixpoint specs (n : Z) (s : gset deduptbl_id_t) (os : list op) : gset deduptbl_id_t * list Z :=
  match os with
  | [] => (s, [])
  | o :: os => let '(s, r) := spec n s o in let '(s, rs) := specs n s os in (s, r :: rs)
  end.

Lemma ddt_exec_spec ctx s o : repr (table ctx) s -> op_id o <> DEDUPTBL_ID_EMPTY ->
  exists ctx', exec ctx o = Ret (ctx', (spec (nmax (table ctx)) s o).2) /\
    repr (table ctx') (spec (nmax (table ctx)) s o).1 /\ nmax (table ctx') = nmax (table ctx).
Proof.
  intros Hr Hid. destruct o as [id|id]; simpl in *.
  - rewrite (contains_spec ctx s id Hr Hid). by exists ctx.
  - pose proof Hr as (_ & Hn & _). rewrite <- Hn.
    destruct (Z.leb_spec (nmax (table ctx)) (nused (table ctx))) as [Hle|Hlt].
    { exists ctx. split; [|done]. unfold deduptbl_update. by rewrite (proj2 (Z.leb_le _ _)). }
    case_decide as Hin.
    + destruct (update_old ctx s id Hr Hid Hlt Hin) as (ctx' & ? & ? & ?). by exists ctx'.
    + destruct (update_new ctx s id Hr Hid Hlt Hin) as (ctx' & ? & ? & ?). by exists ctx'.
Qed.

Lemma ddt_run_spec os : forall ctx s, repr (table ctx) s -> Forall (fun o => op_id o <> DEDUPTBL_ID_EMPTY) os ->
  exists ctx', run ctx os = Ret (ctx', (specs (nmax (table ctx)) s os).2) /\
    repr (table ctx') (specs (nmax (table ctx)) s os).1.
Proof.
  induction os as [|o os IH]; intros ctx s Hr Hos; [by exists ctx|].
  apply Forall_cons in Hos as [Ho Hos]. cbn [run specs].
  destruct (ddt_exec_spec ctx s o Hr Ho) as (ctx1 & -> & Hr1 & Hn). cbn [mbind outcome_mbind].
  destruct (spec (nmax (table ctx)) s o) as [s1 r]. simpl in *.
  destruct (IH ctx1 s1 Hr1 Hos) as (ctx2 & -> & Hr2). rewrite Hn in *. cbn [mbind outcome_mbind].
  destruct (specs (nmax (table ctx)) s1 os) as [s2 rs]. by exists ctx2.
Qed.

(** ** Properties *)

(** C23: from a freshly created table for [max_entries] identifiers, any
    sequence of lookups and updates with identifiers that are not all zero
    stays in the table's memory, ends in one turn per slot and call, and
    returns what a finite set bounded by [max_entries] returns: full, already
    there, or added. *)
Theorem deduptbl_refines fd_ok mmap_ok max_entries fd ctx os :
  0 <= max_entries < 2 ^ 32 -> deduptbl_create fd_ok mmap_ok max_entries fd = Ret (Some ctx, 0) ->
  Forall (fun o => op_id o <> DEDUPTBL_ID_EMPTY) os ->
  exists ctx', run ctx os = Ret (ctx', (specs max_entries ∅ os).2) /\
    repr (table ctx') (specs max_entries ∅ os).1.
Proof.
  intros Hm Hc Hos.
  destruct (create_spec fd_ok mmap_ok max_entries fd Hm) as [[E _]|[[E _]|(lg & Hlg & Hb & _ & E)]];
    rewrite E in Hc; simplify_eq.
  assert (0 <= max_entries / 6) by divmod_lia.
  match goal with |- context [run ?ctx os] => pose proof (ddt_run_spec os ctx ∅) as H' end.
  apply H'; [|done]. apply empty_repr; lia.
Qed.

Definition demo_id (x : Z) : deduptbl_id_t := [x; 0; 1; 0] ++ replicate 16 0.
Definition demo_ops : list op := [Add (demo_id 1); Add (demo_id 33); Add (demo_id 1); Seen (demo_id 33); Seen (demo_id 5); Add (demo_id 7)].

Lemma deduptbl_refines_witness : exists ctx, deduptbl_create true true 2 (-1) = Ret (Some ctx, 0) /\
  exists ctx', run ctx demo_ops = Ret (ctx', (specs 2 ∅ demo_ops).2) /\
    repr (table ctx') (specs 2 ∅ demo_ops).1.
Proof.
  eexists. split; [reflexivity|].
  refine (deduptbl_refines true true 2 (-1) _ demo_ops _ eq_refl _); [lia|]. by repeat constructor.
Defined.

(** A table written by [deduptbl_create] and mapped back by
    [deduptbl_load] is accepted as it was left unless it has 2^31 slots:
    those tables are refused with [DEDUPTBL_ESIZE], because the size check
    shifts an [int]. *)
Theorem deduptbl_load_created fd_ok mmap_ok max_entries fd ctx tbl :
  0 <= max_entries < 2 ^ 32 -> deduptbl_create fd_ok mmap_ok max_entries fd = Ret (Some ctx, 0) ->
  magic tbl = magic (table ctx) -> cap_log2 tbl = cap_log2 (table ctx) ->
  deduptbl_load true true (File (filesize ctx) (Some tbl)) =
    if cap_log2 tbl =? 31 then (None, DEDUPTBL_ESIZE) else (Some (Ctx tbl (filesize ctx)), 0).
Proof.
  intros Hm Hc Emag Elg.
  destruct (create_spec fd_ok mmap_ok max_entries fd Hm) as [[E _]|[[E _]|(lg & Hlg & _ & _ & E)]];
    rewrite E in Hc; simplify_eq. simpl in *.
  unfold deduptbl_load. simpl. rewrite Emag, Elg. change (DEDUPTBL_MAGIC =? DEDUPTBL_MAGIC) with true. cbn [negb].
  destruct (Z.eqb_spec lg 31) as [->|Hne]; [reflexivity|].
  pose proof (Z.pow_le_mono_r 2 lg 30 ltac:(lia) ltac:(lia)). pose proof (Z.pow_pos_nonneg 2 lg).
  rewrite Z.shiftl_mul_pow2, Z.mul_1_l by lia. rewrite sw_small by lia. unfold sizeof_entry, sizeof_table.
  rewrite (uw_small 64 (2 ^ lg)) by lia. rewrite uw_small by lia.
  rewrite (proj2 (Z.eqb_eq _ _)) by lia. done.
Qed.

Lemma deduptbl_load_created_witness : exists ctx, deduptbl_create true true 2 3 = Ret (Some ctx, 0) /\
  deduptbl_load true true (File (filesize ctx) (Some (table ctx))) =
    if cap_log2 (table ctx) =? 31 then (None, DEDUPTBL_ESIZE) else (Some (Ctx (table ctx) (filesize ctx)), 0).
Proof.
  eexists. split; [reflexivity|].
  refine (deduptbl_load_created true true 2 3 _ (table _) _ eq_refl eq_refl eq_refl). lia.
Defined.

(** The identifier computed for data is never the one that marks an
    empty slot, and that of a vector is that of the data's concatenation. *)
Theorem deduptbl_id_not_empty (sha1 : bytes -> bytes) data vec :
  deduptbl_id sha1 data <> DEDUPTBL_ID_EMPTY /\
  deduptbl_idv sha1 vec = deduptbl_id sha1 (concat vec).
Proof.
  split.
  - unfold deduptbl_id. destruct (id_eqb (sha1 data) DEDUPTBL_ID_EMPTY) eqn:E.
    + apply id_eqb_true in E. rewrite E. done.
    + by apply id_eqb_false in E.
  - assert (E : forall c, foldl (fun c d => c ++ d) c vec = c ++ concat vec).
    { induction vec as [|d vec IH]; intros c; simpl; [by rewrite app_nil_r|]. by rewrite IH, app_assoc. }
    unfold deduptbl_idv. by rewrite E.
Qed.
