(* ===== verification/CLib.v ===== *)
(** * The functions of the C library that the sources call

    Strings are the bytes before the terminator; a function that returns a
    pointer into a string returns the offset. *)

From S2P Require Import Prelude.

(** the sign of [memcmp] on two objects of the same length *)
Fixpoint memcmp (a b : bytes) : Z :=
  match a, b with
  | x :: a, y :: b => if x <? y then -1 else if y <? x then 1 else memcmp a b
  | _, _ => 0
  end.

Definition mem (set : bytes) (c : Z) : bool := existsb (Z.eqb c) set.

(** the longest prefix of bytes that are, and that are not, in [set] *)
Fixpoint strspn (s set : bytes) : nat :=
  match s with
  | c :: s => if mem set c then S (strspn s set) else O
  | [] => O
  end.

Fixpoint strcspn (s set : bytes) : nat :=
  match s with
  | c :: s => if mem set c then O else S (strcspn s set)
  | [] => O
  end.

Fixpoint strchr (s : bytes) (c : Z) : option nat :=
  match s with
  | x :: s => if x =? c then Some O else S <$> strchr s c
  | [] => None
  end.

(** [strcmp] of the string at [off] with [s], against 0 *)
Fixpoint streq_at (m : bytes) (off : Z) (s : bytes) : outcome bool :=
  c ← rd m off;
  match s with
  | [] => Ret (c =? 0)
  | x :: s => if c =? x then streq_at m (off + 1) s else Ret false
  end.

(** the string at [off], up to its terminator *)
Definition cstr_at (m : bytes) (off : Z) : outcome bytes :=
  if off <? 0 then OutOfBounds
  else match strchr (drop (Z.to_nat off) m) 0 with
       | Some n => Ret (take n (drop (Z.to_nat off) m))
       | None => OutOfBounds
       end.

Definition isspace (c : Z) : bool := (c =? 32) || ((9 <=? c) && (c <=? 13)).
Definition isdigit (c : Z) : bool := (48 <=? c) && (c <=? 57).

Fixpoint skip_spaces (s : bytes) : bytes :=
  match s with
  | c :: r => if isspace c then skip_spaces r else s
  | [] => []
  end.

(** the digits at the start, as a number, and what follows them *)
Fixpoint digits (s : bytes) (acc : Z) : Z * bytes :=
  match s with
  | c :: r => if isdigit c then digits r (acc * 10 + (c - 48)) else (acc, s)
  | [] => (acc, [])
  end.

Definition ULONG_MAX : Z := 18446744073709551615.

(** [strtoul(s, &end, 10)]: the value and the string at [end] *)
Definition strtoul (s : bytes) : Z * bytes :=
  let t := skip_spaces s in
  let '(neg, t) :=
    match t with
    | c :: r => if c =? 45 then (true, r) else if c =? 43 then (false, r) else (false, t)
    | [] => (false, t)
    end in
  match t with
  | c :: _ =>
      if isdigit c then
        let '(v, rest) := digits t 0 in
        if ULONG_MAX <? v then (ULONG_MAX, rest)
        else (if neg then u64 (- v) else v, rest)
      else (0, s)
  | [] => (0, s)
  end.

(** ** Big-endian numbers *)

Definition be_val (bs : bytes) : Z := foldl (fun v b => v * 256 + b) 0 bs.

Fixpoint be_bytes (n : nat) (v : Z) : bytes :=
  match n with
  | O => []
  | S n => (v / 256 ^ Z.of_nat n) mod 256 :: be_bytes n (v mod 256 ^ Z.of_nat n)
  end.

Lemma be_val_acc bs : forall v, foldl (fun v b => v * 256 + b) v bs = v * 256 ^ zlen bs + be_val bs.
Proof.
  unfold be_val. induction bs as [|b bs IH]; intros v; [rewrite zlen_nil; simpl; lia|]. cbn [foldl].
  rewrite IH, (IH (0 * 256 + b)). zlen_simpl. pose proof (zlen_nonneg bs).
  rewrite Z.pow_add_r by lia. change (256 ^ 1) with 256. ring.
Qed.

Lemma be_val_cons b bs : be_val (b :: bs) = b * 256 ^ zlen bs + be_val bs.
Proof. unfold be_val at 1. cbn [foldl]. rewrite be_val_acc. lia. Qed.

Lemma be_val_app a b : be_val (a ++ b) = be_val a * 256 ^ zlen b + be_val b.
Proof. unfold be_val at 1. rewrite foldl_app. fold (be_val a). apply be_val_acc. Qed.

Lemma be_val_range bs : Forall is_byte bs -> 0 <= be_val bs < 256 ^ zlen bs.
Proof.
  induction 1 as [|b bs Hb _ IH]; [done|]. rewrite be_val_cons, zlen_cons.
  pose proof (zlen_nonneg bs). rewrite Z.pow_add_r by lia. unfold is_byte in Hb. nia.
Qed.

Lemma be_bytes_length n v : length (be_bytes n v) = n.
Proof. revert v. induction n as [|n IH]; intros v; simpl; [done|]. by rewrite IH. Qed.

Lemma zlen_be_bytes n v : zlen (be_bytes n v) = Z.of_nat n.
Proof. unfold zlen. by rewrite be_bytes_length. Qed.

Lemma be_bytes_byte n v : Forall is_byte (be_bytes n v).
Proof.
  revert v. induction n as [|n IH]; intros v; simpl; constructor; [|done].
  apply Z.mod_pos_bound. lia.
Qed.

Lemma be_val_bytes n v : be_val (be_bytes n v) = v mod 256 ^ Z.of_nat n.
Proof.
  revert v. induction n as [|n IH]; intros v; [by rewrite Z.mod_1_r|].
  cbn [be_bytes]. rewrite be_val_cons, zlen_be_bytes, IH, Z.mod_mod by lia.
  rewrite Nat2Z.inj_succ, Z.pow_succ_r by lia.
  rewrite (Z.mul_comm 256), Z.rem_mul_r by lia. lia.
Qed.

Lemma be_val_inj a b : Forall is_byte a -> Forall is_byte b -> length a = length b ->
  be_val a = be_val b -> a = b.
Proof.
  intros Ha. revert b. induction Ha as [|x a Hx Ha IH]; intros [|y b] Hb Hl Hv; try done.
  inversion_clear Hb as [|? ? Hy Hb']. rewrite !be_val_cons in Hv. simpl in Hl.
  assert (zlen a = zlen b) as El by (unfold zlen; lia). rewrite El in Hv.
  pose proof (be_val_range a Ha) as Ra. pose proof (be_val_range b Hb') as Rb. rewrite El in Ra.
  assert (x = y) as -> by nia. f_equal. apply IH; [done|lia|lia].
Qed.

Lemma be_bytes_val bs : Forall is_byte bs -> be_bytes (length bs) (be_val bs) = bs.
Proof.
  intros Hb. apply be_val_inj; [apply be_bytes_byte|done|by rewrite be_bytes_length|].
  rewrite be_val_bytes. apply Z.mod_small. by apply be_val_range.
Qed.

(** [memcmp] compares big-endian numbers *)
Lemma memcmp_be a b : Forall is_byte a -> Forall is_byte b -> length a = length b ->
  memcmp a b = if be_val a <? be_val b then -1 else if be_val b <? be_val a then 1 else 0.
Proof.
  intros Ha. revert b. induction Ha as [|x a Hx Ha IH]; intros [|y b] Hb Hl; try done.
  inversion_clear Hb as [|? ? Hy Hb']. rewrite !be_val_cons. simpl in Hl.
  assert (zlen a = zlen b) as El by (unfold zlen; lia). rewrite El.
  pose proof (be_val_range a Ha) as Ra. pose proof (be_val_range b Hb') as Rb. rewrite El in Ra.
  cbn [memcmp]. rewrite IH by (done || lia). set (p := 256 ^ zlen b) in *.
  repeat match goal with |- context [?a <? ?b] => destruct (Z.ltb_spec a b) end; try done; nia.
Qed.

(** ** Little-endian words: a [long], a [size_t] or an offset in memory *)

Definition le64 (x : Z) : bytes := reverse (be_bytes 8 x).
Definition le_val (bs : bytes) : Z := be_val (reverse bs).

Lemma le64_bytes x : Forall is_byte (le64 x) /\ zlen (le64 x) = 8.
Proof. split; [unfold le64; rewrite Forall_reverse; apply be_bytes_byte|]. unfold le64, zlen. rewrite length_reverse, be_bytes_length. done. Qed.

Lemma le_val_le64 x : 0 <= x < 2 ^ 64 -> le_val (le64 x) = x.
Proof. intros Hx. unfold le_val, le64. rewrite reverse_involutive, be_val_bytes. by apply Z.mod_small. Qed.

Lemma zlen_concat_le64 xs : zlen (concat (le64 <$> xs)) = zlen xs * 8.
Proof. induction xs as [|x xs IH]; [done|]. cbn [fmap list_fmap concat]. destruct (le64_bytes x) as [_ Hx]. change (list_fmap Z (list Z) le64 xs) with (le64 <$> xs). zlen_simpl. lia. Qed.

(** the [i]th word of an array of them *)
Lemma le64_nth xs (i : nat) x post : xs !! i = Some x -> 0 <= x < 2 ^ 64 ->
  exists w, rds (concat (le64 <$> xs) ++ post) (Z.of_nat i * 8) 8 = Ret w /\ le_val w = x.
Proof.
  intros Hi Hx. exists (le64 x). split; [|by apply le_val_le64]. destruct (le64_bytes x) as [_ Hl].
  pose proof (lookup_lt_Some _ _ _ Hi). pose proof (zlen_concat_le64 xs). pose proof (zlen_nonneg post).
  rewrite rds_in by (zlen_simpl; unfold zlen in *; lia). f_equal.
  rewrite <- (take_drop_middle _ _ _ Hi) at 1. rewrite fmap_app, concat_app, <- app_assoc.
  replace (Z.to_nat (Z.of_nat i * 8)) with (length (concat (le64 <$> take i xs))).
  - rewrite drop_app_length. cbn [fmap list_fmap concat]. rewrite <- app_assoc.
    replace (Z.to_nat 8) with (length (le64 x)) by (unfold zlen in Hl; lia). by rewrite take_app_length.
  - pose proof (zlen_concat_le64 (take i xs)) as E. unfold zlen in E. rewrite length_take in E. lia.
Qed.

(** bitwise operations act on the bytes one by one *)
Lemma field_op (f : Z -> Z -> Z) (g : bool -> bool -> bool) n a b r s :
  (forall x y i, 0 <= i -> Z.testbit (f x y) i = g (Z.testbit x i) (Z.testbit y i)) ->
  0 <= n -> 0 <= r < 2 ^ n -> 0 <= s < 2 ^ n -> 0 <= f r s < 2 ^ n ->
  f (a * 2 ^ n + r) (b * 2 ^ n + s) = f a b * 2 ^ n + f r s.
Proof.
  intros Hf Hn Hr Hs Hfr. apply Z.bits_inj'. intros i Hi. rewrite Hf by done.
  rewrite <- !lor_field by lia. rewrite !Z.lor_spec. destruct (Z_lt_le_dec i n) as [Hlt|Hge].
  - rewrite !Z.mul_pow2_bits_low by lia. simpl. by rewrite Hf.
  - rewrite !Z.mul_pow2_bits by lia. rewrite Hf by lia.
    rewrite <- (Z.mod_small r (2 ^ n)), <- (Z.mod_small s (2 ^ n)), <- (Z.mod_small (f _ _) (2 ^ n)) by (rewrite ?Z.mod_small; lia).
    rewrite !Z.mod_pow2_bits_high by lia. by rewrite !orb_false_r.
Qed.

Lemma land_range n r s : 0 <= n -> 0 <= r < 2 ^ n -> 0 <= Z.land r s < 2 ^ n.
Proof.
  intros Hn Hr. split; [apply Z.land_nonneg; lia|].
  rewrite <- (Z.mod_small r (2 ^ n)) by done. rewrite <- Z.land_ones by lia.
  rewrite <- Z.land_assoc, (Z.land_comm (Z.ones n)), Z.land_assoc, Z.land_ones by lia.
  apply Z.mod_pos_bound. lia.
Qed.

Lemma lor_range n r s : 0 <= n -> 0 <= r < 2 ^ n -> 0 <= s < 2 ^ n -> 0 <= Z.lor r s < 2 ^ n.
Proof.
  intros Hn Hr Hs. split; [apply Z.lor_nonneg; lia|].
  destruct (Z.eq_dec (Z.lor r s) 0) as [->|Hne]; [lia|].
  assert (0 <= Z.lor r s) by (apply Z.lor_nonneg; lia).
  apply Z.log2_lt_pow2; [lia|]. rewrite Z.log2_lor by lia.
  apply Z.max_lub_lt.
  - destruct (Z.eq_dec r 0) as [->|]; [|apply Z.log2_lt_pow2; lia].
    destruct (Z.eq_dec n 0) as [->|]; [|simpl; lia]. assert (s = 0) as -> by lia. done.
  - destruct (Z.eq_dec s 0) as [->|]; [|apply Z.log2_lt_pow2; lia].
    destruct (Z.eq_dec n 0) as [->|]; [|simpl; lia]. assert (r = 0) as -> by lia. done.
Qed.

Lemma pow256 n : 0 <= n -> 256 ^ n = 2 ^ (8 * n).
Proof. intros. rewrite Z.pow_mul_r by lia. done. Qed.

Lemma be_val_land a b : Forall is_byte a -> Forall is_byte b -> length a = length b ->
  be_val (zip_with Z.land a b) = Z.land (be_val a) (be_val b).
Proof.
  intros Ha. revert b. induction Ha as [|x a Hx Ha IH]; intros [|y b] Hb Hl; try done.
  inversion_clear Hb as [|? ? Hy Hb']. cbn [zip_with]. rewrite !be_val_cons. simpl in Hl.
  assert (zlen a = zlen b) as El by (unfold zlen; lia).
  assert (zlen (zip_with Z.land a b) = zlen b) as -> by (unfold zlen; rewrite length_zip_with; lia).
  pose proof (be_val_range a Ha) as Ra. pose proof (be_val_range b Hb') as Rb. rewrite El in *.
  pose proof (zlen_nonneg b). rewrite IH by (done || lia). rewrite pow256 in * by lia.
  symmetry. apply (field_op Z.land andb); try done; try lia; [intros; apply Z.land_spec|].
  apply land_range; lia.
Qed.

Lemma be_val_lor a b : Forall is_byte a -> Forall is_byte b -> length a = length b ->
  be_val (zip_with Z.lor a b) = Z.lor (be_val a) (be_val b).
Proof.
  intros Ha. revert b. induction Ha as [|x a Hx Ha IH]; intros [|y b] Hb Hl; try done.
  inversion_clear Hb as [|? ? Hy Hb']. cbn [zip_with]. rewrite !be_val_cons. simpl in Hl.
  assert (zlen a = zlen b) as El by (unfold zlen; lia).
  assert (zlen (zip_with Z.lor a b) = zlen b) as -> by (unfold zlen; rewrite length_zip_with; lia).
  pose proof (be_val_range a Ha) as Ra. pose proof (be_val_range b Hb') as Rb. rewrite El in *.
  pose proof (zlen_nonneg b). rewrite IH by (done || lia). rewrite pow256 in * by lia.
  symmetry. apply (field_op Z.lor orb); try done; try lia; [intros; apply Z.lor_spec|].
  apply lor_range; lia.
Qed.

(** ** [memmove] of the [rest] of an array over the elements before it *)
Lemma memmove_back {A} (pre junk rest tail : list A) :
  exists old, length old = length junk /\ (forall P : A -> Prop, Forall P (junk ++ rest) -> Forall P old) /\
    (src ← rds (pre ++ junk ++ rest ++ tail) (zlen pre + zlen junk) (zlen rest);
     wrs (pre ++ junk ++ rest ++ tail) (zlen pre) src) = Ret (pre ++ rest ++ old ++ tail).
Proof.
  exists (drop (length rest) (junk ++ rest)). split; [rewrite length_drop, length_app; lia|].
  split; [intros P; apply Forall_drop|].
  pose proof (zlen_nonneg pre). pose proof (zlen_nonneg junk). pose proof (zlen_nonneg rest). pose proof (zlen_nonneg tail).
  rewrite rds_in by (zlen_simpl; lia). cbn [mbind outcome_mbind].
  replace (Z.to_nat (zlen pre + zlen junk)) with (length (pre ++ junk)) by (unfold zlen; rewrite length_app; lia).
  assert (E : drop (length (pre ++ junk)) (pre ++ junk ++ rest ++ tail) = rest ++ tail)
    by (rewrite (app_assoc pre); apply drop_app_length).
  rewrite E.
  replace (Z.to_nat (zlen rest)) with (length rest) by (unfold zlen; lia). rewrite take_app_length.
  rewrite wrs_in by (zlen_simpl; lia).
  replace (Z.to_nat (zlen pre)) with (length pre) by (unfold zlen; lia). rewrite take_app_length.
  rewrite drop_app_add. rewrite (app_assoc junk). rewrite (drop_app_le (junk ++ rest)) by (rewrite length_app; lia). done.
Qed.

(** [strcmp] on strings without terminators inside *)
Lemma streq_ret m s : forall off t, cstr_at m off = Ret t -> Forall (fun c => c <> 0) s -> Forall (fun c => c <> 0) t ->
  streq_at m off s = Ret (bool_decide (t = s)).
Proof.
  induction s as [|x s IH]; intros off t Ht Hs Hnz; unfold cstr_at in Ht; destruct (Z.ltb_spec off 0); try done;
    destruct (drop (Z.to_nat off) m) as [|c l] eqn:Ed; try done; cbn [strchr] in Ht;
    (assert (Hc : rd m off = Ret c) by (apply rd_ret; split; [done|]; rewrite <- (Nat.add_0_r (Z.to_nat off)), <- lookup_drop, Ed; done));
    cbn [streq_at]; rewrite Hc; cbn [mbind outcome_mbind].
  - destruct (Z.eqb_spec c 0) as [->|Hc0].
    + injection Ht as <-. done.
    + destruct (strchr l 0); [|done]. injection Ht as <-. by rewrite bool_decide_false.
  - apply Forall_cons in Hs as [Hx Hs]. destruct (Z.eqb_spec c 0) as [->|Hc0].
    + injection Ht as <-. rewrite (proj2 (Z.eqb_neq 0 x)) by congruence. by rewrite bool_decide_false.
    + destruct (strchr l 0) as [j|] eqn:Ej; [|done]. injection Ht as <-. cbn [take].
      destruct (Z.eqb_spec c x) as [->|Hcx]; [|by rewrite bool_decide_false by congruence].
      apply Forall_cons in Hnz as [_ Hnz]. rewrite (IH (off + 1) (take j l)); [| |done|done].
      * f_equal. apply bool_decide_ext. split; [by intros ->|by intros [= ->]].
      * unfold cstr_at. rewrite (proj2 (Z.ltb_ge _ 0)) by lia. replace (Z.to_nat (off + 1)) with (Z.to_nat off + 1)%nat by lia.
        rewrite <- drop_drop, Ed. change (drop 1 (x :: l)) with (drop 0 l). by rewrite drop_0, Ej.
Qed.

(** the string behind [pre] in memory *)
Lemma cstr_at_mid pre s post : Forall (fun c => c <> 0) s -> cstr_at (pre ++ s ++ 0 :: post) (zlen pre) = Ret s.
Proof.
  intros Hs. unfold cstr_at. rewrite (proj2 (Z.ltb_ge _ _)) by apply zlen_nonneg. unfold zlen. rewrite Nat2Z.id, drop_app_length.
  assert (E : strchr (s ++ 0 :: post) 0 = Some (length s)).
  { induction s as [|c s IH]; [done|]. apply Forall_cons in Hs as [Hc Hs]. cbn [strchr app]. rewrite (proj2 (Z.eqb_neq c 0)) by done.
    rewrite IH by done. done. }
  by rewrite E, take_app_length.
Qed.

Lemma streq_at_mid pre s post t : Forall (fun c => c <> 0) s -> Forall (fun c => c <> 0) t ->
  streq_at (pre ++ s ++ 0 :: post) (zlen pre) t = Ret (bool_decide (s = t)).
Proof. intros Hs Ht. apply streq_ret; [by apply cstr_at_mid|done|done]. Qed.

Lemma strchr_spec s n : strchr s 0 = Some n -> s !! n = Some 0 /\ forall k c, (k < n)%nat -> s !! k = Some c -> c <> 0.
Proof.
  revert n. induction s as [|x s IH]; intros n E; [done|]. cbn [strchr] in E. destruct (Z.eqb_spec x 0) as [->|Hx].
  - injection E as <-. split; [done|]. lia.
  - destruct (strchr s 0) as [n'|] eqn:E'; [|done]. injection E as <-. destruct (IH n' eq_refl) as [H1 H2]. split; [done|]. intros [|k] c Hk Hc; [by injection Hc as <-|].
    apply (H2 k c); [lia|done].
Qed.

Lemma cstr_at_spec m p s : cstr_at m p = Ret s -> 0 <= p /\ m !! Z.to_nat (p + zlen s) = Some 0 /\
  forall k c, s !! k = Some c -> c <> 0 /\ m !! Z.to_nat (p + Z.of_nat k) = Some c.
Proof.
  unfold cstr_at. destruct (Z.ltb_spec p 0); [done|]. destruct (strchr _ 0) as [n|] eqn:E; [|done]. intros [= <-]. destruct (strchr_spec _ _ E) as [H1 H2].
  assert (Hl : zlen (take n (drop (Z.to_nat p) m)) = Z.of_nat n) by (apply lookup_lt_Some in H1; unfold zlen; rewrite length_take; lia).
  split; [done|]. rewrite Hl. rewrite lookup_drop in H1. split; [by replace (Z.to_nat (p + Z.of_nat n)) with (Z.to_nat p + n)%nat by lia|].
  intros k c Hk. apply lookup_take_Some in Hk as [Hk Hkn]. split; [by apply (H2 k c)|]. rewrite lookup_drop in Hk. by replace (Z.to_nat (p + Z.of_nat k)) with (Z.to_nat p + k)%nat by lia.
Qed.
