(* ===== verification/Csv.v ===== *)
(** * Rows of comma-separated values (src/lib/util/csv.c, src/lib/util/csv.h)

    A [FILE] is the bytes it still holds, whether its end is an error, and its
    error indicator; [ungetc] puts one byte back.  The columns of a row are
    the strings at the offsets stored in the buffer [cols]. *)

From S2P Require Import Prelude CLib Buf.
#[local] Abbreviation contents := Buf.contents.

Definition QUOTE : Z := 34.
Definition COMMA : Z := 44.
Definition CR : Z := 13.
Definition LF : Z := 10.
Definition EOF : Z := -1.

Record FILE := File { rest : bytes; broken : bool; error : bool }.

Definition fgetc (f : FILE) : Z * FILE :=
  match rest f with
  | c :: r => (c, File r (broken f) (error f))
  | [] => (EOF, File [] (broken f) (error f || broken f))
  end.

Definition ungetc (ch : Z) (f : FILE) : FILE := File (ch :: rest f) (broken f) (error f).
Definition ferror (f : FILE) : bool := error f.

Record csv_reader := Reader { data : buf_t; cols : buf_t }.

Definition csv_reader_nelems (r : csv_reader) : Z := len (cols r) / 8.

(** the offset of the column's string in [data] *)
Definition csv_reader_elem (r : csv_reader) (i : Z) : outcome (option Z) :=
  if csv_reader_nelems r <=? i then Ret None
  else off ← rds (Buf.data (cols r)) (i * 8) 8; Ret (Some (le_val off)).

Section Csv.
Context (alloc_ok : Z -> bool).

Fixpoint escape_loop (buf : buf_t) (s : bytes) : outcome (buf_t * Z) :=
  match s with
  | [] =>
      '(buf, ret) ← buf_achar alloc_ok buf QUOTE;
      if ret <? 0 then Ret (buf, -1) else Ret (buf, 0)
  | c :: s =>
      if c =? QUOTE then
        '(buf, ret) ← buf_adata alloc_ok buf [QUOTE; QUOTE];
        if ret <? 0 then Ret (buf, -1) else escape_loop buf s
      else '(buf, _) ← buf_achar alloc_ok buf c; escape_loop buf s
  end.

Definition csv_encode_escaped (buf : buf_t) (s : bytes) : outcome (buf_t * Z) :=
  '(buf, ret) ← buf_achar alloc_ok buf QUOTE;
  if ret <? 0 then Ret (buf, -1) else escape_loop buf s.

(** a column is a string or [NULL] *)
Definition encode_col (dst : buf_t) (col : option bytes) : outcome (buf_t * Z) :=
  match col with
  | None | Some [] => Ret (dst, 0)
  | Some s =>
      let off := strcspn s [CR; LF; QUOTE; COMMA] in
      if cchar s (Z.of_nat off) =? 0 then
        '(dst, ret) ← buf_adata alloc_ok dst (take off s);
        if ret <? 0 then Ret (dst, -1) else Ret (dst, 0)
      else
        '(dst, ret) ← csv_encode_escaped dst s;
        if ret <? 0 then Ret (dst, -1) else Ret (dst, 0)
  end.

Fixpoint encode_loop (dst : buf_t) (i : Z) (cs : list (option bytes)) : outcome (buf_t * Z) :=
  match cs with
  | [] => Ret (dst, 0)
  | c :: cs =>
      '(dst, ret) ← (if i =? 0 then Ret (dst, 0) else buf_achar alloc_ok dst COMMA);
      if ret <? 0 then Ret (dst, -1)
      else
        '(dst, ret) ← encode_col dst c;
        if ret <? 0 then Ret (dst, -1) else encode_loop dst (i + 1) cs
  end.

Definition csv_encode (dst : buf_t) (cs : list (option bytes)) : outcome (buf_t * Z) :=
  '(dst, ret) ← encode_loop dst 0 cs;
  if ret <? 0 then Ret (dst, -1)
  else if 0 <? zlen cs then
    '(dst, ret) ← buf_adata alloc_ok dst [CR; LF];
    if ret <? 0 then Ret (dst, -1) else Ret (dst, 0)
  else Ret (dst, 0).

Definition csv_reader_init : option csv_reader :=
  match buf_init alloc_ok 4096 with
  | None => None
  | Some d => match buf_init alloc_ok 512 with None => None | Some c => Some (Reader d c) end
  end.

Definition csv_reader_cleanup (r : csv_reader) : csv_reader :=
  Reader (buf_cleanup (data r)) (buf_cleanup (cols r)).

(** [buf_achar(&r->data, ch)], the result ignored *)
Definition add_char (r : csv_reader) (ch : Z) : outcome csv_reader :=
  '(d, _) ← buf_achar alloc_ok (data r) ch; Ret (Reader d (cols r)).

(** the end of a column that starts at [off] *)
Definition end_col (r : csv_reader) (off : Z) : outcome csv_reader :=
  r ← add_char r 0;
  '(c, _) ← buf_adata alloc_ok (cols r) (le64 off); Ret (Reader (data r) c).

(** the character after a carriage return is dropped when it is a line feed *)
Definition after_cr (f : FILE) : FILE :=
  let '(ch, f) := fgetc f in
  if negb (ch =? LF) && negb (ch =? EOF) then ungetc ch f else f.

Fixpoint escaped_loop (n : nat) (r : csv_reader) (f : FILE) (off : Z) : outcome (csv_reader * FILE * Z) :=
  match n with
  | O => OutOfFuel
  | S n =>
      let '(ch, f) := fgetc f in
      if ch =? EOF then r ← end_col r off; Ret (r, f, 0)
      else if ch =? QUOTE then
        let '(ch, f) := fgetc f in
        if ch =? COMMA then r ← end_col r off; Ret (r, f, 1)
        else if ch =? CR then r ← end_col r off; Ret (r, after_cr f, 0)
        else if (ch =? LF) || (ch =? EOF) then r ← end_col r off; Ret (r, f, 0)
        else r ← add_char r ch; escaped_loop n r f off
      else r ← add_char r ch; escaped_loop n r f off
  end.

Definition read_escaped (r : csv_reader) (f : FILE) : outcome (csv_reader * FILE * Z) :=
  escaped_loop (S (length (rest f))) r f (len (data r)).

Fixpoint unescaped_loop (n : nat) (r : csv_reader) (f : FILE) (off : Z) : outcome (csv_reader * FILE * Z) :=
  match n with
  | O => OutOfFuel
  | S n =>
      let '(ch, f) := fgetc f in
      if ch =? CR then r ← end_col r off; Ret (r, after_cr f, 0)
      else if (ch =? EOF) || (ch =? LF) then r ← end_col r off; Ret (r, f, 0)
      else if ch =? COMMA then r ← end_col r off; Ret (r, f, 1)
      else r ← add_char r ch; unescaped_loop n r f off
  end.

Definition read_unescaped (r : csv_reader) (f : FILE) : outcome (csv_reader * FILE * Z) :=
  unescaped_loop (S (length (rest f))) r f (len (data r)).

Definition read_empty (r : csv_reader) : outcome csv_reader := end_col r (len (data r)).

Fixpoint row_loop (n : nat) (r : csv_reader) (f : FILE) (lastsep : Z) : outcome (csv_reader * FILE) :=
  match n with
  | O => OutOfFuel
  | S n =>
      let '(ch, f) := fgetc f in
      if (ch =? CR) || (ch =? LF) || (ch =? EOF) then
        let f := if ch =? CR then after_cr f else f in
        r ← (if lastsep =? 0 then Ret r else read_empty r);
        Ret (r, f)
      else if ch =? QUOTE then
        '(r, f, cont) ← read_escaped r f;
        if cont =? 0 then Ret (r, f) else row_loop n r f cont
      else if ch =? COMMA then r ← read_empty r; row_loop n r f 1
      else
        '(r, f, cont) ← read_unescaped r (ungetc ch f);
        if cont =? 0 then Ret (r, f) else row_loop n r f cont
  end.

Definition csv_read_row (r : csv_reader) (f : FILE) : outcome (csv_reader * FILE * Z) :=
  let r := Reader (buf_clear (data r)) (buf_clear (cols r)) in
  '(r, f) ← row_loop (S (length (rest f))) r f 0;
  Ret (r, f, if ferror f then -1 else 0).

End Csv.

(** ** What the loops read *)

(** a byte that ends or quotes a column *)
Definition special (c : Z) : bool := mem [CR; LF; QUOTE; COMMA] c.

Definition drop_lf (s : bytes) : bytes :=
  match s with c :: r => if c =? LF then r else s | [] => [] end.

(** the column, whether another one follows, and what is left *)
Fixpoint unescaped_spec (s : bytes) : bytes * Z * bytes :=
  match s with
  | [] => ([], 0, [])
  | c :: s =>
      if c =? CR then ([], 0, drop_lf s)
      else if c =? LF then ([], 0, s)
      else if c =? COMMA then ([], 1, s)
      else let '(col, cont, r) := unescaped_spec s in (c :: col, cont, r)
  end.

Fixpoint escaped_spec (s : bytes) : bytes * Z * bytes :=
  match s with
  | [] => ([], 0, [])
  | c :: s =>
      if c =? QUOTE then
        match s with
        | [] => ([], 0, [])
        | d :: s =>
            if d =? COMMA then ([], 1, s)
            else if d =? CR then ([], 0, drop_lf s)
            else if d =? LF then ([], 0, s)
            else let '(col, cont, r) := escaped_spec s in (d :: col, cont, r)
        end
      else let '(col, cont, r) := escaped_spec s in (c :: col, cont, r)
  end.

Section Facts.
Context (alloc_ok : Z -> bool) (K : Z).

(** room for [n] more characters and as many columns *)
Record room (n : nat) (r : csv_reader) : Prop := Room {
  room_data : fits K (data r);
  room_cols : fits K (cols r);
  room_chars : 2 * (len (data r) + Z.of_nat n) + 16 <= K;
  room_offs : 2 * (len (cols r) + 8 * Z.of_nat n) + 16 <= K;
}.

(** with memory, the characters and the offsets read so far *)
Definition holds (r : csv_reader) (D : bytes) (C : list Z) : Prop :=
  contents (data r) = D /\ contents (cols r) = concat (le64 <$> C).

Definition memory : Prop := forall n, alloc_ok n = true.

Lemma fits_len b : fits K b -> zlen (contents b) = len b.
Proof. intros (H & _ & _). by apply contents_length. Qed.

Lemma holds_len n r D C : room n r -> holds r D C -> len (data r) = zlen D.
Proof. intros Hr [<- _]. symmetry. apply fits_len. apply Hr. Qed.

Lemma add_char_spec n r ch : room (S n) r -> exists r', add_char alloc_ok r ch = Ret r' /\ room n r' /\ len (cols r') = len (cols r) /\
  len (data r') <= len (data r) + 1 /\
  (memory -> forall D C, holds r D C -> holds r' (D ++ [u8 ch]) C).
Proof.
  intros [Hd Hc H1 H2]. unfold add_char.
  destruct (buf_achar_fits alloc_ok K (data r) ch Hd) as (d & ret & E & Hf & Hr); [lia|].
  rewrite E. cbn [mbind outcome_mbind]. eexists. split; [done|]. cbn [data cols].
  assert (Hl : len d <= len (data r) + 1).
  { rewrite <- (fits_len d Hf), <- (fits_len (data r) Hd). destruct Hr as [[_ ->]|[_ ->]]; zlen_simpl; lia. }
  split_and!; [constructor; cbn [data cols]; done || lia|done|done|].
  intros Hm D C [<- HC]. split; [|done]. cbn [data]. apply buf_achar_ok in E; [|done]. destruct Hr as [[_ Hr]|[? _]]; [done|lia].
Qed.

Lemma end_col_spec n r off : room (S n) r -> 0 <= off < 2 ^ 64 -> exists r', end_col alloc_ok r off = Ret r' /\ room n r' /\
  (memory -> forall D C, holds r D C -> holds r' (D ++ [0]) (C ++ [off])).
Proof.
  intros Hr Ho. unfold end_col. destruct (add_char_spec n r 0 Hr) as (r1 & -> & H1 & Hc1 & Hl1 & M1). cbn [mbind outcome_mbind].
  destruct (le64_bytes off) as [Hb Hl]. destruct H1 as [Hd Hc _ _]. destruct Hr as [_ _ H3 H4].
  destruct (buf_adata_fits alloc_ok K (cols r1) (le64 off) Hc Hb) as (c & ret & E & Hf & Hr'); [lia|].
  rewrite E. cbn [mbind outcome_mbind]. eexists. split; [done|]. split.
  - constructor; cbn [data cols]; try done; try lia. rewrite <- (fits_len c Hf).
    destruct Hr' as [[_ ->]|[_ ->]]; zlen_simpl; rewrite ?Hl, (fits_len _ Hc); lia.
  - intros Hm D C H. destruct (M1 Hm _ _ H) as [HD HC]. split; cbn [data cols]; [done|].
    apply buf_adata_ok in E; [|done]. destruct Hr' as [[_ Hr']|[? _]]; [|lia].
    rewrite Hr', HC, fmap_app, concat_app. cbn [fmap list_fmap concat]. by rewrite app_nil_r.
Qed.

Lemma room_le m n r : (m <= n)%nat -> room n r -> room m r.
Proof. intros ? [? ? ? ?]. constructor; done || lia. Qed.

(** a stream whose end is no error *)
Definition sound (f : FILE) : Prop := broken f = false /\ error f = false.

Definition is_bytes (f : FILE) : Prop := Forall is_byte (rest f).

(** what a loop leaves when it stops: the number tells whether a column follows *)
Definition stops (f : FILE) (res : bytes * Z * bytes) (off : Z) (r r' : csv_reader) (f' : FILE) (cont : Z) : Prop :=
  (room 0 r' /\ is_bytes f' /\ res = (res.1.1, cont, rest f') /\ (sound f -> sound f')) /\
  (cont = 0 \/ cont = 1 /\ (length (rest f') < length (rest f))%nat /\ room (S (length (rest f'))) r') /\
  (memory -> forall D C, holds r D C -> holds r' (D ++ res.1.1 ++ [0]) (C ++ [off])).

Lemma stops_now f r off f' cont rs : room (S (length (rest f))) r -> 0 <= off < 2 ^ 64 -> is_bytes f' ->
  cont = 0 \/ cont = 1 /\ (length (rest f') < length (rest f))%nat -> (sound f -> sound f') -> rest f' = rs ->
  exists r', end_col alloc_ok r off = Ret r' /\ stops f ([], cont, rs) off r r' f' cont.
Proof.
  intros Hr Ho Hb Hc Hs <-. destruct (end_col_spec _ r off Hr Ho) as (r' & E & Hr' & M). exists r'. split; [done|].
  split; [split; [|done]; apply (room_le 0 (length (rest f))); [lia|done]|]. split.
  - destruct Hc as [Hc|[Hc Hl]]; [by left|right]. do 2 (split; [done|]). by apply (room_le _ (length (rest f))); [lia|].
  - intros Hm D C H. by apply M.
Qed.

Lemma stops_step f c f1 res off r r1 r' f' cont : is_byte c -> (length (rest f1) < length (rest f))%nat -> (sound f -> sound f1) ->
  (memory -> forall D C, holds r D C -> holds r1 (D ++ [u8 c]) C) ->
  stops f1 res off r1 r' f' cont -> stops f (let '(col, k, rs) := res in (c :: col, k, rs)) off r r' f' cont.
Proof.
  intros Hc Hl Hs M ((H0 & H1 & H2 & H3) & H4 & H5). destruct res as [[col k] rs]. cbn [fst snd] in *. injection H2 as -> ->.
  split; [split_and!; auto|]. split.
  - destruct H4 as [|(? & ? & ?)]; [by left|right]. split; [done|]. split; [lia|done].
  - intros Hm D C H. pose proof (H5 Hm _ _ (M Hm _ _ H)) as E. rewrite uw_small in E by exact Hc. by rewrite <- app_assoc in E.
Qed.

Lemma after_cr_spec f : is_bytes f ->
  rest (after_cr f) = drop_lf (rest f) /\ is_bytes (after_cr f) /\ (sound f -> sound (after_cr f)).
Proof.
  unfold is_bytes. destruct f as [[|c s] b e]; unfold after_cr, fgetc; cbn [rest]; intros Hb.
  - split_and!; [done|done|]. intros (? & ?). cbn [broken error] in *. by subst.
  - pose proof Hb as [Hc Hs]%Forall_cons. cbn [drop_lf]. unfold is_byte, LF, EOF in *.
    rewrite (proj2 (Z.eqb_neq c (-1))) by lia. rewrite andb_true_r. by destruct (c =? 10).
Qed.

Lemma sound_nil f : sound f -> sound (File [] (broken f) (error f || broken f)).
Proof. intros (H1 & H2). unfold sound. cbn. by rewrite H1, H2. Qed.

(** a loop on a column, on every stream of bytes *)
Definition reads (loop : nat -> csv_reader -> FILE -> Z -> outcome (csv_reader * FILE * Z)) (spec : bytes -> bytes * Z * bytes) : Prop :=
  forall n r f off, is_bytes f -> (length (rest f) < n)%nat -> room (S (length (rest f))) r -> 0 <= off < 2 ^ 64 ->
  exists r' f' cont, loop n r f off = Ret (r', f', cont) /\ stops f (spec (rest f)) off r r' f' cont.

(** the loop stops here, with [f'] left of the stream *)
Ltac stops_here f' :=
  match goal with
  | E0 : rest ?f = _ |- exists r' g' cont, mbind _ (end_col _ ?r ?off) = _ /\ stops ?f (_, ?c, ?rs) _ _ _ _ _ =>
      let r1 := fresh "r1" in let E := fresh "E" in let H := fresh "H" in
      destruct (stops_now f r off f' c rs) as (r1 & E & H);
        [done|done| | | | |rewrite E; exists r1, f', c; split; [done|exact H]];
        [try tauto; by constructor|rewrite E0; try unfold f'; cbn [length rest]; first [by left|right; split; [done|lia]]|
         try tauto; try apply sound_nil; done|tauto || done]
  end.

Lemma unescaped_loop_spec : reads (unescaped_loop alloc_ok) unescaped_spec.
Proof.
  intros n. induction n as [|n IH]; intros r f off Hb Hn Hr Ho; [lia|]. cbn [unescaped_loop]. unfold fgetc at 1. unfold is_bytes in Hb.
  pose proof Hr as Hr0. destruct (rest f) as [|c s] eqn:Ef; rewrite <- Ef in Hr0.
  - cbn [unescaped_spec]. change (EOF =? CR) with false. change ((EOF =? EOF) || _) with true. cbn iota.
    stops_here (File [] (broken f) (error f || broken f)).
  - apply Forall_cons in Hb as [Hc Hb]. cbn [length] in *. set (f1 := File s (broken f) (error f)).
    pose proof (after_cr_spec f1 Hb) as Ha.
    cbn [unescaped_spec]. rewrite (proj2 (Z.eqb_neq c EOF)) by (unfold is_byte, EOF in *; lia). cbn [orb].
    destruct (c =? CR); [stops_here (after_cr f1)|]. destruct (c =? LF); [stops_here f1|]. destruct (c =? COMMA); [stops_here f1|].
    destruct (add_char_spec (S (length s)) r c Hr) as (r1 & -> & Hr1 & _ & _ & M). cbn [mbind outcome_mbind].
    destruct (IH r1 f1 off) as (r' & f' & cont & -> & H); [done|cbn; lia|done|done|].
    do 3 eexists. split; [done|]. eapply (stops_step f c f1); [exact Hc| |done|exact M|exact H]. rewrite Ef. cbn. lia.
Qed.

Lemma escaped_loop_spec : reads (escaped_loop alloc_ok) escaped_spec.
Proof.
  intros n. induction n as [|n IH]; intros r f off Hb Hn Hr Ho; [lia|]. cbn [escaped_loop]. unfold fgetc at 1. unfold is_bytes in Hb.
  pose proof Hr as Hr0. destruct (rest f) as [|c s] eqn:Ef; rewrite <- Ef in Hr0.
  - cbn [escaped_spec]. change (EOF =? EOF) with true. cbn iota. stops_here (File [] (broken f) (error f || broken f)).
  - apply Forall_cons in Hb as [Hc Hb]. cbn [length] in *. set (f1 := File s (broken f) (error f)).
    cbn [escaped_spec]. rewrite (proj2 (Z.eqb_neq c EOF)) by (unfold is_byte, EOF in *; lia). destruct (c =? QUOTE).
    + unfold fgetc. cbn [rest f1 broken error]. destruct s as [|d s].
      * change (EOF =? COMMA) with false. change (EOF =? CR) with false. change ((EOF =? LF) || _) with true. cbn iota.
        stops_here (File [] (broken f) (error f || broken f)).
      * apply Forall_cons in Hb as [Hd Hb]. cbn [length] in *. set (f2 := File s (broken f) (error f)).
        pose proof (after_cr_spec f2 Hb) as Ha. rewrite (proj2 (Z.eqb_neq d EOF)), orb_false_r by (unfold is_byte, EOF in *; lia).
        destruct (d =? COMMA); [stops_here f2|]. destruct (d =? CR); [stops_here (after_cr f2)|]. destruct (d =? LF); [stops_here f2|].
        destruct (add_char_spec (S (length s)) r d) as (r1 & -> & Hr1 & _ & _ & M); [by apply (room_le _ (S (S (S (length s))))); [lia|]|].
        cbn [mbind outcome_mbind]. destruct (IH r1 f2 off) as (r' & f' & cont & -> & H); [done|cbn; lia|done|done|].
        do 3 eexists. split; [done|]. eapply (stops_step f d f2); [exact Hd| |done|exact M|exact H]. rewrite Ef. cbn. lia.
    + destruct (add_char_spec (S (length s)) r c Hr) as (r1 & -> & Hr1 & _ & _ & M). cbn [mbind outcome_mbind].
      destruct (IH r1 f1 off) as (r' & f' & cont & -> & H); [done|cbn; lia|done|done|].
      do 3 eexists. split; [done|]. eapply (stops_step f c f1); [exact Hc| |done|exact M|exact H]. rewrite Ef. cbn. lia.
Qed.

(** ** Rows *)

(** the columns of a row and what is left of the stream *)
Inductive row : Z -> bytes -> list bytes -> bytes -> Prop :=
  | row_end lastsep : row lastsep [] (if lastsep =? 0 then [] else [[]]) []
  | row_lf lastsep s : row lastsep (LF :: s) (if lastsep =? 0 then [] else [[]]) s
  | row_cr lastsep s : row lastsep (CR :: s) (if lastsep =? 0 then [] else [[]]) (drop_lf s)
  | row_empty lastsep s cs rs : row 1 s cs rs -> row lastsep (COMMA :: s) ([] :: cs) rs
  | row_escaped lastsep s col rs : escaped_spec s = (col, 0, rs) -> row lastsep (QUOTE :: s) [col] rs
  | row_escaped_more lastsep s col s' cs rs : escaped_spec s = (col, 1, s') -> row 1 s' cs rs -> row lastsep (QUOTE :: s) (col :: cs) rs
  | row_unescaped lastsep c s col rs : special c = false -> unescaped_spec (c :: s) = (col, 0, rs) -> row lastsep (c :: s) [col] rs
  | row_unescaped_more lastsep c s col s' cs rs : special c = false -> unescaped_spec (c :: s) = (col, 1, s') -> row 1 s' cs rs ->
      row lastsep (c :: s) (col :: cs) rs.

(** the offsets of columns stored behind one another from [off] on *)
Fixpoint offsets (off : Z) (cs : list bytes) : list Z :=
  match cs with [] => [] | c :: cs => off :: offsets (off + zlen c + 1) cs end.

Definition stored (cs : list bytes) : bytes := concat ((fun c => c ++ [0]) <$> cs).

Lemma stored_cons c cs : stored (c :: cs) = c ++ 0 :: stored cs.
Proof. unfold stored. cbn [fmap list_fmap concat]. by rewrite <- app_assoc. Qed.

(** a row is read off every stream, and with memory it is the row of the grammar *)
Definition row_read (f : FILE) (lastsep : Z) (r r' : csv_reader) (f' : FILE) : Prop :=
  (room 0 r' /\ is_bytes f' /\ (sound f -> sound f')) /\ exists cs, row lastsep (rest f) cs (rest f') /\
    (memory -> forall D C, holds r D C -> holds r' (D ++ stored cs) (C ++ offsets (zlen D) cs)).

Lemma room_off n r : room n r -> 0 <= len (data r) < 2 ^ 64.
Proof. intros [([? _ _ _] & ? & ?) _ ? _]. lia. Qed.

(** a column, and the columns behind it *)
Lemma row_read_col f f1 ls col r r1 r' f' : room 0 r -> (sound f -> sound f1) ->
  (memory -> forall D C, holds r D C -> holds r1 (D ++ col ++ [0]) (C ++ [len (data r)])) ->
  (forall cs, row 1 (rest f1) cs (rest f') -> row ls (rest f) (col :: cs) (rest f')) ->
  row_read f1 1 r1 r' f' -> row_read f ls r r' f'.
Proof.
  intros Hr Hs M1 Hrow ((H1 & H2 & H3) & cs & Hcs & M2). split; [by split_and!; auto|]. exists (col :: cs). split; [by apply Hrow|].
  intros Hm D C H. pose proof (M2 Hm _ _ (M1 Hm _ _ H)) as E.
  rewrite (holds_len _ _ _ _ Hr H) in E. rewrite stored_cons. cbn [offsets]. rewrite <- !app_assoc in E. cbn [app] in E.
  by replace (zlen D + zlen col + 1) with (zlen (D ++ col ++ [0])) by (zlen_simpl; lia).
Qed.

(** the last column *)
Lemma row_read_last f f1 ls col r r1 : room 0 r -> room 0 r1 -> is_bytes f1 -> (sound f -> sound f1) ->
  (memory -> forall D C, holds r D C -> holds r1 (D ++ col ++ [0]) (C ++ [len (data r)])) ->
  row ls (rest f) [col] (rest f1) -> row_read f ls r r1 f1.
Proof.
  intros Hr Hr1 Hb Hs M Hrow. split; [done|]. exists [col]. split; [done|]. intros Hm D C H. pose proof (M Hm _ _ H) as E.
  rewrite (holds_len _ _ _ _ Hr H) in E. rewrite stored_cons. done.
Qed.

(** the end of the row, where a separator leaves an empty column behind *)
Lemma row_ends f ls r f1 : room 1 r -> is_bytes f1 -> (sound f -> sound f1) ->
  row ls (rest f) (if ls =? 0 then [] else [[]]) (rest f1) ->
  exists r', (r ← (if ls =? 0 then Ret r else read_empty alloc_ok r); Ret (r, f1)) = Ret (r', f1) /\ row_read f ls r r' f1.
Proof.
  intros Hr Hb Hs Hrow. assert (Hr0 : room 0 r) by (by apply (room_le 0 1); [lia|]). destruct (ls =? 0) eqn:E.
  - exists r. split; [done|]. split; [done|]. exists []. split; [done|]. intros _ D C H. unfold stored. cbn. by rewrite !app_nil_r.
  - unfold read_empty. destruct (end_col_spec 0 r (len (data r)) Hr) as (r1 & -> & Hr1 & M); [by apply (room_off 0)|].
    exists r1. split; [done|]. by apply (row_read_last f f1 ls []).
Qed.

Lemma row_loop_spec n : forall r f ls, is_bytes f -> (length (rest f) < n)%nat -> room (S (length (rest f))) r ->
  exists r' f', row_loop alloc_ok n r f ls = Ret (r', f') /\ row_read f ls r r' f'.
Proof.
  induction n as [|n IH]; intros r f ls Hb Hn Hr; [lia|]. cbn [row_loop]. unfold fgetc at 1. pose proof Hb as Hb0. unfold is_bytes in Hb.
  assert (Hr0 : room 0 r) by (by eapply room_le; [|exact Hr]; lia).
  assert (Hr1 : room 1 r) by (by eapply room_le; [|exact Hr]; lia).
  pose proof (room_off _ _ Hr0) as Ho. destruct (rest f) as [|c s] eqn:Ef.
  - change ((EOF =? CR) || (EOF =? LF) || (EOF =? EOF)) with true. change (EOF =? CR) with false. cbn iota.
    destruct (row_ends f ls r (File [] (broken f) (error f || broken f))) as (r' & E & H); [done|constructor|apply sound_nil|rewrite Ef; constructor|].
    exists r', (File [] (broken f) (error f || broken f)). by split.
  - pose proof Hb as [Hc Hs]%Forall_cons. cbn [length] in *. set (f1 := File s (broken f) (error f)).
    assert (Hb1 : is_bytes f1) by exact Hs. destruct (after_cr_spec f1 Hb1) as (Ha & Hab & Has).
    rewrite (proj2 (Z.eqb_neq c EOF)), orb_false_r by (unfold is_byte, EOF in *; lia).
    destruct (Z.eqb_spec c CR) as [->|Hcr]; [|destruct (Z.eqb_spec c LF) as [->|Hlf]]; cbn [orb].
    + destruct (row_ends f ls r (after_cr f1)) as (r' & E & H); [done|done|done|rewrite Ef, Ha; constructor|]. exists r', (after_cr f1). by split.
    + destruct (row_ends f ls r f1) as (r' & E & H); [done|done|done|rewrite Ef; constructor|]. exists r', f1. by split.
    + destruct (Z.eqb_spec c QUOTE) as [->|Hq]; [|destruct (Z.eqb_spec c COMMA) as [->|Hco]].
      * unfold read_escaped. destruct (escaped_loop_spec (S (length (rest f1))) r f1 (len (data r)) Hb1 (Nat.lt_succ_diag_r _)) as (r2 & f2 & k & -> & (H1 & H2 & H3 & H4) & Hk & M);
          [by apply (room_le _ (S (S (length s)))); [cbn; lia|]|done|]. cbn [mbind outcome_mbind]. cbn [rest f1] in *.
        destruct Hk as [->|(-> & Hl & Hr2)].
        -- exists r2, f2. split; [done|]. eapply (row_read_last f f2); [done|done|done|auto|exact M|]. rewrite Ef. by apply row_escaped.
        -- destruct (IH r2 f2 1 H2) as (r' & f' & -> & H); [lia|done|]. exists r', f'. split; [done|].
           eapply (row_read_col f f2); [done|auto|exact M| |done]. intros cs Hcs. rewrite Ef. by eapply row_escaped_more.
      * unfold read_empty. destruct (end_col_spec (S (length s)) r (len (data r)) Hr Ho) as (r2 & -> & Hr2 & M). cbn [mbind outcome_mbind].
        destruct (IH r2 f1 1 Hb1) as (r' & f' & -> & H); [cbn; lia|done|]. exists r', f'. split; [done|].
        eapply (row_read_col f f1 ls []); [done|auto|exact M| |done]. intros cs Hcs. rewrite Ef. by apply row_empty.
      * assert (Hsp : special c = false).
        { unfold special, mem. cbn [existsb]. rewrite !(proj2 (Z.eqb_neq c _)) by done. done. }
        unfold read_unescaped. change (ungetc c f1) with (File (c :: s) (broken f) (error f)). set (f3 := File (c :: s) _ _).
        destruct (unescaped_loop_spec (S (length (rest f3))) r f3 (len (data r))) as (r2 & f2 & k & -> & (H1 & H2 & H3 & H4) & Hk & M); [done|lia|done|done|].
        cbn [mbind outcome_mbind]. cbn [rest f3] in *. destruct Hk as [->|(-> & Hl & Hr2)].
        -- exists r2, f2. split; [done|]. eapply (row_read_last f f2); [done|done|done|auto|exact M|]. rewrite Ef. by apply row_unescaped.
        -- destruct (IH r2 f2 1 H2) as (r' & f' & -> & H); [cbn in Hl; lia|done|]. exists r', f'. split; [done|].
           eapply (row_read_col f f2); [done|auto|exact M| |done]. intros cs Hcs. rewrite Ef. by eapply row_unescaped_more.
Qed.

End Facts.

(** ** What is written *)

(** a column of [NULL] is an empty one *)
Definition text (c : option bytes) : bytes := match c with Some s => s | None => [] end.

Fixpoint doubled (s : bytes) : bytes :=
  match s with
  | [] => []
  | c :: s => if c =? QUOTE then QUOTE :: QUOTE :: doubled s else c :: doubled s
  end.

Definition field (s : bytes) : bytes :=
  if existsb special s then QUOTE :: doubled s ++ [QUOTE] else s.

Fixpoint fields (cs : list bytes) : bytes :=
  match cs with
  | [] => []
  | [c] => field c
  | c :: cs => field c ++ COMMA :: fields cs
  end.

Definition line (cs : list bytes) : bytes := match cs with [] => [] | _ => fields cs ++ [CR; LF] end.

Lemma doubled_bytes s : Forall is_byte s -> Forall is_byte (doubled s).
Proof. induction 1 as [|c s Hc _ IH]; [constructor|]. cbn [doubled]. destruct (c =? QUOTE); repeat (constructor; [done || by cbv|]); exact IH. Qed.

Lemma field_bytes s : Forall is_byte s -> Forall is_byte (field s).
Proof.
  intros Hs. unfold field. destruct (existsb special s); [|done]. constructor; [by cbv|]. apply Forall_app. split; [by apply doubled_bytes|].
  repeat constructor; by cbv.
Qed.

Lemma fields_bytes cs : Forall (Forall is_byte) cs -> Forall is_byte (fields cs).
Proof.
  induction 1 as [|c cs Hc Hcs IH]; [constructor|]. cbn [fields]. destruct cs; [by apply field_bytes|]. apply Forall_app. split; [by apply field_bytes|].
  apply Forall_cons. split; [by cbv|exact IH].
Qed.

(** the grammar reads back what is written *)
Lemma unescaped_plain s cont rs t : existsb special s = false -> unescaped_spec t = ([], cont, rs) -> unescaped_spec (s ++ t) = (s, cont, rs).
Proof.
  intros Hs Ht. induction s as [|c s IH]; [done|]. cbn [existsb] in Hs. apply orb_false_elim in Hs as [Hc Hs]. cbn [app unescaped_spec].
  unfold special, mem in Hc. cbn [existsb] in Hc. repeat (apply orb_false_elim in Hc as [? Hc]).
  repeat match goal with H : (c =? _) = false |- _ => rewrite H; clear H end. by rewrite IH.
Qed.

Lemma escaped_doubled s t cont rs : (forall c t', t = c :: t' -> c = COMMA \/ c = CR) -> escaped_spec (QUOTE :: t) = ([], cont, rs) -> escaped_spec (doubled s ++ QUOTE :: t) = (s, cont, rs).
Proof.
  intros Hsep Ht. induction s as [|c s IH]; [done|]. cbn [doubled]. destruct (Z.eqb_spec c QUOTE) as [->|Hc]; cbn [app].
  - cbn [escaped_spec]. change (QUOTE =? QUOTE) with true. change (QUOTE =? COMMA) with false. change (QUOTE =? CR) with false. change (QUOTE =? LF) with false. cbn iota.
    by rewrite IH.
  - assert (E : escaped_spec (c :: doubled s ++ QUOTE :: t) = let '(col, k, r) := escaped_spec (doubled s ++ QUOTE :: t) in (c :: col, k, r)).
    { cbn [escaped_spec]. by rewrite (proj2 (Z.eqb_neq c QUOTE)). }
    by rewrite E, IH.
Qed.

(** a field at the start of what is left *)
Lemma row_field ls s sep t cs rs cont rest' : s <> [] ->
  unescaped_spec (sep :: t) = ([], cont, rest') -> escaped_spec (QUOTE :: sep :: t) = ([], cont, rest') -> sep = COMMA \/ sep = CR ->
  (cont = 0 /\ cs = [] /\ rs = rest') \/ (cont = 1 /\ row 1 rest' cs rs) ->
  row ls (field s ++ sep :: t) (s :: cs) rs.
Proof.
  intros Hne Hu He Hsep Hc. unfold field. destruct (existsb special s) eqn:Es.
  - assert (E : escaped_spec (doubled s ++ QUOTE :: sep :: t) = (s, cont, rest')) by (apply escaped_doubled; [intros c t' [= -> _]; done|done]).
    cbn [app]. rewrite <- app_assoc. destruct Hc as [(-> & -> & ->)|[-> Hr]]; [by apply row_escaped|by eapply row_escaped_more].
  - pose proof (unescaped_plain s cont rest' (sep :: t) Es Hu) as E. destruct s as [|c s]; [done|]. cbn [existsb] in Es. apply orb_false_elim in Es as [Ec _].
    cbn [app] in *. destruct Hc as [(-> & -> & ->)|[-> Hr]]; [by apply row_unescaped|by eapply row_unescaped_more].
Qed.

Lemma row_line ls cs more : cs <> [] -> ls = 1 \/ cs <> [[]] -> row ls (line cs ++ more) cs more.
Proof.
  intros Hne. assert (E : line cs ++ more = fields cs ++ CR :: LF :: more) by (destruct cs; [done|]; unfold line; by rewrite <- app_assoc).
  rewrite E. clear E. revert ls. induction cs as [|c cs IH]; [done|]. intros ls Hls. destruct cs as [|c' cs].
  - cbn [fields]. destruct c as [|x c]; [|by eapply row_field; auto]. destruct Hls as [->|?]; [|done]. apply (row_cr 1 (LF :: more)).
  - assert (IH' : row 1 (fields (c' :: cs) ++ CR :: LF :: more) (c' :: cs) more) by (apply IH; auto).
    change (fields (c :: c' :: cs)) with (field c ++ COMMA :: fields (c' :: cs)). rewrite <- app_assoc. cbn [app].
    destruct c as [|x c]; [by apply row_empty|]. by eapply row_field; auto.
Qed.

Section Writes.
Context (alloc_ok : Z -> bool) (K : Z) (Halloc : forall n, alloc_ok n = true).

(** [s] is put behind what is in [b], which has room for it *)
Definition puts (b : buf_t) (res : outcome (buf_t * Z)) (s : bytes) : Prop :=
  fits K b -> 2 * (len b + zlen s) + 16 <= K ->
  exists b', res = Ret (b', 0) /\ fits K b' /\ contents b' = contents b ++ s.

Lemma puts_nothing b : puts b (Ret (b, 0)) [].
Proof. intros Hf _. exists b. by rewrite app_nil_r. Qed.

Lemma puts_char b c : is_byte c -> puts b (buf_achar alloc_ok b c) [c].
Proof.
  intros Hc Hf Hr. change (zlen [c]) with 1 in Hr. destruct (buf_achar_fits alloc_ok K b c Hf Hr) as (b' & r & E & Hf' & H).
  pose proof (buf_achar_ok alloc_ok Halloc _ _ _ _ E) as ->. destruct H as [[_ H]|[? _]]; [|done].
  rewrite uw_small in H by exact Hc. by exists b'.
Qed.

Lemma puts_data b s : Forall is_byte s -> puts b (buf_adata alloc_ok b s) s.
Proof. intros Hs Hf Hr. by apply buf_adata_all. Qed.

Lemma puts_bind b res k s1 s2 : puts b res s1 -> (forall b', puts b' (k (b', 0)) s2) -> puts b (res ≫= k) (s1 ++ s2).
Proof.
  intros H1 H2 Hf Hr. pose proof (zlen_nonneg s2). rewrite zlen_app in Hr. destruct H1 as (b1 & -> & Hf1 & E1); [done|lia|]. cbn [mbind outcome_mbind].
  destruct (H2 b1 Hf1) as (b2 & -> & Hf2 & E2).
  - rewrite <- (contents_length b1), E1, zlen_app, contents_length by apply Hf || apply Hf1. lia.
  - exists b2. split; [done|]. split; [done|]. by rewrite E2, E1, app_assoc.
Qed.

Lemma escape_loop_puts s : Forall is_byte s -> forall b, puts b (escape_loop alloc_ok b s) (doubled s ++ [QUOTE]).
Proof.
  induction 1 as [|c s Hc _ IH]; intros b; cbn [escape_loop doubled].
  - rewrite app_nil_l, <- (app_nil_r [QUOTE]). eapply puts_bind; [by apply puts_char|]. intros b'. apply puts_nothing.
  - destruct (c =? QUOTE).
    + apply (puts_bind _ _ _ [QUOTE; QUOTE]); [apply puts_data; repeat constructor; by cbv|]. intros b'. apply IH.
    + apply (puts_bind _ _ _ [c]); [by apply puts_char|]. intros b'. apply IH.
Qed.

Lemma encode_col_puts b c : Forall (fun x => x <> 0 /\ is_byte x) (text c) -> puts b (encode_col alloc_ok b c) (field (text c)).
Proof.
  intros Hc. destruct c as [s|]; [|apply puts_nothing]. cbn [text] in *. destruct s as [|x s]; [apply puts_nothing|]. unfold encode_col, field.
  set (s' := x :: s) in *. assert (Hb : Forall is_byte s') by (eapply Forall_impl; [exact Hc|]; by intros ? [? ?]).
  assert (E : cchar s' (Z.of_nat (strcspn s' [CR; LF; QUOTE; COMMA])) =? 0 = negb (existsb special s') /\
    (existsb special s' = false -> take (strcspn s' [CR; LF; QUOTE; COMMA]) s' = s')).
  { clearbody s'. clear Hb x s. unfold cchar. rewrite Nat2Z.id. induction Hc as [|x s [Hx _] _ [IH1 IH2]]; [done|]. cbn [strcspn existsb]. fold (special x).
    destruct (special x); cbn [nth orb]; [by rewrite (proj2 (Z.eqb_neq x 0))|]. split; [done|]. intros Hs. cbn [take]. by rewrite IH2. }
  destruct E as [E1 E2]. rewrite E1. destruct (existsb special s') eqn:Es; cbn [negb].
  - rewrite <- (app_nil_r (QUOTE :: _)). eapply puts_bind; [|intros b'; apply puts_nothing]. unfold csv_encode_escaped.
    apply (puts_bind _ _ _ [QUOTE]); [by apply puts_char|]. intros b'. by apply escape_loop_puts.
  - rewrite E2 by done. rewrite <- (app_nil_r s') at 2. eapply puts_bind; [by apply puts_data|]. intros b'. apply puts_nothing.
Qed.

Lemma encode_loop_puts cs : Forall (fun c => Forall (fun x => x <> 0 /\ is_byte x) (text c)) cs -> forall b i, 0 <= i ->
  puts b (encode_loop alloc_ok b i cs) ((if (i =? 0) || (zlen cs =? 0) then [] else [COMMA]) ++ fields (text <$> cs)).
Proof.
  induction 1 as [|c cs Hc Hcs IH]; intros b i Hi; cbn [encode_loop]; [rewrite orb_true_r; apply puts_nothing|].
  rewrite (proj2 (Z.eqb_neq (zlen (c :: cs)) 0)), orb_false_r by (zlen_simpl; pose proof (zlen_nonneg cs); lia).
  assert (E : fields (text <$> c :: cs) = field (text c) ++ (if (i + 1 =? 0) || (zlen cs =? 0) then [] else [COMMA]) ++ fields (text <$> cs)).
  { rewrite (proj2 (Z.eqb_neq (i + 1) 0)) by lia. destruct cs; [by rewrite app_nil_r|done]. }
  rewrite E. apply puts_bind.
  - destruct (i =? 0); [apply puts_nothing|by apply puts_char].
  - intros b1. cbn beta iota. change (0 <? 0) with false. cbn iota. apply puts_bind; [by apply encode_col_puts|]. intros b2. apply IH. lia.
Qed.

Lemma csv_encode_puts cs b : Forall (fun c => Forall (fun x => x <> 0 /\ is_byte x) (text c)) cs -> puts b (csv_encode alloc_ok b cs) (line (text <$> cs)).
Proof.
  intros Hcs. unfold csv_encode. assert (E : line (text <$> cs) = fields (text <$> cs) ++ (if 0 <? zlen cs then [CR; LF] else [])) by (by destruct cs).
  rewrite E. apply puts_bind; [by apply (encode_loop_puts cs Hcs b 0)|]. intros b1. cbn beta iota. change (0 <? 0) with false. cbn iota.
  destruct (0 <? zlen cs); [|apply puts_nothing]. rewrite <- (app_nil_r [CR; LF]). eapply puts_bind; [|intros b2; apply puts_nothing].
  apply puts_data. repeat constructor; by cbv.
Qed.

End Writes.

(** ** The columns of a reader *)

Lemma contents_data b : exists post, Buf.data b = contents b ++ post.
Proof. exists (drop (Z.to_nat (len b)) (Buf.data b)). unfold Buf.contents. by rewrite take_drop. Qed.

Lemma offsets_nth cs : forall D i c, cs !! i = Some c ->
  exists off pre post, offsets (zlen D) cs !! i = Some off /\ D ++ stored cs = pre ++ c ++ 0 :: post /\ off = zlen pre.
Proof.
  induction cs as [|c cs IH]; intros D [|i] c' Hi; try done; rewrite stored_cons; cbn [offsets].
  - injection Hi as <-. by exists (zlen D), D, (stored cs).
  - destruct (IH (D ++ c ++ [0]) i c' Hi) as (off & pre & post & E1 & E2 & E3). exists off, pre, post. cbn [lookup list_lookup].
    replace (zlen D + zlen c + 1) with (zlen (D ++ c ++ [0])) by (zlen_simpl; lia). split; [done|]. split; [|done]. rewrite <- E2, <- !app_assoc. done.
Qed.

Lemma length_offsets cs off : length (offsets off cs) = length cs.
Proof. revert off. induction cs as [|c cs IH]; intros off; [done|]. cbn [offsets length]. by rewrite IH. Qed.

(** the columns of [r] are the strings [cs] *)
Definition has_columns (r : csv_reader) (cs : list bytes) : Prop :=
  csv_reader_nelems r = zlen cs /\
  forall i c, cs !! i = Some c -> exists off, csv_reader_elem r (Z.of_nat i) = Ret (Some off) /\ cstr_at (Buf.data (data r)) off = Ret c.

Lemma holds_columns K r cs : room K 0 r -> holds r (stored cs) (offsets 0 cs) -> Forall (Forall (fun x => x <> 0)) cs -> has_columns r cs.
Proof.
  intros Hr [HD HC] Hcs. assert (Hn : csv_reader_nelems r = zlen cs).
  { unfold csv_reader_nelems. destruct Hr as [_ Hc _ _]. rewrite <- (fits_len K _ Hc), HC, zlen_concat_le64. unfold zlen at 1. rewrite length_offsets. fold (zlen cs). by apply Z.div_mul. }
  split; [done|]. intros i c Hi. destruct (offsets_nth cs [] i c Hi) as (off & pre & post & E1 & E2 & E3).
  pose proof (lookup_lt_Some _ _ _ Hi). unfold csv_reader_elem. rewrite Hn, (proj2 (Z.leb_gt _ _)) by (unfold zlen; lia).
  destruct (contents_data (cols r)) as [p1 ->]. destruct (contents_data (data r)) as [p2 ->]. rewrite HC, HD.
  destruct (le64_nth (offsets 0 cs) i off p1 E1) as (w & -> & Ew).
  { subst off. pose proof (zlen_nonneg pre). destruct Hr as [Hd _ Hlen _]. rewrite <- (fits_len K _ Hd), HD in Hlen.
    change ([] ++ stored cs) with (stored cs) in E2. rewrite E2 in Hlen. zlen_simpl. destruct Hd as (_ & _ & ?). pose proof (zlen_nonneg c). pose proof (zlen_nonneg post). lia. }
  cbn [mbind outcome_mbind]. exists off. split; [by rewrite Ew|]. change ([] ++ stored cs) with (stored cs) in E2. rewrite E2, <- !app_assoc, E3. cbn [app].
  apply cstr_at_mid. by eapply Forall_lookup_1 in Hcs; [|exact Hi].
Qed.

Ltac not_special := match goal with H : special _ = false |- _ => by vm_compute in H end.

Lemma row_unique ls s cs rs : row ls s cs rs -> forall cs' rs', row ls s cs' rs' -> cs' = cs /\ rs' = rs.
Proof.
  induction 1; intros cs' rs' H'; inversion H'; subst; try done; try not_special; try congruence;
    repeat match goal with H1 : ?f ?s = _, H2 : ?f ?s = _ |- _ => rewrite H1 in H2; simplify_eq end; try done;
    match goal with IH : forall _ _, row _ _ _ _ -> _, H : row _ _ _ _ |- _ => by destruct (IH _ _ H) as [-> ->] end.
Qed.

(** the columns of a row are short, whatever its end *)
Section Reader.
Context (alloc_ok : Z -> bool) (K : Z).

Definition reader_ok (r : csv_reader) : Prop := fits K (data r) /\ fits K (cols r).

(** A row can be read off every stream of bytes, whether memory is there
    or not: the reader returns, stays inside its buffers, and has consumed
    exactly a row of the grammar; with memory its columns are those of the
    row. *)
Lemma csv_read_row_row r f : reader_ok r -> is_bytes f -> 16 * zlen (rest f) + 32 <= K ->
  exists r' f' ret cs, csv_read_row alloc_ok r f = Ret (r', f', ret) /\ reader_ok r' /\ is_bytes f' /\ (sound f -> sound f' /\ ret = 0) /\
    row 0 (rest f) cs (rest f') /\ (memory alloc_ok -> Forall (Forall (fun x => x <> 0)) cs -> has_columns r' cs).
Proof.
  intros [Hd Hc] Hb HK. unfold csv_read_row. destruct (clear_fits K _ Hd) as [Hd' Ed]. destruct (clear_fits K _ Hc) as [Hc' Ec].
  destruct (row_loop_spec alloc_ok K (S (length (rest f))) (Reader (buf_clear (data r)) (buf_clear (cols r))) f 0)
    as (r' & f' & -> & (Hr & Hb' & Hs) & cs & Hrow & M); [done|lia|constructor; cbn; unfold zlen in *; done || lia|].
  cbn [mbind outcome_mbind]. exists r', f', (if ferror f' then -1 else 0), cs. split; [done|]. split; [split; apply Hr|]. split; [done|].
  split; [intros H; destruct (Hs H) as [H1 H2]; split; [done|]; unfold ferror; by rewrite H2|]. split; [done|].
  intros Hm Hcs. eapply holds_columns; [exact Hr| |done]. by apply (M Hm [] []).
Qed.

End Reader.

(** C10: a row of columns that is written with [csv_encode] is read back by
    [csv_read_row]: every column is the string that was written ([NULL] reads
    as the empty string), whatever characters it has, and the stream is left
    after the row.  The one exception is the row of a single empty column,
    which is written as an empty line and reads back as no columns. *)
Theorem csv_roundtrip alloc_ok K b cs : memory alloc_ok -> fits K b ->
  Forall (fun c => Forall (fun x => x <> 0 /\ is_byte x) (text c)) cs -> cs <> [] -> text <$> cs <> [[]] ->
  2 * (len b + zlen (line (text <$> cs))) + 16 <= K ->
  exists b' out, csv_encode alloc_ok b cs = Ret (b', 0) /\ fits K b' /\ contents b' = contents b ++ out /\
    forall r f more, reader_ok K r -> rest f = out ++ more -> is_bytes f -> sound f -> 16 * zlen (rest f) + 32 <= K ->
      exists r' f', csv_read_row alloc_ok r f = Ret (r', f', 0) /\ rest f' = more /\ has_columns r' (text <$> cs).
Proof.
  intros Hm Hf Hcs Hne Hne' HK. destruct (csv_encode_puts alloc_ok K Hm cs b Hcs Hf HK) as (b' & E & Hf' & Hc).
  exists b', (line (text <$> cs)). do 3 (split; [done|]). intros r f more Hr Ef Hb Hs HK'.
  destruct (csv_read_row_row alloc_ok K r f Hr Hb HK') as (r' & f' & ret & cs' & E' & _ & _ & Hs' & Hrow & Hcols).
  destruct (Hs' Hs) as [_ ->]. exists r', f'. split; [done|]. rewrite Ef in Hrow.
  destruct (row_unique _ _ _ _ (row_line 0 (text <$> cs) more ltac:(by destruct cs) (or_intror Hne')) _ _ Hrow) as [-> ->].
  split; [done|]. apply Hcols; [done|]. apply Forall_fmap. eapply Forall_impl; [exact Hcs|]. intros c Hc'. cbn. eapply Forall_impl; [exact Hc'|]. by intros ? [? _].
Qed.

(** ** On concrete rows *)

Definition new_reader (alloc_ok : Z -> bool) : csv_reader :=
  match csv_reader_init alloc_ok with Some r => r | None => Reader (Buf 0 0 []) (Buf 0 0 []) end.

(** the columns of the row that [csv_encode] writes, read back *)
Definition written_and_read (alloc_ok : Z -> bool) (cs : list (option bytes)) : outcome (Z * list bytes) :=
  '(b, _) ← csv_encode alloc_ok (Buf 0 0 []) cs;
  '(r, _, ret) ← csv_read_row alloc_ok (new_reader alloc_ok) (File (contents b) false false);
  Ret (ret, (fun i => match csv_reader_elem r i with Ret (Some off) => match cstr_at (Buf.data (data r)) off with Ret s => s | _ => [] end | _ => [] end) <$>
    seqZ 0 (csv_reader_nelems r)).

Definition samples : list (option bytes) :=
  [Some (lit "name"); None; Some [97; QUOTE; COMMA; CR; LF; QUOTE]; Some []; Some [200; 32]].

Example samples_back : written_and_read (fun _ => true) samples = Ret (0, text <$> samples).
Proof. by vm_compute. Qed.

(** a row of one empty column is an empty line, and reads back as no columns *)
Theorem csv_single_empty : forall c, c = None \/ c = Some [] -> written_and_read (fun _ => true) [c] = Ret (0, []).
Proof. by intros c [->| ->]; vm_compute. Qed.

(** when memory runs out the reader reports success, but columns are missing *)
Theorem csv_read_row_drops_columns :
  let alloc_ok n := (n =? 4096) || (n =? 512) in
  exists r f, csv_read_row alloc_ok (new_reader alloc_ok) (File (replicate 70 COMMA ++ [CR; LF]) false false) = Ret (r, f, 0) /\ csv_reader_nelems r = 64.
Proof. intros alloc_ok. do 2 eexists. split; [vm_compute; reflexivity|by vm_compute]. Qed.

Lemma empty_fits K : 0 <= K < 2 ^ 61 -> fits K (Buf 0 0 []).
Proof. intros H. split; [constructor; cbn; done || (exists 0; done)|]. cbn. lia. Qed.

Lemma csv_roundtrip_witness : exists b' out, csv_encode (fun _ => true) (Buf 0 0 []) samples = Ret (b', 0) /\ fits 4096 b' /\ contents b' = contents (Buf 0 0 []) ++ out /\
  forall r f more, reader_ok 4096 r -> rest f = out ++ more -> is_bytes f -> sound f -> 16 * zlen (rest f) + 32 <= 4096 ->
    exists r' f', csv_read_row (fun _ => true) r f = Ret (r', f', 0) /\ rest f' = more /\ has_columns r' (text <$> samples).
Proof.
  apply (csv_roundtrip (fun _ => true) 4096 (Buf 0 0 []) samples); [done|by apply empty_fits| |done|done|by vm_compute].
  repeat constructor; by cbv.
Defined.
