(* ===== verification/Segments.v ===== *)
(** * Paths that are rewritten where they are

    A path in memory is what has been written so far, bytes that are no longer
    needed, and what has not been read yet.  Reading and writing move the two
    borders.  The segments of a path are what its slashes separate. *)

From S2P Require Import Prelude.

Definition SLASH : Z := 47.
Definition DOT : Z := 46.

(** ** The memory *)

(** [o] is written, [t] is unread *)
Definition split_at (m o j t : bytes) (w r : Z) : Prop := m = o ++ j ++ t /\ w = zlen o /\ r = zlen o + zlen j.

Lemma split_at_bounds m o j t w r : split_at m o j t w r -> 0 <= w <= r /\ r + zlen t = zlen m.
Proof. intros (-> & -> & ->). zlen_simpl. pose proof (zlen_nonneg o). pose proof (zlen_nonneg j). lia. Qed.

(** the [i]th unread byte *)
Lemma rd_unread m o j t w r i : split_at m o j t w r -> 0 <= i -> rd m (r + i) = rd t i.
Proof.
  intros (-> & -> & ->) Hi. unfold rd. pose proof (zlen_nonneg o). pose proof (zlen_nonneg j). rewrite !(proj2 (Z.ltb_ge _ 0)) by lia.
  replace (Z.to_nat (zlen o + zlen j + i)) with (length o + (length j + Z.to_nat i))%nat by (unfold zlen; lia).
  rewrite !lookup_app_r by lia. by replace (length o + (length j + Z.to_nat i) - length o - length j)%nat with (Z.to_nat i) by lia.
Qed.

Lemma rd_head m o j x t w r : split_at m o j (x :: t) w r -> rd m r = Ret x.
Proof. intros H. rewrite <- (Z.add_0_r r). by rewrite (rd_unread _ _ _ _ _ _ 0 H). Qed.

Lemma read_on m o j x t w r : split_at m o j (x :: t) w r -> split_at m o (j ++ [x]) t w (r + 1).
Proof. intros (-> & -> & ->). split; [by rewrite <- app_assoc|]. split; [done|zlen_simpl; lia]. Qed.

Lemma read_many m o j s t w r : split_at m o j (s ++ t) w r -> split_at m o (j ++ s) t w (r + zlen s).
Proof. intros (-> & -> & ->). split; [by rewrite <- app_assoc|]. split; [done|zlen_simpl; lia]. Qed.

(** a byte over one that is no longer needed *)
Lemma write_over m o j x t w r c : split_at m o (x :: j) t w r ->
  exists m', wr m w c = Ret m' /\ split_at m' (o ++ [c]) j t (w + 1) r.
Proof.
  intros (-> & -> & ->). pose proof (zlen_nonneg o). pose proof (zlen_nonneg (j ++ t)). eexists. split; [apply wr_in; zlen_simpl; lia|].
  split; [|split; zlen_simpl; lia]. unfold zlen. rewrite Nat2Z.id. cbn [app]. rewrite insert_app_r_alt, Nat.sub_diag by lia. cbn. by rewrite <- app_assoc.
Qed.

(** the next unread byte is copied *)
Lemma copy_byte m o j x t w r : split_at m o j (x :: t) w r ->
  exists m' j', wr m w x = Ret m' /\ split_at m' (o ++ [x]) j' t (w + 1) (r + 1) /\ length j' = length j.
Proof.
  intros H. apply read_on in H. destruct j as [|y j].
  - destruct (write_over m o [] x t w (r + 1) x H) as (m' & E & H'). by exists m', [].
  - destruct (write_over m o (j ++ [x]) y t w (r + 1) x H) as (m' & E & H'). exists m', (j ++ [x]). split; [done|]. split; [done|]. rewrite length_app. cbn. lia.
Qed.

(** the next unread byte is changed *)
Lemma change_head m o j x t w r c : split_at m o j (x :: t) w r -> exists m', wr m r c = Ret m' /\ split_at m' o j (c :: t) w r.
Proof.
  intros (-> & -> & ->). pose proof (zlen_nonneg o). pose proof (zlen_nonneg j). pose proof (zlen_nonneg t). eexists. split; [apply wr_in; zlen_simpl; lia|].
  split; [|done]. replace (Z.to_nat (zlen o + zlen j)) with (length o + length j)%nat by (unfold zlen; lia).
  rewrite insert_app_r, <- (Nat.add_0_r (length j)), insert_app_r. done.
Qed.

(** bytes that were written are given up *)
Lemma unwrite m o1 o2 j t w r : split_at m (o1 ++ o2) j t w r -> split_at m o1 (o2 ++ j) t (zlen o1) r.
Proof. intros (-> & -> & ->). split; [by rewrite <- !app_assoc|]. split; [done|zlen_simpl; lia]. Qed.

(** the [i]th byte that was written *)
Lemma rd_written m o j t w r i x : split_at m o j t w r -> 0 <= i -> o !! Z.to_nat i = Some x -> rd m i = Ret x.
Proof. intros (-> & -> & ->) Hi Hx. apply rd_ret. split; [done|]. by apply lookup_app_l_Some. Qed.

(** ** Segments *)

Definition no_slash (s : bytes) : Prop := Forall (fun c => c <> SLASH) s.

Fixpoint segments (s : bytes) : list bytes :=
  match s with
  | [] => [[]]
  | c :: s =>
      if c =? SLASH then [] :: segments s
      else match segments s with h :: l => (c :: h) :: l | [] => [[c]] end
  end.

Fixpoint join (l : list bytes) : bytes :=
  match l with
  | [] => []
  | [s] => s
  | s :: l => s ++ SLASH :: join l
  end.

Lemma segments_nonempty s : segments s <> [].
Proof. destruct s as [|c s]; [done|]. cbn. destruct (c =? SLASH); [done|]. by destruct (segments s). Qed.

Lemma segments_first s t : no_slash s -> t = [] \/ (exists t', t = SLASH :: t') ->
  segments (s ++ t) = s :: match t with [] => [] | _ :: t' => segments t' end.
Proof.
  intros Hs Ht. induction Hs as [|c s Hc Hs IH]; cbn [app segments].
  - by destruct Ht as [->|[t' ->]].
  - rewrite (proj2 (Z.eqb_neq c SLASH)) by done. by rewrite IH.
Qed.

(** the first segment of a path, and what follows it *)
Lemma first_segment s : exists h t, s = h ++ t /\ no_slash h /\ (t = [] \/ exists t', t = SLASH :: t').
Proof.
  induction s as [|c s (h & t & -> & Hh & Ht)]; [exists [], []; split; [done|]; split; [constructor|by left]|].
  destruct (decide (c = SLASH)) as [->|Hc].
  - exists [], (SLASH :: h ++ t). split; [done|]. split; [constructor|right; by eexists].
  - exists (c :: h), t. split; [done|]. split; [by constructor|done].
Qed.

Lemma join_cons s l : join (s :: l) = s ++ match l with [] => [] | _ => SLASH :: join l end.
Proof. destruct l; [by rewrite app_nil_r|done]. Qed.

Lemma join_app l k : l <> [] -> k <> [] -> join (l ++ k) = join l ++ SLASH :: join k.
Proof.
  intros Hl Hk. induction l as [|s l IH]; [done|]. destruct l as [|s' l].
  - cbn [app]. by destruct k.
  - change ((s :: s' :: l) ++ k) with (s :: (s' :: l) ++ k). rewrite join_cons, IH by done. cbn [app]. by rewrite (join_cons s (s' :: l)), <- app_assoc.
Qed.

Lemma segments_join l : l <> [] -> Forall no_slash l -> segments (join l) = l.
Proof.
  intros Hl H. induction H as [|s l Hs H IH]; [done|]. rewrite join_cons. destruct l as [|s' l].
  - rewrite segments_first; [done|done|by left].
  - rewrite segments_first; [by rewrite IH|done|right; by eexists].
Qed.

Lemma segments_cons c s : c <> SLASH -> exists h l, segments s = h :: l /\ segments (c :: s) = (c :: h) :: l.
Proof.
  intros Hc. destruct (segments s) as [|h l] eqn:E; [by apply segments_nonempty in E|]. exists h, l. split; [done|]. cbn [segments].
  by rewrite (proj2 (Z.eqb_neq c SLASH)), E.
Qed.

Lemma segments_forall (P : Z -> Prop) s : Forall P s -> Forall (Forall P) (segments s).
Proof.
  induction 1 as [|c s Hc Hs IH]; [repeat constructor|]. destruct (decide (c = SLASH)) as [->|Hne].
  - cbn [segments]. change (SLASH =? SLASH) with true. cbn iota. constructor; [constructor|done].
  - destruct (segments_cons c s Hne) as (h & l & E & ->). rewrite E in IH. apply Forall_cons in IH as [Hh Hl]. constructor; [by constructor|done].
Qed.

Lemma segments_no_slash s : Forall no_slash (segments s).
Proof.
  induction s as [|c s IH]; [repeat constructor|]. destruct (decide (c = SLASH)) as [->|Hne].
  - cbn [segments]. change (SLASH =? SLASH) with true. cbn iota. constructor; [constructor|done].
  - destruct (segments_cons c s Hne) as (h & l & E & ->). rewrite E in IH. apply Forall_cons in IH as [Hh Hl]. constructor; [by constructor|done].
Qed.

Lemma join_bytes (P : Z -> Prop) l : P SLASH -> Forall (Forall P) l -> Forall P (join l).
Proof.
  intros Hs H. induction H as [|s l Hs' H IH]; [constructor|]. rewrite join_cons. apply Forall_app. split; [done|]. destruct l; [constructor|]. by constructor.
Qed.
