(* ===== verification/Os.v ===== *)
(** * Paths of the operating system (src/lib/util/os.c)

    [os_cleanpath] rewrites a string where it is.  What it promises is
    [clean]: the segments of the path are taken one by one, empty ones and
    dots are dropped, and a double dot takes back the segment before it; in a
    relative path the double dots that have nothing to take back stay in
    front. *)

From S2P Require Import Prelude CLib Segments.

Section Loops.

(** the scan back to the slash before the last segment *)
Fixpoint back_loop (n : nat) (m : bytes) (w leftlim : Z) : outcome Z :=
  match n with
  | O => OutOfFuel
  | S n =>
      let w := w - 1 in
      if leftlim <? w then c ← rd m w; if c =? SLASH then Ret w else back_loop n m w leftlim
      else Ret w
  end.

(** a segment is copied: the memory, [r] and [w] *)
Fixpoint copy_loop (n : nat) (m : bytes) (r w : Z) : outcome (bytes * Z * Z) :=
  match n with
  | O => OutOfFuel
  | S n =>
      c ← rd m r;
      if (c =? 0) || (c =? SLASH) then Ret (m, r, w)
      else m ← wr m w c; copy_loop n m (r + 1) (w + 1)
  end.

(** [path[r] == '.'] before the end of a segment, and two of them *)
Definition is_dot (m : bytes) (r : Z) : outcome bool :=
  c ← rd m r;
  if c =? DOT then c1 ← rd m (r + 1); Ret ((c1 =? 0) || (c1 =? SLASH)) else Ret false.

Definition is_dotdot (m : bytes) (r : Z) : outcome bool :=
  c ← rd m r;
  if c =? DOT then
    c1 ← rd m (r + 1);
    if c1 =? DOT then c2 ← rd m (r + 2); Ret ((c2 =? 0) || (c2 =? SLASH)) else Ret false
  else Ret false.

(** [path[w++] = '/'] when [sep] *)
Definition put_slash (sep : bool) (m : bytes) (w : Z) : outcome (bytes * Z) :=
  if sep then m ← wr m w SLASH; Ret (m, w + 1) else Ret (m, w).

Fixpoint clean_loop (n : nat) (m : bytes) (r w leftlim : Z) (absolute : bool) : outcome (bytes * Z) :=
  match n with
  | O => OutOfFuel
  | S n =>
      c ← rd m r;
      if c =? 0 then Ret (m, w)
      else if c =? SLASH then clean_loop n m (r + 1) w leftlim absolute
      else
        one ← is_dot m r;
        if (one : bool) then clean_loop n m (r + 1) w leftlim absolute
        else
          two ← is_dotdot m r;
          if (two : bool) then
            if leftlim <? w then w ← back_loop (S (length m)) m w leftlim; clean_loop n m (r + 2) w leftlim absolute
            else if negb absolute then
              '(m, w) ← put_slash (0 <? w) m w;
              m ← wr m w DOT;
              m ← wr m (w + 1) DOT;
              clean_loop n m (r + 2) (w + 2) (w + 2) absolute
            else clean_loop n m (r + 2) w leftlim absolute
          else
            '(m, w) ← put_slash ((absolute && negb (w =? 1)) || (negb absolute && (0 <? w))) m w;
            '(m, r, w) ← copy_loop (S (length m)) m r w;
            clean_loop n m r w leftlim absolute
  end.

End Loops.

Definition os_cleanpath (path : bytes) : outcome bytes :=
  c ← rd path 0;
  let absolute := c =? SLASH in
  let start := if absolute then 1 else 0 in
  '(path, w) ← clean_loop (S (length path)) path start start start absolute;
  wr path w 0.

(** ** What it promises *)

Definition DOTDOT : bytes := [DOT; DOT].

(** the number of double dots in front, and the segments behind them from the
    last one on *)
Definition step (absolute : bool) (st : nat * list bytes) (s : bytes) : nat * list bytes :=
  let '(d, names) := st in
  if decide (s = [] \/ s = [DOT]) then st
  else if decide (s = DOTDOT) then
    match names with
    | _ :: names => (d, names)
    | [] => if absolute then st else (S d, [])
    end
  else (d, s :: names).

Definition path_of (absolute : bool) (st : nat * list bytes) : bytes :=
  (if absolute then [SLASH] else []) ++ join (replicate st.1 DOTDOT ++ reverse st.2).

Definition is_absolute (s : bytes) : bool := match s with c :: _ => c =? SLASH | [] => false end.

Definition clean (s : bytes) : bytes := path_of (is_absolute s) (foldl (step (is_absolute s)) (O, []) (segments s)).

(** ** The parts of a path *)

(** a segment that stays *)
Definition proper (s : bytes) : Prop := no_slash s /\ s <> [] /\ s <> [DOT] /\ s <> DOTDOT.

Definition state_ok (absolute : bool) (st : nat * list bytes) : Prop :=
  Forall proper st.2 /\ (absolute = true -> st.1 = O).

Lemma step_ok absolute st s : no_slash s -> state_ok absolute st -> state_ok absolute (step absolute st s).
Proof.
  destruct st as [d names]. intros Hs [Hn Hd]. unfold step. destruct (decide (s = [] \/ s = [DOT])) as [|H1]; [by split|].
  destruct (decide (s = DOTDOT)) as [|H2].
  - destruct names as [|x names]; [by destruct absolute|]. apply Forall_cons in Hn as [_ Hn]. by split.
  - split; [|done]. constructor; [|done]. split; [done|]. split; [tauto|]. split; [tauto|done].
Qed.

(** what is between the path so far and a segment that is added to it *)
Definition sep (absolute : bool) (st : nat * list bytes) : bytes :=
  match st with (O, []) => [] | _ => [SLASH] end.

Lemma path_of_cons absolute d names s : path_of absolute (d, s :: names) = path_of absolute (d, names) ++ sep absolute (d, names) ++ s.
Proof.
  unfold path_of. cbn [fst snd]. rewrite reverse_cons, <- (app_assoc (if absolute then _ else _)), (app_assoc (replicate d DOTDOT)). f_equal.
  destruct (decide (replicate d DOTDOT ++ reverse names = [])) as [E|Hne].
  - rewrite E. pose proof E as [E1 E2]%app_eq_nil. destruct d; [|done]. apply (f_equal length) in E2. rewrite length_reverse in E2. destruct names; [|done]. done.
  - rewrite join_app by done. cbn [join]. f_equal. by destruct d, names.
Qed.

Lemma path_of_up d : path_of false (S d, []) = path_of false (d, []) ++ sep false (d, []) ++ DOTDOT.
Proof.
  unfold path_of. cbn [fst snd]. rewrite !app_nil_r, !app_nil_l. change (S d) with (1 + d)%nat. rewrite Nat.add_comm, replicate_add. destruct d; [done|].
  by rewrite join_app.
Qed.

Lemma path_of_nonempty d : (0 < d)%nat -> 0 < zlen (path_of false (d, [])).
Proof. destruct d; [lia|]. intros _. rewrite path_of_up. zlen_simpl. pose proof (zlen_nonneg (path_of false (d, []))). pose proof (zlen_nonneg (sep false (d, []))). change (zlen DOTDOT) with 2. lia. Qed.

(** the path ends where the double dots end when there are no other segments *)
Lemma leftlim_spec absolute st : state_ok absolute st ->
  zlen (path_of absolute (st.1, [])) <= zlen (path_of absolute st) /\ (zlen (path_of absolute (st.1, [])) < zlen (path_of absolute st) <-> st.2 <> []).
Proof.
  destruct st as [d names]. intros [Hn _]. cbn [fst snd] in *. induction Hn as [|s names (_ & Hs & _) Hn IH]; [split; [lia|]; split; [lia|done]|].
  rewrite path_of_cons. zlen_simpl. pose proof (zlen_nonneg (sep absolute (d, names))). assert (0 < zlen s) by (destruct s; [done|]; zlen_simpl; pose proof (zlen_nonneg s); lia).
  destruct IH. split; [lia|]. split; [done|lia].
Qed.

(** when a slash is written before a segment *)
Lemma sep_test absolute st : state_ok absolute st ->
  (absolute && negb (zlen (path_of absolute st) =? 1)) || (negb absolute && (0 <? zlen (path_of absolute st))) = bool_decide (st <> (O, [])).
Proof.
  intros Hok. destruct (leftlim_spec absolute st Hok) as [Hle Hlt]. destruct st as [d names]. destruct Hok as [_ Hd]. cbn [fst snd] in *. destruct absolute; cbn [andb orb negb].
  - rewrite orb_false_r. rewrite (Hd eq_refl) in *. change (zlen (path_of true (0%nat, []))) with 1 in *. destruct names as [|s names].
    + rewrite bool_decide_false by tauto. done.
    + rewrite bool_decide_true by done. rewrite (proj2 (Z.eqb_neq _ _)); [done|]. assert (s :: names <> []) as Hne by done. apply Hlt in Hne. lia.
  - destruct (decide ((d, names) = (O, []))) as [[= -> ->]|Hne]; [by rewrite bool_decide_false by tauto|]. rewrite bool_decide_true by done. apply Z.ltb_lt.
    destruct names; [|assert (l :: names <> []) as H by done; apply Hlt in H; pose proof (zlen_nonneg (path_of false (d, []))); lia].
    apply path_of_nonempty. destruct d; [done|lia].
Qed.

(** ** The loops *)

(** back over a segment [s] of the path [o ++ sl ++ s] to the end of [o] *)
Lemma back_loop_spec m o sl s j t r leftlim : no_slash s -> s <> [] -> sl = [] \/ sl = [SLASH] ->
  split_at m (o ++ sl ++ s) j t (zlen (o ++ sl ++ s)) r -> leftlim <= zlen o -> zlen o = leftlim \/ sl = [SLASH] -> (sl = [] -> zlen o = leftlim) ->
  forall n, (length (sl ++ s) < n)%nat -> back_loop n m (zlen (o ++ sl ++ s)) leftlim = Ret (zlen o).
Proof.
  intros Hs Hne Hsl Hm Hl Hstop Hnil n Hn.
  (* inside the segment *)
  assert (Hin : forall k n, (k <= length s)%nat -> (length sl + k < n)%nat -> (0 < k)%nat -> back_loop n m (zlen (o ++ sl) + Z.of_nat k) leftlim = Ret (zlen o)).
  { clear n Hn. induction k as [|k IH]; intros n Hk Hn H0; [lia|]. destruct n as [|n]; [lia|]. cbn [back_loop].
    pose proof (zlen_nonneg o). pose proof (zlen_nonneg sl).
    replace (zlen (o ++ sl) + Z.of_nat (S k) - 1) with (zlen (o ++ sl) + Z.of_nat k) by lia. destruct k as [|k].
    - destruct Hsl as [-> | ->].
      + rewrite app_nil_r. rewrite (proj2 (Z.ltb_ge _ _)) by (rewrite (Hnil eq_refl); lia). f_equal. lia.
      + zlen_simpl. rewrite (proj2 (Z.ltb_lt _ _)) by lia. destruct (lookup_lt_is_Some_2 s 0%nat) as (c & Hc); [lia|].
        rewrite (rd_written _ _ _ _ _ _ _ c Hm); [|lia|].
        * cbn [mbind outcome_mbind]. assert (Hcs : c <> SLASH) by (eapply Forall_lookup_1 in Hs; [|exact Hc]; done). rewrite (proj2 (Z.eqb_neq c SLASH)) by done.
          destruct n as [|n]; [cbn [length] in Hn; lia|]. cbn [back_loop]. replace (zlen o + (1 + 0) + Z.of_nat 0 - 1) with (zlen o) by lia.
          destruct (Z.ltb_spec leftlim (zlen o)); [|f_equal; lia]. rewrite (rd_written _ _ _ _ _ _ _ SLASH Hm); [done|lia|].
          unfold zlen. rewrite Nat2Z.id. by apply list_lookup_middle.
        * replace (Z.to_nat (zlen o + (1 + 0) + Z.of_nat 0)) with (length (o ++ [SLASH])) by (unfold zlen; rewrite length_app; cbn; lia).
          rewrite app_assoc, lookup_app_r by lia. by rewrite Nat.sub_diag.
    - rewrite (proj2 (Z.ltb_lt _ _)) by (zlen_simpl; lia). destruct (lookup_lt_is_Some_2 s (S k)) as (c & Hc); [lia|].
      rewrite (rd_written _ _ _ _ _ _ _ c Hm); [|zlen_simpl; lia|].
      + cbn [mbind outcome_mbind]. assert (Hcs : c <> SLASH) by (eapply Forall_lookup_1 in Hs; [|exact Hc]; done). rewrite (proj2 (Z.eqb_neq c SLASH)) by done.
        apply IH; lia.
      + replace (Z.to_nat (zlen (o ++ sl) + Z.of_nat (S k))) with (length (o ++ sl) + S k)%nat by (unfold zlen; lia).
        rewrite app_assoc, lookup_app_r by lia. by replace (length (o ++ sl) + S k - length (o ++ sl))%nat with (S k) by lia. }
  replace (zlen (o ++ sl ++ s)) with (zlen (o ++ sl) + Z.of_nat (length s)) by (zlen_simpl; unfold zlen; lia).
  apply Hin; [done|rewrite length_app in Hn; lia|destruct s; [done|cbn; lia]].
Qed.

(** the end of a segment in memory *)
Definition at_end (t : bytes) : Prop := exists c t', t = c :: t' /\ (c = 0 \/ c = SLASH).

Lemma copy_loop_spec s t : no_slash s -> Forall (fun c => c <> 0) s -> at_end t -> forall n m o j w r, split_at m o j (s ++ t) w r -> (length s < n)%nat ->
  exists m' j', copy_loop n m r w = Ret (m', r + zlen s, w + zlen s) /\ split_at m' (o ++ s) j' t (w + zlen s) (r + zlen s) /\ length j' = length j.
Proof.
  intros Hs Hz (e & t' & -> & He). revert Hz. induction Hs as [|c s Hc Hs IH]; intros Hz n m o j w r Hm Hn; (destruct n as [|n]; [cbn in Hn; lia|]); cbn [copy_loop].
  - rewrite (rd_head _ _ _ _ _ _ _ Hm). cbn [mbind outcome_mbind]. assert (E : (e =? 0) || (e =? SLASH) = true) by (by destruct He as [-> | ->]). rewrite E.
    exists m, j. rewrite zlen_nil, !Z.add_0_r, app_nil_r. done.
  - apply Forall_cons in Hz as [Hc0 Hz]. cbn [app] in Hm. rewrite (rd_head _ _ _ _ _ _ _ Hm). cbn [mbind outcome_mbind].
    rewrite (proj2 (Z.eqb_neq c 0)), (proj2 (Z.eqb_neq c SLASH)) by done. cbn [orb].
    destruct (copy_byte _ _ _ _ _ _ _ Hm) as (m1 & j1 & -> & Hm1 & Hl1). cbn [mbind outcome_mbind].
    destruct (IH Hz n m1 (o ++ [c]) j1 (w + 1) (r + 1) Hm1) as (m2 & j2 & E & Hm2 & Hl2); [cbn in Hn; lia|].
    exists m2, j2. zlen_simpl. replace (w + (1 + zlen s)) with (w + 1 + zlen s) by lia. replace (r + (1 + zlen s)) with (r + 1 + zlen s) by lia.
    rewrite <- app_assoc in Hm2. split; [done|]. split; [done|congruence].
Qed.

(** the tests on a segment [s] *)
Lemma is_dot_spec s t m o j w r : no_slash s -> s <> [] -> Forall (fun c => c <> 0) s -> at_end t -> split_at m o j (s ++ t) w r ->
  is_dot m r = Ret (bool_decide (s = [DOT])).
Proof.
  intros Hs Hne Hz (e & t' & -> & He) Hm. destruct s as [|c s]; [done|]. unfold is_dot. cbn [app] in Hm. rewrite (rd_head _ _ _ _ _ _ _ Hm). cbn [mbind outcome_mbind].
  destruct (Z.eqb_spec c DOT) as [->|Hc]; [|by rewrite bool_decide_false by congruence]. apply Forall_cons in Hs as [_ Hs]. apply Forall_cons in Hz as [_ Hz].
  rewrite (rd_unread _ _ _ _ _ _ 1 Hm) by lia. destruct s as [|c1 s]; cbn [app].
  - change (rd (DOT :: e :: t') 1) with (Ret e). cbn [mbind outcome_mbind]. rewrite bool_decide_true by done. by destruct He as [-> | ->].
  - change (rd (DOT :: c1 :: s ++ e :: t') 1) with (Ret c1). cbn [mbind outcome_mbind]. rewrite bool_decide_false by done.
    apply Forall_cons in Hs as [H1 _]. apply Forall_cons in Hz as [H2 _]. by rewrite (proj2 (Z.eqb_neq c1 0)), (proj2 (Z.eqb_neq c1 SLASH)).
Qed.

Lemma is_dotdot_spec s t m o j w r : no_slash s -> s <> [] -> Forall (fun c => c <> 0) s -> at_end t -> split_at m o j (s ++ t) w r -> s <> [DOT] ->
  is_dotdot m r = Ret (bool_decide (s = DOTDOT)).
Proof.
  intros Hs Hne Hz (e & t' & -> & He) Hm Hd. destruct s as [|c s]; [done|]. unfold is_dotdot. cbn [app] in Hm. rewrite (rd_head _ _ _ _ _ _ _ Hm). cbn [mbind outcome_mbind].
  destruct (Z.eqb_spec c DOT) as [->|Hc]; [|by rewrite bool_decide_false by (unfold DOTDOT; congruence)]. apply Forall_cons in Hs as [_ Hs]. apply Forall_cons in Hz as [_ Hz].
  rewrite (rd_unread _ _ _ _ _ _ 1 Hm) by lia. destruct s as [|c1 s]; [done|]. cbn [app].
  change (rd (DOT :: c1 :: s ++ e :: t') 1) with (Ret c1). cbn [mbind outcome_mbind].
  destruct (Z.eqb_spec c1 DOT) as [->|Hc1]; [|by rewrite bool_decide_false by (unfold DOTDOT; congruence)]. apply Forall_cons in Hs as [_ Hs]. apply Forall_cons in Hz as [_ Hz].
  rewrite (rd_unread _ _ _ _ _ _ 2 Hm) by lia. destruct s as [|c2 s]; cbn [app].
  - change (rd (DOT :: DOT :: e :: t') 2) with (Ret e). cbn [mbind outcome_mbind]. rewrite bool_decide_true by done. by destruct He as [-> | ->].
  - change (rd (DOT :: DOT :: c2 :: s ++ e :: t') 2) with (Ret c2). cbn [mbind outcome_mbind]. rewrite bool_decide_false by done.
    apply Forall_cons in Hs as [H1 _]. apply Forall_cons in Hz as [H2 _]. by rewrite (proj2 (Z.eqb_neq c2 0)), (proj2 (Z.eqb_neq c2 SLASH)).
Qed.

Lemma step_nil absolute st : step absolute st [] = st.
Proof. destruct st as [d names]. unfold step. by rewrite decide_True by (by left). Qed.

Lemma steps_first absolute st s t : no_slash s -> t = [] \/ (exists t', t = SLASH :: t') ->
  foldl (step absolute) st (segments (s ++ t)) = foldl (step absolute) (step absolute st s) (segments t).
Proof.
  intros Hs Ht. rewrite segments_first by done. cbn [foldl]. destruct Ht as [->|[t' ->]]; cbn [segments]; [cbn; by rewrite step_nil|].
  change (SLASH =? SLASH) with true. cbn [foldl]. by rewrite step_nil.
Qed.

(** the loop at the start of a segment or at the end of one, with [st] written *)
Definition at_segment (absolute : bool) (st : nat * list bytes) (post m t : bytes) (r : Z) : Prop :=
  state_ok absolute st /\ exists j, split_at m (path_of absolute st) j (t ++ 0 :: post) (zlen (path_of absolute st)) r /\
    (t = [] \/ (exists t', t = SLASH :: t') \/ j <> [] \/ st = (O, [])).

Definition leftlim_of (absolute : bool) (st : nat * list bytes) : Z := zlen (path_of absolute (st.1, [])).

(** a segment that stays is copied *)
Lemma keep_segment absolute st post m s t r : proper s -> Forall (fun c => c <> 0) s -> t = [] \/ (exists t', t = SLASH :: t') ->
  at_segment absolute st post m (s ++ t) r ->
  exists m1 m2, put_slash ((absolute && negb (zlen (path_of absolute st) =? 1)) || (negb absolute && (0 <? zlen (path_of absolute st)))) m (zlen (path_of absolute st)) =
      Ret (m1, zlen (path_of absolute st ++ sep absolute st)) /\
    copy_loop (S (length m1)) m1 r (zlen (path_of absolute st ++ sep absolute st)) = Ret (m2, r + zlen s, zlen (path_of absolute (st.1, s :: st.2))) /\
    at_segment absolute (st.1, s :: st.2) post m2 t (r + zlen s).
Proof.
  intros (Hs & Hne & Hp) Hz Ht (Hok & j & Hm & Hj). rewrite (sep_test _ _ Hok).
  assert (Hend : at_end (t ++ 0 :: post)) by (destruct Ht as [->|[t' ->]]; by do 2 eexists; split; [reflexivity|]; auto).
  assert (E : exists m1 j1, put_slash (bool_decide (st <> (O, []))) m (zlen (path_of absolute st)) = Ret (m1, zlen (path_of absolute st ++ sep absolute st)) /\
    split_at m1 (path_of absolute st ++ sep absolute st) j1 (s ++ t ++ 0 :: post) (zlen (path_of absolute st ++ sep absolute st)) r).
  { rewrite <- app_assoc in Hm. destruct (decide (st = (O, []))) as [->|Hst].
    - rewrite bool_decide_false by tauto. exists m, j. cbn [put_slash sep]. rewrite app_nil_r. done.
    - rewrite bool_decide_true by done. assert (Hsep : sep absolute st = [SLASH]) by (destruct st as [[|d] [|n l]]; done).
      destruct j as [|y j].
      + exfalso. destruct Hj as [Hj|[[t' Hj]|[Hj|Hj]]]; try done; [by destruct s|]. destruct s as [|c s]; [done|]. injection Hj as -> _. by apply Forall_cons in Hs as [? _].
      + destruct (write_over _ _ _ _ _ _ _ SLASH Hm) as (m1 & E & Hm1). exists m1, j. cbn [put_slash]. rewrite E, Hsep. cbn [mbind outcome_mbind].
        replace (zlen (path_of absolute st ++ [SLASH])) with (zlen (path_of absolute st) + 1) by (zlen_simpl; lia). done. }
  destruct E as (m1 & j1 & E1 & Hm1). destruct (copy_loop_spec s (t ++ 0 :: post) Hs Hz Hend (S (length m1)) m1 _ j1 _ r Hm1) as (m2 & j2 & E2 & Hm2 & _).
  { destruct Hm1 as (-> & _ & _). rewrite !length_app. lia. }
  exists m1, m2. split; [done|]. destruct st as [d names]. cbn [fst snd]. rewrite path_of_cons, app_assoc, (zlen_app _ s). split; [exact E2|]. split.
  - split; [|apply Hok]. constructor; [by split|apply Hok].
  - exists j2. rewrite path_of_cons, app_assoc, (zlen_app _ s). split; [exact Hm2|]. destruct Ht as [->|?]; auto.
Qed.

(** a double dot takes the last segment back *)
Lemma drop_segment absolute d x names post m t r : at_segment absolute (d, x :: names) post m (DOTDOT ++ t) r ->
  back_loop (S (length m)) m (zlen (path_of absolute (d, x :: names))) (zlen (path_of absolute (d, []))) = Ret (zlen (path_of absolute (d, names))) /\
  at_segment absolute (d, names) post m t (r + 2).
Proof.
  intros ([Hn Hd] & j & Hm & _). apply Forall_cons in Hn as [(Hx & Hne & _) Hn]. cbn [fst snd] in *.
  destruct (leftlim_spec absolute (d, names)) as [Hle Hlt]; [by split|]. cbn [fst snd] in *. rewrite path_of_cons in Hm |- *.
  rewrite <- app_assoc in Hm. pose proof (read_many _ _ _ _ _ _ _ Hm) as Hm2. change (zlen DOTDOT) with 2 in Hm2. split.
  - eapply back_loop_spec; [exact Hx|exact Hne| |exact Hm|exact Hle| | |].
    + destruct d, names; [by left|by right..].
    + destruct d; [destruct names; [by left|by right]|by right].
    + destruct d, names; try done.
    + destruct Hm as (-> & _ & _). rewrite !length_app. lia.
  - split; [by split|]. eexists. split; [eapply unwrite; exact Hm2|]. right; right; left. destruct x; [done|]. by destruct (sep absolute (d, names)).
Qed.

(** a double dot that has nothing to take back stays in a relative path *)
Lemma keep_dotdot d post m t r : at_segment false (d, []) post m (DOTDOT ++ t) r -> t = [] \/ (exists t', t = SLASH :: t') ->
  exists m1 m2 m3 w1, put_slash (0 <? zlen (path_of false (d, []))) m (zlen (path_of false (d, []))) = Ret (m1, w1) /\
    wr m1 w1 DOT = Ret m2 /\ wr m2 (w1 + 1) DOT = Ret m3 /\ w1 + 2 = zlen (path_of false (S d, [])) /\ at_segment false (S d, []) post m3 t (r + 2).
Proof.
  intros ([Hn Hd] & j & Hm & Hj) Ht. rewrite <- app_assoc in Hm.
  assert (E : exists m1 j1, put_slash (0 <? zlen (path_of false (d, []))) m (zlen (path_of false (d, []))) = Ret (m1, zlen (path_of false (d, []) ++ sep false (d, []))) /\
    split_at m1 (path_of false (d, []) ++ sep false (d, [])) j1 (DOTDOT ++ t ++ 0 :: post) (zlen (path_of false (d, []) ++ sep false (d, []))) r).
  { destruct d as [|d].
    - exists m, j. done.
    - rewrite (proj2 (Z.ltb_lt _ _)) by (apply path_of_nonempty; lia). destruct j as [|y j]; [by destruct Hj as [Hj|[[t' Hj]|[Hj|Hj]]]|].
      destruct (write_over _ _ _ _ _ _ _ SLASH Hm) as (m1 & E & Hm1). exists m1, j. cbn [put_slash sep]. rewrite E. cbn [mbind outcome_mbind].
      replace (zlen (path_of false (S d, []) ++ [SLASH])) with (zlen (path_of false (S d, [])) + 1) by (zlen_simpl; lia). done. }
  destruct E as (m1 & j1 & E1 & Hm1). set (o := path_of false (d, []) ++ sep false (d, [])) in *. unfold DOTDOT in Hm1. cbn [app] in Hm1.
  destruct (copy_byte _ _ _ _ _ _ _ Hm1) as (m2 & j2 & E2 & Hm2 & _). destruct (copy_byte _ _ _ _ _ _ _ Hm2) as (m3 & j3 & E3 & Hm3 & _).
  exists m1, m2, m3, (zlen o). split; [done|]. split; [done|]. split; [done|]. rewrite path_of_up. fold o. rewrite app_assoc. fold o. split; [zlen_simpl; done|].
  split; [by split|]. exists j3. rewrite path_of_up, app_assoc. fold o. rewrite <- app_assoc in Hm3. unfold DOTDOT. replace (zlen (o ++ [DOT; DOT])) with (zlen o + 1 + 1) by (zlen_simpl; lia).
  replace (r + 2) with (r + 1 + 1) by lia. split; [done|]. destruct Ht as [->|?]; auto.
Qed.

Lemma clean_loop_spec absolute post : forall n t st m r, (length t < n)%nat -> Forall (fun c => c <> 0) t -> at_segment absolute st post m t r ->
  exists m' r', clean_loop n m r (zlen (path_of absolute st)) (leftlim_of absolute st) absolute = Ret (m', zlen (path_of absolute (foldl (step absolute) st (segments t)))) /\
    at_segment absolute (foldl (step absolute) st (segments t)) post m' [] r'.
Proof.
  induction n as [|n IH]; intros t st m r Hn Hz Hat; [lia|]. destruct (first_segment t) as (s & t1 & -> & Hs & Ht1).
  rewrite steps_first by done. apply Forall_app in Hz as [Hzs Hzt]. rewrite length_app in Hn. pose proof Hat as (Hok & j & Hm & Hj). rewrite <- app_assoc in Hm.
  assert (Hend : at_end (t1 ++ 0 :: post)) by (destruct Ht1 as [->|[t' ->]]; by do 2 eexists; split; [reflexivity|]; auto).
  assert (IHt : forall st' m' r', (0 < length s)%nat -> at_segment absolute st' post m' t1 r' -> exists m2 r2,
    clean_loop n m' r' (zlen (path_of absolute st')) (leftlim_of absolute st') absolute = Ret (m2, zlen (path_of absolute (foldl (step absolute) st' (segments t1)))) /\
    at_segment absolute (foldl (step absolute) st' (segments t1)) post m2 [] r2) by (intros; apply IH; [lia|done|done]).
  cbn [clean_loop]. destruct s as [|c s].
  - rewrite step_nil. cbn [app] in *. destruct Ht1 as [->|[t' ->]].
    + cbn [app] in Hm. rewrite (rd_head _ _ _ _ _ _ _ Hm). cbn [mbind outcome_mbind segments foldl]. rewrite step_nil. exists m, r. done.
    + cbn [app] in Hm. rewrite (rd_head _ _ _ _ _ _ _ Hm). cbn [mbind outcome_mbind]. change (SLASH =? 0) with false. change (SLASH =? SLASH) with true. cbn iota.
      cbn [segments]. change (SLASH =? SLASH) with true. cbn iota. cbn [foldl]. rewrite step_nil. apply Forall_cons in Hzt as [_ Hzt]. apply IH; [cbn in Hn; lia|done|].
      split; [done|]. eexists. split; [by apply read_on|]. right; right; left. by destruct j.
  - rewrite (rd_head _ _ _ _ _ _ _ Hm). cbn [mbind outcome_mbind]. pose proof Hs as [Hc _]%Forall_cons. pose proof Hzs as [Hc0 _]%Forall_cons.
    rewrite (proj2 (Z.eqb_neq c 0)), (proj2 (Z.eqb_neq c SLASH)) by done. set (s' := c :: s) in *.
    rewrite (is_dot_spec s' _ _ _ _ _ _ Hs ltac:(done) Hzs Hend Hm). cbn [mbind outcome_mbind]. destruct (decide (s' = [DOT])) as [Es|Hnd].
    + rewrite bool_decide_true by done. assert (Est : step absolute st s' = st) by (destruct st; unfold step; by rewrite decide_True by (by right)). rewrite Est.
      apply IHt; [cbn; lia|]. split; [done|]. exists (j ++ [DOT]). rewrite Es in Hm. split; [exact (read_many _ _ _ [DOT] _ _ _ Hm)|]. right; right; left. by destruct j.
    + rewrite bool_decide_false by done. rewrite (is_dotdot_spec s' _ _ _ _ _ _ Hs ltac:(done) Hzs Hend Hm Hnd). cbn [mbind outcome_mbind].
      destruct (decide (s' = DOTDOT)) as [Es|Hndd].
      * rewrite bool_decide_true by done. rewrite Es in *. destruct (leftlim_spec absolute st Hok) as [Hle Hlt]. destruct st as [d names]. unfold leftlim_of in *. cbn [fst snd] in *.
        assert (Est : step absolute (d, names) DOTDOT = match names with _ :: names => (d, names) | [] => if absolute then (d, []) else (S d, []) end).
        { unfold step. rewrite decide_False by (intros [?|?]; done). rewrite decide_True by done. by destruct names. }
        rewrite Est. destruct names as [|x names].
        -- rewrite (proj2 (Z.ltb_ge _ _)) by lia. destruct absolute; cbn [negb].
           ++ apply IHt; [cbn; lia|]. split; [done|]. exists (j ++ DOTDOT). split; [exact (read_many _ _ _ DOTDOT _ _ _ Hm)|]. right; right; left. by destruct j.
           ++ destruct (keep_dotdot d post m t1 r Hat Ht1) as (m1 & m2 & m3 & w1 & -> & E2 & E3 & Ew & Hat'). cbn [mbind outcome_mbind]. rewrite E2. cbn [mbind outcome_mbind]. rewrite E3. cbn [mbind outcome_mbind].
              rewrite Ew. apply IHt; [cbn; lia|done].
        -- rewrite (proj2 (Z.ltb_lt _ _)) by (by apply Hlt). destruct (drop_segment _ _ _ _ _ _ _ _ Hat) as [-> Hat']. cbn [mbind outcome_mbind]. apply (IHt (d, names)); [cbn; lia|done].
      * rewrite bool_decide_false by done. destruct (keep_segment absolute st post m s' t1 r) as (m1 & m2 & -> & E2 & Hat'); [by split|done|done|done|]. cbn [mbind outcome_mbind].
        rewrite E2. cbn [mbind outcome_mbind]. assert (Est : step absolute st s' = (st.1, s' :: st.2)).
        { destruct st. unfold step. rewrite decide_False by (intros [?|?]; done). by rewrite decide_False. }
        rewrite Est. apply (IHt (st.1, s' :: st.2)); [cbn; lia|done].
Qed.

Lemma reverse_proper names : Forall proper names -> Forall proper (reverse names).
Proof. intros H. by rewrite Forall_reverse. Qed.

(** the state after all segments *)
Lemma clean_state s absolute : state_ok absolute (foldl (step absolute) (O, []) (segments s)).
Proof.
  pose proof (segments_no_slash s) as H.
  revert H. generalize (segments s). intros l H. assert (H0 : state_ok absolute (O, [])) by (split; [constructor|done]).
  revert H0. generalize (O, @nil bytes). induction H as [|x l Hx Hl IH]; intros st Hst; [done|]. cbn [foldl]. apply IH. by apply step_ok.
Qed.

(** no byte of a path is made up *)
Lemma clean_bytes s : Forall (fun c => c <> 0) s -> Forall (fun c => c <> 0) (clean s).
Proof.
  intros Hz. unfold clean, path_of. set (absolute := is_absolute s). apply Forall_app. split; [destruct absolute; by repeat constructor|]. apply join_bytes; [done|].
  apply Forall_app. split; [apply Forall_replicate; by repeat constructor|]. rewrite Forall_reverse.
  pose proof (segments_forall _ s Hz) as H.
  assert (H0 : Forall (Forall (fun c : Z => c <> 0)) (O, @nil bytes).2) by constructor. revert H0. generalize (O, @nil bytes). induction H as [|x l Hx Hl IH]; intros [d names] H0; [done|].
  cbn [foldl]. apply IH. unfold step. destruct (decide (x = [] \/ x = [DOT])); [done|]. destruct (decide (x = DOTDOT)); [|by constructor].
  destruct names; [by destruct absolute|]. cbn in *. by apply Forall_cons in H0 as [_ ?].
Qed.

(** [out] and a terminator over what comes next *)
Lemma terminate m o j t w r x : split_at m o j (x :: t) w r -> Forall (fun c => c <> 0) o ->
  exists m', wr m w 0 = Ret m' /\ cstr_at m' 0 = Ret o.
Proof.
  intros Hm Hz. assert (E : exists m' j' t', wr m w 0 = Ret m' /\ m' = o ++ 0 :: j' ++ t').
  { destruct j as [|y j].
    - destruct (copy_byte _ _ _ _ _ _ _ Hm) as (m0 & _ & _). destruct (change_head _ _ _ _ _ _ _ 0 Hm) as (m' & E & Hm' & _). exists m', [], t.
      destruct Hm as (_ & -> & ->). rewrite zlen_nil, Z.add_0_r in E. done.
    - destruct (write_over _ _ _ _ _ _ _ 0 Hm) as (m' & E & Hm' & _). exists m', j, (x :: t). split; [done|]. rewrite Hm', <- app_assoc. done. }
  destruct E as (m' & j' & t' & E & ->). eexists. split; [done|]. by apply (cstr_at_mid [] o).
Qed.

Lemma cleanpath_spec s post : Forall (fun c => c <> 0) s ->
  exists m, os_cleanpath (s ++ 0 :: post) = Ret m /\ cstr_at m 0 = Ret (clean s).
Proof.
  intros Hz. assert (Hgo : forall absolute t x, is_absolute s = absolute -> x = (if absolute then 1 else 0) -> foldl (step absolute) (O, []) (segments s) = foldl (step absolute) (O, []) (segments t) ->
    Forall (fun c => c <> 0) t -> (length t <= length s)%nat -> split_at (s ++ 0 :: post) (path_of absolute (O, [])) [] (t ++ 0 :: post) x x ->
    exists m, ('(path, w) ← clean_loop (S (length (s ++ 0 :: post))) (s ++ 0 :: post) x x x absolute; wr path w 0) = Ret m /\ cstr_at m 0 = Ret (clean s)).
  { intros absolute t x Ha Hx Hf Ht Hl Hm. assert (Hx' : x = zlen (path_of absolute (O, []))) by (subst x; by destruct absolute).
    destruct (clean_loop_spec absolute post (S (length (s ++ 0 :: post))) t (O, []) (s ++ 0 :: post) x) as (m & r & E & Hok & j & Hm' & _).
    - rewrite length_app. lia.
    - done.
    - split; [split; [constructor|done]|]. exists []. rewrite <- Hx'. split; [done|]. auto.
    - unfold leftlim_of in E. cbn [fst] in E. rewrite <- Hx' in E. rewrite E. cbn [mbind outcome_mbind].
      assert (Hclean : path_of absolute (foldl (step absolute) (O, []) (segments t)) = clean s) by (unfold clean; by rewrite Ha, Hf). rewrite Hclean in *.
      apply (terminate _ _ _ _ _ _ _ Hm'). by apply clean_bytes. }
  unfold os_cleanpath. destruct s as [|c s].
  - apply (Hgo false [] 0); try done.
  - change (rd ((c :: s) ++ 0 :: post) 0) with (Ret c). cbn [mbind outcome_mbind]. cbv zeta. pose proof Hz as [_ Hs]%Forall_cons. destruct (Z.eqb_spec c SLASH) as [->|Hc].
    + apply (Hgo true s 1); try done. cbn. lia.
    + apply (Hgo false (c :: s) 0); try done. cbn. by rewrite (proj2 (Z.eqb_neq c SLASH)).
Qed.

(** C12: [os_cleanpath] is the cleaning of segments: on every string it
    returns, stays inside the memory of the string and leaves [clean] of it
    there. *)
Theorem os_cleanpath_clean s post : Forall (fun c => c <> 0) s ->
  exists m, os_cleanpath (s ++ 0 :: post) = Ret m /\ cstr_at m 0 = Ret (clean s).
Proof. apply cleanpath_spec. Qed.

(** cleaning a clean path changes nothing *)
Lemma foldl_proper absolute d names l : Forall proper l -> foldl (step absolute) (d, names) l = (d, reverse l ++ names).
Proof.
  intros Hl. revert names. induction Hl as [|s l (_ & H1 & H2 & H3) Hl IH]; intros names; [done|]. cbn [foldl]. unfold step at 2.
  rewrite decide_False by (intros [?|?]; done). rewrite decide_False by done. rewrite IH, reverse_cons, <- app_assoc. done.
Qed.

Lemma foldl_dotdots d k l : foldl (step false) (k, []) (replicate d DOTDOT ++ l) = foldl (step false) ((d + k)%nat, []) l.
Proof.
  revert k. induction d as [|d IH]; intros k; [done|]. cbn [replicate app foldl]. unfold step at 2. rewrite decide_False by (intros [?|?]; done). rewrite decide_True by done.
  rewrite IH. do 2 f_equal. lia.
Qed.

(** the segments of a path that was put together lead back to its state *)
Lemma path_state absolute st : state_ok absolute st ->
  is_absolute (path_of absolute st) = absolute /\ foldl (step absolute) (O, []) (segments (path_of absolute st)) = st.
Proof.
  destruct st as [d names]. intros [Hn Hd]. cbn [fst snd] in *. assert (Hseg : Forall no_slash (replicate d DOTDOT ++ reverse names)).
  { apply Forall_app. split; [apply Forall_replicate; by repeat constructor|]. rewrite Forall_reverse. eapply Forall_impl; [exact Hn|]. by intros ? [? _]. }
  pose proof (reverse_proper _ Hn) as Hr. unfold path_of. cbn [fst snd]. destruct absolute.
  - rewrite (Hd eq_refl) in *. split; [done|]. cbn [replicate app segments]. change (SLASH =? SLASH) with true. cbn iota. cbn [foldl]. rewrite step_nil.
    destruct (decide (reverse names = [])) as [E|Hne]; [apply (f_equal reverse) in E; rewrite reverse_involutive in E; by subst|].
    rewrite segments_join by done. rewrite foldl_proper by done. by rewrite app_nil_r, reverse_involutive.
  - cbn [app]. destruct (decide (replicate d DOTDOT ++ reverse names = [])) as [E|Hne].
    { apply app_eq_nil in E as [E1 E2]. apply (f_equal reverse) in E2. rewrite reverse_involutive in E2. subst. by destruct d. }
    assert (Ha : is_absolute (join (replicate d DOTDOT ++ reverse names)) = false).
    { destruct d as [|d]; [|by destruct d; [destruct (reverse names)|]]. cbn [replicate app] in *. destruct (reverse names) as [|x l]; [done|].
      rewrite join_cons. apply Forall_cons in Hr as [(Hx & Hxn & _) _]. destruct x as [|c x]; [done|]. apply Forall_cons in Hx as [Hc _]. cbn. by apply Z.eqb_neq. }
    split; [done|]. rewrite segments_join by done. rewrite foldl_dotdots, Nat.add_0_r, foldl_proper by done. by rewrite app_nil_r, reverse_involutive.
Qed.

Lemma clean_clean s : clean (clean s) = clean s.
Proof.
  destruct (path_state (is_absolute s) _ (clean_state s (is_absolute s))) as [Ha Hs]. fold (clean s) in Ha, Hs. unfold clean at 1. by rewrite Ha, Hs.
Qed.

(** ** Where a path leads *)

(** In a tree without symbolic links a segment leads from a directory, which is
    the list of the names above it, its own first, to another one; the root is
    its own parent. *)
Definition walk (dir : list bytes) (s : bytes) : list bytes :=
  if decide (s = [] \/ s = [DOT]) then dir else if decide (s = DOTDOT) then tail dir else s :: dir.

Definition resolve (cwd : list bytes) (s : bytes) : list bytes :=
  foldl walk (if is_absolute s then [] else cwd) (segments s).

(** where the state of the cleaning is *)
Definition place (absolute : bool) (cwd : list bytes) (st : nat * list bytes) : list bytes :=
  st.2 ++ if absolute then [] else drop st.1 cwd.

Lemma walk_step absolute cwd st s : walk (place absolute cwd st) s = place absolute cwd (step absolute st s).
Proof.
  destruct st as [d names]. unfold walk, step, place. destruct (decide (s = [] \/ s = [DOT])); [done|].
  destruct (decide (s = DOTDOT)); [|done]. destruct names as [|x names]; [|done]. destruct absolute; [done|]. cbn [fst snd app].
  assert (Ht : forall l : list bytes, tail l = drop 1 l) by (by intros []). by rewrite Ht, drop_drop, Nat.add_1_r.
Qed.

Lemma walk_steps absolute cwd l st : foldl walk (place absolute cwd st) l = place absolute cwd (foldl (step absolute) st l).
Proof. revert st. induction l as [|s l IH]; intros st; [done|]. cbn [foldl]. by rewrite walk_step, IH. Qed.

Lemma resolve_place cwd s : resolve cwd s = place (is_absolute s) cwd (foldl (step (is_absolute s)) (O, []) (segments s)).
Proof. rewrite <- walk_steps. unfold resolve, place. by destruct (is_absolute s). Qed.

Lemma resolve_clean cwd s : resolve cwd (clean s) = resolve cwd s.
Proof.
  destruct (path_state (is_absolute s) _ (clean_state s (is_absolute s))) as [Ha Hs]. fold (clean s) in Ha, Hs. by rewrite !resolve_place, Ha, Hs.
Qed.

(** C13: a cleaned path leads where the path led, from every directory, and
    climbs no further than it has to: two dots are only at its front, in an
    absolute path there are none, and behind them are names of which none is
    empty, a dot or a double dot. *)
Theorem os_cleanpath_below s post : Forall (fun c => c <> 0) s ->
  exists m r ups names, os_cleanpath (s ++ 0 :: post) = Ret m /\ cstr_at m 0 = Ret r /\
    r = (if is_absolute s then [SLASH] else []) ++ join (replicate ups DOTDOT ++ names) /\ Forall proper names /\
    (is_absolute s = true -> ups = O) /\ forall cwd, resolve cwd r = resolve cwd s.
Proof.
  intros Hz. destruct (cleanpath_spec s post Hz) as (m & E & Hm). pose proof (clean_state s (is_absolute s)) as [Hn Hd].
  eexists m, _, _, _. split; [done|]. split; [done|]. split; [reflexivity|]. split; [by apply reverse_proper|]. split; [done|].
  intros cwd. apply resolve_clean.
Qed.

(** ** Modes of files *)

Definition O_RDONLY : Z := 0.
Definition O_WRONLY : Z := 1.
Definition O_RDWR : Z := 2.
Definition O_APPEND : Z := 8.
Definition O_CREAT : Z := 0x200.
Definition O_TRUNC : Z := 0x400.
Definition O_EXCL : Z := 0x800.
Definition O_CLOEXEC : Z := 0x100000.

Fixpoint mode_loop (s : bytes) (oflags mods : Z) : option (Z * Z) :=
  match s with
  | [] => Some (oflags, mods)
  | ch :: s =>
      if ch =? 43 then mode_loop s O_RDWR mods
      else if ch =? 98 then mode_loop s oflags mods
      else if ch =? 101 then mode_loop s oflags (Z.lor mods O_CLOEXEC)
      else if ch =? 120 then mode_loop s oflags (Z.lor mods O_EXCL)
      else None
  end.

(** [*outflags] when it is set *)
Definition os_mode2flags (modestr : bytes) : option Z :=
  let first :=
    match modestr with
    | ch :: s =>
        if ch =? 97 then Some (s, O_WRONLY, Z.lor O_CREAT O_APPEND)
        else if ch =? 114 then Some (s, O_RDONLY, 0)
        else if ch =? 119 then Some (s, O_WRONLY, Z.lor O_CREAT O_TRUNC)
        else None
    | [] => None
    end in
  match first with
  | None => None
  | Some (s, oflags, mods) =>
      match mode_loop s oflags mods with
      | None => None
      | Some (oflags, mods) => if (oflags =? O_RDONLY) && flag_set mods O_EXCL then None else Some (Z.lor oflags mods)
      end
  end.

(** ** Directories *)

(** [mkdir] gives the error number, [chown] whether it succeeds *)
Class Dirs (W : Type) : Type := {
  mkdir : W -> bytes -> W * option Z;
  chown : W -> bytes -> W * bool;
}.

Definition OS_OK : Z := 0.
Definition OS_ERR : Z := -1.
Definition EEXIST : Z := 17.
Definition EISDIR : Z := 21.
Definition PATHBUFSZ : Z := 2048.

Section Directories.
Context {W : Type} `{Dirs W}.

(** a directory is made and given to its owner, or is already there *)
Definition make_dir (w : W) (path : bytes) : W * bool :=
  match mkdir w path with
  | (w, None) => chown w path
  | (w, Some e) => (w, (e =? EEXIST) || (e =? EISDIR))
  end.

Fixpoint trim_loop (n : nat) (m : bytes) (curr : Z) : outcome (bytes * Z) :=
  match n with
  | O => OutOfFuel
  | S n =>
      if 0 <? curr then
        c ← rd m curr;
        if c =? SLASH then m ← wr m curr 0; trim_loop n m (curr - 1) else Ret (m, curr)
      else Ret (m, curr)
  end.

Fixpoint skip_slashes (n : nat) (m : bytes) (curr : Z) : outcome Z :=
  match n with
  | O => OutOfFuel
  | S n => c ← rd m (curr + 1); if c =? SLASH then skip_slashes n m (curr + 1) else Ret curr
  end.

Fixpoint dirs_loop (n : nat) (w : W) (m : bytes) (curr : Z) : outcome (W * bytes * bool) :=
  match n with
  | O => OutOfFuel
  | S n =>
      c ← rd m curr;
      if c =? 0 then Ret (w, m, true)
      else if c =? SLASH then
        m ← wr m curr 0;
        p ← cstr_at m 0;
        let '(w, ok) := make_dir w p in
        if (ok : bool) then
          m ← wr m curr SLASH;
          curr ← skip_slashes (S (length m)) m curr;
          dirs_loop n w m (curr + 1)
        else Ret (w, m, false)
      else dirs_loop n w m (curr + 1)
  end.

Definition os_mkdirp (w : W) (path : option bytes) : outcome (W * Z) :=
  match path with
  | None | Some [] => Ret (w, OS_OK)
  | Some s =>
      if PATHBUFSZ <=? zlen s then Ret (w, OS_ERR)
      else
        '(m, curr) ← trim_loop (S (length s)) (s ++ [0]) (zlen s - 1);
        if curr =? 0 then Ret (w, OS_OK)
        else
          '(w, m, ok) ← dirs_loop (S (length m)) w m 1;
          if negb (ok : bool) then Ret (w, OS_ERR)
          else
            p ← cstr_at m 0;
            let '(w, ok) := make_dir w p in
            Ret (w, if (ok : bool) then OS_OK else OS_ERR)
  end.

(** A directory whose name is one character is never made, with slashes behind
    it or not, and the result is success *)
Theorem os_mkdirp_one_char w c n : Z.of_nat n < 2047 -> os_mkdirp w (Some (c :: replicate n SLASH)) = Ret (w, OS_OK).
Proof.
  intros Hn. unfold os_mkdirp. rewrite (proj2 (Z.leb_gt _ _)) by (zlen_simpl; unfold PATHBUFSZ; lia).
  assert (E : forall k t fuel, (k < fuel)%nat -> exists m, trim_loop fuel ((c :: replicate k SLASH) ++ t) (Z.of_nat k) = Ret (m, 0)).
  { induction k as [|k IH]; intros t fuel Hk; (destruct fuel as [|fuel]; [lia|]); cbn [trim_loop]; [by eexists|].
    assert (Er : (c :: replicate (S k) SLASH) ++ t = (c :: replicate k SLASH) ++ SLASH :: t) by (rewrite replicate_S_end; cbn; by rewrite <- app_assoc).
    assert (Ez : Z.of_nat (S k) = zlen (c :: replicate k SLASH)) by (zlen_simpl; lia).
    rewrite (proj2 (Z.ltb_lt 0 _)) by lia. rewrite Er, Ez, rd_mid. cbn [mbind outcome_mbind]. change (SLASH =? SLASH) with true. cbn iota.
    rewrite wr_in by (pose proof (zlen_nonneg t); zlen_simpl; lia). cbn [mbind outcome_mbind].
    assert (Ei : <[Z.to_nat (zlen (c :: replicate k SLASH)):=0]> ((c :: replicate k SLASH) ++ SLASH :: t) = (c :: replicate k SLASH) ++ 0 :: t).
    { unfold zlen. rewrite Nat2Z.id, insert_app_r_alt, Nat.sub_diag by lia. done. }
    rewrite Ei. replace (zlen (c :: replicate k SLASH) - 1) with (Z.of_nat k) by (zlen_simpl; lia). apply IH. lia. }
  replace (zlen (c :: replicate n SLASH) - 1) with (Z.of_nat n) by (zlen_simpl; lia).
  destruct (E n [0] (S (length (c :: replicate n SLASH)))) as [m ->]; [cbn [length]; rewrite length_replicate; lia|]. done.
Qed.

End Directories.

(** ** On concrete paths *)

(** the calls of a world where everything works *)
#[local] Instance log_dirs : Dirs (list bytes) := {| mkdir w p := (w ++ [p], None); chown w p := (w, true) |}.

Example mkdirp_absolute : os_mkdirp (W := list bytes) [] (Some (lit "/var//db/x/")) = Ret ([lit "/var"; lit "/var//db"; lit "/var//db/x"], OS_OK).
Proof. by vm_compute. Qed.

Example mode_append : os_mode2flags (lit "a+e") = Some (Z.lor O_RDWR (Z.lor (Z.lor O_CREAT O_APPEND) O_CLOEXEC)).
Proof. by vm_compute. Qed.

Lemma os_cleanpath_clean_witness : exists m, os_cleanpath (lit "a/./b//../../../x/" ++ [0; 7]) = Ret m /\ cstr_at m 0 = Ret (lit "../x").
Proof. apply (os_cleanpath_clean (lit "a/./b//../../../x/") [7]). repeat constructor; by cbv. Defined.

Lemma os_cleanpath_below_witness : exists m r ups names, os_cleanpath (lit "a/../../b/./c" ++ [0]) = Ret m /\ cstr_at m 0 = Ret r /\
  r = (if is_absolute (lit "a/../../b/./c") then [SLASH] else []) ++ join (replicate ups DOTDOT ++ names) /\ Forall proper names /\
  (is_absolute (lit "a/../../b/./c") = true -> ups = O) /\ forall cwd, resolve cwd r = resolve cwd (lit "a/../../b/./c").
Proof. apply (os_cleanpath_below (lit "a/../../b/./c") []). repeat constructor; by cbv. Defined.
