(* ===== verification/Url.v ===== *)
(** * URLs (src/lib/net/url.c, src/lib/net/url.h) *)

From S2P Require Import Prelude CLib Segments Buf.

(** ** Dot segments *)

(** [while(w > 0 && s[--w] != '/')] *)
Fixpoint up_loop (n : nat) (m : bytes) (w : Z) : outcome Z :=
  match n with
  | O => OutOfFuel
  | S n =>
      if 0 <? w then
        c ← rd m (w - 1);
        if negb (c =? SLASH) then up_loop n m (w - 1) else Ret (w - 1)
      else Ret w
  end.

(** [do { s[w++] = s[r++]; } while (r < len && s[r] != '/')] *)
Fixpoint move_loop (n : nat) (m : bytes) (r w len : Z) : outcome (bytes * Z * Z) :=
  match n with
  | O => OutOfFuel
  | S n =>
      c ← rd m r;
      m ← wr m w c;
      if r + 1 <? len then
        c ← rd m (r + 1);
        if negb (c =? SLASH) then move_loop n m (r + 1) (w + 1) len else Ret (m, r + 1, w + 1)
      else Ret (m, r + 1, w + 1)
  end.

(** [s[i] == p[0] && s[i+1] == p[1] && ...] *)
Fixpoint matches (m : bytes) (i : Z) (p : bytes) : outcome bool :=
  match p with
  | [] => Ret true
  | x :: p => c ← rd m i; if c =? x then matches m (i + 1) p else Ret false
  end.

(** the same behind a test on the number of characters *)
Definition guarded (b : bool) (m : bytes) (i : Z) (p : bytes) : outcome bool := if b then matches m i p else Ret false.

Fixpoint dots_loop (n : nat) (m : bytes) (r w len : Z) : outcome (bytes * Z) :=
  match n with
  | O => OutOfFuel
  | S n =>
      if negb (r <? len) then Ret (m, w)
      else
        b ← guarded (r + 1 <? len) m r [DOT; SLASH];
        if (b : bool) then dots_loop n m (r + 2) w len else
        b ← guarded (r + 2 <? len) m r [DOT; DOT; SLASH];
        if (b : bool) then dots_loop n m (r + 3) w len else
        b ← guarded (r + 2 <? len) m r [SLASH; DOT; SLASH];
        if (b : bool) then dots_loop n m (r + 2) w len else
        b ← guarded (r + 2 =? len) m r [SLASH; DOT];
        if (b : bool) then m ← wr m (r + 1) SLASH; dots_loop n m (r + 1) w len else
        b ← guarded (r + 3 <? len) m r [SLASH; DOT; DOT; SLASH];
        if (b : bool) then w ← up_loop (S (length m)) m w; dots_loop n m (r + 3) w len else
        b ← guarded (r + 3 =? len) m r [SLASH; DOT; DOT];
        if (b : bool) then m ← wr m (r + 2) SLASH; w ← up_loop (S (length m)) m w; dots_loop n m (r + 2) w len else
        b ← guarded (r + 1 =? len) m r [DOT];
        if (b : bool) then dots_loop n m (r + 1) w len else
        b ← guarded (r + 2 =? len) m r [DOT; DOT];
        if (b : bool) then dots_loop n m (r + 2) w len else
        '(m, r, w) ← move_loop (S (length m)) m r w len;
        dots_loop n m r w len
  end.

(** the string with its new length *)
Definition url_remove_dot_segments (s : bytes) (len : Z) : outcome (bytes * Z) :=
  dots_loop (S (Z.to_nat len)) s 0 0 len.

(** *** The procedure of RFC 3986, section 5.2.4 *)

Fixpoint strip_prefix (p s : bytes) : option bytes :=
  match p, s with
  | [], s => Some s
  | x :: p, c :: s => if c =? x then strip_prefix p s else None
  | _ :: _, [] => None
  end.

(** the output buffer without its last segment and the slash before it, if any *)
Fixpoint after_slash (s : bytes) : bytes :=
  match s with c :: s => if c =? SLASH then s else after_slash s | [] => [] end.

Definition remove_last (out : bytes) : bytes := reverse (after_slash (reverse out)).

(** the first segment with the slash before it, up to the next slash, and what
    follows *)
Fixpoint until_slash (s : bytes) : bytes * bytes :=
  match s with
  | c :: s' => if c =? SLASH then ([], s) else let '(a, b) := until_slash s' in (c :: a, b)
  | [] => ([], [])
  end.

Definition first_part (s : bytes) : bytes * bytes :=
  match s with c :: s => let '(a, b) := until_slash s in (c :: a, b) | [] => ([], []) end.

(** a step of the loop on the input and the output buffer *)
Definition rfc_step (inp out : bytes) : bytes * bytes :=
  match strip_prefix [DOT; DOT; SLASH] inp, strip_prefix [DOT; SLASH] inp, strip_prefix [SLASH; DOT; SLASH] inp, strip_prefix [SLASH; DOT; DOT; SLASH] inp with
  | Some s, _, _, _ => (s, out)
  | None, Some s, _, _ => (s, out)
  | None, None, Some s, _ => (SLASH :: s, out)
  | None, None, None, Some s => (SLASH :: s, remove_last out)
  | None, None, None, None =>
      if decide (inp = [SLASH; DOT]) then ([SLASH], out)
      else if decide (inp = [SLASH; DOT; DOT]) then ([SLASH], remove_last out)
      else if decide (inp = [DOT] \/ inp = [DOT; DOT]) then ([], out)
      else let '(seg, s) := first_part inp in (s, out ++ seg)
  end.

(** every step makes the input shorter *)
Fixpoint rfc_loop (n : nat) (inp out : bytes) : bytes :=
  match n, inp with
  | S n, _ :: _ => let '(inp, out) := rfc_step inp out in rfc_loop n inp out
  | _, _ => out
  end.

Definition rfc3986_remove_dot_segments (s : bytes) : bytes := rfc_loop (length s) s [].

(** *** The code follows the procedure *)

Lemma strip_prefix_app p s r : strip_prefix p s = Some r <-> s = p ++ r.
Proof.
  revert s. induction p as [|x p IH]; intros s; cbn [strip_prefix app]; [split; [by intros [= ->]|by intros ->]|].
  destruct s as [|c s]; [done|]. destruct (Z.eqb_spec c x) as [->|Hc]; [|split; [done|by intros [= ? ?]]].
  rewrite IH. split; [by intros ->|by intros [= ->]].
Qed.

Definition is_prefix (p s : bytes) : bool := match strip_prefix p s with Some _ => true | None => false end.

Lemma matches_spec p : forall m o j t post w r i, split_at m o j (t ++ post) w r -> 0 <= i -> (Z.to_nat i + length p <= length t)%nat ->
  matches m (r + i) p = Ret (is_prefix p (drop (Z.to_nat i) t)).
Proof.
  unfold is_prefix. induction p as [|x p IH]; intros m o j t post w r i Hm Hi Hl; [done|]. cbn [matches].
  destruct (lookup_lt_is_Some_2 t (Z.to_nat i)) as [c Hc]; [cbn [length] in Hl; lia|].
  rewrite (rd_unread _ _ _ _ _ _ i Hm Hi), (proj2 (rd_ret _ i c)) by (split; [done|by apply lookup_app_l_Some]). cbn [mbind outcome_mbind].
  rewrite (drop_S _ _ _ Hc). cbn [strip_prefix]. destruct (c =? x); [|done]. rewrite <- Z.add_assoc, (IH m o j t post w r (i + 1) Hm) by (cbn [length] in Hl; lia).
  by replace (Z.to_nat (i + 1)) with (S (Z.to_nat i)) by lia.
Qed.

(** the guards: a proper part of what is left, or all of it *)
Lemma guarded_lt p m o j t post w r len k : split_at m o j (t ++ post) w r -> len = r + zlen t -> k = zlen p - 1 ->
  guarded (r + k <? len) m r p = Ret (is_prefix p t).
Proof.
  intros Hm -> ->. unfold guarded. destruct (Z.ltb_spec (r + (zlen p - 1)) (r + zlen t)).
  - rewrite <- (Z.add_0_r r). rewrite (matches_spec p m o j t post w r 0 Hm) by (unfold zlen in *; lia). done.
  - unfold is_prefix. destruct (strip_prefix p t) as [s|] eqn:E; [|done]. apply strip_prefix_app in E as ->. zlen_simpl. pose proof (zlen_nonneg s). lia.
Qed.

Lemma guarded_eq p m o j t post w r len k : split_at m o j (t ++ post) w r -> len = r + zlen t -> k = zlen p ->
  guarded (r + k =? len) m r p = Ret (bool_decide (t = p)).
Proof.
  intros Hm -> ->. unfold guarded. destruct (Z.eqb_spec (r + zlen p) (r + zlen t)) as [E|E].
  - rewrite <- (Z.add_0_r r). rewrite (matches_spec p m o j t post w r 0 Hm) by (unfold zlen in *; lia). f_equal. unfold is_prefix. rewrite drop_0.
    destruct (strip_prefix p t) as [s|] eqn:Es.
    + apply strip_prefix_app in Es as ->. zlen_simpl. destruct s as [|x s]; [by rewrite app_nil_r, bool_decide_true|zlen_simpl; pose proof (zlen_nonneg s); lia].
    + symmetry. apply bool_decide_eq_false. intros ->. assert (strip_prefix p p = Some []) by (apply strip_prefix_app; by rewrite app_nil_r). congruence.
  - symmetry. f_equal. apply bool_decide_eq_false. intros ->. lia.
Qed.

Lemma up_loop_spec m o j t r : forall n, split_at m o j t (zlen o) r -> (length o < n)%nat ->
  up_loop n m (zlen o) = Ret (zlen (remove_last o)) /\ exists o2, o = remove_last o ++ o2.
Proof.
  unfold remove_last. revert j. induction o as [|c o IH] using rev_ind; intros j n Hm Hn; (destruct n as [|n]; [lia|]); cbn [up_loop].
  - split; [done|by exists []].
  - pose proof (zlen_nonneg o). rewrite zlen_app in *. change (zlen [c]) with 1 in *. rewrite (proj2 (Z.ltb_lt _ _)) by lia. replace (zlen o + 1 - 1) with (zlen o) by lia.
    rewrite (rd_written _ _ _ _ _ _ _ c Hm) by (try lia; unfold zlen; rewrite Nat2Z.id; by apply list_lookup_middle). cbn [mbind outcome_mbind].
    rewrite reverse_snoc. cbn [after_slash]. destruct (Z.eqb_spec c SLASH) as [->|Hc]; cbn [negb].
    + rewrite reverse_involutive. split; [done|by exists [SLASH]].
    + assert (Hm' : split_at m o ([c] ++ j) t (zlen o) r) by (by eapply unwrite).
      destruct (IH _ n Hm') as [E (o2 & Eo)]; [rewrite length_app in Hn; cbn in Hn; lia|]. split; [done|]. exists (o2 ++ [c]). by rewrite app_assoc, <- Eo.
Qed.

Lemma until_slash_app s : s = (until_slash s).1 ++ (until_slash s).2.
Proof. induction s as [|c s IH]; [done|]. cbn [until_slash]. destruct (c =? SLASH); [done|]. destruct (until_slash s) as [a b]. cbn in *. by rewrite <- IH. Qed.

Lemma move_loop_spec : forall s n x m o j post w r len, split_at m o j (x :: s ++ post) w r -> len = r + 1 + zlen s -> (length s < n)%nat ->
  exists m' j', move_loop n m r w len = Ret (m', r + zlen (first_part (x :: s)).1, w + zlen (first_part (x :: s)).1) /\
    split_at m' (o ++ (first_part (x :: s)).1) j' ((first_part (x :: s)).2 ++ post) (w + zlen (first_part (x :: s)).1) (r + zlen (first_part (x :: s)).1).
Proof.
  induction s as [|c s IH]; intros n x m o j post w r len Hm -> Hn; (destruct n as [|n]; [cbn in Hn; lia|]); cbn [move_loop];
    rewrite (rd_head _ _ _ _ _ _ _ Hm); cbn [mbind outcome_mbind]; destruct (copy_byte _ _ _ _ _ _ _ Hm) as (m1 & j1 & -> & Hm1 & _); cbn [mbind outcome_mbind].
  - rewrite (proj2 (Z.ltb_ge _ _)) by (rewrite zlen_nil; lia). by exists m1, j1.
  - rewrite (proj2 (Z.ltb_lt _ _)) by (zlen_simpl; pose proof (zlen_nonneg s); lia). cbn [app] in Hm1. rewrite (rd_head _ _ _ _ _ _ _ Hm1). cbn [mbind outcome_mbind].
    cbn [first_part until_slash]. destruct (Z.eqb_spec c SLASH) as [->|Hc]; cbn [negb]; [by exists m1, j1|].
    destruct (IH n c m1 (o ++ [x]) j1 post (w + 1) (r + 1) (r + 1 + zlen (c :: s)) Hm1) as (m2 & j2 & E & Hm2); [zlen_simpl; lia|cbn in Hn; lia|].
    cbn [first_part] in E, Hm2. destruct (until_slash s) as [a b]. cbn [fst snd] in *. exists m2, j2. rewrite <- app_assoc in Hm2. cbn [app] in Hm2.
    replace (r + zlen (x :: c :: a)) with (r + 1 + zlen (c :: a)) by (zlen_simpl; lia). replace (w + zlen (x :: c :: a)) with (w + 1 + zlen (c :: a)) by (zlen_simpl; lia). done.
Qed.

Lemma first_part_shorter x s : (length (first_part (x :: s)).2 <= length s)%nat /\ x :: s = (first_part (x :: s)).1 ++ (first_part (x :: s)).2.
Proof.
  cbn [first_part]. pose proof (until_slash_app s) as E. destruct (until_slash s) as [a b]. cbn [fst snd] in *. split; [rewrite E, length_app; lia|]. cbn. by rewrite <- E.
Qed.

(** a prefix of what is left is passed over *)
Lemma pass m o j p s post w r : split_at m o j ((p ++ s) ++ post) w r -> split_at m o (j ++ p) (s ++ post) w (r + zlen p).
Proof. rewrite <- app_assoc. apply read_many. Qed.

Ltac prefix_at E := apply strip_prefix_app in E; cbn [app] in E.

Lemma dots_loop_spec post : forall n t m o j r fuel, split_at m o j (t ++ post) (zlen o) r -> (length t < n)%nat -> (length t <= fuel)%nat ->
  exists m' j' r', dots_loop n m r (zlen o) (r + zlen t) = Ret (m', zlen (rfc_loop fuel t o)) /\
    split_at m' (rfc_loop fuel t o) j' post (zlen (rfc_loop fuel t o)) r'.
Proof.
  induction n as [|n IH]; intros t m o j r fuel Hm Hn Hf; [lia|]. cbn [dots_loop]. destruct t as [|x s0].
  { rewrite zlen_nil, Z.add_0_r, Z.ltb_irrefl. destruct fuel; by exists m, j, r. }
  set (t := x :: s0) in *. pose proof (zlen_nonneg s0) as H0. rewrite (proj2 (Z.ltb_lt r _)) by (unfold t; zlen_simpl; lia). cbn [negb].
  destruct fuel as [|fuel]; [cbn in Hf; lia|]. assert (Er : rfc_loop (S fuel) t o = let '(inp, out) := rfc_step t o in rfc_loop fuel inp out) by done. rewrite Er. clear Er.
  rewrite !(guarded_lt _ m o j t post (zlen o) r (r + zlen t) _ Hm eq_refl), !(guarded_eq _ m o j t post (zlen o) r (r + zlen t) _ Hm eq_refl) by done.
  cbn [mbind outcome_mbind]. unfold is_prefix, rfc_step.
  assert (IHp : forall p s o', t = p ++ s -> 0 < zlen p -> split_at m o' (j ++ p) (s ++ post) (zlen o') (r + zlen p) -> exists m' j' r',
    dots_loop n m (r + zlen p) (zlen o') (r + zlen t) = Ret (m', zlen (rfc_loop fuel s o')) /\ split_at m' (rfc_loop fuel s o') j' post (zlen (rfc_loop fuel s o')) r').
  { intros p s o' Et Hp Hm'. rewrite Et in *. rewrite zlen_app, Z.add_assoc. eapply IH; [exact Hm'|..]; rewrite length_app in *; unfold zlen in Hp; lia. }
  assert (Hpass : forall p s, t = p ++ s -> split_at m o (j ++ p) (s ++ post) (zlen o) (r + zlen p)) by (intros p s Et; apply pass; by rewrite <- Et).
  destruct (strip_prefix [DOT; SLASH] t) as [s|] eqn:E2.
  { prefix_at E2. rewrite E2. change (strip_prefix [DOT; DOT; SLASH] (DOT :: SLASH :: s)) with (@None bytes). rewrite <- E2. by apply (IHp [DOT; SLASH]), Hpass. }
  destruct (strip_prefix [DOT; DOT; SLASH] t) as [s|] eqn:E1; [prefix_at E1; by apply (IHp [DOT; DOT; SLASH]), Hpass|].
  destruct (strip_prefix [SLASH; DOT; SLASH] t) as [s|] eqn:E3.
  { prefix_at E3. by apply (IHp [SLASH; DOT] (SLASH :: s)), Hpass. }
  destruct (decide (t = [SLASH; DOT])) as [Et|Hne1].
  { rewrite bool_decide_true by done. assert (E4 : strip_prefix [SLASH; DOT; DOT; SLASH] t = None) by (by rewrite Et). rewrite E4.
    rewrite Et in Hm |- *. destruct (change_head _ _ _ _ _ _ _ SLASH (read_on _ _ _ _ _ _ _ Hm)) as (m1 & -> & Hm1). cbn [mbind outcome_mbind].
    replace (r + zlen [SLASH; DOT]) with (r + 1 + zlen [SLASH]) by (zlen_simpl; lia). apply (IH [SLASH] m1 o (j ++ [SLASH]) (r + 1)); [done|rewrite Et in Hn; cbn in *; lia|rewrite Et in Hf; cbn in *; lia]. }
  rewrite bool_decide_false by done. destruct (up_loop_spec m o j (t ++ post) r (S (length m)) Hm) as [Eup (o2 & Eo)].
  { destruct Hm as (-> & _). rewrite length_app. lia. }
  destruct (strip_prefix [SLASH; DOT; DOT; SLASH] t) as [s|] eqn:E4.
  { prefix_at E4. rewrite Eup. cbn [mbind outcome_mbind]. rewrite Eo in Hm. pose proof (unwrite _ _ _ _ _ _ _ Hm) as Hm'. rewrite E4 in Hm'. pose proof (pass m _ _ [SLASH; DOT; DOT] (SLASH :: s) post _ _ Hm') as Hm2.
    rewrite E4. replace (r + zlen (SLASH :: DOT :: DOT :: SLASH :: s)) with (r + 3 + zlen (SLASH :: s)) by (zlen_simpl; lia).
    eapply (IH (SLASH :: s)); [exact Hm2|rewrite E4 in Hn; cbn in *; lia|rewrite E4 in Hf; cbn in *; lia]. }
  destruct (decide (t = [SLASH; DOT; DOT])) as [Et|Hne2].
  { rewrite bool_decide_true by done. rewrite Et in Hm |- *. pose proof (read_many _ _ _ [SLASH; DOT] _ _ _ Hm) as Hm1. change (zlen [SLASH; DOT]) with 2 in Hm1.
    destruct (change_head _ _ _ _ _ _ _ SLASH Hm1) as (m1 & -> & Hm2). cbn [mbind outcome_mbind].
    destruct (up_loop_spec m1 o _ _ _ (S (length m1)) Hm2) as [Eup1 _]; [destruct Hm2 as (-> & _); rewrite length_app; lia|]. rewrite Eup1. cbn [mbind outcome_mbind].
    rewrite Eo in Hm2. pose proof (unwrite _ _ _ _ _ _ _ Hm2) as Hm3. replace (r + zlen [SLASH; DOT; DOT]) with (r + 2 + zlen [SLASH]) by (zlen_simpl; lia).
    eapply (IH [SLASH]); [exact Hm3|rewrite Et in Hn; cbn in *; lia|rewrite Et in Hf; cbn in *; lia]. }
  rewrite bool_decide_false by done.
  destruct (decide (t = [DOT])) as [Et|Hne3].
  { rewrite bool_decide_true by done. rewrite (decide_True (P := t = [DOT] \/ t = [DOT; DOT])) by (by left). apply (IHp [DOT] []); [by rewrite app_nil_r|done|]. apply Hpass. by rewrite app_nil_r. }
  rewrite bool_decide_false by done. destruct (decide (t = [DOT; DOT])) as [Et|Hne4].
  { rewrite bool_decide_true by done. rewrite (decide_True (P := t = [DOT] \/ t = [DOT; DOT])) by (by right). apply (IHp [DOT; DOT] []); [by rewrite app_nil_r|done|]. apply Hpass. by rewrite app_nil_r. }
  rewrite bool_decide_false by done. rewrite (decide_False (P := t = [DOT] \/ t = [DOT; DOT])) by (by intros [?|?]).
  destruct (move_loop_spec s0 (S (length m)) x m o j post (zlen o) r (r + zlen t)) as (m1 & j1 & -> & Hm1); [done|unfold t; zlen_simpl; lia|destruct Hm as (-> & _); unfold t; rewrite !length_app; cbn; lia|].
  cbn [mbind outcome_mbind]. destruct (first_part_shorter x s0) as [Hsh Et]. fold t in Hsh, Et, Hm1 |- *. destruct (first_part t) as [seg s]. cbn [fst snd] in *.
  replace (zlen o + zlen seg) with (zlen (o ++ seg)) in * by (by rewrite zlen_app). replace (r + zlen t) with (r + zlen seg + zlen s) by (rewrite Et, zlen_app; lia).
  eapply (IH s); [exact Hm1|cbn in Hn; lia|cbn in Hf; lia].
Qed.

Lemma remove_dot_segments_spec s post : exists m j,
  url_remove_dot_segments (s ++ post) (zlen s) = Ret (m, zlen (rfc3986_remove_dot_segments s)) /\ m = rfc3986_remove_dot_segments s ++ j ++ post.
Proof.
  destruct (dots_loop_spec post (S (length s)) s (s ++ post) [] [] 0 (length s)) as (m & j & r & E & Hm); [done|lia|lia|].
  exists m, j. unfold url_remove_dot_segments. replace (Z.to_nat (zlen s)) with (length s) by (unfold zlen; lia). split; [exact E|]. by destruct Hm as (-> & _).
Qed.

(** C11: [url_remove_dot_segments] is the procedure of RFC 3986: on every path
    it returns, without a look at what follows the path in memory, and leaves
    the output of the procedure at the start, in the length it returns, and
    what follows the path as it was. *)
Theorem url_remove_dot_segments_rfc s post :
  exists m j, url_remove_dot_segments (s ++ post) (zlen s) = Ret (m, zlen (rfc3986_remove_dot_segments s)) /\
    m = rfc3986_remove_dot_segments s ++ j ++ post.
Proof. apply remove_dot_segments_spec. Qed.

(** *** No dot segments are left *)

Definition dotless (s : bytes) : Prop := Forall (fun x => x <> [DOT] /\ x <> [DOT; DOT]) (segments s).

Lemma segments_snoc s x : no_slash x -> segments (s ++ SLASH :: x) = segments s ++ [x].
Proof.
  intros Hx. assert (Ex : segments x = [x]) by (rewrite <- (app_nil_r x) at 1; rewrite segments_first; [done|done|by left]).
  induction s as [|c s IH]; cbn [app segments].
  - change (SLASH =? SLASH) with true. cbn iota. by rewrite Ex.
  - rewrite IH. destruct (c =? SLASH); [done|]. destruct (segments s) as [|h l] eqn:E; [by apply segments_nonempty in E|done].
Qed.

(** the last segment with its slash, or all there is *)
Lemma last_segment s : no_slash s \/ exists s1 x, s = s1 ++ SLASH :: x /\ no_slash x.
Proof.
  induction s as [|c s [IH|(s1 & x & -> & Hx)]]; [left; constructor| |].
  - destruct (decide (c = SLASH)) as [->|Hc]; [right; by exists [], s|left; by constructor].
  - right. by exists (c :: s1), x.
Qed.

Lemma after_slash_app a s : no_slash a -> after_slash (a ++ SLASH :: s) = s.
Proof. intros Ha. induction Ha as [|c a Hc Ha IH]; [done|]. cbn. by rewrite (proj2 (Z.eqb_neq c SLASH)). Qed.

Lemma after_slash_none a : no_slash a -> after_slash a = [].
Proof. intros Ha. induction Ha as [|c a Hc Ha IH]; [done|]. cbn. by rewrite (proj2 (Z.eqb_neq c SLASH)). Qed.

Lemma remove_last_dotless o : dotless o -> dotless (remove_last o).
Proof.
  intros Ho. unfold remove_last. destruct (last_segment o) as [Hn|(s1 & x & -> & Hx)].
  - rewrite after_slash_none by (unfold no_slash; by rewrite Forall_reverse). repeat constructor; done.
  - rewrite reverse_app, reverse_cons, <- app_assoc. cbn [app]. rewrite after_slash_app by (unfold no_slash; by rewrite Forall_reverse). rewrite reverse_involutive.
    unfold dotless in *. rewrite segments_snoc in Ho by done. by apply Forall_app in Ho as [? _].
Qed.

Lemma until_slash_spec s : no_slash (until_slash s).1 /\ ((until_slash s).2 = [] \/ exists s', (until_slash s).2 = SLASH :: s').
Proof.
  induction s as [|c s IH]; [split; [constructor|by left]|]. cbn [until_slash]. destruct (Z.eqb_spec c SLASH) as [->|Hc]; [split; [constructor|right; by eexists]|].
  destruct (until_slash s) as [a b]. cbn [fst snd] in *. destruct IH. split; [by constructor|done].
Qed.

(** the output has no dot segment, and is only added to behind a slash *)
Definition joined (inp out : bytes) : Prop := dotless out /\ (out = [] \/ inp = [] \/ exists s, inp = SLASH :: s).

Lemma rfc_step_joined x s out : joined (x :: s) out -> joined (rfc_step (x :: s) out).1 (rfc_step (x :: s) out).2.
Proof.
  intros [Ho Hj]. set (t := x :: s) in *. unfold rfc_step.
  destruct (strip_prefix [DOT; DOT; SLASH] t) as [s1|] eqn:E1.
  { prefix_at E1. split; [done|]. left. destruct Hj as [?|[?|[s2 Hs]]]; [done|done|]. by rewrite E1 in Hs. }
  destruct (strip_prefix [DOT; SLASH] t) as [s1|] eqn:E2.
  { prefix_at E2. split; [done|]. left. destruct Hj as [?|[?|[s2 Hs]]]; [done|done|]. by rewrite E2 in Hs. }
  destruct (strip_prefix [SLASH; DOT; SLASH] t) as [s1|] eqn:E3; [split; [done|right; right; by eexists]|].
  destruct (strip_prefix [SLASH; DOT; DOT; SLASH] t) as [s1|] eqn:E4; [split; [by apply remove_last_dotless|right; right; by eexists]|].
  destruct (decide (t = [SLASH; DOT])) as [|H1]; [split; [done|right; right; by eexists]|].
  destruct (decide (t = [SLASH; DOT; DOT])) as [|H2]; [split; [by apply remove_last_dotless|right; right; by eexists]|].
  destruct (decide (t = [DOT] \/ t = [DOT; DOT])) as [|H3]; [split; [done|right; by left]|].
  assert (Hno : forall p r, t = p ++ SLASH :: r -> p <> [DOT] /\ p <> [DOT; DOT] /\ p <> [SLASH; DOT] /\ p <> [SLASH; DOT; DOT]).
  { intros p r Et. split_and!; intros ->; cbn [app] in Et.
    - assert (strip_prefix [DOT; SLASH] t = Some r) by (by apply strip_prefix_app). congruence.
    - assert (strip_prefix [DOT; DOT; SLASH] t = Some r) by (by apply strip_prefix_app). congruence.
    - assert (strip_prefix [SLASH; DOT; SLASH] t = Some r) by (by apply strip_prefix_app). congruence.
    - assert (strip_prefix [SLASH; DOT; DOT; SLASH] t = Some r) by (by apply strip_prefix_app). congruence. }
  assert (Hp : forall p b, t = p ++ b -> b = [] \/ (exists s', b = SLASH :: s') -> p <> [DOT] /\ p <> [DOT; DOT] /\ p <> [SLASH; DOT] /\ p <> [SLASH; DOT; DOT]).
  { intros p b Et [->|[s' ->]]; [|by eapply Hno]. rewrite app_nil_r in Et. subst p. tauto. }
  destruct (first_part_shorter x s) as [_ Et]. fold t in Et. pose proof (until_slash_spec s) as Hu. unfold t in Et |- *. cbn [first_part] in *. destruct (until_slash s) as [a b]. cbn [fst snd] in *.
  destruct Hu as [Ha Hb]. destruct (Hp _ _ Et Hb) as (P1 & P2 & P3 & P4). split; [|right; destruct Hb as [->|?]; [by left|by right]].
  unfold dotless. destruct (decide (x = SLASH)) as [->|Hx].
  - rewrite segments_snoc by done. apply Forall_app. split; [done|]. constructor; [|constructor]. split; [by intros ->|by intros ->].
  - destruct Hj as [->|[?|[s2 Hs]]]; [|done|by injection Hs]. cbn [app]. rewrite <- (app_nil_r (x :: a)), segments_first; [by constructor|by constructor|by left].
Qed.

Lemma rfc_loop_dotless n : forall inp out, joined inp out -> dotless (rfc_loop n inp out).
Proof.
  induction n as [|n IH]; intros inp out [Ho Hj]; [done|]. destruct inp as [|x s]; [done|]. cbn [rfc_loop].
  pose proof (rfc_step_joined x s out (conj Ho Hj)) as H. destruct (rfc_step (x :: s) out) as [inp' out']. by apply IH.
Qed.

(** What [url_remove_dot_segments] leaves has no segment that is a dot or
    a double dot. *)
Theorem url_remove_dot_segments_dotless s post :
  exists m j r, url_remove_dot_segments (s ++ post) (zlen s) = Ret (m, zlen r) /\ m = r ++ j ++ post /\ dotless r.
Proof.
  destruct (remove_dot_segments_spec s post) as (m & j & E & Hm). exists m, j, (rfc3986_remove_dot_segments s). split; [done|]. split; [done|].
  apply rfc_loop_dotless. split; [repeat constructor; done|by left].
Qed.
