(* ===== verification/Punycode.v ===== *)
(** * Internationalised host names (src/lib/net/punycode.c)

    The encoding of a label is checked against the decoding procedure of
    RFC 3492.  [int32_t] arithmetic that overflows is undefined and counts as
    an access outside of an object, and so does a failed assertion.  The
    results of [buf_achar] and [buf_adata] are not looked at by the code.  The
    counts of code points, which labels of less than 2 GiB keep below 2^31, are
    not tested. *)

From S2P Require Import Prelude CLib Buf U8.
#[local] Abbreviation contents := Buf.contents.

Definition ACE_PREFIX : bytes := lit "xn--".
Definition BS_BASE : Z := 36.
Definition BS_TMIN : Z := 1.
Definition BS_TMAX : Z := 26.
Definition BS_SKEW : Z := 38.
Definition BS_DAMP : Z := 700.
Definition BS_INITIAL_BIAS : Z := 72.
Definition BS_INITIAL_N : Z := 128.
Definition DASH : Z := 45.

(** the result of an [int32_t] operation *)
Definition int32 (x : Z) : outcome Z := if (- 2 ^ 31 <=? x) && (x <? 2 ^ 31) then Ret x else OutOfBounds.

Fixpoint adapt_loop (n : nat) (delta k : Z) : outcome (Z * Z) :=
  match n with
  | O => OutOfFuel
  | S n =>
      if Z.quot ((BS_BASE - BS_TMIN) * BS_TMAX) 2 <? delta
      then k ← int32 (k + BS_BASE); adapt_loop n (Z.quot delta (BS_BASE - BS_TMIN)) k
      else Ret (delta, k)
  end.

(** a number of 31 bits is divided by 35 less than 8 times *)
Definition adapt (delta npoints : Z) (first_time : bool) : outcome Z :=
  let delta := Z.quot delta (if first_time then BS_DAMP else 2) in
  delta ← int32 (delta + Z.quot delta npoints);
  '(delta, k) ← adapt_loop 8 delta 0;
  x ← int32 ((BS_BASE - BS_TMIN + 1) * delta);
  int32 (k + Z.quot x (delta + BS_SKEW)).

Definition enc_digit (digit : Z) : outcome Z :=
  if (0 <=? digit) && (digit <? 26) then Ret (digit + 97)
  else if (26 <=? digit) && (digit <? 36) then Ret (digit + (48 - 26))
  else OutOfBounds.

(** [for(pos = 0; pos < len; pos += width)] over the code points of [s]; the
    body tells whether the function returns -1 *)
Fixpoint for_cps {A} (f : A -> Z -> outcome (A * bool)) (n : nat) (s : bytes) (a : A) : outcome (A * bool) :=
  match s with
  | [] => Ret (a, false)
  | _ =>
      match n with
      | O => OutOfFuel
      | S n =>
          let '(r, width) := u8_to_cp s (zlen s) in
          '(a, fails) ← f a r;
          if (fails : bool) then Ret (a, true) else for_cps f n (drop (Z.to_nat width) s) a
      end
  end.

Section Encode.
Context (alloc_ok : Z -> bool).

Definition add_char (b : buf_t) (ch : Z) : outcome buf_t := '(b, _) ← buf_achar alloc_ok b ch; Ret b.
Definition add_data (b : buf_t) (bs : bytes) : outcome buf_t := '(b, _) ← buf_adata alloc_ok b bs; Ret b.

Definition threshold (k bias : Z) : Z :=
  let t := k - bias in if t <? BS_TMIN then BS_TMIN else if BS_TMAX <? t then BS_TMAX else t.

(** the digits of [q] *)
Fixpoint digit_loop (n : nat) (b : buf_t) (q k bias : Z) : outcome buf_t :=
  match n with
  | O => OutOfFuel
  | S n =>
      let t := threshold k bias in
      if q <? t then d ← enc_digit q; add_char b d
      else
        d ← enc_digit (t + Z.rem (q - t) (BS_BASE - t));
        b ← add_char b d;
        digit_loop n b (Z.quot (q - t) (BS_BASE - t)) (k + BS_BASE) bias
  end.

Record enc_state := Enc { e_buf : buf_t; delta : Z; bias : Z; h : Z; remaining : Z }.

(** the first loop: basic code points are copied, others are counted *)
Definition basic_body (st : buf_t * Z * Z) (r : Z) : outcome (buf_t * Z * Z * bool) :=
  let '(buf, b, remaining) := st in
  if r <=? 0x7f then buf ← add_char buf r; Ret (buf, b + 1, remaining, false)
  else Ret (buf, b, remaining + 1, false).

(** the second loop: the least code point that is not less than [n] *)
Definition min_body (n : Z) (m r : Z) : outcome (Z * bool) :=
  Ret (if (r <? m) && (n <=? r) then r else m, false).

(** the third loop *)
Definition insert_body (n b : Z) (st : enc_state) (r : Z) : outcome (enc_state * bool) :=
  if r <? n then
    d ← int32 (delta st + 1);
    let st := Enc (e_buf st) d (bias st) (h st) (remaining st) in
    Ret (st, d <? 0)
  else if n <? r then Ret (st, false)
  else
    buf ← digit_loop 32 (e_buf st) (delta st) BS_BASE (bias st);
    bias ← adapt (delta st) (h st + 1) (h st =? b);
    Ret (Enc buf 0 bias (h st + 1) (remaining st - 1), false).

(** [while(remaining)] *)
Fixpoint label_loop (fuel : nat) (s : bytes) (b n : Z) (st : enc_state) : outcome (buf_t * Z) :=
  match fuel with
  | O => OutOfFuel
  | S fuel =>
      if remaining st =? 0 then Ret (e_buf st, 0)
      else
        '(m, _) ← for_cps (min_body n) (length s) s 0x7fffffff;
        x ← int32 ((m - n) * (h st + 1));
        d ← int32 (delta st + x);
        if d <? 0 then Ret (e_buf st, -1)
        else
          '(st, fails) ← for_cps (insert_body m b) (length s) s (Enc (e_buf st) d (bias st) (h st) (remaining st));
          if (fails : bool) then Ret (e_buf st, -1)
          else
            d ← int32 (delta st + 1);
            n ← int32 (m + 1);
            label_loop fuel s b n (Enc (e_buf st) d (bias st) (h st) (remaining st))
  end.

Definition encode_label (buf : buf_t) (s : bytes) : outcome (buf_t * Z) :=
  if zlen s =? 0 then OutOfBounds
  else
    buf ← add_data buf ACE_PREFIX;
    '(buf, b, remaining, _) ← for_cps basic_body (length s) s (buf, 0, 0);
    buf ← (if 0 <? b then add_char buf DASH else Ret buf);
    label_loop (S (length s)) s b BS_INITIAL_N (Enc buf 0 BS_INITIAL_BIAS b remaining).

Record punycode_ctx := Ctx { outbuf : buf_t; lblbuf : buf_t }.

Definition punycode_init : option punycode_ctx :=
  match buf_init alloc_ok 512 with
  | None => None
  | Some o => match buf_init alloc_ok 256 with None => None | Some l => Some (Ctx o l) end
  end.

Definition punycode_cleanup (ctx : punycode_ctx) : punycode_ctx := Ctx (buf_cleanup (outbuf ctx)) (buf_cleanup (lblbuf ctx)).

(** the label [lbl] is put behind what is in [outbuf]; whether it could be *)
Definition put_label (ctx : punycode_ctx) (is_ascii : bool) (lbl : bytes) : outcome (punycode_ctx * bool) :=
  if is_ascii then o ← add_data (outbuf ctx) lbl; Ret (Ctx o (lblbuf ctx), true)
  else
    '(l, ret) ← encode_label (lblbuf ctx) lbl;
    if ret <? 0 then Ret (Ctx (outbuf ctx) l, false)
    else
      bs ← rds (data l) 0 (len l);
      o ← add_data (outbuf ctx) bs;
      Ret (Ctx o (buf_clear l), true).

(** [lbl] is what lies between [prev] and [curr], [s] what is left *)
Fixpoint labels_loop (ctx : punycode_ctx) (is_ascii : bool) (lbl s : bytes) : outcome (punycode_ctx * bool * bytes * bool) :=
  match s with
  | [] => Ret (ctx, is_ascii, lbl, true)
  | c :: s =>
      if c =? 0 then Ret (ctx, is_ascii, lbl, false)
      else if (c =? 46) && (0 <? zlen lbl) then
        '(ctx, ok) ← put_label ctx is_ascii lbl;
        if negb (ok : bool) then Ret (ctx, is_ascii, lbl, false)
        else o ← add_char (outbuf ctx) 46; labels_loop (Ctx o (lblbuf ctx)) true [] s
      else labels_loop ctx (if 0x7f <? c then false else is_ascii) (lbl ++ [c]) s
  end.

(** the last label, and the end of the string *)
Definition last_label (st : punycode_ctx * bool * bytes * bool) : outcome (punycode_ctx * bool) :=
  let '(ctx, is_ascii, lbl, ok) := st in
  if negb ok then Ret (ctx, false)
  else
    '(ctx, ok) ← (if 0 <? zlen lbl then put_label ctx is_ascii lbl else Ret (ctx, true));
    if negb (ok : bool) then Ret (ctx, false)
    else o ← add_char (outbuf ctx) 0; Ret (Ctx o (buf_cleanup (lblbuf ctx)), true).

(** whether a name is returned, which is then the string in [outbuf] *)
Definition punycode_encode (ctx : punycode_ctx) (s : bytes) : outcome (punycode_ctx * bool) :=
  st ← labels_loop (Ctx (buf_clear (outbuf ctx)) (buf_clear (lblbuf ctx))) true [] s;
  last_label st.

End Encode.

(** ** The decoding procedure of RFC 3492, section 6.2 *)

Definition rfc_threshold (k bias : Z) : Z :=
  if k <=? bias + BS_TMIN then BS_TMIN else if bias + BS_TMAX <=? k then BS_TMAX else k - bias.

(** section 6.1 *)
Fixpoint rfc_adapt_loop (n : nat) (delta k : Z) : Z :=
  match n with
  | S n => if ((BS_BASE - BS_TMIN) * BS_TMAX) / 2 <? delta then rfc_adapt_loop n (delta / (BS_BASE - BS_TMIN)) (k + BS_BASE)
           else k + ((BS_BASE - BS_TMIN + 1) * delta) / (delta + BS_SKEW)
  | O => k
  end.

Definition rfc_adapt (delta numpoints : Z) (firsttime : bool) : Z :=
  let delta := if firsttime then delta / BS_DAMP else delta / 2 in
  let delta := delta + delta / numpoints in
  rfc_adapt_loop (Z.to_nat (Z.log2 delta + 1)) delta 0.

(** section 5: the digits *)
Definition rfc_digit (c : Z) : option Z :=
  if (97 <=? c) && (c <=? 122) then Some (c - 97)
  else if (65 <=? c) && (c <=? 90) then Some (c - 65)
  else if (48 <=? c) && (c <=? 57) then Some (c - 48 + 26)
  else None.

(** a generalized variable-length integer is added to [i] *)
Fixpoint rfc_integer (inp : bytes) (bias k w i : Z) : option (Z * bytes) :=
  match inp with
  | [] => None
  | c :: inp =>
      match rfc_digit c with
      | None => None
      | Some digit =>
          let i := i + digit * w in
          let t := rfc_threshold k bias in
          if digit <? t then Some (i, inp) else rfc_integer inp bias (k + BS_BASE) (w * (BS_BASE - t)) i
      end
  end.

Definition insert_at (i x : Z) (l : list Z) : list Z := take (Z.to_nat i) l ++ x :: drop (Z.to_nat i) l.

Fixpoint rfc_decode_loop (fuel : nat) (inp : bytes) (n i bias : Z) (output : list Z) : option (list Z) :=
  match inp, fuel with
  | [], _ => Some output
  | _, O => None
  | _, S fuel =>
      match rfc_integer inp bias BS_BASE 1 i with
      | None => None
      | Some (i', inp) =>
          let len := zlen output + 1 in
          let bias := rfc_adapt (i' - i) len (i =? 0) in
          rfc_decode_loop fuel inp (n + i' / len) (i' mod len + 1) bias (insert_at (i' mod len) (n + i' / len) output)
      end
  end.

(** what is before the last delimiter, and what is behind it *)
Fixpoint last_dash (s : bytes) : option (bytes * bytes) :=
  match s with
  | [] => None
  | c :: s =>
      match last_dash s with
      | Some (a, b) => Some (c :: a, b)
      | None => if c =? DASH then Some ([], s) else None
      end
  end.

Definition rfc_decode (s : bytes) : option (list Z) :=
  let '(basic, inp) := match last_dash s with Some (c :: a, b) => (c :: a, b) | _ => ([], s) end in
  if forallb (fun c => c <=? 0x7f) basic then rfc_decode_loop (length inp) inp BS_INITIAL_N 0 BS_INITIAL_BIAS basic else None.

(** ** The code points of a label *)

Fixpoint code_points (n : nat) (s : bytes) : list Z :=
  match s, n with
  | _ :: _, S n => let '(r, width) := u8_to_cp s (zlen s) in r :: code_points n (drop (Z.to_nat width) s)
  | _, _ => []
  end.

Definition cps (s : bytes) : list Z := code_points (length s) s.

(** the body on code point after code point *)
Fixpoint run {A} (f : A -> Z -> outcome (A * bool)) (l : list Z) (a : A) : outcome (A * bool) :=
  match l with
  | [] => Ret (a, false)
  | r :: l => '(a, fails) ← f a r; if (fails : bool) then Ret (a, true) else run f l a
  end.

Lemma code_points_spec n s : Forall is_byte s -> (length s <= n)%nat ->
  Forall (fun r => 0 <= r < 0x200000) (code_points n s) /\ (length (code_points n s) <= length s)%nat /\
  forall A (f : A -> Z -> outcome (A * bool)) a, for_cps f n s a = run f (code_points n s) a.
Proof.
  revert s. induction n as [|n IH]; intros s Hb Hn; (destruct s as [|c s]; [by split_and!|]); [cbn in Hn; lia|].
  cbn [code_points for_cps]. set (t := c :: s) in *. pose proof (u8_to_cp_bounds t (zlen t) Hb) as H. destruct (u8_to_cp t (zlen t)) as [r w].
  destruct H as (H1 & H2 & H3); [unfold t; zlen_simpl; pose proof (zlen_nonneg s); lia|].
  assert (Hl : (length (drop (Z.to_nat w) t) < length t)%nat) by (rewrite length_drop; unfold t; cbn [length]; lia).
  destruct (IH (drop (Z.to_nat w) t)) as (G1 & G2 & G3); [by apply Forall_drop|lia|]. split; [by constructor|]. split; [cbn [length]; lia|].
  intros A f a. cbn [run]. destruct (f a r) as [[a' fails]| |]; cbn [mbind outcome_mbind]; [|done|done]. by destruct fails.
Qed.

(** ** Adaption and digits *)

Lemma int32_ret x : - 2 ^ 31 <= x < 2 ^ 31 -> int32 x = Ret x.
Proof. intros H. unfold int32. by rewrite (proj2 (Z.leb_le _ _)), (proj2 (Z.ltb_lt _ _)) by lia. Qed.

Lemma adapt_loop_spec : forall n m d k, 0 <= d < 13 * 35 ^ Z.of_nat n -> d < 2 ^ Z.of_nat m -> 0 <= k <= 2 ^ 20 - 36 * Z.of_nat n ->
  exists d' k', adapt_loop (S n) d k = Ret (d', k') /\ 0 <= d' <= 455 /\ 0 <= k' <= k + 36 * Z.of_nat n /\ rfc_adapt_loop m d k = k' + 36 * d' / (d' + 38).
Proof.
  induction n as [|n IH]; intros m d k Hd Hm Hk; cbn [adapt_loop]; change (Z.quot ((BS_BASE - BS_TMIN) * BS_TMAX) 2) with 455;
    assert (Hstop : ~ 455 < d -> rfc_adapt_loop m d k = k + 36 * d / (d + 38)) by (intros Hs; destruct m as [|m];
      [assert (d = 0) as -> by lia; cbn [rfc_adapt_loop]; change (36 * 0 / (0 + 38)) with 0; lia|cbn [rfc_adapt_loop]; change ((BS_BASE - BS_TMIN) * BS_TMAX / 2) with 455; by rewrite (proj2 (Z.ltb_ge _ _)) by lia]).
  - change (13 * 35 ^ Z.of_nat 0) with 13 in Hd. rewrite (proj2 (Z.ltb_ge _ _)) by lia. exists d, k. split; [done|]. split; [lia|]. split; [lia|]. apply Hstop. lia.
  - destruct (Z.ltb_spec 455 d) as [Hlt|Hge]; [|exists d, k; split; [done|]; split; [lia|]; split; [lia|]; apply Hstop; lia].
    unfold BS_BASE. rewrite int32_ret by lia. cbn [mbind outcome_mbind]. change (36 - BS_TMIN) with 35. rewrite Z.quot_div_nonneg by lia.
    rewrite Nat2Z.inj_succ, Z.pow_succ_r in Hd by lia. destruct m as [|m]; [change (2 ^ Z.of_nat 0) with 1 in Hm; lia|]. rewrite Nat2Z.inj_succ, Z.pow_succ_r in Hm by lia.
    destruct (IH m (d / 35) (k + 36)) as (d' & k' & E & H1 & H2 & H3); [split; [apply Z.div_pos; lia|apply Z.div_lt_upper_bound; lia]|apply Z.div_lt_upper_bound; lia|lia|].
    exists d', k'. cbn [adapt_loop] in E. split; [exact E|]. split; [done|]. split; [lia|]. cbn [rfc_adapt_loop]. change ((BS_BASE - BS_TMIN) * BS_TMAX / 2) with 455.
    rewrite (proj2 (Z.ltb_lt _ _)) by lia. exact H3.
Qed.

(** the first division, and what it leaves *)
Definition halved (d : Z) (first : bool) : Z := if first then d / BS_DAMP else d / 2.

Lemma halved_range d p first : 0 <= d < 2 ^ 31 -> 1 <= p ->
  0 <= halved d first /\ 0 <= halved d first + halved d first / p < 2 ^ 31.
Proof.
  intros Hd Hp. assert (Hx : 0 <= halved d first <= d / 2) by (unfold halved, BS_DAMP; destruct first; divmod_lia). split; [lia|].
  generalize dependent (halved d first). intros x Hx. assert (0 <= x / p <= x) by (split; [apply Z.div_pos; lia|apply Z.div_le_upper_bound; nia]). divmod_lia.
Qed.

Lemma adapt_unfold d p first : 0 <= d < 2 ^ 31 -> 1 <= p -> adapt d p first =
  ('(delta, k) ← adapt_loop 8 (halved d first + halved d first / p) 0;
   x ← int32 ((BS_BASE - BS_TMIN + 1) * delta);
   int32 (k + Z.quot x (delta + BS_SKEW))).
Proof.
  intros Hd Hp. unfold adapt. destruct (halved_range d p first Hd Hp) as [H0 H1].
  assert (Z.quot d (if first then BS_DAMP else 2) = halved d first) as -> by (unfold halved, BS_DAMP; destruct first; by apply Z.quot_div_nonneg; lia).
  cbv zeta. rewrite Z.quot_div_nonneg, int32_ret by lia. reflexivity.
Qed.

Lemma rfc_adapt_unfold d p first : rfc_adapt d p first =
  rfc_adapt_loop (Z.to_nat (Z.log2 (halved d first + halved d first / p) + 1)) (halved d first + halved d first / p) 0.
Proof. reflexivity. Qed.

(** what is left after the divisions gives the bias *)
Lemma adapt_end d k : 0 <= d <= 455 -> 0 <= k <= 252 ->
  (x ← int32 ((BS_BASE - BS_TMIN + 1) * d); int32 (k + Z.quot x (d + BS_SKEW))) = Ret (k + 36 * d / (d + 38)) /\ 0 <= k + 36 * d / (d + 38) < 1000.
Proof.
  intros Hd Hk. unfold BS_BASE, BS_TMIN, BS_SKEW. change (36 - 1 + 1) with 36. rewrite (int32_ret (36 * d)) by lia. cbn [mbind outcome_mbind].
  rewrite Z.quot_div_nonneg by lia. assert (0 <= 36 * d / (d + 38) < 36) by (split; [apply Z.div_pos; lia|apply Z.div_lt_upper_bound; lia]).
  rewrite int32_ret by lia. split; [done|lia].
Qed.

Lemma log2_bits y : 0 <= y -> y < 2 ^ Z.of_nat (Z.to_nat (Z.log2 y + 1)).
Proof.
  intros Hy. pose proof (Z.log2_nonneg y). rewrite Z2Nat.id by lia. destruct (Z.eq_dec y 0) as [->|Hne]; [done|].
  rewrite Z.add_1_r. apply Z.log2_spec. lia.
Qed.

Lemma adapt_spec d p first : 0 <= d < 2 ^ 31 -> 1 <= p -> exists b, adapt d p first = Ret b /\ b = rfc_adapt d p first /\ 0 <= b < 1000.
Proof.
  intros Hd Hp. destruct (halved_range d p first Hd Hp) as [_ Hy]. rewrite adapt_unfold, rfc_adapt_unfold by done.
  generalize dependent (halved d first + halved d first / p). intros y Hy.
  destruct (adapt_loop_spec 7 (Z.to_nat (Z.log2 y + 1)) y 0) as (d' & k' & -> & H1 & H2 & ->); [change (13 * 35 ^ Z.of_nat 7) with 836410859375; lia|apply log2_bits; lia|lia|].
  destruct (adapt_end d' k' H1) as [E H]; [lia|]. exists (k' + 36 * d' / (d' + 38)). split; [exact E|]. split; [done|exact H].
Qed.

Lemma enc_digit_spec d : 0 <= d < 36 -> exists c, enc_digit d = Ret c /\ is_byte c /\ c <> DASH /\ rfc_digit c = Some d.
Proof.
  intros Hd. unfold enc_digit. rewrite (proj2 (Z.leb_le 0 d)) by lia. cbn [andb]. destruct (Z.ltb_spec d 26).
  - eexists. split; [done|]. split; [unfold is_byte; lia|]. split; [unfold DASH; lia|]. unfold rfc_digit.
    rewrite (proj2 (Z.leb_le 97 _)), (proj2 (Z.leb_le _ 122)) by lia. cbn [andb]. f_equal. lia.
  - rewrite (proj2 (Z.leb_le 26 d)), (proj2 (Z.ltb_lt d 36)) by lia. cbn [andb]. eexists. split; [done|]. split; [unfold is_byte; lia|]. split; [unfold DASH; lia|]. unfold rfc_digit.
    rewrite (proj2 (Z.leb_gt 97 _)), (proj2 (Z.leb_gt 65 _)), (proj2 (Z.leb_le 48 _)), (proj2 (Z.leb_le _ 57)) by lia. cbn [andb]. f_equal. lia.
Qed.

Lemma threshold_spec k bias : threshold k bias = rfc_threshold k bias /\ 1 <= threshold k bias <= 26.
Proof.
  unfold threshold, rfc_threshold, BS_TMIN, BS_TMAX. destruct (Z.ltb_spec (k - bias) 1), (Z.leb_spec k (bias + 1)), (Z.ltb_spec 26 (k - bias)), (Z.leb_spec (bias + 26) k); lia.
Qed.

Section Correct.
Context (alloc_ok : Z -> bool) (Halloc : forall n, alloc_ok n = true).

(** [x] is in the buffer, which has room *)
Definition ROOM : Z := 2 ^ 40.
Definition holds (b : buf_t) (x : bytes) : Prop := fits ROOM b /\ contents b = x.

Lemma holds_zlen b x : holds b x -> len b = zlen x.
Proof. intros [(H & _) <-]. by rewrite contents_length. Qed.

Lemma add_char_holds b x c : holds b x -> is_byte c -> zlen x < 2 ^ 38 -> exists b', add_char alloc_ok b c = Ret b' /\ holds b' (x ++ [c]).
Proof.
  intros Hb Hc Hx. pose proof (holds_zlen _ _ Hb) as Hl. destruct Hb as [Hf <-]. unfold add_char.
  destruct (buf_achar_fits alloc_ok ROOM b c Hf) as (b' & r & E & Hf' & H); [unfold ROOM; lia|]. rewrite E. cbn [mbind outcome_mbind].
  apply buf_achar_ok in E as ->; [|done]. destruct H as [[_ H]|[? _]]; [|done]. rewrite uw_small in H by exact Hc. by exists b'.
Qed.

Lemma add_data_holds b x s : holds b x -> Forall is_byte s -> zlen x + zlen s < 2 ^ 38 -> exists b', add_data alloc_ok b s = Ret b' /\ holds b' (x ++ s).
Proof.
  intros Hb Hs Hx. pose proof (holds_zlen _ _ Hb) as Hl. destruct Hb as [Hf <-]. unfold add_data.
  destruct (buf_adata_all alloc_ok Halloc ROOM b s Hf Hs) as (b' & -> & Hf' & Hc); [unfold ROOM; lia|]. by exists b'.
Qed.

(** the digits of a number are read back as the number *)
Definition digits_of (bias k q : Z) (ds : bytes) : Prop := Forall (fun c => is_byte c /\ c <> DASH) ds /\ (0 < length ds <= 32)%nat /\
  forall rest w i, rfc_integer (ds ++ rest) bias k w i = Some (i + q * w, rest).

Lemma digit_loop_step n b q k bias : digit_loop alloc_ok (S n) b q k bias =
  let t := threshold k bias in
  if q <? t then d ← enc_digit q; add_char alloc_ok b d
  else
    d ← enc_digit (t + Z.rem (q - t) (BS_BASE - t));
    b ← add_char alloc_ok b d;
    digit_loop alloc_ok n b (Z.quot (q - t) (BS_BASE - t)) (k + BS_BASE) bias.
Proof. done. Qed.

Lemma digit_loop_spec bias : forall n b x q k, holds b x -> zlen x + Z.of_nat n < 2 ^ 38 -> 0 <= q < 2 ^ Z.of_nat n ->
  exists b' ds, digit_loop alloc_ok (S n) b q k bias = Ret b' /\ holds b' (x ++ ds) /\ (0 < length ds <= S n)%nat /\ Forall (fun c => is_byte c /\ c <> DASH) ds /\
    forall rest w i, rfc_integer (ds ++ rest) bias k w i = Some (i + q * w, rest).
Proof.
  induction n as [|n IH]; intros b x q k Hb Hx Hq; rewrite digit_loop_step; cbv zeta; destruct (threshold_spec k bias) as [Et Ht]; generalize dependent (threshold k bias); intros t Et Ht.
  - change (2 ^ Z.of_nat 0) with 1 in Hq. rewrite (proj2 (Z.ltb_lt q t)) by lia. destruct (enc_digit_spec q ltac:(lia)) as (c & -> & Hc & Hcd & Hd). cbn [mbind outcome_mbind].
    destruct (add_char_holds b x c Hb Hc ltac:(lia)) as (b' & -> & Hb'). exists b', [c]. split; [done|]. split; [done|]. split; [cbn; lia|]. split; [by repeat constructor; destruct Hc|].
    intros rest w i. cbn [app rfc_integer]. rewrite Hd. rewrite <- Et. by rewrite (proj2 (Z.ltb_lt q t)) by lia.
  - destruct (Z.ltb_spec q t) as [Hlt|Hge].
    + destruct (enc_digit_spec q ltac:(lia)) as (c & -> & Hc & Hcd & Hd). cbn [mbind outcome_mbind].
      destruct (add_char_holds b x c Hb Hc ltac:(lia)) as (b' & -> & Hb'). exists b', [c]. split; [done|]. split; [done|]. split; [cbn; lia|]. split; [by repeat constructor; destruct Hc|].
      intros rest w i. cbn [app rfc_integer]. rewrite Hd. rewrite <- Et. by rewrite (proj2 (Z.ltb_lt q t)) by lia.
    + unfold BS_BASE. rewrite Z.rem_mod_nonneg, Z.quot_div_nonneg by lia. pose proof (Z.mod_pos_bound (q - t) (36 - t) ltac:(lia)) as Hm.
      destruct (enc_digit_spec (t + (q - t) mod (36 - t)) ltac:(lia)) as (c & -> & Hc & Hcd & Hd). cbn [mbind outcome_mbind].
      destruct (add_char_holds b x c Hb Hc ltac:(lia)) as (b1 & -> & Hb1). cbn [mbind outcome_mbind]. rewrite Nat2Z.inj_succ, Z.pow_succ_r in Hq by lia.
      destruct (IH b1 (x ++ [c]) ((q - t) / (36 - t)) (k + 36) Hb1) as (b' & ds & E & Hb' & Hl & Hds & Hr); [zlen_simpl; lia|split; [apply Z.div_pos; lia|apply Z.div_lt_upper_bound; nia]|].
      exists b', (c :: ds). split; [exact E|]. split; [by rewrite <- app_assoc in Hb'|]. split; [cbn [length]; lia|]. split; [by constructor|].
      intros rest w i. cbn [app rfc_integer]. rewrite Hd, <- Et. rewrite (proj2 (Z.ltb_ge _ t)) by lia. unfold BS_BASE. rewrite Hr. do 2 f_equal.
      pose proof (Z.div_mod (q - t) (36 - t) ltac:(lia)) as Hdm. replace q with (t + ((36 - t) * ((q - t) / (36 - t)) + (q - t) mod (36 - t))) at 3 by lia. ring.
Qed.


(** ** The decoder follows the encoder *)

Record dec_state := Dec { d_n : Z; d_i : Z; d_bias : Z; d_out : list Z }.

Definition decode_from (fuel : nat) (inp : bytes) (d : dec_state) : option (list Z) := rfc_decode_loop fuel inp (d_n d) (d_i d) (d_bias d) (d_out d).

(** reading [ds] takes the decoder from [d] to [d'] *)
Definition decodes (ds : bytes) (d d' : dec_state) : Prop :=
  forall rest fuel, (length (ds ++ rest) <= fuel)%nat -> exists fuel', (length rest <= fuel')%nat /\ decode_from fuel (ds ++ rest) d = decode_from fuel' rest d'.

Lemma decodes_nil d : decodes [] d d.
Proof. intros rest fuel Hf. by exists fuel. Qed.

Lemma decodes_app ds1 ds2 d1 d2 d3 : decodes ds1 d1 d2 -> decodes ds2 d2 d3 -> decodes (ds1 ++ ds2) d1 d3.
Proof.
  intros H1 H2 rest fuel Hf. rewrite <- app_assoc in *. destruct (H1 (ds2 ++ rest) fuel Hf) as (f1 & Hf1 & ->). by apply H2.
Qed.

(** a number that is the distance to the position [k] of the code point [m] *)
Lemma decodes_insert ds delta d m k : digits_of (d_bias d) BS_BASE delta ds -> 0 <= k <= zlen (d_out d) ->
  d_i d + delta = (m - d_n d) * (zlen (d_out d) + 1) + k ->
  decodes ds d (Dec m (k + 1) (rfc_adapt delta (zlen (d_out d) + 1) (d_i d =? 0)) (insert_at k m (d_out d))).
Proof.
  intros (_ & Hl & Hr) Hk E rest fuel Hf. destruct ds as [|c ds]; [cbn in Hl; lia|]. destruct fuel as [|fuel]; [cbn in Hf; lia|].
  exists fuel. split; [cbn in Hf; rewrite length_app in Hf; lia|]. unfold decode_from. cbn [app rfc_decode_loop]. specialize (Hr rest 1 (d_i d)). cbn [app] in Hr. rewrite Hr, Z.mul_1_r.
  set (l := zlen (d_out d)) in *. assert (E1 : (d_i d + delta) / (l + 1) = m - d_n d) by (symmetry; apply (Z.div_unique _ _ _ k); lia).
  assert (E2 : (d_i d + delta) mod (l + 1) = k) by (symmetry; apply (Z.mod_unique _ _ (m - d_n d)); lia).
  rewrite E1, E2. cbn [d_n d_i d_bias d_out]. replace (d_n d + (m - d_n d)) with m by lia. by replace (d_i d + delta - d_i d) with delta by lia.
Qed.

Section Label.
Context (x : bytes) (basics : list Z) (all : list Z) (R : Z) (HR : R <= 2 ^ 37).
Context (Hrange : Forall (fun r => 0 <= r < 0x200000) all) (Hmany : zlen all <= 1000).

Definition start : dec_state := Dec BS_INITIAL_N 0 BS_INITIAL_BIAS basics.

(** what is written before the code point [m] at the end of [pre] *)
Definition written (m : Z) (pre suf : list Z) : list Z := filter (fun c => c <= m) pre ++ filter (fun c => c < m) suf.

(** the encoder at [suf], with the code point [m] *)
Record encoding_at (m : Z) (pre suf : list Z) (st : enc_state) (e : bytes) (d : dec_state) : Prop := EncodingAt {
  ea_all : all = pre ++ suf;
  ea_buf : holds (e_buf st) (x ++ e);
  ea_dec : decodes e start d;
  ea_dash : Forall (fun c => is_byte c /\ c <> DASH) e;
  ea_out : d_out d = written m pre suf;
  ea_bias : d_bias d = bias st;
  ea_h : h st = zlen (d_out d);
  ea_first : (h st = zlen basics) <-> d_i d = 0;
  ea_n : BS_INITIAL_N <= d_n d <= m;
  ea_i : 0 <= d_i d <= h st;
  ea_ahead : d_n d < m \/ d_i d <= zlen (filter (fun c => c <= m) pre);
  ea_delta : delta st = (m - d_n d) * (h st + 1) + zlen (filter (fun c => c <= m) pre) - d_i d;
  ea_left : remaining st = zlen all - zlen (d_out d);
  ea_basics : zlen basics <= h st;
  ea_room : zlen (x ++ e) + 32 * remaining st < R;
}.

Lemma zlen_filter_le {P : Z -> Prop} `{!forall c, Decision (P c)} l : zlen (filter P l) <= zlen l.
Proof. unfold zlen. pose proof (length_filter P l). lia. Qed.

Lemma encoding_bounds m pre suf st e d : encoding_at m pre suf st e d -> m < 0x200000 ->
  0 <= delta st < 2 ^ 31 - 1000 /\ 0 <= zlen (filter (fun c => c <= m) pre) <= zlen (d_out d) /\ zlen (d_out d) <= 1000.
Proof.
  intros [Ha _ _ _ Ho _ Hh _ Hn Hi Hah Hd Hl _ _] Hm. pose proof (zlen_nonneg (filter (fun c => c <= m) pre)). pose proof (zlen_nonneg (filter (fun c => c < m) suf)).
  assert (E : zlen (d_out d) = zlen (filter (fun c => c <= m) pre) + zlen (filter (fun c => c < m) suf)) by (rewrite Ho; unfold written; apply zlen_app).
  pose proof (zlen_filter_le (P := fun c => c <= m) pre). pose proof (zlen_filter_le (P := fun c => c < m) suf).
  assert (zlen all = zlen pre + zlen suf) by (rewrite Ha; apply zlen_app). unfold BS_INITIAL_N in *. split; [|lia]. rewrite Hh in *. split.
  - destruct Hah; nia.
  - assert ((m - d_n d) * (zlen (d_out d) + 1) <= 2097024 * 1001) by nia. lia.
Qed.

Lemma insert_body_spec m suf : 0 <= m < 0x200000 -> forall pre st e d, encoding_at m pre suf st e d ->
  exists st' e' d', run (insert_body alloc_ok m (zlen basics)) suf st = Ret (st', false) /\ encoding_at m all [] st' e' d'.
Proof.
  intros Hm. induction suf as [|r suf IH]; intros pre st e d H.
  - exists st, e, d. split; [done|]. pose proof (ea_all _ _ _ _ _ _ H) as Ha. rewrite app_nil_r in Ha. by rewrite Ha.
  - destruct (encoding_bounds _ _ _ _ _ _ H ltac:(lia)) as (Hdel & Hk & Hlen). pose proof H as [Ha Hb Hde Hda Ho Hbi Hh Hfi Hn Hi Hah Hd Hl Hba Hro].
    cbn [run]. unfold insert_body. destruct (Z.ltb_spec r m) as [Hlt|Hge]; [|destruct (Z.ltb_spec m r) as [Hgt|Hle]].
    + rewrite int32_ret by lia. cbn [mbind outcome_mbind]. rewrite (proj2 (Z.ltb_ge _ 0)) by lia. apply (IH (pre ++ [r]) _ e d).
      assert (Ef : filter (fun c => c <= m) (pre ++ [r]) = filter (fun c => c <= m) pre ++ [r]) by (rewrite filter_app, filter_cons_True by lia; done).
      constructor; cbn [e_buf delta bias h remaining]; try done.
      * by rewrite <- app_assoc.
      * rewrite Ho. unfold written. rewrite Ef, filter_cons_True, <- app_assoc by lia. done.
      * rewrite Ef, zlen_app. change (zlen [r]) with 1. lia.
      * rewrite Ef, zlen_app. change (zlen [r]) with 1. lia.
    + apply (IH (pre ++ [r]) _ e d). assert (Ef : filter (fun c => c <= m) (pre ++ [r]) = filter (fun c => c <= m) pre).
      { rewrite filter_app, filter_cons_False by lia. by rewrite app_nil_r. }
      constructor; try done; [by rewrite <- app_assoc| |by rewrite Ef|by rewrite Ef].
      rewrite Ho. unfold written. rewrite Ef, filter_cons_False by lia. done.
    + assert (r = m) as -> by lia. destruct (digit_loop_spec (bias st) 31 (e_buf st) (x ++ e) (delta st) BS_BASE Hb) as (b' & ds & -> & Hb' & Hl1 & Hds & Hr).
      { assert (0 <= remaining st) by (rewrite Hl, Ho; unfold written; rewrite zlen_app; pose proof (zlen_filter_le (P := fun c => c <= m) pre); pose proof (zlen_filter_le (P := fun c => c < m) (m :: suf)); rewrite Ha, zlen_app; lia). lia. }
      { change (2 ^ Z.of_nat 31) with (2 ^ 31). lia. }
      cbn [mbind outcome_mbind]. destruct (adapt_spec (delta st) (h st + 1) (h st =? zlen basics)) as (bi & -> & Ebi & _); [lia|lia|]. cbn [mbind outcome_mbind].
      set (k := zlen (filter (fun c => c <= m) pre)) in *.
      assert (Ef : filter (fun c => c <= m) (pre ++ [m]) = filter (fun c => c <= m) pre ++ [m]) by (rewrite filter_app, filter_cons_True by lia; done).
      assert (Ek : zlen (filter (fun c => c <= m) (pre ++ [m])) = k + 1) by (by rewrite Ef, zlen_app).
      assert (Eins : insert_at k m (d_out d) = written m (pre ++ [m]) suf).
      { rewrite Ho. unfold written, insert_at, k, zlen. rewrite Nat2Z.id, filter_cons_False, Ef by lia. rewrite take_app_length, drop_app_length, <- app_assoc. done. }
      assert (Hdec : decodes ds d (Dec m (k + 1) bi (written m (pre ++ [m]) suf))).
      { rewrite Ebi, <- Eins, Hh. assert (Efirst : (zlen (d_out d) =? zlen basics) = (d_i d =? 0)).
        { rewrite <- Hh. apply Bool.eq_iff_eq_true. by rewrite !Z.eqb_eq. }
        rewrite Efirst. apply decodes_insert; [|lia|rewrite <- Hh; lia]. split; [done|]. split; [lia|]. rewrite Hbi. exact Hr. }
      assert (Eout : zlen (written m (pre ++ [m]) suf) = zlen (d_out d) + 1).
      { rewrite <- Eins. unfold insert_at. rewrite zlen_app, zlen_cons. rewrite <- (take_drop (Z.to_nat k) (d_out d)) at 3. rewrite zlen_app. lia. }
      apply (IH (pre ++ [m]) _ (e ++ ds) (Dec m (k + 1) bi (written m (pre ++ [m]) suf))).
      constructor; cbn [e_buf delta bias h remaining d_n d_i d_bias d_out]; try done.
      * by rewrite <- app_assoc.
      * by rewrite app_assoc.
      * by eapply decodes_app.
      * by apply Forall_app.
      * lia.
      * split; [lia|]. intros ?. lia.
      * lia.
      * lia.
      * rewrite Ek. by right.
      * rewrite Ek. lia.
      * lia.
      * lia.
      * rewrite app_assoc, zlen_app. unfold zlen in *. lia.
Qed.

Lemma min_body_spec n l : forall m0, exists m, run (min_body n) l m0 = Ret (m, false) /\ (m = m0 \/ (m ∈ l /\ n <= m)) /\ m <= m0 /\ (forall c, c ∈ l -> n <= c -> m <= c).
Proof.
  induction l as [|r l IH]; intros m0; [exists m0; split; [done|]; split; [by left|]; split; [done|]; by intros c ?%not_elem_of_nil|].
  assert (Hstep : run (min_body n) (r :: l) m0 = run (min_body n) l (if (r <? m0) && (n <=? r) then r else m0)) by reflexivity.
  rewrite Hstep. clear Hstep. set (m1 := if (r <? m0) && (n <=? r) then r else m0).
  assert (H1 : (m1 = m0 \/ (m1 = r /\ n <= r)) /\ m1 <= m0 /\ (n <= r -> m1 <= r)).
  { unfold m1. destruct (Z.ltb_spec r m0), (Z.leb_spec n r); cbn [andb]; lia. }
  destruct (IH m1) as (m & -> & H2 & H3 & H4). clearbody m1. exists m. split; [done|]. split; [|split; [lia|]].
  - destruct H2 as [->|[H2 H5]]; [destruct H1 as [[->|[-> ?]] _]; [by left|right; split; [by constructor|done]]|right; split; [by constructor|done]].
  - intros c [->|Hc]%elem_of_cons Hn; [lia|]. by apply H4.
Qed.

Lemma filter_all {P : Z -> Prop} `{!forall c, Decision (P c)} (l : list Z) : zlen (filter P l) = zlen l -> filter P l = l.
Proof.
  induction l as [|c l IH]; [done|]. destruct (decide (P c)).
  - rewrite filter_cons_True by done. zlen_simpl. intros E. f_equal. apply IH. lia.
  - rewrite filter_cons_False by done. zlen_simpl. intros E. pose proof (zlen_filter_le (P := P) l). lia.
Qed.

Lemma filter_same {P Q : Z -> Prop} `{!forall c, Decision (P c)} `{!forall c, Decision (Q c)} (l : list Z) : (forall c : Z, c ∈ l -> P c <-> Q c) -> filter P l = filter Q l.
Proof.
  induction l as [|c l IH]; [done|]. intros HPQ. assert (Hl : filter P l = filter Q l) by (apply IH; intros d Hd; apply HPQ; by constructor).
  assert (Hc : P c <-> Q c) by (apply HPQ; constructor). destruct (decide (P c)).
  - rewrite !filter_cons_True by tauto. by rewrite Hl.
  - rewrite !filter_cons_False by tauto. done.
Qed.

(** the encoder before the code points from [n] on: what it has to add to
    [delta] is what is between [n] and the next one *)
Record between (n : Z) (st : enc_state) (e : bytes) (d : dec_state) : Prop := Between {
  bw_buf : holds (e_buf st) (x ++ e);
  bw_dec : decodes e start d;
  bw_dash : Forall (fun c : Z => is_byte c /\ c <> DASH) e;
  bw_out : d_out d = filter (fun c : Z => c < n) all;
  bw_bias : d_bias d = bias st;
  bw_h : h st = zlen (d_out d);
  bw_first : (h st = zlen basics) <-> d_i d = 0;
  bw_n : BS_INITIAL_N <= d_n d <= n;
  bw_i : 0 <= d_i d <= h st;
  bw_ahead : d_n d < n \/ d_i d = 0;
  bw_delta : delta st = (n - d_n d) * (h st + 1) - d_i d;
  bw_left : remaining st = zlen all - zlen (d_out d);
  bw_basics : zlen basics <= h st;
  bw_room : zlen (x ++ e) + 32 * remaining st < R;
}.

Definition at_least (n : Z) (l : list Z) : list Z := filter (fun c : Z => n <= c) l.

Lemma at_least_mono n m l : n <= m -> (length (at_least m l) <= length (at_least n l))%nat.
Proof.
  intros Hnm. unfold at_least. induction l as [|c l IHl]; [done|]. destruct (decide (m <= c)).
  - rewrite !filter_cons_True by lia. cbn [length]. lia.
  - rewrite (filter_cons_False (fun c : Z => m <= c)) by done. destruct (decide (n <= c)).
    + rewrite filter_cons_True by done. cbn [length]. lia.
    + by rewrite filter_cons_False.
Qed.

Lemma at_least_cons n c l : at_least n (c :: l) = if decide (n <= c) then c :: at_least n l else at_least n l.
Proof. unfold at_least. rewrite filter_cons. done. Qed.

Lemma at_least_shrinks n m l : m ∈ l -> n <= m -> (length (at_least (m + 1) l) < length (at_least n l))%nat.
Proof.
  intros Hm Hnm. induction l as [|c l IHl]; [by apply not_elem_of_nil in Hm|]. rewrite !at_least_cons.
  pose proof (at_least_mono n (m + 1) l ltac:(lia)). apply elem_of_cons in Hm as [->|Hm].
  - rewrite decide_False, decide_True by lia. cbn [length]. lia.
  - specialize (IHl Hm). destruct (decide (m + 1 <= c)), (decide (n <= c)); cbn [length]; lia.
Qed.

Lemma label_loop_spec s : (forall A (f : A -> Z -> outcome (A * bool)) a, for_cps f (length s) s a = run f all a) ->
  forall fuel n st e d, between n st e d -> n <= 0x200000 -> (length (at_least n all) < fuel)%nat ->
  exists b' e' d', label_loop alloc_ok fuel s (zlen basics) n st = Ret (b', 0) /\ holds b' (x ++ e') /\ decodes e' start d' /\ d_out d' = all /\
    Forall (fun c : Z => is_byte c /\ c <> DASH) e' /\ zlen (x ++ e') < R.
Proof.
  intros Hfor. induction fuel as [|fuel IH]; intros n st e d H Hn Hf; [lia|]. pose proof H as [Hb Hde Hda Ho Hbi Hh Hfi Hdn Hi Hah Hd Hl Hba Hro]. cbn [label_loop].
  destruct (Z.eqb_spec (remaining st) 0) as [E0|E0].
  { exists (e_buf st), e, d. split; [done|]. split; [done|]. split; [done|]. split; [rewrite Ho; apply filter_all; rewrite <- Ho; lia|]. split; [done|lia]. }
  rewrite Hfor. destruct (min_body_spec n all 0x7fffffff) as (m & -> & Hm & _ & Hmin). cbn [mbind outcome_mbind].
  assert (Hex : exists c : Z, c ∈ all /\ n <= c).
  { destruct (decide (Exists (fun c : Z => n <= c) all)) as [Hx|Hx]; [by apply Exists_exists in Hx|]. exfalso. apply E0. rewrite Hl, Ho.
    assert (filter (fun c : Z => c < n) all = all) as ->; [|lia]. apply not_Exists_Forall in Hx; [|intros c; destruct (decide (n <= c)); [by left|by right]].
    clear -Hx. induction Hx as [|c l Hc Hx IHl]; [done|]. cbn in Hc. rewrite filter_cons_True by lia. by rewrite IHl. }
  assert (Hm' : m ∈ all /\ n <= m).
  { destruct Hm as [->|Hm]; [|done]. exfalso. destruct Hex as (c & Hc & Hnc). specialize (Hmin c Hc Hnc). rewrite Forall_forall in Hrange. specialize (Hrange c Hc). lia. }
  destruct Hm' as [Hmall Hnm]. assert (Hmr : 0 <= m < 0x200000) by (rewrite Forall_forall in Hrange; by apply Hrange).
  assert (Hlen : zlen (d_out d) < zlen all) by (rewrite Ho in *; pose proof (zlen_filter_le (P := fun c => c < n) all); lia).
  assert (Hsame : filter (fun c : Z => c < m) all = d_out d).
  { rewrite Ho. apply filter_same. intros c Hc. split; [|lia]. intros Hcm. destruct (Z.lt_ge_cases c n); [done|]. specialize (Hmin c Hc ltac:(lia)). lia. }
  unfold BS_INITIAL_N in *. assert (Hb1 : 0 <= (m - n) * (h st + 1) < 2 ^ 31) by (rewrite Hh; split; [nia|]; assert ((m - n) * (zlen (d_out d) + 1) <= 2097024 * 1000) by nia; lia).
  rewrite (int32_ret ((m - n) * (h st + 1))) by lia. cbn [mbind outcome_mbind].
  assert (Hd1 : delta st + (m - n) * (h st + 1) = (m - d_n d) * (h st + 1) - d_i d) by (rewrite Hd; ring).
  assert (Hb2 : 0 <= delta st + (m - n) * (h st + 1) < 2 ^ 31) by (rewrite Hd1, Hh in *; split; [destruct Hah; nia|]; assert ((m - d_n d) * (zlen (d_out d) + 1) <= 2097024 * 1000) by nia; lia).
  rewrite (int32_ret (delta st + (m - n) * (h st + 1))) by lia. cbn [mbind outcome_mbind]. rewrite (proj2 (Z.ltb_ge _ 0)) by lia. rewrite Hfor.
  destruct (insert_body_spec m all Hmr [] (Enc (e_buf st) (delta st + (m - n) * (h st + 1)) (bias st) (h st) (remaining st)) e d) as (st' & e' & d' & -> & H').
  { constructor; cbn [e_buf delta bias h remaining]; try done; [unfold BS_INITIAL_N; lia|change (zlen (filter _ [])) with 0; lia|change (zlen (filter _ [])) with 0; lia]. }
  cbn [mbind outcome_mbind]. destruct (encoding_bounds _ _ _ _ _ _ H' ltac:(lia)) as (Hdel & Hk & _). pose proof H' as [_ Hb' Hde' Hda' Ho' Hbi' Hh' Hfi' Hdn' Hi' Hah' Hd' Hl' Hba' Hro'].
  assert (Eo' : d_out d' = filter (fun c : Z => c < m + 1) all).
  { rewrite Ho'. unfold written. rewrite app_nil_r. apply filter_same. intros c _. lia. }
  assert (Ek : zlen (filter (fun c : Z => c <= m) all) = zlen (d_out d')) by (rewrite Ho'; unfold written; by rewrite app_nil_r).
  rewrite (int32_ret (delta st' + 1)) by lia. cbn [mbind outcome_mbind]. rewrite (int32_ret (m + 1)) by lia. cbn [mbind outcome_mbind].
  apply (IH (m + 1) _ e' d').
  - constructor; cbn [e_buf delta bias h remaining]; try done; [unfold BS_INITIAL_N in *; lia|unfold BS_INITIAL_N in *; lia|lia].
  - lia.
  - pose proof (at_least_shrinks n m all Hmall Hnm). lia.
Qed.

End Label.

(** ** A label *)

Lemma ace_bytes : Forall is_byte ACE_PREFIX.
Proof. change ACE_PREFIX with [120; 110; 45; 45]. repeat constructor; unfold is_byte; lia. Qed.

Lemma basic_body_spec : forall l b x n rem, holds b x -> Forall (fun r => 0 <= r < 0x200000) l -> zlen x + zlen l < 2 ^ 38 ->
  let basics := filter (fun c => c < 128) l in
  exists b', run (basic_body alloc_ok) l (b, n, rem) = Ret (b', n + zlen basics, rem + (zlen l - zlen basics), false) /\ holds b' (x ++ basics).
Proof.
  cbv zeta. induction l as [|r l IH]; intros b x n rem Hb Hl Hx.
  - exists b. cbn [run]. change (filter _ []) with (@nil Z). zlen_simpl. rewrite app_nil_r. split; [|done]. do 2 f_equal. f_equal; [f_equal|]; lia.
  - apply Forall_cons in Hl as [Hr Hl]. rewrite zlen_cons in Hx. cbn [run]. change (basic_body alloc_ok (b, n, rem) r) with (if r <=? 0x7f then buf ← add_char alloc_ok b r; Ret (buf, n + 1, rem, false) else Ret (b, n, rem + 1, false)). destruct (Z.leb_spec r 0x7f).
    + destruct (add_char_holds b x r Hb) as (b1 & -> & Hb1); [unfold is_byte; lia|pose proof (zlen_nonneg l); lia|]. cbn [mbind outcome_mbind].
      destruct (IH b1 (x ++ [r]) (n + 1) rem Hb1 Hl) as (b' & -> & Hb'); [zlen_simpl; lia|]. exists b'. rewrite filter_cons_True by lia.
      split; [|by rewrite <- app_assoc in Hb']. zlen_simpl. do 2 f_equal. f_equal; [f_equal|]; lia.
    + cbn [mbind outcome_mbind]. destruct (IH b x n (rem + 1) Hb Hl) as (b' & -> & Hb'); [lia|]. exists b'. rewrite filter_cons_False by lia.
      split; [|done]. zlen_simpl. do 2 f_equal. f_equal; lia.
Qed.

Lemma last_dash_none e : Forall (fun c => is_byte c /\ c <> DASH) e -> last_dash e = None.
Proof. induction 1 as [|c e [_ Hc] _ IH]; [done|]. cbn [last_dash]. rewrite IH. by rewrite (proj2 (Z.eqb_neq _ _)). Qed.

Lemma last_dash_app a e : Forall (fun c => is_byte c /\ c <> DASH) e -> last_dash (a ++ DASH :: e) = Some (a, e).
Proof.
  intros He. induction a as [|c a IH]; cbn [app last_dash]; [rewrite last_dash_none by done; by rewrite Z.eqb_refl|by rewrite IH].
Qed.

Lemma filter_basic l : forallb (fun c => c <=? 0x7f) (filter (fun c : Z => c < 128) l) = true.
Proof. apply forallb_forall. intros c Hc%list_elem_of_In%list_elem_of_filter. apply Z.leb_le. lia. Qed.

Lemma decoded basics e d' : decodes e (start basics) d' -> Forall (fun c => is_byte c /\ c <> DASH) e -> forallb (fun c => c <=? 0x7f) basics = true ->
  rfc_decode ((if 0 <? zlen basics then basics ++ [DASH] else []) ++ e) = Some (d_out d').
Proof.
  intros Hd He Hb. assert (E : rfc_decode_loop (length e) e BS_INITIAL_N 0 BS_INITIAL_BIAS basics = Some (d_out d')).
  { destruct (Hd [] (length e)) as (f & _ & E); [by rewrite app_nil_r|]. unfold decode_from in E. rewrite app_nil_r in E. cbn [start d_n d_i d_bias d_out] in E. rewrite E. by destruct f. }
  unfold rfc_decode. destruct basics as [|c basics].
  - change (0 <? zlen []) with false. cbn [app]. rewrite last_dash_none by done. exact E.
  - rewrite (proj2 (Z.ltb_lt _ _)) by (zlen_simpl; pose proof (zlen_nonneg basics); lia). rewrite <- app_assoc. cbn [app]. change (c :: basics ++ DASH :: e) with ((c :: basics) ++ DASH :: e).
    rewrite last_dash_app by done. cbv beta iota. rewrite Hb. exact E.
Qed.

Lemma encode_label_spec b x s : holds b x -> Forall is_byte s -> 0 < zlen s <= 1000 -> zlen x + 64 * zlen s < 2 ^ 37 ->
  exists b' e, encode_label alloc_ok b s = Ret (b', 0) /\ holds b' (x ++ ACE_PREFIX ++ e) /\ rfc_decode e = Some (cps s) /\ zlen (ACE_PREFIX ++ e) <= 64 * zlen s.
Proof.
  intros Hb Hs Hlen Hx. unfold encode_label. rewrite (proj2 (Z.eqb_neq _ 0)) by lia. pose proof (zlen_nonneg x).
  destruct (add_data_holds b x ACE_PREFIX Hb) as (b1 & -> & Hb1); [apply ace_bytes|change (zlen ACE_PREFIX) with 4; lia|]. cbn [mbind outcome_mbind].
  destruct (code_points_spec (length s) s Hs ltac:(lia)) as (Hr & Hl & Hfor). fold (cps s) in Hr, Hl, Hfor. rewrite Hfor.
  set (basics := filter (fun c : Z => c < 128) (cps s)).
  destruct (basic_body_spec (cps s) b1 (x ++ ACE_PREFIX) 0 0 Hb1 Hr) as (b2 & -> & Hb2); [zlen_simpl; change (zlen ACE_PREFIX) with 4; unfold zlen in *; lia|]. fold basics in Hb2 |- *. cbn [mbind outcome_mbind].
  rewrite !Z.add_0_l. assert (Hbl : zlen basics <= zlen (cps s)) by apply zlen_filter_le. assert (zlen (cps s) <= zlen s) by (unfold zlen; lia).
  set (y := x ++ ACE_PREFIX ++ (if 0 <? zlen basics then basics ++ [DASH] else [])).
  assert (H3 : exists b3, (if 0 <? zlen basics then add_char alloc_ok b2 DASH else Ret b2) = Ret b3 /\ holds b3 y).
  { unfold y. destruct (Z.ltb_spec 0 (zlen basics)).
    - destruct (add_char_holds b2 _ DASH Hb2) as (b3 & -> & Hb3); [done|zlen_simpl; change (zlen ACE_PREFIX) with 4; lia|]. exists b3. split; [done|]. by rewrite <- !app_assoc in Hb3.
    - exists b2. split; [done|]. destruct basics; [by rewrite <- !app_assoc in Hb2|zlen_simpl; revert H1; zlen_simpl; pose proof (zlen_nonneg basics); lia]. }
  destruct H3 as (b3 & -> & Hb3). cbn [mbind outcome_mbind].
  assert (Hy : zlen y <= zlen x + 5 + zlen basics) by (unfold y; zlen_simpl; change (zlen ACE_PREFIX) with 4; destruct (0 <? zlen basics); zlen_simpl; pose proof (zlen_nonneg basics); lia).
  destruct (label_loop_spec y basics (cps s) (zlen x + 64 * zlen s + 1) ltac:(lia) Hr ltac:(lia) s Hfor (S (length s)) BS_INITIAL_N
    (Enc b3 0 BS_INITIAL_BIAS (zlen basics) (zlen (cps s) - zlen basics)) [] (start basics)) as (b' & e & d' & E & Hb' & Hd & Ho & He & Hbound).
  - pose proof (zlen_nonneg basics). constructor; cbn [e_buf delta bias h remaining start d_n d_i d_bias d_out]; try done; try lia.
    + by rewrite app_nil_r.
    + apply decodes_nil.
    + rewrite app_nil_r. lia.
  - done.
  - pose proof (length_filter (fun c : Z => BS_INITIAL_N <= c) (cps s)). unfold at_least. lia.
  - exists b', ((if 0 <? zlen basics then basics ++ [DASH] else []) ++ e). split; [exact E|]. rewrite <- Ho.
    assert (Ey : y ++ e = x ++ ACE_PREFIX ++ (if 0 <? zlen basics then basics ++ [DASH] else []) ++ e) by (unfold y; by rewrite <- !app_assoc).
    rewrite <- Ey. split; [done|]. split; [apply decoded; [done|done|apply filter_basic]|]. rewrite Ey, zlen_app in Hbound. lia.
Qed.


(** ** A name *)

Definition is_ascii (l : bytes) : bool := forallb (fun c => c <=? 0x7f) l.
Definition label_ok (l : bytes) : Prop := Forall (fun c => is_byte c /\ c <> 0 /\ c <> 46) l /\ 0 < zlen l <= 1000.

Fixpoint dotted (ls : list bytes) : bytes :=
  match ls with
  | [] => []
  | [l] => l
  | l :: ls => l ++ 46 :: dotted ls
  end.

(** what a label becomes *)
Definition encoded (l o : bytes) : Prop :=
  if is_ascii l then o = l else exists e, o = ACE_PREFIX ++ e /\ rfc_decode e = Some (cps l).

Lemma scan_label ctx l s : Forall (fun c => is_byte c /\ c <> 0 /\ c <> 46) l ->
  forall a lbl, labels_loop alloc_ok ctx a lbl (l ++ s) = labels_loop alloc_ok ctx (a && is_ascii l) (lbl ++ l) s.
Proof.
  induction 1 as [|c l (Hc & H0 & H46) _ IH]; intros a lbl; [cbn; by rewrite andb_true_r, app_nil_r|].
  cbn [app labels_loop]. rewrite (proj2 (Z.eqb_neq c 0)), (proj2 (Z.eqb_neq c 46)) by done. cbn [andb]. rewrite IH, <- app_assoc. cbn [app is_ascii forallb]. f_equal.
  destruct (Z.ltb_spec 0x7f c); [rewrite (proj2 (Z.leb_gt c _)) by lia; cbn; by rewrite andb_false_r|by rewrite (proj2 (Z.leb_le c _)) by lia].
Qed.

Lemma label_bytes l : label_ok l -> Forall is_byte l.
Proof. intros [H _]. eapply Forall_impl; [done|]. by intros c [? _]. Qed.

Lemma clear_holds b x : holds b x -> holds (buf_clear b) [].
Proof. intros [H _]. split; [by apply clear_fits|done]. Qed.

Lemma put_label_spec ctx x l : holds (outbuf ctx) x -> holds (lblbuf ctx) [] -> label_ok l -> zlen x + 64 * zlen l < 2 ^ 37 ->
  exists ctx' o, put_label alloc_ok ctx (is_ascii l) l = Ret (ctx', true) /\ holds (outbuf ctx') (x ++ o) /\ holds (lblbuf ctx') [] /\ encoded l o /\ zlen o <= 64 * zlen l.
Proof.
  intros Ho Hl Hok Hx. pose proof (label_bytes l Hok) as Hb. destruct Hok as [_ Hlen]. unfold put_label, encoded. pose proof (zlen_nonneg x). destruct (is_ascii l).
  - destruct (add_data_holds (outbuf ctx) x l Ho Hb ltac:(lia)) as (o & -> & Ho'). exists (Ctx o (lblbuf ctx)), l. split; [done|]. split; [done|]. split; [done|]. split; [done|lia].
  - destruct (encode_label_spec (lblbuf ctx) [] l Hl Hb Hlen) as (b' & e & -> & Hb' & He & Hbound); [change (zlen []) with 0; lia|]. cbn [mbind outcome_mbind app] in *.
    pose proof (holds_zlen _ _ Hb') as Hlb. pose proof Hb' as [(Hw & _) Hc]. change (0 <? 0) with false. cbn iota. pose proof Hw as [Hw1 Hw2 Hw3 Hw4].
    rewrite rds_in by lia. change (drop (Z.to_nat 0) (data b')) with (data b'). cbn [mbind outcome_mbind]. fold (Buf.contents b'). rewrite Hc.
    destruct (add_data_holds (outbuf ctx) x (ACE_PREFIX ++ e) Ho) as (o & -> & Ho'); [rewrite <- Hc; by apply contents_bytes|lia|].
    exists (Ctx o (buf_clear b')), (ACE_PREFIX ++ e). split; [done|]. split; [done|]. split; [by eapply clear_holds|]. split; [by exists e|done].
Qed.

Lemma labels_spec : forall ls l x ctx, Forall label_ok (l :: ls) -> holds (outbuf ctx) x -> holds (lblbuf ctx) [] -> zlen x + 64 * zlen (dotted (l :: ls)) < 2 ^ 37 ->
  exists ctx' outs, (st ← labels_loop alloc_ok ctx true [] (dotted (l :: ls)); last_label alloc_ok st) = Ret (ctx', true) /\
    contents (outbuf ctx') = x ++ dotted outs ++ [0] /\ Forall2 encoded (l :: ls) outs.
Proof.
  induction ls as [|l' ls IH]; intros l x ctx [Hl Hls]%Forall_cons Ho Hlb Hx; pose proof Hl as [Hc Hlen].
  - assert (Escan : labels_loop alloc_ok ctx true [] (dotted [l]) = Ret (ctx, is_ascii l, l, true)).
    { change (dotted [l]) with l. pose proof (scan_label ctx l [] Hc true []) as E. by rewrite app_nil_r in E. }
    rewrite Escan. change (dotted [l]) with l in Hx. cbn [mbind outcome_mbind]. unfold last_label. cbn [negb].
    rewrite (proj2 (Z.ltb_lt 0 (zlen l))) by lia. destruct (put_label_spec ctx x l Ho Hlb Hl Hx) as (c1 & o & -> & Ho1 & _ & He & Hbound). cbn [mbind outcome_mbind negb].
    destruct (add_char_holds (outbuf c1) (x ++ o) 0 Ho1) as (o' & -> & [_ Hc']); [done|zlen_simpl; lia|]. cbn [mbind outcome_mbind]. eexists _, [o]. split; [done|].
    split; [cbn [outbuf]; by rewrite Hc', <- app_assoc|by repeat constructor].
  - change (dotted (l :: l' :: ls)) with (l ++ 46 :: dotted (l' :: ls)) in *. rewrite zlen_app, zlen_cons in Hx. pose proof (zlen_nonneg (dotted (l' :: ls))). rewrite scan_label by done. cbn [labels_loop app andb]. change (46 =? 0) with false. change (46 =? 46) with true.
    rewrite (proj2 (Z.ltb_lt 0 (zlen l))) by lia. cbn [andb]. cbn iota. destruct (put_label_spec ctx x l Ho Hlb Hl ltac:(lia)) as (c1 & o & -> & Ho1 & Hl1 & He & Hbound). cbn [mbind outcome_mbind negb].
    destruct (add_char_holds (outbuf c1) (x ++ o) 46 Ho1) as (o' & -> & Ho'); [done|zlen_simpl; lia|]. cbn [mbind outcome_mbind].
    destruct (IH l' ((x ++ o) ++ [46]) (Ctx o' (lblbuf c1)) Hls Ho' Hl1) as (c2 & outs & E & Hc2 & Hf); [zlen_simpl; lia|]. exists c2, (o :: outs). split; [exact E|]. split; [|by constructor].
    rewrite Hc2. destruct outs as [|o2 outs]; [by apply Forall2_cons_nil_inv in Hf|]. change (dotted (o :: o2 :: outs)) with (o ++ 46 :: dotted (o2 :: outs)). by rewrite <- !app_assoc.
Qed.

(** C9: a host name whose labels are at most 1000 bytes long is encoded label
    by label: a label of ASCII characters stays what it is, another one is
    "xn--" and what the decoding procedure of RFC 3492 decodes to the code
    points of the label.  Nothing overflows, and the string ends with a zero
    byte. *)
Theorem punycode_encode_decodes ctx l ls : fits ROOM (outbuf ctx) -> fits ROOM (lblbuf ctx) ->
  Forall label_ok (l :: ls) -> zlen (dotted (l :: ls)) < 2 ^ 30 ->
  exists ctx' outs, punycode_encode alloc_ok ctx (dotted (l :: ls)) = Ret (ctx', true) /\
    contents (outbuf ctx') = dotted outs ++ [0] /\ Forall2 encoded (l :: ls) outs.
Proof.
  intros Ho Hb Hls Hlen. unfold punycode_encode. apply (labels_spec ls l [] (Ctx (buf_clear (outbuf ctx)) (buf_clear (lblbuf ctx))) Hls); [by eapply clear_holds|by eapply clear_holds|].
  change (zlen []) with 0. lia.
Qed.

End Correct.

(** "straße.de" *)
Definition STRASSE : bytes := lit "stra" ++ [195; 159] ++ lit "e".

(** the buffers of a fresh context *)
Lemma replicate_fits n : 0 <= n < 1000 -> (BUF_ALIGNMENT | n) -> fits ROOM (Buf n 0 (replicate (Z.to_nat n) 0)).
Proof.
  intros Hn Hd. split; [|unfold ROOM; cbn [cap]; lia]. constructor; cbn [len cap data]; [lia|unfold zlen; rewrite length_replicate; lia|done|].
  apply Forall_replicate. unfold is_byte. lia.
Qed.

Definition fresh : punycode_ctx := Ctx (Buf 512 0 (replicate (Z.to_nat 512) 0)) (Buf 256 0 (replicate (Z.to_nat 256) 0)).

Lemma punycode_encode_decodes_witness : punycode_init Buf.all_ok = Some fresh /\
  exists ctx' outs, punycode_encode Buf.all_ok fresh (dotted [STRASSE; lit "de"]) = Ret (ctx', true) /\
    contents (outbuf ctx') = dotted outs ++ [0] /\ Forall2 encoded [STRASSE; lit "de"] outs.
Proof.
  split; [vm_compute; reflexivity|]. apply (punycode_encode_decodes Buf.all_ok ltac:(done) fresh STRASSE [lit "de"]).
  - apply replicate_fits; [lia|by exists 64].
  - apply replicate_fits; [lia|by exists 32].
  - repeat constructor; vm_compute; intuition congruence.
  - vm_compute. done.
Defined.

(** as in the tests of the repository *)
Example encode_strasse : (r ← punycode_encode Buf.all_ok fresh (dotted [STRASSE; lit "de"]); Ret (contents (outbuf r.1), r.2)) = Ret (lit "xn--strae-oqa.de" ++ [0], true).
Proof. vm_compute. reflexivity. Qed.

(** A label of 2045 "a" and U+10FFFF: the sum that is looked at for being
    negative has overflowed, which is undefined. *)
Theorem encode_label_overflows : encode_label Buf.all_ok (lblbuf fresh) (replicate 2045 97 ++ [244; 143; 191; 191]) = OutOfBounds.
Proof. vm_compute. reflexivity. Qed.
