(* ===== verification/Str.v ===== *)
(** * Fields of strings (src/lib/util/str.c)

    The fields of a string are the longest runs of bytes that are no
    separators.  The callback is a function on a state; it gets the offset and
    the length of a field and stops the iteration with a result of at most 0. *)

From Stdlib Require Import Sorted.
From S2P Require Import Prelude CLib.

Definition in_set (s : bytes) (ch : Z) : bool := mem s ch.

Section Map.
Context {St : Type} (func : Z -> Z -> St -> outcome (St * Z)).

(** what is left of the string at [s + i]; [Some] is an early result *)
Fixpoint field_loop (n : nat) (m : bytes) (s : Z) (seps : bytes) (i start : Z) (in_str : bool) (st : St) : outcome (St * option Z * Z * bool) :=
  match n with
  | O => Ret (st, None, start, in_str)
  | S n =>
      ch ← rd m (s + i);
      if in_set seps ch then
        if in_str then
          '(st, ret) ← func (s + start) (i - start) st;
          if ret <=? 0 then Ret (st, Some ret, start, in_str) else field_loop n m s seps (i + 1) start false st
        else field_loop n m s seps (i + 1) start false st
      else field_loop n m s seps (i + 1) (if in_str then start else i) true st
  end.

Definition str_map_field (m : bytes) (s len : Z) (seps : bytes) (st : St) : outcome (St * Z) :=
  '(st, ret, start, in_str) ← field_loop (Z.to_nat len) m s seps 0 0 false st;
  match ret with
  | Some ret => Ret (st, ret)
  | None => if in_str && (start <? len) then func (s + start) (len - start) st else Ret (st, 0)
  end.

(** the same up to the terminator, where [i] is returned *)
Fixpoint fieldz_loop (n : nat) (m : bytes) (s : Z) (seps : bytes) (i start : Z) (in_str : bool) (st : St) : outcome (St * option Z * Z * Z * bool) :=
  match n with
  | O => OutOfFuel
  | S n =>
      ch ← rd m (s + i);
      if ch =? 0 then Ret (st, None, i, start, in_str)
      else
        match strchr seps ch with
        | Some _ =>
            if in_str then
              '(st, ret) ← func (s + start) (i - start) st;
              if ret <=? 0 then Ret (st, Some ret, i, start, in_str) else fieldz_loop n m s seps (i + 1) start false st
            else fieldz_loop n m s seps (i + 1) start false st
        | None => fieldz_loop n m s seps (i + 1) (if in_str then start else i) true st
        end
  end.

Definition str_map_fieldz (m : bytes) (s : Z) (seps : bytes) (st : St) : outcome (St * Z) :=
  '(st, ret, i, start, in_str) ← fieldz_loop (S (length m)) m s seps 0 0 false st;
  match ret with
  | Some ret => Ret (st, ret)
  | None => if in_str && (start <? i) then func (s + start) (i - start) st else Ret (st, 0)
  end.

(** the state after the fields of a list, and whether one stopped *)
Fixpoint over_fields (s : Z) (fs : list (Z * Z)) (st : St) : outcome (St * bool) :=
  match fs with
  | [] => Ret (st, false)
  | (start, len) :: fs =>
      '(st, ret) ← func (s + start) len st; if ret <=? 0 then Ret (st, true) else over_fields s fs st
  end.
End Map.

(** ** The fields *)

Section Fields.
Context (seps : bytes).

(** where the current field starts, if a new one would start at [i] *)
Definition from (i : Z) (cur : option Z) : Z := match cur with Some a => a | None => i end.

(** the fields of [s], which starts at [i], with the start of the one before *)
Fixpoint fields (s : bytes) (i : Z) (cur : option Z) : list (Z * Z) :=
  match s with
  | [] => match cur with Some start => [(start, i - start)] | None => [] end
  | ch :: s =>
      if in_set seps ch then match cur with Some start => (start, i - start) :: fields s (i + 1) None | None => fields s (i + 1) None end
      else fields s (i + 1) (Some (from i cur))
  end.

(** a run of [s] that cannot be made longer *)
Record field_of (s : bytes) (f : Z * Z) : Prop := FieldOf {
  f_range : 0 <= f.1 /\ 0 < f.2 /\ f.1 + f.2 <= zlen s;
  f_inside i : f.1 <= i < f.1 + f.2 -> in_set seps (cchar s i) = false;
  f_before : 0 < f.1 -> in_set seps (cchar s (f.1 - 1)) = true;
  f_after : f.1 + f.2 < zlen s -> in_set seps (cchar s (f.1 + f.2)) = true;
}.

Lemma cchar_cons c s i : 0 < i -> cchar (c :: s) i = cchar s (i - 1).
Proof. intros Hi. unfold cchar. replace (Z.to_nat i) with (S (Z.to_nat (i - 1))) by lia. done. Qed.

Lemma cchar_mid pre c s : cchar (pre ++ c :: s) (zlen pre) = c.
Proof. unfold cchar, zlen. rewrite Nat2Z.id, app_nth2, Nat.sub_diag by lia. done. Qed.

(** the fields behind [pre], when the current one started at [cur] *)
Lemma fields_spec s : forall pre cur,
  (match cur with
   | Some a => 0 <= a < zlen pre /\ (forall i, a <= i < zlen pre -> in_set seps (cchar pre i) = false) /\ (0 < a -> in_set seps (cchar pre (a - 1)) = true)
   | None => 0 < zlen pre -> in_set seps (cchar pre (zlen pre - 1)) = true
   end) ->
  let fs := fields s (zlen pre) cur in
  Forall (field_of (pre ++ s)) fs /\
  (forall i, from (zlen pre) cur <= i < zlen (pre ++ s) -> in_set seps (cchar (pre ++ s) i) = false -> Exists (fun f => f.1 <= i < f.1 + f.2) fs) /\
  StronglySorted (fun f g => f.1 + f.2 < g.1) fs /\ Forall (fun f => from (zlen pre) cur <= f.1) fs.
Proof.
  assert (Hc : forall pre c (s : bytes) i, 0 <= i < zlen pre -> cchar (pre ++ [c] ++ s) i = cchar pre i).
  { intros pre c s' i Hi. unfold cchar. apply app_nth1. unfold zlen in Hi. lia. }
  induction s as [|ch s IH]; intros pre cur Hcur fs; subst fs; cbn [fields].
  - rewrite app_nil_r. destruct cur as [a|]; cbn [from].
    + destruct Hcur as (Ha & Hin & Hb). split; [apply Forall_singleton; split; cbn [fst snd]; [lia|intros i Hi; apply Hin; lia|done|intros; lia]|].
      split; [intros i Hi _; apply Exists_cons_hd; cbn; lia|]. split; [repeat constructor|by apply Forall_singleton].
    + split; [constructor|]. split; [intros i Hi; lia|]. split; constructor.
  - replace (pre ++ ch :: s) with ((pre ++ [ch]) ++ s) by (by rewrite <- app_assoc).
    replace (zlen pre + 1) with (zlen (pre ++ [ch])) by (rewrite zlen_app; unfold zlen; cbn; lia).
    assert (Hl : zlen (pre ++ [ch]) = zlen pre + 1) by (rewrite zlen_app; unfold zlen; cbn; lia).
    pose proof (zlen_nonneg pre) as Hp. pose proof (zlen_nonneg s) as Hs.
    assert (Hlast : cchar (pre ++ [ch]) (zlen pre) = ch) by apply cchar_mid.
    assert (Hold : forall i, 0 <= i < zlen pre -> cchar (pre ++ [ch]) i = cchar pre i) by (intros i Hi; by rewrite <- (Hc pre ch [] i Hi)).
    assert (Hall : forall i, 0 <= i < zlen (pre ++ [ch]) -> cchar ((pre ++ [ch]) ++ s) i = cchar (pre ++ [ch]) i).
    { intros i Hi. unfold cchar. apply app_nth1. unfold zlen in Hi. lia. }
    destruct (in_set seps ch) eqn:Ech.
    + destruct (IH (pre ++ [ch]) None) as (F & C & S & L); [intros _; by rewrite Hl, Z.add_simpl_r, Hlast|]. cbn [from] in *.
      destruct cur as [a|]; cbn [from].
      * destruct Hcur as (Ha & Hin & Hb). split; [|split; [|split]].
        -- constructor; [|done]. split; cbn [fst snd].
           ++ rewrite zlen_app. lia.
           ++ intros i Hi. rewrite Hall, Hold by lia. apply Hin. lia.
           ++ intros H. rewrite Hall, Hold by lia. auto.
           ++ intros _. replace (a + (zlen pre - a)) with (zlen pre) by lia. rewrite Hall by lia. by rewrite Hlast.
        -- intros i Hi Hn. destruct (Z.lt_ge_cases i (zlen pre)); [apply Exists_cons_hd; cbn; lia|]. apply Exists_cons_tl, C; [|done].
           assert (i <> zlen pre) by (intros ->; rewrite Hall, Hlast in Hn by lia; congruence). lia.
        -- constructor; [done|]. eapply Forall_impl; [exact L|]. cbn. intros. lia.
        -- constructor; [cbn; lia|]. eapply Forall_impl; [exact L|]. cbn. intros. lia.
      * split; [done|]. split; [|split; [done|]].
        -- intros i Hi Hn. apply C; [|done]. assert (i <> zlen pre) by (intros ->; rewrite Hall, Hlast in Hn by lia; congruence). lia.
        -- eapply Forall_impl; [exact L|]. cbn. intros. lia.
    + destruct (IH (pre ++ [ch]) (Some (from (zlen pre) cur))) as (F & C & S & L).
      { destruct cur as [a|]; cbn [from].
        - destruct Hcur as (Ha & Hin & Hb). split; [lia|]. split.
          + intros i Hi. destruct (decide (i = zlen pre)) as [->|]; [by rewrite Hlast|]. rewrite Hold by lia. apply Hin. lia.
          + intros H. rewrite Hold by lia. auto.
        - split; [lia|]. split; [intros i Hi; replace i with (zlen pre) by lia; by rewrite Hlast|]. intros H. rewrite Hold by lia. auto. }
      cbn [from] in *. done.
Qed.
End Fields.

Section MapSpec.
Context {St : Type} (func : Z -> Z -> St -> outcome (St * Z)).

(** the loop, and the field that is left at its end *)
Lemma field_loop_fields seps m s n : forall pre i start (in_str : bool) st, rds m (s + i) (Z.of_nat n) = Ret pre -> (in_str = true -> start < i) ->
  ('(st, ret, start, in_str) ← field_loop func n m s seps i start in_str st;
   match ret with
   | Some ret => Ret (st, true)
   | None => if in_str && (start <? i + Z.of_nat n) then '(st, ret) ← func (s + start) (i + Z.of_nat n - start) st; Ret (st, ret <=? 0) else Ret (st, false)
   end) = over_fields func s (fields seps pre i (if in_str then Some start else None)) st.
Proof.
  induction n as [|n IH]; intros pre i start in_str st Hr Hs; cbn [field_loop].
  - assert (pre = []) as -> by (unfold rds in Hr; destruct (_ && _); [by injection Hr as <-|done]). cbn [mbind outcome_mbind fields]. rewrite Z.add_0_r.
    destruct in_str; cbn [andb over_fields]; [|done]. rewrite (proj2 (Z.ltb_lt _ _)) by auto.
    destruct (func _ _ st) as [[st' ret]| |]; cbn [mbind outcome_mbind]; [|done..]. by destruct (ret <=? 0).
  - assert (exists ch tl, pre = ch :: tl /\ rd m (s + i) = Ret ch /\ rds m (s + (i + 1)) (Z.of_nat n) = Ret tl) as (ch & tl & -> & Hch & Htl).
    { unfold rds in Hr. destruct ((0 <=? s + i) && (0 <=? Z.of_nat (S n)) && _) eqn:Eb; [|done]. injection Hr as Hr. apply andb_prop in Eb as [Eb1 Eb]. apply andb_prop in Eb1 as [Eb1 _]. zbool.
      unfold zlen in Eb. rewrite Nat2Z.id in Hr.
      destruct (drop (Z.to_nat (s + i)) m) as [|ch tl] eqn:Ed; [apply (f_equal length) in Ed; rewrite length_drop in Ed; cbn in Ed; lia|]. cbn [take] in Hr.
      assert (Hm : m !! Z.to_nat (s + i) = Some ch) by (rewrite <- (Nat.add_0_r (Z.to_nat (s + i))), <- lookup_drop, Ed; done).
      exists ch, (take n tl). split; [done|]. split; [unfold rd; rewrite (proj2 (Z.ltb_ge _ _)), Hm by lia; done|].
      unfold rds. rewrite (proj2 (Z.leb_le 0 (s + (i + 1)))), (proj2 (Z.leb_le 0 (Z.of_nat n))), (proj2 (Z.leb_le _ (zlen m))) by (unfold zlen; lia). cbn [andb]. f_equal. rewrite Nat2Z.id.
      replace (Z.to_nat (s + (i + 1))) with (Z.to_nat (s + i) + 1)%nat by lia. rewrite <- drop_drop, Ed. done. }
    rewrite Hch. cbn [mbind outcome_mbind fields]. replace (i + Z.of_nat (S n)) with (i + 1 + Z.of_nat n) by lia.
    destruct (in_set seps ch).
    + destruct in_str.
      * cbn [over_fields]. destruct (func (s + start) (i - start) st) as [[st' ret]| |]; cbn [mbind outcome_mbind]; [|done..].
        destruct (ret <=? 0); [done|]. by apply (IH tl (i + 1) start false).
      * by apply (IH tl (i + 1) start false).
    + replace (Some (from i (if in_str then Some start else None))) with (Some (if in_str then start else i)) by (by destruct in_str).
      apply (IH tl (i + 1) (if in_str then start else i) true); [done|]. intros _. destruct in_str; [specialize (Hs eq_refl)|]; lia.
Qed.
End MapSpec.

(** [str_map_field] hands the fields of the string to the function, from
    the first on and until it returns 0 or less; the fields are longest runs
    without separators, each byte that is no separator is in one of them, and
    they come in order with a separator between them. *)
Theorem str_map_field_fields {St : Type} (func : Z -> Z -> St -> outcome (St * Z)) m s len seps bs :
  rds m s len = Ret bs -> 0 <= len ->
  exists fs,
    (forall st, fst <$> str_map_field func m s len seps st = fst <$> over_fields func s fs st) /\
    Forall (field_of seps bs) fs /\
    (forall i, 0 <= i < zlen bs -> in_set seps (cchar bs i) = false -> Exists (fun f => f.1 <= i < f.1 + f.2) fs) /\
    StronglySorted (fun f g => f.1 + f.2 < g.1) fs.
Proof.
  intros Hr Hl. exists (fields seps bs 0 None). split.
  - intros st. pose proof (field_loop_fields func seps m s (Z.to_nat len) bs 0 0 false st) as H. rewrite Z2Nat.id, !Z.add_0_l, Z.add_0_r in H by done.
    rewrite <- H by done. clear H. unfold str_map_field. destruct (field_loop _ _ _ _ _ _ _ _ _) as [[[[st' [ret|]] start] in_str]| |]; cbn [mbind outcome_mbind]; try done.
    destruct (in_str && _); [|done]. by destruct (func _ _ _) as [[st2 ret]| |].
  - destruct (fields_spec seps bs [] None) as (F & C & S & _); [done|]. rewrite app_nil_l in *. change (zlen (@nil Z)) with 0 in *. by split.
Qed.

Definition collect (m : bytes) (start len : Z) (acc : list bytes) : outcome (list bytes * Z) := f ← rds m start len; Ret (acc ++ [f], 1).

Lemma str_map_field_fields_witness :
  fst <$> str_map_field (collect (lit " ab  c d")) (lit " ab  c d") 0 8 (lit " ") [] = Ret [lit "ab"; lit "c"; lit "d"] /\
  exists fs, (forall st, fst <$> str_map_field (collect (lit " ab  c d")) (lit " ab  c d") 0 8 (lit " ") st = fst <$> over_fields (collect (lit " ab  c d")) 0 fs st) /\
    Forall (field_of (lit " ") (lit " ab  c d")) fs.
Proof.
  split; [reflexivity|]. destruct (str_map_field_fields (collect (lit " ab  c d")) (lit " ab  c d") 0 8 (lit " ") (lit " ab  c d")) as (fs & H & F & _); [reflexivity|done|].
  by exists fs.
Defined.

(** ** Strings with a terminator *)

Lemma strchr_mem seps ch : strchr seps ch = None <-> in_set seps ch = false.
Proof.
  unfold in_set, mem. induction seps as [|x l IH]; cbn; [done|]. rewrite (Z.eqb_sym ch x). destruct (x =? ch); cbn; [done|]. rewrite <- IH. by destruct (strchr l ch).
Qed.

Lemma fieldz_loop_field {St : Type} (func : Z -> Z -> St -> outcome (St * Z)) seps m s n : forall k i start in_str st, (n < k)%nat ->
  (forall j, (j < n)%nat -> exists ch, rd m (s + (i + Z.of_nat j)) = Ret ch /\ ch <> 0) -> rd m (s + (i + Z.of_nat n)) = Ret 0 ->
  ('(st, ret, i, start, in_str) ← fieldz_loop func k m s seps i start in_str st;
   match ret with Some ret => Ret (st, ret) | None => if in_str && (start <? i) then func (s + start) (i - start) st else Ret (st, 0) end) =
  ('(st, ret, start, in_str) ← field_loop func n m s seps i start in_str st;
   match ret with Some ret => Ret (st, ret) | None => if in_str && (start <? i + Z.of_nat n) then func (s + start) (i + Z.of_nat n - start) st else Ret (st, 0) end).
Proof.
  induction n as [|n IH]; intros k i start in_str st Hk Hj H0; (destruct k as [|k]; [lia|]); cbn [fieldz_loop field_loop].
  - rewrite Z.add_0_r in *. by rewrite H0.
  - destruct (Hj 0%nat) as (ch & Hch & Hne); [lia|]. rewrite Z.add_0_r in Hch. rewrite Hch. cbn [mbind outcome_mbind]. rewrite (proj2 (Z.eqb_neq _ _)) by done.
    assert (IH' : forall start in_str st, _ = _) by (intros start' b' st'; apply (IH k (i + 1) start' b' st'); [lia| |];
      [intros j Hjn; replace (i + 1 + Z.of_nat j) with (i + Z.of_nat (S j)) by lia; apply Hj; lia|by replace (i + 1 + Z.of_nat n) with (i + Z.of_nat (S n)) by lia]).
    replace (i + Z.of_nat (S n)) with (i + 1 + Z.of_nat n) by lia.
    destruct (strchr seps ch) eqn:E.
    + destruct (in_set seps ch) eqn:Ei; [|by apply strchr_mem in Ei; congruence]. destruct in_str; [|apply IH'].
      destruct (func (s + start) (i - start) st) as [[st' ret]| |]; cbn [mbind outcome_mbind]; [|done..]. destruct (ret <=? 0); [done|]. apply IH'.
    + apply strchr_mem in E. rewrite E. apply IH'.
Qed.

(** On a string with a terminator [str_map_fieldz] does what
    [str_map_field] does on its bytes. *)
Theorem str_map_fieldz_field {St : Type} (func : Z -> Z -> St -> outcome (St * Z)) m s seps bs st :
  0 <= s -> cstr_at m s = Ret bs -> str_map_fieldz func m s seps st = str_map_field func m s (zlen bs) seps st.
Proof.
  intros Hs Hc. destruct (cstr_at_spec _ _ _ Hc) as (_ & H0 & Hk). unfold str_map_fieldz, str_map_field. rewrite (fieldz_loop_field func seps m s (length bs)); rewrite ?Z.add_0_l.
  - unfold zlen. rewrite Nat2Z.id. done.
  - apply lookup_lt_Some in H0. unfold zlen in H0. lia.
  - intros j Hj. destruct (lookup_lt_is_Some_2 bs j Hj) as (ch & Hch). destruct (Hk j ch Hch) as [Hne Hm]. exists ch. split; [|done].
    apply rd_ret. split; [lia|done].
  - apply rd_ret. split; [lia|done].
Qed.

Lemma str_map_fieldz_field_witness :
  str_map_fieldz (collect (lit "ab c" ++ [0])) (lit "ab c" ++ [0]) 0 (lit " ") [] = str_map_field (collect (lit "ab c" ++ [0])) (lit "ab c" ++ [0]) 0 (zlen (lit "ab c")) (lit " ") [] /\
  str_map_fieldz (collect (lit "ab c" ++ [0])) (lit "ab c" ++ [0]) 0 (lit " ") [] = Ret ([lit "ab"; lit "c"], 1).
Proof. split; [|reflexivity]. apply str_map_fieldz_field; [lia|reflexivity]. Defined.
