(* ===== verification/NetstringMap.v ===== *)
(** * Structs as netstrings (src/lib/util/netstring.c)

    [netstring_serialize] writes the strings of a struct as one netstring of
    pairs of netstrings, [netstring_deserialize] finds them again.  The lemmas
    on the pairs serve the generated messages as well. *)

From stdpp Require Import sets.
From S2P Require Import Prelude CLib Buf Netstring.

Definition netstring_strerror (code : Z) : bytes :=
  if code =? NETSTRING_OK then lit "success"
  else if code =? NETSTRING_ERRFMT then lit "netstring format error"
  else if code =? NETSTRING_ERRTOOLARGE then lit "netstring length too large"
  else if code =? NETSTRING_ERRINCOMPLETE then lit "incomplete netstring"
  else if code =? NETSTRING_ERRMEM then lit "netstring memory allocation error"
  else lit "unknown netstring error".

(** ** Serialization *)

(** A map is the list of its keys, a struct the list of its values in the same
    order: to serialize, the bytes that a member points to, or [None] for
    NULL, where a terminator is behind the bytes; deserialized, an offset in
    the input and a length. *)
Section Serialize.
Context (alloc_ok : Z -> bool).

Fixpoint serialize_loop (map : list bytes) (vals : list (option bytes)) (tmp : buf_t) : outcome (buf_t * Z) :=
  match map, vals with
  | key :: map, val :: vals =>
      match val with
      | Some v =>
          if negb (cchar v 0 =? 0) then
            '(tmp, ret) ← netstring_append_pair alloc_ok tmp key v;
            if negb (ret =? NETSTRING_OK) then Ret (tmp, ret) else serialize_loop map vals tmp
          else serialize_loop map vals tmp
      | None => serialize_loop map vals tmp
      end
  | _, _ => Ret (tmp, NETSTRING_OK)
  end.

(** The result of [buf_init] is not looked at: without memory the members of
    the temporary buffer stay as they were on the stack, and what follows uses
    them, the length at least, in every case. *)
Definition netstring_serialize (map : list bytes) (vals : list (option bytes)) (out : buf_t) : outcome (buf_t * Z) :=
  match buf_init alloc_ok 1024 with
  | None => OutOfBounds
  | Some tmp =>
      '(tmp, ret) ← serialize_loop map vals tmp;
      if negb (ret =? NETSTRING_OK) then Ret (out, ret)
      else netstring_append_buf alloc_ok out (contents tmp)
  end.
End Serialize.

(** the loop over the names that starts at [start] and wraps around *)
Fixpoint key_search (n : nat) (next : Z -> Z) (names : list bytes) (m : bytes) (key : Z) (i start : Z) : outcome (option Z) :=
  match n with
  | O => OutOfFuel
  | S n =>
      name ← rd names i;
      eq ← streq_at m key name;
      if (eq : bool) then Ret (Some i)
      else
        let i := next i in
        if i =? start then Ret None else key_search n next names m key i start
  end.

(** [while (netstring_next_pair(...) == NETSTRING_OK) body]: the body gets the
    object and a pair and gives the object back; [false] ends the loop at once *)
Section Pairs.
Context {St : Type} (body : bytes -> netstring_pair -> St -> outcome (bytes * St * bool)).

Fixpoint foreach_pair (fuel : nat) (m : bytes) (data datalen : Z) (st : St) : outcome (bytes * St * bool) :=
  match fuel with
  | O => OutOfFuel
  | S fuel =>
      '(m, r, data, datalen) ← netstring_next_pair m data datalen;
      match r with
      | inr _ => Ret (m, st, true)
      | inl p =>
          '(m, st, go) ← body m p st;
          if (go : bool) then foreach_pair fuel m data datalen st else Ret (m, st, false)
      end
  end.
End Pairs.

Definition map_next (map : list bytes) (i : Z) : Z := if i + 1 =? zlen map then 0 else i + 1.

(** [vals] are the members set so far, [mcurr] the entry of the last key *)
Definition deserialize_pair (map : list bytes) (m : bytes) (pair : netstring_pair) (st : list (option (Z * Z)) * Z) :
    outcome (bytes * (list (option (Z * Z)) * Z) * bool) :=
  let '(vals, mcurr) := st in
  r ← key_search (length map) (map_next map) map m (key pair) mcurr mcurr;
  match r with
  | Some mnext =>
      c ← rd m (value pair);
      vals ← (if negb (c =? 0) then wr vals mnext (Some (value pair, valuelen pair)) else Ret vals);
      Ret (m, (vals, mnext), true)
  | None => Ret (m, (vals, mcurr), true)
  end.

(** the input afterwards, the members, the status and [*left], which is set
    when the outer netstring was parsed *)
Definition netstring_deserialize (map : list bytes) (m : bytes) (inlen : Z) : outcome (bytes * list (option (Z * Z)) * Z * option Z) :=
  let vals := replicate (length map) None in
  if zlen map =? 0 then Ret (m, vals, NETSTRING_OK, None)
  else
    '(m, r) ← netstring_parse m 0 inlen;
    match r with
    | inr e => Ret (m, vals, e, None)
    | inl (curr, len) =>
        let left := u64 (inlen - (curr + len + 1)) in
        '(m, (vals, _), _) ← foreach_pair (deserialize_pair map) (S (Z.to_nat len)) m curr len (vals, 0);
        Ret (m, vals, NETSTRING_OK, Some left)
    end.

(** ** Parsing what was written *)

(** a netstring is a header, the bytes and a comma *)
Definition framed (hdr str e : bytes) : Prop := e = hdr ++ str ++ [COMMA] /\ encodes str e.

Lemma encodes_framed str e : encodes str e -> exists hdr, framed hdr str e /\ 0 < zlen hdr.
Proof.
  intros He. pose proof He as (ds & _ & Hne & _ & _ & E). exists (ds ++ [COLON]). split; [split; [|done]|].
  - by rewrite E, <- app_assoc.
  - zlen_simpl. pose proof (zlen_nonneg ds). lia.
Qed.

Lemma framed_bytes hdr str e : framed hdr str e -> Forall is_byte hdr.
Proof.
  intros [E (ds & Hd & _ & _ & _ & E2)]. rewrite E2 in E. change (ds ++ COLON :: str ++ [COMMA]) with (ds ++ [COLON] ++ str ++ [COMMA]) in E.
  rewrite app_assoc in E. apply app_inv_tail in E as <-. apply Forall_app. split; [by apply digits_bytes|by repeat constructor].
Qed.

Lemma netstring_parse_encoded pre hdr str e tl post : framed hdr str e -> zlen pre + zlen (e ++ tl) < 2 ^ 62 ->
  netstring_parse (pre ++ (e ++ tl) ++ post) (zlen pre) (zlen (e ++ tl))
  = Ret (pre ++ ((hdr ++ str ++ [0]) ++ tl) ++ post, inl (zlen pre + zlen hdr, zlen str)).
Proof.
  intros [E He] Hb. pose proof (zlen_nonneg pre). pose proof (zlen_nonneg tl). pose proof (zlen_nonneg str). pose proof (zlen_nonneg hdr).
  destruct (encodes_is_netstring str e tl He) as (off & Hns & Hoff).
  assert (Eoff : off = zlen hdr) by (rewrite E in Hoff; zlen_simpl; lia). subst off.
  unfold netstring_parse. rewrite (netstring_parse_complete _ _ _ (zlen hdr) str) by (done || lia).
  cbn [mbind outcome_mbind]. rewrite zlen_app in Hb. rewrite uw_small by lia.
  replace (pre ++ (e ++ tl) ++ post) with ((pre ++ hdr ++ str) ++ COMMA :: tl ++ post) by (rewrite E, <- !app_assoc; done).
  replace (zlen pre + (zlen hdr + zlen str)) with (zlen (pre ++ hdr ++ str)) by (zlen_simpl; lia).
  rewrite wr_mid. cbn [mbind outcome_mbind]. f_equal. f_equal. by rewrite <- !app_assoc.
Qed.

(** a netstring that has not arrived completely *)
Lemma netstring_parse_prefix p q str post : encodes str (p ++ q) -> q <> [] -> zlen str < 2 ^ 62 ->
  _netstring_parse (p ++ post) 0 (zlen p) = Ret (inr NETSTRING_ERRINCOMPLETE).
Proof.
  intros (ds & Hd & Hne & Hv & Hl & E) Hq Hs. unfold _netstring_parse. unfold zlen at 1. rewrite Nat2Z.id.
  pose proof (zlen_nonneg str). pose proof (zlen_nonneg ds).
  destruct (decide (p = [])) as [->|Hp]; [done|].
  assert (Hskip : forall d p', p = d :: p' -> is_digit d = true -> forall n, netstring_parse_loop (S n) (p ++ post) 0 (zlen p) 0 NETSTRING_SWS 0
    = netstring_parse_loop (S n) (p ++ post) 0 (zlen p) 0 NETSTRING_SLEN 0).
  { intros d p' Ep Hdd n. apply (loop_skip_ws [] p post n [] d p' 0); [done|].
    unfold NETSTRING_WS, is_digit, CH_0, CH_9, CR, LF, TAB, SP in *. zbool. by repeat (rewrite (proj2 (Z.eqb_neq _ _)) by lia). }
  destruct (decide (length p <= length ds)%nat) as [Hle|Hgt].
  - assert (Ep : exists ds', ds = p ++ ds').
    { exists (drop (length p) ds). rewrite <- (take_drop (length p) ds) at 1. f_equal.
      assert (take (length p) (p ++ q) = take (length p) (ds ++ COLON :: str ++ [COMMA])) as Ht by (by rewrite E).
      rewrite take_app_length, take_app_le in Ht by done. done. }
    destruct Ep as [ds' ->]. apply Forall_app in Hd as [Hdp Hd'].
    assert (Hb : dval 0 p < 2 ^ 64).
    { pose proof (dval_nonneg p 0 ltac:(lia) Hdp) as Hd0. pose proof (dval_nonneg ds' (dval 0 p) Hd0 Hd') as Hd1.
      unfold dval in *. rewrite foldl_app in Hv. lia. }
    destruct p as [|d p'] eqn:Ep; [done|]. pose proof Hdp as [Hdd _]%Forall_cons. rewrite <- Ep in *.
    assert (En : length p = S (length p')) by (by rewrite Ep). rewrite En, (Hskip d p' Ep Hdd (length p')), <- En.
    pose proof (loop_digits [] p post p [] [] 0 0 ltac:(by rewrite app_nil_r) Hdp ltac:(lia) Hb) as L.
    rewrite Nat.add_0_r in L. cbn beta in L. cbn [app] in L. rewrite zlen_nil in L. rewrite L. done.
  - assert (Ep : exists p2, p = ds ++ COLON :: p2 /\ p2 ++ q = str ++ [COMMA]).
    { assert (Ht : drop (length ds) (p ++ q) = COLON :: str ++ [COMMA]) by (by rewrite E, drop_app_length).
      rewrite drop_app_le in Ht by lia. destruct (drop (length ds) p) as [|c p2] eqn:Edr.
      - exfalso. apply (f_equal length) in Edr. rewrite length_drop in Edr. simpl in Edr. lia.
      - injection Ht as -> Ht. exists p2. split; [|done]. rewrite <- (take_drop (length ds) p), Edr. f_equal.
        assert (take (length ds) (p ++ q) = ds) as Ht2 by (by rewrite E, take_app_length). rewrite take_app_le in Ht2 by lia. done. }
    destruct Ep as (p2 & Ep & Ep2).
    assert (Hlq : zlen p2 <= zlen str).
    { apply (f_equal zlen) in Ep2. zlen_simpl. destruct q; [done|]. zlen_simpl. pose proof (zlen_nonneg q). lia. }
    destruct ds as [|d ds'] eqn:Eds; [done|]. pose proof Hd as [Hdd _]%Forall_cons. rewrite <- Eds in *.
    assert (Ep' : p = d :: (ds' ++ COLON :: p2)) by (by rewrite Ep, Eds).
    assert (En : length p = (length ds + S (length p2))%nat) by (rewrite Ep, length_app; done). rewrite En.
    assert (En2 : (length ds + S (length p2))%nat = S (length ds' + S (length p2))) by (by rewrite Eds). rewrite En2, (Hskip d _ Ep' Hdd), <- En2.
    pose proof (loop_digits [] p post ds [] (COLON :: p2) (S (length p2)) 0 Ep Hd ltac:(lia) ltac:(lia)) as L.
    cbn beta in L. cbn [app] in L. rewrite zlen_nil in L. rewrite L, Hv. clear L.
    pose proof (loop_colon [] p post (length p2) ds p2 (zlen str) NETSTRING_SLEN Ep) as L. cbn [app] in L. change (zlen (@nil Z)) with 0 in L; rewrite ?Z.add_0_l in *.
    rewrite L; [|rewrite Eds; zlen_simpl; pose proof (zlen_nonneg ds'); lia|done]. clear L.
    destruct p2 as [|c p2']; [done|]. cbn [length netstring_parse_loop].
    pose proof (read_at [] p post (ds ++ [COLON]) c p2') as R. cbn [app] in R. rewrite zlen_app, zlen_nil, Z.add_0_l in R.
    change (zlen [COLON]) with 1 in R. rewrite ?Z.add_0_l. rewrite R by (by rewrite Ep, <- app_assoc). cbn [mbind outcome_mbind].
    assert (Hzp : zlen p = zlen ds + 1 + zlen (c :: p2')) by (rewrite Ep; zlen_simpl; lia). rewrite uw_small by lia.
    rewrite (proj2 (Z.leb_le _ _)) by lia. done.
Qed.

(** a pair of netstrings before and after it was parsed *)
Definition pair_text (hk k hv v : bytes) : bytes := (hk ++ k ++ [COMMA]) ++ hv ++ v ++ [COMMA].
Definition pair_parsed (hk k hv v : bytes) : bytes := (hk ++ k ++ [0]) ++ hv ++ v ++ [0].

Lemma netstring_next_pair_encoded pre hk k ek hv v ev tl post : framed hk k ek -> framed hv v ev ->
  zlen pre + zlen (ek ++ ev ++ tl) < 2 ^ 62 ->
  netstring_next_pair (pre ++ (ek ++ ev ++ tl) ++ post) (zlen pre) (zlen (ek ++ ev ++ tl))
  = Ret (pre ++ (pair_parsed hk k hv v ++ tl) ++ post,
      inl (Pair (zlen pre + zlen hk) (zlen k) (zlen (pre ++ ek) + zlen hv) (zlen v)), zlen (pre ++ ek ++ ev), zlen tl).
Proof.
  intros Hk Hv Hb. pose proof (zlen_nonneg pre). pose proof (zlen_nonneg tl). pose proof (zlen_nonneg v). pose proof (zlen_nonneg k).
  pose proof (zlen_nonneg hk). pose proof (zlen_nonneg hv).
  assert (Ek : zlen ek = zlen hk + zlen k + 1) by (rewrite (proj1 Hk); zlen_simpl; lia).
  assert (Ev : zlen ev = zlen hv + zlen v + 1) by (rewrite (proj1 Hv); zlen_simpl; lia).
  assert (Hz : zlen (ek ++ ev ++ tl) = zlen ek + zlen ev + zlen tl) by (zlen_simpl; lia).
  unfold netstring_next_pair. rewrite (proj2 (Z.eqb_neq _ _)) by lia.
  rewrite (netstring_parse_encoded pre hk k ek (ev ++ tl) post Hk) by lia. cbn [mbind outcome_mbind].
  rewrite uw_small by lia. rewrite (proj2 (Z.leb_gt _ _)) by lia.
  replace (pre ++ ((hk ++ k ++ [0]) ++ ev ++ tl) ++ post) with ((pre ++ hk ++ k ++ [0]) ++ (ev ++ tl) ++ post) by (rewrite <- !app_assoc; done).
  assert (Hp1 : zlen (pre ++ hk ++ k ++ [0]) = zlen pre + zlen ek) by (zlen_simpl; lia).
  replace (zlen pre + (zlen pre + zlen hk + zlen k + 1 - zlen pre)) with (zlen (pre ++ hk ++ k ++ [0])) by lia.
  replace (zlen (ek ++ ev ++ tl) - (zlen pre + zlen hk + zlen k + 1 - zlen pre)) with (zlen (ev ++ tl)) by (zlen_simpl; lia).
  rewrite (netstring_parse_encoded (pre ++ hk ++ k ++ [0]) hv v ev tl post Hv) by (rewrite Hp1; zlen_simpl; lia).
  cbn [mbind outcome_mbind]. rewrite Hp1. rewrite uw_small by lia. unfold pair_parsed.
  rewrite <- !app_assoc. zlen_simpl. rewrite Ek. repeat f_equal; lia.
Qed.

Definition encodes_pair (p : bytes * bytes) (e : bytes) : Prop := exists ek ev, encodes p.1 ek /\ encodes p.2 ev /\ e = ek ++ ev.

Lemma encodes_pair_length p e : encodes_pair p e -> zlen p.1 + zlen p.2 + 4 <= zlen e <= zlen p.1 + zlen p.2 + 98.
Proof.
  intros (ek & ev & Hk & Hv & ->). pose proof (encodes_length _ _ Hk). pose proof (encodes_length _ _ Hv).
  destruct (encodes_framed _ _ Hk) as (hk & [Ek _] & ?). destruct (encodes_framed _ _ Hv) as (hv & [Ev _] & ?).
  zlen_simpl. assert (zlen ek = zlen hk + zlen p.1 + 1) by (rewrite Ek; zlen_simpl; lia).
  assert (zlen ev = zlen hv + zlen p.2 + 1) by (rewrite Ev; zlen_simpl; lia). lia.
Qed.

Lemma encodes_pairs_length ps : forall es, Forall2 encodes_pair ps es -> zlen ps <= zlen (concat es).
Proof.
  induction ps as [|p ps IH]; intros es Hes; [apply Forall2_nil_inv_l in Hes as ->; done|].
  apply Forall2_cons_inv_l in Hes as (e & es' & He & Hes & ->). cbn [concat]. zlen_simpl.
  pose proof (encodes_pair_length _ _ He). pose proof (zlen_nonneg p.1). pose proof (zlen_nonneg p.2). specialize (IH _ Hes). lia.
Qed.

(** the loop over pairs that were written: the body keeps [I], which relates
    what was read so far, the pairs that are left and the state *)
Section ForeachEncoded.
Context {St : Type} (body : bytes -> netstring_pair -> St -> outcome (bytes * St * bool)).
Context (I : bytes -> list (bytes * bytes) -> St -> Prop).
Context (Hbody : forall pre hk k hv v ps st tl, Forall is_byte hk -> Forall is_byte hv -> I pre ((k, v) :: ps) st ->
  zlen pre + zlen (pair_parsed hk k hv v) < 2 ^ 62 ->
  exists parsed st', zlen parsed = zlen (pair_parsed hk k hv v) /\
    body (pre ++ pair_parsed hk k hv v ++ tl) (Pair (zlen pre + zlen hk) (zlen k) (zlen pre + zlen hk + zlen k + 1 + zlen hv) (zlen v)) st
    = Ret (pre ++ parsed ++ tl, st', true) /\ I (pre ++ parsed) ps st').

Lemma foreach_pair_encoded ps : forall es pre post st fuel, Forall2 encodes_pair ps es -> (length ps < fuel)%nat ->
  zlen pre + zlen (concat es) < 2 ^ 62 -> I pre ps st ->
  exists parsed st', zlen parsed = zlen (concat es) /\
    foreach_pair body fuel (pre ++ concat es ++ post) (zlen pre) (zlen (concat es)) st = Ret (pre ++ parsed ++ post, st', true) /\
    I (pre ++ parsed) [] st'.
Proof.
  induction ps as [|[k v] ps IH]; intros es pre post st fuel Hes Hf Hb Hi; (destruct fuel as [|fuel]; [lia|]).
  - apply Forall2_nil_inv_l in Hes as ->. exists [], st. split; [done|]. split; [done|]. by rewrite app_nil_r.
  - apply Forall2_cons_inv_l in Hes as (e & es' & (ek & ev & Hk & Hv & ->) & Hes & ->). cbn [length] in Hf. cbn [concat] in *.
    destruct (encodes_framed _ _ Hk) as (hk & Fk & _). destruct (encodes_framed _ _ Hv) as (hv & Fv & _). cbn [fst snd] in *.
    rewrite <- app_assoc in *. cbn [foreach_pair]. rewrite (netstring_next_pair_encoded pre hk k ek hv v ev (concat es') post Fk Fv Hb).
    cbn [mbind outcome_mbind].
    assert (Hl : zlen (pair_parsed hk k hv v) = zlen (ek ++ ev)).
    { rewrite (proj1 Fk), (proj1 Fv). unfold pair_parsed. zlen_simpl. lia. }
    pose proof (zlen_nonneg (concat es')).
    destruct (Hbody pre hk k hv v ps st (concat es' ++ post) (framed_bytes _ _ _ Fk) (framed_bytes _ _ _ Fv) Hi) as (parsed & st' & Hpl & E & Hi'); [zlen_simpl; lia|].
    replace (zlen (pre ++ ek) + zlen hv) with (zlen pre + zlen hk + zlen k + 1 + zlen hv) by (rewrite (proj1 Fk); zlen_simpl; lia).
    rewrite <- (app_assoc (pair_parsed hk k hv v)). rewrite E. cbn [mbind outcome_mbind].
    destruct (IH es' (pre ++ parsed) post st' fuel Hes ltac:(lia)) as (parsed' & st2 & Hpl' & E' & Hi2); [zlen_simpl; lia|done|].
    exists (parsed ++ parsed'), st2. split; [zlen_simpl; lia|]. split; [|by rewrite app_assoc].
    replace (pre ++ parsed ++ concat es' ++ post) with ((pre ++ parsed) ++ concat es' ++ post) by (by rewrite <- app_assoc).
    replace (zlen (pre ++ ek ++ ev)) with (zlen (pre ++ parsed)) by (zlen_simpl; lia). rewrite E'. by rewrite <- !app_assoc.
Qed.
End ForeachEncoded.

(** ** Searching a name *)

Section Search.
Context (names : list bytes) (next : Z -> Z) (Hnext : forall i, 0 <= i < zlen names -> next i = (i + 1) mod zlen names).
Context (Hnames : Forall (Forall (fun c => c <> 0)) names).

Lemma key_search_spec pre k tl start n : 0 <= start < zlen names -> Forall (fun c => c <> 0) k -> NoDup names ->
  (length names <= n)%nat ->
  forall j, names !! Z.to_nat j = Some k -> 0 <= j ->
  key_search n next names (pre ++ k ++ 0 :: tl) (zlen pre) start start = Ret (Some j).
Proof.
  intros Hst Hk Hnd Hn j Hj Hj0. remember (zlen names) as N eqn:EN. assert (HjN : j < N) by (apply lookup_lt_Some in Hj; rewrite EN; unfold zlen; lia).
  assert (Hgen : forall m t, (length names <= Z.to_nat t + m)%nat -> 0 <= t <= (j - start) mod N ->
    key_search m next names (pre ++ k ++ 0 :: tl) (zlen pre) ((start + t) mod N) start = Ret (Some j)).
  { induction m as [|m IH]; intros t Hm Ht.
    - exfalso. assert ((j - start) mod N < N) by (apply Z.mod_pos_bound; lia). rewrite EN in *. unfold zlen in *. lia.
    - cbn [key_search]. assert (Hi : 0 <= (start + t) mod N < N) by (apply Z.mod_pos_bound; lia).
      destruct (rd_in names ((start + t) mod N) ltac:(lia)) as (nm & -> & Hnm). cbn [mbind outcome_mbind].
      assert (Hnm0 : Forall (fun c => c <> 0) nm) by (by eapply Forall_lookup_1 in Hnm; [|exact Hnames]).
      rewrite streq_at_mid by done. cbn [mbind outcome_mbind]. case_bool_decide as Heq.
      + subst nm. pose proof (NoDup_lookup _ _ _ _ Hnd Hnm Hj). do 2 f_equal. lia.
      + assert (Htne : t <> (j - start) mod N).
        { intros ->. rewrite Zplus_mod_idemp_r in Hnm. replace (start + (j - start)) with j in Hnm by lia.
          rewrite Z.mod_small in Hnm by lia. congruence. }
        assert (Hnx : next ((start + t) mod N) = (start + (t + 1)) mod N).
        { rewrite Hnext by done. rewrite Zplus_mod_idemp_l. f_equal. lia. }
        rewrite Hnx. destruct (Z.eqb_spec ((start + (t + 1)) mod N) start) as [E|E].
        * exfalso. assert (HN : (j - start) mod N < N) by (apply Z.mod_pos_bound; lia).
          clear IH. generalize dependent ((j - start) mod N). intros d Ht Htne HN.
          pose proof (Z.div_mod (start + (t + 1)) N ltac:(lia)) as Hd. rewrite E in Hd.
          generalize dependent ((start + (t + 1)) / N). intros q Hd. assert (Ht1 : N * q = t + 1) by lia. assert (Ht2 : 0 < t + 1 < N) by lia. clear - Ht1 Ht2. destruct (Z_le_gt_dec q 0); nia.
        * apply IH; lia. }
  pose proof (Z.mod_pos_bound (j - start) N ltac:(lia)) as Hb.
  rewrite <- (Hgen n 0) by lia. rewrite Z.add_0_r, Z.mod_small by lia. done.
Qed.
End Search.

Lemma map_next_mod map i : 0 <= i < zlen map -> map_next map i = (i + 1) mod zlen map.
Proof.
  intros Hi. unfold map_next. destruct (Z.eqb_spec (i + 1) (zlen map)) as [->|]; [by rewrite Z.mod_same by lia|].
  by rewrite Z.mod_small by lia.
Qed.

(** ** The round trip of a struct *)

Definition pairs_total (ps : list (bytes * bytes)) : Z := foldr (fun p n => zlen p.1 + zlen p.2 + 98 + n) 0 ps.

Lemma pairs_total_nonneg ps : 0 <= pairs_total ps.
Proof. induction ps as [|[k v] ps IH]; cbn; [lia|]. pose proof (zlen_nonneg k). pose proof (zlen_nonneg v). fold (pairs_total ps). lia. Qed.

Lemma encodes_pairs_bound ps : forall es, Forall2 encodes_pair ps es -> zlen (concat es) <= pairs_total ps.
Proof.
  induction ps as [|p ps IH]; intros es Hes; [apply Forall2_nil_inv_l in Hes as ->; done|].
  apply Forall2_cons_inv_l in Hes as (e & es' & He & Hes & ->). cbn. fold (pairs_total ps). zlen_simpl.
  pose proof (encodes_pair_length _ _ He). specialize (IH _ Hes). lia.
Qed.

Section AppendPairs.
Context (alloc_ok : Z -> bool) (K : Z).

Lemma netstring_append_pair_spec b k v : fits K b -> Forall is_byte k -> Forall is_byte v ->
  2 * (len b + zlen k + zlen v + 98) + 16 <= K ->
  exists b' r, netstring_append_pair alloc_ok b k v = Ret (b', r) /\ fits K b' /\
    ((r = NETSTRING_OK /\ exists e, encodes_pair (k, v) e /\ contents b' = contents b ++ e) \/
     (r = NETSTRING_ERRMEM /\ contents b' = contents b)).
Proof.
  intros Hf Hk Hv Hr. pose proof (zlen_nonneg k). pose proof (zlen_nonneg v). unfold netstring_append_pair.
  destruct (netstring_append_buf_spec alloc_ok K b k Hf Hk ltac:(lia)) as (b1 & r1 & -> & Hf1 & [(-> & ek & Hek & E1)|[-> E1]]); cbn [mbind outcome_mbind].
  2: { destruct (rollback K b b1 [] Hf1) as [Hf2 E2]; [by rewrite app_nil_r|apply Hf|]. eexists _, _. split; [done|]. split; [done|]. by right. }
  change (negb (NETSTRING_OK =? NETSTRING_OK)) with false. cbv iota.
  pose proof (contents_length b (proj1 Hf)) as L0. pose proof (contents_length b1 (proj1 Hf1)) as L1. rewrite E1, zlen_app in L1.
  pose proof (encodes_length _ _ Hek).
  destruct (netstring_append_buf_spec alloc_ok K b1 v Hf1 Hv ltac:(lia)) as (b2 & r2 & -> & Hf2 & [(-> & ev & Hev & E2)|[-> E2]]); cbn [mbind outcome_mbind].
  - change (negb (NETSTRING_OK =? NETSTRING_OK)) with false. cbv iota. eexists _, _. split; [done|]. split; [done|]. left. split; [done|].
    exists (ek ++ ev). split; [by exists ek, ev|]. by rewrite E2, E1, app_assoc.
  - destruct (rollback K b b2 ek Hf2) as [Hf3 E3]; [congruence|apply Hf|]. eexists _, _. split; [done|]. split; [done|]. by right.
Qed.

Lemma netstring_append_pair_all (Halloc : forall n, alloc_ok n = true) b k v : fits K b -> Forall is_byte k -> Forall is_byte v ->
  2 * (len b + zlen k + zlen v + 98) + 16 <= K ->
  exists b' e, netstring_append_pair alloc_ok b k v = Ret (b', NETSTRING_OK) /\ fits K b' /\ encodes_pair (k, v) e /\ contents b' = contents b ++ e.
Proof.
  intros Hf Hk Hv Hr. pose proof (zlen_nonneg k). pose proof (zlen_nonneg v). unfold netstring_append_pair.
  destruct (netstring_append_buf_all alloc_ok Halloc K b k Hf Hk ltac:(lia)) as (b1 & ek & -> & Hf1 & Hek & E1). cbn [mbind outcome_mbind].
  change (negb (NETSTRING_OK =? NETSTRING_OK)) with false. cbv iota.
  pose proof (contents_length b (proj1 Hf)) as L0. pose proof (contents_length b1 (proj1 Hf1)) as L1. rewrite E1, zlen_app in L1.
  pose proof (encodes_length _ _ Hek).
  destruct (netstring_append_buf_all alloc_ok Halloc K b1 v Hf1 Hv ltac:(lia)) as (b2 & ev & -> & Hf2 & Hev & E2). cbn [mbind outcome_mbind].
  change (negb (NETSTRING_OK =? NETSTRING_OK)) with false. cbv iota. exists b2, (ek ++ ev). split; [done|]. split; [done|].
  split; [by exists ek, ev|]. by rewrite E2, E1, app_assoc.
Qed.

(** the members that are written *)
Fixpoint kept (map : list bytes) (vals : list (option bytes)) : list (bytes * bytes) :=
  match map, vals with
  | key :: map, Some v :: vals => if negb (cchar v 0 =? 0) then (key, v) :: kept map vals else kept map vals
  | _ :: map, None :: vals => kept map vals
  | _, _ => []
  end.

Lemma serialize_loop_spec map : forall vals b, fits K b -> Forall (Forall is_byte) map ->
  Forall (fun val => match val with Some v => Forall is_byte v | None => True end) vals ->
  2 * (len b + pairs_total (kept map vals)) + 16 <= K ->
  exists b' r, serialize_loop alloc_ok map vals b = Ret (b', r) /\ fits K b' /\
    ((r = NETSTRING_OK /\ exists es, Forall2 encodes_pair (kept map vals) es /\ contents b' = contents b ++ concat es) \/ r = NETSTRING_ERRMEM).
Proof.
  induction map as [|key map IH]; intros vals b Hf Hm Hv Hr; cbn [serialize_loop kept] in *.
  - eexists _, _. split; [done|]. split; [done|]. left. split; [done|]. exists []. by rewrite app_nil_r.
  - destruct vals as [|[v|] vals]; [eexists _, _; split; [done|]; split; [done|]; left; split; [done|]; exists []; by rewrite app_nil_r| |].
    2: { apply Forall_cons in Hm as [_ Hm]. apply Forall_cons in Hv as [_ Hv]. by apply IH. }
    apply Forall_cons in Hm as [Hkey Hm]. apply Forall_cons in Hv as [Hv0 Hv].
    destruct (negb (cchar v 0 =? 0)); [|by apply IH]. cbn in Hr. fold (pairs_total (kept map vals)) in Hr.
    pose proof (pairs_total_nonneg (kept map vals)).
    destruct (netstring_append_pair_spec b key v Hf Hkey Hv0 ltac:(lia)) as (b1 & r1 & -> & Hf1 & [(-> & e & He & E1)|[-> E1]]); cbn [mbind outcome_mbind].
    2: { eexists _, _. split; [done|]. split; [done|]. by right. }
    change (negb (NETSTRING_OK =? NETSTRING_OK)) with false. cbv iota. pose proof (encodes_pair_length _ _ He) as Hel. cbn [fst snd] in Hel.
    pose proof (contents_length b (proj1 Hf)). pose proof (contents_length b1 (proj1 Hf1)) as L1. rewrite E1, zlen_app in L1.
    destruct (IH vals b1 Hf1 Hm Hv ltac:(lia)) as (b2 & r2 & -> & Hf2 & H2). eexists _, _. split; [done|]. split; [done|].
    destruct H2 as [(-> & es & Hes & E2)| ->]; [left|by right]. split; [done|]. exists (e :: es). split; [by constructor|].
    rewrite E2, E1. cbn [concat]. by rewrite app_assoc.
Qed.
End AppendPairs.

(** [v] is at [off] *)
Definition slice (m : bytes) (off : Z) (v : bytes) : Prop := rds m off (zlen v) = Ret v.

Lemma slice_mid pre v post : slice (pre ++ v ++ post) (zlen pre) v.
Proof.
  unfold slice. pose proof (zlen_nonneg pre). pose proof (zlen_nonneg v). pose proof (zlen_nonneg post).
  rewrite rds_in by (zlen_simpl; lia). f_equal. unfold zlen. rewrite !Nat2Z.id, drop_app_length. apply take_app_length.
Qed.

Lemma slice_app m off v post : slice m off v -> slice (m ++ post) off v.
Proof.
  unfold slice, rds. zlen_simpl. pose proof (zlen_nonneg post). pose proof (zlen_nonneg v). destruct (Z.leb_spec 0 off); cbn [andb]; [|done].
  destruct (Z.leb_spec 0 (zlen v)); cbn [andb]; [|lia]. destruct (Z.leb_spec (off + zlen v) (zlen m)); [|done]. rewrite (proj2 (Z.leb_le _ _)) by lia.
  intros [= E]. f_equal. rewrite <- E at 2. rewrite drop_app_le by (unfold zlen in *; lia). rewrite take_app_le; [done|].
  rewrite length_drop. unfold zlen in *. lia.
Qed.

Section Deserialize.
Context (map : list bytes) (vals : list (option bytes)).
Context (Hmap : NoDup map) (Hkeys : Forall (Forall (fun c => c <> 0)) map) (Hlen : length vals = length map).

Lemma kept_lookup k v (mp : list bytes) (vs : list (option bytes)) : (k, v) ∈ kept mp vs <->
  exists i, mp !! i = Some k /\ vs !! i = Some (Some v) /\ cchar v 0 <> 0.
Proof.
  revert vs. induction mp as [|key mp IH]; intros vs; cbn [kept]; [split; [by intros ?%not_elem_of_nil|by intros (i & ? & _)]|].
  destruct vs as [|[w|] vs]; [split; [by intros ?%not_elem_of_nil|by intros (i & _ & ? & _)]| |].
  - destruct (Z.eqb_spec (cchar w 0) 0) as [E|E]; cbn [negb]; rewrite ?elem_of_cons, IH; split.
    + intros (i & H1 & H2 & H3). by exists (S i).
    + intros ([|i] & H1 & H2 & H3); [by injection H2 as ->|by exists i].
    + intros [[= -> ->]|(i & H1 & H2 & H3)]; [by exists 0%nat|by exists (S i)].
    + intros ([|i] & H1 & H2 & H3); [injection H1 as ->; injection H2 as ->; by left|right; by exists i].
  - rewrite IH. split; [intros (i & H1 & H2 & H3); by exists (S i)|]. intros ([|i] & H1 & H2 & H3); [done|by exists i].
Qed.

Lemma kept_keys mp : forall vs, fst <$> kept mp vs ⊆ mp /\ (NoDup mp -> NoDup (fst <$> kept mp vs)).
Proof.
  induction mp as [|key mp IH]; intros vs; cbn [kept]; [split; [done|intros _; constructor]|].
  destruct vs as [|[w|] vs]; [split; [set_solver|intros _; constructor]| |].
  - destruct (IH vs) as [H1 H2]. destruct (negb _); cbn; (split; [set_solver|intros [Hk Hnd]%NoDup_cons]); [|by apply H2].
    apply NoDup_cons. split; [|by apply H2]. intros Hin. apply Hk. by apply H1.
  - destruct (IH vs) as [H1 H2]. split; [set_solver|]. intros [_ Hnd]%NoDup_cons. by apply H2.
Qed.

(** what has been found behind [pre] *)
Definition found (pre : bytes) (ps : list (bytes * bytes)) (st : list (option (Z * Z)) * Z) : Prop :=
  0 <= st.2 < zlen map /\ length st.1 = length map /\ exists seen, kept map vals = seen ++ ps /\
  forall i k, map !! i = Some k ->
    (forall v, (k, v) ∈ seen -> exists off, st.1 !! i = Some (Some (off, zlen v)) /\ slice pre off v) /\
    ((forall v, (k, v) ∉ seen) -> st.1 !! i = Some None).

Lemma found_step pre hk k hv v ps st tl : Forall is_byte hk -> Forall is_byte hv -> found pre ((k, v) :: ps) st -> zlen pre + zlen (pair_parsed hk k hv v) < 2 ^ 62 ->
  exists parsed st', zlen parsed = zlen (pair_parsed hk k hv v) /\
    deserialize_pair map (pre ++ pair_parsed hk k hv v ++ tl) (Pair (zlen pre + zlen hk) (zlen k) (zlen pre + zlen hk + zlen k + 1 + zlen hv) (zlen v)) st
    = Ret (pre ++ parsed ++ tl, st', true) /\ found (pre ++ parsed) ps st'.
Proof.
  intros _ _ (Hc & Hl & seen & Hkept & Hst) Hb. destruct st as [outs mcurr]. cbn [fst snd] in *.
  assert (Hin : (k, v) ∈ kept map vals) by (rewrite Hkept; set_solver).
  pose proof Hin as (j & Hj & _ & Hv0)%kept_lookup.
  assert (Hk0 : Forall (fun c => c <> 0) k) by (by eapply Forall_lookup_1 in Hj; [|exact Hkeys]).
  pose proof (zlen_nonneg pre). pose proof (zlen_nonneg hk). pose proof (zlen_nonneg k). pose proof (zlen_nonneg hv). pose proof (zlen_nonneg tl).
  exists (pair_parsed hk k hv v), (<[j := Some (zlen pre + zlen hk + zlen k + 1 + zlen hv, zlen v)]> outs, Z.of_nat j). split; [done|]. split.
  - unfold deserialize_pair. cbn [key value valuelen].
    assert (Ek : pre ++ pair_parsed hk k hv v ++ tl = (pre ++ hk) ++ k ++ 0 :: hv ++ v ++ 0 :: tl)
      by (unfold pair_parsed; rewrite <- !app_assoc; done).
    assert (Hs : key_search (length map) (map_next map) map ((pre ++ hk) ++ k ++ 0 :: hv ++ v ++ 0 :: tl) (zlen (pre ++ hk)) mcurr mcurr = Ret (Some (Z.of_nat j))).
    { apply (key_search_spec map (map_next map) (map_next_mod map)); [done|done|done|done|lia|by rewrite Nat2Z.id|lia]. }
    rewrite Ek. rewrite zlen_app in Hs. rewrite Hs. cbn [mbind outcome_mbind].
    assert (Hrd : rd ((pre ++ hk) ++ k ++ 0 :: hv ++ v ++ 0 :: tl) (zlen pre + zlen hk + zlen k + 1 + zlen hv) = Ret (cchar v 0)).
    { destruct v as [|c v]; [done|]. replace ((pre ++ hk) ++ k ++ 0 :: hv ++ (c :: v) ++ 0 :: tl) with ((pre ++ hk ++ k ++ [0] ++ hv) ++ c :: v ++ 0 :: tl)
        by (rewrite <- !app_assoc; done). apply rd_mid'. zlen_simpl. lia. }
    rewrite Hrd. cbn [mbind outcome_mbind]. rewrite (proj2 (Z.eqb_neq _ _)) by done. cbn [negb].
    rewrite wr_in by (apply lookup_lt_Some in Hj; unfold zlen; lia). cbn [mbind outcome_mbind]. by rewrite Nat2Z.id.
  - unfold found. cbn [fst snd]. split; [apply lookup_lt_Some in Hj; unfold zlen; lia|]. split; [by rewrite length_insert|].
    exists (seen ++ [(k, v)]). split; [by rewrite Hkept, <- app_assoc|].
    assert (Huniq : forall w, (k, w) ∉ seen).
    { intros w Hw. pose proof (proj2 (kept_keys map vals) Hmap) as Hnd. rewrite Hkept, fmap_app, NoDup_app in Hnd.
      destruct Hnd as (_ & Hd & _). apply (Hd k); [apply list_elem_of_fmap; by exists (k, w)|cbn; left]. }
    intros i k' Hi. destruct (decide (k' = k)) as [->|Hne].
    + assert (i = j) as -> by (by eapply NoDup_lookup). split.
      * intros w [Hw|Hw%list_elem_of_singleton]%elem_of_app; [by apply Huniq in Hw|]. injection Hw as ->.
        eexists. split; [apply list_lookup_insert_eq; apply lookup_lt_Some in Hj; lia|].
        unfold pair_parsed. replace (pre ++ (hk ++ k ++ [0]) ++ hv ++ v ++ [0]) with ((pre ++ hk ++ k ++ [0] ++ hv) ++ v ++ [0]) by (rewrite <- !app_assoc; done).
        replace (zlen pre + zlen hk + zlen k + 1 + zlen hv) with (zlen (pre ++ hk ++ k ++ [0] ++ hv)) by (zlen_simpl; lia). apply slice_mid.
      * intros Hno. exfalso. apply (Hno v). set_solver.
    + assert (i <> j) by (intros ->; congruence). destruct (Hst i k' Hi) as [A1 A2]. rewrite list_lookup_insert_ne by done. split.
      * intros w [Hw|Hw%list_elem_of_singleton]%elem_of_app; [|congruence]. destruct (A1 w Hw) as (off & Ho & Hs). exists off. split; [done|by apply slice_app].
      * intros Hno. apply A2. intros w Hw. apply (Hno w). set_solver.
Qed.
End Deserialize.

(** what a member is after the round trip: strings that are empty or start
    with a terminator are lost *)
Definition member_read (m : bytes) (val : option bytes) (r : option (Z * Z)) : Prop :=
  match val with
  | Some v => if cchar v 0 =? 0 then r = None else exists off, r = Some (off, zlen v) /\ slice m off v
  | None => r = None
  end.

(** the temporary buffer, for which there is memory or not *)
Lemma tmp_init (alloc_ok : Z -> bool) K : 1024 <= K < 2 ^ 61 ->
  if alloc_ok 1024 then exists tmp, buf_init alloc_ok 1024 = Some tmp /\ fits K tmp /\ contents tmp = [] else buf_init alloc_ok 1024 = None.
Proof.
  intros HK. unfold buf_init. change (buf_align_offset 1024) with 1024. destruct (alloc_ok 1024); [|done].
  eexists. split; [done|]. split; [|done].
  split; [|cbn [cap]; lia]. constructor; cbn [cap len data]; try lia; try done; [by exists 128|].
  apply Forall_replicate. unfold is_byte. lia.
Qed.

(** a netstring that is all a buffer has *)
Lemma parse_contents b str e : wf b -> cap b < 2 ^ 61 -> contents b = e -> encodes str e ->
  exists hdr post, netstring_parse (data b) 0 (len b) = Ret (hdr ++ str ++ 0 :: post, inl (zlen hdr, zlen str)) /\ len b = zlen hdr + zlen str + 1.
Proof.
  intros Hwf Hcap Hc He. destruct (encodes_framed _ _ He) as (hdr & Fr & _). pose proof Hwf as [Hl Hd _ _].
  pose proof (contents_length b Hwf) as Lc. rewrite Hc in Lc. exists hdr, (drop (Z.to_nat (len b)) (data b)).
  assert (Hdata : data b = e ++ drop (Z.to_nat (len b)) (data b)) by (rewrite <- Hc; unfold contents; by rewrite take_drop).
  rewrite Hdata at 1. rewrite <- Lc at 2. pose proof (netstring_parse_encoded [] hdr str e [] (drop (Z.to_nat (len b)) (data b)) Fr) as P.
  rewrite !app_nil_r, zlen_nil, Z.add_0_l in P. cbn [app] in P. rewrite P by lia. rewrite <- !app_assoc. split; [done|].
  rewrite <- Lc, (proj1 Fr). zlen_simpl. lia.
Qed.

Lemma found_start map vals pre : map <> [] -> found map vals pre (kept map vals) (replicate (length map) None, 0).
Proof.
  intros Hne. split; [destruct map; [done|]; zlen_simpl; pose proof (zlen_nonneg map); cbn; lia|]. split; [cbn; by rewrite length_replicate|].
  exists []. split; [done|]. intros i k Hi. split; [by intros v ?%not_elem_of_nil|]. intros _. apply lookup_replicate. split; [done|]. by apply lookup_lt_Some in Hi.
Qed.

Lemma found_end map vals m post rs mc : NoDup map -> length vals = length map -> found map vals m [] (rs, mc) ->
  Forall2 (member_read (m ++ post)) vals rs.
Proof.
  intros Hnd Hlen (_ & Hl & seen & Hseen & Hst). rewrite app_nil_r in Hseen. subst seen. cbn [fst] in *.
  apply Forall2_same_length_lookup. split; [lia|]. intros i val r Hi Hr.
  destruct (lookup_lt_is_Some_2 map i) as [k Hk]; [apply lookup_lt_Some in Hi; lia|]. destruct (Hst i k Hk) as [H1 H2].
  assert (Hnone : (forall v, (k, v) ∉ kept map vals) -> r = None) by (intros Hno; specialize (H2 Hno); congruence).
  assert (Hkept : forall w, (k, w) ∈ kept map vals -> val = Some w /\ cchar w 0 <> 0).
  { intros w (i' & Hi1 & Hi2 & Hi3)%kept_lookup. assert (i' = i) as -> by (by eapply NoDup_lookup). split; [congruence|done]. }
  destruct val as [v|]; cbn [member_read]; [|apply Hnone; intros w Hw; by destruct (Hkept w Hw)].
  destruct (Z.eqb_spec (cchar v 0) 0) as [E0|E0].
  - apply Hnone. intros w Hw. destruct (Hkept w Hw) as [[= <-] ?]. done.
  - destruct (H1 v) as (off & Ho & Hs); [apply kept_lookup; by exists i|]. exists off. split; [congruence|]. by apply slice_app.
Qed.

(** reading back what an empty buffer has got *)
Lemma deserialize_written K map vals out' tmp e es :
  NoDup map -> map <> [] -> Forall (Forall (fun c => c <> 0)) map -> length vals = length map -> fits K out' -> K < 2 ^ 61 ->
  Forall2 encodes_pair (kept map vals) es -> contents tmp = concat es -> encodes (contents tmp) e -> contents out' = e ->
  exists m rs, netstring_deserialize map (data out') (len out') = Ret (m, rs, NETSTRING_OK, Some 0) /\ Forall2 (member_read m) vals rs.
Proof.
  intros Hnd Hne Hk0 Hlen (Hwf1 & Hcap1 & HK2) HK Hes Ec He Eo.
  destruct (parse_contents out' (contents tmp) e Hwf1 ltac:(lia) Eo He) as (hdr & post & P & Lout).
  unfold netstring_deserialize. destruct (Z.eqb_spec (zlen map) 0) as [Hz|_]; [destruct map; [done|]; zlen_simpl; pose proof (zlen_nonneg map); lia|].
  rewrite P. cbn [mbind outcome_mbind]. rewrite Lout, Z.sub_diag. change (u64 0) with 0. rewrite Ec in *.
  pose proof (encodes_pairs_length _ _ Hes). destruct Hwf1 as [Hl1 _ _ _]. pose proof (zlen_nonneg hdr).
  destruct (foreach_pair_encoded (deserialize_pair map) (found map vals) (found_step map vals Hnd Hk0 Hlen)
    (kept map vals) es hdr (0 :: post) (replicate (length map) None, 0) (S (Z.to_nat (zlen (concat es)))) Hes) as (parsed & [rs mc] & Hpl & Ef & Hfound);
    [unfold zlen in *; lia|lia|by apply found_start|].
  rewrite Ef. cbn [mbind outcome_mbind]. eexists _, rs. split; [done|]. rewrite app_assoc. by eapply found_end.
Qed.

(** C20: a struct is written to an empty buffer, unless the memory runs out,
    and reading it back gives every member that is not NULL and does not start
    with a terminator, and nothing for the others; nothing is left of the
    input.  There is memory for the temporary buffer: the program does not
    look whether there is, and goes on with what the stack had otherwise. *)
Theorem netstring_serialize_roundtrip (alloc_ok : Z -> bool) K map vals out :
  NoDup map -> map <> [] -> Forall (Forall (fun c => 0 < c < 256)) map -> length vals = length map ->
  Forall (fun val => match val with Some v => Forall is_byte v | None => True end) vals ->
  fits K out -> contents out = [] -> 1024 <= K -> 2 * (pairs_total (kept map vals) + 98) + 16 <= K ->
  if alloc_ok 1024 then
    exists out' r, netstring_serialize alloc_ok map vals out = Ret (out', r) /\
      (r = NETSTRING_ERRMEM \/
       r = NETSTRING_OK /\ exists m rs, netstring_deserialize map (data out') (len out') = Ret (m, rs, NETSTRING_OK, Some 0) /\ Forall2 (member_read m) vals rs)
  else netstring_serialize alloc_ok map vals out = OutOfBounds.
Proof.
  intros Hnd Hne Hkeys Hlen Hvals Hf Hc HK Hsz. unfold netstring_serialize. pose proof Hf as (_ & _ & HK2).
  pose proof (tmp_init alloc_ok K ltac:(lia)) as Htmp. destruct (alloc_ok 1024); [|by rewrite Htmp]. destruct Htmp as (tmp & -> & Hft & Hct).
  assert (Hk0 : Forall (Forall (fun c => c <> 0)) map) by (eapply Forall_impl; [exact Hkeys|]; intros k Hk; eapply Forall_impl; [exact Hk|]; simpl; lia).
  assert (Hkb : Forall (Forall is_byte) map) by (eapply Forall_impl; [exact Hkeys|]; intros k Hk; eapply Forall_impl; [exact Hk|]; unfold is_byte; simpl; lia).
  pose proof (contents_length tmp (proj1 Hft)) as Lt. rewrite Hct, zlen_nil in Lt.
  destruct (serialize_loop_spec alloc_ok K map vals tmp Hft Hkb Hvals ltac:(lia)) as (tmp' & r & -> & Hft' & Hs).
  cbn [mbind outcome_mbind]. destruct Hs as [(-> & es & Hes & Ec)| ->]; [|eexists _, _; split; [reflexivity|by left]].
  change (negb (NETSTRING_OK =? NETSTRING_OK)) with false. cbv iota.
  rewrite Hct in Ec. cbn [app] in Ec. pose proof (encodes_pairs_bound _ _ Hes) as Hbd. pose proof (contents_length out (proj1 Hf)) as Lo. rewrite Hc, zlen_nil in Lo.
  assert (Hcb : Forall is_byte (contents tmp')) by (apply contents_bytes, Hft').
  destruct (netstring_append_buf_spec alloc_ok K out (contents tmp') Hf Hcb) as (o1 & r1 & E1 & Hf1 & H1); [rewrite Ec; lia|].
  exists o1, r1. split; [done|]. destruct H1 as [(-> & e & He & Eo)|[-> _]]; [right|by left]. split; [done|]. rewrite Hc in Eo. cbn [app] in Eo.
  by eapply deserialize_written.
Qed.

Lemma netstring_serialize_roundtrip_witness :
  let map := [lit "host"; lit "name"; lit "path"] in
  let vals := [Some (lit "a:1,"); Some []; Some (lit "/x")] in
  exists out', netstring_serialize all_ok map vals (Buf 64 0 (replicate 64 0)) = Ret (out', NETSTRING_OK) /\
  exists m rs, netstring_deserialize map (data out') (len out') = Ret (m, rs, NETSTRING_OK, Some 0) /\ Forall2 (member_read m) vals rs.
Proof.
  intros map vals. destruct (netstring_serialize_roundtrip all_ok 2048 map vals (Buf 64 0 (replicate 64 0))) as (out' & r & E & H).
  - by apply (bool_decide_unpack _); vm_compute.
  - discriminate.
  - repeat constructor.
  - reflexivity.
  - repeat constructor; unfold is_byte; lia.
  - split; [|split; [by vm_compute|done]].
    constructor; simpl; [lia|done|by exists 8|repeat constructor; unfold is_byte; lia].
  - reflexivity.
  - discriminate.
  - by vm_compute.
  - assert (Hr : r = NETSTRING_OK) by (vm_compute in E; by injection E). subst r. exists out'. split; [exact E|]. destruct H as [H|[_ H]]; [discriminate H|exact H].
Defined.
