(* ===== verification/Io.v ===== *)
(** * Descriptors (src/lib/util/io.c)

    The kernel is a [Sys]: what a call does to a world [W] and what it gives
    back, a result or an [errno].  [SysLaws] is what a stream keeps: bytes that
    are written arrive in order, bytes that are read leave the stream, and a
    call is interrupted or delayed a bounded number of times.  The messages
    for failed calls ([errbuf]) are left out. *)

From S2P Require Import Prelude Buf.

Definition IO_AGAIN : Z := 1.
Definition IO_OK : Z := 0.
Definition IO_ERR : Z := -1.

(** Number of bytes left in a buffer before we grow it *)
Definition READBUF_GROWSZ : Z := 256.

(** the error numbers of FreeBSD *)
Definition EINTR : Z := 4.
Definition EAGAIN : Z := 35.
Definition EWOULDBLOCK : Z := EAGAIN.
Definition EINPROGRESS : Z := 36.
Definition is_again (e : Z) : bool := (e =? EAGAIN) || (e =? EWOULDBLOCK) || (e =? EINPROGRESS).

Definition F_GETFD : Z := 1.
Definition F_SETFD : Z := 2.
Definition F_GETFL : Z := 3.
Definition F_SETFL : Z := 4.
Definition FD_CLOEXEC : Z := 1.
Definition O_NONBLOCK : Z := 4.

(** [read] gets a descriptor and a size, [write] and [writev] a descriptor and
    bytes; [sendmsg] sends an integer and a descriptor, [recvmsg] gives the
    integer, 0 when there is none, and the descriptor that came with it *)
Class Sys (W : Type) : Type := {
  read : W -> Z -> Z -> W * (bytes + Z);
  write : W -> Z -> bytes -> W * (Z + Z);
  writev : W -> Z -> list bytes -> W * (Z + Z);
  poll_in : W -> Z -> W * bool;
  poll_out : W -> Z -> W * bool;
  close : W -> Z -> W * bool;
  accept : W -> Z -> W * (Z + Z);
  socket : W -> W * option Z;
  connect : W -> Z -> bytes -> W * bool;
  bind : W -> Z -> bytes -> W * bool;
  listen : W -> Z -> W * bool;
  unlink : W -> bytes -> W;
  chmod : W -> bytes -> Z -> W;
  sendmsg : W -> Z -> Z -> Z -> W * (() + Z);
  recvmsg : W -> Z -> W * (Z * option Z + Z);
  fcntl : W -> Z -> Z -> Z -> W * Z;
}.

Section Operations.
Context {W : Type} `{Sys W} (alloc_ok : Z -> bool).

(** [read] again while it is interrupted *)
Fixpoint read_again (fuel : nat) (w : W) (fd n : Z) : outcome (W * (bytes + Z)) :=
  match fuel with
  | O => OutOfFuel
  | S fuel =>
      let '(w, r) := read w fd n in
      match r with
      | inr e => if e =? EINTR then read_again fuel w fd n else Ret (w, inr e)
      | inl bs => Ret (w, inl bs)
      end
  end.

(** status and [*nread], set on success only *)
Definition io_readbuf (fuel : nat) (w : W) (fd : Z) (buf : buf_t) : outcome (W * buf_t * Z * option Z) :=
  '(buf, grown) ← (if u64 (cap buf - len buf) <? READBUF_GROWSZ
                   then '(buf, r) ← buf_grow alloc_ok buf READBUF_GROWSZ; Ret (buf, 0 <=? r)
                   else Ret (buf, true));
  if negb grown then Ret (w, buf, IO_ERR, None)
  else
    '(w, r) ← read_again fuel w fd (u64 (cap buf - len buf));
    match r with
    | inr e => Ret (w, buf, if is_again e then IO_AGAIN else IO_ERR, None)
    | inl bs =>
        d ← wrs (data buf) (len buf) bs;
        Ret (w, Buf (cap buf) (u64 (len buf + zlen bs)) d, IO_OK, Some (zlen bs))
    end.

(** [data] is what is left to write *)
Fixpoint io_writeall (fuel : nat) (w : W) (fd : Z) (data : bytes) : outcome (W * Z) :=
  match fuel with
  | O => OutOfFuel
  | S fuel =>
      if 0 <? zlen data then
        let '(w, r) := write w fd data in
        match r with
        | inr e =>
            if e =? EINTR then io_writeall fuel w fd data
            else if is_again e then
              let '(w, ok) := poll_out w fd in
              if ok then io_writeall fuel w fd data else Ret (w, IO_ERR)
            else Ret (w, IO_ERR)
        | inl ret =>
            if ret =? 0 then Ret (w, IO_ERR)
            else io_writeall fuel w fd (drop (Z.to_nat ret) data)
        end
      else Ret (w, IO_OK)
  end.

(** what was read so far is in [acc], [len] bytes are wanted *)
Fixpoint readfull_loop (fuel : nat) (w : W) (fd : Z) (acc : bytes) (len : Z) : outcome (W * bytes * Z) :=
  match fuel with
  | O => OutOfFuel
  | S fuel =>
      if 0 <? len then
        let '(w, r) := read w fd len in
        match r with
        | inr e =>
            if e =? EINTR then readfull_loop fuel w fd acc len
            else if is_again e then
              let '(w, ok) := poll_in w fd in
              if ok then readfull_loop fuel w fd acc len else Ret (w, acc, IO_ERR)
            else Ret (w, acc, IO_ERR)
        | inl bs =>
            if zlen bs =? 0 then Ret (w, acc, IO_ERR)
            else if len <? zlen bs then OutOfBounds
            else readfull_loop fuel w fd (acc ++ bs) (len - zlen bs)
        end
      else Ret (w, acc, IO_OK)
  end.

Definition io_readfull (fuel : nat) (w : W) (fd len : Z) : outcome (W * bytes * Z) := readfull_loop fuel w fd [] len.

(** the loop that advances [currvec] past the vectors that were written *)
Fixpoint advance (fuel : nat) (iov : list bytes) (currvec ret : Z) : outcome (Z * Z) :=
  match fuel with
  | O => OutOfFuel
  | S fuel =>
      v ← rd iov currvec;
      if zlen v <=? ret then advance fuel iov (currvec + 1) (ret - zlen v)
      else Ret (currvec, ret)
  end.

Fixpoint writevall_loop (fuel : nat) (w : W) (fd : Z) (iov : list bytes) (currvec : Z) : outcome (W * Z) :=
  match fuel with
  | O => OutOfFuel
  | S fuel =>
      if currvec <? zlen iov then
        let '(w, r) := writev w fd (drop (Z.to_nat currvec) iov) in
        match r with
        | inr e =>
            if e =? EINTR then writevall_loop fuel w fd iov currvec
            else if is_again e then
              let '(w, ok) := poll_out w fd in
              if ok then writevall_loop fuel w fd iov currvec else Ret (w, IO_ERR)
            else Ret (w, IO_ERR)
        | inl ret =>
            if ret =? 0 then Ret (w, IO_ERR)
            else
              '(currvec, ret) ← advance (S (length iov)) iov currvec ret;
              iov ← (if (currvec <? zlen iov) && (0 <? ret)
                     then v ← rd iov currvec; wr iov currvec (drop (Z.to_nat ret) v)
                     else Ret iov);
              writevall_loop fuel w fd iov currvec
        end
      else Ret (w, IO_OK)
  end.

Definition io_writevall (fuel : nat) (w : W) (fd : Z) (iov : list bytes) : outcome (W * Z) :=
  writevall_loop fuel w fd iov 0.

(** the descriptor afterwards and the status *)
Definition io_close (w : W) (fd : Z) : W * Z * Z :=
  if 0 <=? fd then let '(w, ok) := close w fd in (w, -1, if ok then IO_OK else IO_ERR)
  else (w, fd, IO_OK).

(** what fits [sun_path], 104 bytes on FreeBSD, with the terminator *)
Definition sun_path (path : bytes) : bytes := take 103 path.

(** the descriptor, or [None] for [IO_ERR] *)
Definition io_listen_unix (w : W) (path : bytes) : W * option Z :=
  let '(w, fd) := socket w in
  match fd with
  | None => (w, None)
  | Some fd =>
      let w := unlink w (sun_path path) in
      let '(w, ok) := bind w fd (sun_path path) in
      if negb ok then ((close w fd).1, None)
      else
        let '(w, ok) := listen w fd in
        if negb ok then ((close w fd).1, None)
        else (chmod w path 0x1ff, Some fd)
  end.

Definition io_connect_unix (w : W) (path : option bytes) : W * option Z :=
  if bool_decide (default [] path = []) then (w, None)
  else
    let '(w, fd) := socket w in
    match fd with
    | None => (w, None)
    | Some fd =>
        let '(w, ok) := connect w fd (sun_path (default [] path)) in
        if negb ok then ((close w fd).1, None) else (w, Some fd)
    end.

(** the descriptor of the connection, or [None] for [IO_ERR] *)
Fixpoint io_accept (fuel : nat) (w : W) (fd : Z) : outcome (W * option Z) :=
  match fuel with
  | O => OutOfFuel
  | S fuel =>
      let '(w, r) := accept w fd in
      match r with
      | inr e => if e =? EINTR then io_accept fuel w fd else Ret (w, None)
      | inl out => Ret (w, Some out)
      end
  end.

Fixpoint io_sendfd (fuel : nat) (w : W) (io fd err : Z) : outcome (W * Z) :=
  match fuel with
  | O => OutOfFuel
  | S fuel =>
      let '(w, r) := sendmsg w io err fd in
      match r with
      | inl _ => Ret (w, IO_OK)
      | inr e => if e =? EINTR then io_sendfd fuel w io fd err else Ret (w, if is_again e then IO_AGAIN else IO_ERR)
      end
  end.

(** status and [*out], set on success only *)
Fixpoint io_recvfd (fuel : nat) (w : W) (io : Z) : outcome (W * Z * option Z) :=
  match fuel with
  | O => OutOfFuel
  | S fuel =>
      let '(w, r) := recvmsg w io in
      match r with
      | inr e => if e =? EINTR then io_recvfd fuel w io else Ret (w, if is_again e then IO_AGAIN else IO_ERR, None)
      | inl (m, fd) =>
          let fd := default (-1) fd in
          if fd <? 0 then Ret (w, IO_ERR, None)
          else if negb (m =? 0) then Ret ((close w fd).1, IO_ERR, None)
          else Ret (w, IO_OK, Some fd)
      end
  end.

Definition set_bit (getter setter bit : Z) (w : W) (fd val : Z) : W * Z :=
  let '(w, flags) := fcntl w fd getter 0 in
  let newflags := if val =? 0 then Z.land flags (Z.lnot bit) else Z.lor flags bit in
  if negb (newflags =? flags) then
    let '(w, r) := fcntl w fd setter newflags in
    (w, if r =? -1 then IO_ERR else IO_OK)
  else (w, IO_OK).

Definition io_setcloexec (w : W) (fd val : Z) : W * Z := set_bit F_GETFD F_SETFD FD_CLOEXEC w fd val.
Definition io_setnonblock (w : W) (fd val : Z) : W * Z := set_bit F_GETFL F_SETFL O_NONBLOCK w fd val.

End Operations.

(** ** Streams *)

(** [incoming w fd] is what the peer will have sent before it closes, [written
    w fd] what was written; [delays w fd] bounds the calls that are interrupted
    or have to wait before the next one that transfers bytes *)
Class SysLaws (W : Type) `{Sys W} : Type := {
  incoming : W -> Z -> bytes;
  written : W -> Z -> bytes;
  delays : W -> Z -> nat;
  read_law w fd n : 0 < n ->
    let '(w', r) := read w fd n in
    written w' fd = written w fd /\
    match r with
    | inl bs => zlen bs <= n /\ Forall is_byte bs /\ incoming w fd = bs ++ incoming w' fd /\ (bs = [] -> incoming w fd = [])
    | inr e => incoming w' fd = incoming w fd /\ (e = EINTR \/ is_again e = true -> (delays w' fd < delays w fd)%nat)
    end;
  write_law w fd bs : bs <> [] ->
    let '(w', r) := write w fd bs in
    incoming w' fd = incoming w fd /\
    match r with
    | inl n => 0 < n <= zlen bs /\ written w' fd = written w fd ++ take (Z.to_nat n) bs
    | inr e => written w' fd = written w fd /\ (e = EINTR \/ is_again e = true -> (delays w' fd < delays w fd)%nat)
    end;
  writev_law w fd bss : concat bss <> [] ->
    let '(w', r) := writev w fd bss in
    match r with
    | inl n => 0 < n <= zlen (concat bss) /\ written w' fd = written w fd ++ take (Z.to_nat n) (concat bss)
    | inr e => written w' fd = written w fd /\ (e = EINTR \/ is_again e = true -> (delays w' fd < delays w fd)%nat)
    end;
  poll_law w fd :
    let '(w', _) := poll_in w fd in let '(w'', _) := poll_out w fd in
    incoming w' fd = incoming w fd /\ written w' fd = written w fd /\ delays w' fd = delays w fd /\
    incoming w'' fd = incoming w fd /\ written w'' fd = written w fd /\ delays w'' fd = delays w fd;
}.

(** a call that gives a result with enough fuel *)
Definition returns {A} (f : nat -> outcome A) (P : A -> Prop) : Prop :=
  exists k a, (forall fuel, (k <= fuel)%nat -> f fuel = Ret a) /\ P a.

Lemma returns_ret {A} (a : A) (P : A -> Prop) f : (forall fuel, f (S fuel) = Ret a) -> P a -> returns f P.
Proof. intros Hf Hp. exists 1%nat, a. split; [|done]. intros [|fuel] Hk; [lia|apply Hf]. Qed.

Lemma returns_step {A} (P Q : A -> Prop) (f g : nat -> outcome A) :
  returns g P -> (forall fuel, f (S fuel) = g fuel) -> (forall a, P a -> Q a) -> returns f Q.
Proof.
  intros (k & a & Hg & Hp) Hf Hq. exists (S k), a. split; [|by apply Hq].
  intros [|fuel] Hk; [lia|]. rewrite Hf. apply Hg. lia.
Qed.

Lemma returns_bind {A B} (f : nat -> outcome A) (g : nat -> A -> outcome B) (P : A -> Prop) (Q : B -> Prop) :
  returns f P -> (forall a, P a -> returns (fun fuel => g fuel a) Q) -> returns (fun fuel => f fuel ≫= g fuel) Q.
Proof.
  intros (k & a & Hf & Hp) Hg. destruct (Hg a Hp) as (k' & b & Hg' & Hq). exists (Nat.max k k'), b. split; [|done].
  intros fuel Hk. rewrite Hf by lia. cbn [mbind outcome_mbind]. apply Hg'. lia.
Qed.

Lemma returns_const {A} (f : nat -> outcome A) a (P : A -> Prop) : (forall fuel, f fuel = Ret a) -> P a -> returns f P.
Proof. intros Hf Hp. exists 0%nat, a. auto. Qed.

Section Facts.
Context {W : Type} {S0 : Sys W} {L0 : SysLaws W} (alloc_ok : Z -> bool).

(** ** Reading *)

(** some read of [fd] fails for good *)
Definition read_fails (fd : Z) : Prop := exists (w : W) n e, (read w fd n).2 = inr e /\ e <> EINTR /\ is_again e = false.

(** some write to [fd] fails for good *)
Definition write_fails (fd : Z) : Prop := exists (w : W) bs e, (write w fd bs).2 = inr e /\ e <> EINTR /\ e <> EAGAIN.

(** how a read of at most [n] bytes ends *)
Definition read_ends (w : W) (fd n : Z) (a : W * (bytes + Z)) : Prop :=
  written a.1 fd = written w fd /\
  match a.2 with
  | inl bs => zlen bs <= n /\ Forall is_byte bs /\ incoming w fd = bs ++ incoming a.1 fd /\ (bs = [] -> incoming w fd = [])
  | inr e => e <> EINTR /\ (is_again e = false -> read_fails fd) /\ incoming a.1 fd = incoming w fd /\ (is_again e = true -> (delays a.1 fd < delays w fd)%nat)
  end.

Lemma read_again_spec fd n : 0 < n -> forall d w, (delays w fd < d)%nat ->
  returns (fun fuel => read_again fuel w fd n) (read_ends w fd n).
Proof.
  intros Hn. induction d as [|d IH]; intros w Hd; [lia|]. pose proof (read_law w fd n Hn) as Hl.
  destruct (read w fd n) as [w' r] eqn:E. destruct Hl as [Hw Hl]. destruct r as [bs|e].
  - eapply returns_ret; [intros fuel; cbn [read_again]; by rewrite E|]. by split.
  - destruct Hl as [Hi Hd']. destruct (Z.eqb_spec e EINTR) as [He|He].
    + eapply (returns_step _ _ _ _ (IH w' ltac:(lia))); [intros fuel; cbn [read_again]; rewrite E; by rewrite (proj2 (Z.eqb_eq _ _) He)|].
      intros [w2 r2] [H1 H2]. split; [by rewrite H1|]. cbn [fst snd] in *. destruct r2 as [bs|e2].
      * rewrite <- Hi. exact H2.
      * destruct H2 as (H2 & H3 & H4 & H5). split; [done|]. split; [done|]. split; [by rewrite H4|]. intros Ha. specialize (H5 Ha). lia.
    + eapply returns_ret; [intros fuel; cbn [read_again]; rewrite E; by rewrite (proj2 (Z.eqb_neq _ _) He)|].
      split; [done|]. split; [done|]. split; [intros Ha; exists w, n, e; by rewrite E|]. split; [done|]. auto.
Qed.

Lemma grow_fails b n : buf_grow alloc_ok b n = Ret (b, -1) -> exists n, alloc_ok n = false.
Proof.
  unfold buf_grow. cbv zeta. destruct (alloc_ok _) eqn:E; [|by eexists]. by repeat case_match; intros [=].
Qed.

(** the capacity after the buffer was made large enough, at most *)
Definition grown_cap (b : buf_t) : Z :=
  if cap b - len b <? READBUF_GROWSZ then cap b + Z.max (cap b / 2) READBUF_GROWSZ + 8 else cap b.

(** how [io_readbuf] ends: the bytes read are behind the contents *)
Definition readbuf_ends (w : W) (fd : Z) (b : buf_t) (a : W * buf_t * Z * option Z) : Prop :=
  let '(w', b', r, nread) := a in
  wf b' /\ cap b <= cap b' <= grown_cap b /\ written w' fd = written w fd /\
  ((r = IO_OK /\ exists bs, nread = Some (zlen bs) /\ contents b' = contents b ++ bs /\ len b' = len b + zlen bs /\
      Forall is_byte bs /\ incoming w fd = bs ++ incoming w' fd /\ (bs = [] -> incoming w fd = [])) \/
   (r = IO_AGAIN /\ contents b' = contents b /\ len b' = len b /\ incoming w' fd = incoming w fd /\ (delays w' fd < delays w fd)%nat) \/
   (r = IO_ERR /\ contents b' = contents b /\ len b' = len b /\ incoming w' fd = incoming w fd /\ (read_fails fd \/ exists n, alloc_ok n = false))).

Lemma io_readbuf_spec w fd b : wf b -> small b ->
  returns (fun fuel => io_readbuf alloc_ok fuel w fd b) (readbuf_ends w fd b).
Proof.
  intros Hwf Hs. pose proof Hwf as [Hl Hd Ha Hby]. unfold small in Hs. unfold io_readbuf.
  assert (Hgrow : exists b1 grown, (if u64 (cap b - len b) <? READBUF_GROWSZ
      then '(buf, r) ← buf_grow alloc_ok b READBUF_GROWSZ; Ret (buf, 0 <=? r) else Ret (b, true)) = Ret (b1, grown) /\
    wf b1 /\ len b1 = len b /\ contents b1 = contents b /\ cap b <= cap b1 <= grown_cap b /\
    (grown = true -> len b1 < cap b1) /\ (grown = false -> exists n, alloc_ok n = false)).
  { rewrite uw_small by lia. unfold grown_cap, READBUF_GROWSZ. assert (0 <= cap b / 2) by divmod_lia. destruct (Z.ltb_spec (cap b - len b) 256).
    - destruct (buf_grow_spec alloc_ok b 256 Hwf Hs ltac:(lia)) as (b1 & r & Eg & [(-> & H1 & H2 & H3 & H4)|[-> ->]]); rewrite Eg; cbn [mbind outcome_mbind].
      + exists b1, true. split; [done|]. split; [done|]. split; [done|]. split; [done|]. split; [lia|]. split; [lia|done].
      + exists b, false. split; [done|]. split; [done|]. split; [done|]. split; [done|]. split; [lia|]. split; [done|]. intros _. by eapply grow_fails.
    - exists b, true. split; [done|]. split; [done|]. split; [done|]. split; [done|]. split; [lia|]. split; [lia|done]. }
  destruct Hgrow as (b1 & grown & -> & Hwf1 & El & Ec & Hcap & Hroom & Hmem). cbn [mbind outcome_mbind]. pose proof Hwf1 as [Hl1 Hd1 _ _].
  destruct grown; cbn [negb].
  2: { eapply returns_const; [reflexivity|]. split; [done|]. split; [done|]. split; [done|]. right; right. auto 10. }
  specialize (Hroom eq_refl). assert (Hc2 : cap b / 2 <= cap b) by divmod_lia. assert (Hc1 : cap b1 < 2 ^ 63) by (unfold grown_cap, READBUF_GROWSZ in Hcap; destruct (_ <? _) in Hcap; lia). rewrite uw_small by lia.
  eapply returns_bind; [apply (read_again_spec fd (cap b1 - len b1) ltac:(lia) (S (delays w fd))); lia|]. intros [w' [bs|e]] [Hw He]; cbn [fst snd] in *.
  - destruct He as (Hn & Hb & Hi & Hnil). destruct (store_after b1 bs Hwf1 ltac:(lia) Hb) as (d & -> & Hwf2 & Hc).
    pose proof (zlen_nonneg bs). eapply returns_const; [intros fuel; cbn [mbind outcome_mbind]; rewrite uw_small by lia; done|].
    split; [done|]. split; [cbn; lia|]. split; [done|]. left. split; [done|]. exists bs. split; [done|]. split; [by rewrite Hc, Ec|].
    split; [cbn; lia|]. auto.
  - destruct He as (Hne & Hfail & Hi & Hd'). eapply returns_const; [done|]. split; [done|]. split; [done|]. split; [done|]. right.
    destruct (is_again e); [left|right]; auto 8.
Qed.

(** ** Writing *)

Lemma io_writeall_spec fd : forall n d w bs, (length bs < n)%nat -> (delays w fd < d)%nat ->
  returns (fun fuel => io_writeall fuel w fd bs) (fun '(w', r) => incoming w' fd = incoming w fd /\
    ((r = IO_OK /\ written w' fd = written w fd ++ bs) \/
     (r = IO_ERR /\ exists k, written w' fd = written w fd ++ take k bs))).
Proof.
  induction n as [|n IHn]; intros d w bs Hn; [lia|]. revert w. induction d as [|d IHd]; intros w Hd; [lia|].
  destruct (decide (bs = [])) as [->|Hne].
  { eapply returns_ret; [done|]. split; [done|]. left. by rewrite app_nil_r. }
  assert (Hpos : 0 < zlen bs) by (destruct bs; [done|]; zlen_simpl; pose proof (zlen_nonneg bs); lia).
  pose proof (write_law w fd bs Hne) as Hl. destruct (write w fd bs) as [w' r] eqn:E. destruct Hl as [Hi Hl].
  assert (Hstep : forall fuel, io_writeall (S fuel) w fd bs = match r with
    | inr e => if e =? EINTR then io_writeall fuel w' fd bs
        else if is_again e then let '(w'', ok) := poll_out w' fd in if ok then io_writeall fuel w'' fd bs else Ret (w'', IO_ERR)
        else Ret (w', IO_ERR)
    | inl ret => if ret =? 0 then Ret (w', IO_ERR) else io_writeall fuel w' fd (drop (Z.to_nat ret) bs)
    end) by (intros fuel; cbn [io_writeall]; rewrite (proj2 (Z.ltb_lt _ _) Hpos), E; done).
  destruct r as [ret|e].
  - destruct Hl as [Hr Hw]. assert (Hlen : (length (drop (Z.to_nat ret) bs) < n)%nat) by (rewrite length_drop; unfold zlen in *; lia).
    eapply (returns_step _ _ _ _ (IHn (S (delays w' fd)) w' _ Hlen ltac:(lia))); [intros fuel; rewrite Hstep, (proj2 (Z.eqb_neq _ _)) by lia; done|].
    intros [w2 r2] [H1 [[-> H2]|[-> [k H2]]]]; (split; [by rewrite H1|]).
    + left. split; [done|]. by rewrite H2, Hw, <- app_assoc, take_drop.
    + right. split; [done|]. exists (Z.to_nat ret + k)%nat. rewrite H2, Hw, <- app_assoc. f_equal.
      rewrite <- (take_drop (Z.to_nat ret) bs) at 3. rewrite take_app_add'; [done|].
      rewrite length_take. unfold zlen in *. lia.
  - destruct Hl as [Hw Hd'].
    assert (Hagain : forall w2, incoming w2 fd = incoming w' fd -> written w2 fd = written w' fd -> delays w2 fd = delays w' fd ->
      e = EINTR \/ is_again e = true -> returns (fun fuel => io_writeall fuel w2 fd bs) (fun '(w', r) => incoming w' fd = incoming w fd /\
        ((r = IO_OK /\ written w' fd = written w fd ++ bs) \/ (r = IO_ERR /\ exists k, written w' fd = written w fd ++ take k bs)))).
    { intros w2 H1 H2 H3 He. specialize (Hd' He). destruct (IHd w2 ltac:(lia)) as (k & a & Hf & Hp). exists k, a. split; [done|].
      destruct a as [w3 r3]. rewrite H1, H2, Hi, Hw in Hp. exact Hp. }
    destruct (Z.eqb_spec e EINTR) as [->|He].
    { eapply (returns_step _ _ _ _ (Hagain w' eq_refl eq_refl eq_refl (or_introl eq_refl))); [exact Hstep|done]. }
    destruct (is_again e) eqn:Ea.
    + pose proof (poll_law w' fd) as Hp. destruct (poll_in w' fd) as [w0 b0]. destruct (poll_out w' fd) as [w2 ok] eqn:Ep.
      destruct Hp as (_ & _ & _ & P1 & P2 & P3). destruct ok.
      * eapply (returns_step _ _ _ _ (Hagain w2 P1 P2 P3 (or_intror eq_refl))); [exact Hstep|done].
      * eapply returns_ret; [exact Hstep|]. split; [by rewrite P1|]. right. split; [done|]. exists 0%nat. by rewrite P2, Hw, app_nil_r.
    + eapply returns_ret; [exact Hstep|]. split; [done|]. right. split; [done|]. exists 0%nat. by rewrite Hw, app_nil_r.
Qed.
End Facts.

(** ** A stream that is cut up and delayed as it is told *)

(** a 0 in [cuts] is a call that has to wait, another number the most bytes
    that are transferred *)
Record demo : Type := Demo { cuts : list nat; inb : bytes; outb : bytes }.

Fixpoint leading (l : list nat) : nat := match l with O :: l => S (leading l) | _ => O end.

(** how many of [n] bytes are transferred, or [None] for a delay *)
Definition demo_next (w : demo) (n : Z) : demo * option Z :=
  match cuts w with
  | [] => (w, Some n)
  | O :: l => (Demo l (inb w) (outb w), None)
  | c :: l => (Demo l (inb w) (outb w), Some (Z.min (Z.of_nat c) n))
  end.

Definition demo_write (w : demo) (bs : bytes) : demo * (Z + Z) :=
  match demo_next w (zlen bs) with
  | (w, Some n) => (Demo (cuts w) (inb w) (outb w ++ take (Z.to_nat n) bs), inl n)
  | (w, None) => (w, inr EAGAIN)
  end.

#[export] Instance demo_sys : Sys demo := {|
  read w fd n := match demo_next w n with
    | (w, Some n) => (Demo (cuts w) (drop (Z.to_nat n) (inb w)) (outb w), inl (u8 <$> take (Z.to_nat n) (inb w)))
    | (w, None) => (w, inr EAGAIN)
    end;
  write w fd bs := demo_write w bs;
  writev w fd bss := demo_write w (concat bss);
  poll_in w fd := (w, true);
  poll_out w fd := (w, true);
  close w fd := (w, true);
  accept w fd := (w, inr EAGAIN);
  socket w := (w, Some 3);
  connect w fd p := (w, true);
  bind w fd p := (w, true);
  listen w fd := (w, true);
  unlink w p := w;
  chmod w p m := w;
  sendmsg w fd m f := (w, inl ());
  recvmsg w fd := (w, inl (0, Some 4));
  fcntl w fd c a := (w, 0);
|}.

Lemma demo_next_spec w n : 0 < n ->
  match demo_next w n with
  | (w', Some k) => 0 < k <= n /\ inb w' = inb w /\ outb w' = outb w
  | (w', None) => inb w' = inb w /\ outb w' = outb w /\ (leading (cuts w') < leading (cuts w))%nat
  end.
Proof.
  intros Hn. unfold demo_next. destruct (cuts w) as [|[|c] l] eqn:E; cbn [inb outb cuts leading]; [|split; [done|]; split; [done|lia]|].
  - split; [lia|done].
  - split; [lia|done].
Qed.

Lemma demo_write_spec w bs : bs <> [] ->
  let '(w', r) := demo_write w bs in
  inb w' = inb w /\
  match r with
  | inl n => 0 < n <= zlen bs /\ outb w' = outb w ++ take (Z.to_nat n) bs
  | inr e => outb w' = outb w /\ (e = EINTR \/ is_again e = true -> (leading (cuts w') < leading (cuts w))%nat)
  end.
Proof.
  intros Hne. assert (Hpos : 0 < zlen bs) by (destruct bs; [done|]; zlen_simpl; pose proof (zlen_nonneg bs); lia).
  unfold demo_write. pose proof (demo_next_spec w (zlen bs) Hpos) as H. destruct (demo_next w (zlen bs)) as [w' [k|]]; cbn [inb outb].
  - destruct H as (H1 & H2 & H3). split; [done|]. split; [done|]. by rewrite H3.
  - destruct H as (H1 & H2 & H3). auto.
Qed.

#[export] Program Instance demo_laws : SysLaws demo := {|
  incoming w fd := u8 <$> inb w;
  written w fd := outb w;
  delays w fd := leading (cuts w);
|}.
Next Obligation.
  intros w fd n Hn. cbn [read demo_sys]. pose proof (demo_next_spec w n Hn) as H. destruct (demo_next w n) as [w' [k|]]; cbn [inb outb cuts].
  - destruct H as (H1 & H2 & H3). split; [done|]. rewrite H2. split; [|split; [|split]].
    + unfold zlen. rewrite length_fmap, length_take. lia.
    + apply Forall_fmap, Forall_forall. intros x _. apply (uw_range 8). lia.
    + by rewrite <- fmap_app, take_drop.
    + intros Hnil. apply fmap_nil_inv in Hnil. destruct (inb w); [done|]. destruct (Z.to_nat k) eqn:E; [lia|done].
  - destruct H as (H1 & H2 & H3). split; [done|]. split; [by rewrite H1|auto].
Qed.
Next Obligation. intros w fd bs Hne. cbn [write demo_sys]. pose proof (demo_write_spec w bs Hne) as H. destruct (demo_write w bs) as [w' r]. destruct H as [-> H]. done. Qed.
Next Obligation. intros w fd bss Hne. cbn [writev demo_sys]. pose proof (demo_write_spec w _ Hne) as H. destruct (demo_write w (concat bss)) as [w' r]. apply H. Qed.
Next Obligation. intros w fd. cbn. auto 6. Qed.

Lemma demo_no_failure fd : ~ read_fails (W := demo) fd.
Proof.
  intros (w & n & e & E & H1 & H2). cbn in E. destruct (demo_next w n) as [w' [k|]]; [done|]. injection E as <-. done.
Qed.

Lemma demo_no_write_failure fd : ~ write_fails (W := demo) fd.
Proof.
  intros (w & bs & e & E & H1 & H2). cbn in E. unfold demo_write in E. destruct (demo_next w _) as [w' [k|]]; [done|]. injection E as <-. done.
Qed.
