(* ===== verification/Fcgi.v ===== *)
(** * FastCGI requests (src/lib/net/fcgi.c, src/lib/net/fcgi.h)

    A responder reads records off a connection into [buf]; the message that
    [fcgi_cli_readmsg] hands out points into that buffer, so it is read there.
    The host is little-endian and its [char] is signed.  A failed assertion is
    like an access outside of an object. *)

From S2P Require Import Prelude CLib Buf Io.
#[local] Abbreviation contents := Buf.contents.
#[local] Abbreviation len := Buf.len.

Definition INIT_MBUFSZ : Z := 2048.
Definition INIT_PBUFSZ : Z := 2048.
Definition INIT_BBUFSZ : Z := 2048.
Definition MAX_PARAMSZ : Z := Z.shiftl 1 20 * 2.
Definition MAX_BODYSZ : Z := Z.shiftl 1 20 * 10.

Definition RSTATE_INCOMPLETE : Z := 1.
Definition RSTATE_COMPLETE : Z := 2.
Definition PSTATE_EXPECT_BEGIN_REQUEST : Z := 1.
Definition PSTATE_EXPECT_PARAMS : Z := 2.
Definition PSTATE_DONE : Z := 3.

Definition FCGIERR_CLOSED : Z := -1.
Definition FCGIERR_UNEXPECTEDMSG : Z := -2.
Definition FCGIERR_INVALIDSTATE : Z := -3.
Definition FCGIERR_MALFORMED : Z := -4.
Definition FCGIERR_PARAMSIZE : Z := -5.
Definition FCGIERR_BODYSIZE : Z := -6.

Definition FCGI_ERR : Z := -1.
Definition FCGI_OK : Z := 0.
Definition FCGI_AGAIN : Z := 1.

Definition FCGI_BEGIN_REQUEST : Z := 1.
Definition FCGI_ABORT_REQUEST : Z := 2.
Definition FCGI_END_REQUEST : Z := 3.
Definition FCGI_PARAMS : Z := 4.
Definition FCGI_STDIN : Z := 5.
Definition FCGI_STDOUT : Z := 6.
Definition FCGI_STDERR : Z := 7.
Definition FCGI_DATA : Z := 8.
Definition FCGI_GET_VALUES : Z := 9.
Definition FCGI_GET_VALUES_RESULT : Z := 10.
Definition FCGI_UNKNOWN_TYPE : Z := 11.
Definition FCGI_REQUEST_COMPLETE : Z := 0.

(** [sizeof(struct fcgi_header)] *)
Definition HEADERSZ : Z := 8.

Record fcgi_cli := Cli {
  id : Z;
  buf : buf_t;
  params : buf_t;
  body : buf_t;
  read_state : Z;
  param_state : Z;
  errcode : Z;
  fd : Z;
}.

Definition set_id (c : fcgi_cli) (x : Z) := Cli x (buf c) (params c) (body c) (read_state c) (param_state c) (errcode c) (fd c).
Definition set_buf (c : fcgi_cli) (x : buf_t) := Cli (id c) x (params c) (body c) (read_state c) (param_state c) (errcode c) (fd c).
Definition set_params (c : fcgi_cli) (x : buf_t) := Cli (id c) (buf c) x (body c) (read_state c) (param_state c) (errcode c) (fd c).
Definition set_body (c : fcgi_cli) (x : buf_t) := Cli (id c) (buf c) (params c) x (read_state c) (param_state c) (errcode c) (fd c).
Definition set_read_state (c : fcgi_cli) (x : Z) := Cli (id c) (buf c) (params c) (body c) x (param_state c) (errcode c) (fd c).
Definition set_param_state (c : fcgi_cli) (x : Z) := Cli (id c) (buf c) (params c) (body c) (read_state c) x (errcode c) (fd c).
Definition set_errcode (c : fcgi_cli) (x : Z) := Cli (id c) (buf c) (params c) (body c) (read_state c) (param_state c) x (fd c).

(** ** The fields of the header at the start of a block *)

Definition header_t (m : bytes) : outcome Z := rd m 1.
Definition header_id (m : bytes) : outcome Z := b0 ← rd m 2; b1 ← rd m 3; Ret (b0 + 256 * b1).
Definition header_plen (m : bytes) : outcome Z := rd m 6.

Definition FCGI_CLEN (m : bytes) : outcome Z := b1 ← rd m 4; b0 ← rd m 5; Ret (Z.shiftl b1 8 + b0).

(** header, content and padding *)
Definition msglen (m : bytes) : outcome Z := clen ← FCGI_CLEN m; plen ← header_plen m; Ret (HEADERSZ + clen + plen).

Definition fcgi_is_complete_msg (b : buf_t) : outcome bool :=
  if len b <? HEADERSZ then Ret false
  else n ← msglen (data b); Ret (negb (len b <? n)).

Section Operations.
Context {W : Type} `{Sys W} (alloc_ok : Z -> bool).

Definition fcgi_cli_init (fd : Z) : option fcgi_cli :=
  match buf_init alloc_ok INIT_MBUFSZ with
  | None => None
  | Some b =>
      match buf_init alloc_ok INIT_PBUFSZ with
      | None => None
      | Some p =>
          match buf_init alloc_ok INIT_BBUFSZ with
          | None => None
          | Some s => Some (Cli 0 b p s RSTATE_INCOMPLETE PSTATE_EXPECT_BEGIN_REQUEST 0 fd)
          end
      end
  end.

Definition fcgi_cli_cleanup (c : fcgi_cli) : fcgi_cli :=
  set_body (set_params (set_buf c (buf_cleanup (buf c))) (buf_cleanup (params c))) (buf_cleanup (body c)).

(** the bytes behind the last message are moved to the front; whether they
    are a message *)
Definition drop_msg (c : fcgi_cli) : outcome (fcgi_cli * bool) :=
  if read_state c =? RSTATE_COMPLETE then
    let b := buf c in
    if len b <? HEADERSZ then OutOfBounds
    else
      n ← msglen (data b);
      if n <? len b then
        src ← rds (data b) n (len b - n);
        d ← wrs (data b) 0 src;
        let c := set_buf c (Buf (cap b) (len b - n) d) in
        complete ← fcgi_is_complete_msg (buf c);
        Ret (if (complete : bool) then (c, true) else (set_read_state c RSTATE_INCOMPLETE, false))
      else Ret (set_read_state (set_buf c (buf_clear b)) RSTATE_INCOMPLETE, false)
  else Ret (c, false).

(** status, [*nread] and whether there is a message *)
Fixpoint read_loop (fuel : nat) (w : W) (fd : Z) (b : buf_t) : outcome (W * buf_t * Z * Z * bool) :=
  match fuel with
  | O => OutOfFuel
  | S fuel' =>
      '(w, b, ret, nread) ← io_readbuf alloc_ok fuel w fd b;
      is_complete ← fcgi_is_complete_msg b;
      let n := match nread with Some n => n | None => 0 end in
      if negb is_complete && (ret =? IO_OK) && (0 <? n) then read_loop fuel' w fd b
      else Ret (w, b, ret, n, is_complete)
  end.

(** up to the label [got_msg] *)
Definition fetch (fuel : nat) (w : W) (c : fcgi_cli) : outcome (W * fcgi_cli * Z) :=
  '(c, got) ← drop_msg c;
  if (got : bool) then Ret (w, c, FCGI_OK)
  else
    '(w, b, ret, nread, is_complete) ← read_loop fuel w (fd c) (buf c);
    let c := set_buf c b in
    if (is_complete : bool) then Ret (w, set_read_state c RSTATE_COMPLETE, FCGI_OK)
    else if ret =? IO_AGAIN then Ret (w, c, FCGI_AGAIN)
    else if (ret =? IO_OK) && (nread =? 0) then Ret (w, set_errcode c FCGIERR_CLOSED, FCGI_ERR)
    else Ret (w, c, FCGI_ERR).

(** messages with another identifier are skipped *)
Fixpoint fcgi_cli_readmsg (fuel : nat) (w : W) (c : fcgi_cli) : outcome (W * fcgi_cli * Z) :=
  match fuel with
  | O => OutOfFuel
  | S fuel' =>
      '(w, c, ret) ← fetch fuel w c;
      if negb (ret =? FCGI_OK) then Ret (w, c, ret)
      else
        i ← header_id (data (buf c));
        if negb (param_state c =? PSTATE_EXPECT_BEGIN_REQUEST) && negb (i =? id c) then fcgi_cli_readmsg fuel' w c
        else Ret (w, c, FCGI_OK)
  end.

(** [clen] bytes of the message *)
Definition msg_data (c : fcgi_cli) (clen : Z) : outcome bytes := rds (data (buf c)) HEADERSZ clen.

Fixpoint params_loop (fuel : nat) (w : W) (c : fcgi_cli) : outcome (W * fcgi_cli * Z) :=
  match fuel with
  | O => OutOfFuel
  | S fuel' =>
      '(w, c, ret) ← fcgi_cli_readmsg fuel w c;
      if negb (ret =? FCGI_OK) then Ret (w, c, ret)
      else
        clen ← FCGI_CLEN (data (buf c));
        t ← header_t (data (buf c));
        if param_state c =? PSTATE_EXPECT_BEGIN_REQUEST then
          if negb (t =? FCGI_BEGIN_REQUEST) then Ret (w, set_errcode c FCGIERR_UNEXPECTEDMSG, FCGI_ERR)
          else
            i ← header_id (data (buf c));
            params_loop fuel' w (set_param_state (set_id c i) PSTATE_EXPECT_PARAMS)
        else if param_state c =? PSTATE_EXPECT_PARAMS then
          if negb (t =? FCGI_PARAMS) then Ret (w, set_errcode c FCGIERR_UNEXPECTEDMSG, FCGI_ERR)
          else if clen =? 0 then Ret (w, set_param_state c PSTATE_DONE, FCGI_OK)
          else if MAX_PARAMSZ <? len (params c) + clen then Ret (w, set_errcode c FCGIERR_PARAMSIZE, FCGI_ERR)
          else
            bs ← msg_data c clen;
            '(p, _) ← buf_adata alloc_ok (params c) bs;
            params_loop fuel' w (set_params c p)
        else Ret (w, set_errcode c FCGIERR_INVALIDSTATE, FCGI_ERR)
  end.

Definition fcgi_cli_readparams (fuel : nat) (w : W) (c : fcgi_cli) : outcome (W * fcgi_cli * Z) :=
  if param_state c =? PSTATE_DONE then Ret (w, c, FCGI_OK) else params_loop fuel w c.

Fixpoint fcgi_cli_readbody (fuel : nat) (w : W) (c : fcgi_cli) : outcome (W * fcgi_cli * Z) :=
  match fuel with
  | O => OutOfFuel
  | S fuel' =>
      '(w, c, ret) ← fcgi_cli_readmsg fuel w c;
      if negb (ret =? FCGI_OK) then Ret (w, c, ret)
      else
        clen ← FCGI_CLEN (data (buf c));
        t ← header_t (data (buf c));
        if negb (t =? FCGI_STDIN) then Ret (w, set_errcode c FCGIERR_UNEXPECTEDMSG, FCGI_ERR)
        else if clen =? 0 then Ret (w, c, FCGI_OK)
        else if MAX_BODYSZ <? len (body c) + clen then Ret (w, set_errcode c FCGIERR_BODYSIZE, FCGI_ERR)
        else
          bs ← msg_data c clen;
          '(b, _) ← buf_adata alloc_ok (body c) bs;
          fcgi_cli_readbody fuel' w (set_body c b)
  end.

Definition fcgi_cli_readreq (fuel : nat) (w : W) (c : fcgi_cli) : outcome (W * fcgi_cli * Z) :=
  if param_state c =? PSTATE_DONE then fcgi_cli_readbody fuel w c
  else
    '(w, c, ret) ← fcgi_cli_readparams fuel w c;
    if ret =? FCGI_OK then fcgi_cli_readbody fuel w c else Ret (w, c, ret).

End Operations.

(** ** Name-value pairs *)

(** [(size_t)c << n] of a signed character *)
Definition shifted (c n : Z) : Z := u64 (Z.shiftl (u64 (i8 c)) n).

(** the result, [*data] and [*len] after the call, and [*out] when it is set *)
Definition get_length (m : bytes) (ptr nleft : Z) : outcome (Z * Z * Z * Z) :=
  if nleft <? 1 then Ret (-1, ptr, nleft, 0)
  else
    c0 ← rd m ptr;
    if flag_set (i8 c0) 0x80 then
      if nleft <? 4 then Ret (-1, ptr, nleft, 0)
      else
        c1 ← rd m (ptr + 1); c2 ← rd m (ptr + 2); c3 ← rd m (ptr + 3);
        Ret (4, ptr + 4, nleft - 4, Z.lor (Z.lor (Z.lor (shifted c0 24) (shifted c1 16)) (shifted c2 8)) (shifted c3 0))
    else Ret (1, ptr + 1, nleft - 1, u64 (i8 c0)).

Record fcgi_pair := Pair { keylen : Z; valuelen : Z; key : Z; value : Z }.

(** pointers are offsets in [params], which a wrong length takes out of it;
    the offset and the pair are those after the call *)
Definition fcgi_cli_next_param (c : fcgi_cli) (off : Z) (out : fcgi_pair) : outcome (Z * fcgi_pair * Z) :=
  if len (params c) <=? off then Ret (off, out, FCGI_OK)
  else
    let m := data (params c) in
    '(l0, ptr, nleft, keylen) ← get_length m off (len (params c) - off);
    if l0 <? 0 then Ret (off, out, FCGI_OK)
    else
      '(l1, ptr, nleft, valuelen) ← get_length m ptr nleft;
      if l1 <? 0 then Ret (off, out, FCGI_OK)
      else if nleft <? u64 (keylen + valuelen) then Ret (off, out, FCGI_OK)
      else Ret (u64 (off + u64 (l0 + l1 + keylen + valuelen)), Pair keylen valuelen ptr (i64 (ptr + keylen)), FCGI_AGAIN).

(** ** Answers *)

(** the identifier goes out as it came in *)
Definition fcgi_cli_format_header (c : fcgi_cli) (t clen reserved : Z) : bytes :=
  [1; t; u8 (id c); u8 (Z.shiftr (id c) 8); u8 (Z.shiftr clen 8); u8 (Z.land clen 0xff); 0; reserved].

(** [reserved] and [res] are what the memory of the message held before *)
Definition fcgi_cli_format_endmsg (c : fcgi_cli) (status reserved : Z) (res : bytes) : bytes :=
  fcgi_cli_format_header c FCGI_END_REQUEST 8 reserved ++
  [u8 (Z.shiftr status 24); u8 (Z.shiftr status 16); u8 (Z.shiftr status 8); u8 (Z.land status 0xff); FCGI_REQUEST_COMPLETE] ++ res.

Definition fcgi_cli_strerror (c : fcgi_cli) (io_strerror : string) : string :=
  if errcode c =? 0 then io_strerror
  else if errcode c =? FCGIERR_CLOSED then "premature connection termination"
  else if errcode c =? FCGIERR_UNEXPECTEDMSG then "an unexpected message was received"
  else if errcode c =? FCGIERR_INVALIDSTATE then "invalid internal state"
  else if errcode c =? FCGIERR_MALFORMED then "malformed message"
  else if errcode c =? FCGIERR_PARAMSIZE then "FCGI_PARAMS buffer limit exceeded"
  else if errcode c =? FCGIERR_BODYSIZE then "FCGI_STDIN buffer limit exceeded"
  else "unknown error".

Definition fcgi_type_to_str (t : Z) : string :=
  if t =? FCGI_BEGIN_REQUEST then "FCGI_BEGIN_REQUEST"
  else if t =? FCGI_ABORT_REQUEST then "FCGI_ABORT_REQUEST"
  else if t =? FCGI_END_REQUEST then "FCGI_END_REQUEST"
  else if t =? FCGI_PARAMS then "FCGI_PARAMS"
  else if t =? FCGI_STDIN then "FCGI_STDIN"
  else if t =? FCGI_STDOUT then "FCGI_STDOUT"
  else if t =? FCGI_STDERR then "FCGI_STDERR"
  else if t =? FCGI_DATA then "FCGI_DATA"
  else if t =? FCGI_GET_VALUES then "FCGI_GET_VALUES"
  else if t =? FCGI_GET_VALUES_RESULT then "FCGI_GET_VALUES_RESULT"
  else if t =? FCGI_UNKNOWN_TYPE then "FCGI_UNKNOWN_TYPE"
  else "FCGI_???".

(** ** Records *)

Lemma zlen_pos {A} (l : list A) : l <> [] -> 0 < zlen l.
Proof. destruct l as [|x l]; [done|]. intros _. zlen_simpl. pose proof (zlen_nonneg l). lia. Qed.

Record rec := Rec { r_version : Z; r_t : Z; r_id0 : Z; r_id1 : Z; r_reserved : Z; r_content : bytes; r_pad : bytes }.

Record rec_ok (r : rec) : Prop := RecOk {
  ok_bytes : Forall is_byte ([r_version r; r_t r; r_id0 r; r_id1 r; r_reserved r] ++ r_content r ++ r_pad r);
  ok_content : zlen (r_content r) < 65536;
  ok_pad : zlen (r_pad r) < 256;
}.

Definition r_id (r : rec) : Z := r_id0 r + 256 * r_id1 r.

Definition header (r : rec) : bytes :=
  [r_version r; r_t r; r_id0 r; r_id1 r; zlen (r_content r) / 256; zlen (r_content r) mod 256; zlen (r_pad r); r_reserved r].

Definition enc (r : rec) : bytes := header r ++ r_content r ++ r_pad r.

Lemma zlen_enc r : zlen (enc r) = HEADERSZ + zlen (r_content r) + zlen (r_pad r).
Proof. unfold enc, header, HEADERSZ. zlen_simpl. lia. Qed.

Lemma enc_short r : rec_ok r -> zlen (enc r) < 65799.
Proof. intros [_ ? ?]. rewrite zlen_enc. unfold HEADERSZ. lia. Qed.

(** the header is all that its fields are read from *)
Lemma header_fields r m : rec_ok r -> take 8 m = header r ->
  FCGI_CLEN m = Ret (zlen (r_content r)) /\ header_plen m = Ret (zlen (r_pad r)) /\ header_t m = Ret (r_t r) /\ header_id m = Ret (r_id r) /\
  msglen m = Ret (zlen (enc r)).
Proof.
  intros [_ Hc _] Hm. assert (Hf : forall i x, header r !! Z.to_nat i = Some x -> 0 <= i -> rd m i = Ret x).
  { intros i x Hi H0. rewrite <- Hm in Hi. apply lookup_take_Some in Hi as [Hi _]. by apply rd_ret. }
  assert (E : FCGI_CLEN m = Ret (zlen (r_content r))).
  { unfold FCGI_CLEN. rewrite (Hf 4 _ eq_refl ltac:(lia)), (Hf 5 _ eq_refl ltac:(lia)). cbn [mbind outcome_mbind]. rewrite Z.shiftl_mul_pow2 by lia. f_equal.
    pose proof (Z.div_mod (zlen (r_content r)) 256). lia. }
  assert (E' : header_plen m = Ret (zlen (r_pad r))) by exact (Hf 6 _ eq_refl ltac:(lia)).
  split; [done|]. split; [done|]. split; [exact (Hf 1 _ eq_refl ltac:(lia))|]. split.
  - unfold header_id. rewrite (Hf 2 _ eq_refl ltac:(lia)), (Hf 3 _ eq_refl ltac:(lia)). done.
  - unfold msglen. rewrite E, E'. cbn [mbind outcome_mbind]. by rewrite zlen_enc.
Qed.

(** ** The buffer of messages *)

(** never more than a message and what one read brings *)
Definition MAXCAP : Z := 2 ^ 17.

(** a buffer that starts with a part of a record, or with all of it *)
Lemma is_complete_spec b r tail rest : wf b -> rec_ok r -> contents b ++ tail = enc r ++ rest ->
  fcgi_is_complete_msg b = Ret (zlen (enc r) <=? len b).
Proof.
  intros Hwf Hr E. pose proof (contents_length _ Hwf) as Hl. unfold fcgi_is_complete_msg. rewrite zlen_enc.
  pose proof (zlen_nonneg (r_content r)). pose proof (zlen_nonneg (r_pad r)).
  destruct (Z.ltb_spec (len b) HEADERSZ); [by rewrite (proj2 (Z.leb_gt _ _)) by lia|].
  assert (Hh : take 8 (data b) = header r).
  { rewrite data_contents, take_app_le by (unfold zlen, HEADERSZ in *; lia). apply (f_equal (take 8)) in E.
    rewrite take_app_le in E by (unfold zlen, HEADERSZ in *; lia). exact E. }
  destruct (header_fields r _ Hr Hh) as (_ & _ & _ & _ & ->). cbn [mbind outcome_mbind]. rewrite zlen_enc. f_equal.
  destruct (Z.ltb_spec (len b) (HEADERSZ + zlen (r_content r) + zlen (r_pad r))); cbn [negb]; symmetry; [by apply Z.leb_gt|by apply Z.leb_le].
Qed.

(** all of a record and [u] behind it *)
Lemma contents_split b r rest tail : wf b -> contents b ++ tail = enc r ++ rest -> zlen (enc r) <= len b ->
  exists u, contents b = enc r ++ u /\ u ++ tail = rest.
Proof.
  intros Hwf E Hle. pose proof (contents_length _ Hwf) as Hl. exists (drop (length (enc r)) (contents b)).
  assert (Ec : contents b = enc r ++ drop (length (enc r)) (contents b)).
  { apply (f_equal (take (length (enc r)))) in E. rewrite take_app_length, take_app_le in E by (unfold zlen in *; lia).
    rewrite <- E at 1. by rewrite take_drop. }
  split; [done|]. rewrite Ec, <- app_assoc in E. by apply app_inv_head in E.
Qed.

(** the bytes that were read and not handed out yet; the last message is still
    in the buffer *)
Definition pending (c : fcgi_cli) (u : bytes) : Prop :=
  wf (buf c) /\ cap (buf c) <= MAXCAP /\
  ((read_state c = RSTATE_INCOMPLETE /\ contents (buf c) = u /\ fcgi_is_complete_msg (buf c) = Ret false) \/
   (read_state c = RSTATE_COMPLETE /\ exists r, rec_ok r /\ contents (buf c) = enc r ++ u)).

(** the fields that reading messages leaves alone *)
Definition kept (c c' : fcgi_cli) : Prop :=
  id c' = id c /\ params c' = params c /\ body c' = body c /\ param_state c' = param_state c /\ fd c' = fd c.

#[local] Instance kept_refl : Reflexive kept.
Proof. by intros c. Qed.
#[local] Instance kept_trans : Transitive kept.
Proof. intros a b c (H1 & H2 & H3 & H4 & H5) (G1 & G2 & G3 & G4 & G5). unfold kept. by rewrite G1, G2, G3, G4, G5. Qed.

(** the record in the buffer after [readmsg] *)
Definition current (c : fcgi_cli) (r : rec) (u : bytes) : Prop :=
  wf (buf c) /\ cap (buf c) <= MAXCAP /\ read_state c = RSTATE_COMPLETE /\ contents (buf c) = enc r ++ u.

Lemma current_fields c r u : rec_ok r -> current c r u ->
  FCGI_CLEN (data (buf c)) = Ret (zlen (r_content r)) /\ header_t (data (buf c)) = Ret (r_t r) /\ header_id (data (buf c)) = Ret (r_id r) /\
  msg_data c (zlen (r_content r)) = Ret (r_content r) /\ pending c u.
Proof.
  intros Hr (Hwf & Hcap & Hs & Hc). assert (Hh : take 8 (data (buf c)) = header r).
  { rewrite data_contents, Hc. unfold enc. by rewrite <- !app_assoc. }
  destruct (header_fields r _ Hr Hh) as (H1 & _ & H3 & H4 & _). split; [done|]. split; [done|]. split; [done|]. split.
  - unfold msg_data. rewrite data_contents, Hc. unfold enc. rewrite <- !app_assoc.
    pose proof (zlen_nonneg (r_content r)). rewrite rds_in; [|done|done|unfold header, HEADERSZ; pose proof (zlen_nonneg (r_pad r ++ u ++ drop (Z.to_nat (len (buf c))) (data (buf c)))); zlen_simpl; lia].
    f_equal. change (Z.to_nat HEADERSZ) with (length (header r)). rewrite drop_app_length. unfold zlen. by rewrite Nat2Z.id, take_app_length.
  - split; [done|]. split; [done|]. right. split; [done|]. by exists r.
Qed.

(** what is pending is moved to the front, where it may be a message *)
Lemma drop_msg_spec c u r tail rest : pending c u -> rec_ok r -> u ++ tail = enc r ++ rest ->
  exists c' got, drop_msg c = Ret (c', got) /\ kept c c' /\
    if (got : bool) then exists u', current c' r u' /\ u' ++ tail = rest
    else wf (buf c') /\ cap (buf c') <= MAXCAP /\ read_state c' = RSTATE_INCOMPLETE /\ contents (buf c') = u /\ len (buf c') < zlen (enc r).
Proof.
  intros (Hwf & Hcap & Hst) Hr E. unfold drop_msg. destruct Hst as [(Hs & Hc & Hl)|(Hs & r0 & Hr0 & Hc)]; rewrite Hs.
  { exists c, false. split; [done|]. split; [done|]. do 4 (split; [done|]). rewrite <- Hc in E. pose proof (is_complete_spec _ r _ _ Hwf Hr E) as Hl'.
    rewrite Hl in Hl'. injection Hl' as Hl'. zbool. lia. }
  cbn [Z.eqb RSTATE_COMPLETE RSTATE_INCOMPLETE]. pose proof (contents_length _ Hwf) as Hlen. rewrite Hc, zlen_app in Hlen.
  pose proof (zlen_enc r0) as Hz0. pose proof (zlen_nonneg (r_content r0)). pose proof (zlen_nonneg (r_pad r0)). pose proof (zlen_nonneg u). unfold HEADERSZ in Hz0.
  rewrite (proj2 (Z.ltb_ge (len (buf c)) HEADERSZ)) by (unfold HEADERSZ; lia).
  assert (Hh : take 8 (data (buf c)) = header r0) by (rewrite data_contents, Hc; unfold enc; by rewrite <- !app_assoc).
  destruct (header_fields r0 _ Hr0 Hh) as (_ & _ & _ & _ & ->). cbn [mbind outcome_mbind]. destruct (Z.ltb_spec (zlen (enc r0)) (len (buf c))) as [Hlt|Hge].
  - destruct (shift_spec (buf c) (zlen (enc r0)) Hwf) as (src & d & -> & Hw & Hwf' & Hc'); [lia|]. cbn [mbind outcome_mbind]. rewrite Hw. cbn [mbind outcome_mbind buf set_buf].
    assert (Eu : contents (Buf (cap (buf c)) (len (buf c) - zlen (enc r0)) d) = u).
    { rewrite Hc', Hc. unfold zlen. by rewrite Nat2Z.id, drop_app_length. }
    set (b1 := Buf _ _ d) in *. rewrite (is_complete_spec b1 r tail rest Hwf' Hr) by (by rewrite Eu). cbn [mbind outcome_mbind].
    destruct (Z.leb_spec (zlen (enc r)) (len b1)) as [Hle|Hgt].
    + eexists _, true. split; [done|]. split; [done|]. destruct (contents_split b1 r rest tail Hwf') as (u' & E1 & E2); [by rewrite Eu|done|].
      exists u'. split; [|done]. split; [done|]. by split.
    + eexists _, false. split; [done|]. split; [done|]. split; [done|]. split; [done|]. split; [done|]. split; [done|]. exact Hgt.
  - eexists _, false. split; [done|]. split; [done|]. cbn [buf set_buf set_read_state read_state]. split; [|split; [done|]].
    + destruct Hwf. constructor; cbn; done || lia.
    + split; [done|]. pose proof (zlen_enc r). pose proof (zlen_nonneg (r_content r)). pose proof (zlen_nonneg (r_pad r)). unfold HEADERSZ in *. split; [|change (0 < zlen (enc r)); lia]. assert (u = []) as -> by (destruct u; [done|]; zlen_simpl; pose proof (zlen_nonneg u); lia). done.
Qed.

Section Receive.
Context {W : Type} {S0 : Sys W} {L0 : SysLaws W} (alloc_ok : Z -> bool) (fd : Z).

(** memory is there and the descriptor can be read *)
Context (Halloc : forall n, alloc_ok n = true) (Hread : ~ read_fails (W := W) fd).

(** bytes have come in since [w], or a delay is over *)
Definition later (w w' : W) : Prop :=
  (length (incoming w' fd) < length (incoming w fd))%nat \/
  (incoming w' fd = incoming w fd /\ (delays w' fd < delays w fd)%nat).

(** nothing happened, or bytes have come in *)
Definition advanced (w w' : W) : Prop := w' = w \/ (length (incoming w' fd) < length (incoming w fd))%nat.

Lemma advanced_trans w1 w2 w3 : advanced w1 w2 -> advanced w2 w3 -> advanced w1 w3.
Proof. unfold advanced. intros [->|H1] [->|H2]; auto. right. lia. Qed.

Lemma advanced_later w1 w2 w3 : advanced w1 w2 -> later w2 w3 -> later w1 w3.
Proof. intros [->|H1] H2; [done|]. left. destruct H2 as [H2|[H2 _]]; [|rewrite H2]; lia. Qed.

Lemma returns_bind_S {A B} (f : nat -> outcome A) (F : nat -> outcome B) (g : nat -> B -> outcome A) (P : B -> Prop) (Q : A -> Prop) :
  returns F P -> (forall b, P b -> returns (fun fuel => g fuel b) Q) -> (forall fuel, f (S fuel) = F (S fuel) ≫= g fuel) -> returns f Q.
Proof.
  intros (k & b & HF & HP) Hg Hf. destruct (Hg b HP) as (k' & a & Hg' & HQ). exists (S (Nat.max k k')), a. split; [|done].
  intros [|fuel] Hk; [lia|]. rewrite Hf, HF by lia. cbn [mbind outcome_mbind]. apply Hg'. lia.
Qed.

(** the records of a stream of type [t] in the request [i], up to the empty
    one that ends it, with the records of other requests between them *)
Inductive stream_of (i t : Z) : list rec -> bytes -> Prop :=
  | stream_end r : r_id r = i -> r_t r = t -> r_content r = [] -> stream_of i t [r] []
  | stream_more r rs p : r_id r = i -> r_t r = t -> r_content r <> [] -> stream_of i t rs p -> stream_of i t (r :: rs) (r_content r ++ p)
  | stream_foreign r rs p : r_id r <> i -> stream_of i t rs p -> stream_of i t (r :: rs) p.

(** reading goes on until a whole record is there *)
Lemma read_loop_spec r rest : rec_ok r -> forall n w b, (length (incoming w fd) < n)%nat ->
  wf b -> cap b <= MAXCAP -> len b < zlen (enc r) -> contents b ++ incoming w fd = enc r ++ rest ->
  returns (fun fuel => read_loop alloc_ok fuel w fd b) (fun '(w', b', ret, nread, is_complete) =>
    wf b' /\ cap b' <= MAXCAP /\
    if (is_complete : bool) then exists u, contents b' = enc r ++ u /\ u ++ incoming w' fd = rest /\ (length (incoming w' fd) < length (incoming w fd))%nat
    else ret = IO_AGAIN /\ len b' < zlen (enc r) /\ contents b' ++ incoming w' fd = enc r ++ rest /\ later w w').
Proof.
  intros Hr. induction n as [|n IH]; intros w b Hn Hwf Hcap Hl E; [lia|]. pose proof (enc_short r Hr) as Hshort. assert (Hsm : small b) by (unfold small, MAXCAP in *; lia).
  eapply returns_bind_S; [apply (io_readbuf_spec alloc_ok w fd b Hwf Hsm)| |intros fuel; reflexivity]. intros [[[w1 b1] ret] nread] (Hwf1 & Hcap1 & _ & Hends). cbn beta iota.
  assert (Hc1 : cap b1 <= MAXCAP).
  { unfold grown_cap, READBUF_GROWSZ, MAXCAP in *. destruct (Z.ltb_spec (cap b - len b) 256); [|lia]. assert (2 * (cap b / 2) <= cap b) by divmod_lia. lia. }
  assert (E1 : contents b1 ++ incoming w1 fd = enc r ++ rest).
  { destruct Hends as [(_ & bs & _ & Hc & _ & _ & Hin & _)|[(_ & Hc & _ & Hin & _)|(_ & Hc & _ & Hin & _)]]; rewrite Hc; [|by rewrite Hin..]. by rewrite <- app_assoc, <- Hin. }
  rewrite (is_complete_spec b1 r (incoming w1 fd) rest Hwf1 Hr E1). cbn [mbind outcome_mbind]. destruct (Z.leb_spec (zlen (enc r)) (len b1)) as [Hle|Hgt]; cbn [negb andb].
  - eapply returns_const; [reflexivity|]. split; [done|]. split; [done|]. destruct (contents_split b1 r rest _ Hwf1 E1 Hle) as (u & Hu & Hrest).
    exists u. split; [done|]. split; [done|]. destruct Hends as [(_ & bs & _ & _ & Hlb & _ & Hin & _)|[(_ & _ & Hlb & Hin & _)|(_ & _ & Hlb & Hin & _)]]; [|lia..].
    rewrite Hin, length_app. unfold zlen in *. lia.
  - destruct Hends as [(-> & bs & -> & Hc & Hlb & Hbb & Hin & Hnil)|[(-> & Hc & Hlb & Hin & Hdel)|(-> & _ & _ & _ & Hf)]].
    + destruct (decide (bs = [])) as [->|Hne].
      * exfalso. pose proof (Hnil eq_refl) as H0. rewrite Hin in H0. cbn in H0. rewrite H0, app_nil_r in E1. apply (f_equal zlen) in E1.
        rewrite contents_length, zlen_app in E1 by done. pose proof (zlen_nonneg rest). lia.
      * assert (0 < zlen bs) by (destruct bs; [done|]; zlen_simpl; pose proof (zlen_nonneg bs); lia). rewrite (proj2 (Z.ltb_lt _ _)) by done. cbn [Z.eqb IO_OK].
        rewrite Hin, length_app in Hn. destruct (IH w1 b1) as (k & [[[[w2 b2] r2] n2] c2] & Hk & H2); [unfold zlen in *; lia|done|done|lia|done|].
        exists k, (w2, b2, r2, n2, c2). split; [done|]. destruct H2 as (H2 & H3 & H4). split; [done|]. split; [done|]. rewrite Hin. destruct c2.
        -- destruct H4 as (u & ? & ? & ?). exists u. rewrite length_app. split; [done|]. split; [done|]. lia.
        -- destruct H4 as (? & ? & ? & H5). split; [done|]. split; [done|]. split; [done|]. left. rewrite Hin, length_app. unfold zlen in *.
           destruct H5 as [H5|[H5 _]]; [|rewrite H5]; lia.
    + eapply returns_const; [intros; reflexivity|]. split; [done|]. split; [done|]. split; [done|]. split; [lia|]. split; [done|]. by right.
    + exfalso. destruct Hf as [Hf|[x Hx]]; [done|]. by rewrite Halloc in Hx.
Qed.

Lemma fetch_spec c w u r rest : c.(Fcgi.fd) = fd -> pending c u -> rec_ok r -> u ++ incoming w fd = enc r ++ rest ->
  returns (fun fuel => fetch alloc_ok fuel w c) (fun '(w', c', ret) => kept c c' /\
    ((ret = FCGI_OK /\ advanced w w' /\ exists u', current c' r u' /\ u' ++ incoming w' fd = rest) \/
     (ret = FCGI_AGAIN /\ later w w' /\ exists u', pending c' u' /\ u' ++ incoming w' fd = enc r ++ rest))).
Proof.
  intros Hfd Hp Hr E. unfold fetch. destruct (drop_msg_spec c u r _ _ Hp Hr E) as (c1 & got & -> & Hk & Hg). cbn [mbind outcome_mbind].
  assert (Hfd1 : c1.(Fcgi.fd) = fd) by (destruct Hk as (_ & _ & _ & _ & Hk); congruence). destruct got.
  - eapply returns_const; [reflexivity|]. split; [done|]. left. split; [done|]. split; [by left|done].
  - destruct Hg as (Hwf & Hcap & Hs & Hc & Hl). rewrite <- Hc in E. rewrite Hfd1.
    eapply returns_bind; [apply (read_loop_spec r rest Hr (S (length (incoming w fd)))); [lia|done..]|].
    intros [[[[w' b'] ret] nread] ic] (Hwf' & Hcap' & H). cbn beta iota. destruct ic.
    + destruct H as (u' & Hu & Hrest & Hlt). eapply returns_const; [reflexivity|]. split; [done|]. left. split; [done|]. split; [by right|].
      exists u'. split; [|done]. do 3 (split; [done|]). done.
    + destruct H as (-> & Hl' & E' & Hlat). eapply returns_const; [reflexivity|]. split; [done|]. right. split; [done|]. split; [done|].
      exists (contents b'). split; [|done]. split; [done|]. split; [done|]. left. split; [done|]. split; [done|]. cbn [buf set_buf].
      rewrite (is_complete_spec b' r (incoming w' fd) rest Hwf' Hr E'). by rewrite (proj2 (Z.leb_gt _ _)).
Qed.

(** records that are skipped *)
Definition foreign (c : fcgi_cli) (r : rec) : Prop := param_state c <> PSTATE_EXPECT_BEGIN_REQUEST /\ r_id r <> id c.

Definition encs (rs : list rec) : bytes := concat (enc <$> rs).

Lemma encs_cons r rs : encs (r :: rs) = enc r ++ encs rs.
Proof. done. Qed.

Lemma readmsg_spec r rs : rec_ok r -> forall fs c w u, Forall rec_ok fs -> c.(Fcgi.fd) = fd -> pending c u -> Forall (foreign c) fs ->
  (param_state c = PSTATE_EXPECT_BEGIN_REQUEST \/ r_id r = id c) -> u ++ incoming w fd = encs fs ++ enc r ++ rs ->
  returns (fun fuel => fcgi_cli_readmsg alloc_ok fuel w c) (fun '(w', c', ret) => kept c c' /\
    ((ret = FCGI_OK /\ advanced w w' /\ exists u', current c' r u' /\ u' ++ incoming w' fd = rs) \/
     (ret = FCGI_AGAIN /\ later w w' /\ exists u' fs', pending c' u' /\ fs' `suffix_of` fs /\ u' ++ incoming w' fd = encs fs' ++ enc r ++ rs))).
Proof.
  intros Hr. induction fs as [|f fs IH]; intros c w u Hfs Hfd Hp Hf Hid E.
  - eapply returns_bind_S; [by apply (fetch_spec c w u r rs)| |intros fuel; reflexivity]. intros [[w1 c1] ret] [Hk H]. cbn beta iota.
    destruct H as [(-> & Ha & u' & Hc & E')|(-> & Hl & u' & Hp' & E')]; cbn [Z.eqb FCGI_OK FCGI_AGAIN negb].
    + destruct (current_fields c1 r u' Hr Hc) as (_ & _ & -> & _). cbn [mbind outcome_mbind].
      assert (Hgo : negb (param_state c1 =? PSTATE_EXPECT_BEGIN_REQUEST) && negb (r_id r =? id c1) = false).
      { destruct Hk as (-> & _ & _ & -> & _). destruct Hid as [-> | ->]; [done|]. rewrite Z.eqb_refl. by rewrite andb_false_r. }
      rewrite Hgo. eapply returns_const; [reflexivity|]. split; [done|]. left. split; [done|]. split; [done|]. by exists u'.
    + eapply returns_const; [reflexivity|]. split; [done|]. right. split; [done|]. split; [done|]. exists u', []. split; [done|]. split; [done|]. done.
  - apply Forall_cons in Hfs as [Hf0 Hfs]. apply Forall_cons in Hf as [Hff Hf]. rewrite encs_cons, <- app_assoc in E.
    eapply returns_bind_S; [by apply (fetch_spec c w u f (encs fs ++ enc r ++ rs))| |intros fuel; reflexivity]. intros [[w1 c1] ret] [Hk H]. cbn beta iota.
    destruct H as [(-> & Ha & u' & Hc & E')|(-> & Hl & u' & Hp' & E')]; cbn [Z.eqb FCGI_OK FCGI_AGAIN negb].
    + destruct (current_fields c1 f u' Hf0 Hc) as (_ & _ & -> & _ & Hp1). cbn [mbind outcome_mbind].
      pose proof Hk as (Hid1 & _ & _ & Hps & Hfd1). destruct Hff as [Hf1 Hf2].
      rewrite (proj2 (Z.eqb_neq (param_state c1) _)), (proj2 (Z.eqb_neq (r_id f) _)) by congruence. cbn [negb andb].
      destruct (IH c1 w1 u' Hfs) as (k & [[w2 c2] r2] & Hk2 & Hkept & H2); [congruence|done| |by rewrite Hid1, Hps|done|].
      { eapply Forall_impl; [exact Hf|]. intros x [??]. split; [by rewrite Hps|by rewrite Hid1]. }
      exists k, (w2, c2, r2). split; [done|]. split; [by etrans|]. destruct H2 as [(-> & Ha2 & H2)|(-> & Hl2 & u2 & fs' & H3 & H4 & H5)].
      * left. split; [done|]. split; [by eapply advanced_trans|done].
      * right. split; [done|]. split; [by eapply advanced_later|]. exists u2, fs'. split; [done|]. split; [by apply suffix_cons_r|done].
    + eapply returns_const; [reflexivity|]. split; [done|]. right. split; [done|]. split; [done|]. exists u', (f :: fs).
      split; [done|]. split; [done|]. by rewrite encs_cons, <- app_assoc.
Qed.

(** the first record of the stream behind those of other requests *)
Lemma stream_first i t rs p : stream_of i t rs p -> exists fs r rs', rs = fs ++ r :: rs' /\ Forall (fun f => r_id f <> i) fs /\ r_id r = i /\ r_t r = t /\
  ((r_content r = [] /\ rs' = [] /\ p = []) \/ (r_content r <> [] /\ exists p', stream_of i t rs' p' /\ p = r_content r ++ p')).
Proof.
  induction 1 as [r H1 H2 H3|r rs p H1 H2 H3 H4 _|r rs p H1 _ (fs & r' & rs' & -> & Hf & IH)].
  - exists [], r, []. auto 10.
  - exists [], r, rs. split; [done|]. split; [done|]. split; [done|]. split; [done|]. right. split; [done|]. by exists p.
  - exists (r :: fs), r', rs'. split; [done|]. split; [by constructor|done].
Qed.

Lemma stream_skip i t fs rs p : Forall (fun f => r_id f <> i) fs -> stream_of i t rs p -> stream_of i t (fs ++ rs) p.
Proof. induction 1; [done|]. intros Hs. cbn. apply stream_foreign; auto. Qed.

Lemma encs_app a b : encs (a ++ b) = encs a ++ encs b.
Proof. unfold encs. by rewrite fmap_app, concat_app. Qed.

(** room for the parameters and for the body *)
Definition ROOM : Z := 2 ^ 40.

(** a loop that appends the records of a stream to [acc] *)
Section Loop.
Context (loop K : nat -> W -> fcgi_cli -> outcome (W * fcgi_cli * Z)) (t limit : Z).
Context (acc : fcgi_cli -> buf_t) (phase : fcgi_cli -> Prop) (other : fcgi_cli -> fcgi_cli -> Prop) (fin : fcgi_cli -> fcgi_cli).
Context {other_refl : Reflexive other} {other_trans : Transitive other}.
Context (Hphase : forall c, phase c -> param_state c <> PSTATE_EXPECT_BEGIN_REQUEST).
Context (Hother : forall c c', other c c' -> id c' = id c /\ c'.(Fcgi.fd) = c.(Fcgi.fd)).
Context (Hkept : forall c c', kept c c' -> other c c' /\ acc c' = acc c /\ (phase c -> phase c')).
Context (Hstep : forall fuel w c, phase c -> loop (S fuel) w c =
  '(w, c, ret) ← fcgi_cli_readmsg alloc_ok (S fuel) w c; if negb (ret =? FCGI_OK) then Ret (w, c, ret) else K fuel w c).
Context (Hdone : forall fuel w c r u, phase c -> rec_ok r -> current c r u -> r_t r = t -> r_content r = [] -> K fuel w c = Ret (w, fin c, FCGI_OK)).
Context (Hmore : forall w c r u, phase c -> rec_ok r -> current c r u -> r_t r = t -> r_content r <> [] -> fits ROOM (acc c) ->
  len (acc c) + zlen (r_content r) <= limit ->
  exists c', (forall fuel, K fuel w c = loop fuel w c') /\ phase c' /\ pending c' u /\ other c c' /\ fits ROOM (acc c') /\ contents (acc c') = contents (acc c) ++ r_content r).

Lemma loop_spec rest : forall n rs p c w u, (length rs < n)%nat -> stream_of (id c) t rs p -> Forall rec_ok rs -> phase c -> c.(Fcgi.fd) = fd -> pending c u ->
  fits ROOM (acc c) -> len (acc c) + zlen p <= limit -> u ++ incoming w fd = encs rs ++ rest ->
  returns (fun fuel => loop fuel w c) (fun '(w', c', ret) =>
    (ret = FCGI_OK /\ advanced w w' /\ exists c1 u', c' = fin c1 /\ other c c1 /\ phase c1 /\ pending c1 u' /\ u' ++ incoming w' fd = rest /\
       fits ROOM (acc c1) /\ contents (acc c1) = contents (acc c) ++ p) \/
    (ret = FCGI_AGAIN /\ later w w' /\ other c c' /\ phase c' /\ exists u' rs' p', pending c' u' /\ stream_of (id c) t rs' p' /\ Forall rec_ok rs' /\
       fits ROOM (acc c') /\ contents (acc c') ++ p' = contents (acc c) ++ p /\ u' ++ incoming w' fd = encs rs' ++ rest)).
Proof.
  induction n as [|n IH]; intros rs p c w u Hn Hs Hok Hph Hfd Hp Hfit Hlim E; [lia|].
  destruct (stream_first _ _ _ _ Hs) as (fs & r & rs' & -> & Hf & Hid & Ht & Hc). apply Forall_app in Hok as [Hokf [Hokr Hok]%Forall_cons].
  rewrite encs_app, encs_cons, <- !app_assoc in E.
  eapply returns_bind_S; [apply (readmsg_spec r (encs rs' ++ rest) Hokr fs c w u Hokf Hfd Hp); [|by right|done]| |intros fuel; by apply Hstep].
  { eapply Forall_impl; [exact Hf|]. intros x Hx. split; [by apply Hphase|done]. }
  intros [[w1 c1] ret] [Hk H]. cbn beta iota. destruct (Hkept _ _ Hk) as (Ho & Ha & Hph1). specialize (Hph1 Hph). destruct (Hother _ _ Ho) as [Hid1 Hfd1].
  destruct H as [(-> & Hadv & u1 & Hcur & E1)|(-> & Hl & u1 & fs' & Hp1 & Hsuf & E1)]; cbn [Z.eqb FCGI_OK FCGI_AGAIN negb].
  - destruct Hc as [(Hc & -> & ->)|(Hc & p' & Hs' & ->)].
    + eapply returns_const; [intros fuel; by eapply Hdone|]. left. split; [done|]. split; [done|]. exists c1, u1.
      do 3 (split; [done|]). split; [by eapply current_fields|]. split; [done|]. rewrite Ha, app_nil_r. done.
    + rewrite zlen_app in Hlim. pose proof (zlen_nonneg p').
      destruct (Hmore w1 c1 r u1 Hph1 Hokr Hcur Ht Hc) as (c2 & HK & Hph2 & Hp2 & Ho2 & Hfit2 & Hc2); [by rewrite Ha|rewrite Ha; lia|].
      destruct (Hother _ _ Ho2) as [Hid2 Hfd2]. assert (Hl2 : len (acc c2) = len (acc c) + zlen (r_content r)).
      { rewrite <- (contents_length (acc c2)), Hc2, Ha, zlen_app, contents_length; [done|apply Hfit|apply Hfit2]. }
      destruct (IH rs' p' c2 w1 u1) as (k & [[w3 c3] r3] & Hk3 & H3); [rewrite length_app in Hn; cbn in Hn; lia|by rewrite Hid2, Hid1|done|done|congruence|done|done|lia|done|].
      exists k, (w3, c3, r3). split; [intros fuel Hfu; by rewrite HK, Hk3|]. rewrite Hc2, Ha, <- app_assoc in H3. rewrite Hid2, Hid1 in H3.
      destruct H3 as [(-> & Hadv3 & c4 & u4 & -> & Ho4 & H4)|(-> & Hl3 & Ho3 & H3)].
      * left. split; [done|]. split; [by eapply advanced_trans|]. exists c4, u4. split; [done|]. split; [|done]. etrans; [exact Ho|]. by etrans.
      * right. split; [done|]. split; [by eapply advanced_later|]. split; [|done]. etrans; [exact Ho|]. by etrans.
  - eapply returns_const; [reflexivity|]. right. split; [done|]. split; [done|]. split; [done|]. split; [done|].
    assert (Hf' : Forall (fun f => r_id f <> id c) fs') by (destruct Hsuf as [x ->]; by apply Forall_app in Hf as [_ Hf]).
    exists u1, (fs' ++ r :: rs'), p. split; [done|]. split.
    { apply stream_skip; [done|]. destruct Hc as [(Hc & -> & ->)|(Hc & p' & Hs' & ->)]; [by constructor|by apply stream_more]. }
    split; [|split; [by rewrite Ha|split; [by rewrite Ha|by rewrite encs_app, encs_cons, <- !app_assoc]]].
    apply Forall_app. split; [|by constructor]. destruct Hsuf as [x ->]. by apply Forall_app in Hokf as [_ ?].
Qed.

End Loop.


(** ** Parameters and body *)

Definition in_params (c : fcgi_cli) : Prop := param_state c = PSTATE_EXPECT_PARAMS.
Definition in_body (c : fcgi_cli) : Prop := param_state c = PSTATE_DONE.

Definition but_params (c c' : fcgi_cli) : Prop := id c' = id c /\ c'.(Fcgi.fd) = c.(Fcgi.fd) /\ body c' = body c.
Definition but_body (c c' : fcgi_cli) : Prop := id c' = id c /\ c'.(Fcgi.fd) = c.(Fcgi.fd) /\ params c' = params c.

#[local] Instance but_params_refl : Reflexive but_params.
Proof. by intros c. Qed.
#[local] Instance but_params_trans : Transitive but_params.
Proof. intros a b c (H1 & H2 & H3) (G1 & G2 & G3). unfold but_params. by rewrite G1, G2, G3. Qed.
#[local] Instance but_body_refl : Reflexive but_body.
Proof. by intros c. Qed.
#[local] Instance but_body_trans : Transitive but_body.
Proof. intros a b c (H1 & H2 & H3) (G1 & G2 & G3). unfold but_body. by rewrite G1, G2, G3. Qed.

(** the content of a record goes to a buffer with room *)
Lemma append_content r b : rec_ok r -> fits ROOM b -> len b + zlen (r_content r) <= MAX_BODYSZ ->
  exists b', buf_adata alloc_ok b (r_content r) = Ret (b', 0) /\ fits ROOM b' /\ contents b' = contents b ++ r_content r.
Proof.
  intros [Hb _ _] Hf Hl. apply buf_adata_all; [done|done| |unfold MAX_BODYSZ, ROOM in *; change (Z.shiftl 1 20 * 10) with 10485760 in *; lia].
  apply Forall_app in Hb as [_ Hb]. by apply Forall_app in Hb as [Hb _].
Qed.

Lemma params_spec rest rs p c w u : stream_of (id c) FCGI_PARAMS rs p -> Forall rec_ok rs -> in_params c -> c.(Fcgi.fd) = fd -> pending c u ->
  fits ROOM (params c) -> len (params c) + zlen p <= MAX_PARAMSZ -> u ++ incoming w fd = encs rs ++ rest ->
  returns (fun fuel => params_loop alloc_ok fuel w c) (fun '(w', c', ret) =>
    (ret = FCGI_OK /\ advanced w w' /\ exists c1 u', c' = set_param_state c1 PSTATE_DONE /\ but_params c c1 /\ in_params c1 /\ pending c1 u' /\ u' ++ incoming w' fd = rest /\
       fits ROOM (params c1) /\ contents (params c1) = contents (params c) ++ p) \/
    (ret = FCGI_AGAIN /\ later w w' /\ but_params c c' /\ in_params c' /\ exists u' rs' p', pending c' u' /\ stream_of (id c) FCGI_PARAMS rs' p' /\ Forall rec_ok rs' /\
       fits ROOM (params c') /\ contents (params c') ++ p' = contents (params c) ++ p /\ u' ++ incoming w' fd = encs rs' ++ rest)).
Proof.
  intros Hs Hok Hph Hfd Hp Hfit Hlim E.
  apply (loop_spec (params_loop alloc_ok) (fun fuel w c =>
    clen ← FCGI_CLEN (data (buf c)); t ← header_t (data (buf c));
    if param_state c =? PSTATE_EXPECT_BEGIN_REQUEST then
      if negb (t =? FCGI_BEGIN_REQUEST) then Ret (w, set_errcode c FCGIERR_UNEXPECTEDMSG, FCGI_ERR)
      else i ← header_id (data (buf c)); params_loop alloc_ok fuel w (set_param_state (set_id c i) PSTATE_EXPECT_PARAMS)
    else if param_state c =? PSTATE_EXPECT_PARAMS then
      if negb (t =? FCGI_PARAMS) then Ret (w, set_errcode c FCGIERR_UNEXPECTEDMSG, FCGI_ERR)
      else if clen =? 0 then Ret (w, set_param_state c PSTATE_DONE, FCGI_OK)
      else if MAX_PARAMSZ <? len (params c) + clen then Ret (w, set_errcode c FCGIERR_PARAMSIZE, FCGI_ERR)
      else bs ← msg_data c clen; '(p, _) ← buf_adata alloc_ok (params c) bs; params_loop alloc_ok fuel w (set_params c p)
    else Ret (w, set_errcode c FCGIERR_INVALIDSTATE, FCGI_ERR))
    FCGI_PARAMS MAX_PARAMSZ params in_params but_params) with (n := S (length rs)) (rs := rs) (u := u); try done; try typeclasses eauto; try lia.
  - by intros x ->.
  - by intros x y (H1 & H2 & _).
  - intros x y (H1 & H2 & H3 & H4 & H5). split; [done|]. split; [done|]. unfold in_params. by rewrite H4.
  - intros fuel w' x r u' Hx Hr Hcur Ht Hc. destruct (current_fields x r u' Hr Hcur) as (-> & -> & _). cbn [mbind outcome_mbind]. rewrite Hx, Ht, Hc. done.
  - intros w' x r u' Hx Hr Hcur Ht Hc Hf Hl. destruct (current_fields x r u' Hr Hcur) as (EL & ET & _ & ED & Hp').
    assert (HM : MAX_PARAMSZ <= MAX_BODYSZ) by done. destruct (append_content r (params x) Hr Hf ltac:(lia)) as (b' & Eb & Hf' & Hc').
    exists (set_params x b'). split; [|by split]. intros fuel. rewrite EL, ET. cbn [mbind outcome_mbind]. rewrite Hx, Ht. cbn [Z.eqb PSTATE_EXPECT_PARAMS PSTATE_EXPECT_BEGIN_REQUEST FCGI_PARAMS negb].
    pose proof (zlen_pos _ Hc).
    rewrite (proj2 (Z.eqb_neq (zlen (r_content r)) 0)), (proj2 (Z.ltb_ge MAX_PARAMSZ _)), ED by lia. cbn [mbind outcome_mbind]. rewrite Eb. done.
Qed.

Lemma body_spec rest rs p c w u : stream_of (id c) FCGI_STDIN rs p -> Forall rec_ok rs -> in_body c -> c.(Fcgi.fd) = fd -> pending c u ->
  fits ROOM (body c) -> len (body c) + zlen p <= MAX_BODYSZ -> u ++ incoming w fd = encs rs ++ rest ->
  returns (fun fuel => fcgi_cli_readbody alloc_ok fuel w c) (fun '(w', c', ret) =>
    (ret = FCGI_OK /\ advanced w w' /\ exists c1 u', c' = c1 /\ but_body c c1 /\ in_body c1 /\ pending c1 u' /\ u' ++ incoming w' fd = rest /\
       fits ROOM (body c1) /\ contents (body c1) = contents (body c) ++ p) \/
    (ret = FCGI_AGAIN /\ later w w' /\ but_body c c' /\ in_body c' /\ exists u' rs' p', pending c' u' /\ stream_of (id c) FCGI_STDIN rs' p' /\ Forall rec_ok rs' /\
       fits ROOM (body c') /\ contents (body c') ++ p' = contents (body c) ++ p /\ u' ++ incoming w' fd = encs rs' ++ rest)).
Proof.
  intros Hs Hok Hph Hfd Hp Hfit Hlim E.
  apply (loop_spec (fcgi_cli_readbody alloc_ok) (fun fuel w c =>
    clen ← FCGI_CLEN (data (buf c)); t ← header_t (data (buf c));
    if negb (t =? FCGI_STDIN) then Ret (w, set_errcode c FCGIERR_UNEXPECTEDMSG, FCGI_ERR)
    else if clen =? 0 then Ret (w, c, FCGI_OK)
    else if MAX_BODYSZ <? len (body c) + clen then Ret (w, set_errcode c FCGIERR_BODYSIZE, FCGI_ERR)
    else bs ← msg_data c clen; '(b, _) ← buf_adata alloc_ok (body c) bs; fcgi_cli_readbody alloc_ok fuel w (set_body c b))
    FCGI_STDIN MAX_BODYSZ body in_body but_body (fun c => c)) with (n := S (length rs)) (rs := rs) (u := u); try done; try typeclasses eauto; try lia.
  - by intros x ->.
  - by intros x y (H1 & H2 & _).
  - intros x y (H1 & H2 & H3 & H4 & H5). split; [done|]. split; [done|]. unfold in_body. by rewrite H4.
  - intros fuel w' x r u' Hx Hr Hcur Ht Hc. destruct (current_fields x r u' Hr Hcur) as (-> & -> & _). cbn [mbind outcome_mbind]. rewrite Ht, Hc. done.
  - intros w' x r u' Hx Hr Hcur Ht Hc Hf Hl. destruct (current_fields x r u' Hr Hcur) as (EL & ET & _ & ED & Hp').
    destruct (append_content r (body x) Hr Hf ltac:(lia)) as (b' & Eb & Hf' & Hc').
    exists (set_body x b'). split; [|by split]. intros fuel. rewrite EL, ET. cbn [mbind outcome_mbind]. rewrite Ht. cbn [Z.eqb FCGI_STDIN negb].
    pose proof (zlen_pos _ Hc).
    rewrite (proj2 (Z.eqb_neq (zlen (r_content r)) 0)), (proj2 (Z.ltb_ge MAX_BODYSZ _)), ED by lia. cbn [mbind outcome_mbind]. rewrite Eb. done.
Qed.


(** ** Requests *)

Section Request.
Context (i : Z) (P B rest : bytes) (HP : zlen P <= MAX_PARAMSZ) (HB : zlen B <= MAX_BODYSZ).

(** what is left of the request is pending or still to come *)
Definition awaits_body (c : fcgi_cli) (w : W) : Prop :=
  c.(Fcgi.fd) = fd /\ in_body c /\ id c = i /\ contents (params c) = P /\ fits ROOM (params c) /\ fits ROOM (body c) /\
  exists u rs b, pending c u /\ Forall rec_ok rs /\ stream_of i FCGI_STDIN rs b /\ contents (body c) ++ b = B /\ u ++ incoming w fd = encs rs ++ rest.

Definition awaits_params (c : fcgi_cli) (w : W) : Prop :=
  c.(Fcgi.fd) = fd /\ in_params c /\ id c = i /\ contents (body c) = [] /\ fits ROOM (params c) /\ fits ROOM (body c) /\
  exists u rs1 rs2 p, pending c u /\ Forall rec_ok (rs1 ++ rs2) /\ stream_of i FCGI_PARAMS rs1 p /\ contents (params c) ++ p = P /\
    stream_of i FCGI_STDIN rs2 B /\ u ++ incoming w fd = encs (rs1 ++ rs2) ++ rest.

Definition awaits_begin (c : fcgi_cli) (w : W) : Prop :=
  c.(Fcgi.fd) = fd /\ param_state c = PSTATE_EXPECT_BEGIN_REQUEST /\ contents (params c) = [] /\ contents (body c) = [] /\ fits ROOM (params c) /\ fits ROOM (body c) /\
  exists u r rs1 rs2, pending c u /\ Forall rec_ok (r :: rs1 ++ rs2) /\ r_t r = FCGI_BEGIN_REQUEST /\ r_id r = i /\ stream_of i FCGI_PARAMS rs1 P /\
    stream_of i FCGI_STDIN rs2 B /\ u ++ incoming w fd = encs (r :: rs1 ++ rs2) ++ rest.

Definition awaits (c : fcgi_cli) (w : W) : Prop := awaits_begin c w \/ awaits_params c w \/ awaits_body c w.

(** the request is there, and what follows it is left *)
Definition received (c : fcgi_cli) (w : W) : Prop :=
  id c = i /\ contents (params c) = P /\ contents (body c) = B /\ exists u, pending c u /\ u ++ incoming w fd = rest.

(** how a call ends that gets to [goal] *)
Definition ends (goal : fcgi_cli -> W -> Prop) (w : W) (a : W * fcgi_cli * Z) : Prop :=
  let '(w', c', ret) := a in
  (ret = FCGI_OK /\ advanced w w' /\ goal c' w') \/ (ret = FCGI_AGAIN /\ later w w' /\ awaits c' w').

Lemma fits_room b x : fits ROOM b -> contents b = x -> len b = zlen x.
Proof. intros (H & _) <-. by rewrite contents_length. Qed.

Lemma readbody_ends c w : awaits_body c w -> returns (fun fuel => fcgi_cli_readbody alloc_ok fuel w c) (ends received w).
Proof.
  intros (Hfd & Hph & Hid & Hc & Hf1 & Hf2 & u & rs & b & Hp & Hok & Hs & Hb & E). rewrite <- Hid in Hs.
  assert (Hl : len (body c) + zlen b <= MAX_BODYSZ).
  { rewrite (fits_room _ _ Hf2 eq_refl), <- zlen_app, Hb. done. }
  destruct (body_spec rest rs b c w u Hs Hok Hph Hfd Hp Hf2 Hl E) as (k & [[w' c'] ret] & Hk & H). exists k, (w', c', ret). split; [done|].
  destruct H as [(-> & Ha & c1 & u' & -> & (H1 & H2 & H3) & _ & Hp' & E' & _ & Hc')|(-> & Hl' & (H1 & H2 & H3) & Hph' & u' & rs' & b' & Hp' & Hs' & Hok' & Hf' & Hc' & E')].
  - left. split; [done|]. split; [done|]. split; [by rewrite H1|]. split; [by rewrite H3|]. split; [by rewrite Hc'|]. by exists u'.
  - right. split; [done|]. split; [done|]. right; right. split; [by rewrite H2|]. split; [done|]. split; [by rewrite H1|]. split; [by rewrite H3|].
    split; [by rewrite H3|]. split; [done|]. rewrite Hid in Hs'. exists u', rs', b'. split; [done|]. split; [done|]. split; [done|]. split; [by rewrite Hc'|done].
Qed.

Lemma params_loop_ends c w : awaits_params c w -> returns (fun fuel => params_loop alloc_ok fuel w c) (ends awaits_body w).
Proof.
  intros (Hfd & Hph & Hid & Hc & Hf1 & Hf2 & u & rs1 & rs2 & p & Hp & Hok & Hs & Hpp & Hs2 & E). rewrite <- Hid in Hs.
  apply Forall_app in Hok as [Hok1 Hok2]. rewrite encs_app, <- app_assoc in E.
  assert (Hl : len (params c) + zlen p <= MAX_PARAMSZ).
  { rewrite (fits_room _ _ Hf1 eq_refl), <- zlen_app, Hpp. done. }
  destruct (params_spec (encs rs2 ++ rest) rs1 p c w u Hs Hok1 Hph Hfd Hp Hf1 Hl E) as (k & [[w' c'] ret] & Hk & H). exists k, (w', c', ret). split; [done|].
  destruct H as [(-> & Ha & c1 & u' & -> & (H1 & H2 & H3) & _ & Hp' & E' & Hf' & Hc')|(-> & Hl' & (H1 & H2 & H3) & Hph' & u' & rs' & p' & Hp' & Hs' & Hok' & Hf' & Hc' & E')].
  - left. split; [done|]. split; [done|]. split; [cbn; by rewrite H2|]. split; [done|]. split; [cbn; by rewrite H1|]. split; [cbn; by rewrite Hc'|].
    split; [done|]. split; [cbn; by rewrite H3|]. exists u', rs2, B. cbn [body set_param_state]. rewrite H3, Hc. by split.
  - right. split; [done|]. split; [done|]. right; left. split; [by rewrite H2|]. split; [done|]. split; [by rewrite H1|]. split; [by rewrite H3|].
    split; [done|]. split; [by rewrite H3|]. rewrite Hid in Hs'. exists u', rs', rs2, p'. split; [done|]. split; [by apply Forall_app|]. split; [done|].
    split; [by rewrite Hc'|]. split; [done|]. by rewrite encs_app, <- app_assoc.
Qed.

Lemma ends_advanced goal w1 w2 a : advanced w1 w2 -> ends goal w2 a -> ends goal w1 a.
Proof.
  destruct a as [[w' c'] ret]. intros H [(-> & Ha & Hg)|(-> & Hl & Hw)]; [left|right]; (split; [done|]; split; [|done]); [by eapply advanced_trans|by eapply advanced_later].
Qed.

Lemma params_begin_ends c w : awaits_begin c w -> returns (fun fuel => params_loop alloc_ok fuel w c) (ends awaits_body w).
Proof.
  intros (Hfd & Hph & Hc1 & Hc2 & Hf1 & Hf2 & u & r & rs1 & rs2 & Hp & Hok & Ht & Hid & Hs1 & Hs2 & E). pose proof Hok as [Hr Hok']%Forall_cons.
  rewrite encs_cons, <- app_assoc in E.
  eapply returns_bind_S; [apply (readmsg_spec r (encs (rs1 ++ rs2) ++ rest) Hr [] c w u); [done|done|done|done|by left|done]| |intros fuel; reflexivity].
  intros [[w1 c1] ret] [(H1 & H2 & H3 & H4 & H5) H]. cbn beta iota.
  destruct H as [(-> & Ha & u1 & Hcur & E1)|(-> & Hl & u1 & fs & Hp1 & Hfs & E1)]; cbn [Z.eqb FCGI_OK FCGI_AGAIN negb].
  - destruct (current_fields c1 r u1 Hr Hcur) as (EL & ET & EI & _ & Hp1). rewrite EL, ET. cbn [mbind outcome_mbind]. rewrite H4, Hph, Ht, EI. cbn [Z.eqb PSTATE_EXPECT_BEGIN_REQUEST FCGI_BEGIN_REQUEST negb mbind outcome_mbind].
    destruct (params_loop_ends (set_param_state (set_id c1 (r_id r)) PSTATE_EXPECT_PARAMS) w1) as (k & a & Hk & Hends).
    { unfold awaits_params. cbn [Fcgi.fd param_state id body params set_param_state set_id]. rewrite H2, H3, H5. do 6 (split; [done|]).
      exists u1, rs1, rs2, P. split; [done|]. split; [done|]. split; [done|]. split; [by rewrite Hc1|done]. }
    exists k, a. split; [done|]. by eapply ends_advanced.
  - apply suffix_nil_inv in Hfs as ->. eapply returns_const; [reflexivity|]. right. split; [done|]. split; [done|]. left. unfold awaits_begin. rewrite H2, H3, H4, H5.
    do 6 (split; [done|]). exists u1, r, rs1, rs2. do 6 (split; [done|]). rewrite encs_cons, <- app_assoc. done.
Qed.

Lemma readreq_ends c w : awaits c w -> returns (fun fuel => fcgi_cli_readreq alloc_ok fuel w c) (ends received w).
Proof.
  intros H. assert (Hgo : param_state c <> PSTATE_DONE -> returns (fun fuel => params_loop alloc_ok fuel w c) (ends awaits_body w) ->
    returns (fun fuel => fcgi_cli_readreq alloc_ok fuel w c) (ends received w)).
  { intros Hne Hl. unfold fcgi_cli_readreq, fcgi_cli_readparams. rewrite (proj2 (Z.eqb_neq _ _)) by done.
    eapply returns_bind; [exact Hl|]. intros [[w1 c1] ret] [(-> & Ha & Hb)|(-> & Hl' & Hw)]; cbn [Z.eqb FCGI_OK FCGI_AGAIN].
    - destruct (readbody_ends c1 w1 Hb) as (k & a & Hk & He). exists k, a. split; [done|]. by eapply ends_advanced.
    - eapply returns_const; [reflexivity|]. by right. }
  destruct H as [H|[H|H]].
  - apply Hgo; [destruct H as (_ & -> & _); done|by apply params_begin_ends].
  - apply Hgo; [destruct H as (_ & -> & _); done|by apply params_loop_ends].
  - unfold fcgi_cli_readreq. assert (E : param_state c = PSTATE_DONE) by apply H. rewrite E. by apply readbody_ends.
Qed.

End Request.

(** a server that calls again after [FCGI_AGAIN] *)
Fixpoint serve (calls fuel : nat) (w : W) (c : fcgi_cli) : outcome (W * fcgi_cli * Z) :=
  match calls with
  | O => OutOfFuel
  | S calls =>
      '(w, c, ret) ← fcgi_cli_readreq alloc_ok fuel w c;
      if ret =? FCGI_AGAIN then serve calls fuel w c else Ret (w, c, ret)
  end.

Lemma serve_spec i P B rest : zlen P <= MAX_PARAMSZ -> zlen B <= MAX_BODYSZ -> forall n d w c,
  (length (incoming w fd) < n)%nat -> (delays w fd < d)%nat -> awaits i P B rest c w ->
  exists k w' c', (forall calls fuel, (k <= calls)%nat -> (k <= fuel)%nat -> serve calls fuel w c = Ret (w', c', FCGI_OK)) /\ received i P B rest c' w'.
Proof.
  intros HP HB. induction n as [|n IHn]; intros d w c Hn; [lia|]. revert w c Hn. induction d as [|d IHd]; intros w c Hn Hd Hw; [lia|].
  destruct (readreq_ends i P B rest HP HB c w Hw) as (k & [[w1 c1] ret] & Hk & [(-> & _ & Hr)|(-> & Hl & Hw1)]).
  - exists (S k), w1, c1. split; [|done]. intros [|calls] fuel Hc Hf; [lia|]. cbn [serve]. by rewrite Hk by lia.
  - assert (Hrec : exists k w' c', (forall calls fuel, (k <= calls)%nat -> (k <= fuel)%nat -> serve calls fuel w1 c1 = Ret (w', c', FCGI_OK)) /\ received i P B rest c' w').
    { destruct Hl as [Hl|[Hi Hl]]; [apply (IHn (S (delays w1 fd))); [lia|lia|done]|apply IHd; [rewrite Hi; lia|lia|done]]. }
    destruct Hrec as (k' & w' & c' & Hk' & Hr). exists (S (Nat.max k k')), w', c'. split; [|done].
    intros [|calls] fuel Hc Hf; [lia|]. cbn [serve]. rewrite Hk by lia. apply Hk'; lia.
Qed.

End Receive.

Lemma buf_init_spec alloc_ok n b : buf_init alloc_ok n = Some b -> 0 <= n < 2 ^ 20 ->
  wf b /\ contents b = [] /\ cap b < n + 8 /\ len b = 0.
Proof.
  unfold buf_init. case_match; [|done]. intros [= <-] Hn. destruct (align_offset_spec n ltac:(lia)) as [Ha Hd].
  split; [|split; [done|split; [cbn; lia|done]]]. constructor; cbn; [lia|zlen_simpl; lia|done|]. apply Forall_replicate. by cbv.
Qed.

(** C8: a request is received whole: however its records are cut into reads
    and however often the connection has to wait, calling [fcgi_cli_readreq]
    until it is done ends with [FCGI_OK], with the identifier of the request
    and exactly the parameters and the body that its records carry; the records of other requests
    between them are skipped, and what follows the request is left. *)
Theorem fcgi_request_received {W} {S0 : Sys W} {L0 : SysLaws W} alloc_ok fd (w : W) c r rs1 rs2 i P B rest :
  (forall n, alloc_ok n = true) -> ~ read_fails (W := W) fd -> fcgi_cli_init alloc_ok fd = Some c ->
  Forall rec_ok (r :: rs1 ++ rs2) -> r_t r = FCGI_BEGIN_REQUEST -> r_id r = i ->
  stream_of i FCGI_PARAMS rs1 P -> stream_of i FCGI_STDIN rs2 B -> zlen P <= MAX_PARAMSZ -> zlen B <= MAX_BODYSZ ->
  incoming w fd = encs (r :: rs1 ++ rs2) ++ rest ->
  exists k w' c', (forall calls fuel, (k <= calls)%nat -> (k <= fuel)%nat -> serve alloc_ok calls fuel w c = Ret (w', c', FCGI_OK)) /\
    id c' = i /\ contents (params c') = P /\ contents (body c') = B /\ exists u, pending c' u /\ u ++ incoming w' fd = rest.
Proof.
  intros Ha Hr Hi Hok Ht Hid Hs1 Hs2 HP HB E. unfold fcgi_cli_init in Hi.
  destruct (buf_init alloc_ok INIT_MBUFSZ) as [b1|] eqn:E1; [|done]. destruct (buf_init alloc_ok INIT_PBUFSZ) as [b2|] eqn:E2; [|done].
  destruct (buf_init alloc_ok INIT_BBUFSZ) as [b3|] eqn:E3; [|done]. injection Hi as <-.
  apply buf_init_spec in E1 as (Hw1 & Hc1 & Hl1 & Hz1), E2 as (Hw2 & Hc2 & Hl2 & Hz2), E3 as (Hw3 & Hc3 & Hl3 & Hz3); [|done..].
  unfold INIT_MBUFSZ, INIT_PBUFSZ, INIT_BBUFSZ in *.
  apply (serve_spec alloc_ok fd Ha Hr i P B rest HP HB (S (length (incoming w fd))) (S (delays w fd))); [lia|lia|].
  left. unfold awaits_begin. cbn [Fcgi.fd param_state params body]. split; [done|]. split; [done|]. split; [done|]. split; [done|].
  split; [split; [done|unfold ROOM; lia]|]. split; [split; [done|unfold ROOM; lia]|]. exists [], r, rs1, rs2. split; [|done].
  split; [done|]. split; [cbn; unfold MAXCAP; lia|]. left. split; [done|]. split; [done|]. unfold fcgi_is_complete_msg. cbn [buf]. by rewrite Hz1.
Qed.

(** ** Name-value pairs *)

(** the length of a name or a value in a pair: one byte, or four with the
    highest bit set *)
Definition enc_len (n : Z) : bytes := if n <? 128 then [n] else be_bytes 4 (n + 2 ^ 31).
Definition enc_pair (kv : bytes * bytes) : bytes := enc_len (zlen kv.1) ++ enc_len (zlen kv.2) ++ kv.1 ++ kv.2.

Definition short (s : bytes) : Prop := zlen s < 128.

(** the pairs that are handed out from [off] on, names and values read through
    the pointers, and the offset where it ends *)
Fixpoint all_pairs (n : nat) (c : fcgi_cli) (off : Z) (out : fcgi_pair) : outcome (list (bytes * bytes) * Z) :=
  match n with
  | O => OutOfFuel
  | S n =>
      '(off, out, ret) ← fcgi_cli_next_param c off out;
      if negb (ret =? FCGI_AGAIN) then Ret ([], off)
      else
        k ← rds (data (params c)) (key out) (keylen out);
        v ← rds (data (params c)) (value out) (valuelen out);
        '(l, off) ← all_pairs n c off out;
        Ret ((k, v) :: l, off)
  end.

Lemma all_pairs_step n c off out : all_pairs (S n) c off out =
  '(off, out, ret) ← fcgi_cli_next_param c off out;
  if negb (ret =? FCGI_AGAIN) then Ret ([], off)
  else
    k ← rds (data (params c)) (key out) (keylen out);
    v ← rds (data (params c)) (value out) (valuelen out);
    '(l, off) ← all_pairs n c off out;
    Ret ((k, v) :: l, off).
Proof. done. Qed.

Lemma get_length_short m ptr nleft n : rd m ptr = Ret n -> 0 <= n < 128 -> 1 <= nleft -> get_length m ptr nleft = Ret (1, ptr + 1, nleft - 1, n).
Proof.
  intros Hm Hn Hl. unfold get_length. rewrite (proj2 (Z.ltb_ge _ _)), Hm by lia. cbn [mbind outcome_mbind].
  assert (E : forallb (fun n => (128 <=? n) || (negb (flag_set (i8 n) 0x80) && (u64 (i8 n) =? n))) (seqZ 0 256) = true) by (by vm_compute).
  pose proof (byte_forall _ E n ltac:(unfold is_byte; lia)) as Hx. cbn beta in Hx. rewrite (proj2 (Z.leb_gt _ _)) in Hx by lia. cbn [orb] in Hx.
  apply andb_prop in Hx as [H1 H2]. zbool. by rewrite H1, H2.
Qed.

(** a length of four bytes, as it is read *)
Definition long_read (n : Z) : Z :=
  Z.lor (Z.lor (Z.lor (shifted ((n + 2 ^ 31) / 2 ^ 24) 24) (shifted (n / 2 ^ 16 mod 256) 16)) (shifted (n / 2 ^ 8 mod 256) 8)) (shifted (n mod 256) 0).

Lemma get_length_long pre n post nleft : 128 <= n < 2 ^ 31 -> 4 <= nleft ->
  get_length (pre ++ enc_len n ++ post) (zlen pre) nleft = Ret (4, zlen pre + 4, nleft - 4, long_read n).
Proof.
  intros Hn Hl. unfold enc_len. rewrite (proj2 (Z.ltb_ge n 128)) by lia.
  assert (Eb : be_bytes 4 (n + 2 ^ 31) = [(n + 2 ^ 31) / 2 ^ 24; n / 2 ^ 16 mod 256; n / 2 ^ 8 mod 256; n mod 256]).
  { cbn [be_bytes]. change (Z.of_nat 3) with 3. change (Z.of_nat 2) with 2. change (Z.of_nat 1) with 1. change (Z.of_nat 0) with 0.
    change (256 ^ 3) with 16777216. change (256 ^ 2) with 65536. change (256 ^ 1) with 256. change (256 ^ 0) with 1.
    change (2 ^ 31) with 2147483648 in *. change (2 ^ 24) with 16777216. change (2 ^ 16) with 65536. change (2 ^ 8) with 256.
    repeat (f_equal; try divmod_lia). }
  rewrite Eb. unfold get_length. rewrite (proj2 (Z.ltb_ge nleft 1)), (proj2 (Z.ltb_ge nleft 4)) by lia.
  assert (Hr : forall j x, [(n + 2 ^ 31) / 2 ^ 24; n / 2 ^ 16 mod 256; n / 2 ^ 8 mod 256; n mod 256] !! Z.to_nat j = Some x -> 0 <= j ->
    rd (pre ++ [(n + 2 ^ 31) / 2 ^ 24; n / 2 ^ 16 mod 256; n / 2 ^ 8 mod 256; n mod 256] ++ post) (zlen pre + j) = Ret x).
  { intros j x Hj H0. rewrite rd_slice; [by apply rd_ret|]. apply lookup_lt_Some in Hj. unfold zlen. lia. }
  rewrite <- (Z.add_0_r (zlen pre)) at 1. rewrite (Hr 0 _ eq_refl), (Hr 1 _ eq_refl), (Hr 2 _ eq_refl), (Hr 3 _ eq_refl) by lia. cbn [mbind outcome_mbind].
  assert (Hf : flag_set (i8 ((n + 2 ^ 31) / 2 ^ 24)) 0x80 = true).
  { assert (128 <= (n + 2 ^ 31) / 2 ^ 24 < 256) by (change (2 ^ 31) with 2147483648 in *; change (2 ^ 24) with 16777216; divmod_lia).
    set (x := _ / _) in *. assert (E : forallb (fun x => (x <? 128) || flag_set (i8 x) 0x80) (seqZ 0 256) = true) by (by vm_compute).
    pose proof (byte_forall _ E x ltac:(unfold is_byte; lia)) as Hx. cbn beta in Hx. rewrite (proj2 (Z.ltb_ge _ _)) in Hx by lia. exact Hx. }
  rewrite Hf. reflexivity.
Qed.

(** a character below 128 is read as it is *)
Lemma shifted_low x n : 0 <= x < 128 -> 0 <= n <= 24 -> shifted x n = x * 2 ^ n.
Proof.
  intros Hx Hn. unfold shifted. rewrite (sw_small 8 x), (uw_small 64 x), Z.shiftl_mul_pow2 by lia.
  pose proof (Z.pow_le_mono_r 2 n 24 ltac:(lia) ltac:(lia)). apply uw_small. nia.
Qed.

(** and one from 128 on is extended with ones *)
Lemma shifted_high x : 128 <= x < 256 -> shifted x 0 = (2 ^ 56 - 1) * 2 ^ 8 + x.
Proof.
  intros Hx. assert (E : forallb (fun x => (x <? 128) || (shifted x 0 =? (2 ^ 56 - 1) * 2 ^ 8 + x)) (seqZ 0 256) = true) by (by vm_compute).
  pose proof (byte_forall _ E x ltac:(unfold is_byte; lia)) as H. cbn beta in H. rewrite (proj2 (Z.ltb_ge _ _)) in H by lia. by apply Z.eqb_eq in H.
Qed.

Lemma lor_all_ones a : 0 <= a < 2 ^ 56 -> Z.lor a (2 ^ 56 - 1) = 2 ^ 56 - 1.
Proof.
  intros Ha. change (2 ^ 56 - 1) with (Z.ones 56). destruct (Z.eq_dec a 0) as [->|]; [done|]. apply Z.lor_ones_low; [lia|]. apply Z.log2_lt_pow2; lia.
Qed.

Lemma shifted_bounds x n : 0 <= shifted x n < 2 ^ 64.
Proof. apply (uw_range 64). lia. Qed.

Lemma lor_bounds a b n : 0 <= n -> 0 <= a < 2 ^ n -> 0 <= b < 2 ^ n -> 0 <= Z.lor a b < 2 ^ n.
Proof. intros Hn Ha Hb. rewrite <- (Z.mod_small a (2 ^ n)), <- (Z.mod_small b (2 ^ n)), <- !Z.land_ones, <- Z.land_lor_distr_l, Z.land_ones by lia. apply Z.mod_pos_bound. lia. Qed.

Lemma lor_grows a b : 0 <= a -> 0 <= b -> a <= Z.lor a b.
Proof.
  intros Ha Hb. assert (E : Z.ldiff a (Z.lor a b) = 0) by (apply Z.bits_inj'; intros i _; rewrite Z.ldiff_spec, Z.lor_spec, Z.bits_0; by destruct (Z.testbit a i), (Z.testbit b i)).
  pose proof (Z.sub_nocarry_ldiff (Z.lor a b) a E). assert (0 <= Z.ldiff (Z.lor a b) a) by (apply Z.ldiff_nonneg; left; apply Z.lor_nonneg; lia). lia.
Qed.

(** the first byte alone makes the length that is read almost [2 ^ 64] *)
Lemma long_read_bounds n : 128 <= n < 2 ^ 31 -> 2 ^ 64 - 2 ^ 31 <= long_read n < 2 ^ 64.
Proof.
  intros Hn. assert (Hb : 128 <= (n + 2 ^ 31) / 2 ^ 24 < 256) by (change (2 ^ 31) with 2147483648 in *; change (2 ^ 24) with 16777216; divmod_lia).
  set (b := (n + 2 ^ 31) / 2 ^ 24) in *.
  assert (Hx : 2 ^ 64 - 2 ^ 31 <= shifted b 24).
  { assert (E : forallb (fun x => (x <? 128) || (2 ^ 64 - 2 ^ 31 <=? shifted x 24)) (seqZ 0 256) = true) by (by vm_compute).
    pose proof (byte_forall _ E b ltac:(unfold is_byte; lia)) as Hx. cbn beta in Hx. rewrite (proj2 (Z.ltb_ge _ _)) in Hx by lia. by apply Z.leb_le in Hx. }
  unfold long_read. fold b. clearbody b.
  pose proof (shifted_bounds b 24). pose proof (shifted_bounds (n / 2 ^ 16 mod 256) 16).
  pose proof (shifted_bounds (n / 2 ^ 8 mod 256) 8). pose proof (shifted_bounds (n mod 256) 0).
  split; [|repeat apply lor_bounds; lia].
  etrans; [exact Hx|]. rewrite <- !Z.lor_assoc. apply lor_grows; [lia|]. rewrite !Z.lor_nonneg. lia.
Qed.

(** the value that is read is never the length that was meant *)
Lemma long_read_spec n : 128 <= n < 2 ^ 15 ->
  long_read n = if n mod 256 <? 128 then 2 ^ 64 - 2 ^ 31 + n else 2 ^ 64 - 256 + n mod 256.
Proof.
  intros Hn. unfold long_read. pose proof (Z.div_mod n 256 ltac:(lia)) as Hd. pose proof (Z.mod_pos_bound n 256 ltac:(lia)) as Hl.
  assert (0 <= n / 256 < 128) as Hh by (split; [apply Z.div_pos; lia|apply Z.div_lt_upper_bound; lia]).
  rewrite <- (Z.div_unique (n + 2 ^ 31) (2 ^ 24) 128 n), (Z.div_small n (2 ^ 16)) by lia. change (0 mod 256) with 0.
  change (shifted 128 24) with ((2 ^ 33 - 1) * 2 ^ 31). change (shifted 0 16) with 0. change (2 ^ 8) with 256. rewrite Z.lor_0_r, (Z.mod_small (n / 256)) by lia.
  set (h := n / 256) in *. set (l := n mod 256) in *. clearbody h l. subst n.
  rewrite (shifted_low h 8), lor_field by lia.
  replace ((2 ^ 33 - 1) * 2 ^ 31 + h * 2 ^ 8) with (((2 ^ 33 - 1) * 2 ^ 23 + h) * 2 ^ 8) by lia.
  destruct (Z.ltb_spec l 128); [rewrite shifted_low, Z.mul_1_r, lor_field by lia; lia|].
  rewrite shifted_high by lia. rewrite <- (lor_field 8 l (2 ^ 56 - 1)), Z.lor_assoc by lia. rewrite <- !(Z.shiftl_mul_pow2 _ 8), <- Z.shiftl_lor by lia.
  rewrite lor_all_ones, Z.shiftl_mul_pow2, lor_field by lia. lia.
Qed.

Section Pairs.
Context (c : fcgi_cli) (Hwf : wf (params c)).

Lemma params_data x : contents (params c) = x -> data (params c) = x ++ drop (Z.to_nat (len (params c))) (data (params c)) /\ len (params c) = zlen x.
Proof. intros E. split; [by rewrite <- E, <- data_contents|]. by rewrite <- E, contents_length. Qed.

Lemma rds_part (a b post : bytes) : rds (a ++ b ++ post) (zlen a) (zlen b) = Ret b.
Proof.
  pose proof (zlen_nonneg a). pose proof (zlen_nonneg b). pose proof (zlen_nonneg post). rewrite rds_in by (zlen_simpl; lia).
  unfold zlen. by rewrite !Nat2Z.id, drop_app_length, take_app_length.
Qed.

(** the two lengths, then the test on what is left *)
Lemma next_param_lengths pre kl vl post out l0 l1 keylen valuelen n :
  contents (params c) = pre ++ kl ++ vl ++ post -> n = zlen (kl ++ vl ++ post) -> 0 < n ->
  get_length (pre ++ kl ++ (vl ++ post) ++ drop (Z.to_nat (len (params c))) (data (params c))) (zlen pre) n = Ret (l0, zlen pre + zlen kl, n - zlen kl, keylen) ->
  get_length ((pre ++ kl) ++ vl ++ post ++ drop (Z.to_nat (len (params c))) (data (params c))) (zlen (pre ++ kl)) (n - zlen kl) =
    Ret (l1, zlen (pre ++ kl) + zlen vl, n - zlen kl - zlen vl, valuelen) -> 0 <= l0 -> 0 <= l1 ->
  fcgi_cli_next_param c (zlen pre) out =
    if zlen post <? u64 (keylen + valuelen) then Ret (zlen pre, out, FCGI_OK)
    else Ret (u64 (zlen pre + u64 (l0 + l1 + keylen + valuelen)), Pair keylen valuelen (zlen (pre ++ kl ++ vl)) (i64 (zlen (pre ++ kl ++ vl) + keylen)), FCGI_AGAIN).
Proof.
  intros Hc -> Hn H0 H1 Hl0 Hl1. destruct (params_data _ Hc) as [Ed El]. unfold fcgi_cli_next_param. rewrite (proj2 (Z.leb_gt _ _)) by (rewrite El, zlen_app; lia).
  rewrite Ed, El. replace (zlen (pre ++ kl ++ vl ++ post) - zlen pre) with (zlen (kl ++ vl ++ post)) by (rewrite (zlen_app pre); lia).
  rewrite El in H0, H1. rewrite <- !app_assoc in *. rewrite H0. cbn [mbind outcome_mbind]. rewrite (proj2 (Z.ltb_ge l0 0)) by lia.
  rewrite (zlen_app pre kl) in H1. rewrite H1. cbn [mbind outcome_mbind]. rewrite (proj2 (Z.ltb_ge l1 0)) by lia.
  replace (zlen (kl ++ vl ++ post) - zlen kl - zlen vl) with (zlen post) by (rewrite !zlen_app; lia).
  replace (zlen pre + zlen kl + zlen vl) with (zlen (pre ++ kl ++ vl)) by (rewrite !zlen_app; lia). done.
Qed.

Lemma next_param_short pre k v post out : contents (params c) = pre ++ enc_pair (k, v) ++ post -> len (params c) < 2 ^ 62 -> short k -> short v ->
  fcgi_cli_next_param c (zlen pre) out =
    Ret (zlen (pre ++ enc_pair (k, v)), Pair (zlen k) (zlen v) (zlen pre + 2) (zlen pre + 2 + zlen k), FCGI_AGAIN).
Proof.
  intros Hc Hlen Hk Hv. unfold short in *. unfold enc_pair, enc_len in *. cbn [fst snd] in *. rewrite (proj2 (Z.ltb_lt (zlen k) 128)), (proj2 (Z.ltb_lt (zlen v) 128)) in * by done.
  pose proof (zlen_nonneg k). pose proof (zlen_nonneg v). pose proof (zlen_nonneg pre). pose proof (zlen_nonneg post).
  destruct (params_data _ Hc) as [_ El]. rewrite El in Hlen. rewrite <- !app_assoc in *.
  rewrite (next_param_lengths pre [zlen k] [zlen v] (k ++ v ++ post) out 1 1 (zlen k) (zlen v) (zlen ([zlen k] ++ [zlen v] ++ k ++ v ++ post)) Hc eq_refl); zlen_simpl; try lia.
  - rewrite uw_small by lia. rewrite (proj2 (Z.ltb_ge _ _)) by lia. rewrite (uw_small 64 (1 + 1 + zlen k + zlen v)) by lia. rewrite uw_small by lia.
    rewrite (sw_small 64) by lia. do 3 f_equal; lia.
  - cbn [app]. rewrite (get_length_short _ _ _ (zlen k)); [do 3 f_equal; lia|apply rd_mid|lia|lia].
  - cbn [app]. rewrite (get_length_short _ _ _ (zlen v)); [do 3 f_equal; lia| |lia|lia]. apply rd_mid'. zlen_simpl. lia.
Qed.

(** C39: names and values of less than 128 bytes come out as they went in: the
    iteration hands out every pair of the parameters, in order, and then ends
    at the end of the buffer. *)
Theorem fcgi_params_roundtrip kvs out : contents (params c) = concat (enc_pair <$> kvs) -> len (params c) < 2 ^ 62 ->
  Forall (fun kv => short kv.1 /\ short kv.2) kvs ->
  all_pairs (S (length kvs)) c 0 out = Ret (kvs, len (params c)).
Proof.
  intros Hc Hlen Hs. cut (forall pre, contents (params c) = pre ++ concat (enc_pair <$> kvs) -> forall out, all_pairs (S (length kvs)) c (zlen pre) out = Ret (kvs, len (params c))).
  { intros H. by apply (H []). }
  clear Hc. induction Hs as [|[k v] kvs [Hk Hv] _ IH]; intros pre Hc out'; destruct (params_data _ Hc) as [Ed El].
  - cbn [fmap list_fmap concat] in *. rewrite app_nil_r in *. cbn [all_pairs length]. unfold fcgi_cli_next_param. rewrite El, (proj2 (Z.leb_le _ _)) by lia. done.
  - cbn [fmap list_fmap concat] in Hc, Ed. cbn [length]. rewrite all_pairs_step, (next_param_short pre k v _ out' Hc Hlen Hk Hv). cbn [mbind outcome_mbind Z.eqb FCGI_AGAIN negb key keylen value valuelen].
    pose proof (zlen_nonneg pre). pose proof (zlen_nonneg k). pose proof (zlen_nonneg v).
    assert (Epair : enc_pair (k, v) = [zlen k; zlen v] ++ k ++ v).
    { unfold short in *. cbn [fst snd] in *. unfold enc_pair, enc_len. cbn [fst snd]. by rewrite !(proj2 (Z.ltb_lt _ 128)) by done. }
    set (post := concat (list_fmap _ _ enc_pair kvs)) in *. set (junk := drop _ (data (params c))) in *.
    assert (Ek : rds (data (params c)) (zlen pre + 2) (zlen k) = Ret k).
    { rewrite Ed, Epair, <- !app_assoc. replace (zlen pre + 2) with (zlen (pre ++ [zlen k; zlen v])) by (zlen_simpl; lia). rewrite (app_assoc pre). apply rds_part. }
    assert (Ev : rds (data (params c)) (zlen pre + 2 + zlen k) (zlen v) = Ret v).
    { rewrite Ed, Epair, <- !app_assoc. replace (zlen pre + 2 + zlen k) with (zlen (pre ++ [zlen k; zlen v] ++ k)) by (zlen_simpl; lia).
      rewrite (app_assoc [_; _] k), (app_assoc pre). apply rds_part. }
    cbn [fst snd] in *. rewrite Ek, Ev. cbn [mbind outcome_mbind].
    rewrite (IH (pre ++ enc_pair (k, v))); [done|]. by rewrite <- app_assoc.
Qed.

(** how a pair ends whose value is long, and short enough to have its last two
    bytes in the low half *)
Lemma next_param_misread pre k v post out : contents (params c) = pre ++ enc_pair (k, v) ++ post -> len (params c) < 2 ^ 62 ->
  short k -> 128 <= zlen v < 2 ^ 15 ->
  fcgi_cli_next_param c (zlen pre) out =
    let lo := zlen v mod 256 in
    if (128 <=? lo) && (256 - lo <=? zlen k)
    then Ret (zlen pre + 5 + zlen k + lo - 256, Pair (zlen k) (2 ^ 64 - 256 + lo) (zlen pre + 5) (zlen pre + 5 + zlen k), FCGI_AGAIN)
    else Ret (zlen pre, out, FCGI_OK).
Proof.
  intros Hc Hlen Hk Hv. unfold short in *. destruct (params_data _ Hc) as [_ El]. rewrite El in Hlen. unfold enc_pair in *. cbn [fst snd] in *.
  assert (Ek : enc_len (zlen k) = [zlen k]) by (unfold enc_len; by rewrite (proj2 (Z.ltb_lt _ 128))). rewrite Ek in *.
  assert (Evl : zlen (enc_len (zlen v)) = 4) by (unfold enc_len; rewrite (proj2 (Z.ltb_ge _ 128)) by lia; apply zlen_be_bytes).
  pose proof (zlen_nonneg k). pose proof (zlen_nonneg v). pose proof (zlen_nonneg pre). pose proof (zlen_nonneg post). rewrite <- !app_assoc in *.
  pose proof (long_read_spec (zlen v) Hv) as Hr. pose proof (Z.mod_pos_bound (zlen v) 256 ltac:(lia)) as Hlo.
  rewrite (next_param_lengths pre [zlen k] (enc_len (zlen v)) (k ++ v ++ post) out 1 4 (zlen k) (long_read (zlen v)) (zlen ([zlen k] ++ enc_len (zlen v) ++ k ++ v ++ post)) Hc eq_refl); [|zlen_simpl; lia| | |lia|lia].
  - cbv zeta. zlen_simpl. rewrite Evl, Hr. set (lo := zlen v mod 256) in *. destruct (Z.ltb_spec lo 128); [rewrite (proj2 (Z.leb_gt 128 lo)) by lia|rewrite (proj2 (Z.leb_le 128 lo)) by lia]; cbn [andb].
    + rewrite uw_small by lia. by rewrite (proj2 (Z.ltb_lt _ _)) by lia.
    + destruct (Z.leb_spec (256 - lo) (zlen k)).
      * assert (E1 : u64 (zlen k + (2 ^ 64 - 256 + lo)) = zlen k + lo - 256) by (unfold uw; symmetry; apply (Z.mod_unique _ _ 1); lia).
        rewrite E1, (proj2 (Z.ltb_ge _ _)) by lia.
        assert (E2 : u64 (1 + 4 + zlen k + (2 ^ 64 - 256 + lo)) = 5 + zlen k + lo - 256) by (unfold uw; symmetry; apply (Z.mod_unique _ _ 1); lia).
        rewrite E2, uw_small by lia. rewrite (sw_small 64) by lia. repeat f_equal; lia.
      * rewrite uw_small by lia. by rewrite (proj2 (Z.ltb_lt _ _)) by lia.
  - cbn [app]. rewrite (get_length_short _ _ _ (zlen k)); [zlen_simpl; do 3 f_equal; lia|apply rd_mid|lia|zlen_simpl; lia].
  - rewrite get_length_long by (lia || (zlen_simpl; lia)). rewrite Evl. done.
Qed.

Lemma enc_len_pos n : 1 <= zlen (enc_len n) <= 4.
Proof. unfold enc_len. case_match; [done|]. rewrite zlen_be_bytes. lia. Qed.

Lemma rds_behind {A} (l : list A) i n : zlen l < n -> rds l i n = OutOfBounds.
Proof. intros H. unfold rds. case_match eqn:E; [|done]. zbool. pose proof (zlen_nonneg l). lia. Qed.

(** the number that a length is read as *)
Definition length_read (n : Z) : Z := if n <? 128 then n else long_read n.

Lemma get_length_enc pre n post nleft : 0 <= n < 2 ^ 31 -> 4 <= nleft ->
  get_length (pre ++ enc_len n ++ post) (zlen pre) nleft = Ret (zlen (enc_len n), zlen pre + zlen (enc_len n), nleft - zlen (enc_len n), length_read n).
Proof.
  intros Hn Hl. unfold length_read. destruct (Z.ltb_spec n 128).
  - unfold enc_len. rewrite (proj2 (Z.ltb_lt _ _)) by lia. rewrite (get_length_short _ _ _ n); [done|apply rd_mid|lia|lia].
  - rewrite get_length_long by lia. unfold enc_len. by rewrite (proj2 (Z.ltb_ge _ _)) by lia.
Qed.

(** C40: no value of 128 bytes or more is ever given, whatever the name is.
    Its length takes four bytes, which are shifted as signed characters and
    keep the marker bit, so the number that is read is at least
    [2 ^ 64 - 2 ^ 31].  Either the iteration ends there as if there were no
    more pairs, or the sum of the lengths wraps around and a pair is handed
    out whose value reaches behind the buffer.  A short name with a value
    below [2 ^ 15] shows which of the two: it depends on the last byte of the
    length. *)
Theorem fcgi_long_value_misread pre k v post out : contents (params c) = pre ++ enc_pair (k, v) ++ post -> cap (params c) < 2 ^ 62 ->
  zlen k < 2 ^ 31 -> 128 <= zlen v < 2 ^ 31 ->
  (fcgi_cli_next_param c (zlen pre) out = Ret (zlen pre, out, FCGI_OK) \/
   exists off p, fcgi_cli_next_param c (zlen pre) out = Ret (off, p, FCGI_AGAIN) /\
     2 ^ 64 - 2 ^ 31 <= valuelen p < 2 ^ 64 /\ rds (data (params c)) (value p) (valuelen p) = OutOfBounds) /\
  (short k -> zlen v < 2 ^ 15 ->
   fcgi_cli_next_param c (zlen pre) out =
    let lo := zlen v mod 256 in
    if (128 <=? lo) && (256 - lo <=? zlen k)
    then Ret (zlen pre + 5 + zlen k + lo - 256, Pair (zlen k) (2 ^ 64 - 256 + lo) (zlen pre + 5) (zlen pre + 5 + zlen k), FCGI_AGAIN)
    else Ret (zlen pre, out, FCGI_OK)).
Proof.
  intros Hc Hcap Hk Hv. pose proof (wf_len _ Hwf) as Hlen. pose proof (wf_data _ Hwf) as Hdata. split; [|intros; apply (next_param_misread pre k v post); auto with lia].
  pose proof (zlen_nonneg k). pose proof (zlen_nonneg post). unfold enc_pair in Hc. cbn [fst snd] in Hc. rewrite <- !app_assoc in Hc.
  rewrite (next_param_lengths pre (enc_len (zlen k)) (enc_len (zlen v)) (k ++ v ++ post) out (zlen (enc_len (zlen k))) (zlen (enc_len (zlen v)))
    (length_read (zlen k)) (length_read (zlen v)) _ Hc eq_refl).
  2-6: pose proof (enc_len_pos (zlen k)); pose proof (enc_len_pos (zlen v)).
  2: by zlen_simpl; lia.
  2: by rewrite <- !app_assoc; apply get_length_enc; [lia|zlen_simpl; lia].
  2: by apply get_length_enc; [lia|zlen_simpl; lia].
  2-3: lia.
  case_match; [by left|right]. eexists _, _. split; [reflexivity|]. cbn [valuelen value].
  assert (Hr : 2 ^ 64 - 2 ^ 31 <= length_read (zlen v) < 2 ^ 64) by (unfold length_read; rewrite (proj2 (Z.ltb_ge _ _)) by lia; apply long_read_bounds; lia).
  split; [done|]. apply rds_behind. lia.
Qed.

End Pairs.

(** ** On concrete requests *)

Definition rec_of (t i : Z) (s : bytes) (pad : nat) : rec := Rec 1 t (i mod 256) (i / 256) 0 s (replicate pad 0).

Definition hello : bytes := concat (enc_pair <$> [(lit "REQUEST_URI", lit "/cgi"); (lit "X", [])]).
Definition begin_rec : rec := rec_of FCGI_BEGIN_REQUEST 258 [0; 1; 0; 0; 0; 0; 0; 0] 0.
Definition param_recs : list rec :=
  [rec_of FCGI_PARAMS 258 (take 7 hello) 1; rec_of FCGI_STDIN 9 (lit "other") 3; rec_of FCGI_PARAMS 258 (drop 7 hello) 0; rec_of FCGI_PARAMS 258 [] 0].
Definition stdin_recs : list rec := [rec_of FCGI_STDIN 258 (lit "body") 4; rec_of FCGI_STDIN 258 [] 0].

Definition demo_conn : demo := Demo [5; 0; 1; 0; 30; 3]%nat (encs (begin_rec :: param_recs ++ stdin_recs) ++ lit "next") [].

Definition demo_cli : fcgi_cli :=
  match fcgi_cli_init (fun _ => true) 3 with Some c => c | None => Cli 0 (Buf 0 0 []) (Buf 0 0 []) (Buf 0 0 []) 0 0 0 0 end.

Lemma recs_ok : Forall rec_ok (begin_rec :: param_recs ++ stdin_recs).
Proof. repeat constructor; by vm_compute. Qed.

Lemma fcgi_request_received_witness : exists k w' c',
  (forall calls fuel, (k <= calls)%nat -> (k <= fuel)%nat -> serve (fun _ => true) calls fuel demo_conn demo_cli = Ret (w', c', FCGI_OK)) /\
  id c' = 258 /\ contents (params c') = hello /\ contents (body c') = lit "body" /\ exists u, pending c' u /\ u ++ incoming w' 3 = lit "next".
Proof.
  apply (fcgi_request_received (fun _ => true) 3 demo_conn demo_cli begin_rec param_recs stdin_recs 258 hello (lit "body") (lit "next"));
    [done|apply demo_no_failure|reflexivity|apply recs_ok|done|done| | |done|done|by vm_compute].
  - assert (E : hello = r_content (rec_of FCGI_PARAMS 258 (take 7 hello) 1) ++ r_content (rec_of FCGI_PARAMS 258 (drop 7 hello) 0) ++ []) by (by vm_compute).
    rewrite E. apply stream_more; [done|done|done|]. apply stream_foreign; [done|]. apply stream_more; [done|done|done|]. by apply stream_end.
  - apply (stream_more _ _ (rec_of FCGI_STDIN 258 (lit "body") 4) _ []); [done|done|done|]. by apply stream_end.
Defined.

Definition small_params : fcgi_cli :=
  Cli 258 (Buf 0 0 []) (Buf 8 7 [1; 1; 97; 98; 1; 0; 99; 0]) (Buf 0 0 []) RSTATE_INCOMPLETE PSTATE_DONE 0 3.

Lemma small_params_wf : wf (params small_params).
Proof. constructor; cbn; [lia|done|by exists 1|repeat constructor; by cbv]. Qed.

Lemma fcgi_params_roundtrip_witness : all_pairs 3 small_params 0 (Pair 0 0 0 0) = Ret ([(lit "a", lit "b"); (lit "c", [])], len (params small_params)).
Proof. apply (fcgi_params_roundtrip small_params small_params_wf [(lit "a", lit "b"); (lit "c", [])]); [done|done|by repeat constructor]. Defined.

(** a path of 250 bytes *)
Definition long_uri : bytes := 47 :: replicate 249 97.
Definition long_params : bytes := enc_pair (lit "REQUEST_URI", long_uri).
Definition long_cli : fcgi_cli :=
  Cli 258 (Buf 0 0 []) (Buf 272 (zlen long_params) (long_params ++ replicate 6 0)) (Buf 0 0 []) RSTATE_INCOMPLETE PSTATE_DONE 0 3.

Lemma long_cli_wf : wf (params long_cli).
Proof.
  constructor; [by vm_compute|by vm_compute|by exists 34|]. apply Forall_forall. intros x Hx. vm_compute in Hx.
  repeat (apply elem_of_cons in Hx as [->|Hx]; [by cbv|]). by apply not_elem_of_nil in Hx.
Qed.

Lemma fcgi_long_value_misread_witness :
  (fcgi_cli_next_param long_cli 0 (Pair 0 0 0 0) = Ret (0, Pair 0 0 0 0, FCGI_OK) \/
   exists off p, fcgi_cli_next_param long_cli 0 (Pair 0 0 0 0) = Ret (off, p, FCGI_AGAIN) /\
     2 ^ 64 - 2 ^ 31 <= valuelen p < 2 ^ 64 /\ rds (data (params long_cli)) (value p) (valuelen p) = OutOfBounds) /\
  fcgi_cli_next_param long_cli 0 (Pair 0 0 0 0) = Ret (10, Pair 11 (2 ^ 64 - 6) 5 16, FCGI_AGAIN).
Proof.
  destruct (fcgi_long_value_misread long_cli long_cli_wf [] (lit "REQUEST_URI") long_uri [] (Pair 0 0 0 0)) as [H1 H2]; [by vm_compute..|].
  split; [exact H1|apply H2; by vm_compute].
Defined.
