(* ===== verification/Ycl.v ===== *)
(** * Messages on a connection (src/lib/ycl/ycl.c)

    A message is a netstring that is collected from a connection in a buffer;
    what follows it in the buffer is kept for the next one.  The theorem shows
    that the messages a peer has sent are received one by one and complete,
    however the stream is cut up and delayed. *)

From S2P Require Import Prelude Buf Netstring NetstringMap Io.

Definition YCL_AGAIN : Z := 1.
Definition YCL_OK : Z := 0.
Definition YCL_ERR : Z := -1.
Definition YCL_NOFD : Z := -1.

Definition DFL_MAXMSGSZ : Z := 1024 * 1024.
Definition BUFINITSZ : Z := 8192.
Definition YCLF_INTERNALFD : Z := 1.
Definition YCLMSGF_HASOPTBUF : Z := 1.

(** without the text of the last error *)
Record ycl_ctx : Type := Ctx {
  fd : Z;
  flags : Z;
  max_msgsz : Z;
}.

Record ycl_msg : Type := Msg {
  buf : buf_t;
  mbuf : buf_t;
  optbuf : buf_t;
  sendoff : Z;
  nextoff : Z;
  mflags : Z;
}.

Definition set_buf (m : ycl_msg) (b : buf_t) : ycl_msg := Msg b (mbuf m) (optbuf m) (sendoff m) (nextoff m) (mflags m).
Definition set_mbuf (m : ycl_msg) (b : buf_t) : ycl_msg := Msg (buf m) b (optbuf m) (sendoff m) (nextoff m) (mflags m).
Definition set_optbuf (m : ycl_msg) (b : buf_t) : ycl_msg := Msg (buf m) (mbuf m) b (sendoff m) (nextoff m) (mflags m).
Definition set_sendoff (m : ycl_msg) (x : Z) : ycl_msg := Msg (buf m) (mbuf m) (optbuf m) x (nextoff m) (mflags m).
Definition set_nextoff (m : ycl_msg) (x : Z) : ycl_msg := Msg (buf m) (mbuf m) (optbuf m) (sendoff m) x (mflags m).

Definition ycl_init (fd : Z) : ycl_ctx := Ctx fd 0 DFL_MAXMSGSZ.

Section Operations.
Context {W : Type} `{Sys W} (alloc_ok : Z -> bool).

(** the context is set on success only *)
Definition ycl_connect (w : W) (ycl : ycl_ctx) (dst : option bytes) : W * ycl_ctx * Z :=
  match io_connect_unix w dst with
  | (w, None) => (w, ycl, YCL_ERR)
  | (w, Some f) => let ycl := ycl_init f in (w, Ctx (fd ycl) (Z.lor (flags ycl) YCLF_INTERNALFD) (max_msgsz ycl), YCL_OK)
  end.

Definition ycl_close (w : W) (ycl : ycl_ctx) : W * ycl_ctx * Z :=
  if flag_set (flags ycl) YCLF_INTERNALFD && (0 <=? fd ycl) then
    let '(w, ok) := close w (fd ycl) in
    if negb ok then (w, Ctx 0 0 (max_msgsz ycl), YCL_ERR)
    else (w, Ctx (-1) 0 (max_msgsz ycl), YCL_OK)
  else (w, Ctx (-1) 0 (max_msgsz ycl), YCL_OK).

Definition ycl_setnonblock (w : W) (ycl : ycl_ctx) (status : Z) : W * Z :=
  let '(w, ret) := io_setnonblock w (fd ycl) status in (w, if ret <? 0 then YCL_ERR else YCL_OK).

Definition ycl_msg_reset (msg : ycl_msg) : ycl_msg :=
  Msg (buf_clear (buf msg)) (buf_clear (mbuf msg))
    (if flag_set (mflags msg) YCLMSGF_HASOPTBUF then buf_clear (optbuf msg) else optbuf msg) 0 0 (mflags msg).

(** the loop of [ycl_sendmsg]: [left] bytes from [sendoff] on *)
Fixpoint send_loop (fuel : nat) (w : W) (ycl : ycl_ctx) (msg : ycl_msg) (left : Z) : outcome (W * ycl_msg * Z) :=
  match fuel with
  | O => OutOfFuel
  | S fuel =>
      if 0 <? left then
        bs ← rds (data (buf msg)) (sendoff msg) left;
        let '(w, ret) := write w (fd ycl) bs in
        match ret with
        | inr e => Ret (w, msg, if (e =? EINTR) || (e =? EWOULDBLOCK) || (e =? EAGAIN) then YCL_AGAIN else YCL_ERR)
        | inl n => send_loop fuel w ycl (set_sendoff msg (sendoff msg + n)) (left - n)
        end
      else Ret (w, ycl_msg_reset msg, YCL_OK)
  end.

Definition ycl_sendmsg (fuel : nat) (w : W) (ycl : ycl_ctx) (msg : ycl_msg) : outcome (W * ycl_msg * Z) :=
  send_loop fuel w ycl msg (u64 (len (buf msg) - sendoff msg)).

(** [netstring_tryparse] of the buffer into [nextoff] *)
Definition tryparse (msg : ycl_msg) : outcome (ycl_msg * Z) :=
  '(ret, next) ← netstring_tryparse (data (buf msg)) 0 (len (buf msg));
  Ret (match next with Some n => set_nextoff msg n | None => msg end, ret).

Definition check_msg (msg : ycl_msg) : outcome (ycl_msg * Z) :=
  if 0 <? nextoff msg then
    let b := buf msg in
    if nextoff msg <? len b then
      src ← rds (data b) (nextoff msg) (len b - nextoff msg);
      d ← wrs (data b) 0 src;
      '(msg, ret) ← tryparse (set_buf msg (Buf (cap b) (len b - nextoff msg) d));
      if negb (ret =? NETSTRING_ERRINCOMPLETE) then Ret (msg, ret) else Ret (set_nextoff msg 0, ret)
    else Ret (set_nextoff (set_buf msg (buf_clear b)) 0, NETSTRING_ERRINCOMPLETE)
  else Ret (set_nextoff msg 0, NETSTRING_ERRINCOMPLETE).

(** the condition of the loops: the message and whether to go on; otherwise
    the result of the parser *)
Definition incomplete (msg : ycl_msg) : outcome (ycl_msg * option Z) :=
  if len (buf msg) =? 0 then Ret (msg, None)
  else
    '(msg, ret) ← tryparse msg;
    Ret (msg, if ret =? NETSTRING_ERRINCOMPLETE then None else Some ret).

Fixpoint recv_loop (fuel : nat) (w : W) (ycl : ycl_ctx) (msg : ycl_msg) : outcome (W * ycl_msg * Z) :=
  match fuel with
  | O => OutOfFuel
  | S fuel' =>
      '(msg, done) ← incomplete msg;
      match done with
      | Some ret => Ret (w, msg, if negb (ret =? NETSTRING_OK) then YCL_ERR else YCL_OK)
      | None =>
          '(w, b, ret, nread) ← io_readbuf alloc_ok fuel w (fd ycl) (buf msg);
          let msg := set_buf msg b in
          if ret =? IO_AGAIN then Ret (w, msg, YCL_AGAIN)
          else if negb (ret =? IO_OK) then Ret (w, msg, YCL_ERR)
          else if default 0 nread =? 0 then Ret (w, msg, YCL_ERR)
          else if max_msgsz ycl <=? len (buf msg) then Ret (w, msg, YCL_ERR)
          else recv_loop fuel' w ycl msg
      end
  end.

Definition ycl_recvmsg (fuel : nat) (w : W) (ycl : ycl_ctx) (msg : ycl_msg) : outcome (W * ycl_msg * Z) :=
  '(msg, ret) ← check_msg msg;
  if ret =? NETSTRING_OK then Ret (w, msg, YCL_OK)
  else if negb (ret =? NETSTRING_ERRINCOMPLETE) then Ret (w, msg, YCL_ERR)
  else recv_loop fuel w ycl msg.

(** a file is read 4096 bytes at a time; the result of [buf_adata] is not
    looked at *)
Fixpoint read_loop (fuel : nat) (fread : W -> Z -> W * bytes) (w : W) (ycl : ycl_ctx) (msg : ycl_msg) : outcome (W * ycl_msg * Z) :=
  match fuel with
  | O => OutOfFuel
  | S fuel =>
      '(msg, done) ← incomplete msg;
      match done with
      | Some ret => Ret (w, msg, if negb (ret =? NETSTRING_OK) then YCL_ERR else YCL_OK)
      | None =>
          let '(w, readbuf) := fread w 4096 in
          if zlen readbuf =? 0 then Ret (w, msg, YCL_ERR)
          else if max_msgsz ycl <=? len (buf msg) then Ret (w, msg, YCL_ERR)
          else
            '(b, _) ← buf_adata alloc_ok (buf msg) readbuf;
            read_loop fuel fread w ycl (set_buf msg b)
      end
  end.

Definition ycl_readmsg (fuel : nat) (fread : W -> Z -> W * bytes) (w : W) (ycl : ycl_ctx) (msg : ycl_msg) : outcome (W * ycl_msg * Z) :=
  '(msg, ret) ← check_msg msg;
  if ret =? NETSTRING_OK then Ret (w, msg, YCL_OK)
  else if negb (ret =? NETSTRING_ERRINCOMPLETE) then Ret (w, msg, YCL_ERR)
  else read_loop fuel fread w ycl msg.

(** status and [*fd], set on success only *)
Definition ycl_recvfd (fuel : nat) (w : W) (ycl : ycl_ctx) : outcome (W * Z * option Z) :=
  '(w, ret, out) ← io_recvfd fuel w (fd ycl);
  Ret (w, if ret =? IO_AGAIN then YCL_AGAIN else if negb (ret =? IO_OK) then YCL_ERR else YCL_OK, out).

Definition ycl_sendfd (fuel : nat) (w : W) (ycl : ycl_ctx) (f err : Z) : outcome (W * Z) :=
  '(w, ret) ← io_sendfd fuel w (fd ycl) f err;
  Ret (w, if ret =? IO_AGAIN then YCL_AGAIN else if negb (ret =? IO_OK) then YCL_ERR else YCL_OK).

(** [optbuf] is not initialised *)
Definition ycl_msg_init : option ycl_msg :=
  match buf_init alloc_ok BUFINITSZ with
  | None => None
  | Some b =>
      match buf_init alloc_ok BUFINITSZ with
      | None => None
      | Some mb => Some (Msg b mb (Buf 0 0 []) 0 0 0)
      end
  end.

Definition ycl_msg_set (msg : ycl_msg) (bs : bytes) : outcome (ycl_msg * Z) :=
  let msg := ycl_msg_reset msg in
  '(b, ret) ← buf_adata alloc_ok (buf msg) bs;
  Ret (set_buf msg b, if ret <? 0 then YCL_ERR else YCL_OK).

Definition ycl_msg_use_optbuf (msg : ycl_msg) : ycl_msg * Z :=
  if negb (flag_set (mflags msg) YCLMSGF_HASOPTBUF) then
    match buf_init alloc_ok BUFINITSZ with
    | None => (msg, YCL_ERR)
    | Some b => (Msg (buf msg) (mbuf msg) b (sendoff msg) (nextoff msg) (Z.lor (mflags msg) YCLMSGF_HASOPTBUF), YCL_OK)
    end
  else (msg, YCL_OK).

Definition ycl_msg_cleanup (msg : ycl_msg) : ycl_msg :=
  Msg (buf_cleanup (buf msg)) (buf_cleanup (mbuf msg))
    (if flag_set (mflags msg) YCLMSGF_HASOPTBUF then buf_cleanup (optbuf msg) else optbuf msg) (sendoff msg) (nextoff msg) (mflags msg).

End Operations.

(** ** Receiving *)

(** what has been read from the connection but not been received *)
Definition unread (msg : ycl_msg) : bytes := drop (Z.to_nat (nextoff msg)) (contents (buf msg)).

(** a message to receive into; [mbuf] is for what reads it *)
Record ready (ycl : ycl_ctx) (msg : ycl_msg) : Prop := Ready {
  rd_wf : wf (buf msg);
  rd_max : 0 < max_msgsz ycl < 2 ^ 40;
  rd_cap : cap (buf msg) <= 2 * max_msgsz ycl + BUFINITSZ;
  rd_len : len (buf msg) < max_msgsz ycl;
  rd_next : 0 <= nextoff msg <= len (buf msg);
  rd_mbuf : fits (2 ^ 60) (mbuf msg);
}.

Lemma ready_small ycl msg : ready ycl msg -> small (buf msg).
Proof. intros [_ ? ? _ _ _]. unfold small, BUFINITSZ in *. lia. Qed.

(** the parser on a buffer that starts with a part of a message, or with all
    of it *)
Lemma tryparse_spec msg payload e rest tail : wf (buf msg) -> small (buf msg) -> encodes payload e -> zlen payload < 2 ^ 62 ->
  contents (buf msg) ++ tail = e ++ rest ->
  tryparse msg = if zlen e <=? len (buf msg) then Ret (set_nextoff msg (zlen e), NETSTRING_OK) else Ret (msg, NETSTRING_ERRINCOMPLETE).
Proof.
  intros Hwf Hs He Hpl E. pose proof (contents_length _ Hwf) as Hl. pose proof Hwf as [Hlb _ _ _]. unfold small in Hs.
  unfold tryparse, netstring_tryparse. rewrite (data_contents (buf msg)). rewrite <- Hl. destruct (Z.leb_spec (zlen e) (zlen (contents (buf msg)))) as [Hle|Hgt].
  - assert (Ec : exists tl, contents (buf msg) = e ++ tl).
    { exists (drop (length e) (contents (buf msg))). apply (f_equal (take (length e))) in E. rewrite take_app_length, take_app_le in E by (unfold zlen in *; lia).
      rewrite <- E at 1. by rewrite take_drop. }
    destruct Ec as [tl Ec]. rewrite Ec. destruct (encodes_is_netstring payload e tl He) as (off & Hns & Hoff).
    pose proof (netstring_parse_complete [] (e ++ tl) (drop (Z.to_nat (zlen (e ++ tl))) (data (buf msg))) off payload) as P. cbn [app] in P.
    change (zlen (@nil Z)) with 0 in P. rewrite P; [|rewrite <- Ec; lia|done]. cbn [mbind outcome_mbind]. rewrite Hoff, uw_small; [done|].
    rewrite Ec in *. zlen_simpl. pose proof (zlen_nonneg e). lia.
  - assert (Ee : exists q, e = contents (buf msg) ++ q /\ q <> []).
    { exists (drop (length (contents (buf msg))) e). split.
      - apply (f_equal (take (length (contents (buf msg))))) in E. rewrite take_app_length, take_app_le in E by (unfold zlen in *; lia).
        rewrite E at 1. by rewrite take_drop.
      - intros Hn. apply (f_equal length) in Hn. rewrite length_drop in Hn. simpl in Hn. unfold zlen in *. lia. }
    destruct Ee as (q & Ee & Hq). rewrite Ee in He. rewrite (netstring_parse_prefix _ q payload) by done. done.
Qed.

(** what [check_msg] leaves: the bytes that were not received, from the start
    of the buffer on *)
Lemma check_msg_spec ycl msg payload e rest tail : ready ycl msg -> encodes payload e -> zlen payload < 2 ^ 62 -> unread msg ++ tail = e ++ rest ->
  exists msg' r, check_msg msg = Ret (msg', r) /\ ready ycl msg' /\ contents (buf msg') = unread msg /\
    ((r = NETSTRING_OK /\ nextoff msg' = zlen e) \/ (r = NETSTRING_ERRINCOMPLETE /\ nextoff msg' = 0)).
Proof.
  intros Hr He Hpl E. pose proof Hr as [Hwf Hmax Hcap Hlen Hnext Hmbuf]. pose proof (contents_length _ Hwf) as Hl. unfold check_msg, unread in *.
  destruct (Z.ltb_spec 0 (nextoff msg)) as [Hpos|Hz].
  - destruct (Z.ltb_spec (nextoff msg) (len (buf msg))) as [Hlt|Hge].
    + destruct (shift_spec (buf msg) (nextoff msg) Hwf ltac:(lia)) as (src & d & -> & Ew & Hwf' & Hc). cbn [mbind outcome_mbind]. rewrite Ew. cbn [mbind outcome_mbind].
      set (b' := Buf _ _ d) in *. assert (Hs' : small b') by (unfold small, b', BUFINITSZ in *; cbn [cap]; lia).
      rewrite (tryparse_spec (set_buf msg b') payload e rest tail Hwf' Hs' He Hpl); [|cbn [buf set_buf]; by rewrite Hc].
      cbn [buf set_buf]. change (len b') with (len (buf msg) - nextoff msg).
      destruct (Z.leb_spec (zlen e) (len (buf msg) - nextoff msg)) as [Hle|Hgt]; cbn [mbind outcome_mbind].
      * eexists _, _. split; [done|]. split; [|split; [done|by left]]. pose proof (zlen_nonneg e). split; cbn [buf nextoff set_buf set_nextoff]; try done; unfold b'; cbn [cap len]; lia.
      * eexists _, _. split; [done|]. split; [|split; [done|by right]]. split; cbn [buf nextoff set_buf set_nextoff]; try done; unfold b'; cbn [cap len]; lia.
    + eexists _, _. split; [done|]. split; [|split; [|by right]].
      * split; cbn [buf nextoff set_buf set_nextoff buf_clear cap len]; try done; try lia.
        destruct Hwf as [? ? ? ?]. constructor; cbn; done || lia.
      * cbn. rewrite drop_ge; [done|]. unfold zlen in *. lia.
  - eexists _, _. split; [done|]. assert (Hn0 : nextoff msg = 0) by lia. split; [|split; [|by right]].
    + split; cbn [buf nextoff set_nextoff]; done || lia.
    + cbn. by rewrite Hn0, drop_0.
Qed.

Section Receive.
Context {W : Type} {S0 : Sys W} {L0 : SysLaws W} (alloc_ok : Z -> bool) (ycl : ycl_ctx).

(** nothing goes wrong but that the message is too large *)
Definition no_faults : Prop := ~ read_fails (W := W) (fd ycl) /\ forall n, alloc_ok n = true.

(** how a call ends when [e ++ rest] is unread or still to come *)
Definition recv_ends (w : W) (e rest : bytes) (a : W * ycl_msg * Z) : Prop :=
  let '(w', msg', r) := a in
  ((r = YCL_OK \/ r = YCL_AGAIN) -> ready ycl msg') /\
  ((r = YCL_OK /\ nextoff msg' = zlen e /\ contents (buf msg') ++ incoming w' (fd ycl) = e ++ rest /\ (length (incoming w' (fd ycl)) <= length (incoming w (fd ycl)))%nat) \/
   (r = YCL_AGAIN /\ nextoff msg' = 0 /\ contents (buf msg') ++ incoming w' (fd ycl) = e ++ rest /\
      ((length (incoming w' (fd ycl)) < length (incoming w (fd ycl)))%nat \/
       incoming w' (fd ycl) = incoming w (fd ycl) /\ (delays w' (fd ycl) < delays w (fd ycl))%nat)) \/
   (r = YCL_ERR /\ (~ no_faults \/ max_msgsz ycl <= zlen (e ++ rest)))).

Lemma recv_loop_spec payload e rest : encodes payload e -> zlen payload < 2 ^ 62 ->
  forall n w msg, (length (incoming w (fd ycl)) < n)%nat -> ready ycl msg -> nextoff msg = 0 -> contents (buf msg) ++ incoming w (fd ycl) = e ++ rest ->
  returns (fun fuel => recv_loop alloc_ok fuel w ycl msg) (recv_ends w e rest).
Proof.
  intros He Hpl. induction n as [|n IH]; intros w msg Hn Hr H0 E; [lia|]. pose proof Hr as [Hwf Hmax Hcap Hlen Hnext Hmbuf].
  pose proof (ready_small _ _ Hr) as Hsm. pose proof (contents_length _ Hwf) as Hl.
  assert (Hinc : incomplete msg = Ret (if zlen e <=? len (buf msg) then (set_nextoff msg (zlen e), Some NETSTRING_OK) else (msg, None))).
  { unfold incomplete. assert (Hpos : 0 < zlen e) by (destruct (encodes_framed _ _ He) as (hdr & [-> _] & ?); zlen_simpl; pose proof (zlen_nonneg payload); lia).
    destruct (Z.eqb_spec (len (buf msg)) 0) as [Ez|Ez]; [by rewrite (proj2 (Z.leb_gt _ _)) by lia|].
    rewrite (tryparse_spec msg payload e rest _ Hwf Hsm He Hpl E). by destruct (zlen e <=? len (buf msg)). }
  destruct (Z.leb_spec (zlen e) (len (buf msg))) as [Hle|Hgt].
  { eapply returns_ret; [intros fuel; cbn [recv_loop]; rewrite Hinc; reflexivity|]. split; [intros _|].
    - pose proof (zlen_nonneg e). split; cbn [buf nextoff set_nextoff]; done || lia.
    - left. split; [done|]. split; [done|]. split; [done|lia]. }
  assert (Hstep : forall fuel, recv_loop alloc_ok (S fuel) w ycl msg = '(w, b, ret, nread) ← io_readbuf alloc_ok (S fuel) w (fd ycl) (buf msg);
      let msg := set_buf msg b in
      if ret =? IO_AGAIN then Ret (w, msg, YCL_AGAIN)
      else if negb (ret =? IO_OK) then Ret (w, msg, YCL_ERR)
      else if default 0 nread =? 0 then Ret (w, msg, YCL_ERR)
      else if max_msgsz ycl <=? len (buf msg) then Ret (w, msg, YCL_ERR)
      else recv_loop alloc_ok fuel w ycl msg).
  { intros fuel. cbn [recv_loop]. by rewrite Hinc. }
  destruct (io_readbuf_spec alloc_ok w (fd ycl) (buf msg) Hwf Hsm) as (k & [[[w1 b1] r1] nr] & Hread & Hwf1 & Hcap1 & Hw1 & Hends).
  assert (Hstep' : forall fuel, (k <= S fuel)%nat -> recv_loop alloc_ok (S fuel) w ycl msg =
      if r1 =? IO_AGAIN then Ret (w1, set_buf msg b1, YCL_AGAIN)
      else if negb (r1 =? IO_OK) then Ret (w1, set_buf msg b1, YCL_ERR)
      else if default 0 nr =? 0 then Ret (w1, set_buf msg b1, YCL_ERR)
      else if max_msgsz ycl <=? len b1 then Ret (w1, set_buf msg b1, YCL_ERR)
      else recv_loop alloc_ok fuel w1 ycl (set_buf msg b1)).
  { intros fuel Hf. rewrite Hstep, Hread by done. reflexivity. }
  assert (Hc1 : cap b1 <= 2 * max_msgsz ycl + BUFINITSZ).
  { unfold grown_cap, READBUF_GROWSZ, BUFINITSZ in *. destruct (Z.ltb_spec (cap (buf msg) - len (buf msg)) 256); [|lia].
    assert (2 * (cap (buf msg) / 2) <= cap (buf msg)) by divmod_lia. lia. }
  destruct Hends as [(-> & bs & -> & Hc & Hlb & Hbb & Hin & Hnil)|[(-> & Hc & Hlb & Hin & Hdel)|(-> & Hc & Hlb & Hin & Hfault)]].
  - change (IO_OK =? IO_AGAIN) with false in Hstep'. change (negb (IO_OK =? IO_OK)) with false in Hstep'.
    change (default 0 (Some (zlen bs))) with (zlen bs) in Hstep'. cbv iota in Hstep'. pose proof (zlen_nonneg bs). destruct (decide (bs = [])) as [->|Hne].
    + (* the stream has ended *) exfalso. rewrite (Hnil eq_refl), app_nil_r in E. rewrite E in Hl. zlen_simpl. pose proof (zlen_nonneg rest). lia.
    + assert (Hpos : 0 < zlen bs) by (destruct bs; [done|]; zlen_simpl; pose proof (zlen_nonneg bs); lia).
      assert (E1 : contents b1 ++ incoming w1 (fd ycl) = e ++ rest) by (by rewrite Hc, <- app_assoc, <- Hin).
      pose proof (contents_length _ Hwf1) as Hl1.
      destruct (Z.leb_spec (max_msgsz ycl) (len b1)) as [Hbig|Hok].
      * exists (S k), (w1, set_buf msg b1, YCL_ERR). split.
        { intros [|fuel] Hf; [lia|]. rewrite Hstep' by lia. by destruct (zlen bs =? 0). }
        split; [by intros [?|?]|]. right; right. split; [done|]. right. rewrite <- E1. zlen_simpl. pose proof (zlen_nonneg (incoming w1 (fd ycl))). lia.
      * destruct (IH w1 (set_buf msg b1)) as (k' & [[w2 msg2] r2] & Hf2 & Hr2 & He2).
        { rewrite Hin, length_app in Hn. unfold zlen in Hpos. lia. }
        { split; cbn [buf nextoff set_buf]; done || lia. }
        { done. }
        { done. }
        exists (S (Nat.max k k')), (w2, msg2, r2). split.
        { intros [|fuel] Hf; [lia|]. rewrite Hstep' by lia. rewrite (proj2 (Z.eqb_neq _ _)) by lia. apply Hf2. lia. }
        assert (Hshort : (length (incoming w1 (fd ycl)) < length (incoming w (fd ycl)))%nat) by (rewrite Hin, length_app; unfold zlen in Hpos; lia).
        split; [exact Hr2|]. destruct He2 as [(? & ? & ? & ?)|[(? & ? & ? & Hp)|He2]]; [left|right; left|right; right; exact He2].
        { split; [done|]. split; [done|]. split; [done|lia]. }
        { split; [done|]. split; [done|]. split; [done|]. left. destruct Hp as [?|[-> _]]; lia. }
  - exists (S k), (w1, set_buf msg b1, YCL_AGAIN). split; [intros [|fuel] Hf; [lia|]; by rewrite Hstep' by lia|].
    split; [intros _; split; cbn [buf nextoff set_buf]; done || lia|]. right; left. split; [done|]. split; [done|]. split; [cbn; congruence|]. by right.
  - exists (S k), (w1, set_buf msg b1, YCL_ERR). split; [intros [|fuel] Hf; [lia|]; by rewrite Hstep' by lia|].
    split; [by intros [?|?]|]. right; right. split; [done|]. left. intros [Hnf Hal]. destruct Hfault as [?|[x Hx]]; [done|]. by rewrite Hal in Hx.
Qed.

Lemma ycl_recvmsg_spec payload e rest w msg : encodes payload e -> zlen payload < 2 ^ 62 -> ready ycl msg ->
  unread msg ++ incoming w (fd ycl) = e ++ rest ->
  returns (fun fuel => ycl_recvmsg alloc_ok fuel w ycl msg) (recv_ends w e rest).
Proof.
  intros He Hpl Hr E. destruct (check_msg_spec ycl msg payload e rest _ Hr He Hpl E) as (msg' & r & Ec & Hr' & Hc & [[-> Hn]|[-> Hn]]);
    unfold ycl_recvmsg; rewrite Ec; cbn [mbind outcome_mbind].
  - eapply returns_const; [reflexivity|]. split; [done|]. left. split; [done|]. split; [done|]. split; [by rewrite Hc|lia].
  - apply (recv_loop_spec payload e rest He Hpl (S (length (incoming w (fd ycl))))); [lia|done|done|by rewrite Hc].
Qed.

(** the end of the stream is an error *)
Lemma ycl_recvmsg_end w msg : ready ycl msg -> unread msg = [] -> incoming w (fd ycl) = [] ->
  returns (fun fuel => ycl_recvmsg alloc_ok fuel w ycl msg) (fun '(w', msg', r) =>
    r = YCL_ERR \/
    (r = YCL_AGAIN /\ ready ycl msg' /\ unread msg' = [] /\ incoming w' (fd ycl) = [] /\ (delays w' (fd ycl) < delays w (fd ycl))%nat)).
Proof.
  intros Hr Hu Hi. pose proof Hr as [Hwf Hmax Hcap Hlen Hnext Hmbuf]. pose proof (contents_length _ Hwf) as Hl.
  assert (Hend : nextoff msg = len (buf msg)).
  { unfold unread in Hu. apply (f_equal length) in Hu. rewrite length_drop in Hu. simpl in Hu. unfold zlen in *. lia. }
  set (msg0 := Msg (Buf (cap (buf msg)) 0 (data (buf msg))) (mbuf msg) (optbuf msg) (sendoff msg) 0 (mflags msg)).
  assert (Hchk : check_msg msg = Ret (msg0, NETSTRING_ERRINCOMPLETE)).
  { unfold check_msg, msg0. destruct (Z.ltb_spec 0 (nextoff msg)).
    - rewrite (proj2 (Z.ltb_ge _ _)) by lia. done.
    - assert (Hz : len (buf msg) = 0) by lia. unfold set_nextoff. do 3 f_equal. destruct (buf msg) as [c l d]. cbn in Hz |- *. by rewrite Hz. }
  assert (Hwf0 : wf (buf msg0)) by (destruct Hwf; constructor; cbn; done || lia).
  assert (Hsm0 : small (buf msg0)) by (pose proof (ready_small _ _ Hr); done).
  unfold ycl_recvmsg. rewrite Hchk. cbn [mbind outcome_mbind].
  destruct (io_readbuf_spec alloc_ok w (fd ycl) (buf msg0) Hwf0 Hsm0) as (k & [[[w1 b1] r1] nr] & Hread & Hwf1 & Hcap1 & _ & Hends).
  assert (Hc1 : cap b1 <= 2 * max_msgsz ycl + BUFINITSZ).
  { unfold grown_cap, READBUF_GROWSZ, BUFINITSZ, msg0 in *. cbn [cap len buf] in Hcap1. destruct (Z.ltb_spec (cap (buf msg) - 0) 256); [|lia].
    assert (2 * (cap (buf msg) / 2) <= cap (buf msg)) by divmod_lia. lia. }
  assert (Hstep : forall fuel, (k <= S fuel)%nat -> recv_loop alloc_ok (S fuel) w ycl msg0 =
      if r1 =? IO_AGAIN then Ret (w1, set_buf msg0 b1, YCL_AGAIN)
      else if negb (r1 =? IO_OK) then Ret (w1, set_buf msg0 b1, YCL_ERR)
      else if default 0 nr =? 0 then Ret (w1, set_buf msg0 b1, YCL_ERR)
      else if max_msgsz ycl <=? len b1 then Ret (w1, set_buf msg0 b1, YCL_ERR)
      else recv_loop alloc_ok fuel w1 ycl (set_buf msg0 b1)).
  { intros fuel Hf. cbn [recv_loop]. change (incomplete msg0) with (Ret (msg0, @None Z)). cbn [mbind outcome_mbind]. rewrite Hread by done. reflexivity. }
  destruct Hends as [(-> & bs & -> & _ & _ & _ & Hin & _)|[(-> & Hc & Hlb & Hin & Hdel)|(-> & _)]].
  - assert (bs = []) as -> by (rewrite Hi in Hin; by destruct bs). exists (S k), (w1, set_buf msg0 b1, YCL_ERR).
    split; [intros [|fuel] Hf; [lia|]; by rewrite Hstep by lia|by left].
  - exists (S k), (w1, set_buf msg0 b1, YCL_AGAIN). split; [intros [|fuel] Hf; [lia|]; by rewrite Hstep by lia|].
    right. split; [done|]. change (len (buf msg0)) with 0 in Hlb. split; [split; cbn [buf nextoff set_buf msg0]; done || lia|]. split; [|split; [congruence|done]].
    unfold unread. cbn [buf nextoff set_buf msg0]. rewrite drop_0, Hc. done.
  - exists (S k), (w1, set_buf msg0 b1, YCL_ERR). split; [intros [|fuel] Hf; [lia|]; by rewrite Hstep by lia|by left].
Qed.

(** ** Receiving every message of a stream *)

(** A peer that receives until an error, and again after [YCL_AGAIN]; what it
    does with a message may change it, but not what follows it *)
Section Stream.
Context {A : Type} (handle : ycl_msg -> outcome (ycl_msg * A)).

Fixpoint receive (calls fuel : nat) (w : W) (msg : ycl_msg) : outcome (list A * W) :=
  match calls with
  | O => OutOfFuel
  | S calls =>
      '(w, msg, r) ← ycl_recvmsg alloc_ok fuel w ycl msg;
      if r =? YCL_AGAIN then receive calls fuel w msg
      else if r =? YCL_OK then
        '(msg, a) ← handle msg;
        '(l, w) ← receive calls fuel w msg;
        Ret (a :: l, w)
      else Ret ([], w)
  end.

(** [sends x e] when [e] is a message for [x] *)
Context {X : Type} (sends : X -> bytes -> Prop) (shows : X -> bytes -> A -> Prop).
Context (Hsends : forall x e, sends x e -> exists payload, encodes payload e).
Context (Hhandle : forall msg x e tl, ready ycl msg -> sends x e -> contents (buf msg) = e ++ tl -> nextoff msg = zlen e ->
  exists msg' a, handle msg = Ret (msg', a) /\ ready ycl msg' /\ unread msg' = tl /\ shows x e a).

Lemma receive_step calls fuel w msg w1 msg1 r : ycl_recvmsg alloc_ok fuel w ycl msg = Ret (w1, msg1, r) ->
  receive (S calls) fuel w msg =
    if r =? YCL_AGAIN then receive calls fuel w1 msg1
    else if r =? YCL_OK then '(msg, a) ← handle msg1; '(l, w) ← receive calls fuel w1 msg; Ret (a :: l, w)
    else Ret ([], w1).
Proof. intros E. cbn [receive]. by rewrite E. Qed.

(** nothing is left *)
Lemma receive_end : forall d w msg, (delays w (fd ycl) < d)%nat -> ready ycl msg -> unread msg = [] -> incoming w (fd ycl) = [] ->
  exists k w', forall calls fuel, (k <= calls)%nat -> (k <= fuel)%nat -> receive calls fuel w msg = Ret ([], w').
Proof.
  induction d as [|d IH]; intros w msg Hd Hr Hu Hi; [lia|].
  destruct (ycl_recvmsg_end w msg Hr Hu Hi) as (k & [[w1 msg1] r] & Hf & [->|(-> & Hr1 & Hu1 & Hi1 & Hd1)]).
  - exists (S k), w1. intros [|calls] fuel Hc Hfu; [lia|]. rewrite (receive_step _ _ _ _ _ _ _ (Hf fuel ltac:(lia))). done.
  - destruct (IH w1 msg1 ltac:(lia) Hr1 Hu1 Hi1) as (k' & w' & Hk'). exists (S (Nat.max k k')), w'.
    intros [|calls] fuel Hc Hfu; [lia|]. rewrite (receive_step _ _ _ _ _ _ _ (Hf fuel ltac:(lia))). apply Hk'; lia.
Qed.

Lemma receive_all (Hnf : no_faults) : forall n d xs es w msg, Forall2 sends xs es -> (length es + length (incoming w (fd ycl)) < n)%nat ->
  (delays w (fd ycl) < d)%nat -> ready ycl msg -> unread msg ++ incoming w (fd ycl) = concat es -> zlen (concat es) < max_msgsz ycl ->
  exists k l w', (forall calls fuel, (k <= calls)%nat -> (k <= fuel)%nat -> receive calls fuel w msg = Ret (l, w')) /\ Forall3 shows xs es l.
Proof.
  induction n as [|n IHn]; intros d xs es w msg Hes Hn; [lia|]. revert w msg Hn. induction d as [|d IHd]; intros w msg Hn Hd Hr E Hmax; [lia|].
  destruct es as [|e es].
  { apply Forall2_nil_inv_r in Hes as ->. cbn in E. apply app_eq_nil in E as [Hu Hi].
    destruct (receive_end (S (delays w (fd ycl))) w msg ltac:(lia) Hr Hu Hi) as (k & w' & Hk). exists k, [], w'. split; [done|constructor]. }
  apply Forall2_cons_inv_r in Hes as (x & xs' & Hx & Hes & ->). destruct (Hsends x e Hx) as [payload He]. cbn [concat] in E, Hmax.
  pose proof (rd_max _ _ Hr) as Hmx. pose proof (zlen_nonneg (concat es)).
  assert (Hpl : zlen payload < 2 ^ 62) by (destruct (encodes_framed _ _ He) as (hdr & [-> _] & ?); zlen_simpl; pose proof (zlen_nonneg payload); lia).
  destruct (ycl_recvmsg_spec payload e (concat es) w msg He Hpl Hr E) as (k & [[w1 msg1] r] & Hf & Hr1 & Hends).
  destruct Hends as [(-> & Hn1 & Hc1 & Hle)|[(-> & Hn1 & Hc1 & Hp)|(-> & [Hbad|Hbig])]]; [| |by destruct Hbad|lia].
  - specialize (Hr1 (or_introl eq_refl)). assert (Hc : exists tl, contents (buf msg1) = e ++ tl /\ tl ++ incoming w1 (fd ycl) = concat es).
    { pose proof Hr1 as [Hwf1 _ _ _ Hnx _]. pose proof (contents_length _ Hwf1) as Hl1. exists (drop (length e) (contents (buf msg1))).
      assert (Ht : take (length e) (contents (buf msg1)) = e).
      { apply (f_equal (take (length e))) in Hc1. rewrite take_app_length, take_app_le in Hc1 by (unfold zlen in *; lia). done. }
      split; [by rewrite <- Ht at 1; rewrite take_drop|]. apply (f_equal (drop (length e))) in Hc1.
      rewrite drop_app_length, drop_app_le in Hc1 by (unfold zlen in *; lia). done. }
    destruct Hc as (tl & Hc & Htl). destruct (Hhandle msg1 x e tl Hr1 Hx Hc Hn1) as (msg2 & a & Eh & Hr2 & Hu2 & Hs).
    destruct (IHn (S (delays w1 (fd ycl))) xs' es w1 msg2 Hes) as (k' & l & w' & Hk' & Hsh); [cbn [length] in Hn; lia|lia|done|by rewrite Hu2|zlen_simpl; pose proof (zlen_nonneg e); lia|].
    exists (S (Nat.max k k')), (a :: l), w'. split; [|by constructor]. intros [|calls] fuel Hc' Hfu; [lia|].
    rewrite (receive_step _ _ _ _ _ _ _ (Hf fuel ltac:(lia))). change (YCL_OK =? YCL_AGAIN) with false. change (YCL_OK =? YCL_OK) with true. cbv iota.
    rewrite Eh. cbn [mbind outcome_mbind]. rewrite Hk' by lia. done.
  - specialize (Hr1 (or_intror eq_refl)). assert (Hu1 : unread msg1 ++ incoming w1 (fd ycl) = concat (e :: es)) by (unfold unread; by rewrite Hn1, drop_0).
    assert (Hrec : exists k l w', (forall calls fuel, (k <= calls)%nat -> (k <= fuel)%nat -> receive calls fuel w1 msg1 = Ret (l, w')) /\ Forall3 shows (x :: xs') (e :: es) l).
    { destruct Hp as [Hlt|[Hieq Hdl]].
      - apply (IHn (S (delays w1 (fd ycl))) (x :: xs') (e :: es) w1 msg1); [by constructor|cbn [length] in *; lia|lia|done|done|done].
      - apply IHd; [cbn [length] in *; rewrite Hieq; lia|lia|done|done|done]. }
    destruct Hrec as (k' & l & w' & Hk' & Hsh). exists (S (Nat.max k k')), l, w'. split; [|done]. intros [|calls] fuel Hc' Hfu; [lia|].
    rewrite (receive_step _ _ _ _ _ _ _ (Hf fuel ltac:(lia))). apply Hk'; lia.
Qed.
End Stream.

(** ** Sending *)

(** a call sends from [sendoff] on and starts again where it was delayed *)
Definition send_ends (w : W) (msg : ycl_msg) (left : bytes) (a : W * ycl_msg * Z) : Prop :=
  let '(w', msg', r) := a in
  incoming w' (fd ycl) = incoming w (fd ycl) /\
  ((r = YCL_OK /\ written w' (fd ycl) = written w (fd ycl) ++ left /\ msg' = ycl_msg_reset (set_sendoff msg (len (buf msg)))) \/
   (r = YCL_AGAIN /\ exists n, 0 <= n <= zlen left /\ written w' (fd ycl) = written w (fd ycl) ++ take (Z.to_nat n) left /\
      msg' = set_sendoff msg (sendoff msg + n) /\ (0 < n \/ (delays w' (fd ycl) < delays w (fd ycl))%nat)) \/
   (r = YCL_ERR /\ write_fails (W := W) (fd ycl) /\ exists n, written w' (fd ycl) = written w (fd ycl) ++ take n left)).

Lemma send_loop_spec msg0 : forall n w left, (length left < n)%nat -> wf (buf msg0) ->
  0 <= len (buf msg0) - zlen left -> left = drop (Z.to_nat (len (buf msg0) - zlen left)) (contents (buf msg0)) ->
  returns (fun fuel => send_loop fuel w ycl (set_sendoff msg0 (len (buf msg0) - zlen left)) (zlen left))
    (send_ends w (set_sendoff msg0 (len (buf msg0) - zlen left)) left).
Proof.
  induction n as [|n IH]; intros w left Hn Hwf H0 Hleft; [lia|]. set (off := len (buf msg0) - zlen left) in *.
  pose proof Hwf as [Hlb Hd _ _]. pose proof (contents_length _ Hwf) as Hl. pose proof (zlen_nonneg left).
  destruct (Z.ltb_spec 0 (zlen left)) as [Hpos|Hz].
  2: { assert (left = []) as -> by (destruct left; [done|]; zlen_simpl; pose proof (zlen_nonneg left); lia).
       eapply returns_ret; [intros fuel; cbn [send_loop]; reflexivity|]. split; [done|]. left. split; [done|]. split; [by rewrite app_nil_r|]. reflexivity. }
  assert (Hne : left <> []) by (intros ->; done).
  assert (Hrds : rds (data (buf msg0)) off (zlen left) = Ret left).
  { rewrite rds_in by lia. f_equal. rewrite Hleft at 2. unfold contents. rewrite skipn_firstn_comm. f_equal. unfold off. lia. }
  pose proof (write_law w (fd ycl) left Hne) as Hw. destruct (write w (fd ycl) left) as [w1 r] eqn:Ew. destruct Hw as [Hi Hw].
  assert (Hstep : forall fuel, send_loop (S fuel) w ycl (set_sendoff msg0 off) (zlen left) = match r with
    | inr e => Ret (w1, set_sendoff msg0 off, if (e =? EINTR) || (e =? EWOULDBLOCK) || (e =? EAGAIN) then YCL_AGAIN else YCL_ERR)
    | inl n => send_loop fuel w1 ycl (set_sendoff msg0 (off + n)) (zlen left - n)
    end).
  { intros fuel. cbn [send_loop]. rewrite (proj2 (Z.ltb_lt _ _) Hpos). cbn [buf set_sendoff sendoff]. rewrite Hrds. cbn [mbind outcome_mbind]. by rewrite Ew. }
  destruct r as [k|e].
  - destruct Hw as [Hk Hwr]. set (left' := drop (Z.to_nat k) left).
    assert (Hl' : zlen left' = zlen left - k) by (unfold left'; rewrite zlen_drop; lia).
    assert (Eoff : len (buf msg0) - zlen left' = off + k) by (unfold off; lia).
    destruct (IH w1 left') as (kk & [[w2 msg2] r2] & Hf & Hi2 & He2).
    { unfold left'. rewrite length_drop. unfold zlen in *. lia. }
    { done. }
    { lia. }
    { rewrite Eoff. unfold left'. rewrite Hleft at 1. rewrite drop_drop. f_equal. lia. }
    rewrite Eoff, Hl' in *. exists (S kk), (w2, msg2, r2). split; [intros [|fuel] Hfu; [lia|]; rewrite Hstep; apply Hf; lia|].
    split; [by rewrite Hi2|]. rewrite Hwr in He2.
    assert (Htake : forall m, take (Z.to_nat k) left ++ take m left' = take (Z.to_nat k + m) left).
    { intros m. rewrite <- (take_drop (Z.to_nat k) left) at 2. rewrite take_app_add'; [done|]. rewrite length_take. unfold zlen in *. lia. }
    destruct He2 as [(-> & Hw2 & Hm2)|[(-> & m & Hm & Hw2 & Hm2 & _)|(-> & Hfail & m & Hw2)]]; [left|right; left|right; right].
    + split; [done|]. split; [|done]. rewrite Hw2, <- app_assoc. unfold left'. by rewrite take_drop.
    + split; [done|]. exists (k + m). split; [lia|]. split; [rewrite Hw2, <- app_assoc, Htake; f_equal; f_equal; lia|]. split; [|left; lia].
      rewrite Hm2. unfold set_sendoff. cbn. f_equal. lia.
    + split; [done|]. split; [done|]. exists (Z.to_nat k + m)%nat. by rewrite Hw2, <- app_assoc, Htake.
  - destruct Hw as [Hwr Hdel]. eapply returns_ret; [intros fuel; rewrite Hstep; reflexivity|]. split; [done|].
    destruct ((e =? EINTR) || (e =? EWOULDBLOCK) || (e =? EAGAIN)) eqn:Ea; right; [left|right].
    + split; [done|]. exists 0. split; [lia|]. split; [by rewrite Hwr, app_nil_r|]. split; [unfold set_sendoff; cbn; f_equal; lia|]. right. apply Hdel.
      apply orb_true_iff in Ea as [[Ea|Ea]%orb_true_iff|Ea]; apply Z.eqb_eq in Ea as ->; [by left|by right|by right].
    + split; [done|]. split; [|exists 0%nat; by rewrite Hwr, app_nil_r]. exists w, left, e. rewrite Ew. split; [done|].
      apply orb_false_iff in Ea as [[Ea _]%orb_false_iff Ea2]. by apply Z.eqb_neq in Ea, Ea2.
Qed.

(** until it is not delayed any more *)
Fixpoint send (calls fuel : nat) (w : W) (msg : ycl_msg) : outcome (W * ycl_msg * Z) :=
  match calls with
  | O => OutOfFuel
  | S calls =>
      '(w, msg, r) ← ycl_sendmsg fuel w ycl msg;
      if r =? YCL_AGAIN then send calls fuel w msg else Ret (w, msg, r)
  end.

Definition unsent (msg : ycl_msg) : bytes := drop (Z.to_nat (sendoff msg)) (contents (buf msg)).

Lemma ycl_sendmsg_spec w msg : wf (buf msg) -> small (buf msg) -> 0 <= sendoff msg <= len (buf msg) ->
  returns (fun fuel => ycl_sendmsg fuel w ycl msg) (send_ends w msg (unsent msg)).
Proof.
  intros Hwf Hs Ho. pose proof (contents_length _ Hwf) as Hl. unfold small in Hs. pose proof Hwf as [Hlb _ _ _].
  assert (Hz : zlen (unsent msg) = len (buf msg) - sendoff msg) by (unfold unsent; rewrite zlen_drop; lia).
  unfold ycl_sendmsg. rewrite uw_small, <- Hz by lia.
  assert (Hm : msg = set_sendoff msg (len (buf msg) - zlen (unsent msg))) by (unfold set_sendoff; rewrite Hz; destruct msg; cbn; f_equal; lia).
  pose proof (send_loop_spec msg (S (length (unsent msg))) w (unsent msg)) as H. rewrite <- Hm in H. apply H; [lia|done|lia|].
  rewrite Hz. unfold unsent at 1. f_equal. lia.
Qed.

Lemma send_all : forall n d w msg, (length (unsent msg) < n)%nat -> (delays w (fd ycl) < d)%nat -> wf (buf msg) -> small (buf msg) -> 0 <= sendoff msg <= len (buf msg) ->
  exists k w' msg' r, (forall calls fuel, (k <= calls)%nat -> (k <= fuel)%nat -> send calls fuel w msg = Ret (w', msg', r)) /\
    incoming w' (fd ycl) = incoming w (fd ycl) /\
    ((r = YCL_OK /\ written w' (fd ycl) = written w (fd ycl) ++ unsent msg /\ msg' = ycl_msg_reset msg) \/
     (r = YCL_ERR /\ write_fails (W := W) (fd ycl) /\ exists j, written w' (fd ycl) = written w (fd ycl) ++ take j (unsent msg))).
Proof.
  induction n as [|n IHn]; intros d w msg Hn; [lia|]. revert w msg Hn. induction d as [|d IHd]; intros w msg Hn Hd Hwf Hs Ho; [lia|].
  destruct (ycl_sendmsg_spec w msg Hwf Hs Ho) as (k & [[w1 msg1] r] & Hf & Hi & He).
  assert (Hstep : forall calls fuel, (k <= fuel)%nat -> send (S calls) fuel w msg = if r =? YCL_AGAIN then send calls fuel w1 msg1 else Ret (w1, msg1, r)).
  { intros calls fuel Hfu. cbn [send]. by rewrite Hf. }
  destruct He as [(-> & Hw & ->)|[(-> & m & Hm & Hw & -> & Hp)|(-> & Hfail & j & Hw)]].
  - exists (S k), w1, (ycl_msg_reset (set_sendoff msg (len (buf msg)))), YCL_OK. split; [intros [|calls] fuel Hc Hfu; [lia|]; by rewrite Hstep by lia|].
    split; [done|]. left. done.
  - pose proof (contents_length _ Hwf) as Hl. set (msg1 := set_sendoff msg (sendoff msg + m)).
    assert (Hun : unsent msg1 = drop (Z.to_nat m) (unsent msg)) by (unfold unsent, msg1; cbn; rewrite drop_drop; f_equal; lia).
    assert (Hzu : zlen (unsent msg) = len (buf msg) - sendoff msg) by (unfold unsent; rewrite zlen_drop; lia).
    assert (Hrec : exists k' w' msg' r, (forall calls fuel, (k' <= calls)%nat -> (k' <= fuel)%nat -> send calls fuel w1 msg1 = Ret (w', msg', r)) /\
      incoming w' (fd ycl) = incoming w1 (fd ycl) /\
      ((r = YCL_OK /\ written w' (fd ycl) = written w1 (fd ycl) ++ unsent msg1 /\ msg' = ycl_msg_reset msg) \/
       (r = YCL_ERR /\ write_fails (W := W) (fd ycl) /\ exists j, written w' (fd ycl) = written w1 (fd ycl) ++ take j (unsent msg1)))).
    { assert (Ho1 : 0 <= sendoff msg1 <= len (buf msg1)) by (unfold msg1; cbn; lia). destruct (Z_lt_le_dec 0 m) as [Hpos|Hz].
      - apply (IHn (S (delays w1 (fd ycl))) w1 msg1); [|lia|done|done|done]. rewrite Hun, length_drop. unfold zlen in *. lia.
      - apply (IHd w1 msg1); [|destruct Hp; lia|done|done|done]. rewrite Hun, length_drop. lia. }
    destruct Hrec as (k' & w' & msg' & r & Hf' & Hi' & He'). exists (S (Nat.max k k')), w', msg', r.
    split; [intros [|calls] fuel Hc Hfu; [lia|]; rewrite Hstep by lia; apply Hf'; lia|]. split; [congruence|]. rewrite Hw, Hun in He'.
    destruct He' as [(-> & Hw' & Hb)|(-> & Hfail & j & Hw')]; [left|right].
    + split; [done|]. split; [|done]. by rewrite Hw', <- app_assoc, take_drop.
    + split; [done|]. split; [done|]. exists (Z.to_nat m + j)%nat. rewrite Hw', <- app_assoc. f_equal.
      rewrite <- (take_drop (Z.to_nat m) (unsent msg)) at 3. rewrite take_app_add'; [done|]. rewrite length_take. unfold zlen in *. lia.
  - exists (S k), w1, msg1, YCL_ERR. split; [intros [|calls] fuel Hc Hfu; [lia|]; by rewrite Hstep by lia|]. split; [done|]. right. split; [done|]. split; [done|by exists j].
Qed.
End Receive.

(** reading the bytes of a message *)
Definition message_bytes (msg : ycl_msg) : outcome (ycl_msg * bytes) :=
  bs ← rds (data (buf msg)) 0 (nextoff msg); Ret (msg, bs).

Lemma message_bytes_spec ycl msg payload e tl : ready ycl msg -> encodes payload e -> contents (buf msg) = e ++ tl -> nextoff msg = zlen e ->
  exists msg' a, message_bytes msg = Ret (msg', a) /\ ready ycl msg' /\ unread msg' = tl /\ a = e.
Proof.
  intros Hr He Hc Hn. pose proof Hr as [Hwf _ _ _ Hnx _]. pose proof Hwf as [Hlb Hd _ _]. exists msg, e. split; [|split; [done|]].
  - unfold message_bytes. rewrite rds_in by lia. cbn [mbind outcome_mbind]. do 2 f_equal. rewrite data_contents, Hc, Hn. cbn.
    unfold zlen. rewrite Nat2Z.id, <- app_assoc. apply take_app_length.
  - unfold unread. rewrite Hc, Hn. unfold zlen. rewrite Nat2Z.id, drop_app_length. done.
Qed.

Lemma zeros_wf n : 0 <= n -> (BUF_ALIGNMENT | n) -> wf (Buf n 0 (replicate (Z.to_nat n) 0)) /\ contents (Buf n 0 (replicate (Z.to_nat n) 0)) = [].
Proof.
  intros Hn Ha. split; [|done]. constructor; cbn [cap len data]; [lia|rewrite zlen_replicate; lia|done|].
  apply Forall_replicate. unfold is_byte. lia.
Qed.

Lemma ready_init ycl alloc_ok msg : ycl_msg_init alloc_ok = Some msg -> 0 < max_msgsz ycl < 2 ^ 40 -> ready ycl msg /\ unread msg = [].
Proof.
  unfold ycl_msg_init, buf_init. change (buf_align_offset BUFINITSZ) with 8192. destruct (alloc_ok 8192); [|done]. intros [= <-] Hm.
  destruct (zeros_wf 8192 ltac:(lia) ltac:(by exists 1024)) as [Hwf Hc]. split; [|done].
  split; cbn [buf mbuf nextoff cap len]; [done|lia|unfold BUFINITSZ; lia|lia|lia|split; [done|cbn [cap]; lia]].
Qed.

(** C19: however what a peer has sent is cut up and delayed, a receiver with a
    new message gets exactly the messages, each once and in order, and then
    the error for the end of the stream, when the messages together are
    smaller than the limit and no call fails. *)
Theorem ycl_messages_received {W : Type} {S0 : Sys W} {L0 : SysLaws W} alloc_ok ycl payloads es (w : W) msg :
  no_faults (W := W) alloc_ok ycl -> Forall2 encodes payloads es -> 0 < max_msgsz ycl < 2 ^ 40 -> zlen (concat es) < max_msgsz ycl ->
  ycl_msg_init alloc_ok = Some msg -> incoming w (fd ycl) = concat es ->
  exists k w', forall fuel, (k <= fuel)%nat -> receive alloc_ok ycl message_bytes fuel fuel w msg = Ret (es, w').
Proof.
  intros Hnf Hes Hmx Hmax Hinit Hin. destruct (ready_init ycl _ _ Hinit Hmx) as [Hr Hu].
  destruct (receive_all alloc_ok ycl message_bytes encodes (fun _ e a => a = e) (fun payload e He => ex_intro _ payload He) (message_bytes_spec ycl) Hnf
    (S (length es + length (incoming w (fd ycl)))) (S (delays w (fd ycl))) payloads es w msg Hes ltac:(lia) ltac:(lia) Hr) as (k & l & w' & Hk & Hl).
  - by rewrite Hu.
  - done.
  - exists k, w'. intros fuel Hf. rewrite Hk by done. do 2 f_equal. clear - Hl. induction Hl; by f_equal.
Qed.

Lemma ycl_messages_received_witness :
  match ycl_msg_init all_ok with
  | Some msg =>
      exists k w', forall fuel, (k <= fuel)%nat ->
      receive all_ok (ycl_init 5) message_bytes fuel fuel (Demo [3; 0; 4; 1; 0]%nat (lit "3:abc,0:,") []) msg = Ret ([lit "3:abc,"; lit "0:,"], w')
  | None => False
  end.
Proof.
  destruct (ycl_msg_init all_ok) as [msg|] eqn:E; [|discriminate E].
  apply (ycl_messages_received all_ok (ycl_init 5) [lit "abc"; []] [lit "3:abc,"; lit "0:,"]).
  - split; [apply demo_no_failure|done].
  - repeat constructor.
    + exists (lit "3"). split; [by repeat constructor|]. split; [done|]. split; [done|]. split; [by vm_compute|done].
    + exists (lit "0"). split; [by repeat constructor|]. split; [done|]. split; [done|]. split; [by vm_compute|done].
  - split; [reflexivity|reflexivity].
  - reflexivity.
  - exact E.
  - reflexivity.
Defined.
