(* ===== verification/Keeps.v ===== *)
(** * What operations on connections keep

    A property of the system that the calls of the kernel keep is kept by the
    operations of [Io] and [Ycl] that make these calls; each lemma needs only
    the calls that its operation makes. *)

From stdpp Require Import base.
From S2P Require Import Prelude Buf Netstring Io Ycl.

(** what a computation returns, if it returns *)
Definition yields {B} (Q : B -> Prop) (r : outcome B) : Prop := forall b, r = Ret b -> Q b.

Lemma yields_ret {B} (Q : B -> Prop) b : Q b -> yields Q (Ret b).
Proof. by intros HQ ? [= <-]. Qed.

Lemma yields_bind {B C} (Q : B -> Prop) (R : C -> Prop) r (f : B -> outcome C) : yields Q r -> (forall b, Q b -> yields R (f b)) -> yields R (r ≫= f).
Proof. intros Hr Hf. destruct r as [b| |]; [exact (Hf b (Hr b eq_refl))|done|done]. Qed.

Lemma yields_impl {B} (Q R : B -> Prop) r : yields Q r -> (forall b, Q b -> R b) -> yields R r.
Proof. intros Hr HQ b Hb. by apply HQ, Hr. Qed.

Lemma reading_any {A} (r : outcome A) : yields (fun _ => True) r.
Proof. by intros ? _. Qed.

Section Keeps.
Context {W : Type} {SW : Sys W} (Q : W -> Prop).
Context (k_read : forall w fd n, Q w -> Q (read w fd n).1).
Context (k_write : forall w fd bs, Q w -> Q (write w fd bs).1).
Context (k_poll_out : forall w fd, Q w -> Q (poll_out w fd).1).
Context (k_close : forall w fd, Q w -> Q (close w fd).1).
Context (k_socket : forall w, Q w -> Q (socket w).1).
Context (k_connect : forall w fd p, Q w -> Q (connect w fd p).1).
Context (k_sendmsg : forall w fd x y, Q w -> Q (sendmsg w fd x y).1).
Context (k_recvmsg : forall w fd, Q w -> Q (recvmsg w fd).1).
Context (alloc_ok : Z -> bool).

Lemma read_again_yields n : forall w fd k, Q w -> yields (fun x => Q x.1) (read_again n w fd k).
Proof using k_read.
  induction n as [|n IH]; intros w fd k Hw; cbn [read_again]; [done|]. pose proof (k_read w fd k Hw) as H1. destruct (read w fd k) as [w1 [bs|e]]; cbn [fst] in H1; [by apply yields_ret|].
  destruct (e =? EINTR); [by apply IH|by apply yields_ret].
Qed.

Lemma io_readbuf_yields n w fd b : Q w -> yields (fun x => Q x.1.1.1) (io_readbuf alloc_ok n w fd b).
Proof using k_read.
  intros Hw. unfold io_readbuf. eapply yields_bind; [apply reading_any|]. intros [b1 grown] _. destruct (negb grown); [by apply yields_ret|].
  eapply yields_bind; [by apply read_again_yields|]. intros [w1 [bs|e]] H1; [|by apply yields_ret].
  eapply yields_bind; [apply reading_any|]. intros d _. by apply yields_ret.
Qed.

Lemma recv_loop_yields n : forall w y msg, Q w -> yields (fun x => Q x.1.1) (recv_loop alloc_ok n w y msg).
Proof using k_read.
  induction n as [|n IH]; intros w y msg Hw; cbn [recv_loop]; [done|]. eapply yields_bind; [apply reading_any|].
  intros [msg1 [r|]] _; [by apply yields_ret|]. eapply yields_bind; [by apply io_readbuf_yields|]. intros [[[w1 b] ret] nr] H1. cbv zeta.
  repeat (match goal with |- yields _ (if ?b then _ else _) => destruct b end; [by apply yields_ret|]). by apply IH.
Qed.

Lemma ycl_recvmsg_yields fuel w y msg : Q w -> yields (fun x => Q x.1.1) (ycl_recvmsg alloc_ok fuel w y msg).
Proof using k_read.
  intros Hw. unfold ycl_recvmsg. eapply yields_bind; [apply reading_any|]. intros [msg1 ret] _. destruct (_ =? _); [by apply yields_ret|].
  destruct (negb _); [by apply yields_ret|]. by apply recv_loop_yields.
Qed.

Lemma io_sendfd_yields n : forall w io fd err, Q w -> yields (fun x => Q x.1) (io_sendfd n w io fd err).
Proof using k_sendmsg.
  induction n as [|n IH]; intros w io fd err Hw; cbn [io_sendfd]; [done|]. pose proof (k_sendmsg w io err fd Hw) as H1. destruct (sendmsg w io err fd) as [w1 [u|e]]; cbn [fst] in H1; [by apply yields_ret|].
  destruct (e =? EINTR); [by apply IH|by apply yields_ret].
Qed.

Lemma ycl_sendfd_yields fuel w y fd err : Q w -> yields (fun x => Q x.1) (ycl_sendfd fuel w y fd err).
Proof using k_sendmsg. intros Hw. eapply yields_bind; [by apply io_sendfd_yields|]. intros [w1 r] H1. by apply yields_ret. Qed.

Lemma io_recvfd_yields n : forall w io, Q w -> yields (fun x => Q x.1.1) (io_recvfd n w io).
Proof using k_recvmsg k_close.
  induction n as [|n IH]; intros w io Hw; cbn [io_recvfd]; [done|]. pose proof (k_recvmsg w io Hw) as H1. destruct (recvmsg w io) as [w1 [[m fd]|e]]; cbn [fst] in H1.
  - cbv zeta. destruct (_ <? 0); [by apply yields_ret|]. destruct (negb _); apply yields_ret; [by apply k_close|done].
  - destruct (e =? EINTR); [by apply IH|by apply yields_ret].
Qed.

Lemma ycl_recvfd_yields fuel w y : Q w -> yields (fun x => Q x.1.1) (ycl_recvfd fuel w y).
Proof using k_recvmsg k_close. intros Hw. eapply yields_bind; [by apply io_recvfd_yields|]. intros [[w1 r] o] H1. by apply yields_ret. Qed.

Lemma io_writeall_yields n : forall w fd bs, Q w -> yields (fun x => Q x.1) (io_writeall n w fd bs).
Proof using k_write k_poll_out.
  induction n as [|n IH]; intros w fd bs Hw; cbn [io_writeall]; [done|]. destruct (0 <? zlen bs); [|by apply yields_ret].
  pose proof (k_write w fd bs Hw) as H1. destruct (write w fd bs) as [w1 [r|e]]; cbn [fst] in H1.
  - destruct (r =? 0); [by apply yields_ret|by apply IH].
  - destruct (e =? EINTR); [by apply IH|]. destruct (is_again e); [|by apply yields_ret]. pose proof (k_poll_out w1 fd H1) as H2.
    destruct (poll_out w1 fd) as [w2 [|]]; [by apply IH|by apply yields_ret].
Qed.

Lemma send_loop_yields n : forall w y msg left, Q w -> yields (fun x => Q x.1.1) (send_loop n w y msg left).
Proof using k_write.
  induction n as [|n IH]; intros w y msg left Hw; cbn [send_loop]; [done|]. destruct (0 <? left); [|by apply yields_ret].
  eapply yields_bind; [apply reading_any|]. intros bs _. pose proof (k_write w (Ycl.fd y) bs Hw) as H1. destruct (write w (Ycl.fd y) bs) as [w1 [r|e]]; [by apply IH|by apply yields_ret].
Qed.

Lemma ycl_sendmsg_yields fuel w y msg : Q w -> yields (fun x => Q x.1.1) (ycl_sendmsg fuel w y msg).
Proof using k_write. apply send_loop_yields. Qed.

Lemma ycl_connect_keeps w y dst : Q w -> Q (ycl_connect w y dst).1.1.
Proof using k_socket k_connect k_close.
  intros Hw. unfold ycl_connect, io_connect_unix. destruct (bool_decide _); [done|]. pose proof (k_socket w Hw) as H1. destruct (socket w) as [w1 [fd|]]; [|done].
  pose proof (k_connect w1 fd (sun_path (default [] dst)) H1) as H2. destruct (connect _ _ _) as [w2 [|]]; cbn [negb]; [done|]. by apply k_close.
Qed.

Lemma ycl_close_keeps w y : Q w -> Q (ycl_close w y).1.1.
Proof using k_close.
  intros Hw. unfold ycl_close. destruct (_ && _); [|done]. pose proof (k_close w (Ycl.fd y) Hw) as H1. by destruct (close w (Ycl.fd y)) as [w1 [|]].
Qed.
End Keeps.
