(* ===== verification/YclMsg.v ===== *)
(** * Generated messages (src/apps/yclgen/genycl.c)

    For every message of a description the generator writes a function that
    puts a struct into a message and one that gets it out again.  The
    definitions are the code that it writes, with the description as an
    argument: a message is the list of its fields. *)

From stdpp Require Import sets.
From S2P Require Import Prelude CLib Buf Netstring NetstringMap Io Ycl.

Inductive yclgen_field_type : Type := FT_DATAARR | FT_LONGARR | FT_DATA | FT_LONG.
#[export] Instance yclgen_field_type_eq_dec : EqDecision yclgen_field_type.
Proof. solve_decision. Defined.

Record yclgen_field : Type := Field { typ : yclgen_field_type; name : bytes }.

(** the members of a struct to send: an array that is NULL is empty *)
Inductive member : Type :=
  | Data (d : bytes)
  | Long (l : Z)
  | DataArr (ds : list bytes)
  | LongArr (ls : list Z).

(** the members of a received struct: pointers are offsets in the buffer of
    the message, arrays offsets in its second buffer *)
Inductive parsed : Type :=
  | PData (d : option Z) (len : Z)
  | PLong (l : Z)
  | PDataArr (off n : Z)
  | PLongArr (off n : Z).

(** ** Numbers *)

(** the digits are written from the end of [s], which has [len] bytes left;
    [>>] of a negative number keeps its sign *)
Fixpoint l2s (len : nat) (l : Z) (acc : bytes) : bytes :=
  match len with
  | O => acc
  | S len =>
      let acc := (48 + Z.land l 7) :: acc in
      let l := Z.shiftr l 3 in
      if l =? 0 then acc else l2s len l acc
  end.

(** the number at [s]; the shift and the addition wrap around *)
Fixpoint s2l (n : nat) (m : bytes) (s res : Z) : outcome Z :=
  match n with
  | O => OutOfFuel
  | S n =>
      ch ← rd m s;
      if (48 <=? ch) && (ch <=? 55) then s2l n m (s + 1) (i64 (i64 (Z.shiftl res 3) + (ch - 48)))
      else Ret res
  end.

Definition numbuf (l : Z) : bytes := l2s 48 l [].

(** ** Writing a message *)

Definition has_arrays (fields : list yclgen_field) : bool :=
  existsb (fun f => bool_decide (typ f = FT_DATAARR) || bool_decide (typ f = FT_LONGARR)) fields.

Section Generated.
Context (alloc_ok : Z -> bool).

(** the [for] loop that fills [optbuf] *)
Fixpoint append_elems (b : buf_t) (elems : list bytes) : outcome (buf_t * Z) :=
  match elems with
  | [] => Ret (b, NETSTRING_OK)
  | e :: elems =>
      '(b, ret) ← netstring_append_buf alloc_ok b e;
      if negb (ret =? NETSTRING_OK) then Ret (b, ret) else append_elems b elems
  end.

Definition create_pair (msg : ycl_msg) (key val : bytes) : outcome (ycl_msg * Z) :=
  '(b, ret) ← netstring_append_pair alloc_ok (mbuf msg) key val; Ret (set_mbuf msg b, ret).

Definition create_array (msg : ycl_msg) (key : bytes) (elems : list bytes) : outcome (ycl_msg * Z) :=
  '(b, ret) ← append_elems (buf_clear (optbuf msg)) elems;
  let msg := set_optbuf msg b in
  if negb (ret =? NETSTRING_OK) then Ret (msg, ret) else create_pair msg key (contents b).

Definition create_member (msg : ycl_msg) (f : yclgen_field) (v : member) : outcome (ycl_msg * Z) :=
  match v with
  | Data d => if 0 <? zlen d then create_pair msg (name f) d else Ret (msg, NETSTRING_OK)
  | Long l => if negb (l =? 0) then create_pair msg (name f) (numbuf l) else Ret (msg, NETSTRING_OK)
  | DataArr ds => if 0 <? zlen ds then create_array msg (name f) ds else Ret (msg, NETSTRING_OK)
  | LongArr ls => if 0 <? zlen ls then create_array msg (name f) (numbuf <$> ls) else Ret (msg, NETSTRING_OK)
  end.

Fixpoint create_members (msg : ycl_msg) (fields : list yclgen_field) (r : list member) : outcome (ycl_msg * Z) :=
  match fields, r with
  | f :: fields, v :: r =>
      '(msg, ret) ← create_member msg f v;
      if negb (ret =? NETSTRING_OK) then Ret (msg, ret) else create_members msg fields r
  | _, _ => Ret (msg, NETSTRING_OK)
  end.

Definition create_empty (msg : ycl_msg) : outcome (ycl_msg * Z) :=
  let msg := ycl_msg_reset msg in
  '(b, ret) ← buf_adata alloc_ok (buf msg) (lit "0:,");
  Ret (set_buf msg b, if ret <? 0 then YCL_ERR else YCL_OK).

Definition ycl_msg_create (fields : list yclgen_field) (msg : ycl_msg) (r : list member) : outcome (ycl_msg * Z) :=
  if zlen fields =? 0 then create_empty msg
  else
    let '(msg, ret) := if has_arrays fields then ycl_msg_use_optbuf alloc_ok msg else (msg, YCL_OK) in
    if ret <? 0 then Ret (msg, YCL_ERR)
    else
      '(msg, ret) ← create_members (ycl_msg_reset msg) fields r;
      if negb (ret =? NETSTRING_OK) then Ret (msg, YCL_ERR)
      else
        '(b, ret) ← netstring_append_buf alloc_ok (buf msg) (contents (mbuf msg));
        Ret (set_buf msg b, if negb (ret =? NETSTRING_OK) then YCL_ERR else YCL_OK).

(** ** Reading a message *)

(** the loops of [load_datas] and [load_longs]: the object, the buffer, the
    number of elements and whether every one was stored *)
Fixpoint load_elems (fuel : nat) (cell : bytes -> Z -> Z -> outcome bytes) (m : bytes) (b : buf_t) (curr len count : Z) :
    outcome (bytes * buf_t * Z * bool) :=
  match fuel with
  | O => OutOfFuel
  | S fuel =>
      if 0 <? len then
        '(m, r, curr, len) ← netstring_next m curr len;
        match r with
        | inr _ => Ret (m, b, count, false)
        | inl (elem, elemlen) =>
            c ← cell m elem elemlen;
            '(b, ret) ← buf_adata alloc_ok b c;
            if ret <? 0 then Ret (m, b, count, false)
            else load_elems fuel cell m b curr len (count + 1)
        end
      else Ret (m, b, count, true)
  end.

(** a [struct ycl_data] with the length and the pointer; a [long] *)
Definition data_cell (m : bytes) (elem elemlen : Z) : outcome bytes := Ret (le64 elemlen ++ le64 elem).
Definition long_cell (m : bytes) (elem elemlen : Z) : outcome bytes := l ← s2l (S (length m)) m elem 0; Ret (le64 l).

(** [*outoffset] and [*nelems], or [None] for [YCL_ERR] *)
Definition load_array (cell : bytes -> Z -> Z -> outcome bytes) (m : bytes) (b : buf_t) (curr len : Z) : outcome (bytes * buf_t * option (Z * Z)) :=
  '(b, ret) ← buf_align alloc_ok b;
  if ret <? 0 then Ret (m, b, None)
  else
    let offset := Buf.len b in
    '(m, b, count, ok) ← load_elems (S (Z.to_nat len)) cell m b curr len 0;
    Ret (m, b, if (ok : bool) then Some (offset, count) else None).

Definition load_datas (m : bytes) (b : buf_t) (curr len : Z) : outcome (bytes * buf_t * option (Z * Z)) := load_array data_cell m b curr len.
Definition load_longs (m : bytes) (b : buf_t) (curr len : Z) : outcome (bytes * buf_t * option (Z * Z)) := load_array long_cell m b curr len.

(** the members so far, [mbuf] and [pairoff] *)
Definition parse_state : Type := list parsed * buf_t * Z.

Definition array_member (array : Z -> Z -> parsed) (a : bytes * buf_t * option (Z * Z)) : bytes * buf_t * option parsed :=
  (a.1, match a.2 with Some (off, n) => Some (array off n) | None => None end).

Definition parse_member (m : bytes) (pair : netstring_pair) (f : yclgen_field) (b : buf_t) : outcome (bytes * buf_t * option parsed) :=
  match typ f with
  | FT_DATAARR => a ← load_datas m b (value pair) (valuelen pair); Ret (array_member PDataArr a)
  | FT_LONGARR => a ← load_longs m b (value pair) (valuelen pair); Ret (array_member PLongArr a)
  | FT_DATA => Ret (m, b, Some (PData (Some (value pair)) (valuelen pair)))
  | FT_LONG => l ← s2l (S (length m)) m (value pair) 0; Ret (m, b, Some (PLong l))
  end.

(** the body of the loop over the pairs, with the step of [pairoff] *)
Definition parse_pair (fields : list yclgen_field) (m : bytes) (pair : netstring_pair) (st : parse_state) : outcome (bytes * parse_state * bool) :=
  let '(r, b, pairoff) := st in
  let next i := (i + 1) mod zlen fields in
  found ← key_search (length fields) next (name <$> fields) m (key pair) pairoff pairoff;
  match found with
  | None => Ret (m, (r, b, next pairoff), true)
  | Some currpair =>
      f ← rd fields currpair;
      '(m, b, v) ← parse_member m pair f b;
      match v with
      | None => Ret (m, (r, b, pairoff), false)
      | Some v => r ← wr r currpair v; Ret (m, (r, b, next pairoff), true)
      end
  end.

(** what [memset] leaves *)
Definition zeroed (f : yclgen_field) : parsed :=
  match typ f with FT_DATAARR => PDataArr 0 0 | FT_LONGARR => PLongArr 0 0 | FT_DATA => PData None 0 | FT_LONG => PLong 0 end.

(** status and the struct *)
Definition ycl_msg_parse (fields : list yclgen_field) (msg : ycl_msg) : outcome (ycl_msg * list parsed * Z) :=
  let r := zeroed <$> fields in
  if zlen fields =? 0 then Ret (msg, r, YCL_OK)
  else
    let msg := set_mbuf msg (buf_clear (mbuf msg)) in
    '(m, p) ← netstring_parse (data (buf msg)) 0 (Buf.len (buf msg));
    let with_data m b := set_mbuf (set_buf msg (Buf (cap (buf msg)) (Buf.len (buf msg)) m)) b in
    match p with
    | inr _ => Ret (with_data m (mbuf msg), r, YCL_ERR)
    | inl (curr, len) =>
        '(m, (r, b, _), ok) ← foreach_pair (parse_pair fields) (S (Z.to_nat len)) m curr len (r, mbuf msg, 0);
        Ret (with_data m b, r, if (ok : bool) then YCL_OK else YCL_ERR)
    end.

End Generated.

(** ** Numbers *)

Definition oct_ok (c : Z) : Prop := 48 <= c <= 55.
Definition oval (v : Z) (ds : bytes) : Z := foldl (fun v c => v * 8 + (c - 48)) v ds.

Lemma oval_snoc v ds c : oval v (ds ++ [c]) = oval v ds * 8 + (c - 48).
Proof. unfold oval. by rewrite foldl_app. Qed.

Lemma i64_sub_mod a b : a mod 2 ^ 64 = b mod 2 ^ 64 -> i64 a = i64 b.
Proof. intros E. unfold sw. by rewrite (Z.add_mod a), (Z.add_mod b), E by lia. Qed.

Lemma i64_mod a : i64 a mod 2 ^ 64 = a mod 2 ^ 64.
Proof. exact (uw_sw 64 a eq_refl). Qed.

Lemma s2l_spec pre ds c post n : Forall oct_ok ds -> ~ oct_ok c -> (length ds < n)%nat ->
  s2l n (pre ++ ds ++ c :: post) (zlen pre) 0 = Ret (i64 (oval 0 ds)).
Proof.
  intros Hds Hc Hn0. enough (H : forall v pre n, (length ds < n)%nat -> s2l n (pre ++ ds ++ c :: post) (zlen pre) (i64 v) = Ret (i64 (oval v ds))) by exact (H 0 pre n Hn0).
  clear Hn0 pre n. induction ds as [|d ds IH]; intros v pre n Hn; (destruct n as [|n]; [lia|]); cbn [s2l app].
  - rewrite rd_mid. cbn [mbind outcome_mbind]. case_match eqn:E; [|done].
    apply andb_prop in E as [? ?]. zbool. by destruct Hc.
  - apply Forall_cons in Hds as [Hd Hds]. rewrite rd_mid. cbn [mbind outcome_mbind]. unfold oct_ok in Hd.
    rewrite (proj2 (Z.leb_le 48 d)), (proj2 (Z.leb_le d 55)) by lia. cbn [andb].
    replace (pre ++ d :: ds ++ c :: post) with ((pre ++ [d]) ++ ds ++ c :: post) by (by rewrite <- app_assoc).
    replace (zlen pre + 1) with (zlen (pre ++ [d])) by (by rewrite zlen_app).
    replace (i64 (i64 (Z.shiftl (i64 v) 3) + (d - 48))) with (i64 (v * 8 + (d - 48))); [|].
    + apply (IH Hds (v * 8 + (d - 48)) (pre ++ [d]) n). cbn [length] in Hn. lia.
    + apply i64_sub_mod. rewrite (Z.add_mod (i64 (Z.shiftl (i64 v) 3))), i64_mod by lia. rewrite Z.shiftl_mul_pow2 by lia.
      rewrite (Z.mul_mod (i64 v)), i64_mod by lia. rewrite <- Z.mul_mod by lia. by rewrite <- Z.add_mod by lia.
Qed.

Lemma l2s_spec len : forall l acc, exists ds, l2s len l acc = ds ++ acc /\ Forall oct_ok ds /\ (length ds <= len)%nat /\
  oval 0 ds = l mod 8 ^ Z.of_nat len.
Proof.
  induction len as [|len IH]; intros l acc; cbn [l2s].
  - exists []. split; [done|]. split; [done|]. split; [done|]. by rewrite Z.mod_1_r.
  - assert (Hd : Z.land l 7 = l mod 8) by (exact (land_mask 3 l ltac:(lia))).
    assert (Hs : Z.shiftr l 3 = l / 8) by (exact (shiftr_div 3 l ltac:(lia))). rewrite Hd, Hs.
    assert (Hm : 0 <= l mod 8 < 8) by (apply Z.mod_pos_bound; lia).
    assert (Hoct : oct_ok (48 + l mod 8)) by (unfold oct_ok; lia).
    replace (8 ^ Z.of_nat (S len)) with (8 * 8 ^ Z.of_nat len) by (rewrite Nat2Z.inj_succ, Z.pow_succ_r by lia; done).
    assert (Hpow : 0 < 8 ^ Z.of_nat len) by (apply Z.pow_pos_nonneg; lia). rewrite Z.rem_mul_r by lia.
    destruct (Z.eqb_spec (l / 8) 0) as [E|E].
    + exists [48 + l mod 8]. split; [done|]. split; [by apply Forall_singleton|]. split; [cbn [length]; lia|]. unfold oval. cbn [foldl]. rewrite E, Z.mod_0_l by lia. lia.
    + destruct (IH (l / 8) ((48 + l mod 8) :: acc)) as (ds & -> & Hds & Hl & Hv). exists (ds ++ [48 + l mod 8]).
      split; [by rewrite <- app_assoc|]. split; [apply Forall_app; split; [done|by apply Forall_singleton]|]. split; [rewrite length_app; cbn [length]; lia|]. rewrite oval_snoc, Hv. lia.
Qed.

Definition is_long (l : Z) : Prop := - 2 ^ 63 <= l < 2 ^ 63.

Lemma numbuf_spec l : is_long l -> Forall oct_ok (numbuf l) /\ zlen (numbuf l) <= 48 /\ i64 (oval 0 (numbuf l)) = l.
Proof.
  intros Hl. destruct (l2s_spec 48 l []) as (ds & E & Hds & Hlen & Hv). unfold numbuf. rewrite E, app_nil_r.
  split; [done|]. split; [unfold zlen; lia|]. rewrite Hv. rewrite <- (sw_small 64 l) at 2; [|lia|exact Hl]. apply i64_sub_mod.
  change (8 ^ Z.of_nat 48) with (2 ^ 64 * 2 ^ 80). rewrite Z.rem_mul_r by lia. by rewrite (Z.mul_comm (2 ^ 64) ((l / 2 ^ 64) mod 2 ^ 80)), Z.mod_add, Z.mod_mod by lia.
Qed.

(** negative numbers are read back because the shift of [s2l] drops their
    leading digits *)
Lemma s2l_numbuf l pre c post n : is_long l -> ~ oct_ok c -> (length (numbuf l) < n)%nat ->
  s2l n (pre ++ numbuf l ++ c :: post) (zlen pre) 0 = Ret l.
Proof.
  intros Hl Hc Hn. destruct (numbuf_spec l Hl) as (Ho & Hz & Hv). rewrite s2l_spec by done. by rewrite Hv.
Qed.

Lemma numbuf_bytes l : is_long l -> Forall is_byte (numbuf l).
Proof. intros (H & _)%numbuf_spec. eapply Forall_impl; [exact H|]. intros c. unfold oct_ok, is_byte. lia. Qed.

(** ** What is written *)

Definition typed (f : yclgen_field) (v : member) : Prop :=
  match typ f, v with
  | FT_DATA, Data d => Forall is_byte d
  | FT_LONG, Long l => is_long l
  | FT_DATAARR, DataArr ds => Forall (Forall is_byte) ds
  | FT_LONGARR, LongArr ls => Forall is_long ls
  | _, _ => False
  end.

(** a member that is zero or empty is left out *)
Definition sent (v : member) : bool :=
  match v with
  | Data d => 0 <? zlen d
  | Long l => negb (l =? 0)
  | DataArr ds => 0 <? zlen ds
  | LongArr ls => 0 <? zlen ls
  end.

Definition elems_of (v : member) : list bytes :=
  match v with DataArr ds => ds | LongArr ls => numbuf <$> ls | _ => [] end.

Definition value_text (v : member) (t : bytes) : Prop :=
  match v with
  | Data d => t = d
  | Long l => t = numbuf l
  | DataArr _ | LongArr _ => exists es, Forall2 encodes (elems_of v) es /\ t = concat es
  end.

(** the pairs of a struct *)
Inductive pairs_of : list yclgen_field -> list member -> list (bytes * bytes) -> Prop :=
  | pairs_nil : pairs_of [] [] []
  | pairs_skip f v fields r ps : sent v = false -> pairs_of fields r ps -> pairs_of (f :: fields) (v :: r) ps
  | pairs_cons f v t fields r ps : sent v = true -> value_text v t -> pairs_of fields r ps -> pairs_of (f :: fields) (v :: r) ((name f, t) :: ps).

(** a bound of the bytes that a struct becomes *)
Definition member_size (v : member) : Z :=
  match v with Data d => zlen d | Long _ => 48 | DataArr _ | LongArr _ => total (elems_of v) end.

Fixpoint struct_size (fields : list yclgen_field) (r : list member) : Z :=
  match fields, r with
  | f :: fields, v :: r => zlen (name f) + member_size v + 98 + struct_size fields r
  | _, _ => 0
  end.

Lemma member_size_nonneg v : 0 <= member_size v.
Proof. destruct v; cbn [member_size]; [apply zlen_nonneg|lia|apply total_nonneg|apply total_nonneg]. Qed.

Lemma struct_size_nonneg fields : forall r, 0 <= struct_size fields r.
Proof.
  induction fields as [|f fields IH]; intros [|v r]; cbn [struct_size]; try lia.
  pose proof (member_size_nonneg v). pose proof (zlen_nonneg (name f)). specialize (IH r). lia.
Qed.

Lemma encodes_elems_length elems : forall es, Forall2 encodes elems es -> zlen (concat es) <= total elems /\ 3 * zlen elems <= zlen (concat es).
Proof.
  induction elems as [|x elems IH]; intros es Hes; [apply Forall2_nil_inv_l in Hes as ->; done|].
  apply Forall2_cons_inv_l in Hes as (e & es' & He & Hes & ->). cbn [concat total foldr]. fold (total elems). zlen_simpl.
  pose proof (encodes_length _ _ He). destruct (IH _ Hes). destruct (encodes_framed _ _ He) as (hdr & [E _] & _).
  destruct He as (ds & _ & Hne & _ & _ & E2). rewrite E2. zlen_simpl. pose proof (zlen_nonneg x).
  assert (0 < zlen ds) by (destruct ds; [done|]; zlen_simpl; pose proof (zlen_nonneg ds); lia). rewrite E2 in H. zlen_simpl. lia.
Qed.

Lemma value_text_size f v t : typed f v -> value_text v t -> zlen t <= member_size v.
Proof.
  unfold typed. intros Hty Ht. destruct v as [d|l|ds|ls]; cbn [value_text member_size] in *; [by subst t| | |].
  - subst t. destruct (typ f); try done. by apply numbuf_spec in Hty as (_ & ? & _).
  - destruct Ht as (es & Hes & ->). by apply encodes_elems_length.
  - destruct Ht as (es & Hes & ->). by apply encodes_elems_length.
Qed.

Lemma elems_bytes f v : typed f v -> Forall (Forall is_byte) (elems_of v).
Proof.
  unfold typed. destruct (typ f), v as [d|l|ds|ls]; try done; cbn [elems_of]; intros H; [|constructor..].
  apply Forall_fmap. eapply Forall_impl; [exact H|]. intros l. apply numbuf_bytes.
Qed.

Section Creating.
Context (alloc_ok : Z -> bool) (Halloc : forall n, alloc_ok n = true).
#[local] Abbreviation K := (2 ^ 60).

Lemma append_elems_all elems : forall b, fits K b -> Forall (Forall is_byte) elems -> len b + total elems <= 2 ^ 58 ->
  exists b' es, append_elems alloc_ok b elems = Ret (b', NETSTRING_OK) /\ fits K b' /\ Forall2 encodes elems es /\ contents b' = contents b ++ concat es.
Proof.
  induction elems as [|x elems IH]; intros b Hf Hb Hr; cbn [append_elems].
  - exists b, []. by rewrite app_nil_r.
  - apply Forall_cons in Hb as [Hx Hb]. cbn [total foldr] in Hr. fold (total elems) in Hr. pose proof (total_nonneg elems). pose proof (zlen_nonneg x).
    destruct (netstring_append_buf_all alloc_ok Halloc K b x Hf Hx ltac:(lia)) as (b1 & e & -> & Hf1 & He & E1). cbn [mbind outcome_mbind].
    change (negb (NETSTRING_OK =? NETSTRING_OK)) with false. cbv iota. pose proof (encodes_length _ _ He).
    pose proof (contents_length b (proj1 Hf)). pose proof (contents_length b1 (proj1 Hf1)) as L1. rewrite E1, zlen_app in L1.
    destruct (IH b1 Hf1 Hb ltac:(lia)) as (b2 & es & -> & Hf2 & Hes & E2). exists b2, (e :: es). split; [done|]. split; [done|].
    split; [by constructor|]. by rewrite E2, E1, <- app_assoc.
Qed.

(** what every step of the writer keeps *)
Record created (arrays : bool) (msg msg' : ycl_msg) (ps : list (bytes * bytes)) : Prop := Created {
  cr_buf : buf msg' = buf msg;
  cr_mbuf : fits K (mbuf msg');
  cr_optbuf : arrays = true -> fits K (optbuf msg');
  cr_off : sendoff msg' = sendoff msg /\ nextoff msg' = nextoff msg /\ mflags msg' = mflags msg;
  cr_pairs : exists es, Forall2 encodes_pair ps es /\ contents (mbuf msg') = contents (mbuf msg) ++ concat es;
}.

Lemma created_refl arrays msg : fits K (mbuf msg) -> (arrays = true -> fits K (optbuf msg)) -> created arrays msg msg [].
Proof. intros. split; [done|done|done|done|]. exists []. by rewrite app_nil_r. Qed.

Lemma created_trans arrays msg msg1 msg2 ps1 ps2 : created arrays msg msg1 ps1 -> created arrays msg1 msg2 ps2 -> created arrays msg msg2 (ps1 ++ ps2).
Proof.
  intros [B1 M1 O1 (S1 & N1 & F1) (es1 & H1 & C1)] [B2 M2 O2 (S2 & N2 & F2) (es2 & H2 & C2)]. split; [congruence|done|done|split; [|split]; congruence|].
  exists (es1 ++ es2). split; [by apply Forall2_app|]. by rewrite C2, C1, concat_app, app_assoc.
Qed.

Lemma create_pair_all arrays msg k t : fits K (mbuf msg) -> (arrays = true -> fits K (optbuf msg)) -> Forall is_byte k -> Forall is_byte t ->
  len (mbuf msg) + zlen k + zlen t + 98 <= 2 ^ 58 ->
  exists msg', create_pair alloc_ok msg k t = Ret (msg', NETSTRING_OK) /\ created arrays msg msg' [(k, t)].
Proof.
  intros Hf Ho Hk Ht Hr. unfold create_pair. pose proof (zlen_nonneg k). pose proof (zlen_nonneg t).
  destruct (netstring_append_pair_all alloc_ok K Halloc (mbuf msg) k t Hf Hk Ht ltac:(lia)) as (b & e & -> & Hf' & He & Hc). cbn [mbind outcome_mbind].
  eexists. split; [done|]. split; [done|done|done|done|]. exists [e]. split; [by constructor|]. cbn [concat]. by rewrite app_nil_r.
Qed.

Lemma create_array_all msg k elems : fits K (mbuf msg) -> fits K (optbuf msg) -> Forall is_byte k -> Forall (Forall is_byte) elems ->
  len (mbuf msg) + zlen k + total elems + 98 <= 2 ^ 58 ->
  exists msg' es, create_array alloc_ok msg k elems = Ret (msg', NETSTRING_OK) /\ Forall2 encodes elems es /\ created true msg msg' [(k, concat es)].
Proof.
  intros Hf (Hwo & Hco & HK) Hk He Hr. unfold create_array. pose proof (zlen_nonneg k). pose proof (total_nonneg elems). pose proof Hf as ([Hl _ _ _] & _ & _).
  destruct (cut_len (optbuf msg) 0 Hwo) as [Hw0 _]; [destruct Hwo; lia|].
  destruct (append_elems_all elems (buf_clear (optbuf msg))) as (b & es & -> & Hfb & Hes & Hc); [done|done|cbn [len buf_clear]; lia|].
  cbn [mbind outcome_mbind]. change (negb (NETSTRING_OK =? NETSTRING_OK)) with false. cbv iota. change (contents (buf_clear (optbuf msg))) with (@nil Z) in Hc. cbn [app] in Hc.
  destruct (encodes_elems_length _ _ Hes) as [Hle _]. rewrite Hc.
  destruct (create_pair_all true (set_optbuf msg b) k (concat es) Hf (fun _ => Hfb) Hk) as (msg' & -> & [B M O F P]).
  - rewrite <- Hc. apply contents_bytes, Hfb.
  - cbn [mbuf set_optbuf]. lia.
  - exists msg', es. split; [done|]. split; [done|]. by split.
Qed.

Definition is_array (f : yclgen_field) : bool := bool_decide (typ f = FT_DATAARR) || bool_decide (typ f = FT_LONGARR).

Definition member_pairs (f : yclgen_field) (v : member) (ps : list (bytes * bytes)) : Prop :=
  (sent v = false /\ ps = []) \/ (sent v = true /\ exists t, value_text v t /\ ps = [(name f, t)]).

Lemma create_member_all arrays msg f v : typed f v -> Forall is_byte (name f) -> fits K (mbuf msg) -> (arrays = true -> fits K (optbuf msg)) ->
  (is_array f = true -> arrays = true) -> len (mbuf msg) + zlen (name f) + member_size v + 98 <= 2 ^ 58 ->
  exists msg' ps, create_member alloc_ok msg f v = Ret (msg', NETSTRING_OK) /\ member_pairs f v ps /\ created arrays msg msg' ps.
Proof.
  intros Hty Hn Hf Ho Ha Hr. pose proof (created_refl arrays msg Hf Ho) as Hrefl. unfold typed in Hty. unfold create_member, member_pairs, is_array in *.
  destruct v as [d|l|ds|ls]; cbn [sent member_size elems_of] in *.
  - destruct (Z.ltb_spec 0 (zlen d)); [|exists msg, []; split; [done|]; split; [by left|done]].
    destruct (create_pair_all arrays msg (name f) d Hf Ho Hn) as (msg' & E & Hc); [by destruct (typ f)|lia|].
    exists msg', [(name f, d)]. split; [done|]. split; [|done]. right. split; [done|]. by exists d.
  - destruct (negb (l =? 0)); [|exists msg, []; split; [done|]; split; [by left|done]].
    assert (Hl : is_long l) by (by destruct (typ f)). destruct (numbuf_spec l Hl) as (_ & Hz & _).
    destruct (create_pair_all arrays msg (name f) (numbuf l) Hf Ho Hn (numbuf_bytes l Hl)) as (msg' & E & Hc); [lia|].
    exists msg', [(name f, numbuf l)]. split; [done|]. split; [|done]. right. split; [done|]. by exists (numbuf l).
  - destruct (Z.ltb_spec 0 (zlen ds)); [|exists msg, []; split; [done|]; split; [by left|done]].
    assert (Harr : arrays = true) by (apply Ha; destruct (typ f); done). subst arrays.
    destruct (create_array_all msg (name f) ds Hf (Ho eq_refl) Hn) as (msg' & es & E & Hes & Hc); [by destruct (typ f)|lia|].
    exists msg', [(name f, concat es)]. split; [done|]. split; [|done]. right. split; [done|]. exists (concat es). split; [by exists es|done].
  - destruct (Z.ltb_spec 0 (zlen ls)); [|exists msg, []; split; [done|]; split; [by left|done]].
    assert (Harr : arrays = true) by (apply Ha; destruct (typ f); done). subst arrays.
    destruct (create_array_all msg (name f) (numbuf <$> ls) Hf (Ho eq_refl) Hn) as (msg' & es & E & Hes & Hc); [|lia|].
    { apply Forall_fmap. destruct (typ f); try done. eapply Forall_impl; [exact Hty|]. intros l. apply numbuf_bytes. }
    exists msg', [(name f, concat es)]. split; [done|]. split; [|done]. right. split; [done|]. exists (concat es). split; [by exists es|done].
Qed.

Lemma member_pairs_size f v ps es : typed f v -> member_pairs f v ps -> Forall2 encodes_pair ps es -> zlen (concat es) <= zlen (name f) + member_size v + 98.
Proof.
  intros Hty Hw Hes. pose proof (encodes_pairs_bound _ _ Hes) as Hb. pose proof (member_size_nonneg v). pose proof (zlen_nonneg (name f)).
  destruct Hw as [[_ ->]|(_ & t & Ht & ->)]; cbn in Hb; [lia|]. pose proof (value_text_size f v t Hty Ht). lia.
Qed.

Lemma create_members_all arrays fields : forall r msg, Forall2 typed fields r -> Forall (fun f => Forall is_byte (name f) /\ (is_array f = true -> arrays = true)) fields ->
  fits K (mbuf msg) -> (arrays = true -> fits K (optbuf msg)) -> len (mbuf msg) + struct_size fields r <= 2 ^ 58 ->
  exists msg' ps, create_members alloc_ok msg fields r = Ret (msg', NETSTRING_OK) /\ pairs_of fields r ps /\ created arrays msg msg' ps.
Proof.
  induction fields as [|f fields IH]; intros r msg Hty Hfs Hf Ho Hr.
  - apply Forall2_nil_inv_l in Hty as ->. exists msg, []. split; [done|]. split; [constructor|by apply created_refl].
  - apply Forall2_cons_inv_l in Hty as (v & r' & Hv & Hty & ->). apply Forall_cons in Hfs as [[Hn Ha] Hfs]. cbn [create_members struct_size] in *.
    pose proof (struct_size_nonneg fields r'). pose proof (member_size_nonneg v). pose proof (zlen_nonneg (name f)).
    destruct (create_member_all arrays msg f v Hv Hn Hf Ho Ha) as (msg1 & ps1 & -> & Hw & Hc1); [lia|]. cbn [mbind outcome_mbind].
    change (negb (NETSTRING_OK =? NETSTRING_OK)) with false. cbv iota.
    destruct (IH r' msg1 Hty Hfs (cr_mbuf _ _ _ _ Hc1) (cr_optbuf _ _ _ _ Hc1)) as (msg2 & ps2 & -> & Hps & Hc2).
    { destruct (cr_pairs _ _ _ _ Hc1) as (es & Hes & E). pose proof (member_pairs_size f v ps1 es Hv Hw Hes).
      pose proof (contents_length _ (proj1 (cr_mbuf _ _ _ _ Hc1))) as L1. pose proof (contents_length _ (proj1 Hf)). rewrite E, zlen_app in L1. lia. }
    exists msg2, (ps1 ++ ps2). split; [done|]. split; [|by eapply created_trans].
    destruct Hw as [[Hs ->]|(Hs & t & Ht & ->)]; [by apply pairs_skip|by apply pairs_cons].
Qed.

Lemma pairs_of_size fields : forall r ps, Forall2 typed fields r -> pairs_of fields r ps -> pairs_total ps <= struct_size fields r.
Proof.
  induction fields as [|f fields IH]; intros r ps Hty Hps; inversion Hps; subst; cbn [struct_size pairs_total foldr]; [lia| |];
    apply Forall2_cons in Hty as [Hv Hty]; pose proof (member_size_nonneg v); pose proof (zlen_nonneg (name f)).
  - specialize (IH _ _ Hty ltac:(eassumption)). lia.
  - specialize (IH _ _ Hty ltac:(eassumption)). fold (pairs_total ps0). pose proof (value_text_size f v t Hv ltac:(assumption)). cbn [fst snd]. lia.
Qed.

(** a message to write to *)
Record writable (msg : ycl_msg) : Prop := Writable {
  wr_buf : fits K (buf msg);
  wr_mbuf : fits K (mbuf msg);
  wr_optbuf : flag_set (mflags msg) YCLMSGF_HASOPTBUF = true -> fits K (optbuf msg);
}.

Lemma writable_reset msg : writable msg -> writable (ycl_msg_reset msg) /\ contents (buf (ycl_msg_reset msg)) = [] /\ contents (mbuf (ycl_msg_reset msg)) = [].
Proof.
  intros [Hb Hm Ho]. unfold ycl_msg_reset. split; [|done].
  split; cbn [buf mbuf optbuf mflags]; [by apply clear_fits|by apply clear_fits|]. intros Hf. rewrite Hf. apply clear_fits. by apply Ho.
Qed.

Lemma use_optbuf_all msg : writable msg -> exists msg', ycl_msg_use_optbuf alloc_ok msg = (msg', YCL_OK) /\ writable msg' /\
  flag_set (mflags msg') YCLMSGF_HASOPTBUF = true /\ buf msg' = buf msg /\ mbuf msg' = mbuf msg /\ sendoff msg' = sendoff msg /\ nextoff msg' = nextoff msg.
Proof.
  intros Hw. pose proof Hw as [Hb Hm Ho]. unfold ycl_msg_use_optbuf. destruct (flag_set (mflags msg) YCLMSGF_HASOPTBUF) eqn:Hf; cbn [negb].
  - exists msg. split; [done|]. split; [exact Hw|]. done.
  - unfold buf_init. rewrite Halloc. change (buf_align_offset BUFINITSZ) with 8192.
    assert (Hz : fits K (Buf 8192 0 (replicate (Z.to_nat 8192) 0))).
    { split; [|by split]. apply zeros_wf; [lia|by exists 1024]. }
    eexists. split; [reflexivity|]. split; [by split|]. split; [|done]. unfold flag_set. cbn [mflags]. rewrite Z.land_lor_distr_l. change (Z.land YCLMSGF_HASOPTBUF YCLMSGF_HASOPTBUF) with 1.
    rewrite Z.lor_comm. destruct (Z.eqb_spec (Z.lor 1 (Z.land (mflags msg) YCLMSGF_HASOPTBUF)) 0) as [E|]; [|done]. by apply Z.lor_eq_0_l in E.
Qed.

(** the fields of a message *)
Definition fields_ok (fields : list yclgen_field) : Prop := NoDup (name <$> fields) /\ Forall (fun f => cstring (name f)) fields.

Lemma has_arrays_spec fields f : f ∈ fields -> is_array f = true -> has_arrays fields = true.
Proof. intros Hin Ha. apply existsb_exists. exists f. split; [by apply list_elem_of_In|done]. Qed.

(** what is written *)
Definition message_of (fields : list yclgen_field) (r : list member) (e : bytes) : Prop :=
  exists ps es, pairs_of fields r ps /\ Forall2 encodes_pair ps es /\ encodes (concat es) e.

Lemma message_of_size fields r e : Forall2 typed fields r -> message_of fields r e -> zlen e <= struct_size fields r + 49.
Proof.
  intros Hty (ps & es & Hps & Hes & He). pose proof (encodes_length _ _ He). pose proof (encodes_pairs_bound _ _ Hes). pose proof (pairs_of_size _ _ _ Hty Hps). lia.
Qed.

Lemma ycl_msg_create_all fields msg r : fields_ok fields -> Forall2 typed fields r -> writable msg -> struct_size fields r <= 2 ^ 57 ->
  exists msg' e, ycl_msg_create alloc_ok fields msg r = Ret (msg', YCL_OK) /\ message_of fields r e /\ contents (buf msg') = e /\
    sendoff msg' = 0 /\ nextoff msg' = 0 /\ writable msg'.
Proof.
  intros [_ Hnames] Hty Hw Hsz. unfold ycl_msg_create, create_empty.
  destruct (Z.eqb_spec (zlen fields) 0) as [Hz|Hz].
  - assert (fields = []) as -> by (destruct fields; [done|]; zlen_simpl; pose proof (zlen_nonneg fields); lia). apply Forall2_nil_inv_l in Hty as ->.
    destruct (writable_reset msg Hw) as ([Hb0 Hm0 Ho0] & Hcb & _). pose proof (contents_length _ (proj1 Hb0)) as Lb. rewrite Hcb in Lb.
    destruct (buf_adata_all alloc_ok Halloc K (buf (ycl_msg_reset msg)) (lit "0:,") Hb0) as (b & -> & Hf & Hc); [by repeat constructor|rewrite <- Lb; by vm_compute|].
    cbn [mbind outcome_mbind]. rewrite Hcb in Hc. exists (set_buf (ycl_msg_reset msg) b), (lit "0:,"). split; [done|].
    split; [|split; [done|split; [done|split; [done|by split]]]].
    exists [], []. split; [constructor|]. split; [constructor|]. exists (lit "0"). split; [by repeat constructor|]. done.
  - assert (Hopt : exists msg1, (if has_arrays fields then ycl_msg_use_optbuf alloc_ok msg else (msg, YCL_OK)) = (msg1, YCL_OK) /\
      writable msg1 /\ (has_arrays fields = true -> flag_set (mflags msg1) YCLMSGF_HASOPTBUF = true)).
    { destruct (has_arrays fields); [|by exists msg]. destruct (use_optbuf_all msg Hw) as (msg1 & E & Hw1 & Ho & _). by exists msg1. }
    destruct Hopt as (msg1 & -> & Hw1 & Ho1). change (YCL_OK <? 0) with false. cbv iota. destruct (writable_reset msg1 Hw1) as (Hw0 & Hcb & Hcm).
    assert (Ho0 : has_arrays fields = true -> flag_set (mflags (ycl_msg_reset msg1)) YCLMSGF_HASOPTBUF = true) by done.
    assert (Hoff : sendoff (ycl_msg_reset msg1) = 0 /\ nextoff (ycl_msg_reset msg1) = 0) by done. generalize dependent (ycl_msg_reset msg1). clear msg1 Hw1 Ho1.
    intros msg1 Hw1 Hcb Hcm Ho1 [Hs1 Hn1].
    pose proof (contents_length _ (proj1 (wr_buf _ Hw1))) as Lb. pose proof (contents_length _ (proj1 (wr_mbuf _ Hw1))) as Lm. rewrite Hcb in Lb. rewrite Hcm in Lm. change (zlen (@nil Z)) with 0 in *.
    destruct (create_members_all (flag_set (mflags msg1) YCLMSGF_HASOPTBUF) fields r msg1 Hty) as (msg2 & ps & -> & Hps & [Cb Cm Co (Cs & Cn & Cf) (es & Hes & Ec)]); [|apply Hw1|apply Hw1|lia|].
    { apply Forall_forall. intros f Hin. split; [|intros Ha; by apply Ho1, (has_arrays_spec fields f)]. eapply Forall_forall in Hnames; [|exact Hin].
      eapply Forall_impl; [exact Hnames|]. unfold is_byte. cbn. lia. }
    cbn [mbind outcome_mbind]. change (negb (NETSTRING_OK =? NETSTRING_OK)) with false. cbv iota. rewrite Hcm in Ec. cbn [app] in Ec.
    pose proof (encodes_pairs_bound _ _ Hes) as Hbd. pose proof (pairs_of_size _ _ _ Hty Hps).
    destruct (netstring_append_buf_all alloc_ok Halloc K (buf msg2) (contents (mbuf msg2))) as (b & e & -> & Hf & He & Hc).
    { rewrite Cb. apply Hw1. }
    { apply contents_bytes, Cm. }
    { rewrite Ec, Cb. lia. }
    cbn [mbind outcome_mbind]. exists (set_buf msg2 b), e. rewrite Ec in He. rewrite Cb, Hcb in Hc.
    split; [done|]. split; [by exists ps, es|]. split; [done|]. split; [cbn; congruence|]. split; [cbn; congruence|]. split; [done|done|]. cbn [mflags optbuf set_buf]. rewrite Cf. done.
Qed.

End Creating.

(** ** What is read *)

Lemma netstring_next_framed pre hdr str e tl post : framed hdr str e -> zlen pre + zlen (e ++ tl) < 2 ^ 62 ->
  netstring_next (pre ++ (e ++ tl) ++ post) (zlen pre) (zlen (e ++ tl))
  = Ret ((pre ++ hdr) ++ str ++ 0 :: tl ++ post, inl (zlen (pre ++ hdr), zlen str), zlen (pre ++ e), zlen tl).
Proof.
  intros Fr Hb. pose proof (zlen_nonneg pre). pose proof (zlen_nonneg tl). pose proof (zlen_nonneg str). pose proof (zlen_nonneg hdr).
  assert (Ee : zlen e = zlen hdr + zlen str + 1) by (rewrite (proj1 Fr); zlen_simpl; lia).
  assert (Hz : zlen (e ++ tl) = zlen e + zlen tl) by (by zlen_simpl).
  unfold netstring_next. rewrite (proj2 (Z.eqb_neq _ _)) by lia. rewrite (netstring_parse_encoded pre hdr str e tl post Fr Hb). cbn [mbind outcome_mbind].
  rewrite uw_small by lia. rewrite (proj2 (Z.ltb_ge _ _)) by lia. rewrite <- !app_assoc. cbn [app]. rewrite !zlen_app, Ee. do 3 f_equal; lia.
Qed.

Section Loading.
Context (alloc_ok : Z -> bool) (Halloc : forall n, alloc_ok n = true).
#[local] Abbreviation K := (2 ^ 60).

Section Elements.
Context (cell : bytes -> Z -> Z -> outcome bytes) (cell_of : bytes -> Z -> bytes) (P : bytes -> Prop).
Context (Hcell : forall pre str post, P str -> cell (pre ++ str ++ 0 :: post) (zlen pre) (zlen str) = Ret (cell_of str (zlen pre))).
Context (Hsize : forall str o, Forall is_byte (cell_of str o) /\ zlen (cell_of str o) <= 16).

Lemma load_elems_all elems : forall es pre post b count fuel, Forall2 encodes elems es -> Forall P elems -> Forall (Forall is_byte) elems -> (length elems < fuel)%nat ->
  zlen pre + zlen (concat es) < 2 ^ 62 -> fits K b -> len b + 16 * zlen elems <= 2 ^ 58 ->
  exists parsed b' offs, zlen parsed = zlen (concat es) /\
    load_elems alloc_ok fuel cell (pre ++ concat es ++ post) b (zlen pre) (zlen (concat es)) count = Ret (pre ++ parsed ++ post, b', count + zlen elems, true) /\
    fits K b' /\ len b' <= len b + 16 * zlen elems /\ contents b' = contents b ++ concat (zip_with cell_of elems offs) /\ Forall2 (slice (pre ++ parsed)) offs elems /\ Forall is_byte parsed.
Proof.
  induction elems as [|str elems IH]; intros es pre post b count fuel Hes Hp Hby Hfu Hb Hf Hr; (destruct fuel as [|fuel]; [lia|]); cbn [load_elems].
  - apply Forall2_nil_inv_l in Hes as ->. exists [], b, []. cbn. rewrite !app_nil_r, Z.add_0_r. split; [done|]. split; [done|]. split; [done|]. split; [change (zlen (@nil bytes)) with 0; lia|]. split; [done|]. by split.
  - apply Forall2_cons_inv_l in Hes as (e & es' & He & Hes & ->). apply Forall_cons in Hp as [Hp0 Hp]. apply Forall_cons in Hby as [Hby0 Hby]. cbn [concat length] in *.
    destruct (encodes_framed _ _ He) as (hdr & Fr & Hh). assert (Ee : zlen e = zlen hdr + zlen str + 1) by (rewrite (proj1 Fr); zlen_simpl; lia).
    pose proof (zlen_nonneg str). pose proof (zlen_nonneg (concat es')). pose proof (zlen_nonneg elems).
    rewrite zlen_app in Hb. rewrite zlen_cons in Hr. rewrite (proj2 (Z.ltb_lt _ _)) by (rewrite zlen_app; lia).
    rewrite (netstring_next_framed pre hdr str e (concat es') post Fr) by (rewrite zlen_app; lia). cbn [mbind outcome_mbind].
    rewrite (Hcell (pre ++ hdr) str _ Hp0). cbn [mbind outcome_mbind]. destruct (Hsize str (zlen (pre ++ hdr))) as [Hcb Hcl].
    destruct (buf_adata_all alloc_ok Halloc K b (cell_of str (zlen (pre ++ hdr))) Hf Hcb) as (b1 & -> & Hf1 & Hc1); [lia|]. cbn [mbind outcome_mbind Z.ltb].
    pose proof (contents_length b (proj1 Hf)). pose proof (contents_length b1 (proj1 Hf1)) as L1. rewrite Hc1, zlen_app in L1.
    destruct (IH es' (pre ++ hdr ++ str ++ [0]) post b1 (count + 1) fuel Hes Hp Hby ltac:(lia)) as (parsed & b2 & offs & Hpl & E & Hf2 & Hl2 & Hc2 & Hoffs & Hpb); [zlen_simpl; lia|done|lia|].
    exists (hdr ++ str ++ [0] ++ parsed), b2, (zlen (pre ++ hdr) :: offs). split; [zlen_simpl; lia|]. split.
    { replace ((pre ++ hdr) ++ str ++ 0 :: concat es' ++ post) with ((pre ++ hdr ++ str ++ [0]) ++ concat es' ++ post) by (by rewrite <- !app_assoc).
      replace (zlen (pre ++ e)) with (zlen (pre ++ hdr ++ str ++ [0])) by (zlen_simpl; lia). change (0 <? 0) with false. cbv iota. rewrite E, <- !app_assoc, zlen_cons.
      do 3 f_equal. lia. }
    split; [done|]. split; [zlen_simpl; lia|]. split; [by rewrite Hc2, Hc1, <- app_assoc|].
    replace (pre ++ hdr ++ str ++ [0] ++ parsed) with ((pre ++ hdr ++ str ++ [0]) ++ parsed) by (by rewrite <- !app_assoc).
    split; [|apply Forall_app; split; [by eapply framed_bytes|]; apply Forall_app; split; [done|]; by constructor].
    constructor; [|done]. replace ((pre ++ hdr ++ str ++ [0]) ++ parsed) with ((pre ++ hdr) ++ str ++ [0] ++ parsed) by (by rewrite <- !app_assoc). apply slice_mid.
Qed.

Lemma load_array_all elems es pre post b : Forall2 encodes elems es -> Forall P elems -> Forall (Forall is_byte) elems ->
  zlen pre + zlen (concat es) < 2 ^ 62 -> fits K b -> len b + 8 + 16 * zlen elems <= 2 ^ 58 ->
  exists parsed b' offs off, zlen parsed = zlen (concat es) /\
    load_array alloc_ok cell (pre ++ concat es ++ post) b (zlen pre) (zlen (concat es)) = Ret (pre ++ parsed ++ post, b', Some (off, zlen elems)) /\
    fits K b' /\ len b' <= len b + 8 + 16 * zlen elems /\ (exists x, contents b' = contents b ++ x) /\
    slice (contents b') off (concat (zip_with cell_of elems offs)) /\ (8 | off) /\ Forall2 (slice (pre ++ parsed)) offs elems /\ Forall is_byte parsed.
Proof.
  intros Hes Hp Hby Hb Hf Hr. pose proof (zlen_nonneg elems). unfold load_array.
  destruct (buf_align_all alloc_ok Halloc K b Hf ltac:(lia)) as (b1 & -> & Hf1 & Ha & pad & Hc1 & Hpad). cbn [mbind outcome_mbind]. change (0 <? 0) with false. cbv iota.
  pose proof (contents_length b (proj1 Hf)). pose proof (contents_length b1 (proj1 Hf1)) as L1. pose proof L1 as L1'. rewrite Hc1, zlen_app in L1'.
  destruct (encodes_elems_length _ _ Hes) as [_ Hlen].
  destruct (load_elems_all elems es pre post b1 0 (S (Z.to_nat (zlen (concat es)))) Hes Hp Hby) as (parsed & b2 & offs & Hpl & -> & Hf2 & Hl2 & Hc2 & Hoffs);
    [unfold zlen in *; lia|lia|done|lia|]. cbn [mbind outcome_mbind]. exists parsed, b2, offs, (len b1). split; [done|]. split; [done|]. split; [done|]. split; [lia|].
  split; [eexists; by rewrite Hc2, Hc1, <- app_assoc|]. split; [|done]. rewrite Hc2, <- L1. rewrite <- (app_nil_r (concat _)) at 1. apply slice_mid.
Qed.
End Elements.

(** ** Members *)

(** [mb] holds the cells of arrays, [m] the bytes that they point to *)
Definition shows (m mb : bytes) (v : member) (p : parsed) : Prop :=
  match v, p with
  | Data d, PData off len => len = zlen d /\ match off with Some off => slice m off d | None => d = [] end
  | Long l, PLong l' => l' = l
  | DataArr ds, PDataArr off n => n = zlen ds /\ (8 | off) /\ exists offs,
      Forall2 (slice m) offs ds /\ slice mb off (concat (zip_with (fun d o => le64 (zlen d) ++ le64 o) ds offs))
  | LongArr ls, PLongArr off n => n = zlen ls /\ (8 | off) /\ slice mb off (concat (le64 <$> ls))
  | _, _ => False
  end.

Lemma shows_app m mb v p x y : shows m mb v p -> shows (m ++ x) (mb ++ y) v p.
Proof.
  destruct v as [d|l|ds|ls], p as [off len|l'|off n|off n]; cbn [shows]; try done.
  - intros [-> H]. split; [done|]. destruct off; [by apply slice_app|done].
  - intros (-> & Ha & offs & Ho & Hs). split; [done|]. split; [done|]. exists offs. split; [|by apply slice_app].
    eapply Forall2_impl; [exact Ho|]. intros o d. apply slice_app.
  - intros (-> & Ha & Hs). split; [done|]. split; [done|]. by apply slice_app.
Qed.

Lemma shows_zeroed f v : typed f v -> sent v = false -> shows [] [] v (zeroed f).
Proof.
  unfold typed, zeroed. destruct (typ f), v as [d|l|ds|ls]; try done; cbn [sent shows]; intros _ H; zbool.
  - assert (ds = []) as -> by (destruct ds; [done|]; zlen_simpl; pose proof (zlen_nonneg ds); lia). split; [done|]. split; [by exists 0|]. by exists [].
  - assert (ls = []) as -> by (destruct ls; [done|]; zlen_simpl; pose proof (zlen_nonneg ls); lia). split; [done|]. split; [by exists 0|]. done.
  - assert (d = []) as -> by (destruct d; [done|]; zlen_simpl; pose proof (zlen_nonneg d); lia). done.
  - done.
Qed.

Lemma long_cell_numbuf pre l post : is_long l ->
  long_cell (pre ++ numbuf l ++ 0 :: post) (zlen pre) (zlen (numbuf l)) = Ret (le64 l).
Proof.
  intros Hl. unfold long_cell. rewrite s2l_numbuf; [done|done|unfold oct_ok; lia|]. rewrite !length_app. cbn [length]. lia.
Qed.

(** the bytes that a number was written with determine the cell *)
Definition long_cell_of (str : bytes) : bytes := le64 (i64 (oval 0 str)).

Lemma long_cell_spec pre str post : Forall oct_ok str -> long_cell (pre ++ str ++ 0 :: post) (zlen pre) (zlen str) = Ret (long_cell_of str).
Proof.
  intros Ho. unfold long_cell. rewrite s2l_spec; [done|done|unfold oct_ok; lia|]. rewrite !length_app. cbn [length]. lia.
Qed.

Lemma long_cells ls : forall offs, Forall is_long ls -> length offs = length ls ->
  zip_with (fun str (_ : Z) => long_cell_of str) (numbuf <$> ls) offs = le64 <$> ls.
Proof.
  induction ls as [|l ls IH]; intros [|o offs] Hl Hlen; try done. apply Forall_cons in Hl as [Hl Hls]. rewrite !fmap_cons. cbn [zip_with]. rewrite IH by (done || by injection Hlen).
  unfold long_cell_of. destruct (numbuf_spec l Hl) as (_ & _ & E). by rewrite E.
Qed.

Lemma parse_member_all pre f v t tl b (pair : netstring_pair) : typed f v -> value_text v t -> value pair = zlen pre -> valuelen pair = zlen t ->
  zlen pre + zlen t < 2 ^ 62 -> fits K b -> len b + 8 + 16 * zlen t <= 2 ^ 58 ->
  exists t' b' p, zlen t' = zlen t /\ parse_member alloc_ok (pre ++ t ++ 0 :: tl) pair f b = Ret (pre ++ t' ++ 0 :: tl, b', Some p) /\
    shows (pre ++ t') (contents b') v p /\ fits K b' /\ len b' <= len b + 8 + 16 * zlen t /\ (exists x, contents b' = contents b ++ x) /\ Forall is_byte t'.
Proof.
  intros Hty Ht Ev El Hb Hf Hr. pose proof (zlen_nonneg t). unfold parse_member. rewrite Ev, El. unfold typed in Hty.
  destruct (typ f), v as [d|l|ds|ls]; try done; cbn [value_text elems_of] in Ht.
  - destruct Ht as (es & Hes & ->). destruct (encodes_elems_length _ _ Hes) as [_ Hlen]. pose proof (zlen_nonneg ds).
    assert (Hsize : forall (str : bytes) o, Forall is_byte (le64 (zlen str) ++ le64 o) /\ zlen (le64 (zlen str) ++ le64 o) <= 16).
    { intros str o. destruct (le64_bytes (zlen str)), (le64_bytes o). split; [by apply Forall_app|]. rewrite zlen_app. lia. }
    destruct (load_array_all data_cell (fun d o => le64 (zlen d) ++ le64 o) (fun _ => True) ltac:(done) Hsize ds es pre (0 :: tl) b Hes)
      as (t' & b' & offs & off & Hl & E & Hf' & Hlb & Hx & Hs & Ha & Ho & Hpb); [by apply Forall_true|done|lia|done|lia|].
    unfold load_datas. rewrite E. cbn [mbind outcome_mbind]. exists t', b', (PDataArr off (zlen ds)). split; [done|]. split; [done|].
    split; [|split; [done|split; [lia|done]]]. split; [done|]. split; [done|]. by exists offs.
  - destruct Ht as (es & Hes & ->). destruct (encodes_elems_length _ _ Hes) as [_ Hlen]. pose proof (zlen_nonneg (numbuf <$> ls)).
    assert (Hsize : forall (str : bytes) (o : Z), Forall is_byte (long_cell_of str) /\ zlen (long_cell_of str) <= 16).
    { intros str o. destruct (le64_bytes (i64 (oval 0 str))). split; [done|]. unfold long_cell_of. lia. }
    destruct (load_array_all long_cell (fun str _ => long_cell_of str) (Forall oct_ok) long_cell_spec Hsize (numbuf <$> ls) es pre (0 :: tl) b Hes)
      as (t' & b' & offs & off & Hl & E & Hf' & Hlb & Hx & Hs & Ha & Ho & Hpb); [|by apply Forall_fmap; eapply Forall_impl; [exact Hty|]; intros l; apply numbuf_bytes|lia|done|lia|].
    { apply Forall_fmap. eapply Forall_impl; [exact Hty|]. intros l Hl. by apply numbuf_spec. }
    unfold load_longs. rewrite E. cbn [mbind outcome_mbind]. exists t', b', (PLongArr off (zlen ls)). split; [done|].
    assert (En : zlen (numbuf <$> ls) = zlen ls) by (unfold zlen; by rewrite length_fmap).
    split; [by rewrite En|]. split; [|split; [done|split; [lia|done]]]. split; [done|]. split; [done|].
    rewrite long_cells in Hs; [done|done|]. apply Forall2_length in Ho. by rewrite length_fmap in Ho.
  - subst t. exists d, b, (PData (Some (zlen pre)) (zlen d)). split; [done|]. split; [done|]. split; [|split; [done|split; [lia|split; [exists []; by rewrite app_nil_r|done]]]].
    split; [done|]. rewrite <- (app_nil_r d) at 1. apply slice_mid.
  - subst t. exists (numbuf l), b, (PLong l). split; [done|]. split.
    { rewrite s2l_numbuf; [done|done|unfold oct_ok; lia|]. rewrite !length_app. cbn [length]. lia. }
    split; [done|]. split; [done|]. split; [lia|]. split; [exists []; by rewrite app_nil_r|by apply numbuf_bytes].
Qed.

(** ** Structs *)

Lemma pairs_of_written fields : forall r ps, pairs_of fields r ps ->
  (forall k t, (k, t) ∈ ps -> exists i f v, fields !! i = Some f /\ r !! i = Some v /\ name f = k /\ value_text v t) /\
  (forall i f v, fields !! i = Some f -> r !! i = Some v -> name f ∉ fst <$> ps -> sent v = false) /\
  (NoDup (name <$> fields) -> NoDup (fst <$> ps)) /\ length r = length fields.
Proof.
  induction fields as [|f fields IH]; intros r ps Hps; inversion Hps; subst.
  - split; [by intros k t ?%not_elem_of_nil|]. split; [done|]. split; [constructor|done].
  - destruct (IH _ _ ltac:(eassumption)) as (A1 & A2 & A3 & A4). split; [|split; [|split]].
    + intros k t Hin. destruct (A1 k t Hin) as (i & f' & v' & ?). by exists (S i), f', v'.
    + intros [|i] f' v' Hf Hv; [by injection Hv as <-|by eapply A2].
    + intros [_ Hnd]%NoDup_cons. by apply A3.
    + cbn [length]. lia.
  - destruct (IH _ _ ltac:(eassumption)) as (A1 & A2 & A3 & A4). split; [|split; [|split]].
    + intros k t' [[= -> ->]|Hin]%elem_of_cons; [by exists 0%nat, f, v|]. destruct (A1 k t' Hin) as (i & f' & v' & ?). by exists (S i), f', v'.
    + rewrite fmap_cons. intros [|i] f' v' Hf Hv Hno; [injection Hf as <-; cbn [fst] in Hno; set_solver|]. apply (A2 i f' v' Hf Hv). set_solver.
    + rewrite !fmap_cons. intros [Hk Hnd]%NoDup_cons. apply NoDup_cons. split; [|by apply A3]. cbn [fst]. intros ([k t'] & Heq & Hin)%list_elem_of_fmap. cbn [fst] in Heq.
      destruct (A1 _ _ Hin) as (i & f' & v' & Hf & _ & Hn & _). apply Hk. apply list_elem_of_fmap. exists f'. split; [congruence|by eapply list_elem_of_lookup_2].
    + cbn [length]. lia.
Qed.

Section Struct.
Context (fields : list yclgen_field) (r : list member) (all : list (bytes * bytes)).
Context (Hfields : fields_ok fields) (Htyped : Forall2 typed fields r) (Hall : pairs_of fields r all).

(** what has been read behind [pre] when the pairs [ps] are left *)
Definition read_inv (pre : bytes) (ps : list (bytes * bytes)) (st : parse_state) : Prop :=
  let '(rs, b, pairoff) := st in
  0 <= pairoff < zlen fields /\ length rs = length fields /\ fits K b /\ len b + 16 * pairs_total ps <= 2 ^ 58 /\ Forall is_byte pre /\
  exists seen, all = seen ++ ps /\ forall i f v, fields !! i = Some f -> r !! i = Some v -> exists p, rs !! i = Some p /\
    (name f ∈ fst <$> seen -> shows pre (contents b) v p) /\ (name f ∉ fst <$> seen -> p = zeroed f).

Lemma parse_pair_step pre hk k hv t ps st tl : Forall is_byte hk -> Forall is_byte hv -> read_inv pre ((k, t) :: ps) st ->
  zlen pre + zlen (pair_parsed hk k hv t) < 2 ^ 62 ->
  exists parsed st', zlen parsed = zlen (pair_parsed hk k hv t) /\
    parse_pair alloc_ok fields (pre ++ pair_parsed hk k hv t ++ tl) (Pair (zlen pre + zlen hk) (zlen k) (zlen pre + zlen hk + zlen k + 1 + zlen hv) (zlen t)) st
    = Ret (pre ++ parsed ++ tl, st', true) /\ read_inv (pre ++ parsed) ps st'.
Proof.
  destruct st as [[rs b] pairoff]. intros Hhk Hhv (Hoff & Hl & Hf & Hr & Hpre & seen & Hseen & Hst) Hb. destruct Hfields as [Hnd Hnames].
  destruct (pairs_of_written _ _ _ Hall) as (W1 & _ & W3 & W4). specialize (W3 Hnd).
  destruct (W1 k t) as (j & f & v & Hj & Hv & <- & Ht); [rewrite Hseen; set_solver|].
  pose proof (Forall2_lookup_lr _ _ _ _ _ _ Htyped Hj Hv) as Hty. pose proof (zlen_nonneg pre). pose proof (zlen_nonneg hk). pose proof (zlen_nonneg (name f)).
  pose proof (zlen_nonneg hv). pose proof (zlen_nonneg t). cbn [pairs_total foldr fst snd] in Hr. fold (pairs_total ps) in Hr. pose proof (pairs_total_nonneg ps).
  assert (Hn0 : Forall (fun c => c <> 0) (name f) /\ Forall is_byte (name f)).
  { pose proof (Forall_lookup_1 _ _ _ _ Hnames Hj) as Hc. split; (eapply Forall_impl; [exact Hc|]); unfold is_byte; cbn; lia. }
  assert (Hkey : key_search (length fields) (fun i => (i + 1) mod zlen fields) (name <$> fields) ((pre ++ hk) ++ name f ++ 0 :: hv ++ t ++ 0 :: tl) (zlen (pre ++ hk)) pairoff pairoff
    = Ret (Some (Z.of_nat j))).
  { assert (En : zlen (name <$> fields) = zlen fields) by (unfold zlen; by rewrite length_fmap).
    apply key_search_spec; [by rewrite En| |by rewrite En|apply Hn0|done|by rewrite length_fmap|by rewrite Nat2Z.id, list_lookup_fmap, Hj|lia].
    apply Forall_fmap. eapply Forall_impl; [exact Hnames|]. intros f' Hf'. eapply Forall_impl; [exact Hf'|]. cbn. lia. }
  assert (Em : pre ++ pair_parsed hk (name f) hv t ++ tl = (pre ++ hk) ++ name f ++ 0 :: hv ++ t ++ 0 :: tl) by (unfold pair_parsed; rewrite <- !app_assoc; done).
  set (pre2 := pre ++ hk ++ name f ++ [0] ++ hv).
  assert (Em2 : (pre ++ hk) ++ name f ++ 0 :: hv ++ t ++ 0 :: tl = pre2 ++ t ++ 0 :: tl) by (unfold pre2; rewrite <- !app_assoc; done).
  assert (Ev : zlen pre + zlen hk + zlen (name f) + 1 + zlen hv = zlen pre2) by (unfold pre2; zlen_simpl; lia).
  set (pair := Pair _ _ _ _). assert (Hp2 : zlen pre2 + zlen t < 2 ^ 62) by (rewrite <- Ev; unfold pair_parsed in Hb; zlen_simpl; lia).
  destruct (parse_member_all pre2 f v t tl b pair Hty Ht Ev eq_refl Hp2 Hf ltac:(lia)) as (t' & b' & p & Hl' & Emem & Hsh & Hf' & Hlb & [x Hx] & Hby).
  unfold parse_pair. rewrite Em. replace (key pair) with (zlen (pre ++ hk)) by (by rewrite zlen_app).
  assert (Hrd : rd fields (Z.of_nat j) = Ret f) by (apply rd_ret; split; [lia|by rewrite Nat2Z.id]).
  assert (Hwr : wr rs (Z.of_nat j) p = Ret (<[j := p]> rs)).
  { apply lookup_lt_Some in Hj. rewrite wr_in by (unfold zlen; lia). by rewrite Nat2Z.id. }
  exists (hk ++ name f ++ [0] ++ hv ++ t' ++ [0]), (<[j := p]> rs, b', (pairoff + 1) mod zlen fields). split; [unfold pair_parsed; zlen_simpl; lia|]. split.
  { rewrite Hkey. cbn [mbind outcome_mbind]. rewrite Hrd. cbn [mbind outcome_mbind]. rewrite Em2, Emem. cbn [mbind outcome_mbind]. rewrite Hwr. cbn [mbind outcome_mbind].
    unfold pre2. by rewrite <- !app_assoc. }
  assert (Epre : pre ++ hk ++ name f ++ [0] ++ hv ++ t' ++ [0] = (pre2 ++ t') ++ [0]) by (unfold pre2; by rewrite <- !app_assoc). rewrite Epre.
  split; [apply Z.mod_pos_bound; lia|]. split; [by rewrite length_insert|]. split; [done|]. split; [lia|]. split.
  { apply Forall_app. split; [|by repeat constructor]. apply Forall_app. split; [|done]. unfold pre2. repeat apply Forall_app_2; try done; [apply Hn0|by repeat constructor]. }
  exists (seen ++ [(name f, t)]). split; [by rewrite Hseen, <- app_assoc|]. intros i g w Hi Hw. rewrite fmap_app. cbn [fmap list_fmap fst].
  destruct (decide (i = j)) as [->|Hne].
  - simplify_eq. exists p. split; [apply list_lookup_insert_eq; apply lookup_lt_Some in Hj; lia|]. split; [|set_solver].
    intros _. rewrite <- (app_nil_r (contents b')). by apply shows_app.
  - destruct (Hst i g w Hi Hw) as (q & Hq & Hin & Hout). exists q. rewrite list_lookup_insert_ne by done. split; [done|].
    assert (Hng : name g <> name f).
    { intros E. apply Hne. apply (NoDup_lookup (name <$> fields) i j (name f) Hnd); rewrite list_lookup_fmap; [by rewrite Hi, <- E|by rewrite Hj]. }
    split; [|set_solver]. intros [Hs|Hs]%elem_of_app; [|set_solver]. specialize (Hin Hs). unfold pre2. rewrite Hx, <- !app_assoc. by apply shows_app.
Qed.

Lemma read_inv_start pre b : fields <> [] -> fits K b -> len b + 16 * pairs_total all <= 2 ^ 58 -> Forall is_byte pre ->
  read_inv pre all (zeroed <$> fields, b, 0).
Proof.
  intros Hne Hf Hr Hb. split; [destruct fields; [done|]; zlen_simpl; pose proof (zlen_nonneg l); lia|]. split; [by rewrite length_fmap|].
  split; [done|]. split; [done|]. split; [done|]. exists []. split; [done|]. intros i f v Hi Hv. exists (zeroed f).
  split; [by rewrite list_lookup_fmap, Hi|]. split; [cbn; set_solver|done].
Qed.

Lemma read_inv_end m rs b off x : read_inv m [] (rs, b, off) -> Forall2 (shows (m ++ x) (contents b)) r rs.
Proof.
  intros (_ & Hl & _ & _ & _ & seen & Hseen & Hst). rewrite app_nil_r in Hseen. subst seen.
  destruct (pairs_of_written _ _ _ Hall) as (_ & W2 & _ & W4). apply Forall2_same_length_lookup. split; [lia|]. intros i v p Hv Hp.
  destruct (lookup_lt_is_Some_2 fields i) as [f Hi]; [apply lookup_lt_Some in Hv; lia|]. destruct (Hst i f v Hi Hv) as (q & Hq & H1 & H2). simplify_eq.
  destruct (decide (name f ∈ fst <$> all)) as [Hin|Hout].
  - rewrite <- (app_nil_r (contents b)). apply shows_app. by apply H1.
  - rewrite (H2 Hout). pose proof (shows_zeroed f v (Forall2_lookup_lr _ _ _ _ _ _ Htyped Hi Hv) (W2 i f v Hi Hv Hout)) as Hz. by apply (shows_app [] [] v (zeroed f) (m ++ x) (contents b)).
Qed.
End Struct.

(** ** The round trip *)

(** what a struct is after it was read from a message *)
Definition read_as (fields : list yclgen_field) (r : list member) (msg : ycl_msg) (rs : list parsed) : Prop :=
  Forall2 (shows (data (buf msg)) (contents (mbuf msg))) r rs.

Lemma parsed_buf c l d (p q : bytes) : zlen p = zlen q -> wf (Buf c l (q ++ d)) -> zlen q <= l -> Forall is_byte p -> wf (Buf c l (p ++ d)) /\
  drop (Z.to_nat (zlen q)) (contents (Buf c l (p ++ d))) = drop (Z.to_nat (zlen q)) (contents (Buf c l (q ++ d))).
Proof.
  intros Hpq [Hl Hd Ha Hb] Hq Hp. cbn [cap len data] in *. split.
  - split; cbn [cap len data]; [done|zlen_simpl; lia|done|]. apply Forall_app in Hb as [_ Hb]. by apply Forall_app.
  - unfold contents. cbn [len data]. rewrite !skipn_firstn_comm. f_equal. rewrite <- Hpq at 1. unfold zlen. by rewrite !Nat2Z.id, !drop_app_length.
Qed.

Lemma ycl_msg_parse_all fields r e tl msg : fields_ok fields -> Forall2 typed fields r -> message_of fields r e -> struct_size fields r <= 2 ^ 52 ->
  wf (buf msg) -> cap (buf msg) < 2 ^ 61 -> fits K (mbuf msg) -> contents (buf msg) = e ++ tl ->
  exists msg' rs, ycl_msg_parse alloc_ok fields msg = Ret (msg', rs, YCL_OK) /\ read_as fields r msg' rs /\
    wf (buf msg') /\ cap (buf msg') = cap (buf msg) /\ len (buf msg') = len (buf msg) /\ drop (Z.to_nat (zlen e)) (contents (buf msg')) = tl /\
    fits K (mbuf msg') /\ sendoff msg' = sendoff msg /\ nextoff msg' = nextoff msg.
Proof.
  intros Hfs Hty (ps & es & Hps & Hes & He) Hsz Hwf Hcap Hm Hc. unfold ycl_msg_parse, read_as. pose proof (zlen_nonneg e) as He0. pose proof (zlen_nonneg tl).
  assert (Hdrop : drop (Z.to_nat (zlen e)) (contents (buf msg)) = tl) by (rewrite Hc; unfold zlen; by rewrite Nat2Z.id, drop_app_length).
  destruct (Z.eqb_spec (zlen fields) 0) as [Hz|Hz].
  { assert (fields = []) as -> by (destruct fields; [done|]; zlen_simpl; pose proof (zlen_nonneg fields); lia). apply Forall2_nil_inv_l in Hty as ->.
    exists msg, []. split; [done|]. split; [constructor|]. done. }
  destruct (clear_fits _ (mbuf msg) Hm) as [Hm0 Hmc]. set (b0 := buf_clear (mbuf msg)) in *. cbn [buf set_mbuf mbuf].
  destruct (encodes_framed _ _ He) as (hdr & Fr & Hh). assert (Ee : zlen e = zlen hdr + zlen (concat es) + 1) by (rewrite (proj1 Fr); zlen_simpl; lia).
  pose proof (contents_length _ Hwf) as Lb. rewrite Hc, zlen_app in Lb. pose proof Hwf as [Hlb Hd _ _]. pose proof (zlen_nonneg (concat es)).
  destruct (buf msg) as [c l d] eqn:Eb. cbn [cap len data] in *. set (post := drop (Z.to_nat l) d).
  assert (Ed : d = e ++ tl ++ post) by (rewrite app_assoc, <- Hc; unfold contents, post; cbn [len data]; by rewrite take_drop).
  pose proof (netstring_parse_encoded [] hdr (concat es) e tl post Fr) as P. change (zlen (@nil Z)) with 0 in P. rewrite Z.add_0_l, zlen_app in P. cbn [app] in P.
  rewrite <- app_assoc, <- Ed, Lb in P. rewrite P by lia. cbn [mbind outcome_mbind]. rewrite Z.add_0_l. rewrite <- !app_assoc. cbn [app].
  pose proof (pairs_of_size _ _ _ Hty Hps). pose proof (encodes_pairs_length _ _ Hes) as Hpl. pose proof (pairs_total_nonneg ps).
  assert (Hne : fields <> []) by (intros ->; done).
  pose proof (contents_length b0 (proj1 Hm0)) as L0. rewrite Hmc in L0. change (zlen (@nil Z)) with 0 in L0.
  assert (Hroom : len b0 + 16 * pairs_total ps <= 2 ^ 58) by lia.
  destruct (foreach_pair_encoded (parse_pair alloc_ok fields) (read_inv fields r ps) (parse_pair_step fields r ps Hfs Hty Hps) ps es hdr (0 :: tl ++ post)
    (zeroed <$> fields, b0, 0) (S (Z.to_nat (zlen (concat es)))) Hes) as (parsed & [[rs b] off] & Hlp & Ef & Hinv);
    [unfold zlen in *; lia|lia|apply read_inv_start; try done; by eapply framed_bytes|].
  rewrite Ef. cbn [mbind outcome_mbind]. pose proof Hinv as (_ & _ & Hfb & _ & Hpb & _). eexists _, rs. split; [done|]. cbn [buf mbuf set_buf set_mbuf data cap len sendoff nextoff].
  rewrite app_assoc. split; [by eapply read_inv_end|]. rewrite Ed in Hwf.
  destruct (parsed_buf c l (tl ++ post) ((hdr ++ parsed) ++ [0]) e) as [Hw1 Hd1]; [zlen_simpl; lia|done|lia|apply Forall_app; split; [done|by repeat constructor]|].
  rewrite <- app_assoc in Hw1, Hd1. cbn [app] in Hw1, Hd1. split; [done|]. split; [done|]. split; [done|]. split; [|done]. rewrite Hd1. by rewrite <- Ed.
Qed.

End Loading.

(** ** From one process to the other *)

(** a client that sends structs over one message *)
Fixpoint send_structs {W : Type} `{Sys W} (alloc_ok : Z -> bool) (fields : list yclgen_field) (ycl : ycl_ctx) (fuel : nat) (w : W) (msg : ycl_msg) (rs : list (list member)) : outcome (W * Z) :=
  match rs with
  | [] => Ret (w, YCL_OK)
  | r :: rs =>
      '(msg, ret) ← ycl_msg_create alloc_ok fields msg r;
      if negb (ret =? YCL_OK) then Ret (w, ret)
      else
        '(w, msg, ret) ← send ycl fuel fuel w msg;
        if negb (ret =? YCL_OK) then Ret (w, ret) else send_structs alloc_ok fields ycl fuel w msg rs
  end.

(** a server that reads a received message *)
Definition parse_struct (alloc_ok : Z -> bool) (fields : list yclgen_field) (msg : ycl_msg) : outcome (ycl_msg * (ycl_msg * list parsed * Z)) :=
  '(msg, rs, ret) ← ycl_msg_parse alloc_ok fields msg; Ret (msg, (msg, rs, ret)).

Section Delivery.
Context (fields : list yclgen_field) (Hfields : fields_ok fields).

Definition sends (r : list member) (e : bytes) : Prop := Forall2 typed fields r /\ struct_size fields r <= 2 ^ 52 /\ message_of fields r e.

Definition delivered (r : list member) (a : ycl_msg * list parsed * Z) : Prop := a.2 = YCL_OK /\ read_as fields r a.1.1 a.1.2.

Lemma parse_struct_spec alloc_ok ycl msg r e tl : (forall n, alloc_ok n = true) -> ready ycl msg -> sends r e -> contents (buf msg) = e ++ tl -> nextoff msg = zlen e ->
  exists msg' a, parse_struct alloc_ok fields msg = Ret (msg', a) /\ ready ycl msg' /\ unread msg' = tl /\ delivered r a.
Proof.
  intros Halloc Hr (Hty & Hsz & Hm) Hc Hn. pose proof (ready_small _ _ Hr) as Hsm. pose proof Hr as [Hwf Hmax Hcap Hlen Hnx Hmb].
  destruct (ycl_msg_parse_all alloc_ok Halloc fields r e tl msg Hfields Hty Hm Hsz Hwf Hsm Hmb Hc) as (msg' & rs & E & Hrs & Hwf' & Ec & El & Hd & Hmb' & _ & En).
  unfold parse_struct. rewrite E. cbn [mbind outcome_mbind]. eexists _, _. split; [done|]. split; [|split; [|by split]].
  - split; try done; rewrite ?Ec, ?El, ?En; done.
  - unfold unread. by rewrite En, Hn.
Qed.

Definition structs_size (rs : list (list member)) : Z := foldr (fun r n => struct_size fields r + 49 + n) 0 rs.

Lemma structs_size_nonneg rs : 0 <= structs_size rs.
Proof. induction rs as [|r rs IH]; cbn; [lia|]. fold (structs_size rs). pose proof (struct_size_nonneg fields r). lia. Qed.

Lemma structs_length rs : forall es, Forall2 sends rs es -> zlen (concat es) <= structs_size rs.
Proof.
  induction rs as [|r rs IH]; intros es Hes; [apply Forall2_nil_inv_l in Hes as ->; done|].
  apply Forall2_cons_inv_l in Hes as (e & es' & (Hty & _ & Hm) & Hes & ->). cbn [concat structs_size foldr]. fold (structs_size rs).
  rewrite zlen_app. pose proof (message_of_size fields r e Hty Hm). specialize (IH _ Hes). lia.
Qed.

Lemma send_structs_spec {W : Type} {S0 : Sys W} {L0 : SysLaws W} alloc_ok ycl : (forall n, alloc_ok n = true) -> ~ write_fails (W := W) (fd ycl) ->
  forall rs w msg, Forall (fun r => Forall2 typed fields r /\ struct_size fields r <= 2 ^ 52) rs -> writable msg ->
  exists k w' es, (forall fuel, (k <= fuel)%nat -> send_structs alloc_ok fields ycl fuel w msg rs = Ret (w', YCL_OK)) /\
    Forall2 sends rs es /\ written w' (fd ycl) = written w (fd ycl) ++ concat es.
Proof.
  intros Halloc Hnf. induction rs as [|r rs IH]; intros w msg Hrs Hw.
  - exists 0%nat, w, []. split; [done|]. split; [constructor|]. by rewrite app_nil_r.
  - apply Forall_cons in Hrs as [[Hty Hsz] Hrs]. cbn [send_structs].
    destruct (ycl_msg_create_all alloc_ok Halloc fields msg r Hfields Hty Hw) as (msg1 & e & E1 & Hm & Hc & Hs & _ & Hw1); [lia|].
    pose proof (wr_buf _ Hw1) as (Hwf1 & Hcap1 & _). pose proof Hwf1 as [Hl1 _ _ _].
    destruct (send_all ycl (S (length (unsent msg1))) (S (delays w (fd ycl))) w msg1) as (k & w1 & msg2 & ret & Hk & _ & [(-> & Hwr & ->)|(_ & Hbad & _)]);
      [lia|lia|done|unfold small; lia|lia| |done].
    assert (Hu : unsent msg1 = e) by (unfold unsent; by rewrite Hs, Hc).
    destruct (IH w1 (ycl_msg_reset msg1) Hrs) as (k' & w' & es & Hk' & Hes & Hwr'); [by apply writable_reset|].
    exists (Nat.max k k'), w', (e :: es). split; [|split; [by constructor|]].
    + intros fuel Hf. rewrite E1. cbn [mbind outcome_mbind]. change (negb (YCL_OK =? YCL_OK)) with false. cbv iota. rewrite Hk by lia. cbn [mbind outcome_mbind].
      change (negb (YCL_OK =? YCL_OK)) with false. cbv iota. apply Hk'. lia.
    + rewrite Hwr', Hwr, Hu. cbn [concat]. by rewrite app_assoc.
Qed.

Lemma sends_encoded r e : sends r e -> exists payload, encodes payload e.
Proof. intros (_ & _ & ps & es & _ & _ & He). by exists (concat es). Qed.
End Delivery.

(** C18: the structs that a client sends are the structs that a server reads
    from the messages that it receives, in order, when the server's stream is
    what the client has written: the writer of a message, the connection and
    the reader of a message fit together.  Every call returns; nothing is
    assumed of how the streams are cut up and delayed. *)
Theorem ycl_structs_delivered {Wc : Type} {Sc : Sys Wc} {Lc : SysLaws Wc} {Ws : Type} {Ss : Sys Ws} {Ls : SysLaws Ws}
    alloc_ok fields (client server : ycl_ctx) (wc : Wc) (rs : list (list member)) msgc msgs :
  (forall n, alloc_ok n = true) -> ~ write_fails (W := Wc) (fd client) -> ~ read_fails (W := Ws) (fd server) ->
  fields_ok fields -> Forall (Forall2 typed fields) rs -> 0 < max_msgsz server < 2 ^ 40 -> structs_size fields rs < max_msgsz server ->
  ycl_msg_init alloc_ok = Some msgc -> ycl_msg_init alloc_ok = Some msgs -> written wc (fd client) = [] ->
  exists k wc', (forall fuel, (k <= fuel)%nat -> send_structs alloc_ok fields client fuel wc msgc rs = Ret (wc', YCL_OK)) /\
    forall ws : Ws, incoming ws (fd server) = written wc' (fd client) ->
    exists k' l ws', (forall fuel, (k' <= fuel)%nat -> receive alloc_ok server (parse_struct alloc_ok fields) fuel fuel ws msgs = Ret (l, ws')) /\
      Forall2 (delivered fields) rs l.
Proof.
  intros Halloc Hwf Hrf Hfs Hrs Hmax Hsz Hc Hs Hw0.
  assert (Hsizes : Forall (fun r => Forall2 typed fields r /\ struct_size fields r <= 2 ^ 52) rs).
  { assert (Hb : structs_size fields rs <= 2 ^ 52) by lia. clear - Hrs Hb. induction Hrs as [|r rs Hr Hrs IH]; [constructor|].
    cbn in Hb. fold (structs_size fields rs) in Hb. pose proof (structs_size_nonneg fields rs). pose proof (struct_size_nonneg fields r). constructor; [split; [done|lia]|apply IH; lia]. }
  assert (Hwc : writable msgc).
  { destruct (ready_init server _ _ Hc Hmax) as [[Hwf0 _ _ _ _ Hmb] _]. revert Hc Hwf0 Hmb. unfold ycl_msg_init, buf_init. change (buf_align_offset BUFINITSZ) with 8192.
    destruct (alloc_ok 8192); [|done]. intros [= <-] Hwf0 Hmb. split; [split; [done|split; [cbn [cap buf]; lia|done]]|done|done]. }
  destruct (send_structs_spec fields Hfs alloc_ok client Halloc Hwf rs wc msgc Hsizes Hwc) as (k & wc' & es & Hk & Hes & Hwr). exists k, wc'. split; [done|].
  intros ws Hin. rewrite Hw0 in Hwr. cbn [app] in Hwr. rewrite Hwr in Hin. destruct (ready_init server _ _ Hs Hmax) as [Hr Hu].
  destruct (receive_all alloc_ok server (parse_struct alloc_ok fields) (sends fields) (fun r _ a => delivered fields r a) (sends_encoded fields)
    (fun msg r e tl => parse_struct_spec fields Hfs alloc_ok server msg r e tl Halloc) (conj Hrf Halloc)
    (S (length es + length (incoming ws (fd server)))) (S (delays ws (fd server))) rs es ws msgs Hes) as (k' & l & ws' & Hk' & Hl);
    [lia|lia|done|by rewrite Hu|pose proof (structs_length fields rs es Hes); lia|].
  exists k', l, ws'. split; [intros fuel Hf; by apply Hk'|]. clear - Hl. induction Hl; by constructor.
Qed.

Lemma ycl_structs_delivered_witness :
  let fields := [Field FT_DATA (lit "id"); Field FT_LONG (lit "timeout"); Field FT_DATAARR (lit "params"); Field FT_LONGARR (lit "codes")] in
  let rs := [[Data (lit "a:1,"); Long (-5); DataArr [lit "x"; []]; LongArr [0; 8]]; [Data []; Long 0; DataArr []; LongArr []]] in
  match ycl_msg_init all_ok with
  | Some msg =>
      exists k wc', (forall fuel, (k <= fuel)%nat -> send_structs all_ok fields (ycl_init 5) fuel (Demo [2; 0; 3]%nat [] []) msg rs = Ret (wc', YCL_OK)) /\
        forall ws : demo, incoming ws (fd (ycl_init 7)) = written wc' (fd (ycl_init 5)) ->
        exists k' l ws', (forall fuel, (k' <= fuel)%nat -> receive all_ok (ycl_init 7) (parse_struct all_ok fields) fuel fuel ws msg = Ret (l, ws')) /\
          Forall2 (delivered fields) rs l
  | None => False
  end.
Proof.
  intros fields rs. destruct (ycl_msg_init all_ok) as [msg|] eqn:E; [|discriminate E].
  apply (ycl_structs_delivered all_ok fields (ycl_init 5) (ycl_init 7) (Demo [2; 0; 3]%nat [] []) rs msg msg).
  - intros n. reflexivity.
  - apply demo_no_write_failure.
  - apply demo_no_failure.
  - split; [by apply (bool_decide_unpack _); vm_compute|]. repeat constructor.
  - repeat constructor; unfold is_byte, is_long; lia.
  - split; reflexivity.
  - reflexivity.
  - exact E.
  - exact E.
  - reflexivity.
Defined.
