(* ===== verification/Eds.v ===== *)
(** * Event-driven services (src/lib/util/eds.c)

    A service accepts connections and calls the handlers of its clients when
    their descriptors are ready.  A client is an entry of [cdata], found by its
    descriptor.  A handler of an application is what it does to the state of
    the application and of the kernel, and the functions of this file that it
    calls then (a handler of the service itself has the descriptor -1); a handler that is set is called at once, unless it is deferred,
    so what is left to do is kept as a list of tasks, as on the stack of C. *)

From stdpp Require Import gmap.
From S2P Require Import Prelude Buf Io.

(** the internal flags of a service and of its clients *)
Definition EDS_SERVICE_STOPPED : Z := 1.
Definition EDS_CLIENT_FEXTERNALFD : Z := 1.
Definition EDS_CLIENT_REMOVED : Z := 2.
Definition EDS_CLIENT_RSUSPEND : Z := 4.
Definition EDS_CLIENT_IN_USE : Z := 8.

Definition EDS_TFLREAD : Z := 1.
Definition EDS_TFLWRITE : Z := 2.
Definition EDS_DEFER : Z := 1.
Definition EDS_ACLI_NOSET_NOBLOCK : Z := 1.
Definition EDS_ACLI_NOSET_CLOEXEC : Z := 2.
Definition FD_SETSIZE : Z := 1024.
Definition ECONNABORTED : Z := 53.

Definition set_flag (flags f : Z) : Z := Z.lor flags f.
Definition clear_flag (flags f : Z) : Z := Z.land flags (Z.lnot f).

(** what the event loop asks of the kernel besides [Sys] *)
Class EdsSys (W : Type) : Type := {
  select : W -> gset Z -> gset Z -> W * (gset Z * gset Z + Z);
  clock_gettime : W -> W * (Z * Z);
  waitpid : W -> W * (Z * Z + Z);
}.

Section Eds.
(** the kernel, the state of the application, its handlers and its pointers *)
Context {W : Type} {SW : Sys W} {EW : EdsSys W} {A H P : Type}.

Record eds_client_actions : Type := Actions {
  a_readable : option H;
  a_writable : option H;
  a_done : option H;
  a_finalize : option H;
}.

Record eds_transition : Type := Trans {
  t_flags : Z;
  t_readable : option H;
  t_writable : option H;
}.

(** [on_eds_client_send] or a handler of the application *)
Inductive handler : Type := OnSend | App (h : H).

(** [wrdata] is a pointer and an offset *)
Record eds_client : Type := Client {
  flags : Z;
  on_readable : option H;
  on_writable : option handler;
  on_done : option H;
  on_finalize : option H;
  trans : eds_transition;
  wrdata : option (P * Z);
  wrdatalen : Z;
  ticker : option H;
}.

Definition no_client : eds_client := Client 0 None None None None (Trans 0 None None) None 0 None.

(** the functions of this file that a handler may call *)
Inductive cmd : Type :=
  | SetOnReadable (fd : Z) (h : option H) (fl : Z)
  | SetOnWritable (fd : Z) (h : option H) (fl : Z)
  | SuspendReadable (fd : Z)
  | ClearActions (fd : Z)
  | Send (fd : Z) (data : P) (len : Z) (next : option eds_transition)
  | AddClient (fd : Z) (acts : eds_client_actions) (fl : Z)
  | SetTicker (fd : Z) (h : option H)
  | SetExternalfd (fd : Z)
  | RemoveClient (fd : Z)
  | Stop.

(** what the user of the module sets *)
Record eds_service : Type := Service {
  name : option bytes;
  path : option bytes;
  actions : eds_client_actions;
  nprocs : Z;
  nfds : Z;
  tick_slice_us : Z;
  on_svc_tick : option H;
  on_cli_reaped_child : option (Z -> Z -> H);
  on_svc_reaped_child : option (Z -> Z -> H);
  cmdfd : Z;
}.

(** a running service *)
Record state : Type := State {
  svc_flags : Z;
  ntickers : Z;
  maxfd : Z;
  rfds : gset Z;
  wfds : gset Z;
  cdata : list eds_client;
  app : A;
  world : W;
}.

Definition set_svc_flags (s : state) (x : Z) : state := State x (ntickers s) (maxfd s) (rfds s) (wfds s) (cdata s) (app s) (world s).
Definition set_ntickers (s : state) (x : Z) : state := State (svc_flags s) x (maxfd s) (rfds s) (wfds s) (cdata s) (app s) (world s).
Definition set_maxfd (s : state) (x : Z) : state := State (svc_flags s) (ntickers s) x (rfds s) (wfds s) (cdata s) (app s) (world s).
Definition set_rfds (s : state) (x : gset Z) : state := State (svc_flags s) (ntickers s) (maxfd s) x (wfds s) (cdata s) (app s) (world s).
Definition set_wfds (s : state) (x : gset Z) : state := State (svc_flags s) (ntickers s) (maxfd s) (rfds s) x (cdata s) (app s) (world s).
Definition set_cdata (s : state) (x : list eds_client) : state := State (svc_flags s) (ntickers s) (maxfd s) (rfds s) (wfds s) x (app s) (world s).
Definition set_app (s : state) (a : A) (w : W) : state := State (svc_flags s) (ntickers s) (maxfd s) (rfds s) (wfds s) (cdata s) a w.
Definition set_world (s : state) (w : W) : state := set_app s (app s) w.

Definition set_cflags (c : eds_client) (x : Z) : eds_client :=
  Client x (on_readable c) (on_writable c) (on_done c) (on_finalize c) (trans c) (wrdata c) (wrdatalen c) (ticker c).
Definition set_readable (c : eds_client) (h : option H) : eds_client :=
  Client (flags c) h (on_writable c) (on_done c) (on_finalize c) (trans c) (wrdata c) (wrdatalen c) (ticker c).
Definition set_writable (c : eds_client) (h : option handler) : eds_client :=
  Client (flags c) (on_readable c) h (on_done c) (on_finalize c) (trans c) (wrdata c) (wrdatalen c) (ticker c).
Definition set_done (c : eds_client) (h : option H) : eds_client :=
  Client (flags c) (on_readable c) (on_writable c) h (on_finalize c) (trans c) (wrdata c) (wrdatalen c) (ticker c).
Definition set_trans (c : eds_client) (t : eds_transition) : eds_client :=
  Client (flags c) (on_readable c) (on_writable c) (on_done c) (on_finalize c) t (wrdata c) (wrdatalen c) (ticker c).
Definition set_wrdata (c : eds_client) (p : option (P * Z)) (n : Z) : eds_client :=
  Client (flags c) (on_readable c) (on_writable c) (on_done c) (on_finalize c) (trans c) p n (ticker c).
Definition set_tick (c : eds_client) (h : option H) : eds_client :=
  Client (flags c) (on_readable c) (on_writable c) (on_done c) (on_finalize c) (trans c) (wrdata c) (wrdatalen c) h.

(** the name and the socket of a service; [None] if it cannot be started *)
Definition eds_service_init (svc : eds_service) (w : W) : W * option eds_service :=
  match name svc, path svc with
  | Some _, Some p =>
      if FD_SETSIZE <? nfds svc then (w, None)
      else if bool_decide (a_readable (actions svc) = None) && bool_decide (a_writable (actions svc) = None) then (w, None)
      else
        let fds := if nfds svc =? 0 then FD_SETSIZE else nfds svc in
        let procs := if nprocs svc =? 0 then 1 else nprocs svc in
        match io_listen_unix w p with
        | (w, None) => (w, None)
        | (w, Some fd) =>
            ((io_setnonblock w fd 1).1,
             Some (Service (name svc) (path svc) (actions svc) procs fds (tick_slice_us svc) (on_svc_tick svc) (on_cli_reaped_child svc) (on_svc_reaped_child svc) fd))
        end
  | _, _ => (w, None)
  end.

(** [eds_service_client_from_fd] and what is stored there *)
Definition client_at (s : state) (fd : Z) : outcome eds_client := rd (cdata s) fd.
Definition put (s : state) (fd : Z) (c : eds_client) : outcome state := d ← wr (cdata s) fd c; Ret (set_cdata s d).

Definition is_removed (c : eds_client) : bool := flag_set (flags c) EDS_CLIENT_REMOVED.

(** ** Functions that a handler calls *)

Section Tasks.
Context (svc : eds_service).
(** a handler of the application, and the bytes that a pointer points to *)
Context (body : H -> Z -> A -> W -> outcome (A * W * list cmd)).
Context (load : A -> P -> Z -> Z -> outcome bytes).

Inductive task : Type :=
  | Do (c : cmd)
  | Call (h : handler) (fd : Z)
  | WriteSome (fd : Z)
  | Completed (fd : Z)
  | CompletedWrite (fd : Z)
  | OnDone (h : H) (fd : Z)
  | FinishRemove (fd : Z).

Definition eds_client_set_on_readable (s : state) (fd : Z) (h : option H) (fl : Z) : outcome (state * list task) :=
  c ← client_at s fd;
  if is_removed c then Ret (s, [])
  else
    let c := set_readable c h in
    match h with
    | None => s ← put s fd c; Ret (set_rfds s (rfds s ∖ {[fd]}), [])
    | Some h =>
        s ← put s fd (set_cflags c (clear_flag (flags c) EDS_CLIENT_RSUSPEND));
        Ret (set_rfds s (rfds s ∪ {[fd]}), if flag_set fl EDS_DEFER then [] else [Call (App h) fd])
    end.

Definition eds_client_suspend_readable (s : state) (fd : Z) : outcome (state * list task) :=
  c ← client_at s fd;
  if is_removed c then Ret (s, [])
  else
    let c := set_readable c None in
    s ← put s fd (set_cflags c (set_flag (flags c) EDS_CLIENT_RSUSPEND)); Ret (s, []).

Definition eds_client_clear_actions (s : state) (fd : Z) : outcome (state * list task) :=
  c ← client_at s fd;
  let c := set_writable (set_readable c None) None in
  s ← put s fd (set_cflags c (clear_flag (flags c) EDS_CLIENT_RSUSPEND));
  let s := set_rfds s (rfds s ∖ {[fd]}) in
  Ret (set_wfds s (wfds s ∖ {[fd]}), []).

Definition eds_client_set_on_writable (s : state) (fd : Z) (h : option handler) (fl : Z) : outcome (state * list task) :=
  c ← client_at s fd;
  if is_removed c then Ret (s, [])
  else
    s ← put s fd (set_writable c h);
    match h with
    | None => Ret (set_wfds s (wfds s ∖ {[fd]}), [])
    | Some h => Ret (set_wfds s (wfds s ∪ {[fd]}), if flag_set fl EDS_DEFER then [] else [Call h fd])
    end.

(** up to the [write] *)
Definition on_eds_client_send (s : state) (fd : Z) : outcome (state * list task) :=
  c ← client_at s fd;
  Ret (s, if wrdatalen c =? 0 then [Completed fd] else [WriteSome fd]).

(** the [write], again while it is interrupted, and what follows *)
Definition write_some (s : state) (fd : Z) : outcome (state * list task) :=
  c ← client_at s fd;
  match wrdata c with
  | None => OutOfBounds
  | Some (p, off) =>
      bs ← load (app s) p off (wrdatalen c);
      let '(w, ret) := write (world s) fd bs in
      let s := set_world s w in
      match ret with
      | inr e =>
          if e =? EINTR then Ret (s, [WriteSome fd])
          else if is_again e then Ret (s, [])
          else Ret (s, [Do (RemoveClient fd)])
      | inl n =>
          s ← put s fd (set_wrdata c (Some (p, off + n)) (wrdatalen c - n));
          Ret (s, if 0 <? wrdatalen c - n then [] else [Completed fd])
      end
  end.

(** the transition, first of reading *)
Definition completed (s : state) (fd : Z) : outcome (state * list task) :=
  c ← client_at s fd;
  let t := trans c in
  if flag_set (t_flags t) EDS_TFLREAD then
    s ← put s fd (set_trans c (Trans (clear_flag (t_flags t) EDS_TFLREAD) (t_readable t) (t_writable t)));
    Ret (s, [Do (SetOnReadable fd (t_readable t) 0); CompletedWrite fd])
  else Ret (s, [CompletedWrite fd]).

Definition completed_write (s : state) (fd : Z) : outcome (state * list task) :=
  c ← client_at s fd;
  let t := trans c in
  if flag_set (t_flags t) EDS_TFLWRITE then
    s ← put s fd (set_trans c (Trans (clear_flag (t_flags t) EDS_TFLWRITE) (t_readable t) (t_writable t)));
    Ret (s, [Do (SetOnWritable fd (t_writable t) 0)])
  else Ret (s, []).

Definition eds_client_send (s : state) (fd : Z) (data : P) (len : Z) (next : option eds_transition) : outcome (state * list task) :=
  c ← client_at s fd;
  let c := set_wrdata c (Some (data, 0)) len in
  s ← put s fd (set_trans c (default (Trans (Z.lor EDS_TFLREAD EDS_TFLWRITE) None None) next));
  eds_client_set_on_writable s fd (Some OnSend) 0.

(** the io functions only set flags of the descriptor *)
Definition eds_service_add_client (s : state) (fd : Z) (acts : eds_client_actions) (fl : Z) : outcome (state * list task) :=
  let s := if flag_set fl EDS_ACLI_NOSET_NOBLOCK then s else set_world s (io_setnonblock (world s) fd 1).1 in
  let s := if flag_set fl EDS_ACLI_NOSET_CLOEXEC then s else set_world s (io_setcloexec (world s) fd 1).1 in
  let s := if maxfd s <? fd then set_maxfd s fd else s in
  _ ← client_at s fd;
  s ← put s fd (Client (set_flag 0 EDS_CLIENT_IN_USE) (a_readable acts) (App <$> a_writable acts) (a_done acts) (a_finalize acts) (Trans 0 None None) None 0 None);
  let s := match a_readable acts with Some _ => set_rfds s (rfds s ∪ {[fd]}) | None => s end in
  let s := match a_writable acts with Some _ => set_wfds s (wfds s ∪ {[fd]}) | None => s end in
  Ret (if u32 (nfds svc - 1) <=? fd then set_rfds s (rfds s ∖ {[cmdfd svc]}) else s, []).

(** without the message for a service that has no ticks *)
Definition eds_client_set_ticker (s : state) (fd : Z) (h : option H) : outcome (state * list task) :=
  if tick_slice_us svc =? 0 then Ret (s, [])
  else
    c ← client_at s fd;
    let n := match ticker c, h with None, Some _ => 1 | Some _, None => -1 | _, _ => 0 end in
    s ← put s fd (set_tick c h); Ret (set_ntickers s (ntickers s + n), []).

Definition eds_client_set_externalfd (s : state) (fd : Z) : outcome (state * list task) :=
  c ← client_at s fd;
  s ← put s fd (set_cflags c (set_flag (flags c) EDS_CLIENT_FEXTERNALFD)); Ret (s, []).

Definition eds_service_stop (s : state) : state := set_svc_flags s (set_flag (svc_flags s) EDS_SERVICE_STOPPED).

(** up to the call of [on_done] *)
Definition eds_service_remove_client (s : state) (fd : Z) : outcome (state * list task) :=
  c ← client_at s fd;
  if is_removed c then Ret (s, [])
  else
    s ← put s fd (set_cflags c (clear_flag (set_flag (flags c) EDS_CLIENT_REMOVED) EDS_CLIENT_IN_USE));
    Ret (s, match on_done c with Some h => [OnDone h fd; FinishRemove fd] | None => [FinishRemove fd] end).

Definition finish_remove (s : state) (fd : Z) : outcome (state * list task) :=
  c ← client_at s fd;
  let s := set_ntickers s (match ticker c with Some _ => ntickers s - 1 | None => ntickers s end) in
  let ext := flag_set (flags c) EDS_CLIENT_FEXTERNALFD in
  let s := set_world s (if ext then world s else (close (world s) fd).1) in
  let c := set_tick (set_done c None) None in
  s ← put s fd (if ext then c else set_cflags c (set_flag (flags c) EDS_CLIENT_FEXTERNALFD));
  let s := set_rfds s (rfds s ∖ {[fd]}) in
  let s := set_wfds s (wfds s ∖ {[fd]}) in
  Ret (set_rfds s (rfds s ∪ {[cmdfd svc]}), []).

Definition do_cmd (s : state) (c : cmd) : outcome (state * list task) :=
  match c with
  | SetOnReadable fd h fl => eds_client_set_on_readable s fd h fl
  | SetOnWritable fd h fl => eds_client_set_on_writable s fd (App <$> h) fl
  | SuspendReadable fd => eds_client_suspend_readable s fd
  | ClearActions fd => eds_client_clear_actions s fd
  | Send fd p len next => eds_client_send s fd p len next
  | AddClient fd acts fl => eds_service_add_client s fd acts fl
  | SetTicker fd h => eds_client_set_ticker s fd h
  | SetExternalfd fd => eds_client_set_externalfd s fd
  | RemoveClient fd => eds_service_remove_client s fd
  | Stop => Ret (eds_service_stop s, [])
  end.

Definition call_app (s : state) (h : H) (fd : Z) : outcome (state * list task) :=
  '(a, w, cmds) ← body h fd (app s) (world s); Ret (set_app s a w, map Do cmds).

Definition do_task (s : state) (t : task) : outcome (state * list task) :=
  match t with
  | Do c => do_cmd s c
  | Call OnSend fd => on_eds_client_send s fd
  | Call (App h) fd => call_app s h fd
  | WriteSome fd => write_some s fd
  | Completed fd => completed s fd
  | CompletedWrite fd => completed_write s fd
  | OnDone h fd => call_app s h fd
  | FinishRemove fd => finish_remove s fd
  end.

(** a task and all that it calls, before the next one *)
Fixpoint run (fuel : nat) (s : state) (todo : list task) : outcome state :=
  match fuel with
  | O => OutOfFuel
  | S fuel =>
      match todo with
      | [] => Ret s
      | t :: todo => '(s, more) ← do_task s t; run fuel s (more ++ todo)
      end
  end.

(** ** The event loop *)

Definition timespec_delta_us (start end_ : Z * Z) : Z :=
  let '(sec, nsec) :=
    if end_.2 <? start.2 then (end_.1 - start.1 - 1, 1000000000 + end_.2 - start.2)
    else (end_.1 - start.1, end_.2 - start.2) in
  sec * 1000000 + Z.quot nsec 1000.

(** no callbacks left: the client is done, unless reading is suspended *)
Definition is_done (c : eds_client) : bool :=
  negb (flag_set (flags c) EDS_CLIENT_RSUSPEND) && bool_decide (on_readable c = None) && match on_writable c with None => true | Some _ => false end.

Definition remove_done (fuel : nat) (s : state) (fd : Z) : outcome state :=
  c ← client_at s fd; if is_done c then run fuel s [Do (RemoveClient fd)] else Ret s.

(** [n] descriptors from [i] on *)
Fixpoint tickers_loop (n : nat) (fuel : nat) (s : state) (left i : Z) : outcome state :=
  match n with
  | O => Ret s
  | S n =>
      if (0 <? left) && (i <? nfds svc) then
        c ← client_at s i;
        match ticker c with
        | Some h => s ← run fuel s [Call (App h) i]; s ← remove_done fuel s i; tickers_loop n fuel s (left - 1) (i + 1)
        | None => tickers_loop n fuel s left (i + 1)
        end
      else Ret s
  end.

Definition run_tickers (fuel : nat) (s : state) : outcome state := tickers_loop (Z.to_nat (nfds svc)) fuel s (ntickers s) 0.

(** the clients below [maxfd] are told of a child *)
Fixpoint reaped_loop (n : nat) (fuel : nat) (s : state) (h : H) (i : Z) : outcome state :=
  match n with
  | O => OutOfFuel
  | S n =>
      if i <? maxfd s then
        c ← client_at s i;
        s ← (if flag_set (flags c) EDS_CLIENT_IN_USE then run fuel s [Call (App h) i] else Ret s);
        reaped_loop n fuel s h (i + 1)
      else Ret s
  end.

Fixpoint reap_listener_children (fuel : nat) (s : state) : outcome state :=
  match fuel with
  | O => OutOfFuel
  | S fuel =>
      let '(w, r) := waitpid (world s) in
      let s := set_world s w in
      match r with
      | inl (pid, status) =>
          if 0 <? pid then
            s ← match on_svc_reaped_child svc with Some h => run fuel s [Call (App (h pid status)) (-1)] | None => Ret s end;
            s ← match on_cli_reaped_child svc with Some h => reaped_loop fuel fuel s (h pid status) 0 | None => Ret s end;
            reap_listener_children fuel s
          else Ret s
      | inr e => if e =? EINTR then reap_listener_children fuel s else Ret s
      end
  end.

(** what is done for a descriptor that is ready *)
Definition serve_fd (fuel : nat) (r w : gset Z) (s : state) (fd : Z) : outcome state :=
  c ← client_at s fd;
  if is_removed c then Ret s
  else
    s ← match on_readable c with
        | Some h => if bool_decide (fd ∈ r) then run fuel s [Call (App h) fd] else Ret s
        | None => Ret s
        end;
    c ← client_at s fd;
    if is_removed c then Ret s
    else
      s ← match on_writable c with
          | Some h => if bool_decide (fd ∈ w) then run fuel s [Call h fd] else Ret s
          | None => Ret s
          end;
      remove_done fuel s fd.

(** the bits [64 * i + j] of a word, from [j] on *)
Fixpoint word_loop (n : nat) (fuel : nat) (r w : gset Z) (s : state) (num_fds fd : Z) : outcome (state * Z) :=
  match n with
  | O => Ret (s, num_fds)
  | S n =>
      if 0 <? num_fds then
        if bool_decide (fd ∈ r) || bool_decide (fd ∈ w) then
          s ← serve_fd fuel r w s fd; word_loop n fuel r w s (num_fds - 1) (fd + 1)
        else word_loop n fuel r w s num_fds (fd + 1)
      else Ret (s, num_fds)
  end.

(** a word of the sets is zero *)
Definition word_empty (r : gset Z) (i : Z) : bool := forallb (fun j => bool_decide (64 * i + j ∉ r)) (seqZ 0 64).

Fixpoint words_loop (n : nat) (fuel : nat) (r w : gset Z) (s : state) (num_fds i : Z) : outcome state :=
  match n with
  | O => Ret s
  | S n =>
      if 0 <? num_fds then
        if word_empty r i && word_empty w i then words_loop n fuel r w s num_fds (i + 1)
        else '(s, num_fds) ← word_loop 64 fuel r w s num_fds (64 * i); words_loop n fuel r w s num_fds (i + 1)
      else Ret s
  end.

(** the time of the last tick and the timeout are only used by ticks *)
Definition serve_ticks (fuel : nat) (s : state) (last : Z * Z) : outcome (state * (Z * Z)) :=
  if (0 <? ntickers s) || bool_decide (is_Some (on_svc_tick svc)) then
    let '(w, now) := clock_gettime (world s) in
    let s := set_world s w in
    if tick_slice_us svc <=? timespec_delta_us last now then
      s ← run_tickers fuel s;
      s ← match on_svc_tick svc with Some h => run fuel s [Call (App h) (-1)] | None => Ret s end;
      Ret (s, now)
    else Ret (s, last)
  else Ret (s, last).

(** what a turn accepts, if anything: the descriptor, and the world that
    [accept] was called in *)
Definition accepting (fuel : nat) (s : state) (sigchld : bool) : outcome (option (W * Z)) :=
  if flag_set (svc_flags s) EDS_SERVICE_STOPPED then Ret None
  else
    s ← (if sigchld then reap_listener_children fuel s else Ret s);
    let '(w, sel) := select (world s) (rfds s) (wfds s) in
    match sel with
    | inr _ => Ret None
    | inl (r, _) =>
        if bool_decide (cmdfd svc ∈ r) then
          match (accept w (cmdfd svc)).2 with inl fd => Ret (Some (w, fd)) | inr _ => Ret None end
        else Ret None
    end.

Inductive turn_end : Type := Again | Ended (status : Z).

(** from [select:] to the next [goto select] or the return *)
Definition turn (fuel : nat) (s : state) (last : Z * Z) (sigchld : bool) : outcome (state * (Z * Z) * turn_end) :=
  if flag_set (svc_flags s) EDS_SERVICE_STOPPED then Ret (s, last, Ended 0)
  else
    s ← (if sigchld then reap_listener_children fuel s else Ret s);
    let '(w, sel) := select (world s) (rfds s) (wfds s) in
    let s := set_world s w in
    match sel with
    | inr e => Ret (s, last, if e =? EINTR then Again else Ended (-1))
    | inl (r, wr) =>
        let num_fds := Z.of_nat (size r) + Z.of_nat (size wr) in
        let serve (s : state) (r : gset Z) (num_fds : Z) : outcome (state * (Z * Z) * turn_end) :=
          s ← words_loop 16 fuel r wr s num_fds 0;
          '(s, last) ← serve_ticks fuel s last; Ret (s, last, Again) in
        if bool_decide (cmdfd svc ∈ r) then
          let '(w, acc) := accept (world s) (cmdfd svc) in
          let s := set_world s w in
          match acc with
          | inr e => Ret (s, last, if (e =? EWOULDBLOCK) || (e =? EAGAIN) || (e =? ECONNABORTED) || (e =? EINTR) then Again else Ended (-1))
          | inl fd =>
              '(s, _) ← eds_service_add_client s fd (actions svc) (Z.lor EDS_ACLI_NOSET_NOBLOCK EDS_ACLI_NOSET_CLOEXEC);
              if (1 <? num_fds) && bool_decide (is_Some (a_readable (actions svc)))
              then serve s ((r ∪ {[fd]}) ∖ {[cmdfd svc]}) (num_fds + 1 - 1)
              else serve s (r ∖ {[cmdfd svc]}) (num_fds - 1)
          end
        else serve s r num_fds
    end.

(** a turn for each element of [sigs], which says whether there was a
    [SIGCHLD] before *)
Fixpoint turns (fuel : nat) (s : state) (last : Z * Z) (sigs : list bool) : outcome (state * turn_end) :=
  match sigs with
  | [] => Ret (s, Again)
  | sig :: sigs =>
      '(s, last, e) ← turn fuel s last sig;
      match e with Again => turns fuel s last sigs | Ended _ => Ret (s, e) end
  end.

(** [calloc] may fail, and so may [mod_init] *)
Definition eds_serve_single_mainloop (alloc_ok : Z -> bool) (mod_init : A -> W -> A * W * Z) (fuel : nat) (a : A) (w : W) (sigs : list bool) : outcome (state * turn_end) :=
  if negb (alloc_ok (nfds svc)) then Ret (State 0 0 0 ∅ ∅ [] a w, Ended (-1))
  else
    let cdata := replicate (Z.to_nat (nfds svc)) no_client in
    let '(a, w, ret) := mod_init a w in
    if ret <? 0 then Ret (State 0 0 0 ∅ ∅ cdata a w, Ended (-1))
    else
      let '(w, last) := clock_gettime w in
      turns fuel (State 0 0 (cmdfd svc) {[cmdfd svc]} ∅ cdata a w) last sigs.

(** the clients are removed, if their descriptors are watched, and finalized *)
Fixpoint cleanup_loop (n : nat) (fuel : nat) (s : state) (i : Z) : outcome state :=
  match n with
  | O => Ret s
  | S n =>
      s ← (if (bool_decide (i ∈ rfds s) || bool_decide (i ∈ wfds s)) && negb (i =? cmdfd svc) then run fuel s [Do (RemoveClient i)] else Ret s);
      c ← client_at s i;
      s ← match on_finalize c with Some h => run fuel s [Call (App h) i] | None => Ret s end;
      cleanup_loop n fuel s (i + 1)
  end.

Definition eds_service_cleanup (mod_fini : A -> W -> A * W) (fuel : nat) (s : state) : outcome state :=
  s ← cleanup_loop (Z.to_nat (nfds svc)) fuel s 0;
  let '(a, w) := mod_fini (app s) (world s) in
  let s := set_rfds (set_app s a w) (rfds s ∖ {[cmdfd svc]}) in
  Ret (set_cdata (set_world s (close (world s) (cmdfd svc)).1) []).

End Tasks.

(** the status is that of the main loop; [None] while it still runs *)
Definition eds_serve_single (svc : eds_service) body load alloc_ok mod_init mod_fini (fuel : nat) (a : A) (w : W) (sigs : list bool) : outcome (A * W * option Z) :=
  match eds_service_init svc w with
  | (w, None) => Ret (a, w, Some (-1))
  | (w, Some svc) =>
      '(s, e) ← eds_serve_single_mainloop svc body load alloc_ok mod_init fuel a w sigs;
      match e with
      | Again => Ret (app s, world s, None)
      | Ended ret => s ← eds_service_cleanup svc body load mod_fini fuel s; Ret (app s, world s, Some ret)
      end
  end.

(** ** Flags *)

Lemma flag_set_bit x k : 0 <= k -> flag_set x (2 ^ k) = Z.testbit x k.
Proof.
  intros Hk. unfold flag_set. destruct (Z.testbit x k) eqn:E.
  - apply negb_true_iff, Z.eqb_neq. intros Z0. apply (f_equal (fun y => Z.testbit y k)) in Z0.
    rewrite Z.land_spec, E, Z.pow2_bits_true, Z.bits_0 in Z0 by lia. done.
  - apply negb_false_iff, Z.eqb_eq. apply Z.bits_inj'. intros i Hi. rewrite Z.land_spec, Z.bits_0, Z.pow2_bits_eqb by lia.
    destruct (Z.eqb_spec k i) as [<-|]; [by rewrite E|apply andb_false_r].
Qed.

Lemma set_flag_bit x j k : 0 <= j -> 0 <= k -> flag_set (set_flag x (2 ^ j)) (2 ^ k) = (j =? k) || flag_set x (2 ^ k).
Proof. intros Hj Hk. rewrite !flag_set_bit by lia. unfold set_flag. rewrite Z.lor_spec, Z.pow2_bits_eqb by lia. apply orb_comm. Qed.

Lemma clear_flag_bit x j k : 0 <= j -> 0 <= k -> flag_set (clear_flag x (2 ^ j)) (2 ^ k) = negb (j =? k) && flag_set x (2 ^ k).
Proof. intros Hj Hk. rewrite !flag_set_bit by lia. unfold clear_flag. rewrite Z.land_spec, Z.lnot_spec, Z.pow2_bits_eqb by lia. apply andb_comm. Qed.

(** whether a client is used, removed and external *)
Definition in_use (c : eds_client) : bool := flag_set (flags c) EDS_CLIENT_IN_USE.
Definition external (c : eds_client) : bool := flag_set (flags c) EDS_CLIENT_FEXTERNALFD.
Definition status (c : eds_client) : bool * bool * bool := (in_use c, is_removed c, external c).

Ltac flag_bits :=
  unfold status, in_use, is_removed, external; cbn [flags set_cflags]; repeat match goal with
  | |- context [flag_set (set_flag ?x ?f) ?g] =>
      let j := eval vm_compute in (Z.log2 f) in let k := eval vm_compute in (Z.log2 g) in
      rewrite (set_flag_bit x j k ltac:(lia) ltac:(lia) : flag_set (set_flag x f) g = _)
  | |- context [flag_set (clear_flag ?x ?f) ?g] =>
      let j := eval vm_compute in (Z.log2 f) in let k := eval vm_compute in (Z.log2 g) in
      rewrite (clear_flag_bit x j k ltac:(lia) ltac:(lia) : flag_set (clear_flag x f) g = _)
  end.

Lemma status_suspend c : status (set_cflags c (set_flag (flags c) EDS_CLIENT_RSUSPEND)) = status c.
Proof. by flag_bits. Qed.
Lemma status_resume c : status (set_cflags c (clear_flag (flags c) EDS_CLIENT_RSUSPEND)) = status c.
Proof. by flag_bits. Qed.
Lemma status_external c : status (set_cflags c (set_flag (flags c) EDS_CLIENT_FEXTERNALFD)) = (in_use c, is_removed c, true).
Proof. by flag_bits. Qed.
Lemma status_remove c : status (set_cflags c (clear_flag (set_flag (flags c) EDS_CLIENT_REMOVED) EDS_CLIENT_IN_USE)) = (false, true, external c).
Proof. by flag_bits. Qed.

(** ** What the event loop keeps *)

Section Invariant.
Context (svc : eds_service).
Context (body : H -> Z -> A -> W -> outcome (A * W * list cmd)) (load : A -> P -> Z -> Z -> outcome bytes).

(** [conns w] are the descriptors of clients that are open: those that were
    accepted, or opened to be added, and not closed since *)
Context (conns : W -> gset Z).

(** [accept] gives a descriptor that was not open; how large it is is up to
    the kernel.  The service has a table, and its own descriptor is not above
    it. *)
Record kernel_laws : Prop := KernelLaws {
  k_nfds : 0 < nfds svc < 2 ^ 31 /\ 0 <= cmdfd svc <= nfds svc;
  k_cmdfd w : cmdfd svc ∉ conns w;
  k_accept w : match accept w (cmdfd svc) with
    | (w', inl fd) => (fd ∉ conns w) /\ 0 <= fd /\ fd <> cmdfd svc /\ conns w' = conns w ∪ {[fd]}
    | (w', inr _) => conns w' = conns w
    end;
  k_close w fd : conns (close w fd).1 = conns w ∖ {[fd]};
  k_write w fd bs : conns (write w fd bs).1 = conns w /\ match (write w fd bs).2 with inl n => 0 <= n <= zlen bs | inr _ => True end;
  k_select w r wr : conns (select w r wr).1 = conns w /\ match (select w r wr).2 with inl (r', wr') => r' ⊆ r /\ wr' ⊆ wr | inr _ => True end;
  k_clock w : conns (clock_gettime w).1 = conns w;
  k_waitpid w : conns (waitpid w).1 = conns w;
  k_fcntl w fd c x : conns (fcntl w fd c x).1 = conns w;
}.

(** the history of the kernel: [removed w] when a client was closed before *)
Context (removed : W -> Prop).

Record history_laws : Prop := HistoryLaws {
  h_close w fd : fd ∈ conns w -> removed (close w fd).1;
  h_accept w fd : removed w -> removed (accept w fd).1;
  h_write w fd bs : removed w -> removed (write w fd bs).1;
  h_select w r wr : removed w -> removed (select w r wr).1;
  h_clock w : removed w -> removed (clock_gettime w).1;
  h_waitpid w : removed w -> removed (waitpid w).1;
  h_fcntl w fd c x : removed w -> removed (fcntl w fd c x).1;
  h_body h fd a w a' w' cmds : body h fd a w = Ret (a', w', cmds) -> removed w -> removed w';
}.

(** what an application keeps: [may h fd a] when the handler [h] may be set for
    the client [fd], [good a w] on its state and the kernel's, [readable a p n]
    when [n] bytes can be read at [p] *)
Context (may : H -> Z -> A -> Prop) (good : A -> W -> Prop) (readable : A -> P -> Z -> Prop).

Definition may_opt (h : option H) (fd : Z) (a : A) : Prop := forall h', h = Some h' -> may h' fd a.

Definition may_trans (t : eds_transition) (fd : Z) (a : A) : Prop := may_opt (t_readable t) fd a /\ may_opt (t_writable t) fd a.

Definition may_acts (acts : eds_client_actions) (fd : Z) (a : A) : Prop :=
  may_opt (a_readable acts) fd a /\ may_opt (a_writable acts) fd a /\ may_opt (a_done acts) fd a /\ may_opt (a_finalize acts) fd a.

(** a call that a handler of [fd] may make: on its own client, or to add one
    for a descriptor that it has opened, which has to be below [nfds] (no
    program calls [eds_client_set_externalfd]) *)
Definition cmd_ok (fd : Z) (a : A) (c : cmd) : Prop :=
  match c with
  | SetOnReadable fd' h _ | SetOnWritable fd' h _ | SetTicker fd' h => fd' = fd /\ may_opt h fd a
  | SuspendReadable fd' | ClearActions fd' | RemoveClient fd' => fd' = fd
  | Send fd' p len next => fd' = fd /\ 0 <= len /\ readable a p len /\ (forall t, next = Some t -> may_trans t fd a)
  | AddClient fd' acts _ => 0 <= fd' < nfds svc /\ fd' <> cmdfd svc /\ may_acts acts fd' a
  | SetExternalfd _ => False
  | Stop => True
  end.

(** a call that needs no client *)
Definition free_cmd (c : cmd) : Prop := match c with AddClient _ _ _ | Stop => True | _ => False end.

(** the descriptors that are added *)
Definition adds (cmds : list cmd) : list Z := omap (fun c => match c with AddClient fd _ _ => Some fd | _ => None end) cmds.

Definition grows (a a' : A) : Prop := (forall h fd, may h fd a -> may h fd a') /\ (forall p n, readable a p n -> readable a' p n).

Record app_laws : Prop := AppLaws {
  a_body h fd a w : may h fd a -> good a w ->
    body h fd a w = OutOfFuel \/
    exists a' w' cmds, body h fd a w = Ret (a', w', cmds) /\ good a' w' /\ grows a a' /\
      conns w' = conns w ∪ list_to_set (adds cmds) /\ NoDup (adds cmds) /\ (forall x, x ∈ adds cmds -> x ∉ conns w) /\
      Forall (fun c => cmd_ok fd a' c /\ (fd = -1 -> free_cmd c)) cmds;
  a_load a p off n : 0 <= off -> 0 <= n -> readable a p (off + n) -> exists bs, load a p off n = Ret bs /\ zlen bs = n;
  a_actions fd a : may_acts (actions svc) fd a;
  a_service a : may_opt (on_svc_tick svc) (-1) a /\ (forall f pid st, on_svc_reaped_child svc = Some f -> may (f pid st) (-1) a) /\
    (forall f pid st fd, on_cli_reaped_child svc = Some f -> may (f pid st) fd a);
  a_kernel a w : good a w -> good a (accept w (cmdfd svc)).1 /\ (forall fd, good a (close w fd).1) /\ (forall fd bs, good a (write w fd bs).1) /\
    (forall r wr, good a (select w r wr).1) /\ good a (clock_gettime w).1 /\ good a (waitpid w).1;
  a_fcntl a w : good a w -> forall fd c x, good a (fcntl w fd c x).1;
}.

(** a client of [fd] *)
Definition live (s : state) (fd : Z) : Prop := exists c, client_at s fd = Ret c /\ in_use c = true.
Definition touched (s : state) (fd : Z) : Prop := exists c, client_at s fd = Ret c /\ (in_use c = true \/ is_removed c = true).

Record client_inv (a : A) (fd : Z) (c : eds_client) : Prop := ClientInv {
  ci_use : in_use c = true -> is_removed c = false /\ external c = false;
  ci_readable : may_opt (on_readable c) fd a;
  ci_writable : forall h, on_writable c = Some (App h) -> may h fd a;
  ci_done : may_opt (on_done c) fd a /\ may_opt (on_finalize c) fd a;
  ci_ticker : may_opt (ticker c) fd a;
  ci_trans : may_trans (trans c) fd a;
  ci_fresh : ticker c <> None \/ on_finalize c <> None -> in_use c = true \/ is_removed c = true;
  ci_wrdata : 0 <= wrdatalen c /\ match wrdata c with Some (p, off) => 0 <= off /\ readable a p (off + wrdatalen c) | None => wrdatalen c = 0 /\ on_writable c <> Some OnSend end;
}.

(** the number of clients that have a ticker *)
Definition tickers (l : list eds_client) : Z := foldr (fun c n => (match ticker c with Some _ => 1 | None => 0 end) + n) 0 l.

Definition task_ok (s : state) (t : task) : Prop :=
  match t with
  | Do c => exists fd, cmd_ok fd (app s) c /\ (touched s fd \/ free_cmd c)
  | Call (App h) fd => (touched s fd \/ fd = -1) /\ may h fd (app s)
  | OnDone h fd => touched s fd /\ may h fd (app s)
  | Call OnSend fd | WriteSome fd => exists c, client_at s fd = Ret c /\ (in_use c = true \/ is_removed c = true) /\ wrdata c <> None
  | Completed fd | CompletedWrite fd => touched s fd
  | FinishRemove fd => exists c, client_at s fd = Ret c /\ status c = (false, true, false)
  end.

Definition finishing (todo : list task) : list Z := omap (fun t => match t with FinishRemove fd => Some fd | _ => None end) todo.

Definition adding (todo : list task) : list Z := omap (fun t => match t with Do (AddClient fd _ _) => Some fd | _ => None end) todo.

(** what is put behind other tasks *)
Definition quiet (t : task) : Prop := match t with Call OnSend _ | WriteSome _ => False | _ => True end.

(** between two tasks *)
Record inv (s : state) (todo : list task) : Prop := Inv {
  i_len : zlen (cdata s) = nfds svc;
  i_good : good (app s) (world s);
  i_clients : forall fd c, client_at s fd = Ret c -> client_inv (app s) fd c;
  i_sets : forall fd, fd ∈ rfds s ∪ wfds s -> fd = cmdfd svc \/ live s fd \/ fd ∈ finishing todo;
  i_cmdfd : cmdfd svc ∉ wfds s;
  i_tickers : tickers (cdata s) <= ntickers s;
  i_maxfd : maxfd s <= nfds svc;
  i_conns : forall fd, fd ∈ conns (world s) <-> live s fd \/ fd ∈ finishing todo \/ fd ∈ adding todo;
  i_finishing : NoDup (finishing todo ++ adding todo);
  i_adding : forall fd, fd ∈ adding todo -> ~ live s fd;
  i_guard : removed (world s) \/ (live s (nfds svc - 1) -> cmdfd svc ∉ rfds s);
  i_tasks : Forall (task_ok s) todo;
}.

(** *** Updates of a client *)

Definition upd (s : state) (fd : Z) (c : eds_client) : state := set_cdata s (<[Z.to_nat fd := c]> (cdata s)).

Lemma client_at_range s fd c : client_at s fd = Ret c -> 0 <= fd < zlen (cdata s) /\ cdata s !! Z.to_nat fd = Some c.
Proof. unfold client_at. intros [Hfd Hc]%rd_ret. split; [|done]. apply lookup_lt_Some in Hc. unfold zlen. lia. Qed.

Lemma put_upd s fd c c' : client_at s fd = Ret c -> put s fd c' = Ret (upd s fd c').
Proof. intros [Hr _]%client_at_range. unfold put. by rewrite wr_in. Qed.

Lemma client_at_upd s fd c c' : client_at s fd = Ret c -> client_at (upd s fd c') fd = Ret c'.
Proof.
  intros [Hr Hc]%client_at_range. unfold client_at, upd. cbn [cdata set_cdata]. apply rd_ret. split; [lia|]. apply list_lookup_insert_eq. unfold zlen in Hr. lia.
Qed.

Lemma client_at_upd_ne s fd c' fd' : fd' <> fd -> 0 <= fd -> client_at (upd s fd c') fd' = client_at s fd'.
Proof.
  intros Hne H0. unfold client_at, upd, rd. cbn [cdata set_cdata]. destruct (Z.ltb_spec fd' 0); [done|]. rewrite list_lookup_insert_ne; [done|]. lia.
Qed.

Lemma client_at_upd_inv s fd c c' fd' d : client_at s fd = Ret c -> client_at (upd s fd c') fd' = Ret d ->
  (fd' = fd /\ d = c') \/ (fd' <> fd /\ client_at s fd' = Ret d).
Proof.
  intros Hc Hd. destruct (decide (fd' = fd)) as [->|Hne]; [left|right].
  - rewrite (client_at_upd s fd c c' Hc) in Hd. split; congruence.
  - apply client_at_range in Hc as [? _]. rewrite client_at_upd_ne in Hd by (done || lia). done.
Qed.

Lemma tickers_cons c l : tickers (c :: l) = (match ticker c with Some _ => 1 | None => 0 end) + tickers l.
Proof. done. Qed.

Lemma tickers_upd l : forall i c c', l !! i = Some c ->
  tickers (<[i := c']> l) = tickers l - (match ticker c with Some _ => 1 | None => 0 end) + (match ticker c' with Some _ => 1 | None => 0 end).
Proof.
  induction l as [|x l IH]; intros [|i] c c' Hi; [done|done| |].
  - injection Hi as ->. change (<[0%nat := c']> (c :: l)) with (c' :: l). rewrite !tickers_cons. lia.
  - change (<[S i := c']> (x :: l)) with (x :: <[i := c']> l). rewrite !tickers_cons, (IH i c c' Hi). lia.
Qed.

Lemma tickers_nonneg l : 0 <= tickers l.
Proof. induction l as [|c l IH]; cbn; [lia|]. fold (tickers l). destruct (ticker c); lia. Qed.

(** what no task undoes, but that [FinishRemove] ends a removal and a client
    that is added takes the place of another: [fin] are their descriptors *)
Definition ext (s s' : state) (fin : list Z) : Prop :=
  grows (app s) (app s') /\ forall fd c, client_at s fd = Ret c -> exists c', client_at s' fd = Ret c' /\
    (in_use c = true \/ is_removed c = true -> in_use c' = true \/ is_removed c' = true) /\ (fd ∉ fin -> wrdata c <> None -> wrdata c' <> None) /\
    (fd ∉ fin -> status c = (false, true, false) -> status c' = (false, true, false)).

Lemma grows_refl a : grows a a.
Proof. by split. Qed.

Lemma grows_trans a b c : grows a b -> grows b c -> grows a c.
Proof. intros [H1 H2] [H3 H4]. split; auto. Qed.

Lemma extends_refl s fin : ext s s fin.
Proof. split; [apply grows_refl|]. intros fd c Hc. by exists c. Qed.

Lemma ext_touched s s' fin fd : ext s s' fin -> touched s fd -> touched s' fd.
Proof. intros [_ He] (c & Hc & Hu). destruct (He fd c Hc) as (c' & Hc' & Hu' & _). exists c'. auto. Qed.

Lemma extends_trans s1 s2 s3 f1 f2 : ext s1 s2 f1 -> ext s2 s3 f2 -> ext s1 s3 (f1 ++ f2).
Proof.
  intros [G1 E1] [G2 E2]. split; [by eapply grows_trans|]. intros fd c Hc. destruct (E1 fd c Hc) as (c1 & Hc1 & U1 & W1 & F1).
  destruct (E2 fd c1 Hc1) as (c2 & Hc2 & U2 & W2 & F2). exists c2. split; [done|]. split; [auto|]. rewrite not_elem_of_app. split; intros [? ?]; auto.
Qed.

Lemma may_acts_grows acts fd a a' : grows a a' -> may_acts acts fd a -> may_acts acts fd a'.
Proof. intros [Gm _] (H1 & H2 & H3 & H4). repeat split; intros h E; eauto. Qed.

Lemma cmd_ok_grows fd a a' c : grows a a' -> cmd_ok fd a c -> cmd_ok fd a' c.
Proof.
  intros G. pose proof G as [Gm Gr]. destruct c as [fd' h fl|fd' h fl|fd'|fd'|fd' p n next|fd' acts fl|fd' h|fd'|fd'|]; cbn; try done.
  - intros [-> Hm]. split; [done|]. intros h' E. auto.
  - intros [-> Hm]. split; [done|]. intros h' E. auto.
  - intros (-> & Hn & Hp & Ht). split; [done|]. split; [done|]. split; [auto|]. intros t E. destruct (Ht t E) as [H1 H2]. split; intros h' E'; [apply Gm, H1|apply Gm, H2]; done.
  - intros (? & ? & ?). split; [done|]. split; [done|]. by eapply may_acts_grows.
  - intros [-> Hm]. split; [done|]. intros h' E. auto.
Qed.

Lemma task_ok_ext s s' fin t : ext s s' fin -> (forall fd, t = FinishRemove fd -> fd ∉ fin) -> (fin = [] \/ quiet t) -> task_ok s t -> task_ok s' t.
Proof.
  intros E Hfin Hq. pose proof E as [G Ec]. destruct t as [c|[|h] fd|fd|fd|fd|h fd|fd]; cbn [task_ok].
  - intros (fd & Hc & Ht). exists fd. split; [by eapply cmd_ok_grows|]. destruct Ht; [left; by eapply ext_touched|by right].
  - intros (c & Hc & Hu & Hw). destruct Hq as [->|[]]. destruct (Ec fd c Hc) as (c' & Hc' & ? & Hw' & _). exists c'. split; [done|]. split; [auto|]. apply Hw'; [set_solver|done].
  - intros [Ht Hm]. split; [destruct Ht; [left; by eapply ext_touched|by right]|by apply G].
  - intros (c & Hc & Hu & Hw). destruct Hq as [->|[]]. destruct (Ec fd c Hc) as (c' & Hc' & ? & Hw' & _). exists c'. split; [done|]. split; [auto|]. apply Hw'; [set_solver|done].
  - apply ext_touched with (1 := E).
  - apply ext_touched with (1 := E).
  - intros [Ht Hm]. split; [by eapply ext_touched|by apply G].
  - intros (c & Hc & Hs). destruct (Ec fd c Hc) as (c' & Hc' & _ & _ & Hf). exists c'. split; [done|]. apply Hf; [by apply Hfin|done].
Qed.

Lemma tasks_ok_ext s s' fin todo : ext s s' fin -> (forall fd, fd ∈ fin -> fd ∉ finishing todo) -> (fin = [] \/ Forall quiet todo) ->
  Forall (task_ok s) todo -> Forall (task_ok s') todo.
Proof.
  intros E Hfin Hq Hall. apply Forall_forall. intros t Ht. eapply task_ok_ext; [exact E| | |by eapply Forall_forall in Hall].
  - intros fd -> Hin. apply (Hfin fd Hin). unfold finishing. apply list_elem_of_omap. by exists (FinishRemove fd).
  - destruct Hq as [?|Hq]; [by left|right]. by eapply Forall_forall in Hq.
Qed.

Lemma tasks_ok_keep s s' todo : ext s s' [] -> Forall (task_ok s) todo -> Forall (task_ok s') todo.
Proof. intros E. apply (tasks_ok_ext s s' [] todo E); [by intros fd ?%not_elem_of_nil|by left]. Qed.

Lemma client_inv_grows a a' fd c : grows a a' -> client_inv a fd c -> client_inv a' fd c.
Proof.
  intros [Gm Gr] [C1 C2 C3 [C4 C4'] C5 [C6 C6'] Cf [C7 C7']]. split; [done|intros h E; auto|intros h E; auto| |intros h E; auto| |done|].
  - split; intros h E; auto.
  - split; intros h E; auto.
  - split; [done|]. destruct (wrdata c) as [[p off]|]; [|done]. destruct C7'. auto.
Qed.

(** *** Steps that keep the invariant *)

Context (KL : kernel_laws) (HL : history_laws) (AL : app_laws).

(** tasks that neither end a removal nor add a client *)
Definition plain (l : list task) : Prop := finishing l = [] /\ adding l = [].

Lemma finishing_app l k : finishing (l ++ k) = finishing l ++ finishing k.
Proof. apply omap_app. Qed.
Lemma adding_app l k : adding (l ++ k) = adding l ++ adding k.
Proof. apply omap_app. Qed.

Lemma inv_tail s t todo : inv s (t :: todo) -> plain [t] -> inv s todo.
Proof.
  intros [L G C S F T M N D X V K] [E1 E2]. assert (Ef : finishing (t :: todo) = finishing todo) by (change (t :: todo) with ([t] ++ todo); by rewrite finishing_app, E1).
  assert (Ea : adding (t :: todo) = adding todo) by (change (t :: todo) with ([t] ++ todo); by rewrite adding_app, E2).
  rewrite Ef, Ea in *. apply Forall_cons in K as [_ K]. by split.
Qed.

Lemma inv_push s more todo : inv s todo -> Forall (task_ok s) more -> plain more -> inv s (more ++ todo).
Proof.
  intros [L G C S F T M N D X V K] Hk [E1 E2]. assert (Ef : finishing (more ++ todo) = finishing todo) by (by rewrite finishing_app, E1).
  assert (Ea : adding (more ++ todo) = adding todo) by (by rewrite adding_app, E2).
  split; rewrite ?Ef, ?Ea; try done. by apply Forall_app.
Qed.

Lemma live_conns s todo fd : inv s todo -> live s fd -> fd ∈ conns (world s).
Proof. intros Hi Hl. apply (i_conns _ _ Hi). by left. Qed.

Lemma cmdfd_not_live s todo : inv s todo -> ~ live s (cmdfd svc).
Proof. intros Hi Hl. apply (k_cmdfd KL (world s)). by eapply live_conns. Qed.

Lemma live_touched s fd : live s fd -> touched s fd.
Proof. intros (c & Hc & Hu). exists c. auto. Qed.

Lemma live_upd s fd c c' x : client_at s fd = Ret c -> in_use c' = in_use c -> live (upd s fd c') x <-> live s x.
Proof.
  intros Hc Hs. unfold live. split; intros (d & Hd & Hu).
  - destruct (client_at_upd_inv s fd c c' x d Hc Hd) as [[-> ->]|[_ Hd']]; [exists c; split; [done|congruence]|by exists d].
  - destruct (decide (x = fd)) as [->|Hne].
    + exists c'. split; [by eapply client_at_upd|congruence].
    + exists d. split; [|done]. rewrite client_at_upd_ne; [done|done|]. apply client_at_range in Hc as [? _]. lia.
Qed.

Lemma ext_upd s fd c c' : client_at s fd = Ret c -> status c' = status c -> (wrdata c <> None -> wrdata c' <> None) -> ext s (upd s fd c') [].
Proof.
  intros Hc Hs Hw. split; [apply grows_refl|]. intros x d Hd. destruct (decide (x = fd)) as [->|Hne].
  - assert (d = c) as -> by congruence. exists c'. split; [by eapply client_at_upd|]. rewrite Hs. injection Hs as -> -> _. auto.
  - exists d. split; [|done]. rewrite client_at_upd_ne; [done|done|]. apply client_at_range in Hc as [? _]. lia.
Qed.

Lemma upd_inv_tick s todo fd c c' n : inv s todo -> client_at s fd = Ret c -> status c' = status c -> client_inv (app s) fd c' ->
  (wrdata c <> None -> wrdata c' <> None) -> tickers (<[Z.to_nat fd := c']> (cdata s)) <= n -> inv (set_ntickers (upd s fd c') n) todo.
Proof.
  intros [L G C S F T M N D X V K] Hc Hs Hi Hw Ht. assert (Hu : in_use c' = in_use c) by (by injection Hs).
  pose proof (fun x => live_upd s fd c c' x Hc Hu) as Hlv.
  split; cbn [cdata app world ntickers maxfd rfds wfds set_ntickers upd set_cdata]; try done.
  - by rewrite zlen_insert.
  - intros x d Hd. destruct (client_at_upd_inv s fd c c' x d Hc Hd) as [[-> ->]|[_ Hd']]; [done|by apply C].
  - intros x [?|[Hl|?]]%S; [by left|right; left|by right; right]. by apply (Hlv x).
  - intros x. rewrite (N x). by rewrite <- (Hlv x).
  - intros x Hx Hl%(Hlv x). by apply (X x).
  - destruct V as [V|V]; [by left|right]. intros Hl%(Hlv _). auto.
  - eapply tasks_ok_keep; [|exact K]. by eapply (ext_upd s fd c c' Hc Hs Hw).
Qed.

Lemma upd_inv s todo fd c c' : inv s todo -> client_at s fd = Ret c -> status c' = status c -> client_inv (app s) fd c' ->
  (wrdata c <> None -> wrdata c' <> None) -> ticker c' = ticker c -> inv (upd s fd c') todo.
Proof.
  intros Hinv Hc Hs Hi Hw Ht. apply (upd_inv_tick s todo fd c c' (ntickers s) Hinv Hc Hs Hi Hw).
  apply client_at_range in Hc as [_ Hc]. rewrite (tickers_upd _ _ _ _ Hc), Ht. pose proof (i_tickers _ _ Hinv). lia.
Qed.

Lemma inv_rfds s todo r : inv s todo -> (forall x, x ∈ r -> x ∈ rfds s \/ live s x) -> inv (set_rfds s r) todo.
Proof.
  intros Hi Hs. pose proof (cmdfd_not_live _ _ Hi) as Hcmd. destruct Hi as [L G C S F T M N D X V K]. split; try done.
  - intros x [[Hx|?]%Hs|Hx]%elem_of_union; [|by right; left|].
    + apply S. set_solver.
    + apply S. cbn in Hx. set_solver.
  - destruct V as [V|V]; [by left|right]. intros Hl. cbn. intros [Hx|Hx]%Hs; [by apply V|done].
Qed.

(** the service is watched again after a removal *)
Lemma inv_watch s todo : inv s todo -> removed (world s) -> inv (set_rfds s (rfds s ∪ {[cmdfd svc]})) todo.
Proof.
  intros [L G C S F T M N D X V K] Hr. split; try done; [|by left]. intros x Hx. destruct (decide (x = cmdfd svc)); [by left|]. apply S. cbn in Hx. set_solver.
Qed.

Lemma inv_wfds s todo w : inv s todo -> (forall x, x ∈ w -> x ∈ wfds s \/ live s x) -> inv (set_wfds s w) todo.
Proof.
  intros Hi Hs. pose proof (cmdfd_not_live _ _ Hi) as Hcmd. destruct Hi as [L G C S F T M N D X V K]. split; try done.
  - intros x [Hx|[Hx|?]%Hs]%elem_of_union; [| |by right; left].
    + apply S. cbn in Hx. set_solver.
    + apply S. set_solver.
  - cbn. by intros [?|Hl]%Hs.
Qed.

Lemma ext_app s a w : grows (app s) a -> ext s (set_app s a w) [].
Proof. intros Hgr. split; [done|]. intros fd c Hc. by exists c. Qed.

(** after a handler: the calls it made are to be done *)
Lemma inv_calls s todo a w cmds : inv s todo -> good a w -> grows (app s) a -> conns w = conns (world s) ∪ list_to_set (adds cmds) ->
  NoDup (adds cmds) -> (forall x, x ∈ adds cmds -> x ∉ conns (world s)) -> (removed (world s) -> removed w) ->
  Forall (task_ok (set_app s a w)) (map Do cmds) -> inv (set_app s a w) (map Do cmds ++ todo).
Proof.
  intros [L G C S F T M N D X V K] Hg Hgr Hw Hnd Hnew Hrm Hk.
  assert (Ef : finishing (map Do cmds ++ todo) = finishing todo) by (rewrite finishing_app; clear; induction cmds; done).
  assert (Ea : adding (map Do cmds ++ todo) = adds cmds ++ adding todo).
  { rewrite adding_app. f_equal. clear. induction cmds as [|[] cmds IH]; try done. cbn in *. by f_equal. }
  split; rewrite ?Ef, ?Ea; cbn [cdata app world set_app]; try done.
  - intros fd c Hc. eapply client_inv_grows; [exact Hgr|]. by apply C.
  - intros fd. rewrite Hw, elem_of_union, elem_of_list_to_set, N, elem_of_app. change (live (set_app s a w) fd) with (live s fd). tauto.
  - rewrite NoDup_app in D. destruct D as (D1 & D2 & D3). apply NoDup_app. split; [done|]. split.
    + intros x Hx. apply not_elem_of_app. split; [|by apply D2]. intros Hx'. apply (Hnew x Hx'). apply N. auto.
    + apply NoDup_app. split; [done|]. split; [|done]. intros x Hx Hx'. apply (Hnew x Hx). apply N. auto.
  - intros x [Hx|Hx]%elem_of_app Hl; [|by apply (X x)]. apply (Hnew x Hx). apply N. by left.
  - destruct V as [V|V]; [left; auto|by right].
  - apply Forall_app. split; [done|]. eapply tasks_ok_keep; [by apply ext_app|done].
Qed.

Lemma inv_app s todo a w : inv s todo -> good a w -> grows (app s) a -> conns w = conns (world s) -> (removed (world s) -> removed w) -> inv (set_app s a w) todo.
Proof.
  intros Hi Hg Hgr Hw Hr. apply (inv_calls s todo a w []); try done; [|constructor|by intros x ?%not_elem_of_nil].
  rewrite Hw. cbn. set_solver.
Qed.

(** how a task ends *)
Definition stepped (s : state) (todo : list task) (r : outcome (state * list task)) : Prop :=
  r = OutOfFuel \/ exists s' more fin, r = Ret (s', more) /\ inv s' (more ++ todo) /\ ext s s' fin.

Lemma stepped_ret s todo s' more fin : inv s' (more ++ todo) -> ext s s' fin -> stepped s todo (Ret (s', more)).
Proof. intros ? ?. right. by exists s', more, fin. Qed.

Lemma touched_at s fd : touched s fd -> exists c, client_at s fd = Ret c /\ (is_removed c = false -> in_use c = true).
Proof. intros (c & Hc & [Hu|Hr]); exists c; (split; [done|]); congruence. Qed.

Lemma set_on_readable_step s todo fd h fl : inv s todo -> touched s fd -> may_opt h fd (app s) -> stepped s todo (eds_client_set_on_readable s fd h fl).
Proof.
  intros Hi Ht Hm. destruct (touched_at s fd Ht) as (c & Hc & Hu). unfold eds_client_set_on_readable. rewrite Hc. cbn [mbind outcome_mbind].
  destruct (is_removed c) eqn:Hr; [by apply (stepped_ret _ _ _ [] []); [|apply extends_refl]|]. specialize (Hu eq_refl).
  pose proof (i_clients _ _ Hi fd c Hc) as [C1 C2 C3 C4 C5 C6 Cf C7].
  destruct h as [h|].
  - set (c' := set_cflags _ _). assert (Hs : status c' = status c) by (unfold c'; by rewrite (status_resume (set_readable c (Some h)))).
    rewrite (put_upd s fd c c' Hc). cbn [mbind outcome_mbind].
    assert (Hi' : inv (upd s fd c') todo) by (apply (upd_inv s todo fd c c' Hi Hc Hs); [|done|done]; injection Hs as Hs1 Hs2 Hs3; split; try done; rewrite ?Hs1, ?Hs2, ?Hs3; done).
    assert (Hl : live (upd s fd c') fd) by (apply (live_upd s fd c c' fd Hc); [by injection Hs|by exists c]).
    eapply (stepped_ret _ _ _ _ []); [|by apply (ext_upd s fd c c' Hc Hs)]. destruct (flag_set fl EDS_DEFER).
    + apply inv_rfds; [done|]. intros x [Hx| ->%elem_of_singleton]%elem_of_union; [by left|by right].
    + apply (inv_push _ [_]); [apply inv_rfds; [done|]|apply Forall_singleton; split; [left; by apply live_touched|by apply Hm]|by split].
      intros x [Hx| ->%elem_of_singleton]%elem_of_union; [by left|by right].
  - rewrite (put_upd s fd c _ Hc). cbn [mbind outcome_mbind].
    assert (Hi' : inv (upd s fd (set_readable c None)) todo) by (apply (upd_inv s todo fd c _ Hi Hc); [done| |done|done]; by split).
    apply (stepped_ret _ _ _ [] []); [|by apply (ext_upd s fd c _ Hc)]. apply inv_rfds; [done|]. intros x Hx. left. set_solver.
Qed.

Lemma suspend_readable_step s todo fd : inv s todo -> touched s fd -> stepped s todo (eds_client_suspend_readable s fd).
Proof.
  intros Hi Ht. destruct (touched_at s fd Ht) as (c & Hc & Hu). unfold eds_client_suspend_readable. rewrite Hc. cbn [mbind outcome_mbind].
  destruct (is_removed c) eqn:Hr; [by apply (stepped_ret _ _ _ [] []); [|apply extends_refl]|]. pose proof (i_clients _ _ Hi fd c Hc) as [C1 C2 C3 C4 C5 C6 Cf C7].
  set (c' := set_cflags _ _). assert (Hs : status c' = status c) by (unfold c'; by rewrite (status_suspend (set_readable c None))).
  rewrite (put_upd s fd c c' Hc). cbn [mbind outcome_mbind]. apply (stepped_ret _ _ _ [] []); [|by apply (ext_upd s fd c c' Hc Hs)].
  apply (upd_inv s todo fd c c' Hi Hc Hs); [|done|done]. injection Hs as Hs1 Hs2 Hs3. split; try done; by rewrite ?Hs1, ?Hs2, ?Hs3.
Qed.

Lemma clear_actions_step s todo fd : inv s todo -> touched s fd -> stepped s todo (eds_client_clear_actions s fd).
Proof.
  intros Hi Ht. destruct (touched_at s fd Ht) as (c & Hc & Hu). unfold eds_client_clear_actions. rewrite Hc. cbn [mbind outcome_mbind].
  pose proof (i_clients _ _ Hi fd c Hc) as [C1 C2 C3 C4 C5 C6 Cf [C7 C7']].
  set (c' := set_cflags _ _). assert (Hs : status c' = status c) by (unfold c'; by rewrite (status_resume (set_writable (set_readable c None) None))).
  rewrite (put_upd s fd c c' Hc). cbn [mbind outcome_mbind]. apply (stepped_ret _ _ _ [] []); [|by apply (ext_upd s fd c c' Hc Hs)].
  assert (Hi' : inv (upd s fd c') todo).
  { apply (upd_inv s todo fd c c' Hi Hc Hs); [|done|done]. injection Hs as Hs1 Hs2 Hs3. split; try done; [by rewrite ?Hs1, ?Hs2, ?Hs3|by rewrite ?Hs1, ?Hs2, ?Hs3|].
    split; [done|]. unfold c'. cbn. destruct (wrdata c) as [[p off]|]; [done|]. by destruct C7'. }
  apply inv_wfds; [apply (inv_rfds _ _ _ Hi')|]; intros x Hx; left; cbn in *; set_solver.
Qed.

Lemma set_on_writable_step s todo fd h fl : inv s todo -> touched s fd -> (forall h', h = Some (App h') -> may h' fd (app s)) ->
  (h = Some OnSend -> exists c, client_at s fd = Ret c /\ wrdata c <> None) -> stepped s todo (eds_client_set_on_writable s fd h fl).
Proof.
  intros Hi Ht Hm Hw. destruct (touched_at s fd Ht) as (c & Hc & Hu). unfold eds_client_set_on_writable. rewrite Hc. cbn [mbind outcome_mbind].
  destruct (is_removed c) eqn:Hr; [by apply (stepped_ret _ _ _ [] []); [|apply extends_refl]|]. specialize (Hu eq_refl).
  pose proof (i_clients _ _ Hi fd c Hc) as [C1 C2 C3 C4 C5 C6 Cf [C7 C7']]. rewrite (put_upd s fd c _ Hc). cbn [mbind outcome_mbind].
  assert (Hw' : h = Some OnSend -> wrdata c <> None) by (intros E; destruct (Hw E) as (d & Hd & ?); congruence).
  assert (Hi' : inv (upd s fd (set_writable c h)) todo).
  { apply (upd_inv s todo fd c _ Hi Hc); [done| |done|done]. split; try done. split; [done|]. cbn.
    destruct (wrdata c) as [[p off]|] eqn:E; [done|]. destruct C7' as [? _]. split; [done|]. intros E'. by apply Hw'. }
  assert (Hl : live (upd s fd (set_writable c h)) fd) by (apply (live_upd s fd c _ fd Hc); [done|by exists c]).
  destruct h as [h|].
  - eapply (stepped_ret _ _ _ _ []); [|by apply (ext_upd s fd c _ Hc)].
    assert (Hi2 : inv (set_wfds (upd s fd (set_writable c (Some h))) (wfds (upd s fd (set_writable c (Some h))) ∪ {[fd]})) todo).
    { apply (inv_wfds _ _ _ Hi'). intros x [Hx| ->%elem_of_singleton]%elem_of_union; [by left|by right]. }
    destruct (flag_set fl EDS_DEFER); [done|]. apply (inv_push _ [_] _ Hi2); [|by split]. apply Forall_singleton. destruct h as [|h].
    + eexists. split; [by eapply client_at_upd|]. split; [by left|]. by apply Hw'.
    + split; [left; by apply live_touched|by apply Hm].
  - apply (stepped_ret _ _ _ [] []); [|by apply (ext_upd s fd c _ Hc)]. apply (inv_wfds _ _ _ Hi'). intros x Hx. left. set_solver.
Qed.

Lemma stepped_after s s1 todo r fin : ext s s1 fin -> stepped s1 todo r -> stepped s todo r.
Proof. intros E [->|(s' & more & f & -> & Hi & E')]; [by left|]. right. exists s', more, (fin ++ f). split; [done|]. split; [done|]. by eapply extends_trans. Qed.

Lemma send_step s todo fd p len next : inv s todo -> touched s fd -> 0 <= len -> readable (app s) p len -> (forall t, next = Some t -> may_trans t fd (app s)) ->
  stepped s todo (eds_client_send s fd p len next).
Proof.
  intros Hi Ht Hlen Hp Hn. destruct (touched_at s fd Ht) as (c & Hc & Hu). unfold eds_client_send. rewrite Hc. cbn [mbind outcome_mbind].
  pose proof (i_clients _ _ Hi fd c Hc) as [C1 C2 C3 C4 C5 C6 Cf [C7 C7']].
  set (c' := set_trans _ _). rewrite (put_upd s fd c c' Hc). cbn [mbind outcome_mbind].
  assert (E : ext s (upd s fd c') []) by (by apply (ext_upd s fd c c' Hc)).
  apply (stepped_after _ _ _ _ _ E). apply set_on_writable_step; [|by eapply ext_touched|done|intros _; exists c'; split; [by eapply client_at_upd|done]].
  apply (upd_inv s todo fd c c' Hi Hc); try done. split; try done.
  unfold c'. cbn. destruct next as [t|]; [by apply Hn|]. split; intros h [=].
Qed.

Lemma set_ticker_step s todo fd h : inv s todo -> touched s fd -> may_opt h fd (app s) -> stepped s todo (eds_client_set_ticker svc s fd h).
Proof.
  intros Hi Ht Hm. unfold eds_client_set_ticker. destruct (tick_slice_us svc =? 0); [by apply (stepped_ret _ _ _ [] []); [|apply extends_refl]|].
  destruct (touched_at s fd Ht) as (c & Hc & Hu). rewrite Hc. cbn [mbind outcome_mbind]. pose proof (i_clients _ _ Hi fd c Hc) as [C1 C2 C3 C4 C5 C6 Cf C7].
  rewrite (put_upd s fd c _ Hc). cbn [mbind outcome_mbind]. apply (stepped_ret _ _ _ [] []); [|by apply (ext_upd s fd c _ Hc)].
  apply (upd_inv_tick s todo fd c _ _ Hi Hc); [done| |done|].
  { split; try done. intros _. destruct Ht as (d & Hd & Hdu). assert (d = c) as -> by congruence. done. }
  pose proof (i_tickers _ _ Hi). apply client_at_range in Hc as [_ Hc]. rewrite (tickers_upd _ _ _ _ Hc). cbn.
  destruct (ticker c), h; lia.
Qed.

Lemma remove_client_step s todo fd : inv s todo -> touched s fd -> stepped s todo (eds_service_remove_client s fd).
Proof.
  intros Hi Ht. destruct (touched_at s fd Ht) as (c & Hc & Hu). unfold eds_service_remove_client. rewrite Hc. cbn [mbind outcome_mbind].
  destruct (is_removed c) eqn:Hr; [by apply (stepped_ret _ _ _ [] []); [|apply extends_refl]|]. specialize (Hu eq_refl).
  pose proof (i_clients _ _ Hi fd c Hc) as [C1 C2 C3 C4 C5 C6 Cf C7]. destruct (C1 Hu) as [_ Hx].
  set (c' := set_cflags _ _). assert (Hs : status c' = (false, true, false)) by (unfold c'; by rewrite status_remove, Hx).
  rewrite (put_upd s fd c c' Hc). cbn [mbind outcome_mbind]. pose proof Hs as Hs'. injection Hs' as Hs1 Hs2 Hs3.
  assert (Hat : client_at (upd s fd c') fd = Ret c') by (by eapply client_at_upd).
  assert (E : ext s (upd s fd c') []).
  { split; [apply grows_refl|]. intros x d Hd. destruct (decide (x = fd)) as [->|Hne].
    - exists c'. split; [done|]. split; [by right|]. split; [|done]. assert (d = c) as -> by congruence. done.
    - exists d. split; [|done]. rewrite client_at_upd_ne; [done|done|]. apply client_at_range in Hc as [? _]. lia. }
  assert (Hnf : fd ∉ finishing todo).
  { intros Hin. unfold finishing in Hin. apply list_elem_of_omap in Hin as ([| | | | | |x] & Hin & [=->]). pose proof (i_tasks _ _ Hi) as Hk. eapply Forall_forall in Hk; [|exact Hin].
    destruct Hk as (d & Hd & Hst). assert (d = c) as -> by congruence. injection Hst as Hst _ _. congruence. }
  assert (Hlive : forall x, live (upd s fd c') x <-> live s x /\ x <> fd).
  { intros x. split.
    - intros (d & Hd & Hdu). destruct (client_at_upd_inv s fd c c' x d Hc Hd) as [[-> ->]|[Hne Hd']]; [congruence|]. split; [by exists d|done].
    - intros [(d & Hd & Hdu) Hne]. exists d. split; [|done]. rewrite client_at_upd_ne; [done|done|]. apply client_at_range in Hc as [? _]. lia. }
  assert (Hi' : inv (upd s fd c') (FinishRemove fd :: todo)).
  { destruct Hi as [L G C S F T M N D X V K]. assert (Hlc : live s fd) by (by exists c).
    split; cbn [cdata app world ntickers maxfd rfds wfds upd set_cdata]; try done.
    - by rewrite zlen_insert.
    - intros x d Hd. destruct (client_at_upd_inv s fd c c' x d Hc Hd) as [[-> ->]|[_ Hd']]; [|by apply C]. split; try done; [by rewrite Hs1|by right].
    - intros x Hin. apply S in Hin as [?|[Hl|?]]; [by left|right|right; right; by right]. destruct (decide (x = fd)) as [->|]; [right; by left|left; by apply Hlive].
    - apply client_at_range in Hc as [_ Hc]. rewrite (tickers_upd _ _ _ _ Hc). unfold c'. cbn. lia.
    - intros x. rewrite (N x), Hlive. change (finishing (FinishRemove fd :: todo)) with (fd :: finishing todo). change (adding (FinishRemove fd :: todo)) with (adding todo).
      rewrite elem_of_cons. destruct (decide (x = fd)) as [->|]; [|tauto]. split; [intros _; right; left; by left|intros _; by left].
    - change (NoDup (fd :: finishing todo ++ adding todo)). constructor; [|done]. rewrite not_elem_of_app. split; [done|]. intros Hxa. by apply (X fd).
    - intros x Hxa [Hl _]%Hlive. by apply (X x).
    - destruct V as [V|V]; [by left|right]. intros [Hl _]%Hlive. auto.
    - constructor; [by exists c'|]. by eapply tasks_ok_keep. }
  destruct (on_done c) as [h|] eqn:Eh; [|by apply (stepped_ret _ _ _ [FinishRemove fd] [])].
  apply (stepped_ret _ _ _ [OnDone h fd; FinishRemove fd] []); [|done]. apply (inv_push _ [OnDone h fd] _ Hi'); [|by split].
  apply Forall_singleton. destruct C4 as [C4 _]. split; [exists c'; auto|by apply C4].
Qed.

Lemma inv_finish s todo fd : inv s (FinishRemove fd :: todo) -> fd ∉ finishing todo /\ fd ∉ adding todo /\ ~ live s fd.
Proof.
  intros Hi. pose proof (i_finishing _ _ Hi) as D. change (NoDup (fd :: finishing todo ++ adding todo)) in D. apply NoDup_cons in D as [D _].
  apply not_elem_of_app in D as [D1 D2]. split; [done|]. split; [done|]. intros (d & Hd & Hu).
  pose proof (i_tasks _ _ Hi) as Hk. apply Forall_cons in Hk as [(c & Hc & Hs) _]. injection Hs as Hs1 _ _. congruence.
Qed.

(** the descriptor is closed and no longer watched *)
Lemma finish_remove_step s todo fd : inv s (FinishRemove fd :: todo) -> Forall quiet todo -> stepped s todo (finish_remove svc s fd).
Proof.
  intros Hi Hq. pose proof (i_tasks _ _ Hi) as Hk. apply Forall_cons in Hk as [(c & Hc & Hs) Hk]. destruct (inv_finish _ _ _ Hi) as (Hnf & Hna & Hnl).
  unfold finish_remove. rewrite Hc. cbn [mbind outcome_mbind]. pose proof (i_clients _ _ Hi fd c Hc) as [C1 C2 C3 C4 C5 C6 Cf C7].
  pose proof Hs as Hs'. injection Hs' as Hs1 Hs2 Hs3. unfold external in Hs3. rewrite Hs3.
  set (c' := set_cflags _ _). assert (Hs' : status c' = (in_use c, is_removed c, true)) by (unfold c'; by rewrite (status_external (set_tick (set_done c None) None))).
  set (s1 := set_world _ _). assert (Hc1 : client_at s1 fd = Ret c) by done. rewrite (put_upd s1 fd c c' Hc1). cbn [mbind outcome_mbind].
  rewrite Hs1, Hs2 in Hs'. injection Hs' as Hu1 Hu2 Hu3. pose proof Hc as [Hr Hl]%client_at_range.
  assert (Hlive : forall x, live (upd s1 fd c') x <-> live s x) by (intros x; apply (live_upd s1 fd c c' x Hc1); congruence).
  assert (E : ext s (upd s1 fd c') [fd]).
  { split; [apply grows_refl|]. intros x d Hd. destruct (decide (x = fd)) as [->|Hne].
    - exists c'. split; [by eapply client_at_upd|]. split; [by right|]. split; intros Hin; set_solver.
    - exists d. split; [|done]. rewrite client_at_upd_ne; [done|done|lia]. }
  assert (Hrm : removed (world (upd s1 fd c'))) by (apply (h_close HL), (i_conns _ _ Hi); right; left; by left).
  assert (Hi2 : inv (set_wfds (set_rfds (upd s1 fd c') (rfds s ∖ {[fd]})) (wfds s ∖ {[fd]})) todo).
  { destruct Hi as [L G C S F T M N D X V K].
    split; cbn [cdata app world ntickers maxfd rfds wfds upd set_cdata set_rfds set_wfds set_world set_app set_ntickers s1] in *.
    - by rewrite zlen_insert.
    - by apply AL.
    - intros x d Hd. destruct (client_at_upd_inv s1 fd c c' x d Hc1 Hd) as [[-> ->]|[_ Hd']]; [|by apply C]. split; try done; [by rewrite Hu1|split; [by intros h [=]|apply C4]|by right].
    - intros x Hx. assert (Hin : x <> fd /\ x ∈ rfds s ∪ wfds s) by set_solver.
      destruct Hin as [Hne Hin]. apply S in Hin as [?|[Hx1|Hx1]]; [by left|right; left; by apply Hlive|right; right]. change (x ∈ fd :: finishing todo) in Hx1. by apply elem_of_cons in Hx1 as [?|?].
    - intros Hin. apply F. set_solver.
    - rewrite (tickers_upd _ _ _ _ Hl). unfold c'. cbn [ticker set_cflags set_tick]. destruct (ticker c); lia.
    - done.
    - intros x. rewrite (k_close KL), elem_of_difference, N, elem_of_singleton. change (finishing (FinishRemove fd :: todo)) with (fd :: finishing todo).
      change (adding (FinishRemove fd :: todo)) with (adding todo). rewrite elem_of_cons. change (live (set_wfds (set_rfds (upd s1 fd c') (rfds s ∖ {[fd]})) (wfds s ∖ {[fd]})) x) with (live (upd s1 fd c') x). rewrite Hlive.
      destruct (decide (x = fd)) as [->|]; tauto.
    - change (NoDup (fd :: finishing todo ++ adding todo)) in D. by apply NoDup_cons in D as [_ D].
    - intros x Hx Hlx. apply (X x); [done|]. by apply Hlive.
    - by left.
    - eapply tasks_ok_ext; [exact E| |by right|exact Hk]. intros x ->%list_elem_of_singleton. done. }
  apply (stepped_ret _ _ _ [] [fd]); [|exact E]. exact (inv_watch _ _ Hi2 Hrm).
Qed.

Lemma on_send_step s todo fd : inv s todo -> task_ok s (Call OnSend fd) -> stepped s todo (on_eds_client_send s fd).
Proof.
  intros Hi (c & Hc & Hu & Hw). unfold on_eds_client_send. rewrite Hc. cbn [mbind outcome_mbind]. eapply (stepped_ret _ _ _ _ []); [|apply extends_refl].
  apply (inv_push _ (if wrdatalen c =? 0 then _ else _) _ Hi); [|by destruct (wrdatalen c =? 0); split].
  destruct (wrdatalen c =? 0); apply Forall_singleton; exists c; auto.
Qed.

Lemma write_some_step s todo fd : inv s todo -> task_ok s (WriteSome fd) -> stepped s todo (write_some load s fd).
Proof.
  intros Hi (c & Hc & Hu & Hw). unfold write_some. rewrite Hc. cbn [mbind outcome_mbind].
  pose proof (i_clients _ _ Hi fd c Hc) as [C1 C2 C3 C4 C5 C6 Cf [C7 C7']]. destruct (wrdata c) as [[p off]|] eqn:Ew; [|done]. destruct C7' as [Hoff Hrd].
  destruct (a_load AL (app s) p off (wrdatalen c) Hoff C7 Hrd) as (bs & -> & Hbs). cbn [mbind outcome_mbind].
  destruct (k_write KL (world s) fd bs) as [Hconns Hret]. assert (Hg : good (app s) (write (world s) fd bs).1) by (apply AL, (i_good _ _ Hi)).
  pose proof (h_write HL (world s) fd bs) as Hrm. destruct (write (world s) fd bs) as [w ret]. cbn [fst snd] in *. assert (Hi' : inv (set_world s w) todo) by (apply inv_app; [done|done|apply grows_refl|done|exact Hrm]).
  assert (Ht : touched s fd) by (by exists c). destruct ret as [n|e].
  - set (c' := set_wrdata _ _ _). rewrite (put_upd (set_world s w) fd c c' Hc). cbn [mbind outcome_mbind].
    assert (Hi2 : inv (upd (set_world s w) fd c') todo).
    { apply (upd_inv (set_world s w) todo fd c c' Hi' Hc); try done. split; try done. unfold c'. cbn. split; [lia|]. split; [lia|].
      replace (off + n + (wrdatalen c - n)) with (off + wrdatalen c) by lia. done. }
    assert (E : ext s (upd (set_world s w) fd c') []) by (by apply (ext_upd (set_world s w) fd c c' Hc)).
    destruct (0 <? wrdatalen c - n); [by apply (stepped_ret _ _ _ [] [])|]. apply (stepped_ret _ _ _ [Completed fd] []); [|done].
    apply (inv_push _ [_] _ Hi2); [|by split]. apply Forall_singleton. by eapply ext_touched.
  - destruct (e =? EINTR); [|destruct (is_again e)].
    + apply (stepped_ret _ _ _ [WriteSome fd] []); [|apply (extends_refl s [])]. apply (inv_push _ [_] _ Hi'); [|by split]. apply Forall_singleton. exists c. rewrite Ew. auto.
    + apply (stepped_ret _ _ _ [] []); [done|apply (extends_refl s [])].
    + apply (stepped_ret _ _ _ [Do (RemoveClient fd)] []); [|apply (extends_refl s [])]. apply (inv_push _ [_] _ Hi'); [|by split]. apply Forall_singleton. exists fd. split; [done|by left].
Qed.

Lemma completed_step s todo fd : inv s todo -> touched s fd -> stepped s todo (completed s fd).
Proof.
  intros Hi Ht. destruct (touched_at s fd Ht) as (c & Hc & _). unfold completed. rewrite Hc. cbn [mbind outcome_mbind].
  pose proof (i_clients _ _ Hi fd c Hc) as [C1 C2 C3 C4 C5 [C6 C6'] Cf C7].
  destruct (flag_set (t_flags (trans c)) EDS_TFLREAD).
  - rewrite (put_upd s fd c _ Hc). cbn [mbind outcome_mbind]. eapply (stepped_ret _ _ _ [_; _] []); [|by apply (ext_upd s fd c _ Hc)].
    apply (inv_push _ [_; _] todo); [by apply (upd_inv s todo fd c _ Hi Hc)| |by split].
    assert (Ht' : touched (upd s fd (set_trans c (Trans (clear_flag (t_flags (trans c)) EDS_TFLREAD) (t_readable (trans c)) (t_writable (trans c))))) fd)
      by (eapply ext_touched; [by apply (ext_upd s fd c _ Hc)|done]).
    apply Forall_cons. split; [exists fd; split; [by split|by left]|]. by apply Forall_singleton.
  - apply (stepped_ret _ _ _ [CompletedWrite fd] []); [|apply extends_refl]. apply (inv_push _ [_] _ Hi); [|by split]. by apply Forall_singleton.
Qed.

Lemma completed_write_step s todo fd : inv s todo -> touched s fd -> stepped s todo (completed_write s fd).
Proof.
  intros Hi Ht. destruct (touched_at s fd Ht) as (c & Hc & _). unfold completed_write. rewrite Hc. cbn [mbind outcome_mbind].
  pose proof (i_clients _ _ Hi fd c Hc) as [C1 C2 C3 C4 C5 [C6 C6'] Cf C7].
  destruct (flag_set (t_flags (trans c)) EDS_TFLWRITE); [|by apply (stepped_ret _ _ _ [] []); [|apply extends_refl]].
  rewrite (put_upd s fd c _ Hc). cbn [mbind outcome_mbind]. eapply (stepped_ret _ _ _ [_] []); [|by apply (ext_upd s fd c _ Hc)].
  apply (inv_push _ [_] todo); [by apply (upd_inv s todo fd c _ Hi Hc)| |by split].
  apply Forall_singleton. exists fd. split; [by split|]. left. eapply ext_touched; [by apply (ext_upd s fd c _ Hc)|done].
Qed.

Lemma call_app_step s todo h fd : inv s todo -> (touched s fd \/ fd = -1) -> may h fd (app s) -> stepped s todo (call_app body s h fd).
Proof.
  intros Hi Ht Hm. unfold call_app. destruct (a_body AL h fd (app s) (world s) Hm (i_good _ _ Hi)) as [->|(a & w & cmds & E & Hg & Hgr & Hw & Hnd & Hnew & Hcmds)]; [by left|].
  rewrite E. cbn [mbind outcome_mbind]. pose proof (ext_app s a w Hgr) as Hext. eapply (stepped_ret _ _ _ _ []); [|exact Hext].
  apply inv_calls; try done; [intros Hr; by eapply (h_body HL)|].
  apply Forall_fmap. eapply Forall_impl; [exact Hcmds|]. intros c [Hc H1]. exists fd. split; [done|]. destruct Ht as [Ht|Ht]; [left; by eapply ext_touched|right; by apply H1].
Qed.

Lemma inv_maxfd s todo n : inv s todo -> n <= nfds svc -> inv (set_maxfd s n) todo.
Proof. intros [L G C S F T M N D X V K] Hn. by split. Qed.

(** changes of the kernel that touch no client *)
Definition same_world (s : state) (w : W) : Prop := good (app s) w /\ conns w = conns (world s) /\ (removed (world s) -> removed w).

Lemma inv_same_world s todo w : inv s todo -> same_world s w -> inv (set_world s w) todo.
Proof. intros Hi (Hg & Hc & Hr). apply inv_app; [done|done|apply grows_refl|done|done]. Qed.

Lemma set_bit_world s getter setter bit w fd val : same_world s w -> same_world s (set_bit getter setter bit w fd val).1.
Proof.
  assert (Hf : forall w fd c x, same_world s w -> same_world s (fcntl w fd c x).1).
  { intros w0 fd0 c x (Hg & Hc & Hr). split; [by apply (a_fcntl AL)|]. split; [by rewrite (k_fcntl KL)|]. intros ?. apply (h_fcntl HL). auto. }
  intros Hw. unfold set_bit. pose proof (Hf w fd getter 0 Hw) as H1. destruct (fcntl w fd getter 0) as [w1 fl]. cbn [fst] in H1.
  set (fl' := if val =? 0 then _ else _). pose proof (Hf w1 fd setter fl' H1) as H2. destruct (negb (fl' =? fl)); [|done]. by destruct (fcntl w1 fd setter fl').
Qed.

(** a client takes its place *)
Lemma inv_added s todo fd acts fl c c' r wr : inv s (Do (AddClient fd acts fl) :: todo) -> Forall quiet todo -> client_at s fd = Ret c ->
  client_inv (app s) fd c' -> in_use c' = true -> ticker c' = None -> fd <> cmdfd svc ->
  (forall x, x ∈ r -> x ∈ rfds s \/ x = fd) -> (forall x, x ∈ wr -> x ∈ wfds s \/ x = fd) -> (fd = nfds svc - 1 -> cmdfd svc ∉ r) ->
  let s' := set_wfds (set_rfds (upd s fd c') r) wr in inv s' todo /\ ext s s' [fd].
Proof.
  intros Hi Hq Hc Hci Hu Htk Hne Hr Hwr Hlast s'. pose proof (cmdfd_not_live _ _ Hi) as Hcmd. pose proof Hc as [Hrg Hl]%client_at_range.
  assert (Hlive : forall x, live s' x <-> live s x \/ x = fd).
  { intros x. split.
    - intros (d & Hd & Hdu). destruct (client_at_upd_inv s fd c c' x d Hc Hd) as [[-> ->]|[? Hd']]; [by right|left; by exists d].
    - intros [(d & Hd & Hdu)| ->]; [|exists c'; split; [by eapply client_at_upd|done]]. destruct (decide (x = fd)) as [->|]; [exists c'; split; [by eapply client_at_upd|done]|].
      exists d. split; [|done]. change (client_at (upd s fd c') x = Ret d). by rewrite client_at_upd_ne by (done || lia). }
  assert (E : ext s s' [fd]).
  { split; [apply grows_refl|]. intros x d Hd. destruct (decide (x = fd)) as [->|Hx].
    - exists c'. split; [by eapply client_at_upd|]. split; [by left|]. split; intros Hin; set_solver.
    - exists d. split; [|done]. change (client_at (upd s fd c') x = Ret d). by rewrite client_at_upd_ne by (done || lia). }
  split; [|exact E]. destruct Hi as [L G C S F T M N D X V K]. apply Forall_cons in K as [_ K].
  change (finishing (Do (AddClient fd acts fl) :: todo)) with (finishing todo) in *. change (adding (Do (AddClient fd acts fl) :: todo)) with (fd :: adding todo) in *.
  assert (Hnf : fd ∉ finishing todo) by (apply NoDup_app in D as (_ & D & _); intros Hx; apply (D fd Hx); by left).
  split; [by (unfold s', upd; cbn [cdata set_cdata set_rfds set_wfds]; rewrite zlen_insert)|done| | | | |done| | | | |].
  - intros x d Hd. destruct (client_at_upd_inv s fd c c' x d Hc Hd) as [[-> ->]|[_ Hd']]; [done|by apply C].
  - intros x Hx. assert (Hx' : x ∈ rfds s ∪ wfds s \/ x = fd) by (apply elem_of_union in Hx as [[?|?]%Hr|[?|?]%Hwr]; set_solver).
    destruct Hx' as [[?|[?|?]]%S| ->]; [by left|right; left; apply Hlive; by left|by right; right|right; left; apply Hlive; by right].
  - intros [Hx|Hx]%Hwr; [done|]. by apply Hne.
  - cbn [cdata ntickers s' upd set_cdata set_rfds set_wfds]. rewrite (tickers_upd _ _ _ _ Hl), Htk. destruct (ticker c); lia.
  - intros x. change (world s') with (world s). rewrite N, Hlive, elem_of_cons. tauto.
  - rewrite NoDup_app in D. destruct D as (D1 & D2 & D3). apply NoDup_cons in D3 as [_ D3]. apply NoDup_app. split; [done|]. split; [|done].
    intros x Hx Hx'. apply (D2 x Hx). by right.
  - intros x Hx [Hlx| ->]%Hlive; [apply (X x); [by right|done]|]. rewrite NoDup_app in D. destruct D as (_ & _ & D3). by apply NoDup_cons in D3 as [D3 _].
  - destruct V as [V|V]; [by left|right]. intros [Hlx| E1]%Hlive; [|by apply Hlast]. intros [Hx|Hx]%Hr; [by apply V|]. by apply Hne.
  - eapply tasks_ok_ext; [exact E| |by right|exact K]. intros x ->%list_elem_of_singleton. done.
Qed.

Lemma add_client_step s todo fd acts fl : inv s (Do (AddClient fd acts fl) :: todo) -> Forall quiet todo ->
  0 <= fd < nfds svc -> fd <> cmdfd svc -> may_acts acts fd (app s) ->
  exists s', eds_service_add_client svc s fd acts fl = Ret (s', []) /\ inv s' todo /\ ext s s' [fd] /\ touched s' fd.
Proof.
  intros Hi Hq Hfd Hne (A1 & A2 & A3 & A4). unfold eds_service_add_client.
  assert (Hw0 : same_world s (world s)) by (split; [apply (i_good _ _ Hi)|by split]).
  set (s0 := if flag_set fl EDS_ACLI_NOSET_NOBLOCK then s else _). cbv zeta.
  assert (H0 : same_world s (world s0) /\ s0 = set_world s (world s0)).
  { unfold s0. destruct (flag_set fl EDS_ACLI_NOSET_NOBLOCK); (split; [|by destruct s]); [done|]. by apply set_bit_world. }
  set (s1 := if flag_set fl EDS_ACLI_NOSET_CLOEXEC then s0 else _).
  assert (H1 : same_world s (world s1) /\ s1 = set_world s (world s1)).
  { unfold s1. destruct H0 as [H0 ->]. destruct (flag_set fl EDS_ACLI_NOSET_CLOEXEC); (split; [|by destruct s]); [done|]. by apply set_bit_world. }
  destruct H1 as [Hw Es]. clearbody s1. clear H0. clearbody s0. pose proof (inv_same_world _ _ _ Hi Hw) as Hi1. rewrite <- Es in Hi1.
  assert (E0 : app s1 = app s /\ cdata s1 = cdata s) by (by rewrite Es). clear Es Hw. destruct E0 as [Ea0 Ed0].
  set (s2 := if maxfd s1 <? fd then _ else _).
  assert (Hs1 : inv s2 (Do (AddClient fd acts fl) :: todo)) by (unfold s2; destruct (_ <? _); [apply inv_maxfd; [done|lia]|done]).
  assert (E1 : app s2 = app s /\ cdata s2 = cdata s) by (unfold s2; by destruct (_ <? _)). clearbody s2. clear Hi1 Ea0 Ed0 s1. rename s2 into s1. destruct E1 as [Ea Ed].
  destruct (rd_in (cdata s1) fd) as (c & Hc & _); [rewrite (i_len _ _ Hs1); lia|]. change (client_at s1 fd = Ret c) in Hc. rewrite Hc. cbn [mbind outcome_mbind].
  set (c' := Client _ _ _ _ _ _ _ _ _). rewrite (put_upd s1 fd c c' Hc). cbn [mbind outcome_mbind].
  assert (Hci : client_inv (app s1) fd c').
  { rewrite Ea. split; cbn [on_readable on_writable on_done on_finalize ticker trans wrdata wrdatalen c']; try done.
    - intros h Eh. destruct (a_writable acts) as [h'|] eqn:E2; [|done]. injection Eh as ->. by apply A2.
    - intros _. by left.
    - split; [done|]. split; [done|]. by destruct (a_writable acts). }
  pose proof (k_nfds KL) as [Hn _].
  set (u := upd s1 fd c'). set (s3 := match a_readable acts with Some _ => _ | None => _ end). set (s4 := match a_writable acts with Some _ => _ | None => _ end).
  set (s5 := if u32 (nfds svc - 1) <=? fd then _ else _).
  assert (Hres : s5 = set_wfds (set_rfds u (rfds s5)) (wfds s5) /\ (forall x, x ∈ rfds s5 -> x ∈ rfds s1 \/ x = fd) /\
    (forall x, x ∈ wfds s5 -> x ∈ wfds s1 \/ x = fd) /\ (fd = nfds svc - 1 -> cmdfd svc ∉ rfds s5)).
  { unfold s5, s4, s3. rewrite uw_small by lia. split; [by destruct (a_readable acts), (a_writable acts), (nfds svc - 1 <=? fd)|].
    split; [|split; [|intros ->; rewrite Z.leb_refl; cbn; set_solver]];
      destruct (a_readable acts), (a_writable acts), (nfds svc - 1 <=? fd); cbn; set_solver. }
  clearbody s5. clear s4 s3. destruct Hres as (-> & H1 & H2 & H3). eexists. split; [reflexivity|].
  destruct (inv_added s1 todo fd acts fl c c' (rfds s5) (wfds s5) Hs1 Hq Hc Hci) as [Hi2 [Eg Ec]]; try done.
  split; [exact Hi2|]. split; [|exists c'; split; [exact (client_at_upd s1 fd c c' Hc)|by left]]. split; [by rewrite Ea in Eg|].
  intros x d Hd. apply Ec. unfold client_at in *. by rewrite Ed.
Qed.

Lemma inv_svc_flags s todo x : inv s todo -> inv (set_svc_flags s x) todo.
Proof. intros Hi. by destruct Hi; split. Qed.

Lemma do_cmd_step s todo c fd : inv s (Do c :: todo) -> Forall quiet todo -> cmd_ok fd (app s) c -> (touched s fd \/ free_cmd c) -> stepped s todo (do_cmd svc s c).
Proof.
  intros Hi Hq Hc Ht. assert (Hi' : plain [Do c] -> inv s todo) by (by apply inv_tail).
  destruct c as [fd' h fl|fd' h fl|fd'|fd'|fd' p n next|fd' acts fl|fd' h|fd'|fd'|]; cbn [do_cmd cmd_ok] in *;
    try (specialize (Hi' ltac:(by split)); destruct Ht as [Ht|Ht]; [|by destruct Ht]); try done.
  - destruct Hc as [-> Hm]. by apply set_on_readable_step.
  - destruct Hc as [-> Hm]. apply set_on_writable_step; [done|done| |by destruct h]. destruct h as [h|]; [|done]. intros h' [= <-]. by apply Hm.
  - subst. by apply suspend_readable_step.
  - subst. by apply clear_actions_step.
  - destruct Hc as (-> & ? & ? & ?). by apply send_step.
  - destruct Hc as (Hr & Hne & Hm). destruct (add_client_step s todo fd' acts fl Hi Hq Hr Hne Hm) as (s' & -> & Hi2 & E & _). by apply (stepped_ret _ _ _ [] [fd']).
  - destruct Hc as [-> Hm]. by apply set_ticker_step.
  - subst. by apply remove_client_step.
  - apply (stepped_ret _ _ _ [] []); [|apply (extends_refl s [])]. apply inv_svc_flags, Hi'. by split.
Qed.

Lemma do_task_step s t todo : inv s (t :: todo) -> Forall quiet todo -> stepped s todo (do_task svc body load s t).
Proof.
  intros Hi Hq. pose proof (i_tasks _ _ Hi) as Hk. apply Forall_cons in Hk as [Ht _].
  assert (Hi' : plain [t] -> inv s todo) by (by apply inv_tail).
  destruct t as [c|[|h] fd|fd|fd|fd|h fd|fd]; cbn [do_task]; try (specialize (Hi' ltac:(by split))).
  - destruct Ht as (fd & Hc & Hfd). by eapply do_cmd_step.
  - by apply on_send_step.
  - destruct Ht. by apply call_app_step.
  - by apply write_some_step.
  - by apply completed_step.
  - by apply completed_write_step.
  - destruct Ht as [Ht Hm]. apply call_app_step; auto.
  - by apply finish_remove_step.
Qed.

(** a task leaves at most one thing to do first that uses what is to be written *)
Lemma do_task_quiet s t s' more : do_task svc body load s t = Ret (s', more) -> Forall quiet (tail more).
Proof.
  intros E. destruct t as [[fd h fl|fd h fl|fd|fd|fd p n next|fd acts fl|fd h|fd|fd|]|[|h] fd|fd|fd|fd|h fd|fd]; cbn [do_task do_cmd] in E;
    unfold eds_client_set_on_readable, eds_client_set_on_writable, eds_client_suspend_readable, eds_client_clear_actions, eds_client_send, eds_client_set_on_writable, eds_service_add_client,
      eds_client_set_ticker, eds_client_set_externalfd, eds_service_remove_client, on_eds_client_send, write_some, completed, completed_write, finish_remove, call_app in E;
    cbv zeta in E; repeat first [progress simplify_eq/= | done | case_match | match type of E with (?x ≫= _) = _ => destruct x; cbn [mbind outcome_mbind] in E end].
  all: try (repeat constructor; done).
  all: match goal with |- Forall quiet (tail (map Do ?l)) => destruct l as [|c l]; [constructor|]; cbn [map tail]; apply Forall_fmap, Forall_true; done end.
Qed.

Lemma run_inv fuel : forall s todo, inv s todo -> Forall quiet (tail todo) ->
  run svc body load fuel s todo = OutOfFuel \/ exists s' fin, run svc body load fuel s todo = Ret s' /\ inv s' [] /\ ext s s' fin.
Proof.
  induction fuel as [|fuel IH]; intros s todo Hi Hq; [by left|]. destruct todo as [|t todo]; [right; exists s, []; split; [done|]; split; [done|apply extends_refl]|].
  cbn [run tail] in *. destruct (do_task_step s t todo Hi Hq) as [->|(s1 & more & f1 & Es & Hi1 & E1)]; [by left|]. rewrite Es. cbn [mbind outcome_mbind].
  assert (Hq1 : Forall quiet (tail (more ++ todo))).
  { pose proof (do_task_quiet s t s1 more Es) as Hm. destruct more as [|m more]; cbn [app tail] in *; [by destruct Hq|by apply Forall_app]. }
  destruct (IH s1 (more ++ todo) Hi1 Hq1) as [->|(s2 & f2 & -> & Hi2 & E2)]; [by left|]. right. exists s2, (f1 ++ f2). split; [done|]. split; [done|]. by eapply extends_trans.
Qed.

(** *** The loops *)

Definition keeps_touched (s s' : state) : Prop := forall fd, touched s fd -> touched s' fd.

Lemma keeps_refl s : keeps_touched s s.
Proof. by intros fd. Qed.
#[local] Hint Resolve keeps_refl : core.

Definition served (s : state) (r : outcome state) : Prop := r = OutOfFuel \/ exists s', r = Ret s' /\ inv s' [] /\ keeps_touched s s'.

Lemma served_refl s : inv s [] -> served s (Ret s).
Proof. intros Hi. right. by exists s. Qed.

Lemma served_bind s (r : outcome state) (f : state -> outcome state) : served s r -> (forall s', inv s' [] -> keeps_touched s s' -> served s' (f s')) -> served s (r ≫= f).
Proof.
  intros [->|(s1 & -> & Hi & Hk)] Hf; [by left|]. cbn [mbind outcome_mbind]. destruct (Hf s1 Hi Hk) as [->|(s2 & -> & Hi2 & Hk2)]; [by left|].
  right. exists s2. split; [done|]. split; [done|]. intros fd Ht. auto.
Qed.

Lemma served_bind' {B} s (r : outcome state) (f : state -> outcome B) (Q : outcome B -> Prop) : served s r -> Q OutOfFuel ->
  (forall s', inv s' [] -> keeps_touched s s' -> Q (f s')) -> Q (r ≫= f).
Proof. intros [->|(s1 & -> & Hi & Hk)] Ho Hf; [done|]. by apply Hf. Qed.

Lemma run_served fuel s t : inv s [] -> task_ok s t -> plain [t] -> served s (run svc body load fuel s [t]).
Proof.
  intros Hi Ht Hp. destruct (run_inv fuel s [t]) as [->|(s' & fin & -> & Hi' & E)]; [| |by left|].
  - apply (inv_push s [t] [] Hi); [by apply Forall_singleton|done].
  - constructor.
  - right. exists s'. split; [done|]. split; [done|]. intros fd. by eapply ext_touched.
Qed.

Lemma remove_done_served fuel s fd : inv s [] -> touched s fd -> served s (remove_done svc body load fuel s fd).
Proof.
  intros Hi Ht. pose proof Ht as (c & Hc & _). unfold remove_done. rewrite Hc. cbn [mbind outcome_mbind]. destruct (is_done c); [|by apply served_refl].
  apply run_served; [done| |by split]. exists fd. split; [done|by left].
Qed.

Lemma serve_fd_served fuel r w s fd : inv s [] -> touched s fd -> served s (serve_fd svc body load fuel r w s fd).
Proof.
  intros Hi Ht. pose proof Ht as (c & Hc & _). unfold serve_fd. rewrite Hc. cbn [mbind outcome_mbind].
  destruct (is_removed c); [by apply served_refl|]. apply served_bind.
  - destruct (on_readable c) as [h|] eqn:Eh; [|by apply served_refl]. destruct (bool_decide _); [|by apply served_refl].
    apply run_served; [done| |by split]. split; [by left|]. by apply (ci_readable _ _ _ (i_clients _ _ Hi fd c Hc)).
  - intros s1 Hi1 Hk1. pose proof (Hk1 fd Ht) as Ht1. pose proof Ht1 as (c1 & Hc1 & Hu1). rewrite Hc1. cbn [mbind outcome_mbind].
    destruct (is_removed c1) eqn:Hr; [by apply served_refl|]. apply served_bind.
    + destruct (on_writable c1) as [h|] eqn:Eh; [|by apply served_refl]. destruct (bool_decide _); [|by apply served_refl].
      pose proof (i_clients _ _ Hi1 fd c1 Hc1) as Hci. apply run_served; [done| |by split]. destruct h as [|h].
      * exists c1. split; [exact Hc1|]. split; [by destruct Hu1; [left|]|]. intros Ew. pose proof (ci_wrdata _ _ _ Hci) as [_ Hw]. rewrite Ew in Hw. by destruct Hw.
      * split; [by left|]. by apply (ci_writable _ _ _ Hci).
    + intros s2 Hi2 Hk2. apply remove_done_served; [done|]. by apply Hk2.
Qed.

Definition served_n (s : state) (r : outcome (state * Z)) : Prop := r = OutOfFuel \/ exists s' n, r = Ret (s', n) /\ inv s' [] /\ keeps_touched s s'.

Lemma word_loop_served fuel r w n : forall s num fd, inv s [] -> (forall x, x ∈ r ∪ w -> touched s x) -> served_n s (word_loop svc body load n fuel r w s num fd).
Proof.
  induction n as [|n IH]; intros s num fd Hi Ht; cbn [word_loop]; [right; by exists s, num|]. destruct (0 <? num); [|right; by exists s, num].
  destruct (bool_decide (fd ∈ r) || bool_decide (fd ∈ w)) eqn:E; [|by apply IH].
  assert (Hfd : touched s fd) by (apply Ht; apply orb_true_iff in E as [E%bool_decide_eq_true|E%bool_decide_eq_true]; set_solver).
  destruct (serve_fd_served fuel r w s fd Hi Hfd) as [->|(s1 & -> & Hi1 & Hk1)]; [by left|]. cbn [mbind outcome_mbind].
  destruct (IH s1 (num - 1) (fd + 1) Hi1) as [->|(s2 & k & -> & Hi2 & Hk2)]; [intros x Hx; auto|by left|].
  right. exists s2, k. split; [done|]. split; [done|]. intros x Hx. auto.
Qed.

Lemma words_loop_served fuel r w n : forall s num i, inv s [] -> (forall x, x ∈ r ∪ w -> touched s x) -> served s (words_loop svc body load n fuel r w s num i).
Proof.
  induction n as [|n IH]; intros s num i Hi Ht; cbn [words_loop]; [by apply served_refl|]. destruct (0 <? num); [|by apply served_refl].
  destruct (word_empty r i && word_empty w i); [by apply IH|].
  destruct (word_loop_served fuel r w 64 s num (64 * i) Hi Ht) as [->|(s1 & k & -> & Hi1 & Hk1)]; [by left|]. cbn [mbind outcome_mbind].
  destruct (IH s1 k (i + 1) Hi1) as [->|(s2 & -> & Hi2 & Hk2)]; [intros x Hx; auto|by left|]. right. exists s2. split; [done|]. split; [done|]. intros x Hx. auto.
Qed.

Lemma client_in s i : inv s [] -> 0 <= i < nfds svc -> exists c, client_at s i = Ret c.
Proof. intros Hi Hr. destruct (rd_in (cdata s) i) as (c & Hc & _); [rewrite (i_len _ _ Hi); done|]. by exists c. Qed.

Lemma tickers_loop_served fuel n : forall s left i, inv s [] -> 0 <= i -> served s (tickers_loop svc body load n fuel s left i).
Proof.
  induction n as [|n IH]; intros s left i Hi H0; cbn [tickers_loop]; [by apply served_refl|].
  destruct ((0 <? left) && (i <? nfds svc)) eqn:E; [|by apply served_refl]. apply andb_prop in E as [_ E]. zbool.
  destruct (client_in s i Hi ltac:(lia)) as (c & Hc). rewrite Hc. cbn [mbind outcome_mbind]. destruct (ticker c) as [h|] eqn:Et; [|by apply IH; [done|lia]].
  pose proof (i_clients _ _ Hi i c Hc) as Hci. assert (Ht : touched s i) by (exists c; split; [done|]; apply (ci_fresh _ _ _ Hci); left; by rewrite Et).
  apply served_bind; [apply run_served; [done|split; [by left|by apply (ci_ticker _ _ _ Hci)]|by split]|]. intros s1 Hi1 Hk1.
  apply served_bind; [apply remove_done_served; [done|by apply Hk1]|]. intros s2 Hi2 Hk2. apply IH; [done|lia].
Qed.

Lemma reaped_loop_served fuel h n : forall s i, inv s [] -> 0 <= i -> (forall a fd, may h fd a) -> served s (reaped_loop svc body load n fuel s h i).
Proof.
  induction n as [|n IH]; intros s i Hi H0 Hm; cbn [reaped_loop]; [by left|]. destruct (Z.ltb_spec i (maxfd s)); [|by apply served_refl].
  pose proof (i_maxfd _ _ Hi). destruct (client_in s i Hi ltac:(lia)) as (c & Hc). rewrite Hc. cbn [mbind outcome_mbind]. apply served_bind.
  - destruct (flag_set (flags c) EDS_CLIENT_IN_USE) eqn:Hu; [|by apply served_refl]. apply run_served; [done| |by split]. split; [|by apply Hm]. left. exists c. auto.
  - intros s1 Hi1 _. apply IH; [done|lia|done].
Qed.

Lemma reap_served fuel : forall s, inv s [] -> served s (reap_listener_children svc body load fuel s).
Proof.
  induction fuel as [|fuel IH]; intros s Hi; cbn [reap_listener_children]; [by left|].
  pose proof (k_waitpid KL (world s)) as Hw. pose proof (h_waitpid HL (world s)) as Hrm. pose proof (a_kernel AL _ _ (i_good _ _ Hi)) as (_ & _ & _ & _ & _ & Hg).
  destruct (waitpid (world s)) as [w r]. cbn [fst] in *. assert (Hi' : inv (set_world s w) []) by (by apply inv_same_world).
  destruct (a_service AL (app s)) as (_ & Hsvc & _).
  assert (Hcli : forall f pid st a fd, on_cli_reaped_child svc = Some f -> may (f pid st) fd a) by (intros f pid st a fd; apply (a_service AL a)).
  change (served (set_world s w) match r with
    | inl (pid, status) => if 0 <? pid then
        s0 ← match on_svc_reaped_child svc with Some h => run svc body load fuel (set_world s w) [Call (App (h pid status)) (-1)] | None => Ret (set_world s w) end;
        s0 ← match on_cli_reaped_child svc with Some h => reaped_loop svc body load fuel fuel s0 (h pid status) 0 | None => Ret s0 end;
        reap_listener_children svc body load fuel s0
      else Ret (set_world s w)
    | inr e => if e =? EINTR then reap_listener_children svc body load fuel (set_world s w) else Ret (set_world s w) end).
  destruct r as [[pid st]|e]; [|destruct (e =? EINTR); [by apply IH|by apply served_refl]].
  destruct (0 <? pid); [|by apply served_refl]. apply served_bind.
  - destruct (on_svc_reaped_child svc) as [f|] eqn:E; [|by apply served_refl]. apply run_served; [done| |by split]. split; [by right|]. by apply Hsvc.
  - intros s1 Hi1 _. apply served_bind; [|intros s2 Hi2 _; by apply IH].
    destruct (on_cli_reaped_child svc) as [f|] eqn:E; [|by apply served_refl]. apply reaped_loop_served; [done|lia|]. intros a fd. by apply Hcli.
Qed.

Definition served_ticks (s : state) (r : outcome (state * (Z * Z))) : Prop := r = OutOfFuel \/ exists s' last, r = Ret (s', last) /\ inv s' [] /\ keeps_touched s s'.

Lemma serve_ticks_served fuel s last : inv s [] -> served_ticks s (serve_ticks svc body load fuel s last).
Proof.
  intros Hi. unfold serve_ticks. destruct (_ || _); [|right; by exists s, last].
  pose proof (k_clock KL (world s)) as Hw. pose proof (h_clock HL (world s)) as Hrm. pose proof (a_kernel AL _ _ (i_good _ _ Hi)) as (_ & _ & _ & _ & Hg & _).
  destruct (clock_gettime (world s)) as [w now]. cbn [fst] in *. assert (Hi' : inv (set_world s w) []) by (by apply inv_same_world).
  destruct (tick_slice_us svc <=? timespec_delta_us last now); [|right; exists (set_world s w), last; split; [done|]; split; [done|]; by intros x Hx].
  destruct (tickers_loop_served fuel (Z.to_nat (nfds svc)) (set_world s w) (ntickers (set_world s w)) 0 Hi' ltac:(lia)) as [E|(s1 & E & Hi1 & Hk1)];
    unfold run_tickers; rewrite E; cbn [mbind outcome_mbind]; [by left|].
  assert (Ht : served s1 match on_svc_tick svc with Some h => run svc body load fuel s1 [Call (App h) (-1)] | None => Ret s1 end).
  { destruct (on_svc_tick svc) as [h|] eqn:Eh; [|by apply served_refl]. apply run_served; [done| |by split]. split; [by right|]. by apply (a_service AL (app s1)). }
  destruct Ht as [->|(s2 & -> & Hi2 & Hk2)]; [by left|]. right. exists s2, now. split; [done|]. split; [done|]. intros x Hx. apply Hk2, Hk1. exact Hx.
Qed.

Lemma ready_in (r wr : gset Z) cmd x : x ∈ (r ∖ {[cmd]}) ∪ wr -> x ∈ r ∪ wr /\ (x <> cmd \/ x ∈ wr).
Proof. rewrite !elem_of_union, elem_of_difference, elem_of_singleton. tauto. Qed.

Lemma ready_in_new (r wr : gset Z) fd cmd x : x ∈ ((r ∪ {[fd]}) ∖ {[cmd]}) ∪ wr -> x <> fd -> x ∈ r ∪ wr /\ (x <> cmd \/ x ∈ wr).
Proof. rewrite !elem_of_union, elem_of_difference, elem_of_union, !elem_of_singleton. tauto. Qed.

(** a descriptor that was accepted finds its place *)
Lemma accepted_step s w fd : inv s [] -> accept (world s) (cmdfd svc) = (w, inl fd) -> fd < nfds svc ->
  exists s', eds_service_add_client svc (set_world s w) fd (actions svc) (Z.lor EDS_ACLI_NOSET_NOBLOCK EDS_ACLI_NOSET_CLOEXEC) = Ret (s', []) /\
    inv s' [] /\ touched s' fd /\ keeps_touched s s'.
Proof.
  intros Hi Ha Hlt. pose proof (k_accept KL (world s)) as Hk. rewrite Ha in Hk. destruct Hk as (Hnew & Hfd & Hne & Hconns).
  pose proof (a_kernel AL _ _ (i_good _ _ Hi)) as (Hg & _). pose proof (h_accept HL (world s) (cmdfd svc)) as Hr. rewrite Ha in Hg, Hr. cbn [fst] in Hg, Hr.
  set (fl := Z.lor _ _). pose proof (inv_calls s [] (app s) w [AddClient fd (actions svc) fl] Hi Hg (grows_refl _)) as Hi1. cbn [map app adds omap list_omap] in Hi1.
  destruct (add_client_step (set_world s w) [] fd (actions svc) fl) as (s' & E & Hi' & Hx & Ht); [|constructor|done|done|apply (a_actions AL)|].
  - apply Hi1; [rewrite Hconns; cbn; set_solver|apply NoDup_singleton|by intros x ->%list_elem_of_singleton|done|].
    apply Forall_singleton. exists fd. split; [split; [done|]; split; [done|apply (a_actions AL)]|by right].
  - exists s'. split; [done|]. split; [done|]. split; [done|]. intros x Hx1. by eapply ext_touched.
Qed.

(** there is no place behind the table *)
Lemma add_client_beyond s fd acts fl : zlen (cdata s) = nfds svc -> nfds svc <= fd -> eds_service_add_client svc s fd acts fl = OutOfBounds.
Proof.
  intros Hl Hfd. unfold eds_service_add_client. cbv zeta. set (s1 := if _ <? fd then _ else _).
  assert (Ed : cdata s1 = cdata s) by (unfold s1; destruct (flag_set fl EDS_ACLI_NOSET_NOBLOCK), (flag_set fl EDS_ACLI_NOSET_CLOEXEC); by destruct (_ <? _)). clearbody s1.
  pose proof (k_nfds KL) as [? _]. unfold client_at, rd. rewrite Ed, (proj2 (Z.ltb_ge _ _)), lookup_ge_None_2; [done| |lia]. unfold zlen in Hl. lia.
Qed.

(** a turn that accepts a descriptor the table has no place for: a client was
    removed before, or the last place of the table is free *)
Definition overrun (fuel : nat) (s : state) (sigchld : bool) : Prop := exists a w fd,
  accepting svc body load fuel s sigchld = Ret (Some (w, fd)) /\ nfds svc <= fd /\ good a w /\ (removed w \/ nfds svc - 1 ∉ conns w) /\ (accept w (cmdfd svc)).2 = inl fd.

Lemma turn_inv fuel s last sigchld : inv s [] ->
  (turn svc body load fuel s last sigchld = OutOfBounds /\ overrun fuel s sigchld) \/
  ((forall w fd, accepting svc body load fuel s sigchld = Ret (Some (w, fd)) -> fd < nfds svc) /\
   (turn svc body load fuel s last sigchld = OutOfFuel \/
    exists s' last' e, turn svc body load fuel s last sigchld = Ret (s', last', e) /\ inv s' [])).
Proof.
  intros Hi. unfold overrun, turn, accepting. destruct (flag_set (svc_flags s) EDS_SERVICE_STOPPED); [right; split; [done|]; right; by exists s, last, (Ended 0)|].
  assert (Hreap : served s (if sigchld then reap_listener_children svc body load fuel s else Ret s)) by (destruct sigchld; [by apply reap_served|by apply served_refl]).
  destruct Hreap as [->|(s1 & -> & Hi1 & _)]; [right; split; [done|by left]|]. cbn [mbind outcome_mbind].
  destruct (k_select KL (world s1) (rfds s1) (wfds s1)) as [Hw Hsub]. pose proof (h_select HL (world s1) (rfds s1) (wfds s1)) as Hrm.
  pose proof (a_kernel AL _ _ (i_good _ _ Hi1)) as (_ & _ & _ & Hg & _). specialize (Hg (rfds s1) (wfds s1)).
  destruct (select (world s1) (rfds s1) (wfds s1)) as [w [[r wr]|e]]; cbn [fst snd] in *.
  2: { right. split; [done|]. right. exists (set_world s1 w), last. eexists. split; [done|]. by apply inv_same_world. }
  destruct Hsub as [Hr Hwr]. assert (Hi2 : inv (set_world s1 w) []) by (by apply inv_same_world). change (accept (world (set_world s1 w)) (cmdfd svc)) with (accept w (cmdfd svc)).
  assert (Ew : world (set_world s1 w) = w) by done. assert (Er : rfds (set_world s1 w) = rfds s1) by done. assert (Ewr : wfds (set_world s1 w) = wfds s1) by done.
  generalize dependent (set_world s1 w). intros s2 Hi2 Ew Er Ewr.
  assert (Hin : forall x, x ∈ r ∪ wr -> x <> cmdfd svc \/ x ∈ wr -> touched s2 x).
  { intros x Hx Hc. assert (Hx' : x ∈ rfds s2 ∪ wfds s2) by (rewrite Er, Ewr; apply elem_of_union in Hx as [?|?]; apply elem_of_union; [left; by apply Hr|right; by apply Hwr]).
    destruct (i_sets _ _ Hi2 x Hx') as [->|[Hl|Hf]]; [|by apply live_touched|by apply not_elem_of_nil in Hf].
    destruct Hc as [?|Hc]; [done|]. exfalso. apply (i_cmdfd _ _ Hi2). rewrite Ewr. by apply Hwr. }
  assert (Hserve : forall s0 r0 n, inv s0 [] -> (forall x, x ∈ r0 ∪ wr -> touched s0 x) ->
    (s ← words_loop svc body load 16 fuel r0 wr s0 n 0; '(s, last) ← serve_ticks svc body load fuel s last; Ret (s, last, Again)) = OutOfFuel \/
    exists s' last' e, (s ← words_loop svc body load 16 fuel r0 wr s0 n 0; '(s, last) ← serve_ticks svc body load fuel s last; Ret (s, last, Again)) = Ret (s', last', e) /\ inv s' []).
  { intros s0 r0 n Hi0 Ht. destruct (words_loop_served fuel r0 wr 16 s0 n 0 Hi0 Ht) as [->|(s3 & -> & Hi3 & _)]; [by left|]. cbn [mbind outcome_mbind].
    destruct (serve_ticks_served fuel s3 last Hi3) as [->|(s4 & l4 & -> & Hi4 & _)]; [by left|]. right. by exists s4, l4, Again. }
  destruct (bool_decide (cmdfd svc ∈ r)) eqn:Eb.
  2: { right. split; [done|]. apply Hserve; [done|]. intros x Hx. apply Hin; [done|]. destruct (decide (x = cmdfd svc)) as [->|]; [right|by left]. apply bool_decide_eq_false in Eb. by apply elem_of_union in Hx as [?|?]. }
  apply bool_decide_eq_true in Eb. pose proof (a_kernel AL _ _ (i_good _ _ Hi2)) as (Hg2 & _). pose proof (k_accept KL (world s2)) as Hk. pose proof (h_accept HL (world s2) (cmdfd svc)) as Hrm2.
  rewrite Ew in Hg2, Hk, Hrm2. destruct (accept w (cmdfd svc)) as [w2 [fd|e]] eqn:Ea; cbn [fst snd] in *.
  2: { right. split; [done|]. right. exists (set_world s2 w2), last. eexists. split; [done|]. apply inv_same_world; [done|]. split; [done|]. rewrite Ew. by split. }
  destruct (Z.lt_ge_cases fd (nfds svc)) as [Hlt|Hge].
  - right. split; [by intros ? ? [= <- <-]|]. destruct (accepted_step s2 w2 fd Hi2) as (s3 & -> & Hi3 & Ht3 & Hk3); [by rewrite Ew|done|]. cbn [mbind outcome_mbind].
    destruct ((1 <? _) && _); apply Hserve; try done; intros x Hx.
    + destruct (decide (x = fd)) as [->|Hne]; [done|]. destruct (ready_in_new r wr fd _ x Hx Hne). by apply Hk3, Hin.
    + destruct (ready_in r wr _ x Hx). by apply Hk3, Hin.
  - left. assert (Hb : eds_service_add_client svc (set_world s2 w2) fd (actions svc) (Z.lor EDS_ACLI_NOSET_NOBLOCK EDS_ACLI_NOSET_CLOEXEC) = OutOfBounds).
    { apply add_client_beyond; [apply (i_len _ _ Hi2)|done]. }
    rewrite Hb. split; [done|]. exists (app s2), w, fd. split; [done|]. split; [done|]. split; [rewrite <- Ew; apply (i_good _ _ Hi2)|]. split; [|by rewrite Ea].
    pose proof (i_guard _ _ Hi2) as [V|V]; [left; by rewrite <- Ew|right]. rewrite <- Ew. rewrite (i_conns _ _ Hi2). intros [Hl|[[]%not_elem_of_nil|[]%not_elem_of_nil]].
    apply (V Hl). rewrite Er. by apply Hr.
Qed.

(** ** Reachable states *)

(** after [calloc] and [mod_init] *)
Definition initial (a : A) (w : W) : state :=
  State 0 0 (cmdfd svc) {[cmdfd svc]} ∅ (replicate (Z.to_nat (nfds svc)) no_client) a w.

(** the states at [select:] *)
Inductive reachable (a : A) (w : W) : state -> (Z * Z) -> Prop :=
  | reach_initial last : reachable a w (initial a w) last
  | reach_turn s last fuel sigchld s' last' : reachable a w s last -> turn svc body load fuel s last sigchld = Ret (s', last', Again) -> reachable a w s' last'.

Lemma initial_inv a w : good a w -> conns w = ∅ -> inv (initial a w) [].
Proof.
  intros Hg Hw. pose proof (k_nfds KL) as [? ?].
  assert (Hc : forall fd c, client_at (initial a w) fd = Ret c -> c = no_client).
  { intros fd c [_ Hc]%client_at_range. cbn in Hc. by apply lookup_replicate in Hc as [-> _]. }
  assert (Hl : forall fd, ~ live (initial a w) fd) by (intros fd (c & ->%Hc & Hu); done).
  split; cbn [cdata app world rfds wfds ntickers maxfd initial]; try done; try lia.
  - rewrite zlen_replicate. lia.
  - intros fd c ->%Hc. split; cbn; try done; try (by intros h [=]). by intros [?|?].
  - intros fd [->%elem_of_singleton|?]%elem_of_union; [by left|set_solver].
  - clear. induction (Z.to_nat (nfds svc)) as [|n IH]; [done|]. cbn [replicate]. rewrite tickers_cons. cbn. done.
  - intros fd. rewrite Hw. split; [set_solver|]. by intros [Hx|[[]%not_elem_of_nil|[]%not_elem_of_nil]]; destruct (Hl fd).
  - constructor.
  - right. intros Hx. by destruct (Hl _ Hx).
Qed.

(** a run that leaves the table does so in a turn from a reachable state *)
Definition overruns (a : A) (w : W) (fuel : nat) : Prop := exists s last sig, reachable a w s last /\ overrun fuel s sig.

Lemma turns_inv a w fuel sigs : forall s last, reachable a w s last -> inv s [] ->
  turns svc body load fuel s last sigs = OutOfFuel \/ (turns svc body load fuel s last sigs = OutOfBounds /\ overruns a w fuel) \/
  exists s' e, turns svc body load fuel s last sigs = Ret (s', e) /\ inv s' [].
Proof.
  induction sigs as [|sig sigs IH]; intros s last Hr Hi; cbn [turns]; [right; right; by exists s, Again|].
  destruct (turn_inv fuel s last sig Hi) as [[-> Ho]|[_ [->|(s1 & l1 & e & E & Hi1)]]]; [right; left|by left|].
  - split; [done|]. by exists s, last, sig.
  - rewrite E. cbn [mbind outcome_mbind]. destruct e; [|right; right; by eexists _, _]. apply IH; [by eapply reach_turn|done].
Qed.

Lemma cleanup_loop_inv fuel n : forall s i, inv s [] -> 0 <= i -> i + Z.of_nat n <= nfds svc ->
  cleanup_loop svc body load n fuel s i = OutOfFuel \/ exists s', cleanup_loop svc body load n fuel s i = Ret s' /\ inv s' [].
Proof.
  induction n as [|n IH]; intros s i Hi H0 Hn; cbn [cleanup_loop]; [right; by exists s|].
  assert (Hs : served s (if (bool_decide (i ∈ rfds s) || bool_decide (i ∈ wfds s)) && negb (i =? cmdfd svc) then run svc body load fuel s [Do (RemoveClient i)] else Ret s)).
  { destruct (_ && _) eqn:E; [|by apply served_refl]. apply andb_prop in E as [E Hne]. zbool. apply run_served; [done| |by split]. exists i. split; [done|]. left.
    assert (Hx : i ∈ rfds s ∪ wfds s) by (apply orb_prop in E as [E%bool_decide_eq_true|E%bool_decide_eq_true]; apply elem_of_union; auto).
    destruct (i_sets _ _ Hi i Hx) as [?|[?|[]%not_elem_of_nil]]; [done|by apply live_touched]. }
  destruct Hs as [->|(s1 & -> & Hi1 & _)]; [by left|]. cbn [mbind outcome_mbind]. destruct (client_in s1 i Hi1 ltac:(lia)) as (c & Hc). rewrite Hc. cbn [mbind outcome_mbind].
  pose proof (i_clients _ _ Hi1 i c Hc) as Hci.
  assert (Hs : served s1 match on_finalize c with Some h => run svc body load fuel s1 [Call (App h) i] | None => Ret s1 end).
  { destruct (on_finalize c) as [h|] eqn:E; [|by apply served_refl]. apply run_served; [done| |by split]. split.
    - left. exists c. split; [done|]. apply (ci_fresh _ _ _ Hci). right. by rewrite E.
    - by apply (ci_done _ _ _ Hci). }
  destruct Hs as [->|(s2 & -> & Hi2 & _)]; [by left|]. cbn [mbind outcome_mbind]. apply IH; [done|lia|lia].
Qed.

Lemma serve_inv alloc_ok mod_init fuel a w sigs : good a w -> conns w = ∅ -> (alloc_ok (nfds svc) = true) ->
  (forall a w, good a w -> good (mod_init a w).1.1 (mod_init a w).1.2 /\ conns (mod_init a w).1.2 = conns w) ->
  eds_serve_single_mainloop svc body load alloc_ok mod_init fuel a w sigs = OutOfFuel \/
  (eds_serve_single_mainloop svc body load alloc_ok mod_init fuel a w sigs = OutOfBounds /\
   overruns (mod_init a w).1.1 (clock_gettime (mod_init a w).1.2).1 fuel) \/
  exists s e, eds_serve_single_mainloop svc body load alloc_ok mod_init fuel a w sigs = Ret (s, e) /\ inv s [].
Proof.
  intros Hg Hw Ha Hm. unfold eds_serve_single_mainloop. rewrite Ha. destruct (Hm a w Hg) as [Hg1 Hw1]. destruct (mod_init a w) as [[a1 w1] ret]. cbn [fst snd negb] in *.
  rewrite Hw in Hw1. pose proof (k_nfds KL) as [? ?]. destruct (ret <? 0).
  - right; right. eexists _, _. split; [done|]. destruct (initial_inv a1 w1 Hg1 Hw1) as [L G C S F T M N D X V K].
    split; cbn [cdata app world ntickers maxfd rfds wfds initial] in *; try done; try lia.
    right. intros _ Hx. set_solver.
  - pose proof (a_kernel AL _ _ Hg1) as (_ & _ & _ & _ & Hg2 & _). pose proof (k_clock KL w1) as Hw2. destruct (clock_gettime w1) as [w2 last]. cbn [fst] in *.
    apply turns_inv; [apply reach_initial|]. apply initial_inv; [done|congruence].
Qed.

Lemma reachable_inv a w s last : good a w -> conns w = ∅ -> reachable a w s last -> inv s [].
Proof.
  intros Hg Hw. induction 1 as [|s last fuel sig s' last' _ IH E]; [by apply initial_inv|].
  destruct (turn_inv fuel s last sig IH) as [[E' _]|[_ [E'|(s2 & l2 & e2 & E' & Hi)]]]; rewrite E in E'; [done|done|]. by injection E' as -> _ _.
Qed.

(** A new descriptor is the lowest that is free; [others w] are those that are
    open and no client's.  None of them is the last the table has a place for. *)
Record descriptor_laws (others : W -> gset Z) : Prop := DescriptorLaws {
  d_lowest a w fd : good a w -> (accept w (cmdfd svc)).2 = inl fd -> forall d, 0 <= d < fd -> d ∈ conns w ∪ others w;
  d_others a w : good a w -> nfds svc - 1 ∉ others w;
}.

(** then the last place is free only after a removal *)
Lemma overrun_removed others fuel s sig : descriptor_laws others -> overrun fuel s sig ->
  exists w fd, accepting svc body load fuel s sig = Ret (Some (w, fd)) /\ nfds svc <= fd /\ removed w.
Proof.
  intros DL (a & w & fd & E & Hfd & Hg & Hr & Ha). exists w, fd. split; [done|]. split; [done|]. destruct Hr as [?|Hn]; [done|]. exfalso.
  pose proof (k_nfds KL) as [? _]. pose proof (d_lowest _ DL a w fd Hg Ha (nfds svc - 1) ltac:(lia)) as Hin. apply elem_of_union in Hin as [?|?]; [done|]. by apply (d_others _ DL a w Hg).
Qed.

End Invariant.

(** ** The scan of the descriptors *)

Section Scan.
Context (svc : eds_service) (body : H -> Z -> A -> W -> outcome (A * W * list cmd)) (load : A -> P -> Z -> Z -> outcome bytes).
Context (fuel : nat) (r w : gset Z).

Lemma word_loop_done n s num fd : num <= 0 -> word_loop svc body load n fuel r w s num fd = Ret (s, num).
Proof. intros Hn. destruct n; [done|]. cbn [word_loop]. by rewrite (proj2 (Z.ltb_ge _ _)). Qed.

Lemma word_loop_app n m : forall s num fd, word_loop svc body load (n + m) fuel r w s num fd =
  '(s, num) ← word_loop svc body load n fuel r w s num fd; word_loop svc body load m fuel r w s num (fd + Z.of_nat n).
Proof.
  induction n as [|n IH]; intros s num fd; [by rewrite Z.add_0_r|]. cbn [word_loop Nat.add]. replace (fd + Z.of_nat (S n)) with (fd + 1 + Z.of_nat n) by lia.
  destruct (Z.ltb_spec 0 num) as [Hn|Hn]; [|cbn [mbind outcome_mbind]; by rewrite word_loop_done].
  destruct (bool_decide (fd ∈ r) || bool_decide (fd ∈ w)); [|apply IH].
  destruct (serve_fd svc body load fuel r w s fd) as [s'| |]; [|done|done]. cbn [mbind outcome_mbind]. apply IH.
Qed.

Lemma word_loop_empty n : forall s num fd, (forall x, fd <= x < fd + Z.of_nat n -> x ∉ r /\ x ∉ w) -> word_loop svc body load n fuel r w s num fd = Ret (s, num).
Proof.
  induction n as [|n IH]; intros s num fd Hx; [done|]. cbn [word_loop]. destruct (0 <? num); [|done]. destruct (Hx fd ltac:(lia)) as [Hr Hw].
  rewrite !bool_decide_eq_false_2 by done. apply IH. intros x Hx'. apply Hx. lia.
Qed.

Lemma word_empty_spec (q : gset Z) i : word_empty q i = true -> forall x, 64 * i <= x < 64 * i + 64 -> x ∉ q.
Proof.
  intros He x Hx. unfold word_empty in He. rewrite forallb_forall in He. specialize (He (x - 64 * i)).
  replace (64 * i + (x - 64 * i)) with x in He by lia. eapply bool_decide_eq_true, He, list_elem_of_In, elem_of_seqZ. lia.
Qed.
Lemma words_loop_one n : forall s num i,
  words_loop svc body load n fuel r w s num i = '(s, _) ← word_loop svc body load (64 * n)%nat fuel r w s num (64 * i); Ret s.
Proof.
  induction n as [|n IH]; intros s num i; [done|]. replace (64 * S n)%nat with (64 + 64 * n)%nat by lia. rewrite word_loop_app. cbn [words_loop].
  destruct (Z.ltb_spec 0 num) as [Hn|Hn]; [|rewrite word_loop_done by done; cbn [mbind outcome_mbind]; by rewrite word_loop_done].
  change (Z.of_nat 64) with 64. replace (64 * i + 64) with (64 * (i + 1)) by lia. destruct (word_empty r i && word_empty w i) eqn:E.
  - apply andb_prop in E as [Er Ew]. rewrite word_loop_empty; [cbn [mbind outcome_mbind]; apply IH|]. intros x Hx.
    split; [by apply (word_empty_spec _ i Er)|by apply (word_empty_spec _ i Ew)].
  - destruct (word_loop svc body load 64 fuel r w s num (64 * i)) as [[s' num']| |]; [|done|done]. cbn [mbind outcome_mbind]. apply IH.
Qed.
End Scan.
End Eds.

(** Looking at the words of the sets first is an optimisation: the loops of
    the event loop do what one loop over all descriptors does. *)
Theorem eds_scan_words {W : Type} {SW : Sys W} {A H P : Type} (svc : @eds_service H) body (load : A -> P -> Z -> Z -> outcome bytes) fuel r w (s : @state W A H P) num :
  words_loop svc body load 16 fuel r w s num 0 = '(s, _) ← word_loop svc body load (Z.to_nat FD_SETSIZE) fuel r w s num 0; Ret s.
Proof.
  change (Z.to_nat FD_SETSIZE) with (64 * 16)%nat. apply (words_loop_one svc body load fuel r w 16 s num 0).
Qed.

(** The time since the last tick is the difference of the clocks in whole
    microseconds. *)
Theorem timespec_delta_us_exact start end_ : 0 <= start.2 < 1000000000 -> 0 <= end_.2 < 1000000000 ->
  timespec_delta_us start end_ = (end_.1 * 1000000000 + end_.2 - (start.1 * 1000000000 + start.2)) / 1000.
Proof.
  intros Hs He. unfold timespec_delta_us. destruct (Z.ltb_spec end_.2 start.2); rewrite Z.quot_div_nonneg by lia; divmod_lia.
Qed.

Lemma timespec_delta_us_exact_witness : timespec_delta_us (3, 999999000) (5, 1000) = (5 * 1000000000 + 1000 - (3 * 1000000000 + 999999000)) / 1000.
Proof. apply (timespec_delta_us_exact (3, 999999000) (5, 1000)); cbn; lia. Defined.

(** ** What holds whenever the event loop waits *)



(** ** A kernel that hands out the lowest descriptor *)

(** the service is at 3, connections are between 4 and [limit]; [select] is
    told what to return; [hung_up] when something was closed *)
Record lowest : Type := Lowest_after { connected : gset Z; script : list (gset Z); hung_up : bool }.

Definition Lowest (c : gset Z) (qs : list (gset Z)) : lowest := Lowest_after c qs false.

Section LowestKernel.
Context (limit : Z).

Definition lowest_free (w : lowest) : option Z := head (filter (fun x => x ∉ connected w) (seqZ 4 (limit - 4))).

Definition lowest_sys : Sys lowest := {|
  read w fd n := (w, inl []);
  write w fd bs := (w, inl (zlen bs));
  writev w fd bss := (w, inl (zlen (concat bss)));
  poll_in w fd := (w, true);
  poll_out w fd := (w, true);
  close w fd := (Lowest_after (connected w ∖ {[fd]}) (script w) true, true);
  accept w fd := match lowest_free w with
    | Some fd => (Lowest_after (connected w ∪ {[fd]}) (script w) (hung_up w), inl fd)
    | None => (w, inr 24)
    end;
  socket w := (w, Some 3);
  connect w fd p := (w, true);
  bind w fd p := (w, true);
  listen w fd := (w, true);
  unlink w p := w;
  chmod w p m := w;
  sendmsg w fd m f := (w, inl ());
  recvmsg w fd := (w, inl (0, Some 4));
  fcntl w fd c a := (w, 0);
|}.

Definition lowest_eds : EdsSys lowest := {|
  select w r wr := match script w with q :: l => (Lowest_after (connected w) l (hung_up w), inl (q ∩ r, ∅)) | [] => (w, inr 9) end;
  clock_gettime w := (w, (0, 0));
  waitpid w := (w, inr 10);
|}.

(** a service that closes a connection when something is sent to it *)
Definition hangup (h : ()) (fd : Z) (a : ()) (w : lowest) : outcome (() * lowest * list (@cmd () ())) :=
  Ret (a, w, if fd =? -1 then [] else [RemoveClient fd]).

Definition hangup_service : @eds_service () :=
  Service (Some (lit "hangup")) (Some (lit "hangup.sock")) (Actions (Some ()) None None None) 1 6 0 None None None 3.

Definition no_data (a p : ()) (off n : Z) : outcome bytes := OutOfBounds.

Definition open_connections (w : lowest) : gset Z := connected w ∖ {[3]}.

Lemma head_filter (P : Z -> Prop) `{!forall x, Decision (P x)} l a fd : head (filter P (seqZ a l)) = Some fd ->
  P fd /\ a <= fd < a + l /\ forall d, a <= d < fd -> ~ P d.
Proof.
  destruct (Z.le_gt_cases l 0) as [Hl|Hl]; [by rewrite seqZ_nil|]. revert a. apply (natlike_ind (fun l => forall a, head (filter P (seqZ a l)) = Some fd -> P fd /\ a <= fd < a + l /\ forall d, a <= d < fd -> ~ P d)).
  - done.
  - clear l Hl. intros l Hl IH a. rewrite seqZ_cons, Z.pred_succ, filter_cons by lia. destruct (decide (P a)) as [Ha|Ha].
    + intros [= ->]. split; [done|]. split; [lia|]. lia.
    + intros Hh. destruct (IH _ Hh) as (H1 & H2 & H3). split; [done|]. split; [lia|]. intros d Hd. destruct (decide (d = a)) as [->|]; [done|]. apply H3. lia.
  - lia.
Qed.

Lemma lowest_free_spec w fd : lowest_free w = Some fd -> (fd ∉ connected w) /\ 4 <= fd < limit /\ forall d, 4 <= d < fd -> d ∈ connected w.
Proof.
  intros Hf. destruct (head_filter (fun x => x ∉ connected w) _ _ _ Hf) as (H1 & H2 & H3). split; [done|]. split; [lia|].
  intros d Hd. destruct (decide (d ∈ connected w)) as [?|Hn]; [done|]. by destruct (H3 d Hd).
Qed.

Lemma lowest_laws : @kernel_laws lowest lowest_sys lowest_eds () hangup_service open_connections.
Proof.
  split.
  - cbn. lia.
  - intros w. unfold open_connections. set_solver.
  - intros w. cbn. destruct (lowest_free w) as [fd|] eqn:E; [|done]. destruct (lowest_free_spec w fd E) as (Hn & Hr & _). unfold open_connections.
    split; [set_solver|]. split; [lia|]. split; [cbn; lia|]. cbn [connected]. assert (fd <> 3) by lia. set_solver.
  - intros w fd. unfold open_connections. cbn. set_solver.
  - intros w fd bs. cbn. split; [done|]. pose proof (zlen_nonneg bs). lia.
  - intros w r wr. cbn. destruct (script w); cbn; [done|]. unfold open_connections. split; [done|]. split; set_solver.
  - done.
  - done.
  - done.
Qed.

(** 0 to 3 are open *)
Definition standard_fds (w : lowest) : gset Z := {[0; 1; 2; 3]}.

Lemma lowest_descriptors : @descriptor_laws lowest lowest_sys () () hangup_service open_connections (fun _ _ => True) standard_fds.
Proof.
  split; [|by intros]. intros a w fd _ Ha d Hd. cbn in Ha. destruct (lowest_free w) as [fd'|] eqn:E; [|done]. injection Ha as ->.
  destruct (lowest_free_spec w fd E) as (_ & _ & Hl). unfold standard_fds, open_connections. destruct (Z.lt_ge_cases d 4) as [Hlt|Hge].
  - apply elem_of_union_r. assert (d = 0 \/ d = 1 \/ d = 2 \/ d = 3) by lia. set_solver.
  - apply elem_of_union_l, elem_of_difference. split; [apply Hl; lia|]. rewrite elem_of_singleton. lia.
Qed.

(** a client is only removed here to be closed *)
Lemma lowest_history : @history_laws lowest lowest_sys lowest_eds () () () hangup open_connections (fun w => hung_up w = true).
Proof.
  split; try done.
  - intros w fd Hw. cbn. by destruct (lowest_free w).
  - intros w r wr Hw. cbn. by destruct (script w).
  - intros h fd a w a' w' cmds [= _ <- _]. done.
Qed.

Lemma hangup_laws : @app_laws lowest lowest_sys lowest_eds () () () hangup_service hangup no_data open_connections (fun _ _ _ => True) (fun _ _ => True) (fun _ _ _ => False).
Proof.
  split; try done. intros h fd a w _ _. right. eexists _, _, _. split; [done|]. split; [done|]. split; [by split|].
  assert (Ea : adds (P := ()) (if fd =? -1 then [] else [RemoveClient (H := ()) fd]) = ([] : list Z)) by (by destruct (fd =? -1)). rewrite Ea. cbn [list_to_set].
  split; [set_solver|]. split; [constructor|]. split; [by intros x ?%not_elem_of_nil|].
  destruct (Z.eqb_spec fd (-1)); [constructor|]. by apply Forall_singleton.
Qed.
End LowestKernel.



(** C16: the service stops accepting when it gets the last descriptor of the
    table, but starts again when any client is removed.  With a kernel that
    hands out the lowest free descriptor and a table of 6, a third connection
    waits; but when one of two has been closed, two more are accepted and the
    last is stored behind the table. *)
Theorem eds_fd_guard_fails : let SW := lowest_sys 1024 in let EW := lowest_eds in
  let run qs := turns hangup_service hangup no_data 10 (initial hangup_service () (Lowest ∅ qs)) (0, 0) (replicate (length qs) false) in
  match run [{[3]}; {[3]}; {[3]}] with Ret (s, Again) => open_connections (world s) = {[4; 5]} | _ => False end /\
  run [{[3]}; {[3]}; {[4]}; {[3]}; {[3]}] = OutOfBounds.
Proof.
  intros SW EW run. split; [|by vm_compute]. destruct (run _) as [[s [|]]| |] eqn:E; try (vm_compute in E; discriminate E).
  vm_compute in E. injection E as <-. by apply (bool_decide_unpack _); vm_compute.
Qed.
