(* ===== verification/Supervise.v ===== *)
(** * The supervisor of services (src/lib/util/eds.c)

    Every service has [nprocs] processes.  The supervisor waits for them, starts
    those that end again, unless that happens too often, and stops all of them
    when it is told to or when it gives up.  What a child does after [fork] is
    [eds_serve_single_mainloop] of [Eds]; here is the side of the parent. *)

From stdpp Require Import gmap.
From S2P Require Import Prelude Buf Io Eds.

Definition MAX_SERVICE_RESTARTS_PER_SEC : Z := 5.
Definition SIGKILL : Z := 9.
Definition SIGTERM : Z := 15.

Inductive wstatus : Type := Exited (code : Z) | Signaled (sig : Z) | Stopped.

(** [wait] has the pid of a child; [shutdown_supervisor] is set by signals *)
Class Procs (W : Type) : Type := {
  fork : W -> W * option Z;
  kill : W -> Z -> Z -> W;
  wait : W -> W * (Z * wstatus + Z);
  time : W -> W * Z;
  shutdown_supervisor : W -> bool;
}.

Record eds_service_supervisor : Type := Supervisor {
  pids : option (list Z);
  last_restart : Z;
  nrestarts : Z;
}.

Definition set_pids (sup : eds_service_supervisor) (ps : option (list Z)) : eds_service_supervisor :=
  Supervisor ps (last_restart sup) (nrestarts sup).

Section Supervise.
Context {W H : Type} {SW : Sys W} {PW : Procs W}.

(** a service and its supervisor *)
Definition supervised : Type := (@eds_service H * eds_service_supervisor)%type.

(** in the parent *)
Definition fork_service_listener (w : W) (sup : eds_service_supervisor) (n : Z) : outcome (W * eds_service_supervisor * Z) :=
  match fork w with
  | (w, None) => Ret (w, sup, -1)
  | (w, Some pid) =>
      match pids sup with
      | None => OutOfBounds
      | Some ps => ps ← wr ps n pid; Ret (w, set_pids sup (Some ps), 0)
      end
  end.

(** a signal to each of the processes *)
Definition signal_all (sig : Z) (w : W) (ps : list Z) : W := foldl (fun w pid => kill w pid sig) w ps.

Definition stop_service_listeners (w : W) (svcs : list supervised) : W * list supervised :=
  let running sup := default [] (pids sup) in
  let w := foldl (fun w '(_, sup) => signal_all SIGTERM w (filter (fun pid => pid <> -1) (running sup))) w svcs in
  let w := foldl (fun w '(_, sup) => signal_all SIGKILL w (running sup)) w svcs in
  (w, map (fun '(svc, sup) => (svc, set_pids sup None)) svcs).

(** the processes from [i] on *)
Fixpoint start_loop (n : nat) (w : W) (sup : eds_service_supervisor) (i : Z) : outcome (W * eds_service_supervisor * Z) :=
  match n with
  | O => Ret (w, sup, 0)
  | S n =>
      '(w, sup, ret) ← fork_service_listener w sup i;
      if ret <? 0 then Ret (w, sup, -1) else start_loop n w sup (i + 1)
  end.

Definition start_service_listeners (alloc_ok : Z -> bool) (w : W) (svc : @eds_service H) (sup : eds_service_supervisor) : outcome (W * eds_service_supervisor * Z) :=
  if negb (alloc_ok (nprocs svc * 4)) then Ret (w, set_pids sup None, -1)
  else start_loop (Z.to_nat (nprocs svc)) w (set_pids sup (Some (replicate (Z.to_nat (nprocs svc)) (-1)))) 0.

Definition test_restart_interval (sup : eds_service_supervisor) (curr : Z) : eds_service_supervisor * Z :=
  if curr =? last_restart sup then
    let sup := Supervisor (pids sup) (last_restart sup) (nrestarts sup + 1) in
    (sup, if MAX_SERVICE_RESTARTS_PER_SEC <=? nrestarts sup then -1 else 0)
  else (Supervisor (pids sup) curr 1, 0).

(** the slot of a process, from [i] on *)
Fixpoint find_slot (n : nat) (ps : list Z) (pid i : Z) : outcome (option Z) :=
  match n with
  | O => Ret None
  | S n => p ← rd ps i; if p =? pid then Ret (Some i) else find_slot n ps pid (i + 1)
  end.

(** a process has ended: whether to wait for the next *)
Fixpoint child_ended (w : W) (svcs : list supervised) (pid : Z) : outcome (W * list supervised * bool) :=
  match svcs with
  | [] => Ret (w, [], true)
  | (svc, sup) :: rest =>
      match pids sup with
      | None => OutOfBounds
      | Some ps =>
          slot ← find_slot (Z.to_nat (nprocs svc)) ps pid 0;
          match slot with
          | None => '(w, rest, again) ← child_ended w rest pid; Ret (w, (svc, sup) :: rest, again)
          | Some i =>
              ps ← wr ps i (-1);
              let '(w, curr) := time w in
              let '(sup, ret) := test_restart_interval (set_pids sup (Some ps)) curr in
              if ret <? 0 then Ret (w, (svc, sup) :: rest, false)
              else '(w, sup, _) ← fork_service_listener w sup i; Ret (w, (svc, sup) :: rest, true)
          end
      end
  end.

Fixpoint supervise_service_listeners (fuel : nat) (w : W) (svcs : list supervised) : outcome (W * list supervised * Z) :=
  match fuel with
  | O => OutOfFuel
  | S fuel =>
      let '(w, r) := wait w in
      if shutdown_supervisor w then Ret (w, svcs, 0)
      else
        match r with
        | inr e => if e =? EINTR then supervise_service_listeners fuel w svcs else Ret (w, svcs, -1)
        | inl (pid, Stopped) => supervise_service_listeners fuel w svcs
        | inl (pid, _) =>
            '(w, svcs, again) ← child_ended w svcs pid;
            if (again : bool) then supervise_service_listeners fuel w svcs else Ret (w, svcs, -1)
        end
  end.

(** the services that are started; those after one that fails are left *)
Fixpoint start_services (alloc_ok : Z -> bool) (w : W) (svcs : list (@eds_service H)) : outcome (W * list supervised * Z) :=
  match svcs with
  | [] => Ret (w, [], 0)
  | svc :: rest =>
      let unstarted := map (fun svc => (svc, Supervisor None 0 0)) in
      match eds_service_init svc w with
      | (w, None) => Ret (w, unstarted (svc :: rest), -1)
      | (w, Some svc) =>
          '(w, sup, ret) ← start_service_listeners alloc_ok w svc (Supervisor None 0 0);
          if ret <? 0 then Ret (w, (svc, sup) :: unstarted rest, -1)
          else '(w, rest, ret) ← start_services alloc_ok w rest; Ret (w, (svc, sup) :: rest, ret)
      end
  end.

Definition eds_serve (alloc_ok : Z -> bool) (fuel : nat) (w : W) (svcs : list (@eds_service H)) : outcome (W * Z) :=
  '(w, svcs, ret) ← start_services alloc_ok w svcs;
  '(w, svcs, status) ← (if ret <? 0 then Ret (w, svcs, -1) else supervise_service_listeners fuel w svcs);
  Ret ((stop_service_listeners w svcs).1, status).
End Supervise.

(** ** Restarts *)

(** the times of restarts until one is refused *)
Fixpoint restarts (sup : eds_service_supervisor) (ts : list Z) : bool :=
  match ts with
  | [] => true
  | t :: ts => let '(sup, ret) := test_restart_interval sup t in if ret <? 0 then false else restarts sup ts
  end.

Definition five_in_a_row (ts : list Z) : Prop := exists t pre post, ts = pre ++ replicate 5 t ++ post.

Lemma five_short ts : (length ts < 5)%nat -> ~ five_in_a_row ts.
Proof. intros Hl (t & pre & post & ->). rewrite !length_app, length_replicate in Hl. lia. Qed.

Lemma five_after n a t ts : a <> t -> (n < 5)%nat -> five_in_a_row (replicate n a ++ t :: ts) -> five_in_a_row (t :: ts).
Proof.
  intros Hne Hn (x & pre & post & E). destruct (decide (length pre < n)%nat) as [Hlt|Hge].
  - exfalso. pose proof (f_equal (lookup (length pre)) E) as E1. pose proof (f_equal (lookup n) E) as E2.
    rewrite lookup_app_l, lookup_replicate_2 in E1 by (rewrite ?length_replicate; lia).
    rewrite lookup_app_r, length_replicate, Nat.sub_diag in E2 by (rewrite length_replicate; lia).
    rewrite (lookup_app_r pre), lookup_app_l, lookup_replicate_2 in E1 by (rewrite ?length_replicate; lia).
    rewrite (lookup_app_r pre), lookup_app_l, lookup_replicate_2 in E2 by (rewrite ?length_replicate; lia). cbn in E2. congruence.
  - exists x, (drop n pre), post. apply (f_equal (drop n)) in E. by rewrite drop_app_length', drop_app_le in E by (rewrite ?length_replicate; lia).
Qed.

Lemma restarts_spec ts : forall sup, 0 <= nrestarts sup < MAX_SERVICE_RESTARTS_PER_SEC ->
  restarts sup ts = false <-> five_in_a_row (replicate (Z.to_nat (nrestarts sup)) (last_restart sup) ++ ts).
Proof.
  unfold MAX_SERVICE_RESTARTS_PER_SEC. induction ts as [|t ts IH]; intros [ps last n] Hn; cbn [restarts nrestarts last_restart] in *.
  - split; [done|]. intros []%five_short. rewrite length_app, length_replicate. cbn. lia.
  - unfold test_restart_interval. cbn [nrestarts last_restart pids]. unfold MAX_SERVICE_RESTARTS_PER_SEC. destruct (Z.eqb_spec t last) as [->|Hne].
    + destruct (Z.leb_spec 5 (n + 1)) as [H5|H5]; cbn [Z.ltb Z.compare].
      * split; [intros _|done]. exists last, [], ts. assert (n = 4) as -> by lia. done.
      * rewrite IH by (cbn; lia). cbn [nrestarts last_restart]. replace (Z.to_nat (n + 1)) with (Z.to_nat n + 1)%nat by lia.
        by rewrite replicate_add, <- app_assoc.
    + cbn [Z.ltb Z.compare]. rewrite IH by (cbn; lia). cbn [nrestarts last_restart]. change (replicate (Z.to_nat 1) t ++ ts) with (t :: ts). split.
      * intros (x & pre & post & ->). exists x, (replicate (Z.to_nat n) last ++ pre), post. by rewrite app_assoc.
      * apply five_after; [done|lia].
Qed.

(** ** The processes of the supervisor *)

Lemma wr_ret {A} (l l' : list A) i x : wr l i x = Ret l' -> 0 <= i < zlen l /\ l' = <[Z.to_nat i := x]> l.
Proof.
  intros E. destruct (decide (0 <= i < zlen l)) as [Hi|Hi]; [rewrite wr_in in E by done; by injection E as <-|].
  unfold wr in E. destruct (_ || _) eqn:Eb; [done|]. apply orb_false_elim in Eb as [? ?]. zbool. unfold zlen in Hi. lia.
Qed.

Section Owned.
Context {W H : Type} {SW : Sys W} {PW : Procs W}.

(** [children w] have not been waited for *)
Context (children : W -> gset Z).

Record process_laws : Prop := ProcessLaws {
  p_fork w : match fork w with
    | (w', Some pid) => 0 < pid /\ (pid ∉ children w) /\ children w' = children w ∪ {[pid]}
    | (w', None) => children w' = children w
    end;
  p_wait w : match wait w with
    | (w', inl (pid, Stopped)) => children w' = children w
    | (w', inl (pid, _)) => pid ∈ children w /\ children w' = children w ∖ {[pid]}
    | (w', inr _) => children w' = children w
    end;
  p_time w : children (time w).1 = children w;
  p_init (svc : @eds_service H) w : children (eds_service_init svc w).1 = children w;
}.

Definition slots (svcs : list (@supervised H)) : list Z := concat (map (fun '(_, sup) => default [] (pids sup)) svcs).
Definition live_slots (svcs : list (@supervised H)) : list Z := filter (fun p => p <> -1) (slots svcs).

(** every process is in one slot *)
Definition owned (w : W) (svcs : list (@supervised H)) : Prop := NoDup (live_slots svcs) /\ forall p, p ∈ live_slots svcs <-> p ∈ children w.

Definition started (s : @supervised H) : Prop := exists ps, pids s.2 = Some ps /\ length ps = Z.to_nat (nprocs s.1).

Context (PL : process_laws).

Lemma insert_perm {A} (l : list A) : forall i x, l !! i = Some x -> exists rest, l ≡ₚ x :: rest /\ forall y, <[i:=y]> l ≡ₚ y :: rest.
Proof.
  intros i x Hi. exists (take i l ++ drop (S i) l). split.
  - rewrite <- (take_drop_middle l i x Hi) at 1. by rewrite Permutation_middle.
  - intros y. rewrite insert_take_drop by (by eapply lookup_lt_Some). by rewrite Permutation_middle.
Qed.

Lemma slots_cons svc sup ps rest : pids sup = Some ps -> slots ((svc, sup) :: rest) = ps ++ slots rest.
Proof. intros E. unfold slots. cbn. by rewrite E. Qed.

Lemma live_cons svc sup ps rest : pids sup = Some ps -> live_slots ((svc, sup) :: rest) = filter (fun p => p <> -1) ps ++ live_slots rest.
Proof. intros E. unfold live_slots. by rewrite (slots_cons svc sup ps), filter_app. Qed.

(** the processes of one service after a [fork] into a slot that is free *)
Lemma fork_spec w sup ps n : pids sup = Some ps -> ps !! Z.to_nat n = Some (-1) -> 0 <= n ->
  exists w' sup' ps' ret new, fork_service_listener w sup n = Ret (w', sup', ret) /\ pids sup' = Some ps' /\ length ps' = length ps /\
    filter (fun p => p <> -1) ps' ≡ₚ new ++ filter (fun p => p <> -1) ps /\
    children w' = children w ∪ list_to_set new /\ NoDup new /\ Forall (fun p => (p ∉ children w)) new /\
    (forall k, n < Z.of_nat k -> ps' !! k = ps !! k).
Proof.
  intros Hps Hn H0. unfold fork_service_listener. pose proof (p_fork PL w) as Hf. destruct (fork w) as [w' [pid|]].
  - destruct Hf as (Hpos & Hnew & Hch). rewrite Hps. assert (Hlt : (Z.to_nat n < length ps)%nat) by (by eapply lookup_lt_Some).
    rewrite (wr_in ps n pid) by (unfold zlen; lia). cbn [mbind outcome_mbind]. eexists w', _, _, 0, [pid]. split; [done|]. split; [done|]. rewrite length_insert. split; [done|].
    destruct (insert_perm ps _ _ Hn) as (rest & E1 & E2). split.
    { rewrite (E2 pid), E1, filter_cons_True, filter_cons_False by lia. done. }
    rewrite Hch. split; [set_solver|]. split; [apply NoDup_singleton|]. split; [by apply Forall_singleton|]. intros k Hk. apply list_lookup_insert_ne. lia.
  - eexists w', sup, ps, (-1), []. split; [done|]. split; [done|]. split; [done|]. split; [done|]. rewrite Hf. split; [set_solver|]. split; [constructor|]. by split.
Qed.

(** a service that is started: its processes are new *)
Lemma start_loop_spec n : forall w sup ps i, pids sup = Some ps -> 0 <= i -> i + Z.of_nat n <= zlen ps -> (forall k, i <= Z.of_nat k < i + Z.of_nat n -> ps !! k = Some (-1)) ->
  exists w' sup' ps' ret new, start_loop n w sup i = Ret (w', sup', ret) /\ pids sup' = Some ps' /\ length ps' = length ps /\
    filter (fun p => p <> -1) ps' ≡ₚ new ++ filter (fun p => p <> -1) ps /\
    children w' = children w ∪ list_to_set new /\ NoDup new /\ Forall (fun p => (p ∉ children w)) new.
Proof.
  induction n as [|n IH]; intros w sup ps i Hps H0 Hl Hfree; cbn [start_loop].
  { exists w, sup, ps, 0, []. split; [done|]. split; [done|]. split; [done|]. split; [done|]. split; [set_solver|]. split; constructor. }
  destruct (fork_spec w sup ps i Hps) as (w1 & sup1 & ps1 & ret & new & -> & Hps1 & Hl1 & Hp1 & Hc1 & Hd1 & Hf1 & Hk1); [apply Hfree; lia|done|].
  cbn [mbind outcome_mbind]. destruct (ret <? 0); [by exists w1, sup1, ps1, (-1), new|].
  destruct (IH w1 sup1 ps1 (i + 1) Hps1) as (w2 & sup2 & ps2 & r2 & new2 & -> & Hps2 & Hl2 & Hp2 & Hc2 & Hd2 & Hf2); [lia|unfold zlen in *; lia| |].
  { intros k Hk. rewrite Hk1 by lia. apply Hfree. lia. }
  exists w2, sup2, ps2, r2, (new2 ++ new). split; [done|]. split; [done|]. split; [congruence|]. split; [by rewrite Hp2, Hp1, app_assoc|].
  rewrite Hc2, Hc1, list_to_set_app_L. split; [set_solver|]. rewrite Forall_forall in Hf1, Hf2. split.
  - apply NoDup_app. split; [done|]. split; [|done]. intros x Hx Hx'. apply (Hf2 x Hx). rewrite Hc1. set_solver.
  - apply Forall_forall. intros x [Hx|Hx]%elem_of_app; [|by apply Hf1]. intros Hin. apply (Hf2 x Hx). rewrite Hc1. set_solver.
Qed.

Lemma find_slot_spec n : forall ps pid i, 0 <= i -> i + Z.of_nat n = zlen ps ->
  exists r, find_slot n ps pid i = Ret r /\
    match r with Some j => 0 <= j /\ ps !! Z.to_nat j = Some pid | None => pid ∉ drop (Z.to_nat i) ps end.
Proof.
  induction n as [|n IH]; intros ps pid i H0 Hl; cbn [find_slot].
  { exists None. split; [done|]. rewrite drop_ge by (unfold zlen in *; lia). apply not_elem_of_nil. }
  destruct (lookup_lt_is_Some_2 ps (Z.to_nat i)) as (p & Hp); [unfold zlen in *; lia|]. rewrite (proj2 (rd_ret ps i p)) by (split; [lia|done]). cbn [mbind outcome_mbind].
  destruct (Z.eqb_spec p pid) as [->|Hne]; [by exists (Some i)|].
  destruct (IH ps pid (i + 1)) as (r & -> & Hr); [lia|lia|]. exists r. split; [done|]. destruct r; [done|].
  rewrite (drop_S ps p _ Hp), not_elem_of_cons. split; [congruence|]. by replace (S (Z.to_nat i)) with (Z.to_nat (i + 1)) by lia.
Qed.

(** [new] are the processes that were forked, one or none *)
Definition forked (w w' : W) (new : list Z) : Prop :=
  children w' = children w ∪ list_to_set new /\ NoDup new /\ Forall (fun p => (p ∉ children w)) new.

Lemma child_ended_spec w svcs pid : Forall started svcs -> pid <> -1 -> pid ∈ slots svcs ->
  exists w' svcs' again R new, child_ended w svcs pid = Ret (w', svcs', again) /\ Forall started svcs' /\
    live_slots svcs ≡ₚ pid :: R /\ live_slots svcs' ≡ₚ new ++ R /\ forked w w' new.
Proof.
  intros Hst Hpos. induction Hst as [|[svc sup] rest (ps & Hps & Hl) Hst IH]; intros Hin; [by apply not_elem_of_nil in Hin|]. cbn [fst snd] in *.
  cbn [child_ended]. rewrite Hps. destruct (find_slot_spec (Z.to_nat (nprocs svc)) ps pid 0 ltac:(lia)) as (r & -> & Hr); [unfold zlen; lia|].
  cbn [mbind outcome_mbind]. destruct r as [j|].
  - destruct Hr as [Hj Hpid]. pose proof (lookup_lt_Some _ _ _ Hpid) as Hlt. rewrite (wr_in ps j (-1)) by (unfold zlen; lia). cbn [mbind outcome_mbind].
    set (ps1 := <[Z.to_nat j:=-1]> ps). destruct (insert_perm ps _ _ Hpid) as (R & E1 & E2). specialize (E2 (-1)). fold ps1 in E2.
    pose proof (p_time PL w) as Ht. destruct (time w) as [w1 curr]. cbn [fst] in Ht.
    assert (Hsup : exists l k ret, test_restart_interval (set_pids sup (Some ps1)) curr = (Supervisor (Some ps1) l k, ret)).
    { unfold test_restart_interval. destruct (curr =? _); [|by eexists _, _, _]. destruct (_ <=? _); by eexists _, _, _. }
    destruct Hsup as (l & k & ret & ->).
    assert (Hlive : live_slots ((svc, sup) :: rest) ≡ₚ pid :: (filter (fun p => p <> -1) R ++ live_slots rest)).
    { rewrite (live_cons svc sup ps) by done. rewrite E1, filter_cons_True by lia. done. }
    destruct (ret <? 0).
    + eexists w1, _, false, _, []. split; [done|]. split; [constructor; [exists ps1; split; [done|unfold ps1; by rewrite length_insert]|done]|]. split; [exact Hlive|].
      rewrite (live_cons svc _ ps1) by done. split; [by rewrite E2, filter_cons_False by lia|]. split; [rewrite Ht; set_solver|split; constructor].
    + destruct (fork_spec w1 (Supervisor (Some ps1) l k) ps1 j) as (w2 & sup2 & ps2 & r2 & new & -> & Hps2 & Hl2 & Hp2 & Hc2 & Hd2 & Hf2 & _); [done| |done|].
      { apply list_lookup_insert_eq. lia. }
      cbn [mbind outcome_mbind]. eexists w2, _, true, _, new. split; [done|]. split.
      { constructor; [exists ps2; cbn; split; [done|]; unfold ps1 in Hl2; rewrite length_insert in Hl2; congruence|done]. }
      split; [exact Hlive|]. rewrite (live_cons svc _ ps2) by done. split; [by rewrite Hp2, E2, filter_cons_False, app_assoc by lia|]. rewrite Ht in *. by split.
  - rewrite drop_0 in Hr. rewrite (slots_cons svc sup ps) in Hin by done. apply elem_of_app in Hin as [?|Hin]; [done|].
    destruct (IH Hin) as (w1 & rest1 & again & R & new & -> & Hst1 & E1 & E2 & Hf). cbn [mbind outcome_mbind].
    eexists w1, _, again, (filter (fun p => p <> -1) ps ++ R), new. split; [done|]. split; [constructor; [by exists ps|done]|].
    rewrite !(live_cons svc sup ps) by done. split; [rewrite E1; by rewrite Permutation_middle|]. split; [|done].
    rewrite E2, !app_assoc. by rewrite (Permutation_app_comm new).
Qed.

Lemma owned_step w w' svcs svcs' R new (p : Z) : owned w svcs -> live_slots svcs ≡ₚ p :: R -> live_slots svcs' ≡ₚ new ++ R ->
  children w' = (children w ∖ {[p]}) ∪ list_to_set new -> NoDup new -> Forall (fun q => (q ∉ children w ∖ {[p]})) new -> owned w' svcs'.
Proof.
  intros [Hd Ho] E1 E2 Hc Hn Hf. rewrite Forall_forall in Hf. rewrite E1 in Hd. apply NoDup_cons in Hd as [Hp Hd].
  assert (HR : forall q, q ∈ R <-> q ∈ children w /\ q <> p).
  { intros q. rewrite <- Ho, E1, elem_of_cons. split; [|tauto]. intros Hq. split; [by right|]. intros ->. done. }
  unfold owned. rewrite E2. split.
  - apply NoDup_app. split; [done|]. split; [|done]. intros x Hx Hx'. apply (Hf x Hx). apply HR in Hx' as [? ?]. set_solver.
  - intros q. rewrite E2, Hc, elem_of_app, HR, elem_of_union, elem_of_difference, elem_of_singleton, elem_of_list_to_set. tauto.
Qed.

(** at the end, a process that has just been waited for may still have its slot *)
Definition owned_at_end (w : W) (svcs : list (@supervised H)) (status : Z) : Prop :=
  owned w svcs \/ status = 0 /\ exists w0 pid, owned w0 svcs /\ pid ∈ children w0 /\ children w = children w0 ∖ {[pid]}.

Lemma supervise_owned fuel : forall w svcs w' svcs' status, Forall started svcs -> owned w svcs ->
  supervise_service_listeners fuel w svcs = Ret (w', svcs', status) -> Forall started svcs' /\ owned_at_end w' svcs' status.
Proof.
  induction fuel as [|fuel IH]; intros w svcs w' svcs' status Hst Ho; cbn [supervise_service_listeners]; [done|].
  pose proof (p_wait PL w) as Hw. destruct (wait w) as [w1 r]. assert (Hsame : children w1 = children w -> owned w1 svcs) by (intros E; unfold owned; by rewrite E).
  assert (Hend : forall pid, pid ∈ children w /\ children w1 = children w ∖ {[pid]} ->
    ('(w, svcs, again) ← child_ended w1 svcs pid; if (again : bool) then supervise_service_listeners fuel w svcs else Ret (w, svcs, -1)) = Ret (w', svcs', status) ->
    Forall started svcs' /\ owned_at_end w' svcs' status).
  { intros pid [Hin Hc]. apply Ho in Hin. apply list_elem_of_filter in Hin as [Hne Hin].
    destruct (child_ended_spec w1 svcs pid Hst Hne Hin) as (w2 & svcs2 & again & R & new & -> & Hst2 & E1 & E2 & Hc2 & Hd2 & Hf2). cbn [mbind outcome_mbind].
    assert (Ho2 : owned w2 svcs2) by (rewrite Hc in *; by apply (owned_step w w2 svcs svcs2 R new pid)).
    destruct again; [by apply IH|]. intros [= -> -> _]. split; [done|by left]. }
  destruct (shutdown_supervisor w1) eqn:Hs.
  - intros [= -> -> <-]. split; [done|]. destruct r as [[pid [?|?|]]|e]; try (left; by apply Hsame); right; (split; [done|]); by exists w, pid.
  - destruct r as [[pid [?|?|]]|e]; [by apply Hend|by apply Hend|by apply IH; [|apply Hsame]|].
    destruct (e =? EINTR); [by apply IH; [|apply Hsame]|]. intros [= -> -> _]. split; [done|]. left. by apply Hsame.
Qed.

Lemma live_slots_unstarted (svcs : list (@eds_service H)) : live_slots (map (fun svc => (svc, Supervisor None 0 0)) svcs) = [].
Proof. unfold live_slots, slots. induction svcs as [|svc svcs IH]; [done|]. cbn. exact IH. Qed.

Lemma start_services_spec alloc_ok svcs : forall w, exists w' l ret new, start_services alloc_ok w svcs = Ret (w', l, ret) /\
  live_slots l ≡ₚ new /\ forked w w' new /\ (ret = 0 /\ Forall started l \/ ret = -1).
Proof.
  induction svcs as [|svc svcs IH]; intros w; cbn [start_services].
  { exists w, [], 0, []. split; [done|]. split; [done|]. split; [split; [set_solver|split; constructor]|]. by left. }
  pose proof (p_init PL svc w) as Hi. destruct (eds_service_init svc w) as [w1 [svc1|]]; cbn [fst] in Hi.
  2: { exists w1. eexists _, (-1), []. split; [done|]. rewrite (live_slots_unstarted (svc :: svcs)). split; [done|]. split; [split; [rewrite Hi; set_solver|split; constructor]|by right]. }
  unfold start_service_listeners. destruct (negb (alloc_ok (nprocs svc1 * 4))).
  { eexists w1, _, (-1), []. split; [done|]. split; [|split; [split; [rewrite Hi; set_solver|split; constructor]|by right]].
    change (live_slots ?l) with (live_slots (map (fun svc => (svc, Supervisor None 0 0)) (svc1 :: svcs))). by rewrite live_slots_unstarted. }
  set (n := Z.to_nat (nprocs svc1)). set (ps := replicate n (-1)).
  destruct (start_loop_spec n w1 (set_pids (Supervisor None 0 0) (Some ps)) ps 0) as (w2 & sup & ps2 & ret & new & -> & Hps & Hl & Hp & Hc & Hd & Hf); [done|lia|unfold ps; rewrite zlen_replicate; lia| |].
  { intros k Hk. apply lookup_replicate_2. lia. }
  rewrite Hi in Hc, Hf. assert (Hp' : filter (fun p => p <> -1) ps2 ≡ₚ new).
  { rewrite Hp. unfold ps. clear. induction n as [|n IH]; cbn [replicate]; [by rewrite app_nil_r|]. by rewrite filter_cons_False by lia. }
  cbn [mbind outcome_mbind]. destruct (ret <? 0).
  { eexists w2, _, (-1), new. split; [done|]. rewrite (live_cons svc1 sup ps2) by done. rewrite live_slots_unstarted, app_nil_r. split; [done|]. split; [done|by right]. }
  destruct (IH w2) as (w3 & l & r3 & new3 & -> & E3 & (Hc3 & Hd3 & Hf3) & Hr3). cbn [mbind outcome_mbind].
  eexists w3, _, r3, (new ++ new3). split; [done|]. rewrite (live_cons svc1 sup ps2) by done. rewrite E3. split; [by rewrite Hp'|]. split; [split; [|split]|].
  - rewrite Hc3, Hc, list_to_set_app_L. set_solver.
  - apply NoDup_app. split; [done|]. split; [|done]. rewrite Forall_forall in Hf3. intros x Hx Hx'. apply (Hf3 x Hx'). rewrite Hc. set_solver.
  - apply Forall_app. split; [done|]. eapply Forall_impl; [exact Hf3|]. intros x Hx. rewrite Hc in Hx. set_solver.
  - destruct Hr3 as [[-> Hst]| ->]; [left; split; [done|]|by right]. constructor; [|done]. exists ps2. split; [done|]. cbn. by rewrite Hl; unfold ps; rewrite length_replicate.
Qed.

(** ** Stopping *)

Definition send_signals (w : W) (l : list (Z * Z)) : W := foldl (fun w '(pid, sig) => kill w pid sig) w l.

Definition stop_signals (svcs : list (@supervised H)) : list (Z * Z) :=
  map (fun p => (p, SIGTERM)) (live_slots svcs) ++ map (fun p => (p, SIGKILL)) (slots svcs).

Lemma signal_all_spec sig ps : forall w, signal_all sig w ps = send_signals w (map (fun p => (p, sig)) ps).
Proof. induction ps as [|p ps IH]; intros w; [done|]. exact (IH (kill w p sig)). Qed.

Lemma stop_spec w svcs : (stop_service_listeners w svcs).1 = send_signals w (stop_signals svcs).
Proof.
  unfold stop_service_listeners, stop_signals, send_signals. cbn [fst]. rewrite foldl_app.
  assert (H1 : forall sig (f : list Z -> list Z) w, f [] = [] -> (forall a b, f (a ++ b) = f a ++ f b) ->
    foldl (fun w '(_, sup) => signal_all sig w (f (default [] (pids sup)))) w svcs = foldl (fun w '(pid, sig) => kill w pid sig) w (map (fun p => (p, sig)) (f (slots svcs)))).
  { intros sig f w0 Hnil Happ. revert w0. induction svcs as [|[svc sup] rest IH]; intros w0; cbn [foldl]; [unfold slots; cbn; by rewrite Hnil|].
    rewrite IH. unfold slots. cbn [map concat]. rewrite Happ, map_app, foldl_app. f_equal. apply (signal_all_spec sig). }
  rewrite (H1 SIGTERM (fun l => filter (fun p => p <> -1) l)) by (done || intros; apply filter_app). by rewrite (H1 SIGKILL (fun l => l)) by done.
Qed.
End Owned.

(** A restart is refused when there were four others in the same second,
    one after the other. *)
Theorem restart_limit ps ts : restarts (Supervisor ps 0 0) ts = false <-> five_in_a_row ts.
Proof. by rewrite restarts_spec. Qed.

(** C17: when the supervisor ends, every process that it started and that still
    runs gets SIGTERM and SIGKILL, and nothing else is signalled, but that a
    process may have been waited for just before, and that a slot without a
    process makes it send SIGKILL to -1, which is every process there is. *)
Theorem eds_serve_signals {W H : Type} {SW : Sys W} {PW : Procs W} (children : W -> gset Z) alloc_ok fuel w (svcs : list (@eds_service H)) w' status :
  process_laws (H := H) children -> children w = ∅ -> eds_serve alloc_ok fuel w svcs = Ret (w', status) ->
  exists w1 l, w' = send_signals w1 l /\
    (forall p, p ∈ children w1 -> (p, SIGTERM) ∈ l /\ (p, SIGKILL) ∈ l) /\
    (forall p sig, (p, sig) ∈ l -> p ∈ children w1 \/ p = -1 /\ sig = SIGKILL \/
       status = 0 /\ exists w0, p ∈ children w0 /\ children w1 = children w0 ∖ {[p]}).
Proof.
  intros PL Hw. unfold eds_serve. destruct (start_services_spec children PL alloc_ok svcs w) as (w1 & l & ret & new & -> & Hl & (Hc & Hd & _) & Hret).
  cbn [mbind outcome_mbind]. assert (Ho : owned children w1 l).
  { unfold owned. rewrite Hl. split; [done|]. intros p. rewrite Hl, Hc, Hw. set_solver. }
  assert (Hend : forall w2 (svcs2 : list (@supervised H)) st, owned_at_end children w2 svcs2 st -> Ret ((stop_service_listeners w2 svcs2).1, st) = Ret (w', status) -> exists w1 l, w' = send_signals w1 l /\
    (forall p, p ∈ children w1 -> (p, SIGTERM) ∈ l /\ (p, SIGKILL) ∈ l) /\
    (forall p sig, (p, sig) ∈ l -> p ∈ children w1 \/ p = -1 /\ sig = SIGKILL \/ status = 0 /\ exists w0, p ∈ children w0 /\ children w1 = children w0 ∖ {[p]})).
  { intros w2 svcs2 st He [= <- <-]. exists w2, (stop_signals svcs2). split; [apply stop_spec|].
    assert (Hin : forall p, p ∈ live_slots svcs2 -> (p, SIGTERM) ∈ stop_signals svcs2 /\ (p, SIGKILL) ∈ stop_signals svcs2).
    { intros p Hp. unfold stop_signals. rewrite !elem_of_app, !list_elem_of_fmap. split; [left; by exists p|right]. exists p. split; [done|]. by apply list_elem_of_filter in Hp as [_ ?]. }
    assert (Hout : forall p sig, (p, sig) ∈ stop_signals svcs2 -> p ∈ live_slots svcs2 \/ p = -1 /\ sig = SIGKILL).
    { intros p sig. unfold stop_signals. rewrite elem_of_app, !list_elem_of_fmap. intros [(q & [= -> ->] & Hq)|(q & [= -> ->] & Hq)]; [by left|].
      destruct (decide (q = -1)) as [->|]; [by right|left]. by apply list_elem_of_filter. }
    destruct He as [[_ He]|(-> & w0 & pid & [_ He] & Hpid & Hc2)].
    - split; [intros p Hp; apply Hin, He, Hp|]. intros p sig Hp. destruct (Hout p sig Hp) as [Hq|?]; [left; by apply He|auto].
    - split; [intros p Hp; apply Hin, He; rewrite Hc2 in Hp; set_solver|]. intros p sig Hp. destruct (Hout p sig Hp) as [Hq|?]; [|auto]. apply He in Hq.
      destruct (decide (p = pid)) as [->|]; [right; right; split; [done|]; by exists w0|left; rewrite Hc2; set_solver]. }
  destruct (ret <? 0) eqn:Er.
  - cbn [mbind outcome_mbind]. apply Hend. by left.
  - destruct Hret as [[-> Hst]| ->]; [|done]. destruct (supervise_service_listeners fuel w1 l) as [[[w2 svcs2] st]| |] eqn:E; [|done|done]. cbn [mbind outcome_mbind].
    apply Hend. by eapply supervise_owned.
Qed.

(** A service that restarts too often makes the supervisor send SIGKILL to
    every process of the system that it may signal, itself included: the slot
    of the process that ended is -1, and only the first of the loops of
    [stop_service_listeners] looks for that. *)
Theorem too_many_restarts_kill_all {W H : Type} {SW : Sys W} {PW : Procs W} w (svcs : list (@supervised H)) pid w' svcs' :
  child_ended w svcs pid = Ret (w', svcs', false) -> exists l l', (stop_service_listeners w' svcs').1 = send_signals (kill (send_signals w' l) (-1) SIGKILL) l'.
Proof.
  intros He. assert (Hin : -1 ∈ slots svcs').
  { revert w' svcs' He. induction svcs as [|[svc sup] rest IH]; intros w' svcs'; cbn [child_ended]; [done|]. destruct (pids sup) as [ps|] eqn:Hps; [|done].
    destruct (find_slot _ _ _ _) as [[j|]| |]; cbn [mbind outcome_mbind]; [| |done|done].
    - destruct (wr ps j (-1)) as [ps1| |] eqn:Ew; cbn [mbind outcome_mbind]; [|done|done]. destruct (time w) as [w1 curr].
      assert (Hp : pids (test_restart_interval (set_pids sup (Some ps1)) curr).1 = Some ps1) by (unfold test_restart_interval; destruct (curr =? _); [by destruct (_ <=? _)|done]).
      destruct (test_restart_interval _ _) as [sup1 ret]. cbn [fst] in Hp. destruct (ret <? 0).
      + intros [= _ <-]. rewrite (slots_cons svc sup1 ps1) by done. apply elem_of_app. left. apply wr_ret in Ew as (Hlt & ->).
        eapply list_elem_of_lookup_2, list_lookup_insert_eq. unfold zlen in Hlt. lia.
      + by destruct (fork_service_listener w1 sup1 j) as [[[w2 sup2] r2]| |].
    - destruct (child_ended w rest pid) as [[[w1 rest1] again]| |]; cbn [mbind outcome_mbind]; [|done|done]. intros [= -> <- ->].
      rewrite (slots_cons svc sup ps) by done. apply elem_of_app. right. by eapply IH. }
  rewrite stop_spec. apply list_elem_of_split in Hin as (a & b & E). exists (map (fun p => (p, SIGTERM)) (live_slots svcs') ++ map (fun p => (p, SIGKILL)) a), (map (fun p => (p, SIGKILL)) b).
  unfold stop_signals, send_signals. rewrite E, map_app, map_cons, app_assoc, foldl_app. done.
Qed.

(** ** A kernel whose processes end one after the other *)

(** [clock] are the times to return; after them the supervisor is told to stop *)
Record crashing : Type := Crashing { alive : list Z; clock : list Z; signals : list (Z * Z) }.

#[export] Instance crashing_sys : Sys crashing := {|
  read w fd n := (w, inl []);
  write w fd bs := (w, inl (zlen bs));
  writev w fd bss := (w, inl (zlen (concat bss)));
  poll_in w fd := (w, true);
  poll_out w fd := (w, true);
  close w fd := (w, true);
  accept w fd := (w, inr EAGAIN);
  socket w := (w, Some 3);
  connect w fd p := (w, true);
  bind w fd p := (w, true);
  listen w fd := (w, true);
  unlink w p := w;
  chmod w p m := w;
  sendmsg w fd m f := (w, inl ());
  recvmsg w fd := (w, inl (0, Some 4));
  fcntl w fd c a := (w, 0);
|}.

#[export] Instance crashing_procs : Procs crashing := {|
  fork w := let pid := 1 + foldr Z.max 100 (alive w) in (Crashing (alive w ++ [pid]) (clock w) (signals w), Some pid);
  kill w pid sig := Crashing (alive w) (clock w) (signals w ++ [(pid, sig)]);
  wait w := match alive w with
    | pid :: _ => (Crashing (filter (fun p => p <> pid) (alive w)) (clock w) (signals w), inl (pid, Exited 1))
    | [] => (w, inr 10)
    end;
  time w := match clock w with t :: l => (Crashing (alive w) l (signals w), t) | [] => (w, 0) end;
  shutdown_supervisor w := match clock w with [] => true | _ => false end;
|}.

Definition crashing_children (w : crashing) : gset Z := list_to_set (alive w).

Lemma foldr_max_ge l p : p ∈ l -> p <= foldr Z.max 100 l.
Proof. induction l as [|x l IH]; [by intros ?%not_elem_of_nil|]. intros [->|H%IH]%elem_of_cons; cbn; lia. Qed.

Lemma crashing_laws {H} : process_laws (H := H) crashing_children.
Proof.
  split; unfold crashing_children.
  - intros w. cbn. split; [|split].
    + assert (0 <= foldr Z.max 100 (alive w)) by (induction (alive w); cbn; lia). lia.
    + rewrite elem_of_list_to_set. intros Hin%foldr_max_ge. lia.
    + rewrite list_to_set_app_L. set_solver.
  - intros w. cbn. destruct (alive w) as [|pid l] eqn:E; [by rewrite E|]. cbn [alive]. split; [set_solver|].
    apply set_eq. intros x. rewrite elem_of_difference, !elem_of_list_to_set, list_elem_of_filter, elem_of_singleton. tauto.
  - intros w. cbn. by destruct (clock w).
  - intros svc w. unfold eds_service_init, io_listen_unix. destruct (name svc), (path svc); try done. destruct (FD_SETSIZE <? nfds svc); [done|]. by destruct (_ && _).
Qed.

(** two processes, of which the first ends; then the supervisor is stopped *)
Lemma eds_serve_signals_witness :
  let svc := Service (Some (lit "s")) (Some (lit "s.sock")) (Actions (Some ()) None None None) 2 6 0 None None None 0 in
  match eds_serve (fun _ => true) 5 (Crashing [] [7] []) [svc] with
  | Ret (w', status) => status = 0 /\ exists w1 l, w' = send_signals w1 l /\ forall p, p ∈ crashing_children w1 -> (p, SIGTERM) ∈ l /\ (p, SIGKILL) ∈ l
  | _ => False
  end.
Proof.
  intros svc. destruct (eds_serve _ _ _ _) as [[w' status]| |] eqn:E; try (vm_compute in E; discriminate E).
  split; [vm_compute in E; by injection E|].
  destruct (eds_serve_signals crashing_children (fun _ => true) 5 (Crashing [] [7] []) [svc] w' status) as (w1 & l & -> & Hl & _).
  - apply crashing_laws.
  - done.
  - exact E.
  - by exists w1, l.
Defined.

(** the fifth time in the same second *)
Lemma too_many_restarts_kill_all_witness :
  let svc := Service (Some (lit "s")) (Some (lit "s.sock")) (Actions (Some ()) None None None) 1 6 0 None None None 3 in
  let svcs := [(svc, Supervisor (Some [101]) 7 4)] in
  match child_ended (Crashing [] [7] []) svcs 101 with
  | Ret (w', svcs', again) => again = false /\ exists l l', (stop_service_listeners w' svcs').1 = send_signals (kill (send_signals w' l) (-1) SIGKILL) l'
  | _ => False
  end.
Proof.
  intros svc svcs. destruct (child_ended _ _ _) as [[[w' svcs'] again]| |] eqn:E; try (vm_compute in E; discriminate E).
  assert (again = false) as -> by (vm_compute in E; by injection E). split; [done|]. exact (too_many_restarts_kill_all (Crashing [] [7] []) svcs 101 w' svcs' E).
Defined.

Example crash_loop_signals :
  let svc := Service (Some (lit "s")) (Some (lit "s.sock")) (Actions (Some ()) None None None) 1 6 0 None None None 0 in
  match eds_serve (fun _ => true) 9 (Crashing [] (replicate 9 7) []) [svc] with Ret (w', status) => signals w' = [(-1, SIGKILL)] /\ status = -1 | _ => False end.
Proof. vm_compute. done. Qed.
