(* ===== verification/EdsSafe.v ===== *)
(** * What the handlers of a service keep (src/lib/util/eds.c)

    If every handler keeps a property of the state of the application and the
    kernel, and sets only handlers that do, then the event loop keeps it,
    whatever the kernel returns and in whatever order handlers are called. *)

From stdpp Require Import gmap.
From S2P Require Import Prelude Buf Io Keeps Eds.

Section Safe.
Context {W A H P : Type} {SW : Sys W} {EW : EdsSys W}.
Context (svc : @eds_service H) (body : H -> Z -> A -> W -> outcome (A * W * list (@cmd H P))) (load : A -> P -> Z -> Z -> outcome bytes).

(** [may h fd a]: the handler [h] may be called for the client [fd] *)
Context (may : H -> Z -> A -> Prop) (good : A -> W -> Prop).
(** what holds from the [waitpid] that returned a child to the handler that is told of it *)
Context (reaped : Z -> A -> W -> Prop).

Definition may_actions (acts : @eds_client_actions H) (fd : Z) (a : A) : Prop :=
  may_opt may (a_readable acts) fd a /\ may_opt may (a_writable acts) fd a /\ may_opt may (a_done acts) fd a /\ may_opt may (a_finalize acts) fd a.

Definition may_cmd (a : A) (c : @cmd H P) : Prop :=
  match c with
  | SetOnReadable fd h _ | SetOnWritable fd h _ | SetTicker fd h => may_opt may h fd a
  | Send fd _ _ next => forall t, next = Some t -> may_trans may t fd a
  | AddClient fd acts _ => may_actions acts fd a
  | SuspendReadable _ | ClearActions _ | SetExternalfd _ | RemoveClient _ | Stop => True
  end.

(** what a handler gives back *)
Definition safe_result (a : A) : A * W * list (@cmd H P) -> Prop :=
  fun '(a', w', cmds) => good a' w' /\ (forall h fd, may h fd a -> may h fd a') /\ Forall (may_cmd a') cmds.

Record safe_laws : Prop := SafeLaws {
  s_body h fd a w : may h fd a -> good a w -> yields (safe_result a) (body h fd a w);
  s_actions fd a : may_actions (actions svc) fd a;
  s_tick a : may_opt may (on_svc_tick svc) (-1) a;
  s_cli_reaped f pid st fd a : on_cli_reaped_child svc = Some f -> may (f pid st) fd a;
  s_kernel a w : good a w -> good a (accept w (cmdfd svc)).1 /\ (forall fd, good a (close w fd).1) /\ (forall fd bs, good a (write w fd bs).1) /\
    (forall r wr, good a (select w r wr).1) /\ good a (clock_gettime w).1 /\ (forall fd c x, good a (fcntl w fd c x).1);
  s_waitpid a w : good a w ->
    let '(w', r) := waitpid w in match r with inl (pid, _) => if 0 <? pid then reaped pid a w' else good a w' | inr _ => good a w' end;
  s_reaped pid st a w : reaped pid a w ->
    match on_svc_reaped_child svc with Some f => yields (safe_result a) (body (f pid st) (-1) a w) | None => good a w end;
}.

Context (SL : safe_laws).

Record client_may (a : A) (fd : Z) (c : @eds_client H P) : Prop := ClientMay {
  m_readable : may_opt may (on_readable c) fd a;
  m_writable : forall h, on_writable c = Some (App h) -> may h fd a;
  m_done : may_opt may (on_done c) fd a;
  m_finalize : may_opt may (on_finalize c) fd a;
  m_ticker : may_opt may (ticker c) fd a;
  m_trans : may_trans may (trans c) fd a;
}.

Definition task_may (a : A) (t : @task H P) : Prop :=
  match t with
  | Do c => may_cmd a c
  | Call (App h) fd | OnDone h fd => may h fd a
  | Call OnSend _ | WriteSome _ | Completed _ | CompletedWrite _ | FinishRemove _ => True
  end.

Record kept (s : @state W A H P) (todo : list (@task H P)) : Prop := Kept {
  kept_good : good (app s) (world s);
  kept_clients : forall fd c, client_at s fd = Ret c -> client_may (app s) fd c;
  kept_tasks : Forall (task_may (app s)) todo;
}.

Definition kept_step (todo : list (@task H P)) : @state W A H P * list (@task H P) -> Prop := fun '(s, more) => kept s (more ++ todo).

Lemma client_yields s todo fd : kept s todo -> yields (client_may (app s) fd) (client_at s fd).
Proof. intros K c Hc. by apply (kept_clients _ _ K). Qed.

Lemma put_yields s todo fd c : kept s todo -> client_may (app s) fd c -> yields (fun s' => kept s' todo /\ app s' = app s) (put s fd c).
Proof.
  intros K Hc. unfold put. destruct (wr (cdata s) fd c) as [d| |] eqn:E; [|done|done]. cbn [mbind outcome_mbind]. apply yields_ret. split; [|done].
  destruct (decide (0 <= fd < zlen (cdata s))) as [Hr|Hr].
  - rewrite wr_in in E by done. injection E as <-. destruct K as [G C T]. split; [done| |done].
    intros fd' c' Hc'. change (client_at (upd s fd c) fd' = Ret c') in Hc'. destruct (rd_in _ _ Hr) as (c0 & Hc0 & _).
    destruct (client_at_upd_inv s fd c0 c fd' c' Hc0 Hc') as [[-> ->]|[_ Hold]]; [done|]. by apply C.
  - unfold wr in E. destruct (_ || _) eqn:Eb; [done|]. apply orb_false_elim in Eb as [? ?]. zbool. unfold zlen in Hr. lia.
Qed.

Lemma kept_same s s' todo : kept s todo -> cdata s' = cdata s -> app s' = app s -> world s' = world s -> kept s' todo.
Proof.
  intros [G C T] Ed Ea Ew. split; rewrite ?Ea, ?Ew; try done. intros fd c Hc. apply C. unfold client_at in *. by rewrite <- Ed.
Qed.

Lemma kept_push s more todo : kept s todo -> Forall (task_may (app s)) more -> kept s (more ++ todo).
Proof. intros [G C T] Hm. split; [done|done|]. by apply Forall_app. Qed.

Lemma kept_world s todo w : kept s todo -> good (app s) w -> kept (set_world s w) todo.
Proof. by intros [G C T] Hg. Qed.

(** a client is looked up and written back *)
Lemma update_yields (s : @state W A H P) todo fd (f : @eds_client H P -> outcome (@state W A H P * list (@task H P))) : kept s todo ->
  (forall c, client_may (app s) fd c -> yields (kept_step todo) (f c)) -> yields (kept_step todo) (c ← client_at s fd; f c).
Proof. intros K Hf. eapply yields_bind; [by apply (client_yields s todo)|exact Hf]. Qed.

Lemma put_step (s : @state W A H P) todo fd c (f : @state W A H P -> outcome (@state W A H P * list (@task H P))) : kept s todo -> client_may (app s) fd c ->
  (forall s', kept s' todo -> app s' = app s -> yields (kept_step todo) (f s')) -> yields (kept_step todo) (s' ← put s fd c; f s').
Proof. intros K Hc Hf. eapply yields_bind; [by apply (put_yields s todo)|]. intros s' [K' E]. by apply Hf. Qed.

Lemma none_may fd a : may_opt may None fd a.
Proof. by intros h [=]. Qed.

Lemma set_on_readable_kept s todo fd h fl : kept s todo -> may_opt may h fd (app s) -> yields (kept_step todo) (eds_client_set_on_readable s fd h fl).
Proof.
  intros K Hm. apply update_yields; [done|]. intros c [C1 C2 C3 C4 C5 C6]. destruct (is_removed c); [by apply yields_ret|]. destruct h as [h|].
  - apply put_step; [done|by split|]. intros s' K' E. apply yields_ret, kept_push; [by eapply kept_same|]. cbn [app set_rfds]. rewrite E.
    destruct (flag_set fl EDS_DEFER); [constructor|]. apply Forall_singleton. by apply Hm.
  - apply put_step; [done|by split|]. intros s' K' E. apply yields_ret. by apply (kept_same s').
Qed.

Lemma suspend_readable_kept s todo fd : kept s todo -> yields (kept_step todo) (eds_client_suspend_readable s fd).
Proof.
  intros K. apply update_yields; [done|]. intros c [C1 C2 C3 C4 C5 C6]. destruct (is_removed c); [by apply yields_ret|].
  apply put_step; [done|by split; try apply none_may|]. intros s' K' _. by apply yields_ret.
Qed.

Lemma clear_actions_kept s todo fd : kept s todo -> yields (kept_step todo) (eds_client_clear_actions s fd).
Proof.
  intros K. apply update_yields; [done|]. intros c [C1 C2 C3 C4 C5 C6].
  apply put_step; [done|by split; try apply none_may|]. intros s' K' _. apply yields_ret. by apply (kept_same s').
Qed.

Lemma set_on_writable_kept s todo fd h fl : kept s todo -> (forall h', h = Some (App h') -> may h' fd (app s)) -> yields (kept_step todo) (eds_client_set_on_writable s fd h fl).
Proof.
  intros K Hm. apply update_yields; [done|]. intros c [C1 C2 C3 C4 C5 C6]. destruct (is_removed c); [by apply yields_ret|].
  apply put_step; [done|by split|]. intros s' K' E. destruct h as [h|]; apply yields_ret; [|by apply (kept_same s')].
  apply kept_push; [by apply (kept_same s')|]. cbn [app set_wfds]. rewrite E. destruct (flag_set fl EDS_DEFER); [constructor|]. apply Forall_singleton.
  destruct h; [done|]. by apply Hm.
Qed.

Lemma send_kept s todo fd p len next : kept s todo -> (forall t, next = Some t -> may_trans may t fd (app s)) -> yields (kept_step todo) (eds_client_send s fd p len next).
Proof.
  intros K Hn. apply update_yields; [done|]. intros c [C1 C2 C3 C4 C5 C6]. apply put_step; [done| |].
  - split; try done. cbn. destruct next as [t|]; [by apply Hn|]. split; apply none_may.
  - intros s' K' E. by apply set_on_writable_kept.
Qed.

Lemma add_client_kept s todo fd acts fl : kept s todo -> may_actions acts fd (app s) -> yields (kept_step todo) (eds_service_add_client svc s fd acts fl).
Proof.
  intros K (A1 & A2 & A3 & A4). unfold eds_service_add_client.
  assert (Hio : forall (b : bool) s w, kept s todo -> good (app s) w -> kept (if b then s else set_world s w) todo) by (intros [] s0 w0 K0 ?; [done|by apply kept_world]).
  assert (Happ : forall (b : bool) (s : @state W A H P) w, app (if b then s else set_world s w) = app s) by (by intros []).
  assert (Hbit : forall x y z s0 v, kept s0 todo -> good (app s0) (set_bit x y z (world s0) fd v).1).
  { intros x y z s0 v K0. unfold set_bit. pose proof (s_kernel SL _ _ (kept_good _ _ K0)) as (_ & _ & _ & _ & _ & Hf). specialize (Hf fd x 0).
    destruct (fcntl (world s0) fd x 0) as [w1 fl1]. cbn [fst] in Hf. destruct (negb _); [|done]. pose proof (s_kernel SL _ _ Hf) as (_ & _ & _ & _ & _ & Hf2).
    match goal with |- context [fcntl w1 fd y ?n] => specialize (Hf2 fd y n); destruct (fcntl w1 fd y n) end. done. }
  set (s1 := if flag_set fl EDS_ACLI_NOSET_NOBLOCK then s else _). assert (K1 : kept s1 todo) by (apply Hio; [done|by apply Hbit]). assert (E1 : app s1 = app s) by apply Happ.
  set (s2 := if flag_set fl EDS_ACLI_NOSET_CLOEXEC then s1 else _). assert (K2 : kept s2 todo) by (apply Hio; [done|by apply Hbit]). assert (E2 : app s2 = app s) by (by rewrite <- E1; apply Happ).
  clearbody s2. set (s3 := if maxfd s2 <? fd then _ else _). assert (K3 : kept s3 todo) by (unfold s3; destruct (_ <? _); [by apply (kept_same s2)|done]).
  assert (E3 : app s3 = app s) by (unfold s3; by destruct (_ <? _)). clearbody s3.
  apply update_yields; [done|]. intros c _. apply put_step; [done| |].
  - rewrite E3. split; try done; cbn [on_writable].
    intros h Eh. destruct (a_writable acts) as [h'|]; [|done]. injection Eh as ->. by apply A2.
  - intros s4 K4 E4. apply yields_ret. cbn [kept_step app]. assert (K5 : forall s5, kept s5 todo -> kept (if u32 (nfds svc - 1) <=? fd then set_rfds s5 (rfds s5 ∖ {[cmdfd svc]}) else s5) todo).
    { intros s5 K5. destruct (_ <=? _); [by apply (kept_same s5)|done]. }
    apply K5. destruct (a_readable acts), (a_writable acts); try done; by apply (kept_same s4).
Qed.

Lemma set_ticker_kept s todo fd h : kept s todo -> may_opt may h fd (app s) -> yields (kept_step todo) (eds_client_set_ticker svc s fd h).
Proof.
  intros K Hm. unfold eds_client_set_ticker. destruct (tick_slice_us svc =? 0); [by apply yields_ret|]. apply update_yields; [done|]. intros c [C1 C2 C3 C4 C5 C6].
  apply put_step; [done|by split|]. intros s' K' _. apply yields_ret. by apply (kept_same s').
Qed.

Lemma remove_client_kept s todo fd : kept s todo -> yields (kept_step todo) (eds_service_remove_client s fd).
Proof.
  intros K. apply update_yields; [done|]. intros c [C1 C2 C3 C4 C5 C6]. destruct (is_removed c); [by apply yields_ret|].
  apply put_step; [done|by split|]. intros s' K' E. apply yields_ret, kept_push; [done|]. rewrite E. destruct (on_done c) as [h|]; repeat constructor. by apply C3.
Qed.

Lemma finish_remove_kept s todo fd : kept s todo -> yields (kept_step todo) (finish_remove svc s fd).
Proof.
  intros K. apply update_yields; [done|]. intros c [C1 C2 C3 C4 C5 C6]. set (s1 := set_ntickers s _). assert (K1 : kept s1 todo) by (by apply (kept_same s)).
  change (app s) with (app s1) in *. clearbody s1. set (s2 := set_world s1 _).
  assert (K2 : kept s2 todo) by (apply kept_world; [done|]; destruct (flag_set _ _); [by apply kept_good in K1|by apply (s_kernel SL _ _ (kept_good _ _ K1))]).
  change (app s1) with (app s2) in *. clearbody s2. apply put_step; [done| |].
  - destruct (flag_set _ _); by split; try apply none_may.
  - intros s' K' _. apply yields_ret. by apply (kept_same s').
Qed.

Lemma do_cmd_kept s todo c : kept s todo -> may_cmd (app s) c -> yields (kept_step todo) (do_cmd svc s c).
Proof.
  intros K Hm. destruct c as [fd h fl|fd h fl|fd|fd|fd p n next|fd acts fl|fd h|fd|fd|]; cbn [do_cmd may_cmd] in *.
  - by apply set_on_readable_kept.
  - apply set_on_writable_kept; [done|]. intros h' Eh. destruct h as [h|]; [|done]. injection Eh as ->. by apply Hm.
  - by apply suspend_readable_kept.
  - by apply clear_actions_kept.
  - by apply send_kept.
  - by apply add_client_kept.
  - by apply set_ticker_kept.
  - apply update_yields; [done|]. intros c [C1 C2 C3 C4 C5 C6]. apply put_step; [done|by split|]. intros s' K' _. by apply yields_ret.
  - by apply remove_client_kept.
  - apply yields_ret. by apply (kept_same s).
Qed.

(** a handler that is called when what the service keeps does not hold *)
Lemma called_kept s todo h fd : (forall fd c, client_at s fd = Ret c -> client_may (app s) fd c) -> Forall (task_may (app s)) todo ->
  yields (safe_result (app s)) (body h fd (app s) (world s)) -> yields (kept_step todo) (call_app body s h fd).
Proof.
  intros C T Hb. unfold call_app. eapply yields_bind; [exact Hb|]. intros [[a w] cmds] (Hg & Hgrow & Hc). apply yields_ret, kept_push.
  - split; [done| |].
    + intros fd' c Hc'. destruct (C fd' c Hc') as [C1 C2 C3 C4 C5 [C6 C7]]. split; [intros x E|intros x E|intros x E|intros x E|intros x E|split; intros x E]; cbn [app set_app]; eauto.
    + eapply Forall_impl; [exact T|]. intros [d|[|h'] fd'|fd'|fd'|fd'|h' fd'|fd']; cbn [task_may app set_app]; try done; [|by apply Hgrow|by apply Hgrow].
      destruct d as [fd' h' fl|fd' h' fl|fd'|fd'|fd' p n next|fd' acts fl|fd' h'|fd'|fd'|]; cbn [may_cmd]; try done; try (intros Hd x E; by eapply Hgrow, Hd).
      * intros Hd t E. destruct (Hd t E) as [H1 H2]. split; intros x Ex; eauto.
      * intros (A1 & A2 & A3 & A4). split_and!; intros x E; eauto.
  - apply Forall_fmap. by eapply Forall_impl.
Qed.

Lemma call_app_kept s todo h fd : kept s todo -> may h fd (app s) -> yields (kept_step todo) (call_app body s h fd).
Proof. intros [G C T] Hm. apply called_kept; [done|done|]. by apply (s_body SL). Qed.

Lemma do_task_kept s todo t : kept s (t :: todo) -> yields (kept_step todo) (do_task svc body load s t).
Proof.
  intros [G C T]. apply Forall_cons in T as [Ht T]. assert (K : kept s todo) by (by split). destruct t as [c|[|h] fd|fd|fd|fd|h fd|fd]; cbn [do_task task_may] in *.
  - by apply do_cmd_kept.
  - apply update_yields; [done|]. intros c _. apply yields_ret, kept_push; [done|]. by destruct (_ =? 0); apply Forall_singleton.
  - by apply call_app_kept.
  - apply update_yields; [done|]. intros c [C1 C2 C3 C4 C5 C6]. destruct (wrdata c) as [[p off]|]; [|done].
    destruct (load (app s) p off (wrdatalen c)) as [bs| |]; [|done|done]. cbn [mbind outcome_mbind].
    pose proof (s_kernel SL _ _ G) as (_ & _ & Hw & _). specialize (Hw fd bs). destruct (write (world s) fd bs) as [w ret]. cbn [fst] in Hw.
    assert (K1 : kept (set_world s w) todo) by (by apply kept_world). destruct ret as [n|e].
    + apply put_step; [done|by split|]. intros s' K' _. apply yields_ret, kept_push; [done|]. destruct (0 <? _); by repeat constructor.
    + destruct (e =? EINTR); [apply yields_ret, kept_push; [done|by repeat constructor]|]. destruct (is_again e); [by apply yields_ret|].
      apply yields_ret, kept_push; [done|by repeat constructor].
  - apply update_yields; [done|]. intros c [C1 C2 C3 C4 C5 [C6 C7]]. destruct (flag_set _ _); [|apply yields_ret, kept_push; [done|by repeat constructor]].
    apply put_step; [done|by split|]. intros s' K' E. apply yields_ret, kept_push; [done|]. rewrite E. by repeat constructor.
  - apply update_yields; [done|]. intros c [C1 C2 C3 C4 C5 [C6 C7]]. destruct (flag_set _ _); [|by apply yields_ret].
    apply put_step; [done|by split|]. intros s' K' E. apply yields_ret, kept_push; [done|]. rewrite E. by repeat constructor.
  - by apply call_app_kept.
  - by apply finish_remove_kept.
Qed.

Lemma run_kept fuel : forall s todo, kept s todo -> yields (fun s' => kept s' []) (run svc body load fuel s todo).
Proof.
  induction fuel as [|fuel IH]; intros s todo K; cbn [run]; [done|]. destruct todo as [|t todo]; [by apply yields_ret|].
  eapply yields_bind; [by apply do_task_kept|]. intros [s' more]. apply IH.
Qed.

Definition keeps (s : @state W A H P) : Prop := kept s [].

Lemma run_one fuel s t : keeps s -> task_may (app s) t -> yields keeps (run svc body load fuel s [t]).
Proof. intros [G C _] Ht. apply run_kept. split; [done|done|by apply Forall_singleton]. Qed.

Lemma client_keeps {B} (Q : B -> Prop) (s : @state W A H P) fd (f : @eds_client H P -> outcome B) : keeps s ->
  (forall c, client_may (app s) fd c -> yields Q (f c)) -> yields Q (c ← client_at s fd; f c).
Proof. intros K Hf. eapply yields_bind; [by apply (client_yields s [])|exact Hf]. Qed.

Lemma bind_keeps {B} (Q : B -> Prop) (r : outcome (@state W A H P)) (f : @state W A H P -> outcome B) : yields keeps r -> (forall s, keeps s -> yields Q (f s)) -> yields Q (r ≫= f).
Proof. apply yields_bind. Qed.

Lemma keeps_kernel s w : keeps s -> good (app s) w -> keeps (set_world s w).
Proof. apply kept_world. Qed.

Lemma call_keeps fuel s h fd : keeps s -> may_opt may h fd (app s) -> yields keeps match h with Some h => run svc body load fuel s [Call (App h) fd] | None => Ret s end.
Proof. intros K Hm. destruct h as [h|]; [|by apply yields_ret]. apply run_one; [done|]. by apply Hm. Qed.

Lemma remove_done_keeps fuel s fd : keeps s -> yields keeps (remove_done svc body load fuel s fd).
Proof. intros K. apply client_keeps; [done|]. intros c _. destruct (is_done c); [by apply run_one|by apply yields_ret]. Qed.

Lemma serve_fd_keeps fuel r w s fd : keeps s -> yields keeps (serve_fd svc body load fuel r w s fd).
Proof.
  intros K. apply client_keeps; [done|]. intros c Cm. destruct (is_removed c); [by apply yields_ret|]. apply bind_keeps.
  { destruct (on_readable c) as [h|] eqn:E; [|by apply yields_ret]. destruct (bool_decide _); [|by apply yields_ret]. apply run_one; [done|]. by apply (m_readable _ _ _ Cm). }
  intros s1 K1. apply client_keeps; [done|]. intros c1 Cm1. destruct (is_removed c1); [by apply yields_ret|]. apply bind_keeps.
  { destruct (on_writable c1) as [h|] eqn:E; [|by apply yields_ret]. destruct (bool_decide _); [|by apply yields_ret]. apply run_one; [done|]. destruct h; [done|].
    by apply (m_writable _ _ _ Cm1). }
  intros s2 K2. by apply remove_done_keeps.
Qed.

Lemma word_loop_keeps fuel r w n : forall s num fd, keeps s -> yields (fun x => keeps x.1) (word_loop svc body load n fuel r w s num fd).
Proof.
  induction n as [|n IH]; intros s num fd K; cbn [word_loop]; [by apply yields_ret|]. destruct (0 <? num); [|by apply yields_ret].
  destruct (_ || _); [|by apply IH]. apply bind_keeps; [by apply serve_fd_keeps|]. intros s1 K1. by apply IH.
Qed.

Lemma words_loop_keeps fuel r w n : forall s num i, keeps s -> yields keeps (words_loop svc body load n fuel r w s num i).
Proof.
  induction n as [|n IH]; intros s num i K; cbn [words_loop]; [by apply yields_ret|]. destruct (0 <? num); [|by apply yields_ret].
  destruct (_ && _); [by apply IH|]. eapply yields_bind; [by apply word_loop_keeps|]. intros [s1 k] K1. by apply IH.
Qed.

Lemma tickers_loop_keeps fuel n : forall s left i, keeps s -> yields keeps (tickers_loop svc body load n fuel s left i).
Proof.
  induction n as [|n IH]; intros s left i K; cbn [tickers_loop]; [by apply yields_ret|]. destruct (_ && _); [|by apply yields_ret].
  apply client_keeps; [done|]. intros c Cm. destruct (ticker c) as [h|] eqn:E; [|by apply IH].
  apply bind_keeps; [apply run_one; [done|]; by apply (m_ticker _ _ _ Cm)|]. intros s1 K1.
  apply bind_keeps; [by apply remove_done_keeps|]. intros s2 K2. by apply IH.
Qed.

Lemma reaped_loop_keeps fuel h n : forall s i, keeps s -> (forall fd a, may h fd a) -> yields keeps (reaped_loop svc body load n fuel s h i).
Proof.
  induction n as [|n IH]; intros s i K Hm; cbn [reaped_loop]; [done|]. destruct (_ <? _); [|by apply yields_ret].
  apply client_keeps; [done|]. intros c _. apply bind_keeps; [|by intros s1 K1; apply IH].
  destruct (flag_set _ _); [|by apply yields_ret]. apply run_one; [done|]. by apply Hm.
Qed.

Lemma reaped_keeps fuel s pid st : (forall fd c, client_at s fd = Ret c -> client_may (app s) fd c) -> reaped pid (app s) (world s) ->
  yields keeps match on_svc_reaped_child svc with Some f => run svc body load fuel s [Call (App (f pid st)) (-1)] | None => Ret s end.
Proof.
  intros C Hr. pose proof (s_reaped SL pid st _ _ Hr) as Hb. destruct (on_svc_reaped_child svc) as [f|]; [|by apply yields_ret; split].
  destruct fuel as [|fuel]; cbn [run]; [done|]. eapply yields_bind; [by apply (called_kept s [])|]. intros [s' more]. apply run_kept.
Qed.

Lemma reap_keeps fuel : forall s, keeps s -> yields keeps (reap_listener_children svc body load fuel s).
Proof.
  induction fuel as [|fuel IH]; intros s K; cbn [reap_listener_children]; [done|]. pose proof (s_waitpid SL _ _ (kept_good _ _ K)) as Hw.
  destruct (waitpid (world s)) as [w r]. destruct r as [[pid st]|e].
  - destruct (0 <? pid); [|apply yields_ret; by apply keeps_kernel]. apply bind_keeps; [apply reaped_keeps; [by apply (kept_clients _ _ K)|done]|]. intros s1 K1.
    apply bind_keeps; [|apply IH]. destruct (on_cli_reaped_child svc) as [f|] eqn:E; [|by apply yields_ret]. apply reaped_loop_keeps; [done|].
    intros fd a. by apply (s_cli_reaped SL).
  - assert (K1 : keeps (set_world s w)) by (by apply keeps_kernel). destruct (e =? EINTR); [by apply IH|by apply yields_ret].
Qed.

Lemma serve_ticks_keeps fuel s last : keeps s -> yields (fun x => keeps x.1) (serve_ticks svc body load fuel s last).
Proof.
  intros K. unfold serve_ticks. destruct (_ || _); [|by apply yields_ret]. pose proof (s_kernel SL _ _ (kept_good _ _ K)) as (_ & _ & _ & _ & Hw & _).
  destruct (clock_gettime (world s)) as [w now]. cbn [fst] in Hw. destruct (_ <=? _); [|apply yields_ret; by apply keeps_kernel].
  apply bind_keeps; [apply tickers_loop_keeps; by apply keeps_kernel|]. intros s1 K1.
  apply bind_keeps; [apply call_keeps; [done|]; by apply (s_tick SL (app s1))|]. intros s2 K2. by apply yields_ret.
Qed.

Lemma turn_keeps fuel s last sigchld : keeps s -> yields (fun x => keeps x.1.1) (turn svc body load fuel s last sigchld).
Proof.
  intros K. unfold turn. destruct (flag_set _ _); [by apply yields_ret|].
  apply bind_keeps; [destruct sigchld; [by apply reap_keeps|by apply yields_ret]|]. intros s1 K1.
  pose proof (s_kernel SL _ _ (kept_good _ _ K1)) as (_ & _ & _ & Hw & _). specialize (Hw (rfds s1) (wfds s1)).
  destruct (select (world s1) (rfds s1) (wfds s1)) as [w [[r wr]|e]]; cbn [fst] in Hw; [|apply yields_ret; by apply keeps_kernel].
  assert (K2 : keeps (set_world s1 w)) by (by apply keeps_kernel). clear K1 Hw. generalize dependent (set_world s1 w). intros s2 K2.
  assert (Hserve : forall s0 r0 n, keeps s0 -> yields (fun x => keeps x.1.1) (s ← words_loop svc body load 16 fuel r0 wr s0 n 0; '(s, last) ← serve_ticks svc body load fuel s last; Ret (s, last, Again))).
  { intros s0 r0 n K0. apply bind_keeps; [by apply words_loop_keeps|]. intros s3 K3. eapply yields_bind; [by apply serve_ticks_keeps|]. intros [s4 l4] K4. by apply yields_ret. }
  destruct (bool_decide _); [|by apply Hserve]. pose proof (s_kernel SL _ _ (kept_good _ _ K2)) as (Hacc & _).
  destruct (accept (world s2) (cmdfd svc)) as [w2 [fd|e]]; cbn [fst] in Hacc; [|apply yields_ret; by apply keeps_kernel].
  eapply yields_bind; [apply (add_client_kept _ []); [by apply keeps_kernel|apply (s_actions SL)]|]. intros [s3 more] K3.
  assert (K4 : keeps s3) by (destruct K3 as [G C _]; by split). destruct (_ && _); by apply Hserve.
Qed.

Lemma cleanup_keeps fuel n : forall s i, keeps s -> yields keeps (cleanup_loop svc body load n fuel s i).
Proof.
  induction n as [|n IH]; intros s i K; cbn [cleanup_loop]; [by apply yields_ret|]. apply bind_keeps; [destruct (_ && _); [by apply run_one|by apply yields_ret]|].
  intros s1 K1. apply client_keeps; [done|]. intros c Cm. apply bind_keeps; [|by intros s2 K2; apply IH]. apply call_keeps; [done|]. by apply (m_finalize _ _ _ Cm).
Qed.

Lemma initial_keeps a w : good a w -> keeps (initial svc a w).
Proof.
  intros Hg. split; [done| |constructor]. intros fd c [_ Hc]%client_at_range. cbn in Hc. apply lookup_replicate in Hc as [-> _]. split; try done; split; done.
Qed.

Lemma reachable_keeps a w s last : good a w -> reachable svc body load a w s last -> keeps s.
Proof.
  intros Hg. induction 1 as [|s last fuel sig s' last' _ IH E]; [by apply initial_keeps|]. exact (turn_keeps fuel s last sig IH _ E).
Qed.
End Safe.

Lemma turns_reachable {W A H P : Type} {SW : Sys W} {EW : EdsSys W} (svc : @eds_service H) body (load : A -> P -> Z -> Z -> outcome bytes) (a : A) (w : W) fuel sigs :
  forall s last s', reachable svc body load a w s last -> turns svc body load fuel s last sigs = Ret (s', Again) -> exists last', reachable svc body load a w s' last'.
Proof.
  induction sigs as [|sig sigs IH]; intros s last s' Hr; cbn [turns]; [intros [= <-]; by exists last|].
  destruct (turn svc body load fuel s last sig) as [[[s1 l1] [|st]]| |] eqn:E; cbn [mbind outcome_mbind]; [|done|done|done].
  apply IH. by eapply reach_turn.
Qed.
