(* ===== verification/Services.v ===== *)
(** * What the services share

    The messages of src/lib/ycl/ycl_msg.ycl, with which the daemons talk, and
    what they use of the C library and of the file system.

    A pointer to the bytes of a message stays valid until the buffer is
    reallocated, which changes its capacity. *)

From stdpp Require Import gmap.
From S2P Require Import Prelude CLib Buf Netstring Io Ycl YclMsg Eds.

Definition O_RDONLY : Z := 0.
Definition O_WRONLY : Z := 1.
Definition O_APPEND : Z := 8.
Definition O_CREAT : Z := 0x200.
Definition ENOENT : Z := 2.
Definition EACCES : Z := 13.
Definition EEXIST : Z := 17.

(** what [fts_read] returns of a file; times are in seconds *)
Inductive fts_info : Type := FTS_D | FTS_DP | FTS_F | FTS_NS | FTS_NSOK | FTS_OTHER.
Record ftsent : Type := Ftsent {
  info : fts_info;
  level : Z;
  ent_name : bytes;
  ent_path : bytes;
  st_size : Z;
  st_mtime : Z;
  st_ctime : Z;
}.

(** paths are C strings; an error is its [errno]; [now] is [time(NULL)] *)
Class Files (W : Type) : Type := {
  open : W -> bytes -> Z -> option Z -> W * (Z + Z);
  mkdir : W -> bytes -> Z -> W * option Z;
  now : W -> W * option Z;
}.

(** the C library: the text of an error, and extended regular expressions *)
Class Libc (R : Type) : Type := {
  strerror : Z -> bytes;
  regcomp : bytes -> option R;
  regexec : R -> bytes -> bool;
}.

(** the messages of src/lib/ycl/ycl_msg.ycl *)
Definition status_resp : list yclgen_field := [Field FT_DATA (lit "okmsg"); Field FT_DATA (lit "errmsg")].
Definition store_req_fields : list yclgen_field :=
  [Field FT_DATA (lit "action"); Field FT_DATA (lit "store_id"); Field FT_DATA (lit "list_must_match"); Field FT_LONG (lit "index");
   Field FT_DATA (lit "name"); Field FT_LONG (lit "indexed")].
Definition store_list : list yclgen_field := [Field FT_DATA (lit "errmsg"); Field FT_DATA (lit "entries")].
Definition store_entered_fields : list yclgen_field :=
  [Field FT_DATA (lit "action"); Field FT_DATA (lit "open_path"); Field FT_LONG (lit "open_flags"); Field FT_DATA (lit "rename_from"); Field FT_DATA (lit "rename_to")].

Definition knegd_req_fields : list yclgen_field :=
  [Field FT_LONG (lit "timeout"); Field FT_DATA (lit "action"); Field FT_DATA (lit "id"); Field FT_DATA (lit "name"); Field FT_DATA (lit "type")].

(** a member of a parsed message *)
Definition data_of (r : list parsed) (i : nat) : option Z * Z := match r !! i with Some (PData d l) => (d, l) | _ => (None, 0) end.
Definition long_of (r : list parsed) (i : nat) : Z := match r !! i with Some (PLong l) => l | _ => 0 end.

(** the bytes of the message of a client, with the capacity they had *)
Record pointer : Type := MsgBytes { owner : Z; cap_then : Z }.

(** the text, cut off at the size of the buffer *)
Definition snprintf (size : Z) (s : bytes) : bytes := take (Z.to_nat (size - 1)) s.

(** a string of a message *)
Definition str (m : bytes) (p : option Z) : outcome bytes := match p with Some p => cstr_at m p | None => OutOfBounds end.
Definition streq (m : bytes) (p : option Z) (s : bytes) : outcome bool := match p with Some p => streq_at m p s | None => OutOfBounds end.

(** ["%lu"], of at most twenty digits *)
Definition pct_lu (x : Z) : bytes := match dec_digits 20 x [] with Ret ds => snprintf 24 ds | _ => [] end.
