(* ===== verification/Prng.v ===== *)
(** * Pseudo-random numbers (src/lib/util/prng.c)

    The Mersenne twister, which computes 624 numbers at a time in place; the
    theorem is that it gives the numbers of its recurrence. *)

From S2P Require Import Prelude.

Definition MT_N : Z := 624.
Definition MT_M : Z := 397.
Definition UMASK : Z := 0x80000000.
Definition LMASK : Z := 0x7fffffff.

Record prng_ctx : Type := Prng { mt : list Z; mag : list Z; mti : Z }.

(** the elements from [k] on *)
Fixpoint init_loop (n : nat) (prev k : Z) : list Z :=
  match n with
  | O => []
  | S n => let x := u32 (u32 (1812433253 * Z.lxor prev (Z.shiftr prev 30)) + k) in x :: init_loop n x (k + 1)
  end.

Definition prng_init (seed : Z) : prng_ctx := Prng (seed :: init_loop 623 seed 1) [0; 0x9908b0df] MT_N.

(** a new [t[j]], of itself, the one that follows and another one *)
Definition generate (t mag : list Z) (j next other : Z) : outcome (list Z) :=
  a ← rd t j;
  b ← rd t next;
  let i := Z.lor (Z.land a UMASK) (Z.land b LMASK) in
  c ← rd t other;
  m ← rd mag (Z.land i 1);
  wr t j (Z.lxor (Z.lxor c (Z.shiftr i 1)) m).

Fixpoint generate_loop (n : nat) (t mag : list Z) (j d : Z) : outcome (list Z) :=
  match n with
  | O => Ret t
  | S n => t ← generate t mag j (j + 1) (j + d); generate_loop n t mag (j + 1) d
  end.

Definition regenerate (ctx : prng_ctx) : outcome prng_ctx :=
  t ← generate_loop (Z.to_nat (MT_N - MT_M)) (mt ctx) (mag ctx) 0 MT_M;
  t ← generate_loop (Z.to_nat (MT_M - 1)) t (mag ctx) (MT_N - MT_M) (MT_M - MT_N);
  t ← generate t (mag ctx) (MT_N - 1) 0 (MT_M - 1);
  Ret (Prng t (mag ctx) 0).

Definition temper (i : Z) : Z :=
  let i := Z.lxor i (Z.shiftr i 11) in
  let i := Z.lxor i (Z.land (u32 (Z.shiftl i 7)) 0x9d2c5680) in
  let i := Z.lxor i (Z.land (u32 (Z.shiftl i 15)) 0xefc60000) in
  Z.lxor i (Z.shiftr i 18).

Definition prng_uint32 (ctx : prng_ctx) : outcome (prng_ctx * Z) :=
  ctx ← (if MT_N <=? mti ctx then regenerate ctx else Ret ctx);
  x ← rd (mt ctx) (mti ctx);
  Ret (Prng (mt ctx) (mag ctx) (u16 (mti ctx + 1)), temper x).

Definition hex_syms : bytes := lit "0123456789abcdef".

(** the digits from [k] on *)
Fixpoint hex_loop (n : nat) (ctx : prng_ctx) (k rnd : Z) : outcome (prng_ctx * bytes) :=
  match n with
  | O => Ret (ctx, [])
  | S n =>
      '(ctx, rnd) ← (if Z.land k 7 =? 0 then prng_uint32 ctx else Ret (ctx, rnd));
      c ← rd hex_syms (Z.land (Z.shiftr rnd (4 * (7 - Z.land k 7))) 0x0f);
      '(ctx, cs) ← hex_loop n ctx (k + 1) rnd;
      Ret (ctx, c :: cs)
  end.

Definition prng_hex (ctx : prng_ctx) (len : Z) : outcome (prng_ctx * bytes) := hex_loop (Z.to_nat len) ctx 0 0.

(** ** The recurrence *)

(** the upper bit of a number and the lower bits of the next, times the matrix *)
Definition twist (a b : Z) : Z :=
  let y := Z.lor (Z.land a UMASK) (Z.land b LMASK) in
  Z.lxor (Z.shiftr y 1) (if Z.odd y then 0x9908b0df else 0).

(** [x n] of the sequence *)
Definition nth0 (x : list Z) (n : nat) : Z := nth n x 0.

(** the sequence that starts with [w], and [n] more numbers:
    [x (n + 624) = x (n + 397) + twist (x n) (x (n + 1))] *)
Fixpoint mt_sequence (w : list Z) (n : nat) : list Z :=
  match n with
  | O => w
  | S n => let x := mt_sequence w n in x ++ [Z.lxor (nth0 x (n + 397)) (twist (nth0 x n) (nth0 x (n + 1)))]
  end.

(** [n] calls *)
Fixpoint numbers (n : nat) (ctx : prng_ctx) : outcome (list Z) :=
  match n with
  | O => Ret []
  | S n => '(ctx, x) ← prng_uint32 ctx; l ← numbers n ctx; Ret (x :: l)
  end.

Section Recurrence.
Context (w : list Z) (Hw : length w = 624%nat).

Lemma sequence_length n : length (mt_sequence w n) = (624 + n)%nat.
Proof. induction n as [|n IH]; cbn [mt_sequence]; [lia|]. rewrite length_app, IH. cbn [length]. lia. Qed.

Lemma sequence_prefix n k m : (m < 624 + n)%nat -> nth0 (mt_sequence w (n + k)) m = nth0 (mt_sequence w n) m.
Proof.
  intros Hm. induction k as [|k IH]; [by rewrite Nat.add_0_r|]. rewrite Nat.add_succ_r. cbn [mt_sequence]. unfold nth0 in *.
  rewrite app_nth1; [exact IH|]. rewrite sequence_length. lia.
Qed.

Definition mt_x (n : nat) : Z := nth0 (mt_sequence w n) n.

Lemma sequence_x n m : (m < 624 + n)%nat -> nth0 (mt_sequence w n) m = mt_x m.
Proof.
  intros Hm. unfold mt_x. destruct (Nat.le_ge_cases m n) as [H|H].
  - replace n with (m + (n - m))%nat by lia. apply sequence_prefix. lia.
  - replace m with (n + (m - n))%nat at 2 by lia. symmetry. by apply sequence_prefix.
Qed.

Lemma x_recurrence n : mt_x (n + 624) = Z.lxor (mt_x (n + 397)) (twist (mt_x n) (mt_x (n + 1))).
Proof.
  rewrite <- (sequence_x (S n) (n + 624)) by lia. cbn [mt_sequence]. unfold nth0 at 1.
  rewrite app_nth2 by (rewrite sequence_length; lia). replace (n + 624 - length (mt_sequence w n))%nat with 0%nat by (rewrite sequence_length; lia).
  cbn [nth]. by rewrite !sequence_x by lia.
Qed.

Lemma sequence_map n : mt_sequence w n = map mt_x (seq 0 (624 + n)).
Proof.
  apply (nth_ext _ _ 0 0).
  - by rewrite sequence_length, length_map, length_seq.
  - intros k Hk. rewrite sequence_length in Hk. change (nth k (mt_sequence w n) 0) with (nth0 (mt_sequence w n) k). rewrite sequence_x by done.
    rewrite (nth_indep _ 0 (mt_x 0)) by (rewrite length_map, length_seq; lia). by rewrite map_nth, seq_nth by lia.
Qed.

Lemma rd_nth0 (l : list Z) k : (k < length l)%nat -> rd l (Z.of_nat k) = Ret (nth0 l k).
Proof. intros Hk. apply rd_ret. split; [lia|]. rewrite Nat2Z.id. unfold nth0. destruct (nth_lookup_or_length l k 0); [done|lia]. Qed.

Lemma nth0_insert (l : list Z) j k y : (j < length l)%nat -> nth0 (<[j := y]> l) k = if decide (k = j) then y else nth0 l k.
Proof.
  intros Hj. unfold nth0. rewrite !nth_lookup. destruct (decide (k = j)) as [->|Hne]; [by rewrite list_lookup_insert_eq|by rewrite list_lookup_insert_ne].
Qed.

(** the array when [j] of the numbers from [x m] on are replaced *)
Definition block (t : list Z) (m j : nat) : Prop :=
  length t = 624%nat /\ forall k, (k < 624)%nat -> nth0 t k = mt_x (m + (if decide (k < j)%nat then 624 else 0) + k).

Definition matrix : list Z := [0; 0x9908b0df].

Lemma generate_spec t m j next other : block t m j -> (j < 624)%nat -> (next < 624)%nat -> (other < 624)%nat ->
  nth0 t next = mt_x (m + j + 1) -> nth0 t other = mt_x (m + j + 397) ->
  exists t', generate t matrix (Z.of_nat j) (Z.of_nat next) (Z.of_nat other) = Ret t' /\ block t' m (S j).
Proof.
  intros [Hl Hb] Hj Hn Ho En Eo. unfold generate. rewrite !rd_nth0 by lia. cbn [mbind outcome_mbind]. rewrite En, Eo.
  assert (Ej : nth0 t j = mt_x (m + j)) by (rewrite Hb by done; destruct (decide (j < j)%nat); [lia|f_equal; lia]). rewrite Ej.
  set (y := Z.lor _ _). assert (Hm : rd matrix (Z.land y 1) = Ret (if Z.odd y then 0x9908b0df else 0)).
  { change (Z.land y 1) with (Z.land y (Z.ones 1)). rewrite Z.land_ones by lia. change (2 ^ 1) with 2. rewrite Zmod_odd. by destruct (Z.odd y). }
  rewrite Hm. cbn [mbind outcome_mbind]. rewrite wr_in by (unfold zlen; lia). eexists. split; [done|]. rewrite Nat2Z.id. split; [by rewrite length_insert|].
  intros k Hk. rewrite nth0_insert by lia. destruct (decide (k = j)) as [->|Hne].
  - destruct (decide (j < S j)%nat); [|lia]. replace (m + 624 + j)%nat with (m + j + 624)%nat by lia. rewrite x_recurrence. unfold twist. fold y. by rewrite Z.lxor_assoc.
  - rewrite Hb by done. destruct (decide (k < j)%nat), (decide (k < S j)%nat); try done; lia.
Qed.

(** both of the loops: [d] is 397, and what is read is not replaced, or
    397 - 624, and it is *)
Lemma generate_loop_spec n : forall t m j d, block t m j -> (j + n < 624)%nat ->
  (forall k, (j <= k < j + n)%nat -> 0 <= Z.of_nat k + d < 624 /\
     (d = 397 \/ d = 397 - 624)) ->
  exists t', generate_loop n t matrix (Z.of_nat j) d = Ret t' /\ block t' m (j + n).
Proof.
  induction n as [|n IH]; intros t m j d Hb Hn Hd; cbn [generate_loop]; [rewrite Nat.add_0_r; by exists t|]. destruct (Hd j ltac:(lia)) as [Hr Hd'].
  replace (Z.of_nat j + 1) with (Z.of_nat (j + 1)) by lia. replace (Z.of_nat j + d) with (Z.of_nat (Z.to_nat (Z.of_nat j + d))) by lia.
  destruct (generate_spec t m j (j + 1) (Z.to_nat (Z.of_nat j + d)) Hb) as (t1 & -> & Hb1); try lia.
  - destruct Hb as [_ Hb]. rewrite Hb by lia. destruct (decide (j + 1 < j)%nat); [lia|f_equal; lia].
  - destruct Hb as [_ Hb]. rewrite Hb by lia. destruct Hd' as [-> | ->]; (destruct (decide _); [f_equal; lia|f_equal; lia]) || idtac.
  - cbn [mbind outcome_mbind]. replace (j + S n)%nat with (j + 1 + n)%nat by lia. apply IH; [by rewrite Nat.add_1_r|lia|]. intros k Hk. apply Hd. lia.
Qed.

(** the next number is [x p] *)
Definition reading (ctx : prng_ctx) (p : nat) : Prop :=
  mag ctx = matrix /\ 0 <= mti ctx <= 624 /\ exists m, block (mt ctx) m 0 /\ Z.of_nat p = Z.of_nat m + mti ctx.

Lemma regenerate_spec ctx m : mag ctx = matrix -> block (mt ctx) m 0 -> exists ctx', regenerate ctx = Ret ctx' /\ mag ctx' = matrix /\ mti ctx' = 0 /\ block (mt ctx') (m + 624) 0.
Proof.
  intros Hm Hb. unfold regenerate. rewrite Hm.
  destruct (generate_loop_spec 227 (mt ctx) m 0 397 Hb) as (t1 & E1 & Hb1); [lia|lia|]. change (generate_loop (Z.to_nat (MT_N - MT_M)) (mt ctx) matrix 0 MT_M) with (generate_loop 227 (mt ctx) matrix (Z.of_nat 0) 397). rewrite E1. cbn [mbind outcome_mbind].
  destruct (generate_loop_spec 396 t1 m 227 (397 - 624) Hb1) as (t2 & E2 & Hb2); [lia|lia|]. change (generate_loop (Z.to_nat (MT_M - 1)) t1 matrix (MT_N - MT_M) (MT_M - MT_N)) with (generate_loop 396 t1 matrix (Z.of_nat 227) (397 - 624)). rewrite E2. cbn [mbind outcome_mbind].
  destruct (generate_spec t2 m 623 0 396 Hb2) as (t3 & E3 & Hb3); try lia.
  - destruct Hb2 as [_ Hb2]. rewrite Hb2 by lia. destruct (decide _); [f_equal; lia|lia].
  - destruct Hb2 as [_ Hb2]. rewrite Hb2 by lia. destruct (decide _); [f_equal; lia|lia].
  - change (generate t2 matrix (MT_N - 1) 0 (MT_M - 1)) with (generate t2 matrix (Z.of_nat 623) (Z.of_nat 0) (Z.of_nat 396)). rewrite E3. cbn [mbind outcome_mbind].
    eexists. split; [done|]. split; [done|]. split; [done|]. destruct Hb3 as [Hl Hb3]. split; [done|]. intros k Hk. cbn [mt]. rewrite Hb3 by done.
    destruct (decide (k < 624)%nat), (decide (k < 0)%nat); try lia. f_equal. lia.
Qed.

Lemma prng_uint32_spec ctx p : reading ctx p -> exists ctx', prng_uint32 ctx = Ret (ctx', temper (mt_x p)) /\ reading ctx' (S p).
Proof.
  intros (Hm & Hi & m & Hb & Hp). unfold prng_uint32.
  assert (Hc : exists ctx1 m1, (if MT_N <=? mti ctx then regenerate ctx else Ret ctx) = Ret ctx1 /\ mag ctx1 = matrix /\ 0 <= mti ctx1 < 624 /\ block (mt ctx1) m1 0 /\ Z.of_nat p = Z.of_nat m1 + mti ctx1).
  { destruct (Z.leb_spec MT_N (mti ctx)) as [Hn|Hn]; unfold MT_N in Hn.
    - destruct (regenerate_spec ctx m Hm Hb) as (ctx1 & -> & Hm1 & Hi1 & Hb1). exists ctx1, (m + 624)%nat. split; [done|]. split; [done|]. split; [lia|]. split; [done|]. lia.
    - exists ctx, m. split; [done|]. split; [done|]. split; [lia|]. by split. }
  destruct Hc as (ctx1 & m1 & -> & Hm1 & Hi1 & Hb1 & Hp1). cbn [mbind outcome_mbind]. destruct Hb1 as [Hl Hb1].
  assert (Hrd : rd (mt ctx1) (mti ctx1) = Ret (mt_x p)).
  { rewrite <- (Z2Nat.id (mti ctx1)), rd_nth0 by lia. rewrite Hb1 by lia. destruct (decide _); [lia|]. do 2 f_equal. lia. }
  rewrite Hrd. cbn [mbind outcome_mbind]. eexists. split; [done|].
  rewrite uw_small by lia. split; [done|]. cbn [mti mt]. split; [lia|]. exists m1. split; [by split|lia].
Qed.

Lemma numbers_spec n : forall ctx p, reading ctx p -> numbers n ctx = Ret (map (fun k => temper (mt_x k)) (seq p n)).
Proof.
  induction n as [|n IH]; intros ctx p Hr; cbn [numbers]; [done|]. destruct (prng_uint32_spec ctx p Hr) as (ctx1 & -> & Hr1). cbn [mbind outcome_mbind].
  by rewrite (IH ctx1 (S p) Hr1).
Qed.
End Recurrence.

Lemma init_loop_length n : forall prev k, length (init_loop n prev k) = n.
Proof. induction n as [|n IH]; intros prev k; cbn [init_loop length]; [done|by rewrite IH]. Qed.

Lemma init_length seed : length (mt (prng_init seed)) = 624%nat.
Proof. cbn [prng_init mt length]. by rewrite init_loop_length. Qed.

Lemma init_reading seed : reading (mt (prng_init seed)) (prng_init seed) 624.
Proof.
  split; [done|]. split; [cbn [prng_init mti]; unfold MT_N; lia|]. exists 0%nat. split; [|done]. split; [apply init_length|]. intros k Hk.
  destruct (decide (k < 0)%nat); [lia|]. rewrite <- (sequence_x _ (init_length seed) 0) by lia. done.
Qed.

(** C37: the numbers are those of the recurrence of the Mersenne twister,
    tempered, from the 625th on, although they are computed in place and many
    at a time. *)
Theorem prng_recurrence seed n : numbers n (prng_init seed) = Ret (map temper (drop 624 (mt_sequence (mt (prng_init seed)) n))).
Proof.
  rewrite (numbers_spec _ (init_length seed) n _ 624 (init_reading seed)). rewrite sequence_map by apply init_length.
  rewrite seq_app, map_app, drop_app_length' by (by rewrite length_map, length_seq). by rewrite map_map.
Qed.

Lemma hex_loop_spec w (Hw : length w = 624%nat) n : forall ctx p k rnd, reading w ctx p -> 0 <= k ->
  exists ctx' q ds, hex_loop n ctx k rnd = Ret (ctx', ds) /\ reading w ctx' q /\ length ds = n /\ Forall (fun c => c ∈ hex_syms) ds.
Proof.
  induction n as [|n IH]; intros ctx p k rnd Hr Hk; cbn [hex_loop]; [by exists ctx, p, []|].
  assert (Hc : exists ctx1 q r, (if Z.land k 7 =? 0 then prng_uint32 ctx else Ret (ctx, rnd)) = Ret (ctx1, r) /\ reading w ctx1 q).
  { destruct (_ =? 0); [|by exists ctx, p, rnd]. destruct (prng_uint32_spec w Hw ctx p Hr) as (ctx1 & -> & Hr1). by eexists ctx1, _, _. }
  destruct Hc as (ctx1 & q & r & -> & Hr1). cbn [mbind outcome_mbind].
  assert (Hs : 0 <= Z.land (Z.shiftr r (4 * (7 - Z.land k 7))) 15 < 16) by (rewrite (land_mask 4) by lia; apply Z.mod_pos_bound; lia).
  destruct (rd_in hex_syms (Z.land (Z.shiftr r (4 * (7 - Z.land k 7))) 15)) as (c & -> & Hc); [exact Hs|]. cbn [mbind outcome_mbind].
  destruct (IH ctx1 q (k + 1) r Hr1 ltac:(lia)) as (ctx2 & q2 & ds & -> & Hr2 & Hl & Hd). cbn [mbind outcome_mbind].
  exists ctx2, q2, (c :: ds). split; [done|]. split; [done|]. cbn [length]. split; [by rewrite Hl|]. constructor; [|done]. by eapply list_elem_of_lookup_2.
Qed.
