(* ===== verification/Sindex.v ===== *)
(** * The index of the store (src/lib/util/sindex.c)

    A file of entries of a fixed size, appended at the end and read from there
    backwards.  The file is its bytes; whether the system calls succeed is told. *)

From S2P Require Import Prelude CLib.

Definition SINDEX_IDSZ : Z := 20.
Definition SINDEX_NAMESZ : Z := 44.
Definition SINDEX_MAGIC : Z := 0x29a.

(** [magic] is set by [sindex_put]; [rest] is the bytes of [reserved0] and the
    padding behind it, which are written as they are *)
Record sindex_entry : Type := Sindex_entry {
  indexed : Z;
  id : bytes;
  name : bytes;
  magic : Z;
  rest : bytes;
}.

Definition ENTRY_SIZE : Z := 80.

(** the object in memory *)
Definition entry_bytes (e : sindex_entry) : bytes :=
  reverse (be_bytes 8 (u64 (indexed e))) ++ id e ++ name e ++ reverse (be_bytes 2 (u16 (magic e))) ++ rest e.

Definition entry_of (bs : bytes) : sindex_entry :=
  Sindex_entry (i64 (be_val (reverse (take 8 bs)))) (take 20 (drop 8 bs)) (take 44 (drop 28 bs)) (be_val (reverse (take 2 (drop 72 bs)))) (take 6 (drop 74 bs)).

(** the file and the result; when [fwrite] or [fflush] fails some of the bytes
    may have reached the file *)
Definition sindex_put (failed : option bytes) (file : bytes) (e : sindex_entry) : bytes * Z :=
  let e := Sindex_entry (indexed e) (id e) (name e) SINDEX_MAGIC (rest e) in
  match failed with
  | Some part => (file ++ part, -1)
  | None => (file ++ entry_bytes e, 0)
  end.

Definition get_nelems (stat_ok : bool) (file : bytes) : Z :=
  if negb stat_ok then -1
  else if negb (zlen file mod ENTRY_SIZE =? 0) then -1
  else zlen file / ENTRY_SIZE.

(** [n] entries from an offset on, as far as they are there *)
Fixpoint fread (n : nat) (file : bytes) (off : Z) : list sindex_entry :=
  match n with
  | O => []
  | S n => if off + ENTRY_SIZE <=? zlen file then entry_of (take 80 (drop (Z.to_nat off) file)) :: fread n file (off + ENTRY_SIZE) else []
  end.

(** the result, the entries and [*last], which is not always set *)
Definition sindex_get (stat_ok seek_ok : bool) (file : bytes) (nelems before : Z) : Z * list sindex_entry * option Z :=
  let nelems_index := get_nelems stat_ok file in
  if nelems_index <? 0 then (-1, [], None)
  else
    let before := if before =? 0 then nelems_index else Z.min before nelems_index in
    let nelems := Z.min nelems before in
    if nelems =? 0 then (0, [], None)
    else
      let off := before - nelems in
      if negb seek_ok then (-1, [], None)
      else
        let elems := fread (Z.to_nat nelems) file (off * ENTRY_SIZE) in
        (zlen elems, elems, Some (before - zlen elems)).

(** ** Entries *)

Record wf_entry (e : sindex_entry) : Prop := WfEntry {
  wf_indexed : - 2 ^ 63 <= indexed e < 2 ^ 63;
  wf_id : zlen (id e) = SINDEX_IDSZ;
  wf_name : zlen (name e) = SINDEX_NAMESZ;
  wf_magic : magic e = SINDEX_MAGIC;
  wf_rest : zlen (rest e) = 6;
}.

Lemma entry_bytes_length e : wf_entry e -> length (entry_bytes e) = 80%nat.
Proof.
  intros [_ Hi Hn _ Hr]. unfold zlen, SINDEX_IDSZ, SINDEX_NAMESZ in *. unfold entry_bytes. rewrite !length_app, !length_reverse, !be_bytes_length. cbn [length]. lia.
Qed.

Lemma entry_of_bytes e : wf_entry e -> entry_of (entry_bytes e) = e.
Proof.
  intros [Hx Hi Hn Hm Hr]. unfold zlen, SINDEX_IDSZ, SINDEX_NAMESZ in *. unfold entry_of, entry_bytes. destruct e as [x i n m r]. cbn [indexed id name magic rest] in *. subst m.
  set (a := reverse (be_bytes 8 _)). set (b := reverse (be_bytes 2 _)).
  assert (La : length a = 8%nat) by (unfold a; by rewrite length_reverse, be_bytes_length). assert (Lb : length b = 2%nat) by (unfold b; by rewrite length_reverse, be_bytes_length).
  assert (E8 : drop 8 (a ++ i ++ n ++ b ++ r) = i ++ n ++ b ++ r) by (by apply drop_app_length').
  assert (E28 : drop 28 (a ++ i ++ n ++ b ++ r) = n ++ b ++ r) by (rewrite (app_assoc a); apply drop_app_length'; rewrite length_app; lia).
  assert (E72 : drop 72 (a ++ i ++ n ++ b ++ r) = b ++ r) by (rewrite (app_assoc a), (app_assoc (a ++ i)); apply drop_app_length'; rewrite !length_app; lia).
  assert (E74 : drop 74 (a ++ i ++ n ++ b ++ r) = r) by (rewrite (app_assoc a), (app_assoc (a ++ i)), (app_assoc ((a ++ i) ++ n)); apply drop_app_length'; rewrite !length_app; lia).
  rewrite E8, E28, E72, E74. rewrite !take_app_length' by lia. rewrite (take_ge r) by lia. f_equal.
  unfold a. rewrite reverse_involutive, be_val_bytes. change (256 ^ Z.of_nat 8) with (2 ^ 64). rewrite Z.mod_small by (apply (uw_range 64); lia).
    rewrite <- (sw_small 64 x) at 2 by lia. unfold sw, uw. by rewrite Z.add_mod_idemp_l by lia.
Qed.

Definition file_of (es : list sindex_entry) : bytes := concat (map entry_bytes es).

Lemma file_length es : Forall wf_entry es -> zlen (file_of es) = 80 * zlen es.
Proof.
  induction 1 as [|e es He _ IH]; [done|]. unfold file_of in *. cbn [map concat]. rewrite zlen_app, IH, zlen_cons. unfold zlen at 1. rewrite entry_bytes_length by done. lia.
Qed.

Lemma fread_spec n : forall pre es, Forall wf_entry (pre ++ es) -> (n <= length es)%nat -> fread n (file_of (pre ++ es)) (zlen pre * ENTRY_SIZE) = take n es.
Proof.
  induction n as [|n IH]; intros pre es Hwf Hn; [done|]. destruct es as [|e es]; [cbn in Hn; lia|]. cbn [fread take]. cbn [length] in Hn.
  rewrite file_length by done. unfold ENTRY_SIZE in *. rewrite zlen_app, zlen_cons. pose proof (zlen_nonneg es). rewrite (proj2 (Z.leb_le _ _)) by lia.
  assert (Hp : Forall wf_entry pre) by (by apply Forall_app in Hwf as [? _]). assert (He : wf_entry e) by (apply Forall_app in Hwf as [_ Hwf]; by apply Forall_cons in Hwf as [? _]).
  f_equal.
  - unfold file_of. rewrite map_app, concat_app. cbn [map concat]. rewrite drop_app_length'.
    + rewrite take_app_length' by (by rewrite entry_bytes_length). by apply entry_of_bytes.
    + pose proof (file_length pre Hp) as Hl. unfold file_of, zlen in *. lia.
  - replace (zlen pre * 80 + 80) with (zlen (pre ++ [e]) * 80) by (rewrite zlen_app, zlen_cons, zlen_nil; lia). rewrite (app_assoc pre [e] es : pre ++ e :: es = (pre ++ [e]) ++ es).
    apply IH; [by rewrite <- app_assoc|lia].
Qed.

(** the entries that were put, one after the other *)
Fixpoint put_all (file : bytes) (es : list sindex_entry) : bytes :=
  match es with
  | [] => file
  | e :: es => put_all (sindex_put None file e).1 es
  end.

Lemma put_all_spec es : forall file, Forall wf_entry es -> put_all file es = file ++ file_of es.
Proof.
  induction es as [|e es IH]; intros file Hwf; cbn [put_all]; [by rewrite app_nil_r|]. apply Forall_cons in Hwf as [He Hwf]. rewrite IH by done. unfold file_of. cbn [sindex_put fst map concat].
  rewrite <- app_assoc. do 3 f_equal. destruct e, He as [_ _ _ Hm _]. cbn in *. by rewrite Hm.
Qed.

(** C38: from an index of the entries that were put, the last [nelems] before
    the position [before], or before the end if it is 0, are read in the order
    they were put in, and [last] is the position of the first of them. *)
Theorem sindex_put_get es nelems before : Forall wf_entry es -> 0 <= nelems -> 0 <= before ->
  let b := if before =? 0 then zlen es else Z.min before (zlen es) in
  let n := Z.min nelems b in
  sindex_get true true (put_all [] es) nelems before =
    (n, take (Z.to_nat n) (drop (Z.to_nat (b - n)) es), if n =? 0 then None else Some (b - n)).
Proof.
  intros Hwf Hn Hb b n. pose proof (zlen_nonneg es). rewrite put_all_spec by done. cbn [app]. unfold sindex_get, get_nelems. rewrite file_length by done. unfold ENTRY_SIZE.
  rewrite Z.mul_comm, Z.mod_mul, Z.div_mul by lia. cbn [negb Z.eqb]. rewrite (proj2 (Z.ltb_ge (zlen es) 0)) by lia. fold b. fold n.
  assert (Hbr : 0 <= b <= zlen es) by (unfold b; destruct (before =? 0); lia). assert (Hnb : 0 <= n <= b) by (unfold n; lia). clearbody n. clearbody b.
  destruct (Z.eqb_spec n 0) as [E|E]; [by rewrite E|].
  set (k := Z.to_nat (b - n)). assert (Ek : (b - n) * 80 = zlen (take k es) * ENTRY_SIZE) by (unfold ENTRY_SIZE, k; rewrite zlen_take; unfold zlen in *; lia).
  pose proof (fread_spec (Z.to_nat n) (take k es) (drop k es)) as Hf. rewrite take_drop in Hf. rewrite Ek, Hf; [|done|rewrite length_drop; unfold zlen, k in *; clear Ek; lia].
  assert (Hl : zlen (take (Z.to_nat n) (drop k es)) = n) by (unfold zlen, k in *; rewrite length_take, length_drop; clear Ek; lia). by rewrite Hl.
Qed.

Lemma sindex_put_get_witness :
  let e k := Sindex_entry k (replicate 20 (48 + k)) (replicate 44 0) SINDEX_MAGIC (replicate 6 0) in
  Forall wf_entry [e 1; e 2; e 3] /\ sindex_get true true (put_all [] [e 1; e 2; e 3]) 2 0 = (2, [e 2; e 3], Some 1).
Proof.
  intros e. assert (Hwf : Forall wf_entry [e 1; e 2; e 3]) by (repeat constructor; cbn; lia). split; [done|].
  exact (sindex_put_get [e 1; e 2; e 3] 2 0 Hwf ltac:(lia) ltac:(lia)).
Defined.
