(* ===== verification/Store.v ===== *)
(** * The store daemon (src/apps/stored/store.c)

    Clients enter a store, a directory named by twenty hexadecimal digits, and
    ask for its files to be opened and renamed; the descriptors are passed to
    them.  A handler of the daemon is what it does to the clients and the
    system, and the calls of [Eds] it ends with. *)

From stdpp Require Import gmap.
From S2P Require Import Prelude CLib Buf Netstring NetstringMap Io Ycl YclMsg Prng Sindex Eds Services.

Definition STORE_PATH : bytes := lit "store".
Definition STORE_INDEX : bytes := lit "INDEX".
Definition STOREFL_HASMSGBUF : Z := 1.
Definition MAXTRIES_GENSTORE : Z := 128.
Definition STORE_IDSZ : Z := 20.
Definition STORE_PREFIXSZ : Z := 2.
Definition STORE_MAXPATH : Z := 128.
Definition STORE_MAXDIRPATH : Z := STORE_PREFIXSZ + 1 + STORE_IDSZ + 1 + STORE_MAXPATH + 1.

(** the other operations on files; [fts] gives what is below a path but not in
    directories of the second level; [append_entry] is [sindex_put] on an open
    file *)
Class StoreFiles (W : Type) : Type := {
  rename : W -> bytes -> bytes -> W * option Z;
  chdir : W -> bytes -> W * bool;
  fts : W -> bytes -> W * option (list ftsent);
  fdopen : W -> Z -> W * bool;
  fclose : W -> Z -> W;
  append_entry : W -> Z -> sindex_entry -> W * bool;
}.

Record store_cli : Type := Cli {
  cliflags : Z;
  ycl : ycl_ctx;
  msgbuf : ycl_msg;
  store_path : bytes;
  open_fd : Z;
  open_errno : Z;
  listbuf : buf_t;
}.

(** as [calloc] leaves it *)
Definition zero_cli : store_cli := Cli 0 (Ycl.Ctx 0 0 0) (Msg (Buf 0 0 []) (Buf 0 0 []) (Buf 0 0 []) 0 0 0) [] 0 0 (Buf 0 0 []).

(** the user data of the clients, [prng_] and the open file of [sindex_] *)
Record store : Type := Store { clis : gmap Z store_cli; prng_ : prng_ctx; sindex_ : option Z }.

Inductive handler : Type :=
  | on_store_readable | on_readreq | on_readentered | on_sendfd | on_post_enter_response | on_index_response | on_sent_store_list | on_store_finalize.

Definition STORE_CLI (s : store) (fd : Z) : store_cli := default zero_cli (clis s !! fd).
Definition set_cli (s : store) (fd : Z) (c : store_cli) : store := Store (<[fd := c]> (clis s)) (prng_ s) (sindex_ s).

Definition set_msgbuf (c : store_cli) (m : ycl_msg) : store_cli := Cli (cliflags c) (ycl c) m (store_path c) (open_fd c) (open_errno c) (listbuf c).
Definition set_store_path (c : store_cli) (p : bytes) : store_cli := Cli (cliflags c) (ycl c) (msgbuf c) p (open_fd c) (open_errno c) (listbuf c).
Definition set_open (c : store_cli) (fd err : Z) : store_cli := Cli (cliflags c) (ycl c) (msgbuf c) (store_path c) fd err (listbuf c).
Definition set_listbuf (c : store_cli) (b : buf_t) : store_cli := Cli (cliflags c) (ycl c) (msgbuf c) (store_path c) (open_fd c) (open_errno c) b.

Definition STORE_ID (c : store_cli) : bytes := drop (Z.to_nat (STORE_PREFIXSZ + 1)) (store_path c).

Definition load (s : store) (p : pointer) (off n : Z) : outcome bytes :=
  let b := Ycl.buf (msgbuf (STORE_CLI s (owner p))) in
  if Buf.cap b =? cap_then p then rds (Buf.data b) off n else OutOfBounds.

(** every character of [n] satisfies [ok] *)
Fixpoint all_chars (ok : Z -> bool) (n : nat) (m : bytes) (i : Z) : outcome bool :=
  match n with
  | O => Ret true
  | S n => ch ← rd m i; if ok ch then all_chars ok n m (i + 1) else Ret false
  end.

Definition id_char (ch : Z) : bool := negb (((ch <? 48) || (57 <? ch)) && ((ch <? 97) || (102 <? ch))).

(** [char] is signed *)
Definition path_char (ch : Z) : bool := negb ((ch =? 47) || (sw 8 ch <? 0x20)).

Definition is_valid_store_id (m : bytes) (store_id : option Z) (len : Z) : outcome bool :=
  match store_id with
  | None => Ret false
  | Some p => if negb (len =? STORE_IDSZ) then Ret false else all_chars id_char (Z.to_nat len) m p
  end.

Definition is_valid_path (m : bytes) (path : option Z) (pathlen : Z) : outcome bool :=
  match path with
  | None => Ret false
  | Some p => if STORE_MAXPATH <=? pathlen then Ret false else all_chars path_char (Z.to_nat pathlen) m p
  end.

(** what a handler ends with *)
Definition calls : Type := list (@cmd handler pointer).

Section Handlers.
Context {W R : Type} {SW : Sys W} {FW : Files W} {XW : StoreFiles W} {LR : Libc R}.
(** whether memory is there, [nullfd_get], and the fuel of the loops of [Ycl] and [Io] *)
Context (alloc_ok : Z -> bool) (nullfd : Z) (fuel : nat).


Definition gen_store_path (prng : prng_ctx) (len : Z) : outcome (prng_ctx * bytes) := prng_hex prng (len - 1).

(** [None] when the file could not be opened *)
Definition init_index (w : W) : W * option Z :=
  match open w STORE_INDEX (Z.lor O_WRONLY (Z.lor O_CREAT O_APPEND)) (Some 0x180) with
  | (w, inr _) => (w, None)
  | (w, inl fd) =>
      let '(w, ok) := fdopen w fd in
      if negb ok then ((close w fd).1, None) else (w, Some fd)
  end.

(** a file that is closed and not replaced must not be used again *)
Definition reinit_index (s : store) (w : W) : outcome (store * W) :=
  match sindex_ s with
  | None => OutOfBounds
  | Some fp => let '(w, fp) := init_index (fclose w fp) in Ret (Store (clis s) (prng_ s) fp, w)
  end.

Definition store_init (s : store) (w : W) : store * W * Z :=
  let '(w, e) := mkdir w STORE_PATH 0x1c0 in
  if match e with Some e => negb (e =? EEXIST) | None => false end then (s, w, -1)
  else
    let '(w, ok) := chdir w STORE_PATH in
    if negb ok then (s, w, -1)
    else
      match init_index w with
      | (w, None) => (s, w, -1)
      | (w, Some fp) =>
          let '(w, t) := now w in
          match t with
          | None => (Store (clis s) (prng_ s) (Some fp), w, -1)
          | Some t => (Store (clis s) (prng_init (u32 t)) (Some fp), w, 0)
          end
      end.

Definition write_err_response (s : store) (w : W) (fd : Z) (errmsg : bytes) : outcome (store * W * calls) :=
  let ecli := STORE_CLI s fd in
  '(msg, ret) ← ycl_msg_create alloc_ok status_resp (msgbuf ecli) [Data []; Data errmsg];
  let b := Ycl.buf msg in
  Ret (set_cli s fd (set_msgbuf ecli msg), w,
       ClearActions fd :: if negb (ret =? YCL_OK) then [] else [Send fd (MsgBytes fd (Buf.cap b)) (Buf.len b) None]).

(** the system, [store_path] and the result *)
Definition enter_store (w : W) (path m : bytes) (store_id : option Z) (id_len : Z) (exclusive : bool) : outcome (W * bytes * Z) :=
  ok ← is_valid_store_id m store_id id_len;
  match store_id with
  | Some p =>
      if negb ok then Ret (w, path, -1)
      else
        subdir ← cstr_at m (p + STORE_IDSZ - STORE_PREFIXSZ);
        let '(w, e) := mkdir w subdir 0x1c0 in
        if match e with Some e => negb (e =? EEXIST) | None => false end then Ret (w, path, -1)
        else
          id ← rds m p id_len;
          let path := snprintf (STORE_IDSZ + STORE_PREFIXSZ + 2) (take (Z.to_nat STORE_PREFIXSZ) subdir ++ [47] ++ id) in
          let '(w, e) := mkdir w path 0x1c0 in
          if match e with Some e => exclusive || negb (e =? EEXIST) | None => false end then Ret (w, path, -1)
          else Ret (w, path, 0)
  | None => Ret (w, path, -1)
  end.

(** [strncpy], and the terminator *)
Definition entry_name (name : bytes) : bytes := take (Z.to_nat (SINDEX_NAMESZ - 1)) (name ++ replicate (Z.to_nat SINDEX_NAMESZ) 0) ++ [0].

Definition put_index (s : store) (w : W) (store_id : bytes) (name : option bytes) (indexed : Z) : outcome (W * Z) :=
  match sindex_ s with
  | None => OutOfBounds
  | Some fp =>
      let e := Sindex_entry indexed (take (Z.to_nat SINDEX_IDSZ) store_id) (entry_name (default store_id name)) SINDEX_MAGIC (replicate 6 0) in
      let '(w, ok) := append_entry w fp e in Ret (w, if ok then 0 else -1)
  end.

(** [n] tries *)
Fixpoint create_loop (n : nat) (s : store) (w : W) (path : bytes) (ret : Z) : outcome (store * W * bytes * Z) :=
  match n with
  | O => Ret (s, w, path, ret)
  | S n =>
      '(prng, id) ← gen_store_path (prng_ s) (STORE_IDSZ + 1);
      let s := Store (clis s) prng (sindex_ s) in
      '(w, path, ret) ← enter_store w path (id ++ [0]) (Some 0) STORE_IDSZ true;
      if ret =? 0 then Ret (s, w, path, ret) else create_loop n s w path ret
  end.

Definition create_and_enter_store (s : store) (w : W) (path : bytes) : outcome (store * W * bytes * Z) :=
  create_loop (Z.to_nat MAXTRIES_GENSTORE) s w path 0.

(** the descriptor that was passed is closed, but not the one of /dev/null *)
Definition close_open_fd (w : W) (ecli : store_cli) : W :=
  if (0 <=? open_fd ecli) && negb (open_fd ecli =? nullfd) then (close w (open_fd ecli)).1 else w.

Definition do_sendfd (s : store) (w : W) (fd : Z) : outcome (store * W * calls) :=
  let ecli := STORE_CLI s fd in
  '(w, ret) ← ycl_sendfd fuel w (ycl ecli) (open_fd ecli) (open_errno ecli);
  if ret =? YCL_AGAIN then Ret (s, w, [])
  else
    let w := close_open_fd w ecli in
    if negb (ret =? YCL_OK) then Ret (s, w, [ClearActions fd])
    else Ret (s, w, [SetOnWritable fd None 0; SetOnReadable fd (Some on_readentered) 0]).

Definition do_post_enter_response (s : store) (w : W) (fd : Z) : outcome (store * W * calls) :=
  let ecli := STORE_CLI s fd in
  Ret (set_cli s fd (set_msgbuf ecli (ycl_msg_reset (msgbuf ecli))), w, [SetOnReadable fd (Some on_readentered) 0]).

Definition send_entered_response (s : store) (w : W) (fd : Z) (okmsg errmsg : bytes) : outcome (store * W * calls) :=
  let ecli := STORE_CLI s fd in
  let trans := Trans (Z.lor EDS_TFLREAD EDS_TFLWRITE) (Some on_post_enter_response) None in
  '(msg, ret) ← ycl_msg_create alloc_ok status_resp (msgbuf ecli) [Data okmsg; Data errmsg];
  let b := Ycl.buf msg in
  Ret (set_cli s fd (set_msgbuf ecli msg), w,
       if negb (ret =? YCL_OK) then [] else [Send fd (MsgBytes fd (Buf.cap b)) (Buf.len b) (Some trans)]).

(** the path of a file of the entered store *)
Definition dirpath (ecli : store_cli) (path : bytes) : bytes := snprintf STORE_MAXDIRPATH (store_path ecli ++ [47] ++ path).

Definition handle_store_open (s : store) (w : W) (fd : Z) (m : bytes) (path : option Z) (pathlen flags : Z) : outcome (store * W * calls) :=
  let ecli := set_open (STORE_CLI s fd) nullfd EACCES in
  let respond w ecli := Ret (set_cli s fd ecli, w, [SetOnReadable fd None 0; SetOnWritable fd (Some on_sendfd) 0]) in
  first ← match path with Some p => rd m p | None => Ret 0 end;
  if first =? 0 then respond w ecli
  else
    ok ← is_valid_path m path pathlen;
    if negb ok then respond w ecli
    else
      p ← str m path;
      let '(w, r) := open w (dirpath ecli p) (i32 flags) (if flag_set (i32 flags) O_CREAT then Some 0x180 else None) in
      match r with
      | inr e => respond w (set_open ecli nullfd e)
      | inl f => respond w (set_open ecli f 0)
      end.

Definition handle_store_rename (s : store) (w : W) (fd : Z) (m : bytes) (from to : option Z * Z) : outcome (store * W * calls) :=
  let ecli := STORE_CLI s fd in
  ok ← is_valid_path m from.1 from.2;
  if negb ok then send_entered_response s w fd [] (lit "rename: invalid 'from' path")
  else
    ok ← is_valid_path m to.1 to.2;
    if negb ok then send_entered_response s w fd [] (lit "rename: invalid 'to' path")
    else
      f ← str m from.1;
      t ← str m to.1;
      let '(w, e) := rename w (dirpath ecli f) (dirpath ecli t) in
      send_entered_response s w fd [] (match e with Some e => snprintf STORE_MAXDIRPATH (lit "rename: " ++ strerror e) | None => [] end).

Definition do_readentered (s : store) (w : W) (fd : Z) : outcome (store * W * calls) :=
  let ecli := STORE_CLI s fd in
  '(w, msg, ret) ← ycl_recvmsg alloc_ok fuel w (ycl ecli) (msgbuf ecli);
  let s := set_cli s fd (set_msgbuf ecli msg) in
  if ret =? YCL_AGAIN then Ret (s, w, [])
  else if negb (ret =? YCL_OK) then Ret (s, w, [ClearActions fd])
  else
    '(msg, req, ret) ← ycl_msg_parse alloc_ok store_entered_fields msg;
    let s := set_cli s fd (set_msgbuf ecli msg) in
    let m := Buf.data (Ycl.buf msg) in
    let action := data_of req 0 in
    if negb (ret =? YCL_OK) then write_err_response s w fd (lit "open request parse error")
    else if action.2 =? 0 then write_err_response s w fd (lit "missing 'action' field in request")
    else
      is_open ← streq m action.1 (lit "open");
      if (is_open : bool) then handle_store_open s w fd m (data_of req 1).1 (data_of req 1).2 (long_of req 2)
      else
        is_rename ← streq m action.1 (lit "rename");
        if (is_rename : bool) then handle_store_rename s w fd m (data_of req 3) (data_of req 4)
        else write_err_response s w fd (lit "unknown 'action' field in request").

(** the entries of a directory, [f] of each that is wanted; results of
    [buf_adata] are not looked at *)
Fixpoint list_loop (f : ftsent -> option (list bytes)) (b : buf_t) (ents : list ftsent) : outcome buf_t :=
  match ents with
  | [] => Ret b
  | ent :: ents =>
      match f ent with
      | None => list_loop f b ents
      | Some texts => b ← foldl (fun b t => b ← b; '(b, _) ← buf_adata alloc_ok b (t ++ [0]); Ret b) (Ret b) texts; list_loop f b ents
      end
  end.

Definition matches (must_match : option R) (name : bytes) : bool := match must_match with Some re => regexec re name | None => true end.

Definition is_dir (ent : ftsent) : bool := match info ent with FTS_D => level ent =? 2 | _ => false end.
Definition is_file (ent : ftsent) : bool := match info ent with FTS_F => true | _ => false end.

Definition list_store_content (w : W) (b : buf_t) (id : bytes) (must_match : option R) : outcome (W * buf_t) :=
  let storepath := snprintf STORE_MAXDIRPATH (drop (Z.to_nat (STORE_IDSZ - STORE_PREFIXSZ)) id ++ [47] ++ id) in
  let b := buf_clear b in
  match fts w storepath with
  | (w, None) => Ret (w, b)
  | (w, Some ents) =>
      b ← list_loop (fun ent => if is_file ent && matches must_match (ent_name ent) then Some [ent_name ent; pct_lu (st_size ent)] else None) b ents;
      Ret (w, b)
  end.

Definition list_stores (w : W) (b : buf_t) (must_match : option R) : outcome (W * buf_t) :=
  let b := buf_clear b in
  match fts w (lit ".") with
  | (w, None) => Ret (w, b)
  | (w, Some ents) =>
      b ← list_loop (fun ent => if is_dir ent && matches must_match (ent_name ent) then Some [ent_name ent] else None) b ents;
      Ret (w, b)
  end.

Definition do_index_response (s : store) (w : W) (fd : Z) : outcome (store * W * calls) :=
  let ecli := STORE_CLI s fd in
  '(w, ret) ← ycl_sendfd fuel w (ycl ecli) (open_fd ecli) (open_errno ecli);
  if ret =? YCL_AGAIN then Ret (s, w, [])
  else Ret (s, close_open_fd w ecli, [ClearActions fd]).

Definition do_sent_store_list (s : store) (w : W) (fd : Z) : outcome (store * W * calls) :=
  let ecli := set_listbuf (STORE_CLI s fd) (buf_cleanup (listbuf (STORE_CLI s fd))) in
  Ret (set_cli s fd (set_msgbuf ecli (ycl_msg_reset (msgbuf ecli))), w, [SetOnWritable fd None 0; SetOnReadable fd (Some on_readreq) 0]).

(** [buf_init], which only loses the bytes when it fails *)
Definition init_listbuf (b : buf_t) : buf_t := default (Buf (Buf.cap b) (Buf.len b) []) (buf_init alloc_ok 8192).

Definition respond_list (s : store) (w : W) (fd : Z) (ecli : store_cli) (errmsg : bytes) : outcome (store * W * calls) :=
  let after_send := Trans (Z.lor EDS_TFLREAD EDS_TFLWRITE) (Some on_sent_store_list) (Some on_sent_store_list) in
  entries ← rds (Buf.data (listbuf ecli)) 0 (Buf.len (listbuf ecli));
  '(msg, _) ← ycl_msg_create alloc_ok store_list (msgbuf ecli) [Data errmsg; Data entries];
  let b := Ycl.buf msg in
  Ret (set_cli s fd (set_msgbuf ecli msg), w, [Send fd (MsgBytes fd (Buf.cap b)) (Buf.len b) (Some after_send)]).

Definition handle_store_list (s : store) (w : W) (fd : Z) (m : bytes) (store_id must_match : option Z * Z) : outcome (store * W * calls) :=
  let ecli := STORE_CLI s fd in
  ok ← (if 0 <? store_id.2 then is_valid_store_id m store_id.1 store_id.2 else Ret true);
  if negb ok then respond_list s w fd ecli (lit "invalid store ID")
  else
    re ← (if 0 <? must_match.2 then p ← str m must_match.1; Ret (Some (regcomp p)) else Ret None);
    match re with
    | Some None => respond_list s w fd ecli (lit "failed to compile must-match ERE")
    | _ =>
        let rep := match re with Some (Some re) => Some re | _ => None end in
        let b := init_listbuf (listbuf ecli) in
        '(w, b) ← (if 0 <? store_id.2 then id ← str m store_id.1; list_store_content w b id rep else list_stores w b rep);
        respond_list s w fd (set_listbuf ecli b) []
    end.

(** the store is entered, and entered in the index *)
Definition handle_enter (s : store) (w : W) (fd : Z) (m : bytes) (store_id : option Z * Z) (index : Z) (name : option Z) (indexed : Z) : outcome (store * W * calls) :=
  let ecli := STORE_CLI s fd in
  '(s, w, path, ret) ← match store_id.1 with
    | Some _ => '(w, path, ret) ← enter_store w (store_path ecli) m store_id.1 store_id.2 false; Ret (s, w, path, ret)
    | None => create_and_enter_store s w (store_path ecli)
    end;
  let ecli := set_store_path ecli path in
  let s := set_cli s fd ecli in
  if ret <? 0 then write_err_response s w fd (lit "unable to enter store")
  else
    '(w, _) ← (if negb (index =? 0) then
                 name ← match name with Some p => n ← cstr_at m p; Ret (Some n) | None => Ret None end;
                 put_index s w (STORE_ID ecli) name indexed
               else Ret (w, 0));
    '(s, w, cmds) ← send_entered_response s w fd (STORE_ID ecli) [];
    Ret (s, w, SetOnReadable fd None 0 :: cmds).

(** a descriptor of the index; the file may have been removed *)
Definition handle_index (s : store) (w : W) (fd : Z) : outcome (store * W * calls) :=
  let '(w, r) := open w STORE_INDEX O_RDONLY None in
  '(s, w, r) ← match r with
    | inr e => if e =? ENOENT then '(s, w) ← reinit_index s w; let '(w, r) := open w STORE_INDEX O_RDONLY None in Ret (s, w, r) else Ret (s, w, r)
    | inl _ => Ret (s, w, r)
    end;
  let ecli := match r with inr e => set_open (STORE_CLI s fd) nullfd e | inl f => set_open (STORE_CLI s fd) f 0 end in
  Ret (set_cli s fd ecli, w, [SetOnReadable fd None 0; SetOnWritable fd (Some on_index_response) 0]).

Definition do_readreq (s : store) (w : W) (fd : Z) : outcome (store * W * calls) :=
  let ecli := STORE_CLI s fd in
  '(w, msg, ret) ← ycl_recvmsg alloc_ok fuel w (ycl ecli) (msgbuf ecli);
  let s := set_cli s fd (set_msgbuf ecli msg) in
  if ret =? YCL_AGAIN then Ret (s, w, [])
  else if negb (ret =? YCL_OK) then Ret (s, w, [ClearActions fd])
  else
    '(msg, req, ret) ← ycl_msg_parse alloc_ok store_req_fields msg;
    let s := set_cli s fd (set_msgbuf ecli msg) in
    let m := Buf.data (Ycl.buf msg) in
    let action := data_of req 0 in
    if negb (ret =? YCL_OK) then write_err_response s w fd (lit "store request parse error")
    else if action.2 =? 0 then write_err_response s w fd (lit "missing store action")
    else
      is_enter ← streq m action.1 (lit "enter");
      if (is_enter : bool) then handle_enter s w fd m (data_of req 1) (long_of req 3) (data_of req 4).1 (long_of req 5)
      else
        is_index ← streq m action.1 (lit "index");
        if (is_index : bool) then handle_index s w fd
        else
          is_list ← streq m action.1 (lit "list");
          if (is_list : bool) then handle_store_list s w fd m (data_of req 1) (data_of req 2)
          else write_err_response s w fd (lit "invalid store action").

Definition store_on_readable (s : store) (w : W) (fd : Z) : outcome (store * W * calls) :=
  let c := STORE_CLI s fd in
  let ecli := Cli (cliflags c) (ycl_init fd) (msgbuf c) (store_path c) (open_fd c) (open_errno c) (listbuf c) in
  let go ecli := Ret (set_cli s fd ecli, w, [SetOnReadable fd (Some on_readreq) 0]) in
  if flag_set (cliflags ecli) STOREFL_HASMSGBUF then go (set_msgbuf ecli (ycl_msg_reset (msgbuf ecli)))
  else
    match ycl_msg_init alloc_ok with
    | None => Ret (set_cli s fd ecli, w, [RemoveClient fd])
    | Some msg => go (Cli (Z.lor (cliflags ecli) STOREFL_HASMSGBUF) (ycl ecli) msg (store_path ecli) (open_fd ecli) (open_errno ecli) (listbuf ecli))
    end.

Definition store_on_finalize (s : store) (w : W) (fd : Z) : outcome (store * W * calls) :=
  let c := STORE_CLI s fd in
  if flag_set (cliflags c) STOREFL_HASMSGBUF then
    Ret (set_cli s fd (Cli (Z.land (cliflags c) (Z.lnot STOREFL_HASMSGBUF)) (ycl c) (ycl_msg_cleanup (msgbuf c)) (store_path c) (open_fd c) (open_errno c) (listbuf c)), w, [])
  else Ret (s, w, []).

Definition store_body (h : handler) (fd : Z) (s : store) (w : W) : outcome (store * W * calls) :=
  match h with
  | on_store_readable => store_on_readable s w fd
  | on_readreq => do_readreq s w fd
  | on_readentered => do_readentered s w fd
  | on_sendfd => do_sendfd s w fd
  | on_post_enter_response => do_post_enter_response s w fd
  | on_index_response => do_index_response s w fd
  | on_sent_store_list => do_sent_store_list s w fd
  | on_store_finalize => store_on_finalize s w fd
  end.

End Handlers.

(** src/apps/stored/main.c *)
Definition stored : @eds_service handler :=
  Service (Some (lit "stored")) (Some (lit "stored.sock")) (Actions (Some on_store_readable) None None (Some on_store_finalize)) 1 0 0 None None None 0.
