(* ===== verification/StoreConfined.v ===== *)
(** * The files of a store (src/apps/stored/store.c)

    Whatever a client sends, the daemon works on the files of stores only: on
    paths of the forms of [confined].  The theorem is about every property of
    the system that operations on such paths keep. *)

From stdpp Require Import gmap.
From S2P Require Import Prelude CLib Buf Netstring NetstringMap Io Ycl YclMsg Prng Sindex Keeps Eds EdsSafe Services Store.

(** ** Members of a message end with a terminator *)

Definition term (m : bytes) (p l : Z) : Prop := 0 <= p /\ 0 <= l /\ m !! Z.to_nat (p + l) = Some 0.

(** terminators are not overwritten *)
Definition zeros_kept (m m' : bytes) : Prop := forall i, m !! i = Some 0 -> m' !! i = Some 0.

Lemma zeros_refl m : zeros_kept m m.
Proof. by intros i Hi. Qed.

#[local] Hint Resolve zeros_refl : core.

Lemma zeros_trans m1 m2 m3 : zeros_kept m1 m2 -> zeros_kept m2 m3 -> zeros_kept m1 m3.
Proof. intros H1 H2 i Hi. by apply H2, H1. Qed.

Lemma term_kept m m' p l : zeros_kept m m' -> term m p l -> term m' p l.
Proof. intros Hz (? & ? & ?). split; [done|]. split; [done|]. by apply Hz. Qed.

Lemma wr_zero m i m' : wr m i 0 = Ret m' -> 0 <= i /\ zeros_kept m m' /\ m' !! Z.to_nat i = Some 0.
Proof.
  intros E. unfold wr in E. destruct (_ || _) eqn:Eb; [done|]. apply orb_false_elim in Eb as [H0 Hl]. zbool. injection E as <-. split; [lia|]. split.
  - intros k Hk. destruct (decide (k = Z.to_nat i)) as [->|]; [apply list_lookup_insert_eq; lia|by rewrite list_lookup_insert_ne].
  - apply list_lookup_insert_eq. lia.
Qed.

(** no comma comes before the data, so that its length does not wrap around *)
Lemma parse_loop_fits n : forall m base srclen i st len, 0 <= i -> 0 <= len < 2 ^ 64 -> (forall k, 0 <= k < i -> rd m (base + k) <> Ret COMMA) ->
  yields (fun r => match r with inl (off, l) => 0 <= base + off /\ 0 <= l /\ off + l = u64 (off + l) | inr _ => True end) (netstring_parse_loop n m base srclen i st len).
Proof.
  induction n as [|n IH]; intros m base srclen i st len Hi Hl Hpre; cbn [netstring_parse_loop]; [by apply yields_ret|].
  destruct (rd m (base + i)) as [c| |] eqn:Ec; [|done|done]. cbn [mbind outcome_mbind].
  assert (Hnext : c <> COMMA -> forall k, 0 <= k < i + 1 -> rd m (base + k) <> Ret COMMA).
  { intros Hc k Hk. destruct (decide (k = i)) as [->|]; [rewrite Ec; congruence|apply Hpre; lia]. }
  assert (Hslen : yields (fun r => match r with inl (off, l) => 0 <= base + off /\ 0 <= l /\ off + l = u64 (off + l) | inr _ => True end)
    (if is_digit c then let lenbuf := u64 (u64 (len * 10) + (c - CH_0)) in
        if lenbuf <? len then Ret (inr NETSTRING_ERRTOOLARGE) else netstring_parse_loop n m base srclen (i + 1) NETSTRING_SLEN lenbuf
      else if (0 <? i) && (c =? COLON) then netstring_parse_loop n m base srclen (i + 1) NETSTRING_SDATA len else Ret (inr NETSTRING_ERRFMT))).
  { destruct (is_digit c) eqn:Ed; cbv zeta.
    - destruct (_ <? len); [by apply yields_ret|]. apply IH; [lia|apply (uw_range 64); lia|]. apply Hnext. by apply digit_not_comma.
    - destruct (_ && _) eqn:Ecol; [|by apply yields_ret]. apply andb_prop in Ecol as [_ Ecol]. zbool. apply IH; [lia|done|]. apply Hnext. by subst c. }
  destruct st; [|exact Hslen|].
  - destruct (NETSTRING_WS c) eqn:Ew; [|exact Hslen]. apply IH; [lia|done|]. apply Hnext. by apply ws_not_comma.
  - destruct (srclen <=? u64 (i + len)); [by apply yields_ret|]. destruct (rd m (base + u64 (i + len))) as [c'| |] eqn:Ec'; [|done|done]. cbn [mbind outcome_mbind].
    destruct (Z.eqb_spec c' COMMA) as [->|]; [|by apply yields_ret]. apply yields_ret. apply rd_ret in Ec as [Hb _]. split; [lia|]. split; [lia|].
    symmetry. apply uw_small. destruct (decide (i + len < 2 ^ 64)) as [|Hge]; [lia|]. exfalso. apply (Hpre (u64 (i + len))); [|done].
    pose proof (uw_range 64 (i + len) ltac:(lia)) as Hu. split; [lia|]. destruct (decide (i < 2 ^ 64)) as [Hlt|]; [|lia].
    assert (E : i + len - 2 ^ 64 = u64 (i + len)) by (apply (Z.mod_unique _ _ 1); lia). lia.
Qed.

(** a parser of a slice of [m] *)
Definition parsed_term (m : bytes) : bytes * ((Z * Z) + Z) -> Prop :=
  fun '(m', r) => zeros_kept m m' /\ match r with inl (p, l) => term m' p l | inr _ => True end.

Lemma netstring_parse_term m base srclen : yields (parsed_term m) (netstring_parse m base srclen).
Proof.
  unfold netstring_parse, _netstring_parse. eapply yields_bind; [apply parse_loop_fits; [lia|lia|lia]|].
  intros [[off l]|e]; [|intros _; apply yields_ret; by split]. intros (H1 & H2 & H3). rewrite <- H3.
  destruct (wr m (base + (off + l)) 0) as [m'| |] eqn:E; [|done|done]. cbn [mbind outcome_mbind]. apply wr_zero in E as (H4 & H5 & H6). apply yields_ret.
  split; [done|]. split; [done|]. split; [done|]. by rewrite <- Z.add_assoc.
Qed.

Lemma netstring_next_term m data len : yields (fun '(m', r, _, _) => parsed_term m (m', r)) (netstring_next m data len).
Proof.
  unfold netstring_next. destruct (len =? 0); [by apply yields_ret|]. eapply yields_bind; [apply netstring_parse_term|]. intros [m' [[p l]|e]] Hp; [|by apply yields_ret].
  cbv zeta. destruct (_ <? _); apply yields_ret; [|done]. by destruct Hp.
Qed.

Lemma netstring_next_pair_term m data len :
  yields (fun '(m', r, _, _) => zeros_kept m m' /\ match r with inl p => term m' (value p) (valuelen p) | inr _ => True end) (netstring_next_pair m data len).
Proof.
  unfold netstring_next_pair. destruct (len =? 0); [by apply yields_ret|]. eapply yields_bind; [apply netstring_parse_term|]. intros [m' [[p l]|e]] [Hz _]; [|by apply yields_ret].
  cbv zeta. destruct (_ <=? _); [by apply yields_ret|]. eapply yields_bind; [apply netstring_parse_term|]. intros [m2 [[v vl]|e]] [Hz2 Ht]; apply yields_ret; (split; [by eapply zeros_trans|done]).
Qed.

Section Parse.
Context (alloc_ok : Z -> bool) (fields : list yclgen_field).

Lemma load_elems_zeros cell n : forall m b curr len count, yields (fun x => zeros_kept m x.1.1.1) (load_elems alloc_ok n cell m b curr len count).
Proof.
  induction n as [|n IH]; intros m b curr len count; cbn [load_elems]; [done|]. destruct (0 <? len); [|by apply yields_ret].
  eapply yields_bind; [apply netstring_next_term|]. intros [[[m1 [[p l]|e]] curr1] len1] [Hz _]; [|by apply yields_ret].
  destruct (cell m1 p l) as [c| |]; [|done|done]. cbn [mbind outcome_mbind]. destruct (buf_adata alloc_ok b c) as [[b1 ret]| |]; [|done|done]. cbn [mbind outcome_mbind].
  destruct (ret <? 0); [by apply yields_ret|]. eapply yields_impl; [apply IH|]. intros x Hx. by eapply zeros_trans.
Qed.

Definition member_term (m : bytes) (p : parsed) : Prop := match p with PData (Some d) l => term m d l | _ => True end.

Definition members_term (m : bytes) (r : list parsed) : Prop := Forall (member_term m) r.

Lemma member_kept m m' p : zeros_kept m m' -> member_term m p -> member_term m' p.
Proof. intros Hz. destruct p as [[d|] l|l|o n|o n]; try done. by apply term_kept. Qed.

Lemma load_array_zeros cell m b curr len : yields (fun x => zeros_kept m x.1.1) (load_array alloc_ok cell m b curr len).
Proof.
  unfold load_array. destruct (buf_align alloc_ok b) as [[b1 ret]| |]; [|done|done]. cbn [mbind outcome_mbind]. destruct (ret <? 0); [by apply yields_ret|].
  eapply yields_bind; [apply load_elems_zeros|]. intros [[[m1 b2] count] ok] Hz. by apply yields_ret.
Qed.

Lemma parse_member_term m pair f b : term m (value pair) (valuelen pair) ->
  yields (fun '(m', _, v) => zeros_kept m m' /\ match v with Some v => member_term m' v | None => True end) (parse_member alloc_ok m pair f b).
Proof.
  intros Ht. unfold parse_member. destruct (typ f).
  - eapply yields_bind; [apply load_array_zeros|]. intros [[m1 b1] [[o n]|]] Hz; apply yields_ret; by split.
  - eapply yields_bind; [apply load_array_zeros|]. intros [[m1 b1] [[o n]|]] Hz; apply yields_ret; by split.
  - apply yields_ret. by split.
  - destruct (s2l _ _ _ _) as [l| |]; [|done|done]. apply yields_ret. by split.
Qed.

Lemma parse_pair_term m pair st : term m (value pair) (valuelen pair) -> members_term m st.1.1 ->
  yields (fun '(m', st', _) => zeros_kept m m' /\ members_term m' st'.1.1) (parse_pair alloc_ok fields m pair st).
Proof.
  intros Ht Hr. destruct st as [[r b] pairoff]. unfold parse_pair. cbn [fst] in Hr. destruct (key_search _ _ _ _ _ _ _) as [[cp|]| |]; [| |done|done]; cbn [mbind outcome_mbind].
  - destruct (rd fields cp) as [f| |]; [|done|done]. cbn [mbind outcome_mbind]. eapply yields_bind; [by apply parse_member_term|].
    intros [[m1 b1] [v|]] [Hz Hv].
    + destruct (wr r cp v) as [r1| |] eqn:E; [|done|done]. cbn [mbind outcome_mbind]. apply yields_ret. split; [done|]. cbn [fst].
      assert (Hr1 : members_term m1 r) by (eapply Forall_impl; [exact Hr|]; intros p; by apply member_kept).
      unfold wr in E. destruct (_ || _); [done|]. injection E as <-. by apply Forall_insert.
    + apply yields_ret. split; [done|]. cbn [fst]. eapply Forall_impl; [exact Hr|]. intros p. by apply member_kept.
  - apply yields_ret. by split.
Qed.

Lemma foreach_pair_term n : forall m data len st, members_term m st.1.1 ->
  yields (fun '(m', st', _) => members_term m' st'.1.1) (foreach_pair (parse_pair alloc_ok fields) n m data len st).
Proof.
  induction n as [|n IH]; intros m data len st Hr; cbn [foreach_pair]; [done|]. eapply yields_bind; [apply netstring_next_pair_term|].
  intros [[[m1 [p|e]] d1] l1] [Hz Hp].
  - assert (Hr1 : members_term m1 st.1.1) by (eapply Forall_impl; [exact Hr|]; intros q; by apply member_kept).
    eapply yields_bind; [by apply parse_pair_term|]. intros [[m2 st2] go] [_ Hr2]. destruct go; [by apply IH|by apply yields_ret].
  - apply yields_ret. eapply Forall_impl; [exact Hr|]. intros q. by apply member_kept.
Qed.

Lemma ycl_msg_parse_term msg : yields (fun '(msg', r, _) => members_term (Buf.data (Ycl.buf msg')) r) (ycl_msg_parse alloc_ok fields msg).
Proof.
  assert (Hz : forall m, members_term m (zeroed <$> fields)) by (intros m; apply Forall_fmap, Forall_forall; intros f _; unfold member_term, compose, zeroed; by destruct (typ f)).
  unfold ycl_msg_parse. destruct (zlen fields =? 0); [by apply yields_ret|]. cbv zeta. destruct (netstring_parse _ _ _) as [[m [[curr len]|e]]| |]; [| |done|done]; cbn [mbind outcome_mbind].
  - eapply yields_bind; [by apply foreach_pair_term|]. intros [[m' [[r b] po]] ok] Hr. by apply yields_ret.
  - by apply yields_ret.
Qed.
End Parse.

Lemma data_of_term m r i p l : members_term m r -> data_of r i = (Some p, l) -> term m p l.
Proof.
  intros Hr. unfold data_of. destruct (r !! i) as [v|] eqn:E; [|done]. eapply Forall_lookup_1 in Hr; [|exact E]. destruct v as [[d|] n| | |]; try done. by intros [= -> ->].
Qed.

(** ** Valid strings *)

Lemma all_chars_spec ok n : forall m i, all_chars ok n m i = Ret true -> forall k c, 0 <= k < Z.of_nat n -> rd m (i + k) = Ret c -> ok c = true.
Proof.
  induction n as [|n IH]; intros m i E k c Hk Hc; [lia|]. cbn [all_chars] in E. destruct (rd m i) as [d| |] eqn:Ed; [|done|done]. cbn [mbind outcome_mbind] in E.
  destruct (ok d) eqn:Eo; [|done]. destruct (decide (k = 0)) as [->|]; [rewrite Z.add_0_r in Hc; congruence|].
  apply (IH m (i + 1) E (k - 1) c); [lia|]. by replace (i + 1 + (k - 1)) with (i + k) by lia.
Qed.

(** a valid string in a message, from an offset [o] in it on *)
Lemma valid_string ok m p l o s : term m p l -> all_chars ok (Z.to_nat l) m p = Ret true -> 0 <= o <= l -> cstr_at m (p + o) = Ret s ->
  Forall (fun c => ok c = true) s /\ zlen s <= l - o /\ (ok 0 = false -> zlen s = l - o).
Proof.
  intros (Hp & Hl & Ht) Hok Ho Hs. destruct (cstr_at_spec _ _ _ Hs) as (_ & H0 & Hc).
  assert (Hin : forall k, 0 <= k < l -> forall c, m !! Z.to_nat (p + k) = Some c -> ok c = true).
  { intros k Hk c Hm. apply (all_chars_spec ok _ m p Hok k c); [lia|]. apply rd_ret. split; [lia|done]. }
  assert (Hle : zlen s <= l - o).
  { destruct (decide (zlen s <= l - o)) as [|Hgt]; [done|]. exfalso. destruct (lookup_lt_is_Some_2 s (Z.to_nat (l - o))) as (c & Hk); [unfold zlen in Hgt; lia|].
    destruct (Hc _ _ Hk) as [Hne Hm]. apply Hne. replace (Z.to_nat (p + o + Z.of_nat (Z.to_nat (l - o)))) with (Z.to_nat (p + l)) in Hm by lia. congruence. }
  split; [|split; [done|]].
  - apply Forall_lookup. intros k c Hk. destruct (Hc k c Hk) as [_ Hm]. pose proof (lookup_lt_Some _ _ _ Hk). apply (Hin (o + Z.of_nat k)); [unfold zlen in Hle; lia|].
    by rewrite Z.add_assoc.
  - intros Hz. destruct (decide (zlen s = l - o)) as [|Hne]; [done|]. pose proof (zlen_nonneg s). rewrite (Hin (o + zlen s) ltac:(lia) 0) in Hz; [done|]. by rewrite Z.add_assoc.
Qed.

Lemma valid_slice ok m p l : 0 <= p -> all_chars ok (Z.to_nat l) m p = Ret true -> forall s, rds m p l = Ret s -> Forall (fun c => ok c = true) s.
Proof.
  intros Hp Hok s Hs. assert (E : 0 <= l /\ s = take (Z.to_nat l) (drop (Z.to_nat p) m)).
  { unfold rds in Hs. destruct ((0 <=? p) && (0 <=? l) && _) eqn:Eb; [|done]. injection Hs as <-. apply andb_prop in Eb as [Eb _]. apply andb_prop in Eb as [_ Eb]. zbool. by split. }
  destruct E as [Hl ->]. apply Forall_lookup. intros k c Hk. apply lookup_take_Some in Hk as [Hk Hkn]. rewrite lookup_drop in Hk.
  apply (all_chars_spec ok _ m p Hok (Z.of_nat k) c); [lia|]. apply rd_ret. split; [lia|]. by replace (Z.to_nat (p + Z.of_nat k)) with (Z.to_nat p + k)%nat by lia.
Qed.

(** ** Paths *)

Definition hex_digit (c : Z) : Prop := 48 <= c <= 57 \/ 97 <= c <= 102.
Definition hexs (s : bytes) : Prop := Forall hex_digit s.

Lemma id_char_hex c : id_char c = true <-> hex_digit c.
Proof.
  unfold id_char, hex_digit. destruct (Z.ltb_spec c 48), (Z.ltb_spec 57 c), (Z.ltb_spec c 97), (Z.ltb_spec 102 c); cbn; split; try done; lia.
Qed.

Lemma hexs_all s : Forall (fun c => id_char c = true) s <-> hexs s.
Proof. unfold hexs. split; intros H; (eapply Forall_impl; [exact H|]); intros c; apply id_char_hex. Qed.

(** the path of an entered store *)
Definition entered (path : bytes) : Prop :=
  exists pre id, path = pre ++ [47] ++ id /\ hexs pre /\ hexs id /\ zlen pre = STORE_PREFIXSZ /\ zlen id = STORE_IDSZ.

(** a name has no slash and no control character, and is at least 32 as a signed char *)
Definition file_name (s : bytes) : Prop := Forall (fun c => c <> 47 /\ 32 <= sw 8 c) s /\ zlen s < STORE_MAXPATH.

Lemma path_char_name c : path_char c = true -> c <> 47 /\ 32 <= sw 8 c.
Proof. unfold path_char. intros H. zbool. lia. Qed.

Inductive confined : bytes -> Prop :=
  | confined_top : confined (lit ".")
  | confined_index : confined STORE_INDEX
  | confined_prefix pre : hexs pre -> zlen pre = STORE_PREFIXSZ -> confined pre
  | confined_store path : entered path -> confined path
  | confined_file path name : entered path -> file_name name -> confined (path ++ [47] ++ name).

Lemma entered_length path : entered path -> zlen path = 23.
Proof. intros (pre & id & -> & _ & _ & Hp & Hi). rewrite !zlen_app, Hp, Hi. done. Qed.

Lemma dirpath_confined c name : entered (store_path c) -> file_name name -> confined (dirpath c name).
Proof.
  intros He [Hn Hl]. unfold dirpath, snprintf. rewrite take_ge; [by constructor|]. pose proof (entered_length _ He) as Hz. unfold STORE_MAXPATH, zlen in *.
  change (Z.to_nat (STORE_MAXDIRPATH - 1)) with 152%nat. rewrite !length_app. cbn [length]. lia.
Qed.

(** ** Operations on confined paths *)

Section Confined.
Context {W R : Type} {SW : Sys W} {EW : EdsSys W} {FW : Files W} {XW : StoreFiles W} {LR : Libc R}.
Context (alloc_ok : Z -> bool) (nullfd : Z) (fuel : nat).

(** a property of the system that the operations of the daemon keep, those on
    files if their paths are confined *)
Context (Q : W -> Prop).

Record confined_ops : Prop := ConfinedOps {
  q_read w fd n : Q w -> Q (read w fd n).1;
  q_write w fd bs : Q w -> Q (write w fd bs).1;
  q_close w fd : Q w -> Q (close w fd).1;
  q_accept w fd : Q w -> Q (accept w fd).1;
  q_sendmsg w fd x y : Q w -> Q (sendmsg w fd x y).1;
  q_fcntl w fd x y : Q w -> Q (fcntl w fd x y).1;
  q_select w r wr : Q w -> Q (select w r wr).1;
  q_clock w : Q w -> Q (clock_gettime w).1;
  q_waitpid w : Q w -> Q (waitpid w).1;
  q_fdopen w fd : Q w -> Q (fdopen w fd).1;
  q_fclose w fd : Q w -> Q (fclose w fd);
  q_append w fd e : Q w -> Q (append_entry w fd e).1;
  q_open w p fl md : confined p -> Q w -> Q (open w p fl md).1;
  q_mkdir w p md : confined p -> Q w -> Q (mkdir w p md).1;
  q_rename w p q : confined p -> confined q -> Q w -> Q (rename w p q).1;
  q_fts w p : confined p -> Q w -> Q (fts w p).1;
}.

Context (QO : confined_ops).

(** the numbers of the generator can be read *)
Definition prng_ok (c : prng_ctx) : Prop := exists w p, length w = 624%nat /\ reading w c p.

Definition good (s : store) (w : W) : Prop :=
  Q w /\ prng_ok (prng_ s) /\ forall fd, store_path (STORE_CLI s fd) = [] \/ entered (store_path (STORE_CLI s fd)).

(** the handlers that need an entered store *)
Definition may (h : handler) (fd : Z) (s : store) : Prop :=
  match h with
  | on_readentered | on_sendfd | on_post_enter_response => entered (store_path (STORE_CLI s fd))
  | on_store_readable | on_readreq | on_index_response | on_sent_store_list | on_store_finalize => True
  end.

(** a step of the daemon for the client [fd]: the paths of other clients stay,
    and an entered store is not left *)
Definition advances (fd : Z) (s s' : store) : Prop :=
  (prng_ok (prng_ s) -> prng_ok (prng_ s')) /\ (forall fd', fd' <> fd -> STORE_CLI s' fd' = STORE_CLI s fd') /\
  (entered (store_path (STORE_CLI s fd)) -> entered (store_path (STORE_CLI s' fd))) /\
  (store_path (STORE_CLI s' fd) = store_path (STORE_CLI s fd) \/ entered (store_path (STORE_CLI s' fd))).

Lemma advances_refl fd s : advances fd s s.
Proof. split; [done|]. split; [done|]. split; [done|by left]. Qed.

Lemma advances_trans fd s1 s2 s3 : advances fd s1 s2 -> advances fd s2 s3 -> advances fd s1 s3.
Proof.
  intros (P1 & O1 & E1 & S1) (P2 & O2 & E2 & S2). split; [auto|]. split; [intros fd' Hne; by rewrite O2, O1|]. split; [auto|].
  destruct S2 as [->|?]; [done|by right].
Qed.

Lemma STORE_CLI_set s fd c : STORE_CLI (set_cli s fd c) fd = c.
Proof. unfold STORE_CLI, set_cli. cbn. by rewrite lookup_insert_eq. Qed.

Lemma STORE_CLI_other s fd c fd' : fd' <> fd -> STORE_CLI (set_cli s fd c) fd' = STORE_CLI s fd'.
Proof. intros Hne. unfold STORE_CLI, set_cli. cbn. by rewrite lookup_insert_ne. Qed.

Lemma advances_set s fd c : store_path c = store_path (STORE_CLI s fd) \/ entered (store_path c) -> advances fd s (set_cli s fd c).
Proof.
  intros Hc. split; [done|]. split; [intros fd' Hne; by apply STORE_CLI_other|]. rewrite STORE_CLI_set. split; [|done]. intros He. by destruct Hc as [->|?].
Qed.

Lemma advances_good fd s s' w w' : good s w -> advances fd s s' -> Q w' -> good s' w'.
Proof.
  intros (_ & Hp & Hs) (P & O & E & S) HQ. split; [done|]. split; [auto|]. intros fd'. destruct (decide (fd' = fd)) as [->|Hne]; [|by rewrite O].
  destruct S as [->|?]; [done|by right].
Qed.

Lemma advances_may fd s s' : advances fd s s' -> forall h fd', may h fd' s -> may h fd' s'.
Proof.
  intros (_ & O & E & _) h fd'. assert (H : entered (store_path (STORE_CLI s fd')) -> entered (store_path (STORE_CLI s' fd'))).
  { destruct (decide (fd' = fd)) as [->|Hne]; [done|by rewrite O]. }
  by destruct h.
Qed.

(** what a handler returns *)
Definition stepped (fd : Z) (s : store) : store * W * calls -> Prop := fun '(s', w', cmds) => advances fd s s' /\ Q w' /\ Forall (may_cmd may s') cmds.

(** *** The operations that handlers use *)

Lemma ycl_sendfd_keeps w y fd err : Q w -> yields (fun x => Q x.1) (ycl_sendfd fuel w y fd err).
Proof. apply ycl_sendfd_yields, (q_sendmsg QO). Qed.

Lemma ycl_recvmsg_keeps w y msg : Q w -> yields (fun x => Q x.1.1) (ycl_recvmsg alloc_ok fuel w y msg).
Proof. apply ycl_recvmsg_yields, (q_read QO). Qed.

Lemma init_index_keeps w : Q w -> Q (init_index w).1.
Proof.
  intros Hw. unfold init_index. pose proof (q_open QO w STORE_INDEX (Z.lor O_WRONLY (Z.lor O_CREAT O_APPEND)) (Some 0x180) confined_index Hw) as H1.
  destruct (open _ _ _ _) as [w1 [fd|e]]; cbn [fst] in *; [|done]. pose proof (q_fdopen QO w1 fd H1) as H2. destruct (fdopen w1 fd) as [w2 ok]. cbn [fst] in H2.
  destruct (negb ok); [by apply (q_close QO)|done].
Qed.

(** a prefix and an identifier *)
Lemma hex_id m p l subdir id : term m p l -> l = STORE_IDSZ -> all_chars id_char (Z.to_nat l) m p = Ret true -> cstr_at m (p + STORE_IDSZ - STORE_PREFIXSZ) = Ret subdir ->
  rds m p l = Ret id -> hexs subdir /\ zlen subdir = STORE_PREFIXSZ /\ hexs id /\ zlen id = STORE_IDSZ.
Proof.
  intros Ht El Hok Hs Hid. replace (p + STORE_IDSZ - STORE_PREFIXSZ) with (p + (STORE_IDSZ - STORE_PREFIXSZ)) in Hs by lia.
  destruct (valid_string id_char m p l (STORE_IDSZ - STORE_PREFIXSZ) subdir Ht Hok) as (H1 & _ & H2); [rewrite El; unfold STORE_IDSZ, STORE_PREFIXSZ; lia|done|].
  split; [by apply hexs_all|]. split; [rewrite H2, El by done; done|]. split; [apply hexs_all, (valid_slice id_char m p l); [by destruct Ht|done|done]|].
  unfold rds in Hid. destruct (_ && (p + l <=? zlen m)) eqn:E; [|done]. injection Hid as <-. apply andb_prop in E as [E1 E2]. apply andb_prop in E1 as [E1 E3]. zbool.
  unfold STORE_IDSZ, zlen in *. rewrite length_take, length_drop. lia.
Qed.

(** what comes of a path and a result *)
Definition entering (path : bytes) (w' : W) (path' : bytes) (ret : Z) : Prop := Q w' /\ (path' = path \/ entered path') /\ (ret = 0 -> entered path') /\ (ret = 0 \/ ret = -1).

Lemma enter_store_keeps w path m id len excl : Q w -> (forall p, id = Some p -> term m p len) ->
  yields (fun '(w', path', ret) => entering path w' path' ret) (enter_store w path m id len excl).
Proof.
  intros Hw Ht. unfold enter_store, is_valid_store_id. assert (Hfail : forall w', Q w' -> entering path w' path (-1)) by (intros w' H1; split; [done|]; split; [by left|]; split; [done|by right]).
  destruct id as [p|]; [|apply yields_ret; by apply Hfail]. destruct (Z.eqb_spec len STORE_IDSZ) as [El|]; cbn [negb]; [|apply yields_ret; by apply Hfail].
  destruct (all_chars id_char (Z.to_nat len) m p) as [[|]| |] eqn:Eok; [|apply yields_ret; by apply Hfail|done|done]. cbn [mbind outcome_mbind negb].
  destruct (cstr_at m (p + STORE_IDSZ - STORE_PREFIXSZ)) as [subdir| |] eqn:Es; [|done|done]. cbn [mbind outcome_mbind].
  assert (Hsub : hexs subdir /\ zlen subdir = STORE_PREFIXSZ).
  { replace (p + STORE_IDSZ - STORE_PREFIXSZ) with (p + (STORE_IDSZ - STORE_PREFIXSZ)) in Es by lia.
    destruct (valid_string id_char m p len (STORE_IDSZ - STORE_PREFIXSZ) subdir (Ht p eq_refl) Eok) as (H1 & _ & H2); [rewrite El; unfold STORE_IDSZ, STORE_PREFIXSZ; lia|done|].
    split; [by apply hexs_all|]. by rewrite H2, El by done. }
  destruct Hsub as [Hsub Hsubl]. pose proof (q_mkdir QO w subdir 0x1c0 (confined_prefix _ Hsub Hsubl) Hw) as H1.
  destruct (mkdir w subdir 0x1c0) as [w1 e1]. cbn [fst] in H1. destruct (match e1 with Some e => negb (e =? EEXIST) | None => false end); [apply yields_ret; by apply Hfail|].
  destruct (rds m p len) as [i| |] eqn:Ei; [|done|done]. cbn [mbind outcome_mbind]. destruct (hex_id m p len subdir i (Ht p eq_refl) El Eok Es Ei) as (_ & _ & Hi & Hil).
  set (path' := snprintf _ _). assert (He : entered path').
  { exists subdir, i. split; [|done]. unfold path', snprintf. unfold STORE_PREFIXSZ, STORE_IDSZ, zlen in *. rewrite (take_ge subdir) by lia. apply take_ge. rewrite !length_app. cbn [length]. lia. }
  pose proof (q_mkdir QO w1 path' 0x1c0 (confined_store _ He) H1) as H2. destruct (mkdir w1 path' 0x1c0) as [w2 e2]. cbn [fst] in H2.
  destruct (match e2 with Some e => _ | None => false end); apply yields_ret; (split; [done|]; split; [by right|]; split; [done|auto]).
Qed.

Lemma gen_store_path_keeps c : prng_ok c -> yields (fun '(c', id) => prng_ok c' /\ hexs id /\ zlen id = STORE_IDSZ) (gen_store_path c (STORE_IDSZ + 1)).
Proof.
  intros (w & p & Hl & Hr). unfold gen_store_path, prng_hex. destruct (hex_loop_spec w Hl (Z.to_nat (STORE_IDSZ + 1 - 1)) c p 0 0 Hr ltac:(lia)) as (c' & q & ds & -> & Hr' & Hlen & Hds).
  apply yields_ret. split; [by exists w, q|]. split; [|unfold zlen; by rewrite Hlen]. eapply Forall_impl; [exact Hds|]. intros x Hx. apply id_char_hex.
  repeat (apply elem_of_cons in Hx as [->|Hx]; [done|]). by apply not_elem_of_nil in Hx.
Qed.

Lemma create_loop_keeps n : forall s w path ret, Q w -> prng_ok (prng_ s) -> (n = O -> ret = -1) ->
  yields (fun '(s', w', path', ret) => clis s' = clis s /\ prng_ok (prng_ s') /\ entering path w' path' ret) (create_loop n s w path ret).
Proof.
  induction n as [|n IH]; intros s w path ret Hw Hp Hret; cbn [create_loop].
  { apply yields_ret. rewrite Hret by done. split; [done|]. split; [done|]. split; [done|]. split; [by left|]. split; [done|by right]. }
  eapply yields_bind; [by apply gen_store_path_keeps|]. intros [c id] (Hc & Hid & Hl). cbv zeta.
  eapply yields_bind.
  { apply (enter_store_keeps w path (id ++ [0]) (Some 0) STORE_IDSZ true Hw). intros p [= <-]. split; [lia|]. split; [done|]. rewrite lookup_app_r by (unfold zlen in *; lia).
    replace (Z.to_nat (0 + STORE_IDSZ) - length id)%nat with 0%nat by (unfold zlen in *; lia). done. }
  intros [[w1 path1] r1] (H1 & H2 & H3 & H4). destruct (Z.eqb_spec r1 0) as [->|Hne].
  - apply yields_ret. split; [done|]. split; [done|]. split; [done|]. split; [done|]. split; [done|by left].
  - destruct H4 as [?| ->]; [done|]. eapply yields_impl; [by apply IH|]. intros [[[s2 w2] path2] r2] (E1 & E2 & E3 & E4 & E5 & E6). split; [done|]. split; [done|]. split; [done|].
    split; [|by split]. destruct E4 as [->|?]; [done|by right].
Qed.

(** *** Handlers *)

Lemma store_stepped_ret fd s s' w cmds : advances fd s s' -> Q w -> Forall (may_cmd may s') cmds -> yields (stepped fd s) (Ret (s', w, cmds)).
Proof. intros. by apply yields_ret. Qed.

Lemma store_stepped_after fd s s1 r : advances fd s s1 -> yields (stepped fd s1) r -> yields (stepped fd s) r.
Proof. intros Ha Hr. eapply yields_impl; [exact Hr|]. intros [[s' w'] cmds] (H1 & H2 & H3). split; [by eapply advances_trans|done]. Qed.

Lemma advances_same fd s c : store_path c = store_path (STORE_CLI s fd) -> advances fd s (set_cli s fd c).
Proof. intros E. apply advances_set. by left. Qed.

Lemma write_err_response_stepped s w fd errmsg : Q w -> yields (stepped fd s) (write_err_response alloc_ok s w fd errmsg).
Proof.
  intros Hw. unfold write_err_response. eapply yields_bind; [apply reading_any|]. intros [msg ret] _. apply store_stepped_ret; [by apply advances_same|done|].
  constructor; [done|]. destruct (negb _); constructor; [|constructor]. by intros t [=].
Qed.

Lemma send_entered_response_stepped s w fd okmsg errmsg : Q w -> entered (store_path (STORE_CLI s fd)) -> yields (stepped fd s) (send_entered_response alloc_ok s w fd okmsg errmsg).
Proof.
  intros Hw He. unfold send_entered_response. eapply yields_bind; [apply reading_any|]. intros [msg ret] _. apply store_stepped_ret; [by apply advances_same|done|].
  destruct (negb _); constructor; [|constructor]. intros t [= <-]. split; intros h [= <-]. unfold may. by rewrite STORE_CLI_set.
Qed.

(** a string of a valid path is the name of a file *)
Lemma valid_path_name m path len s : (forall p, path = Some p -> term m p len) -> is_valid_path m path len = Ret true -> str m path = Ret s -> file_name s.
Proof.
  intros Ht Hok Hs. unfold is_valid_path, str in *. destruct path as [p|]; [|done]. destruct (Z.leb_spec STORE_MAXPATH len) as [|Hlt]; [done|].
  destruct (Ht p eq_refl) as (Hp & Hl & H0). rewrite <- (Z.add_0_r p) in Hs.
  destruct (valid_string path_char m p len 0 s (Ht p eq_refl) Hok ltac:(lia) Hs) as (H1 & H2 & _). split; [|lia].
  eapply Forall_impl; [exact H1|]. apply path_char_name.
Qed.

Lemma handle_store_open_stepped s w fd m path len flags : Q w -> entered (store_path (STORE_CLI s fd)) -> (forall p, path = Some p -> term m p len) ->
  yields (stepped fd s) (handle_store_open nullfd s w fd m path len flags).
Proof.
  intros Hw He Ht. unfold handle_store_open.
  assert (Hr : forall w' c, Q w' -> store_path c = store_path (STORE_CLI s fd) -> yields (stepped fd s) (Ret (set_cli s fd c, w', [SetOnReadable fd None 0; SetOnWritable fd (Some on_sendfd) 0]))).
  { intros w' c HQ Hc. apply store_stepped_ret; [by apply advances_same|done|]. constructor; [by intros h [=]|]. constructor; [|constructor]. intros h [= <-]. unfold may. by rewrite STORE_CLI_set, Hc. }
  eapply yields_bind; [apply reading_any|]. intros first _. destruct (first =? 0); [by apply Hr|].
  destruct (is_valid_path m path len) as [[|]| |] eqn:Ev; [|by apply Hr|done|done]. cbn [mbind outcome_mbind negb].
  destruct (str m path) as [p| |] eqn:Es; [|done|done]. cbn [mbind outcome_mbind]. pose proof (valid_path_name m path len p Ht Ev Es) as Hn.
  set (c := set_open _ _ _). pose proof (q_open QO w (dirpath c p) (i32 flags) (if flag_set (i32 flags) O_CREAT then Some 0x180 else None) (dirpath_confined c p He Hn) Hw) as H1.
  destruct (open _ _ _ _) as [w1 [f|e]]; cbn [fst] in H1; by apply Hr.
Qed.

Lemma handle_store_rename_stepped s w fd m from to : Q w -> entered (store_path (STORE_CLI s fd)) -> (forall p, from.1 = Some p -> term m p from.2) -> (forall p, to.1 = Some p -> term m p to.2) ->
  yields (stepped fd s) (handle_store_rename (LR := LR) alloc_ok s w fd m from to).
Proof.
  intros Hw He Hf Ht. unfold handle_store_rename.
  destruct (is_valid_path m from.1 from.2) as [[|]| |] eqn:E1; [|by apply send_entered_response_stepped|done|done]. cbn [mbind outcome_mbind negb].
  destruct (is_valid_path m to.1 to.2) as [[|]| |] eqn:E2; [|by apply send_entered_response_stepped|done|done]. cbn [mbind outcome_mbind negb].
  destruct (str m from.1) as [f| |] eqn:E3; [|done|done]. cbn [mbind outcome_mbind]. destruct (str m to.1) as [t| |] eqn:E4; [|done|done]. cbn [mbind outcome_mbind].
  set (c := STORE_CLI s fd). pose proof (q_rename QO w (dirpath c f) (dirpath c t) (dirpath_confined c f He (valid_path_name _ _ _ _ Hf E1 E3)) (dirpath_confined c t He (valid_path_name _ _ _ _ Ht E2 E4)) Hw) as H1.
  destruct (rename _ _ _) as [w1 e]. cbn [fst] in H1. by apply send_entered_response_stepped.
Qed.

(** receiving and parsing a request *)
Lemma request_stepped s w fd fields (f : store -> W -> ycl_msg -> list parsed -> Z -> outcome (store * W * calls)) : Q w ->
  (forall s' w' msg req ret, advances fd s s' -> Q w' -> members_term (Buf.data (Ycl.buf msg)) req -> yields (stepped fd s) (f s' w' msg req ret)) ->
  yields (stepped fd s)
    (let ecli := STORE_CLI s fd in
     '(w, msg, ret) ← ycl_recvmsg alloc_ok fuel w (ycl ecli) (msgbuf ecli);
     let s := set_cli s fd (set_msgbuf ecli msg) in
     if ret =? YCL_AGAIN then Ret (s, w, [])
     else if negb (ret =? YCL_OK) then Ret (s, w, [ClearActions fd])
     else '(msg, req, ret) ← ycl_msg_parse alloc_ok fields msg; f (set_cli s fd (set_msgbuf ecli msg)) w msg req ret).
Proof.
  intros Hw Hf. cbv zeta. eapply yields_bind; [by apply ycl_recvmsg_keeps|]. intros [[w1 msg] ret] H1. cbn [fst] in H1.
  set (s1 := set_cli s fd _). assert (A1 : advances fd s s1) by (by apply advances_same). destruct (ret =? YCL_AGAIN); [by apply store_stepped_ret; [..|constructor]|].
  destruct (negb _); [apply store_stepped_ret; [done|done|by repeat constructor]|]. eapply yields_bind; [apply ycl_msg_parse_term|]. intros [[msg1 req] r1] Hr.
  apply Hf; [|done|done]. eapply advances_trans; [exact A1|]. apply advances_same. unfold s1. by rewrite STORE_CLI_set.
Qed.

Lemma member_spec m req i : members_term m req -> forall p, (data_of req i).1 = Some p -> term m p (data_of req i).2.
Proof. intros Hr p E. apply (data_of_term m req i); [done|]. by destruct (data_of req i) as [d l]; cbn in *; subst d. Qed.

Lemma entered_advances fd s s' : advances fd s s' -> entered (store_path (STORE_CLI s fd)) -> entered (store_path (STORE_CLI s' fd)).
Proof. by intros (_ & _ & He & _). Qed.

Lemma do_readentered_stepped s w fd : Q w -> entered (store_path (STORE_CLI s fd)) -> yields (stepped fd s) (do_readentered (LR := LR) alloc_ok nullfd fuel s w fd).
Proof.
  intros Hw He. eapply yields_impl; [apply (request_stepped s w fd store_entered_fields (fun s w msg req ret =>
    let m := Buf.data (Ycl.buf msg) in let action := data_of req 0 in
    if negb (ret =? YCL_OK) then write_err_response alloc_ok s w fd (lit "open request parse error")
    else if action.2 =? 0 then write_err_response alloc_ok s w fd (lit "missing 'action' field in request")
    else is_open ← streq m action.1 (lit "open");
      if (is_open : bool) then handle_store_open nullfd s w fd m (data_of req 1).1 (data_of req 1).2 (long_of req 2)
      else is_rename ← streq m action.1 (lit "rename");
        if (is_rename : bool) then handle_store_rename (LR := LR) alloc_ok s w fd m (data_of req 3) (data_of req 4)
        else write_err_response alloc_ok s w fd (lit "unknown 'action' field in request")) Hw)|done].
  intros s1 w1 msg req ret A1 H1 Hr. cbv zeta. apply (store_stepped_after fd s s1 _ A1). assert (He1 : entered (store_path (STORE_CLI s1 fd))) by (by eapply entered_advances).
  destruct (negb _); [by apply write_err_response_stepped|]. destruct (_ =? 0); [by apply write_err_response_stepped|].
  eapply yields_bind; [apply reading_any|]. intros [] _; [by apply handle_store_open_stepped; [..|apply member_spec]|].
  eapply yields_bind; [apply reading_any|]. intros [] _; [by apply handle_store_rename_stepped; [..|apply member_spec|apply member_spec]|by apply write_err_response_stepped].
Qed.

Lemma close_open_fd_keeps w c : Q w -> Q (close_open_fd nullfd w c).
Proof. intros Hw. unfold close_open_fd. destruct (_ && _); [by apply (q_close QO)|done]. Qed.

Lemma do_sendfd_stepped s w fd : Q w -> entered (store_path (STORE_CLI s fd)) -> yields (stepped fd s) (do_sendfd nullfd fuel s w fd).
Proof.
  intros Hw He. unfold do_sendfd. eapply yields_bind; [by apply ycl_sendfd_keeps|]. intros [w1 ret] H1. cbn [fst] in H1.
  destruct (ret =? YCL_AGAIN); [by apply store_stepped_ret; [apply advances_refl|..|constructor]|]. cbv zeta.
  destruct (negb _); (apply store_stepped_ret; [apply advances_refl|by apply close_open_fd_keeps|]); repeat constructor; [by intros h [=]|]. by intros h [= <-].
Qed.

Lemma do_index_response_stepped s w fd : Q w -> yields (stepped fd s) (do_index_response nullfd fuel s w fd).
Proof.
  intros Hw. unfold do_index_response. eapply yields_bind; [by apply ycl_sendfd_keeps|]. intros [w1 ret] H1. cbn [fst] in H1.
  destruct (ret =? YCL_AGAIN); (apply store_stepped_ret; [apply advances_refl| |by repeat constructor]); [done|by apply close_open_fd_keeps].
Qed.

Lemma respond_list_stepped s w fd c errmsg : Q w -> store_path c = store_path (STORE_CLI s fd) -> yields (stepped fd s) (respond_list alloc_ok s w fd c errmsg).
Proof.
  intros Hw Hc. unfold respond_list. eapply yields_bind; [apply reading_any|]. intros entries _. eapply yields_bind; [apply reading_any|]. intros [msg ret] _.
  apply store_stepped_ret; [by apply advances_same|done|]. constructor; [|constructor]. intros t [= <-]. split; by intros h [= <-].
Qed.

Lemma list_store_content_keeps w b id re : Q w -> hexs id -> zlen id = STORE_IDSZ -> yields (fun x => Q x.1) (list_store_content (LR := LR) alloc_ok w b id re).
Proof.
  intros Hw Hid Hl. unfold list_store_content. set (p := snprintf _ _).
  assert (He : entered p).
  { exists (drop (Z.to_nat (STORE_IDSZ - STORE_PREFIXSZ)) id), id. unfold STORE_IDSZ, STORE_PREFIXSZ, zlen in *. split; [|split; [by apply Forall_drop|split; [done|split; [rewrite length_drop; lia|done]]]].
    unfold p, snprintf. apply take_ge. change (Z.to_nat (STORE_MAXDIRPATH - 1)) with 152%nat. rewrite !length_app, length_drop. cbn [length]. lia. }
  pose proof (q_fts QO w p (confined_store _ He) Hw) as H1. destruct (fts w p) as [w1 [ents|]]; cbn [fst] in H1; [|by apply yields_ret].
  eapply yields_bind; [apply reading_any|]. intros b1 _. by apply yields_ret.
Qed.

Lemma list_stores_keeps w b re : Q w -> yields (fun x => Q x.1) (list_stores (LR := LR) alloc_ok w b re).
Proof.
  intros Hw. unfold list_stores. pose proof (q_fts QO w (lit ".") confined_top Hw) as H1. destruct (fts w (lit ".")) as [w1 [ents|]]; cbn [fst] in H1; [|by apply yields_ret].
  eapply yields_bind; [apply reading_any|]. intros b1 _. by apply yields_ret.
Qed.

Lemma handle_store_list_stepped s w fd m id re : Q w -> (forall p, id.1 = Some p -> term m p id.2) -> yields (stepped fd s) (handle_store_list (LR := LR) alloc_ok s w fd m id re).
Proof.
  intros Hw Ht. unfold handle_store_list. destruct (if 0 <? id.2 then is_valid_store_id m id.1 id.2 else Ret true) as [ok| |] eqn:Ev; [|done|done]. cbn [mbind outcome_mbind].
  destruct ok; cbn [negb]; [|by apply respond_list_stepped]. eapply yields_bind; [apply reading_any|]. intros r _.
  assert (Hgo : forall rep b, yields (stepped fd s) ('(w, b) ← (if 0 <? id.2 then i ← str m id.1; list_store_content (LR := LR) alloc_ok w b i rep else list_stores (LR := LR) alloc_ok w b rep);
    respond_list alloc_ok s w fd (set_listbuf (STORE_CLI s fd) b) [])).
  { intros rep b. eapply (yields_bind (fun x => Q x.1)); [|intros [w1 b1] H1; by apply respond_list_stepped]. destruct (0 <? id.2); [|by apply list_stores_keeps].
    destruct (str m id.1) as [i| |] eqn:Es; [|done|done]. cbn [mbind outcome_mbind]. unfold is_valid_store_id in Ev. unfold str in Es. destruct id.1 as [p|]; [|done].
    destruct (Z.eqb_spec id.2 STORE_IDSZ) as [El|]; [|done]. cbn [negb] in Ev. rewrite <- (Z.add_0_r p) in Es.
    destruct (valid_string id_char m p id.2 0 i (Ht p eq_refl) Ev) as (H1 & _ & H2); [rewrite El; unfold STORE_IDSZ; lia|done|].
    apply list_store_content_keeps; [done|by apply hexs_all|]. rewrite H2, El by done. done. }
  destruct r as [[re'|]|]; [apply Hgo|by apply respond_list_stepped|apply Hgo].
Qed.

Lemma put_index_keeps s w id name x : Q w -> yields (fun r => Q r.1) (put_index s w id name x).
Proof.
  intros Hw. unfold put_index. destruct (sindex_ s) as [fp|]; [|done]. set (e := Sindex_entry _ _ _ _ _). pose proof (q_append QO w fp e Hw) as H1.
  destruct (append_entry w fp e) as [w1 ok]. cbn [fst] in H1. by apply yields_ret.
Qed.

Lemma handle_enter_stepped s w fd m id index name x : good s w -> (forall p, id.1 = Some p -> term m p id.2) -> yields (stepped fd s) (handle_enter alloc_ok s w fd m id index name x).
Proof.
  intros (Hw & Hp & _) Ht. unfold handle_enter. set (c := STORE_CLI s fd).
  eapply (yields_bind (fun '(s', w', path', ret) => (clis s' = clis s /\ (prng_ok (prng_ s'))) /\ entering (store_path c) w' path' ret)).
  { destruct id.1 as [p|] eqn:Eid.
    - eapply yields_bind; [by apply (enter_store_keeps w (store_path c) m (Some p) id.2 false Hw)|]. intros [[w1 path] ret] He. by apply yields_ret.
    - eapply yields_impl; [by apply create_loop_keeps|]. intros [[[s1 w1] path] ret] (E1 & E2 & E3). by split. }
  intros [[[s1 w1] path] ret] ([Ec Hp1] & H1 & H2 & H3 & H4). cbv zeta.
  assert (Es1 : forall fd', STORE_CLI s1 fd' = STORE_CLI s fd') by (intros fd'; unfold STORE_CLI; by rewrite Ec).
  set (c2 := set_store_path c path). set (s2 := set_cli s1 fd c2).
  assert (A2 : advances fd s s2).
  { split; [done|]. split; [intros fd' Hne; unfold s2; by rewrite STORE_CLI_other, Es1|]. unfold s2. rewrite STORE_CLI_set. split; [|by destruct H2; [left|right]].
    intros He. destruct H2 as [E|?]; [unfold c2; cbn; rewrite E; exact He|done]. }
  apply (store_stepped_after fd s s2 _ A2). destruct (Z.ltb_spec ret 0) as [Hneg|Hpos]; [by apply write_err_response_stepped|]. assert (He : entered path) by (apply H3; lia).
  eapply (yields_bind (fun r => Q r.1)).
  { destruct (negb (index =? 0)); [|by apply yields_ret]. eapply yields_bind; [apply reading_any|]. intros n _. by apply put_index_keeps. }
  intros [w2 r2] Hw2. eapply yields_bind.
  { apply send_entered_response_stepped; [exact Hw2|]. unfold s2. by rewrite STORE_CLI_set. }
  intros [[s3 w3] cmds] (A3 & H5 & H6). apply store_stepped_ret; [done|done|]. constructor; [by intros h [=]|done].
Qed.

Lemma handle_index_stepped s w fd : Q w -> yields (stepped fd s) (handle_index nullfd s w fd).
Proof.
  intros Hw. unfold handle_index. pose proof (q_open QO w STORE_INDEX O_RDONLY None confined_index Hw) as H1. destruct (open w STORE_INDEX O_RDONLY None) as [w1 r]. cbn [fst] in H1.
  eapply (yields_bind (fun '(s', w', _) => clis s' = clis s /\ prng_ s' = prng_ s /\ Q w')).
  { destruct r as [f|e]; [by apply yields_ret|]. destruct (e =? ENOENT); [|by apply yields_ret]. unfold reinit_index. destruct (sindex_ s) as [fp|]; [|done].
    pose proof (init_index_keeps (fclose w1 fp) (q_fclose QO w1 fp H1)) as H2. destruct (init_index (fclose w1 fp)) as [w2 fp2]. cbn [fst] in H2. cbn [mbind outcome_mbind].
    pose proof (q_open QO w2 STORE_INDEX O_RDONLY None confined_index H2) as H3. destruct (open w2 STORE_INDEX O_RDONLY None) as [w3 r3]. cbn [fst] in H3. by apply yields_ret. }
  intros [[s1 w2] r2] (Ec & Ep & H2). cbv zeta. set (c := match r2 with inl _ => _ | inr _ => _ end).
  assert (Hc : store_path c = store_path (STORE_CLI s fd)) by (unfold c, STORE_CLI; rewrite Ec; by destruct r2).
  apply store_stepped_ret; [|done|repeat constructor; by intros h [= <-]].
  split; [by cbn; rewrite Ep|]. split; [intros fd' Hne; rewrite STORE_CLI_other by done; unfold STORE_CLI; by rewrite Ec|]. rewrite STORE_CLI_set, Hc. split; [done|by left].
Qed.

Lemma do_readreq_stepped s w fd : good s w -> yields (stepped fd s) (do_readreq (LR := LR) alloc_ok nullfd fuel s w fd).
Proof.
  intros Hg. pose proof Hg as (Hw & _ & _). eapply yields_impl; [apply (request_stepped s w fd store_req_fields (fun s w msg req ret =>
    let m := Buf.data (Ycl.buf msg) in let action := data_of req 0 in
    if negb (ret =? YCL_OK) then write_err_response alloc_ok s w fd (lit "store request parse error")
    else if action.2 =? 0 then write_err_response alloc_ok s w fd (lit "missing store action")
    else is_enter ← streq m action.1 (lit "enter");
      if (is_enter : bool) then handle_enter alloc_ok s w fd m (data_of req 1) (long_of req 3) (data_of req 4).1 (long_of req 5)
      else is_index ← streq m action.1 (lit "index");
        if (is_index : bool) then handle_index nullfd s w fd
        else is_list ← streq m action.1 (lit "list");
          if (is_list : bool) then handle_store_list (LR := LR) alloc_ok s w fd m (data_of req 1) (data_of req 2)
          else write_err_response alloc_ok s w fd (lit "invalid store action")) Hw)|done].
  intros s1 w1 msg req ret A1 H1 Hr. cbv zeta. apply (store_stepped_after fd s s1 _ A1). assert (Hg1 : good s1 w1) by (by eapply advances_good).
  destruct (negb _); [by apply write_err_response_stepped|]. destruct (_ =? 0); [by apply write_err_response_stepped|].
  eapply yields_bind; [apply reading_any|]. intros [] _; [by apply handle_enter_stepped; [|apply member_spec]|].
  eapply yields_bind; [apply reading_any|]. intros [] _; [by apply handle_index_stepped|].
  eapply yields_bind; [apply reading_any|]. intros [] _; [by apply handle_store_list_stepped; [|apply member_spec]|by apply write_err_response_stepped].
Qed.

Lemma store_body_stepped h fd s w : may h fd s -> good s w -> yields (stepped fd s) (store_body (LR := LR) alloc_ok nullfd fuel h fd s w).
Proof.
  intros Hm Hg. pose proof Hg as (Hw & _ & _). destruct h; cbn [store_body may] in *.
  - unfold store_on_readable. assert (Hgo : forall c, store_path c = store_path (STORE_CLI s fd) -> yields (stepped fd s) (Ret (set_cli s fd c, w, [SetOnReadable fd (Some on_readreq) 0]))).
    { intros c Hc. apply store_stepped_ret; [by apply advances_same|done|]. repeat constructor. by intros h [= <-]. }
    cbv zeta. destruct (flag_set _ _); [by apply Hgo|]. destruct (ycl_msg_init alloc_ok); [by apply Hgo|]. apply store_stepped_ret; [by apply advances_same|done|by repeat constructor].
  - by apply do_readreq_stepped.
  - by apply do_readentered_stepped.
  - by apply do_sendfd_stepped.
  - apply store_stepped_ret; [by apply advances_same|done|]. repeat constructor. intros h [= <-]. cbn [may]. by rewrite STORE_CLI_set.
  - by apply do_index_response_stepped.
  - apply store_stepped_ret; [by apply advances_same|done|]. repeat constructor; by intros h [= <-].
  - unfold store_on_finalize. destruct (flag_set _ _); (apply store_stepped_ret; [|done|constructor]); [by apply advances_same|apply advances_refl].
Qed.

(** the daemon after [eds_service_init] *)
Definition running (procs fds fd : Z) : @eds_service handler :=
  Service (Eds.name stored) (Eds.path stored) (actions stored) procs fds 0 None None None fd.

Lemma init_running w w' svc : eds_service_init stored w = (w', Some svc) -> exists procs fds fd, svc = running procs fds fd.
Proof.
  unfold eds_service_init. change (Eds.name stored) with (Some (lit "stored")). change (Eds.path stored) with (Some (lit "stored.sock")). cbv iota.
  destruct (FD_SETSIZE <? nfds stored); [done|]. destruct (_ && _); [done|]. destruct (io_listen_unix w (lit "stored.sock")) as [w1 [fd|]]; [|done].
  intros [= _ <-]. by eexists _, _, fd.
Qed.

Lemma stored_laws procs fds fd : safe_laws (running procs fds fd) (store_body (LR := LR) alloc_ok nullfd fuel) may good (fun _ => good).
Proof.
  split.
  - intros h c s w Hm Hg. eapply yields_impl; [by apply store_body_stepped|]. intros [[s' w'] cmds] (A & HQ & Hc). split; [by eapply advances_good|]. split; [by eapply advances_may|done].
  - intros c s. split; [by intros h [= <-]|]. split; [by intros h [=]|]. split; [by intros h [=]|by intros h [= <-]].
  - by intros s h [=].
  - done.
  - intros s w (HQ & Hp & Hs). assert (Hg : forall w', Q w' -> good s w') by (intros w' H; by split).
    split; [by apply Hg, (q_accept QO)|]. split; [intros c; by apply Hg, (q_close QO)|]. split; [intros c bs; by apply Hg, (q_write QO)|]. split; [intros r wr; by apply Hg, (q_select QO)|].
    split; [by apply Hg, (q_clock QO)|]. intros c x y. by apply Hg, (q_fcntl QO).
  - intros s w (HQ & Hp & Hs). pose proof (q_waitpid QO w HQ) as Hw. destruct (waitpid w) as [w' [[pid st]|e]]; [destruct (0 <? pid)|]; by split.
  - done.
Qed.

Lemma store_init_good s w s' w' : clis s = ∅ -> store_init s w = (s', w', 0) -> Q w' -> good s' w'.
Proof.
  intros Hc. unfold store_init. destruct (mkdir _ _ _) as [w1 e]. destruct (match e with Some e => _ | None => _ end); [done|].
  destruct (chdir _ _) as [w2 ok]. destruct (negb ok); [done|]. destruct (init_index w2) as [w3 [fp|]]; [|done]. destruct (now w3) as [w4 [t|]]; [|done]. intros [= <- <-] HQ.
  split; [done|]. split; [exists (mt (prng_init (u32 t))), 624%nat; split; [apply init_length|apply init_reading]|]. intros fd. left. unfold STORE_CLI. cbn [clis]. by rewrite Hc.
Qed.
End Confined.

(** C2: whatever its clients send and the system answers, the daemon makes
    directories, opens, renames and lists only under paths that consist of two
    hexadecimal digits, or of these, twenty hexadecimal digits and the name of
    a file, which has no slash, but for the index and the working directory:
    what such operations keep holds as long as the daemon runs. *)
Theorem store_confined {W R : Type} {SW : Sys W} {EW : EdsSys W} {FW : Files W} {XW : StoreFiles W} {LR : Libc R} alloc_ok nullfd fuel (Q : W -> Prop) w0 w1 svc s0 a w s last :
  confined_ops Q -> eds_service_init stored w0 = (w1, Some svc) -> clis s0 = ∅ -> store_init s0 w1 = (a, w, 0) -> Q w ->
  reachable svc (store_body (LR := LR) alloc_ok nullfd fuel) load a w s last -> Q (world s).
Proof.
  intros QO Hi Hc Hs HQ Hr. destruct (init_running _ _ _ Hi) as (procs & fds & fd & ->).
  assert (Hg : good Q a w) by (by eapply store_init_good).
  pose proof (reachable_keeps _ _ _ may (good Q) _ (stored_laws alloc_ok nullfd fuel Q QO procs fds fd) a w s last Hg Hr) as K.
  by destruct (kept_good _ _ _ _ K).
Qed.

(** ** A client that enters a store and opens a file *)

(** what is read, what was written, the paths that were used after [chdir], and
    what [select] returns *)
Record disk : Type := Disk { sent : list bytes; received : bytes; paths : list bytes; readies : list (gset Z) }.

Definition note (w : disk) (p : bytes) : disk := Disk (sent w) (received w) (paths w ++ [p]) (readies w).

#[export] Instance disk_sys : Sys disk := {|
  read w fd n := match sent w with bs :: l => (Disk l (received w) (paths w) (readies w), inl bs) | [] => (w, inr EAGAIN) end;
  write w fd bs := (Disk (sent w) (received w ++ bs) (paths w) (readies w), inl (zlen bs));
  writev w fd bss := (w, inl (zlen (concat bss)));
  poll_in w fd := (w, true);
  poll_out w fd := (w, true);
  close w fd := (w, true);
  accept w fd := (w, inl 4);
  socket w := (w, Some 3);
  connect w fd p := (w, true);
  bind w fd p := (w, true);
  listen w fd := (w, true);
  unlink w p := w;
  chmod w p m := w;
  sendmsg w fd m f := (w, inl ());
  recvmsg w fd := (w, inl (0, Some 4));
  fcntl w fd c a := (w, 0);
|}.

#[export] Instance disk_eds : EdsSys disk := {|
  select w r wr := match readies w with q :: l => (Disk (sent w) (received w) (paths w) l, inl (q ∩ r, ∅)) | [] => (w, inr 9) end;
  clock_gettime w := (w, (0, 0));
  waitpid w := (w, inr 10);
|}.

#[export] Instance disk_files : Files disk := {|
  open w p fl md := (note w p, inl 9);
  mkdir w p md := (note w p, None);
  now w := (w, Some 5);
|}.

#[export] Instance disk_store : StoreFiles disk := {|
  rename w p q := (note (note w p) q, None);
  chdir w p := (Disk (sent w) (received w) [] (readies w), true);
  fts w p := (note w p, Some []);
  fdopen w fd := (w, true);
  fclose w fd := w;
  append_entry w fd e := (w, true);
|}.

#[export] Instance no_libc : Libc () := {| strerror e := lit "error"; regcomp s := None; regexec r s := false |}.

Lemma disk_confined : confined_ops (fun w => Forall confined (paths w)).
Proof.
  split; intros; cbn; try done; try (apply Forall_app; split; [done|by apply Forall_singleton]).
  - by destruct (sent w).
  - by destruct (readies w).
  - rewrite <- app_assoc. apply Forall_app. split; [done|]. by apply Forall_cons; split; [|apply Forall_singleton].
Qed.

Definition request (fields : list yclgen_field) (r : list member) : bytes :=
  match ycl_msg_init all_ok with
  | Some msg => match ycl_msg_create all_ok fields msg r with Ret (msg, _) => contents (Ycl.buf msg) | _ => [] end
  | None => []
  end.

Definition demo_id : bytes := lit "0123456789abcdef01ab".

Definition demo_disk : disk :=
  Disk [request store_req_fields [Data (lit "enter"); Data demo_id; Data []; Long 0; Data []; Long 0];
        request store_entered_fields [Data (lit "open"); Data (lit "report"); Long 0; Data []; Data []]] [] [] [{[3]}; {[4]}].

Definition demo_store : store := Store ∅ (Prng [] [] 0) None.

Definition demo_run : option (@state disk store handler pointer) :=
  match eds_service_init stored demo_disk with
  | (w1, Some svc) =>
      match store_init demo_store w1 with
      | (a, w, 0) => match turns svc (store_body all_ok 8 20) load 60 (initial svc a w) (0, 0) [false; false] with Ret (s, Again) => Some s | _ => None end
      | _ => None
      end
  | _ => None
  end.

Lemma store_confined_witness :
  match demo_run with
  | Some s => Forall confined (paths (world s)) /\ paths (world s) = [STORE_INDEX; lit "ab"; lit "ab/" ++ demo_id; lit "ab/" ++ demo_id ++ lit "/report"]
  | None => False
  end.
Proof.
  destruct demo_run as [s|] eqn:E; [|vm_compute in E; discriminate E]. split; [|vm_compute in E; by injection E as <-]. unfold demo_run in E.
  destruct (eds_service_init stored demo_disk) as [w1 [svc|]] eqn:Ei; [|done]. destruct (store_init demo_store w1) as [[a w] ret] eqn:Es. destruct ret; try done.
  destruct (turns _ _ _ _ _ _ _) as [[s' [|st]]| |] eqn:Et; try done. injection E as ->.
  destruct (turns_reachable svc (store_body all_ok 8 20) load a w 60 [false; false] (initial svc a w) (0, 0) s (reach_initial _ _ _ _ _ _) Et) as (last & Hr).
  apply (store_confined all_ok 8 20 (fun w => Forall confined (paths w)) demo_disk w1 svc demo_store a w s last disk_confined Ei eq_refl Es); [|exact Hr].
  assert (Hp : paths w = [STORE_INDEX]) by (vm_compute in Ei; injection Ei as <- <-; vm_compute in Es; by injection Es as <- <-). rewrite Hp. repeat constructor.
Defined.

(** The name of a file may be "..", so that a client that entered a store
    gets a descriptor of the directory above it, where all stores of the same
    prefix are. *)
Theorem store_opens_parent {W R : Type} {SW : Sys W} {FW : Files W} {XW : StoreFiles W} {LR : Libc R} nullfd (s : store) (w : W) fd flags :
  entered (store_path (STORE_CLI s fd)) -> flag_set (i32 flags) O_CREAT = false ->
  exists s' cmds, handle_store_open nullfd s w fd (lit ".." ++ [0]) (Some 0) 2 flags =
    Ret (s', (open w (store_path (STORE_CLI s fd) ++ lit "/..") (i32 flags) None).1, cmds).
Proof.
  intros He Hf. unfold handle_store_open. change (rd (lit ".." ++ [0]) 0) with (Ret 46). cbn [mbind outcome_mbind]. change (46 =? 0) with false. cbv iota.
  change (is_valid_path (lit ".." ++ [0]) (Some 0) 2) with (Ret true). cbn [mbind outcome_mbind negb]. change (str (lit ".." ++ [0]) (Some 0)) with (Ret (lit "..")). cbn [mbind outcome_mbind].
  rewrite Hf. set (c := set_open _ _ _). assert (Hd : dirpath c (lit "..") = store_path (STORE_CLI s fd) ++ lit "/..").
  { unfold dirpath, snprintf. rewrite take_ge; [done|]. pose proof (entered_length _ He) as Hz. change (store_path c) with (store_path (STORE_CLI s fd)).
    change (Z.to_nat (STORE_MAXDIRPATH - 1)) with 152%nat. rewrite !length_app. unfold zlen in Hz. change (length (lit "..")) with 2%nat. cbn [length]. lia. }
  rewrite Hd. destruct (open _ _ _ _) as [w1 [f|e]]; by eexists _, _.
Qed.

(** a client, entered, with an empty buffer *)
Definition demo_client : store :=
  set_cli demo_store 4 (Cli STOREFL_HASMSGBUF (ycl_init 4) (default (Msg (Buf 0 0 []) (Buf 0 0 []) (Buf 0 0 []) 0 0 0) (ycl_msg_init all_ok)) (lit "ab/" ++ demo_id) 0 0 (Buf 0 0 [])).

Lemma store_opens_parent_witness :
  entered (store_path (STORE_CLI demo_client 4)) /\
  exists s' cmds, handle_store_open 8 demo_client (Disk [] [] [] []) 4 (lit ".." ++ [0]) (Some 0) 2 O_RDONLY =
    Ret (s', (open (Disk [] [] [] []) (store_path (STORE_CLI demo_client 4) ++ lit "/..") (i32 O_RDONLY) None).1, cmds).
Proof.
  assert (He : entered (store_path (STORE_CLI demo_client 4))).
  { exists (lit "ab"), demo_id. split; [reflexivity|]. split; [by repeat constructor|]. split; [by repeat constructor|]. by split. }
  split; [exact He|]. apply (store_opens_parent (R := ()) 8 demo_client (Disk [] [] [] []) 4 O_RDONLY He). reflexivity.
Defined.

(** the names "a" and "b" of a request to rename *)
Definition rename_names : bytes := lit "a" ++ [0] ++ lit "b" ++ [0].

(** Requests are still read while the response to a rename is sent, into the
    buffer that it is sent from: the calls a rename ends with do not stop the
    reading, and when the client does not take the response at once and sends
    anything, the daemon takes its own response for the request, answers that
    the action is missing, and closes the connection. *)
Theorem store_answers_itself :
  let w := Disk [lit "x"] [] [] [] in
  match handle_store_rename all_ok demo_client w 4 rename_names (Some 0, 1) (Some 2, 1) with
  | Ret (s1, w1, calls) =>
      (exists p n t, calls = [Send 4 p n t]) /\
      match do_readentered (R := ()) all_ok 8 20 s1 w1 4 with
      | Ret (s2, w2, cmds) =>
          w2 = w1 /\ contents (Ycl.buf (msgbuf (STORE_CLI s2 4))) = request status_resp [Data []; Data (lit "missing 'action' field in request")] /\
          exists p n, cmds = [ClearActions 4; Send 4 p n None]
      | _ => False
      end
  | _ => False
  end.
Proof.
  intros w. destruct (handle_store_rename _ _ _ _ _ _ _) as [[[s1 w1] c1]| |] eqn:E1; [|vm_compute in E1; discriminate E1|vm_compute in E1; discriminate E1].
  destruct (do_readentered _ _ _ _ _ _) as [[[s2 w2] c2]| |] eqn:E2; vm_compute in E1; injection E1 as <- <- <-; [|vm_compute in E2; discriminate E2|vm_compute in E2; discriminate E2].
  vm_compute in E2. injection E2 as <- <- <-. split; [by eexists _, _, _|]. split; [done|]. split; [by vm_compute|]. by eexists _, _.
Qed.
