(* ===== verification/Kng.v ===== *)
(** * The job daemon (src/apps/knegd/kng.c)

    Clients start jobs, which are programs of a directory, at once or when one
    of a number of slots is free; until then a job waits as a file of a queue
    directory.  The list of jobs is a list, its head the job that was started
    last.  A failed assertion ends the daemon: like an access outside of an
    object it has no result. *)

From stdpp Require Import gmap.
From S2P Require Import Prelude CLib Buf Netstring Io Ycl YclMsg Eds Services Str.

Definition MANIFEST_FILENAME : bytes := lit "MANIFEST".
Definition VALID_TYPECH (ch : Z) : bool := ((97 <=? ch) && (ch <=? 122)) || ((48 <=? ch) && (ch <=? 57)) || (ch =? 45).

Definition KNGFL_HASMSGBUF : Z := 1.
Definition KNGFL_HASRESPBUF : Z := 2.
Definition DFL_RESPBUFSZ : Z := 1024.
Definition KNG_SENTSIGTERM : Z := 1.
Definition KNG_STOPPED : Z := 2.

Definition E2BIG : Z := 7.
Definition SIGKILL : Z := 9.
Definition SIGTERM : Z := 15.
Definition O_TRUNC : Z := 0x400.
Definition PATH_MAX : Z := 1024.

(** what a child executes, with its standard descriptors *)
Record child : Type := Child { c_path : bytes; c_envp : list bytes; c_log : Z }.

(** [remove_file] is [unlink] with its error; [stat] says whether it
    succeeded; [read_file] gives the contents of a file that can be opened;
    [fork] gives the pid of a child; [nanosleep] gives what remains when it is
    interrupted; [errno] is the error of the call before *)
Class KngSys (W : Type) : Type := {
  symlink : W -> bytes -> bytes -> W * option Z;
  remove_file : W -> bytes -> W * option Z;
  stat : W -> bytes -> W * bool;
  rmdir : W -> bytes -> W;
  fts_open : W -> bytes -> (ftsent -> ftsent -> Z) -> W * option Z;
  fts_read : W -> Z -> W * option ftsent;
  fts_close : W -> Z -> W;
  monotonic : W -> W * option (Z * Z);
  read_file : W -> bytes -> W * option bytes;
  fork : W -> child -> W * option Z;
  kill : W -> Z -> Z -> W;
  nanosleep : W -> Z * Z -> W * option (Z * Z);
  wait : W -> W * option Z;
  errno : W -> Z;
}.

Record kng_job : Type := Job {
  j_flags : Z;
  started : Z * Z;
  timeout : Z;
  pid : Z;
  j_id : bytes;
}.

Record kng_opts : Type := Opts {
  knegdir : bytes;
  queuedir : bytes;
  nqueueslots : Z;
  o_timeout : Z;
  storesock : bytes;
}.

(** [id] and [type] of the source are not used *)
Record kng_queue : Type := Queue {
  basepath : bytes;
  err : Z;
  nslots : Z;
  nrunning : Z;
  q_fts : option Z;
  seq : Z;
  q_msgbuf : ycl_msg;
  last_queued_for : Z;
}.

Record kng_cli : Type := Cli {
  cliflags : Z;
  ycl : ycl_ctx;
  msgbuf : ycl_msg;
  respbuf : buf_t;
}.

(** the user data of the clients, [jobs_], [kngq_] and [opts_] *)
Record knegd : Type := Knegd { clis : gmap Z kng_cli; jobs : list kng_job; kngq : kng_queue; opts : kng_opts }.

Inductive handler : Type :=
  | kng_on_readable | on_readreq | kng_on_finalize
  | kng_on_svc_reaped_child (pid status : Z)
  | kng_on_tick.

(** ** Access to the state *)

Definition no_buf : buf_t := Buf 0 0 [].
Definition zero_cli : kng_cli := Cli 0 (Ycl.Ctx 0 0 0) (Msg no_buf no_buf no_buf 0 0 0) no_buf.

Definition KNG_CLI (s : knegd) (fd : Z) : kng_cli := default zero_cli (clis s !! fd).
Definition set_cli (s : knegd) (fd : Z) (c : kng_cli) : knegd := Knegd (<[fd := c]> (clis s)) (jobs s) (kngq s) (opts s).
Definition set_jobs (s : knegd) (x : list kng_job) : knegd := Knegd (clis s) x (kngq s) (opts s).
Definition set_kngq (s : knegd) (x : kng_queue) : knegd := Knegd (clis s) (jobs s) x (opts s).
Definition set_msgbuf (c : kng_cli) (m : ycl_msg) : kng_cli := Cli (cliflags c) (ycl c) m (respbuf c).
Definition set_respbuf (c : kng_cli) (b : buf_t) : kng_cli := Cli (cliflags c) (ycl c) (msgbuf c) b.

Definition set_err (q : kng_queue) (e : Z) : kng_queue := Queue (basepath q) e (nslots q) (nrunning q) (q_fts q) (seq q) (q_msgbuf q) (last_queued_for q).
Definition set_fts (q : kng_queue) (f : option Z) : kng_queue := Queue (basepath q) (err q) (nslots q) (nrunning q) f (seq q) (q_msgbuf q) (last_queued_for q).
Definition set_seq (q : kng_queue) (x : Z) : kng_queue := Queue (basepath q) (err q) (nslots q) (nrunning q) (q_fts q) x (q_msgbuf q) (last_queued_for q).
Definition set_qmsg (q : kng_queue) (m : ycl_msg) : kng_queue := Queue (basepath q) (err q) (nslots q) (nrunning q) (q_fts q) (seq q) m (last_queued_for q).

Definition load (s : knegd) (p : pointer) (off n : Z) : outcome bytes :=
  let b := Ycl.buf (msgbuf (KNG_CLI s (owner p))) in
  if Buf.cap b =? cap_then p then rds (Buf.data b) off n else OutOfBounds.

(** a request, whose members are in [mem] *)
Record knegd_req : Type := Req { mem : bytes; r_timeout : Z; action : option Z * Z; id : option Z * Z; name : option Z * Z; type_ : option Z * Z }.
Definition request (m : bytes) (r : list parsed) : knegd_req := Req m (long_of r 0) (data_of r 1) (data_of r 2) (data_of r 3) (data_of r 4).

(** a string that may be [NULL], and whether it is or has no character *)
Definition stro (m : bytes) (p : option Z) : outcome (option bytes) := match p with Some p => s ← cstr_at m p; Ret (Some s) | None => Ret None end.
Definition is_empty (m : bytes) (p : option Z) : outcome bool := match p with Some p => c ← rd m p; Ret (c =? 0) | None => Ret true end.

(** what a message is made of *)
Definition member_of (m : bytes) (p : option Z * Z) : outcome member := match p.1 with Some a => bs ← rds m a p.2; Ret (Data bs) | None => Ret (Data []) end.

(** ["%ld"] and ["%.08lx"] *)
Definition pct_ld (x : Z) : bytes := if x <? 0 then 45 :: pct_lu (- x) else pct_lu x.
Definition hex_digit (x : Z) : Z := if x <? 10 then 48 + x else 87 + x.
Definition nibbles (x : Z) : bytes := map (fun i => hex_digit (Z.land (Z.shiftr x (4 * i)) 15)) (reverse (seqZ 0 16)).
Definition pct_08lx (x : Z) : bytes := let ds := nibbles (u64 x) in drop (Nat.min 8 (strspn ds [48])) ds.

(** what a handler ends with *)
Definition calls : Type := list (@cmd handler pointer).

(** ** The queue *)

Definition kngq_navailable (q : kng_queue) : Z := let navail := nslots q - nrunning q in if navail <? 0 then 0 else if nslots q <? navail then nslots q else navail.
Definition kngq_update_running (q : kng_queue) (diff : Z) : kng_queue := Queue (basepath q) (err q) (nslots q) (nrunning q + diff) (q_fts q) (seq q) (q_msgbuf q) (last_queued_for q).
Definition kngq_update_last_queued_for (q : kng_queue) (t : Z) : kng_queue := Queue (basepath q) (err q) (nslots q) (nrunning q) (q_fts q) (seq q) (q_msgbuf q) t.

(** entries of the queue are read from the oldest on *)
Definition fts_oldest_first (a b : ftsent) : Z :=
  let unknown e := match info e with FTS_NS | FTS_NSOK => true | _ => false end in
  if unknown a || unknown b then memcmp (ent_name a ++ [0]) (ent_name b ++ [0]) else i32 (st_mtime a - st_mtime b).

Section Handlers.
Context {W R : Type} {SW : Sys W} {FW : Files W} {KW : KngSys W} {LR : Libc R}.
(** whether memory is there, and the fuel of the loops *)
Context (alloc_ok : Z -> bool) (fuel : nat).

Definition is_error (e : option Z) (but : Z) : bool := match e with Some e => negb (e =? but) | None => false end.

Definition kngq_init (w : W) (path : bytes) (n : Z) : W * kng_queue * Z :=
  let q := Queue path 0 n 0 None 0 (msgbuf zero_cli) 0 in
  let '(w, e) := mkdir w path 0x1c0 in
  if is_error e EEXIST then (w, set_err q (default 0 e), -1)
  else
    let '(w, e) := mkdir w (snprintf 256 (path ++ lit "/ids")) 0x1c0 in
    if is_error e EEXIST then (w, set_err q (default 0 e), -1)
    else
      match ycl_msg_init alloc_ok with
      | None => (w, set_err q (errno w), -1)
      | Some msg => (w, set_qmsg q msg, 0)
      end.

Definition kngq_cleanup (q : kng_queue) : kng_queue := set_qmsg q (ycl_msg_cleanup (q_msgbuf q)).

Definition kngq_strerror (q : kng_queue) : bytes := if err q =? 0 then lit "unknown error" else strerror (err q).

(** an assertion on the length of [id] *)
Definition kngq_mklinkdirpath (q : kng_queue) (len : Z) (id : bytes) : outcome bytes :=
  if 2 <? zlen id then Ret (snprintf len (basepath q ++ lit "/ids/" ++ [cchar id (zlen id - 2); cchar id (zlen id - 1)])) else OutOfBounds.

(** [dirpath] and [dstpath], if it fits *)
Definition link_paths (q : kng_queue) (id : bytes) : outcome (bytes * option bytes) :=
  dirpath ← kngq_mklinkdirpath q 512 id;
  let dst := dirpath ++ [47] ++ id in
  Ret (dirpath, if 511 <? zlen dst then None else Some (snprintf 512 dst)).

Definition kngq_link_id (q : kng_queue) (w : W) (id srcpath : bytes) : outcome (kng_queue * W * Z) :=
  '(dirpath, dst) ← link_paths q id;
  match dst with
  | None => Ret (set_err q E2BIG, w, -1)
  | Some dst =>
      let '(w, e) := symlink w srcpath dst in
      let '(w, e) := match e with
        | Some e => if e =? ENOENT then symlink (mkdir w dirpath 0x1c0).1 srcpath dst else (w, Some e)
        | None => (w, None)
        end in
      match e with Some e => Ret (set_err q e, w, -1) | None => Ret (q, w, 0) end
  end.

Definition kngq_unlink_id (q : kng_queue) (w : W) (id : bytes) : outcome (kng_queue * W * Z) :=
  '(_, dst) ← link_paths q id;
  match dst with
  | None => Ret (set_err q E2BIG, w, -1)
  | Some dst => let '(w, e) := remove_file w dst in match e with Some e => Ret (set_err q e, w, -1) | None => Ret (q, w, 0) end
  end.

Definition kngq_contains (q : kng_queue) (w : W) (id : bytes) : outcome (kng_queue * W * bool) :=
  '(_, dst) ← link_paths q id;
  match dst with
  | None => Ret (set_err q E2BIG, w, false)
  | Some dst => let '(w, ok) := stat w dst in Ret (q, w, ok)
  end.

Definition _kngq_put (q : kng_queue) (w : W) (req : knegd_req) (fd : Z) : outcome (kng_queue * W * Z) :=
  action ← member_of (mem req) (action req);
  id ← member_of (mem req) (id req);
  name ← member_of (mem req) (name req);
  ty ← member_of (mem req) (type_ req);
  '(msg, ret) ← ycl_msg_create alloc_ok knegd_req_fields (ycl_msg_reset (q_msgbuf q)) [Long (r_timeout req); action; id; name; ty];
  let q := set_qmsg q msg in
  if negb (ret =? YCL_OK) then Ret (q, w, -1)
  else '(w, ret) ← io_writeall fuel w fd (contents (Ycl.buf msg)); Ret (q, w, if negb (ret =? IO_OK) then -1 else 0).

(** the directory of an entry that is put at a time, and its path *)
Definition entry_dir (q : kng_queue) (timestr : bytes) : bytes := basepath q ++ [47; cchar timestr (zlen timestr - 4); cchar timestr (zlen timestr - 3)].

Definition kngq_put (q : kng_queue) (w : W) (req : knegd_req) : outcome (kng_queue * W * Z) :=
  let '(w, t) := now w in
  let timestr := snprintf 32 (pct_08lx (default (-1) t)) in
  let '(w, e) := mkdir w (snprintf 512 (entry_dir q timestr)) 0x1c0 in
  if is_error e EEXIST then Ret (set_err q (default 0 e), w, -1)
  else
    let path := snprintf 512 (entry_dir q timestr ++ [47] ++ timestr ++ [45] ++ pct_lu (seq q)) in
    let q := set_seq q (u64 (seq q + 1)) in
    match open w path (Z.lor O_WRONLY O_CREAT) (Some 0x180) with
    | (w, inr e) => Ret (set_err q e, w, -1)
    | (w, inl fd) =>
        '(q, w, ret) ← _kngq_put q w req fd;
        if ret <? 0 then Ret (set_err q (errno w), unlink (close w fd).1 path, -1)
        else
          let w := (close w fd).1 in
          let rel := if negb (cchar path 0 =? 47) then lit "../../../" ++ path else path in
          if 511 <? zlen rel then Ret (set_err q E2BIG, unlink w path, -1)
          else
            id ← str (mem req) (id req).1;
            '(q, w, ret) ← kngq_link_id q w id (snprintf 512 rel);
            if ret <? 0 then Ret (q, unlink w path, -1) else Ret (q, w, 0)
    end.

(** [_kngq_next_file]; directories are removed on the way *)
Fixpoint next_file (n : nat) (w : W) (fts : Z) : outcome (W * option ftsent) :=
  match n with
  | O => OutOfFuel
  | S n =>
      match fts_read w fts with
      | (w, None) => Ret (w, None)
      | (w, Some ent) =>
          match info ent with
          | FTS_F => Ret (w, Some ent)
          | FTS_DP => next_file n (if (1 <=? level ent) && negb (bool_decide (ent_name ent = lit "ids")) then rmdir w (ent_path ent) else w) fts
          | _ => next_file n w fts
          end
      end
  end.

(** [fts_read] and [fts_close] of a [NULL] *)
Definition _kngq_next_file (q : kng_queue) (w : W) : outcome (W * option ftsent) := match q_fts q with Some f => next_file fuel w f | None => OutOfBounds end.
Definition close_fts (q : kng_queue) (w : W) : outcome W := match q_fts q with Some f => Ret (fts_close w f) | None => OutOfBounds end.

Definition reopen (q : kng_queue) (w : W) : kng_queue * W := let '(w, f) := fts_open w (basepath q) fts_oldest_first in (set_fts q f, w).

Definition kngq_next_file (q : kng_queue) (w : W) : outcome (kng_queue * W * option ftsent) :=
  let '(q, w, retry) := match q_fts q with None => (reopen q w, false) | Some _ => (q, w, true) end in
  '(w, ent) ← _kngq_next_file q w;
  match ent with
  | Some ent => Ret (q, w, Some ent)
  | None =>
      if (retry : bool) then
        w ← close_fts q w;
        let '(q, w) := reopen q w in
        '(w, ent) ← _kngq_next_file q w;
        match ent with
        | Some ent => Ret (q, w, Some ent)
        | None => w ← close_fts q w; Ret (set_fts q None, w, None)
        end
      else Ret (q, w, None)
  end.

(** the request and the time of its creation; [ycl_close] leaves the descriptor
    open, which the connection does not own *)
Definition kngq_next (q : kng_queue) (w : W) : outcome (kng_queue * W * Z * option (knegd_req * Z)) :=
  '(q, w, ent) ← kngq_next_file q w;
  match ent with
  | None => Ret (q, w, 0, None)
  | Some ent =>
      match open w (ent_path ent) O_RDONLY None with
      | (w, inr _) => Ret (q, unlink w (ent_path ent), -1, None)
      | (w, inl fd) =>
          let ycl := ycl_init fd in
          '(w, msg, ret) ← ycl_recvmsg alloc_ok fuel w ycl (ycl_msg_reset (q_msgbuf q));
          let q := set_qmsg q msg in
          if negb (ret =? YCL_OK) then Ret (q, unlink (ycl_close w ycl).1.1 (ent_path ent), -1, None)
          else
            '(msg, r, ret) ← ycl_msg_parse alloc_ok knegd_req_fields msg;
            let q := set_qmsg q msg in
            if negb (ret =? YCL_OK) then Ret (q, unlink (ycl_close w ycl).1.1 (ent_path ent), -1, None)
            else
              let req := request (Buf.data (Ycl.buf msg)) r in
              '(q, w, _) ← match (id req).1 with Some p => s ← cstr_at (mem req) p; kngq_unlink_id q w s | None => Ret (q, w, 0) end;
              Ret (q, unlink (ycl_close w ycl).1.1 (ent_path ent), 1, Some (req, st_ctime ent))
      end
  end.

(** ** Jobs *)

Definition is_valid_type (t : option bytes) : bool :=
  match t with Some t => negb (bool_decide (t = [])) && forallb VALID_TYPECH t | None => false end.

(** the size that is asked for, and the string *)
Definition consk (name value : bytes) : option bytes := if alloc_ok (zlen name + zlen value + 2) then Some (name ++ [61] ++ value) else None.

Fixpoint envp_vars (vars : list (bytes * bytes)) : option (list bytes) :=
  match vars with
  | [] => Some []
  | (name, value) :: vars =>
      if bool_decide (value = []) then envp_vars vars
      else v ← consk name value; vs ← envp_vars vars; Some (v :: vs)
  end.

Definition mkenvp (id type : bytes) (timeout : Z) : option (list bytes) :=
  if negb (alloc_ok 40) then None
  else envp_vars [(lit "PATH", lit "/usr/local/bin:/bin:/usr/bin"); (lit "YANS_ID", id); (lit "YANS_TYPE", type); (lit "YANS_TIMEOUT", snprintf 24 (pct_ld timeout))].

(** what [job_new] does after the store is entered: the log is opened and the
    child is started *)
Definition start_child (o : kng_opts) (w : W) (ctx : ycl_ctx) (msg : ycl_msg) (type id : bytes) (start : Z * Z) (timeout_sec : Z) : outcome (W * (kng_job + bytes)) :=
  let fail w errmsg := Ret ((ycl_close w ctx).1.1, inr errmsg) in
  let timeout := if 0 <? timeout_sec then timeout_sec else o_timeout o in
  let id := take 47 id in
  match mkenvp id type timeout with
  | None => fail w (lit "insufficient memory")
  | Some envp =>
      '(msg, ret) ← ycl_msg_create alloc_ok store_entered_fields msg
        [Data (lit "open" ++ [0]); Data (lit "kneg.log"); Long (Z.lor O_WRONLY (Z.lor O_CREAT O_TRUNC)); Data []; Data []];
      if negb (ret =? YCL_OK) then fail w (lit "failed to create store open message")
      else
        '(w, msg, ret) ← ycl_sendmsg fuel w ctx msg;
        if negb (ret =? YCL_OK) then fail w (lit "failed to send store open message")
        else
          '(w, ret, logfd) ← ycl_recvfd fuel w ctx;
          match logfd with
          | Some logfd =>
              if negb (ret =? YCL_OK) then fail w (lit "failed to open log file")
              else
                let w := (ycl_close w ctx).1.1 in
                let '(w, p) := fork w (Child (snprintf PATH_MAX (knegdir o ++ [47] ++ type)) envp logfd) in
                let w := (close w logfd).1 in
                match p with Some p => Ret (w, inl (Job 0 start timeout p id)) | None => Ret (w, inr (lit "fork failure")) end
          | None => fail w (lit "failed to open log file")
          end
  end.

Definition job_new (o : kng_opts) (w : W) (type id name : option bytes) (timeout_sec : Z) : outcome (W * (kng_job + bytes)) :=
  if negb (is_valid_type type) then Ret (w, inr (lit "empty or invalid job type"))
  else if negb (alloc_ok 96) then Ret (w, inr (lit "insufficient memory"))
  else
    let '(w, ctx, ret) := ycl_connect w (Ycl.Ctx 0 0 0) (Some (storesock o)) in
    if negb (ret =? YCL_OK) then Ret (w, inr (lit "store connection failure"))
    else
      let fail w errmsg := Ret ((ycl_close w ctx).1.1, inr errmsg) in
      match ycl_msg_init alloc_ok with
      | None => fail w (lit "ycl msg initialization failure")
      | Some msg =>
          let '(w, t) := now w in
          '(msg, ret) ← ycl_msg_create alloc_ok store_req_fields msg [Data (lit "enter"); Data (default [] id); Data []; Long 1; Data (default [] name); Long (default (-1) t)];
          if negb (ret =? YCL_OK) then fail w (lit "enter request serialization error")
          else
            '(w, msg, ret) ← ycl_sendmsg fuel w ctx msg;
            if negb (ret =? YCL_OK) then fail w (lit "failed to send enter request")
            else
              '(w, msg, ret) ← ycl_recvmsg alloc_ok fuel w ctx (ycl_msg_reset msg);
              if negb (ret =? YCL_OK) then fail w (lit "failed to receive enter response")
              else
                '(msg, resp, ret) ← ycl_msg_parse alloc_ok status_resp msg;
                if negb (ret =? YCL_OK) then fail w (lit "failed to parse enter response")
                else
                  let m := Buf.data (Ycl.buf msg) in
                  no_error ← is_empty m (data_of resp 1).1;
                  no_id ← is_empty m (data_of resp 0).1;
                  if negb no_error then fail w (lit "enter request failed")
                  else if (no_id : bool) then fail w (lit "failed to receive store ID")
                  else
                    let '(w, t) := monotonic w in
                    match t with
                    | None => fail w (lit "clock_gettime failure")
                    | Some start => id ← str m (data_of resp 0).1; start_child o w ctx msg (default [] type) id start timeout_sec
                    end
      end.

Definition job_stop (w : W) (j : kng_job) : W * kng_job := (kill w (pid j) SIGTERM, Job (Z.lor (j_flags j) KNG_STOPPED) (started j) (timeout j) (pid j) (j_id j)).

Definition set_jflags (j : kng_job) (x : Z) : kng_job := Job x (started j) (timeout j) (pid j) (j_id j).

Fixpoint jobs_find_by_id (jobs : list kng_job) (id : bytes) : option kng_job :=
  match jobs with
  | [] => None
  | curr :: jobs => if bool_decide (j_id curr = id) then Some curr else jobs_find_by_id jobs id
  end.

(** what a tick does to a job *)
Definition check_job (w : W) (now : Z) (curr : kng_job) : W * kng_job :=
  if flag_set (j_flags curr) KNG_SENTSIGTERM then (kill w (pid curr) SIGKILL, curr)
  else if flag_set (j_flags curr) KNG_STOPPED then (w, set_jflags curr (Z.lor (j_flags curr) KNG_SENTSIGTERM))
  else if timeout curr <=? now - (started curr).1 then (kill w (pid curr) SIGTERM, set_jflags curr (Z.lor (j_flags curr) KNG_SENTSIGTERM))
  else (w, curr).

Fixpoint check_jobs (w : W) (now : Z) (jobs : list kng_job) : W * list kng_job :=
  match jobs with
  | [] => (w, [])
  | curr :: jobs => let '(w, curr) := check_job w now curr in let '(w, jobs) := check_jobs w now jobs in (w, curr :: jobs)
  end.

Definition jobs_check_times (w : W) (jobs : list kng_job) : W * list kng_job :=
  match monotonic w with (w, Some tv) => check_jobs w tv.1 jobs | (w, None) => (w, jobs) end.

Definition jobs_pid (jobs : list kng_job) (id : bytes) : Z := match jobs_find_by_id jobs id with Some s => pid s | None => -1 end.

(** the first job with the name is told to stop *)
Fixpoint jobs_stop (w : W) (jobs : list kng_job) (id : bytes) : W * list kng_job :=
  match jobs with
  | [] => (w, [])
  | curr :: jobs =>
      if bool_decide (j_id curr = id) then let '(w, curr) := job_stop w curr in (w, curr :: jobs)
      else let '(w, jobs) := jobs_stop w jobs id in (w, curr :: jobs)
  end.

Definition jobs_add (jobs : list kng_job) (job : kng_job) : list kng_job := job :: jobs.

(** the loop of [jobs_remove] *)
Fixpoint remove_loop (jobs : list kng_job) (p : Z) : option (list kng_job) :=
  match jobs with
  | [] => None
  | curr :: jobs => if pid curr =? p then Some jobs else cons curr <$> remove_loop jobs p
  end.

Definition jobs_remove (jobs : list kng_job) (p : Z) : outcome (list kng_job * Z) :=
  if p <=? 0 then OutOfBounds else match remove_loop jobs p with Some jobs => Ret (jobs, 0) | None => Ret (jobs, -1) end.

(** ** Answers *)

(** results of [buf_adata] and [buf_achar] are not looked at *)
Definition put_data (b : buf_t) (bs : bytes) : outcome buf_t := '(b, _) ← buf_adata alloc_ok b bs; Ret b.
Definition put_char (b : buf_t) (c : Z) : outcome buf_t := '(b, _) ← buf_achar alloc_ok b c; Ret b.

(** a field of a list of names is the name of a job up to its terminator *)
Definition append_job_pid (jobs : list kng_job) (m : bytes) (s len : Z) (b : buf_t) : outcome (buf_t * Z) :=
  b ← (if 0 <? Buf.len b then put_char b 32 else Ret b);
  name ← cstr_at m s;
  b ← put_data b (snprintf 32 (pct_ld (jobs_pid jobs name)));
  Ret (b, 1).

Definition append_job_pids (jobs : list kng_job) (b : buf_t) (m : bytes) (s len : Z) : outcome buf_t :=
  '(b, _) ← str_map_field (append_job_pid jobs m) m s len [0] b; put_char b 0.

Definition append_job_status (jobs : list kng_job) (m : bytes) (s len : Z) (st : buf_t * kng_queue * W) : outcome ((buf_t * kng_queue * W) * Z) :=
  let '(b, q, w) := st in
  b ← (if 0 <? Buf.len b then put_char b 32 else Ret b);
  name ← cstr_at m s;
  match jobs_find_by_id jobs name with
  | Some _ => b ← put_data b (lit "running"); Ret (b, q, w, 1)
  | None =>
      '(q, w, queued) ← kngq_contains q w name;
      b ← put_data b (if (queued : bool) then lit "queued" else lit "n/a"); Ret (b, q, w, 1)
  end.

Definition append_job_statuses (jobs : list kng_job) (b : buf_t) (q : kng_queue) (w : W) (m : bytes) (s len : Z) : outcome (buf_t * kng_queue * W) :=
  '(b, q, w, _) ← str_map_field (append_job_status jobs m) m s len [0] (b, q, w); b ← put_char b 0; Ret (b, q, w).

Definition write_response (s : knegd) (w : W) (fd : Z) (okmsg errmsg : bytes) : outcome (knegd * W * calls) :=
  let ecli := KNG_CLI s fd in
  '(msg, ret) ← ycl_msg_create alloc_ok status_resp (msgbuf ecli) [Data okmsg; Data errmsg];
  let b := Ycl.buf msg in
  Ret (set_cli s fd (set_msgbuf ecli msg), w,
       ClearActions fd :: if negb (ret =? YCL_OK) then [] else [Send fd (MsgBytes fd (Buf.cap b)) (Buf.len b) None]).

Definition write_err_response (s : knegd) (w : W) (fd : Z) (errmsg : bytes) : outcome (knegd * W * calls) := write_response s w fd [] errmsg.
Definition write_ok_response (s : knegd) (w : W) (fd : Z) (msg : bytes) : outcome (knegd * W * calls) := write_response s w fd msg [].

(** an answer that is in [respbuf] *)
Definition answer (s : knegd) (w : W) (fd : Z) (b : buf_t) : outcome (knegd * W * calls) :=
  let s := set_cli s fd (set_respbuf (KNG_CLI s fd) b) in
  msg ← cstr_at (Buf.data b) 0; write_ok_response s w fd msg.

Definition start_knegd_job (s : knegd) (w : W) (req : knegd_req) : outcome (knegd * W * (kng_job + bytes)) :=
  type ← stro (mem req) (type_ req).1;
  id ← stro (mem req) (id req).1;
  name ← stro (mem req) (name req).1;
  '(w, job) ← job_new (opts s) w type id name (if 0 <? r_timeout req then r_timeout req else 0);
  match job with
  | inl job => Ret (set_kngq (set_jobs s (jobs_add (jobs s) job)) (kngq_update_running (kngq s) 1), w, inl job)
  | inr e => Ret (s, w, inr e)
  end.

(** [fgets] of at most [n] bytes *)
Fixpoint fgets (n : nat) (s : bytes) : bytes * bytes :=
  match n, s with
  | S n, c :: s => if c =? 10 then ([c], s) else let '(line, rest) := fgets n s in (c :: line, rest)
  | _, _ => ([], s)
  end.

(** the bytes before the first [c] *)
Definition before (c : Z) (s : bytes) : bytes := match strchr s c with Some n => take n s | None => s end.

(** [strsep] until there is no more token, without the empty ones *)
Fixpoint tokens (seps s cur : bytes) : list bytes :=
  match s with
  | [] => if bool_decide (cur = []) then [] else [cur]
  | c :: s => if CLib.mem seps c then (if bool_decide (cur = []) then [] else [cur]) ++ tokens seps s [] else tokens seps s (cur ++ [c])
  end.

Fixpoint put_tokens (b : buf_t) (ts : list bytes) : outcome buf_t :=
  match ts with
  | [] => Ret b
  | t :: ts => b ← put_data b t; b ← put_char b 10; put_tokens b ts
  end.

(** [n] lines of at most 127 bytes *)
Fixpoint manifest_lines (n : nat) (b : buf_t) (s : bytes) : outcome buf_t :=
  match n, s with
  | S n, _ :: _ =>
      let '(line, rest) := fgets 127 s in
      b ← put_tokens b (tokens [13; 10; 9; 32] (before 35 (before 0 line)) []); manifest_lines n b rest
  | _, _ => Ret b
  end.

Definition load_manifest (o : kng_opts) (w : W) (b : buf_t) : outcome (W * buf_t) :=
  match read_file w (snprintf PATH_MAX (knegdir o ++ [47] ++ MANIFEST_FILENAME)) with
  | (w, None) => Ret (w, b)
  | (w, Some s) => b ← manifest_lines (length s) b s; b ← put_char (buf_shrink b 1) 0; Ret (w, b)
  end.

Definition load_queueinfo (q : kng_queue) (b : buf_t) : outcome buf_t :=
  put_data b (snprintf 128 (pct_ld (nrunning q) ++ [32] ++ pct_ld (nslots q) ++ [32] ++ pct_ld (last_queued_for q)) ++ [0]).

(** ** Handlers *)

Definition handle_start (s : knegd) (w : W) (fd : Z) (req : knegd_req) : outcome (knegd * W * calls) :=
  '(s, w, job) ← start_knegd_job s w req;
  match job with
  | inr errmsg => write_err_response s w fd errmsg
  | inl job => b ← put_data (respbuf (KNG_CLI s fd)) (j_id job ++ [0]); answer s w fd b
  end.

Definition handle_queue (s : knegd) (w : W) (fd : Z) (req : knegd_req) : outcome (knegd * W * calls) :=
  type ← stro (mem req) (type_ req).1;
  id_ ← str (mem req) (id req).1;
  if negb (is_valid_type type) then write_err_response s w fd (lit "empty or invalid job type")
  else if (id req).2 =? 0 then write_err_response s w fd (lit "missing id")
  else if CLib.mem id_ 47 then write_err_response s w fd (lit "invalid id")
  else if 0 <? kngq_navailable (kngq s) then
    '(s, w, job) ← start_knegd_job s w req;
    match job with
    | inr errmsg => write_err_response s w fd errmsg
    | inl _ => write_ok_response (set_kngq s (kngq_update_last_queued_for (kngq s) 0)) w fd (lit "OK")
    end
  else
    '(q, w, ret) ← kngq_put (kngq s) w req;
    let s := set_kngq s q in
    if negb (ret =? 0) then write_err_response s w fd (kngq_strerror q) else write_ok_response s w fd (lit "OK").

Definition handle_pids (s : knegd) (w : W) (fd : Z) (req : knegd_req) : outcome (knegd * W * calls) :=
  match (id req).1 with
  | None => OutOfBounds
  | Some p => b ← append_job_pids (jobs s) (respbuf (KNG_CLI s fd)) (mem req) p (id req).2; answer s w fd b
  end.

Definition handle_status (s : knegd) (w : W) (fd : Z) (req : knegd_req) : outcome (knegd * W * calls) :=
  match (id req).1 with
  | None => OutOfBounds
  | Some p => '(b, q, w) ← append_job_statuses (jobs s) (respbuf (KNG_CLI s fd)) (kngq s) w (mem req) p (id req).2; answer (set_kngq s q) w fd b
  end.

Definition handle_stop (s : knegd) (w : W) (fd : Z) (req : knegd_req) : outcome (knegd * W * calls) :=
  id ← str (mem req) (id req).1;
  let '(w, js) := jobs_stop w (jobs s) id in
  write_ok_response (set_jobs s js) w fd (lit "OK").

(** the actions for which there must be a name *)
Definition handle_named (s : knegd) (w : W) (fd : Z) (req : knegd_req) : outcome (knegd * W * calls) :=
  no_id ← is_empty (mem req) (id req).1;
  if (no_id : bool) then write_err_response s w fd (lit "missing id")
  else
    let act := streq (mem req) (action req).1 in
    is_queue ← act (lit "queue");
    if (is_queue : bool) then handle_queue s w fd req
    else
      is_pids ← act (lit "pids");
      if (is_pids : bool) then handle_pids s w fd req
      else
        is_status ← act (lit "status");
        if (is_status : bool) then handle_status s w fd req
        else
          is_stop ← act (lit "stop");
          if (is_stop : bool) then handle_stop s w fd req else write_err_response s w fd (lit "unknown action").

Definition handle_req (s : knegd) (w : W) (fd : Z) (req : knegd_req) : outcome (knegd * W * calls) :=
  no_action ← is_empty (mem req) (action req).1;
  is_manifest ← (if 0 <? (type_ req).2 then streq (mem req) (type_ req).1 MANIFEST_FILENAME else Ret false);
  if (no_action : bool) then write_err_response s w fd (lit "missing action")
  else if (is_manifest : bool) then write_err_response s w fd (lit "unable to execute " ++ MANIFEST_FILENAME)
  else
    let act := streq (mem req) (action req).1 in
    is_start ← act (lit "start");
    if (is_start : bool) then handle_start s w fd req
    else
      is_list ← act (lit "manifest");
      if (is_list : bool) then '(w, b) ← load_manifest (opts s) w (respbuf (KNG_CLI s fd)); answer s w fd b
      else
        is_info ← act (lit "queueinfo");
        if (is_info : bool) then b ← load_queueinfo (kngq s) (respbuf (KNG_CLI s fd)); answer s w fd b
        else handle_named s w fd req.

Definition do_readreq (s : knegd) (w : W) (fd : Z) : outcome (knegd * W * calls) :=
  let ecli := KNG_CLI s fd in
  '(w, msg, ret) ← ycl_recvmsg alloc_ok fuel w (ycl ecli) (msgbuf ecli);
  let s := set_cli s fd (set_msgbuf ecli msg) in
  if ret =? YCL_AGAIN then Ret (s, w, [])
  else if negb (ret =? YCL_OK) then Ret (s, w, [ClearActions fd])
  else
    '(msg, r, ret) ← ycl_msg_parse alloc_ok knegd_req_fields msg;
    let s := set_cli s fd (set_msgbuf ecli msg) in
    if negb (ret =? YCL_OK) then write_err_response s w fd (lit "knegd request parse error")
    else handle_req s w fd (request (Buf.data (Ycl.buf msg)) r).

(** [buf_init], which only loses the bytes when it fails *)
Definition init_respbuf (b : buf_t) : buf_t := default (Buf (Buf.cap b) (Buf.len b) []) (buf_init alloc_ok DFL_RESPBUFSZ).

Definition do_on_readable (s : knegd) (w : W) (fd : Z) : outcome (knegd * W * calls) :=
  let c := KNG_CLI s fd in
  let ecli := Cli (cliflags c) (ycl_init fd) (msgbuf c) (respbuf c) in
  let go ecli :=
    let ecli := if flag_set (cliflags ecli) KNGFL_HASRESPBUF then set_respbuf ecli (buf_clear (respbuf ecli))
                else Cli (Z.lor (cliflags ecli) KNGFL_HASRESPBUF) (ycl ecli) (msgbuf ecli) (init_respbuf (respbuf ecli)) in
    Ret (set_cli s fd ecli, w, [SetOnReadable fd (Some on_readreq) 0]) in
  if flag_set (cliflags ecli) KNGFL_HASMSGBUF then go (set_msgbuf ecli (ycl_msg_reset (msgbuf ecli)))
  else
    match ycl_msg_init alloc_ok with
    | None => Ret (set_cli s fd ecli, w, [ClearActions fd])
    | Some msg => go (Cli (Z.lor (cliflags ecli) KNGFL_HASMSGBUF) (ycl ecli) msg (respbuf ecli))
    end.

Fixpoint dispatch_n_jobs (k : nat) (s : knegd) (w : W) (n : Z) : outcome (knegd * W) :=
  match k with
  | O => OutOfFuel
  | S k =>
      if 0 <? n then
        '(q, w, ret, r) ← kngq_next (kngq s) w;
        let s := set_kngq s q in
        match r with
        | None => Ret (s, w)
        | Some (req, ctime) =>
            if ((type_ req).2 =? 0) || ((id req).2 =? 0) then dispatch_n_jobs k s w n
            else
              '(s, w, job) ← start_knegd_job s w req;
              match job with
              | inr _ => dispatch_n_jobs k s w n
              | inl _ =>
                  let '(w, t) := now w in
                  dispatch_n_jobs k (set_kngq s (kngq_update_last_queued_for (kngq s) (default (-1) t - ctime))) w (n - 1)
              end
        end
      else Ret (s, w)
  end.

(** jobs of the queue are started for the slots that are free *)
Definition dispatch (s : knegd) (w : W) : outcome (knegd * W) :=
  let navail := kngq_navailable (kngq s) in
  if 0 <? navail then dispatch_n_jobs fuel s w navail else Ret (s, w).

Definition do_reaped_child (s : knegd) (w : W) (p : Z) : outcome (knegd * W * calls) :=
  '(js, ret) ← jobs_remove (jobs s) p;
  let s := set_jobs s js in
  let s := if ret =? 0 then set_kngq s (kngq_update_running (kngq s) (-1)) else s in
  '(s, w) ← dispatch s w; Ret (s, w, []).

Definition do_tick (s : knegd) (w : W) : outcome (knegd * W * calls) :=
  let '(w, js) := jobs_check_times w (jobs s) in Ret (set_jobs s js, w, []).

Definition do_finalize (s : knegd) (w : W) (fd : Z) : outcome (knegd * W * calls) :=
  let c := KNG_CLI s fd in
  let c := if flag_set (cliflags c) KNGFL_HASMSGBUF then Cli (Z.land (cliflags c) (Z.lnot KNGFL_HASMSGBUF)) (ycl c) (ycl_msg_cleanup (msgbuf c)) (respbuf c) else c in
  let c := if flag_set (cliflags c) KNGFL_HASRESPBUF then Cli (Z.land (cliflags c) (Z.lnot KNGFL_HASRESPBUF)) (ycl c) (msgbuf c) (buf_cleanup (respbuf c)) else c in
  Ret (set_cli s fd c, w, []).

Definition kng_body (h : handler) (fd : Z) (s : knegd) (w : W) : outcome (knegd * W * calls) :=
  match h with
  | kng_on_readable => do_on_readable s w fd
  | on_readreq => do_readreq s w fd
  | kng_on_finalize => do_finalize s w fd
  | kng_on_svc_reaped_child p _ => do_reaped_child s w p
  | kng_on_tick => do_tick s w
  end.

Definition kng_mod_init (s : knegd) (w : W) : outcome (knegd * W * Z) :=
  let '(w, q, ret) := kngq_init w (queuedir (opts s)) (nqueueslots (opts s)) in
  let s := set_kngq s q in
  if ret <? 0 then Ret (s, w, -1) else '(s, w) ← dispatch s w; Ret (s, w, 0).

(** every job gets a signal *)
Definition kill_all (w : W) (jobs : list kng_job) (sig : Z) : W := foldl (fun w j => kill w (pid j) sig) w jobs.

Fixpoint sleep_loop (n : nat) (w : W) (t : Z * Z) : outcome W :=
  match n with
  | O => OutOfFuel
  | S n => match nanosleep w t with (w, Some remaining) => sleep_loop n w remaining | (w, None) => Ret w end
  end.

Fixpoint wait_loop (n : nat) (w : W) : W :=
  match n with
  | O => w
  | S n => match wait w with (w, Some _) => wait_loop n w | (w, None) => w end
  end.

Definition kng_mod_fini (s : knegd) (w : W) : outcome (knegd * W) :=
  let w := kill_all w (jobs s) SIGTERM in
  w ← (if 0 <? zlen (jobs s) then w ← sleep_loop fuel w (1, 0); Ret (wait_loop (length (jobs s)) (kill_all w (jobs s) SIGKILL)) else Ret w);
  Ret (set_kngq s (kngq_cleanup (kngq s)), w).

End Handlers.

(** the options are set by the program, before the daemon starts *)
Definition kng_set_knegdir (o : kng_opts) (dir : bytes) : kng_opts := Opts dir (queuedir o) (nqueueslots o) (o_timeout o) (storesock o).
Definition kng_set_queuedir (o : kng_opts) (dir : bytes) : kng_opts := Opts (knegdir o) dir (nqueueslots o) (o_timeout o) (storesock o).
Definition kng_set_nqueueslots (o : kng_opts) (n : Z) : kng_opts := Opts (knegdir o) (queuedir o) n (o_timeout o) (storesock o).
Definition kng_set_storesock (o : kng_opts) (path : bytes) : kng_opts := Opts (knegdir o) (queuedir o) (nqueueslots o) (o_timeout o) path.
Definition kng_set_timeout (o : kng_opts) (t : Z) : kng_opts := if 0 <? t then Opts (knegdir o) (queuedir o) (nqueueslots o) t (storesock o) else o.

(** src/apps/knegd/main.c *)
Definition knegd_service : @eds_service handler :=
  Service (Some (lit "knegd")) (Some (lit "knegd.sock")) (Actions (Some kng_on_readable) None None (Some kng_on_finalize)) 1 0 (30 * 1000000)
    (Some kng_on_tick) None (Some kng_on_svc_reaped_child) 0.
