(* ===== verification/KngInv.v ===== *)
(** * What the job daemon keeps (src/apps/knegd/kng.c)

    The daemon counts its jobs, each of which is a child that was not waited
    for; it signals these children only and starts only programs of its
    directory. *)

From stdpp Require Import gmap.
From S2P Require Import Prelude CLib Buf Netstring Io Ycl Keeps YclMsg Eds EdsSafe Services Str Kng.

(** ** Operations but [fork], [kill] and the waiting for children *)

Section Quiet.
Context {W R : Type} {SW : Sys W} {EW : EdsSys W} {FW : Files W} {KW : KngSys W} {LR : Libc R}.

Record quiet_ops (P : W -> Prop) : Prop := QuietOps {
  q_read w fd n : P w -> P (read w fd n).1;
  q_write w fd bs : P w -> P (write w fd bs).1;
  q_poll_out w fd : P w -> P (poll_out w fd).1;
  q_close w fd : P w -> P (close w fd).1;
  q_accept w fd : P w -> P (accept w fd).1;
  q_socket w : P w -> P (socket w).1;
  q_connect w fd p : P w -> P (connect w fd p).1;
  q_recvmsg w fd : P w -> P (recvmsg w fd).1;
  q_unlink w p : P w -> P (unlink w p);
  q_fcntl w fd x y : P w -> P (fcntl w fd x y).1;
  q_select w r wr : P w -> P (select w r wr).1;
  q_clock w : P w -> P (clock_gettime w).1;
  q_open w p fl md : P w -> P (open w p fl md).1;
  q_mkdir w p md : P w -> P (mkdir w p md).1;
  q_now w : P w -> P (now w).1;
  q_symlink w p q : P w -> P (symlink w p q).1;
  q_remove w p : P w -> P (remove_file w p).1;
  q_stat w p : P w -> P (stat w p).1;
  q_rmdir w p : P w -> P (rmdir w p);
  q_fts_open w p f : P w -> P (fts_open w p f).1;
  q_fts_read w f : P w -> P (fts_read w f).1;
  q_fts_close w f : P w -> P (fts_close w f);
  q_monotonic w : P w -> P (monotonic w).1;
  q_read_file w p : P w -> P (read_file w p).1;
  q_nanosleep w t : P w -> P (nanosleep w t).1;
}.

Context (alloc_ok : Z -> bool) (fuel : nat) (P : W -> Prop) (K : quiet_ops P).

Lemma recvmsg_quiet w y msg : P w -> yields (fun x => P x.1.1) (ycl_recvmsg alloc_ok fuel w y msg).
Proof. apply ycl_recvmsg_yields, (q_read P K). Qed.

Lemma sendmsg_quiet w y msg : P w -> yields (fun x => P x.1.1) (ycl_sendmsg fuel w y msg).
Proof. apply ycl_sendmsg_yields, (q_write P K). Qed.

Lemma recvfd_quiet w y : P w -> yields (fun x => P x.1.1) (ycl_recvfd fuel w y).
Proof. apply ycl_recvfd_yields; [apply (q_close P K)|apply (q_recvmsg P K)]. Qed.

Lemma writeall_quiet w fd bs : P w -> yields (fun x => P x.1) (io_writeall fuel w fd bs).
Proof. apply io_writeall_yields; [apply (q_write P K)|apply (q_poll_out P K)]. Qed.

Lemma connect_quiet w y dst : P w -> P (ycl_connect w y dst).1.1.
Proof. apply ycl_connect_keeps; [apply (q_close P K)|apply (q_socket P K)|apply (q_connect P K)]. Qed.

Lemma close_quiet w y : P w -> P (ycl_close w y).1.1.
Proof. apply ycl_close_keeps, (q_close P K). Qed.
End Quiet.

(** the world after calls that keep [P] *)
Ltac quiet :=
  match goal with K : quiet_ops ?P |- _ =>
    repeat first [assumption | match goal with |- P (if ?b then _ else _) => destruct b end
      | apply (q_read P K) | apply (q_write P K) | apply (q_poll_out P K) | apply (q_close P K) | apply (q_accept P K) | apply (q_socket P K) | apply (q_connect P K)
      | apply (q_recvmsg P K) | apply (q_unlink P K) | apply (q_fcntl P K) | apply (q_select P K) | apply (q_clock P K) | apply (q_open P K) | apply (q_mkdir P K)
      | apply (q_now P K) | apply (q_symlink P K) | apply (q_remove P K) | apply (q_stat P K) | apply (q_rmdir P K) | apply (q_fts_open P K) | apply (q_fts_read P K)
      | apply (q_fts_close P K) | apply (q_monotonic P K) | apply (q_read_file P K) | apply (q_nanosleep P K) | apply (connect_quiet P K) | apply (close_quiet P K)
      | apply (recvmsg_quiet _ _ P K) | apply (sendmsg_quiet _ P K) | apply (recvfd_quiet _ P K) | apply (writeall_quiet _ P K)]
  end.

Create HintDb kng.
#[export] Hint Extern 9 => solve [quiet] : kng.

(** a step through a computation: what is known of the world before it is known
    of the world after a call *)
Ltac open_pairs := repeat match goal with x : _ * _ |- _ => destruct x end; cbn [fst snd] in *; repeat match goal with H : _ /\ _ |- _ => destruct H end.

Ltac split_on e :=
  lazymatch e with
  | match ?x with _ => _ end => split_on x
  | fork _ _ => fail
  | _ => first [match goal with P : ?W -> Prop, _ : quiet_ops ?P |- _ => let H := fresh "Hw" in first [assert (H : P e.1) by quiet | assert (H : P e.1.1) by quiet]; destruct e; cbn [fst] in H; open_pairs end
               | destruct e; open_pairs]
  end.

Ltac walk1 :=
  lazymatch goal with
  | |- yields _ (Ret _) => apply yields_ret; cbn [fst snd]
  | |- yields _ OutOfBounds => by intros ? [=]
  | |- yields _ OutOfFuel => by intros ? [=]
  | |- yields _ (mbind _ _) => eapply yields_bind; [first [solve [quiet] | solve [eauto with kng] | apply reading_any]|]; intros ? ?; open_pairs
  | |- yields _ (match ?e with _ => _ end) => split_on e
  end.

Ltac walk := repeat (cbv zeta; walk1).

Section Queue.
Context {W R : Type} {SW : Sys W} {EW : EdsSys W} {FW : Files W} {KW : KngSys W} {LR : Libc R}.
Context (alloc_ok : Z -> bool) (fuel : nat) (P : W -> Prop) (K : quiet_ops P).

(** the queue has as many slots and running jobs as before *)
Definition same_slots (q q' : kng_queue) : Prop := nslots q' = nslots q /\ nrunning q' = nrunning q.

Lemma same_slots_refl q : same_slots q q.
Proof. done. Qed.

Lemma kngq_link_id_quiet q w id src : P w -> yields (fun x => P x.1.2 /\ same_slots q x.1.1) (kngq_link_id q w id src).
Proof. intros Hw. unfold kngq_link_id. walk; by split. Qed.

Lemma kngq_unlink_id_quiet q w id : P w -> yields (fun x => P x.1.2 /\ same_slots q x.1.1) (kngq_unlink_id q w id).
Proof. intros Hw. unfold kngq_unlink_id. walk; by split. Qed.

Lemma kngq_contains_quiet q w id : P w -> yields (fun x => P x.1.2 /\ same_slots q x.1.1) (kngq_contains q w id).
Proof. intros Hw. unfold kngq_contains. walk; by split. Qed.

Lemma _kngq_put_quiet q w req fd : P w -> yields (fun x => P x.1.2 /\ same_slots q x.1.1) (_kngq_put alloc_ok fuel q w req fd).
Proof. intros Hw. unfold _kngq_put. walk; by split. Qed.

Lemma next_file_quiet n : forall w f, P w -> yields (fun x => P x.1) (next_file n w f).
Proof.
  induction n as [|n IH]; intros w f Hw; cbn [next_file]; [done|]. walk; try done; apply IH; quiet.
Qed.

Lemma _kngq_next_file_quiet q w : P w -> yields (fun x => P x.1) (_kngq_next_file fuel q w).
Proof. intros Hw. unfold _kngq_next_file. walk; by apply next_file_quiet. Qed.

Lemma close_fts_quiet q w : P w -> yields P (close_fts q w).
Proof. intros Hw. unfold close_fts. walk; quiet. Qed.

#[local] Hint Resolve kngq_link_id_quiet kngq_unlink_id_quiet kngq_contains_quiet _kngq_put_quiet _kngq_next_file_quiet close_fts_quiet : kng.

(** the end of a path *)
Ltac slots := unfold same_slots in *; cbn [nslots nrunning set_err set_seq set_qmsg set_fts] in *; open_pairs; split; [quiet|split; congruence].

Lemma kngq_put_quiet q w req : P w -> yields (fun x => P x.1.2 /\ same_slots q x.1.1) (kngq_put alloc_ok fuel q w req).
Proof. intros Hw. unfold kngq_put. walk; slots. Qed.

Lemma reopen_quiet q w : P w -> P (reopen q w).2 /\ same_slots q (reopen q w).1.
Proof. intros Hw. unfold reopen. pose proof (q_fts_open P K w (basepath q) fts_oldest_first Hw). by destruct (fts_open _ _ _) as [w1 f]. Qed.

Lemma kngq_next_file_quiet q w : P w -> yields (fun x => P x.1.2 /\ same_slots q x.1.1) (kngq_next_file fuel q w).
Proof.
  intros Hw. unfold kngq_next_file. assert (Ho : forall q1 w1 (b : bool), P w1 -> same_slots q q1 -> yields (fun x => P x.1.2 /\ same_slots q x.1.1)
    ('(w, ent) ← _kngq_next_file fuel q1 w1;
     match ent with
     | Some ent => Ret (q1, w, Some ent)
     | None => if b then w ← close_fts q1 w; let '(q, w) := reopen q1 w in '(w, ent) ← _kngq_next_file fuel q w;
         match ent with Some ent => Ret (q, w, Some ent) | None => w ← close_fts q w; Ret (set_fts q None, w, None) end else Ret (q1, w, None)
     end)).
  { intros q1 w1 b H1 Hq. eapply yields_bind; [by apply _kngq_next_file_quiet|]. intros [w2 [ent|]] H2; [by apply yields_ret|]. destruct b; [|by apply yields_ret].
    eapply yields_bind; [by apply close_fts_quiet|]. intros w3 H3. destruct (reopen_quiet q1 w3 H3). destruct (reopen q1 w3). walk; slots. }
  destruct (q_fts q); [by apply (Ho q w true)|]. destruct (reopen_quiet q w Hw). destruct (reopen q w) as [q1 w1]. by apply (Ho q1 w1 false).
Qed.

#[local] Hint Resolve kngq_put_quiet kngq_next_file_quiet : kng.

Lemma kngq_next_quiet q w : P w -> yields (fun x => P x.1.1.2 /\ same_slots q x.1.1.1) (kngq_next alloc_ok fuel q w).
Proof.
  intros Hw. unfold kngq_next.
  assert (Hu : forall q1 w1 req, P w1 -> yields (fun x => P x.1.2 /\ same_slots q1 x.1.1)
    match (id req).1 with Some p => s ← cstr_at (mem req) p; kngq_unlink_id q1 w1 s | None => Ret (q1, w1, 0) end).
  { intros q1 w1 req H1. walk; [by apply kngq_unlink_id_quiet|slots]. }
  walk; slots.
Qed.

#[local] Hint Resolve kngq_next_quiet : kng.

Lemma append_job_status_quiet jobs m s len st : P st.2 -> yields (fun x => P x.1.2 /\ same_slots st.1.2 x.1.1.2) (append_job_status alloc_ok jobs m s len st).
Proof. intros Hw. unfold append_job_status. destruct st as [[b q] w]. cbn [fst snd] in *. walk; slots. Qed.

Lemma field_loop_keeps {St} (I : St -> Prop) (func : Z -> Z -> St -> outcome (St * Z)) n : (forall s len st, I st -> yields (fun x => I x.1) (func s len st)) ->
  forall m s seps i start in_str st, I st -> yields (fun x => I x.1.1.1) (field_loop func n m s seps i start in_str st).
Proof.
  intros Hf. induction n as [|n IH]; intros m s seps i start in_str st Hs; cbn [field_loop]; [by apply yields_ret|].
  eapply yields_bind; [apply reading_any|]. intros ch _. destruct (in_set _ _); [|by apply IH]. destruct in_str; [|by apply IH].
  eapply yields_bind; [by apply Hf|]. intros [st1 ret] H1. destruct (ret <=? 0); [by apply yields_ret|by apply IH].
Qed.

Lemma str_map_field_keeps {St} (I : St -> Prop) (func : Z -> Z -> St -> outcome (St * Z)) : (forall s len st, I st -> yields (fun x => I x.1) (func s len st)) ->
  forall m s len seps st, I st -> yields (fun x => I x.1) (str_map_field func m s len seps st).
Proof.
  intros Hf m s len seps st Hs. unfold str_map_field. eapply yields_bind; [by apply (field_loop_keeps I)|]. intros [[[st1 [ret|]] start] in_str] H1; [by apply yields_ret|].
  destruct (_ && _); [by apply Hf|by apply yields_ret].
Qed.

Lemma append_job_statuses_quiet jobs b q w m s len : P w -> yields (fun x => P x.2 /\ same_slots q x.1.2) (append_job_statuses alloc_ok jobs b q w m s len).
Proof.
  intros Hw. unfold append_job_statuses. eapply yields_bind.
  - apply (str_map_field_keeps (fun st : buf_t * kng_queue * W => P st.2 /\ same_slots q st.1.2)); [|by split]. intros s0 len0 st [H1 H2].
    eapply yields_impl; [by apply append_job_status_quiet|]. intros x [H3 H4]. split; [done|]. destruct H2, H4. split; congruence.
  - intros [[[b1 q1] w1] r] [H1 H2]. walk; slots.
Qed.

Lemma load_manifest_quiet o w b : P w -> yields (fun x => P x.1) (load_manifest alloc_ok o w b).
Proof. intros Hw. unfold load_manifest. walk; quiet. Qed.
End Queue.

(** ** Jobs are children that were not waited for *)

Section Owned.
Context {W R : Type} {SW : Sys W} {EW : EdsSys W} {FW : Files W} {KW : KngSys W} {LR : Libc R}.
Context (alloc_ok : Z -> bool) (fuel : nat).

(** a property of the system, its children that were not waited for, and the
    options of the daemon *)
Context (Q : W -> Prop) (children : W -> gset Z) (o : kng_opts).

(** a program of the directory, with a name that has no slash and no dot *)
Definition runnable (c : child) : Prop := exists t, is_valid_type (Some t) = true /\ c_path c = snprintf PATH_MAX (knegdir o ++ [47] ++ t).

Record kng_ops : Prop := KngOps {
  o_quiet C : quiet_ops (fun w => Q w /\ children w = C);
  o_fork w c : runnable c -> Q w ->
    let '(w', p) := fork w c in
    Q w' /\ match p with Some p => 0 < p /\ p ∉ children w /\ children w' = {[p]} ∪ children w | None => children w' = children w end;
  o_kill w p sig : p ∈ children w -> Q w -> Q (kill w p sig) /\ children (kill w p sig) = children w;
  o_waitpid w : Q w ->
    let '(w', r) := waitpid w in
    Q w' /\ match r with inl (p, _) => if 0 <? p then children w' = children w ∖ {[p]} else children w' = children w | inr _ => children w' = children w end;
  o_wait w : Q w -> Q (wait w).1;
}.

Context (KO : kng_ops).

Definition started_job (w w' : W) (r : kng_job + bytes) : Prop :=
  Q w' /\ match r with inl j => 0 < pid j /\ pid j ∉ children w /\ children w' = {[pid j]} ∪ children w | inr _ => children w' = children w end.

Lemma start_child_own w0 w ctx msg type id start t : is_valid_type (Some type) = true -> Q w /\ children w = children w0 ->
  yields (fun x => started_job w0 x.1 x.2) (start_child alloc_ok fuel o w ctx msg type id start t).
Proof.
  intros Ht Hw. set (P := fun w => Q w /\ children w = children w0). assert (K : quiet_ops P) by apply (o_quiet KO). change (P w) in Hw.
  unfold start_child. walk; try (apply (close_quiet P K); quiet).
  destruct (close_quiet P K w2 ctx) as [HQ HC]; [done|]. match goal with |- context [fork ?w ?c] => pose proof (o_fork KO w c) as Hf; destruct (fork w c) as [w3 p] end.
  destruct Hf as [HQ3 Hp]; [by exists type|done|]. destruct (q_close _ (o_quiet KO (children w3)) w3 z4) as [HQ4 HC4]; [done|].
  destruct p as [p|]; apply yields_ret; (split; [done|]); cbn [fst snd pid]; rewrite HC4; [|congruence]. by rewrite <- HC.
Qed.

Lemma job_new_own w type id name t : Q w -> yields (fun x => started_job w x.1 x.2) (job_new alloc_ok fuel o w type id name t).
Proof.
  intros Hw0. set (P := fun w' => Q w' /\ children w' = children w). assert (K : quiet_ops P) by apply (o_quiet KO). assert (Hw : P w) by done.
  unfold job_new. destruct (is_valid_type type) eqn:Ht; cbn [negb]; [|by apply yields_ret]. destruct type as [type|]; [|done].
  walk; try (by apply (close_quiet P K)); try done. cbn [default]. by apply start_child_own.
Qed.

(** ** The state *)

Definition own (jobs : list kng_job) (w : W) : Prop := NoDup (map pid jobs) /\ Forall (fun j => 0 < pid j /\ pid j ∈ children w) jobs.

Record good (s : knegd) (w : W) : Prop := Good {
  g_world : Q w;
  g_own : own (jobs s) w;
  g_count : nrunning (kngq s) = zlen (jobs s);
  g_opts : opts s = o;
}.

Lemma own_world jobs w w' : own jobs w -> children w' = children w -> own jobs w'.
Proof. unfold own. by intros H ->. Qed.

(** what the rest of the state does not matter for *)
Lemma good_same s w s' w' : good s w -> Q w' -> children w' = children w -> map pid (jobs s') = map pid (jobs s) -> nrunning (kngq s') = nrunning (kngq s) -> opts s' = opts s -> good s' w'.
Proof.
  intros [G1 [G2 G3] G4 G5] HQ HC Hj Hn Ho. split; [done| |rewrite Hn, G4; unfold zlen; by rewrite <- (length_map pid (jobs s)), <- Hj, length_map|congruence].
  split; [by rewrite Hj|]. rewrite HC. assert (E : Forall (fun p => 0 < p /\ p ∈ children w) (pid <$> jobs s')) by (change (pid <$> jobs s') with (map pid (jobs s')); rewrite Hj; by apply Forall_fmap).
  by apply Forall_fmap in E.
Qed.

Lemma start_knegd_job_good s w req : good s w -> yields (fun x => good x.1.1 x.1.2) (start_knegd_job alloc_ok fuel s w req).
Proof.
  intros [G1 [G2 G3] G4 G5]. unfold start_knegd_job. do 3 (eapply yields_bind; [apply reading_any|]; intros ? _). rewrite G5.
  eapply yields_bind; [by apply job_new_own|]. intros [w' [j|e]] [HQ Hj]; apply yields_ret; cbn [fst snd].
  - unfold jobs_add. cbn [fst snd] in *. destruct Hj as (Hp & Hn & Hc). split; cbn [jobs kngq opts set_kngq set_jobs kngq_update_running nrunning jobs_add]; [done| |rewrite G4, zlen_cons; lia|done].
    split; cbn [map].
    + constructor; [|done]. intros Hin. apply list_elem_of_fmap in Hin as (j' & E & Hin). rewrite Forall_forall in G3. destruct (G3 j' Hin) as [_ Hc']. congruence.
    + rewrite Hc. constructor; [split; [done|set_solver]|]. eapply Forall_impl; [exact G3|]. cbn. intros j' [? ?]. split; [done|set_solver].
  - by apply (good_same s w).
Qed.

Lemma dispatch_n_jobs_good k : forall s w n, good s w -> yields (fun x => good x.1 x.2) (dispatch_n_jobs alloc_ok fuel k s w n).
Proof.
  induction k as [|k IH]; intros s w n Hg; cbn [dispatch_n_jobs]; [done|]. destruct (0 <? n); [|by apply yields_ret].
  eapply yields_bind; [apply (kngq_next_quiet alloc_ok fuel _ (o_quiet KO (children w))); by split; [apply Hg|]|]. intros [[[q w1] ret] r] ([HQ HC] & _ & Hn).
  cbn [fst snd] in *. assert (Hg1 : good (set_kngq s q) w1) by (by apply (good_same s w)). destruct r as [[req ct]|]; [|by apply yields_ret].
  cbv zeta. destruct (_ || _); [by apply IH|]. eapply yields_bind; [by apply start_knegd_job_good|]. intros [[s2 w2] [j|e]] Hg2; [|by apply IH]. cbn [fst snd] in Hg2.
  destruct (q_now _ (o_quiet KO (children w2)) w2) as [HQ3 HC3]; [by split; [apply Hg2|]|]. destruct (now w2) as [w3 t]. apply IH. by apply (good_same s2 w2).
Qed.

Lemma dispatch_good s w : good s w -> yields (fun x => good x.1 x.2) (dispatch alloc_ok fuel s w).
Proof. intros Hg. unfold dispatch. destruct (0 <? _); [by apply dispatch_n_jobs_good|by apply yields_ret]. Qed.

(** ** Handlers *)

(** children are reported by the event loop only *)
Definition may (h : handler) (fd : Z) (s : knegd) : Prop := match h with kng_on_svc_reaped_child _ _ => False | _ => True end.

(** a child was waited for that may be a job *)
Definition reaped (p : Z) (s : knegd) (w : W) : Prop :=
  0 < p /\ Q w /\ NoDup (map pid (jobs s)) /\ Forall (fun j => 0 < pid j /\ (pid j <> p -> pid j ∈ children w)) (jobs s) /\ nrunning (kngq s) = zlen (jobs s) /\ opts s = o.

Definition keeps_good : knegd * W * calls -> Prop := fun '(s, w, cmds) => good s w /\ Forall (may_cmd may s) cmds.

Lemma keeps_ret s w cmds : good s w -> Forall (may_cmd may s) cmds -> yields keeps_good (Ret (s, w, cmds)).
Proof. intros Hg Hc. by apply yields_ret. Qed.

Lemma good_client s w fd c : good s w -> good (set_cli s fd c) w.
Proof. intros Hg. by apply (good_same s w); [|apply Hg|..]. Qed.

Lemma good_queue s w q w' : good s w -> Q w' /\ children w' = children w -> same_slots (kngq s) q -> good (set_kngq s q) w'.
Proof. intros Hg [HQ HC] [_ Hn]. by apply (good_same s w). Qed.

#[local] Hint Resolve good_client good_queue keeps_ret : core.

Lemma write_response_good s w fd ok e : good s w -> yields keeps_good (write_response alloc_ok s w fd ok e).
Proof.
  intros Hg. unfold write_response. eapply yields_bind; [apply reading_any|]. intros [msg ret] _. apply keeps_ret; [by apply good_client|].
  constructor; [done|]. destruct (negb _); by repeat constructor.
Qed.

Lemma answer_good s w fd b : good s w -> yields keeps_good (answer alloc_ok s w fd b).
Proof. intros Hg. unfold answer. eapply yields_bind; [apply reading_any|]. intros msg _. by apply write_response_good, good_client. Qed.

Lemma handle_start_good s w fd req : good s w -> yields keeps_good (handle_start alloc_ok fuel s w fd req).
Proof.
  intros Hg. unfold handle_start. eapply yields_bind; [by apply start_knegd_job_good|]. intros [[s1 w1] [j|e]] H1; [|by apply write_response_good].
  eapply yields_bind; [apply reading_any|]. intros b _. by apply answer_good.
Qed.

Lemma quiet_start s w : good s w -> Q w /\ children w = children w.
Proof. by intros []. Qed.

#[local] Hint Resolve quiet_start : core.

Lemma handle_queue_good s w fd req : good s w -> yields keeps_good (handle_queue (LR := LR) alloc_ok fuel s w fd req).
Proof.
  intros Hg. unfold handle_queue. do 2 (eapply yields_bind; [apply reading_any|]; intros ? _).
  repeat (match goal with |- yields _ (if ?b then write_err_response _ _ _ _ _ else _) => destruct b end; [by apply write_response_good|]).
  destruct (0 <? _).
  - eapply yields_bind; [by apply start_knegd_job_good|]. intros [[s1 w1] [j|e]] H1; [|by apply write_response_good]. apply write_response_good.
    by apply (good_same s1 w1); [|apply H1|..].
  - eapply yields_bind; [apply (kngq_put_quiet alloc_ok fuel _ (o_quiet KO (children w))); by eauto|]. intros [[q w1] ret] [H1 H2]. cbv zeta.
    destruct (negb _); by apply write_response_good, (good_queue s w).
Qed.

Lemma handle_pids_good s w fd req : good s w -> yields keeps_good (handle_pids alloc_ok s w fd req).
Proof.
  intros Hg. unfold handle_pids. destruct (id req).1; [|done]. eapply yields_bind; [apply reading_any|]. intros b _. by apply answer_good.
Qed.

Lemma handle_status_good s w fd req : good s w -> yields keeps_good (handle_status alloc_ok s w fd req).
Proof.
  intros Hg. unfold handle_status. destruct (id req).1; [|done].
  eapply yields_bind; [apply (append_job_statuses_quiet alloc_ok _ (o_quiet KO (children w))); by eauto|]. intros [[b q] w1] [H1 H2]. by apply answer_good, (good_queue s w).
Qed.

(** signals to jobs *)
Lemma kill_job w sig j jobs : Q w -> Forall (fun j => 0 < pid j /\ pid j ∈ children w) jobs -> j ∈ jobs -> Q (kill w (pid j) sig) /\ children (kill w (pid j) sig) = children w.
Proof. intros HQ Hj Hin. rewrite Forall_forall in Hj. apply (o_kill KO); [by apply Hj|done]. Qed.

Lemma jobs_stop_own jobs : forall w id, Q w -> Forall (fun j => 0 < pid j /\ pid j ∈ children w) jobs ->
  Q (jobs_stop w jobs id).1 /\ children (jobs_stop w jobs id).1 = children w /\ map pid (jobs_stop w jobs id).2 = map pid jobs.
Proof.
  induction jobs as [|j jobs IH]; intros w id HQ Hj; cbn [jobs_stop]; [done|]. destruct (bool_decide _).
  - destruct (kill_job w SIGTERM j (j :: jobs) HQ Hj) as [H1 H2]; [by left|]. done.
  - apply Forall_cons in Hj as [_ Hj]. destruct (IH w id HQ Hj) as (H1 & H2 & H3). destruct (jobs_stop w jobs id) as [w1 js]. cbn in *. by rewrite H3.
Qed.

Lemma check_job_own w now j : Q w -> pid j ∈ children w -> Q (check_job w now j).1 /\ children (check_job w now j).1 = children w /\ pid (check_job w now j).2 = pid j.
Proof.
  intros HQ Hj. unfold check_job. destruct (flag_set _ _); [by destruct (o_kill KO w (pid j) SIGKILL Hj HQ)|]. destruct (flag_set _ _); [done|].
  destruct (_ <=? _); [by destruct (o_kill KO w (pid j) SIGTERM Hj HQ)|done].
Qed.

Lemma check_jobs_own now jobs : forall w, Q w -> Forall (fun j => 0 < pid j /\ pid j ∈ children w) jobs ->
  Q (check_jobs w now jobs).1 /\ children (check_jobs w now jobs).1 = children w /\ map pid (check_jobs w now jobs).2 = map pid jobs.
Proof.
  induction jobs as [|j jobs IH]; intros w HQ Hj; cbn [check_jobs]; [done|]. apply Forall_cons in Hj as [[_ Hj] Hjs].
  destruct (check_job_own w now j HQ Hj) as (H1 & H2 & H3). destruct (check_job w now j) as [w1 j1]. cbn [fst snd] in *.
  destruct (IH w1 H1) as (H4 & H5 & H6); [by rewrite H2|]. destruct (check_jobs w1 now jobs) as [w2 js]. cbn [fst snd map] in *. split; [done|]. split; congruence.
Qed.

Lemma handle_stop_good s w fd req : good s w -> yields keeps_good (handle_stop alloc_ok s w fd req).
Proof.
  intros Hg. unfold handle_stop. eapply yields_bind; [apply reading_any|]. intros id _. destruct (jobs_stop_own (jobs s) w id) as (H1 & H2 & H3); [apply Hg|apply Hg|].
  destruct (jobs_stop w (jobs s) id) as [w1 js]. by apply write_response_good, (good_same s w).
Qed.

Lemma do_tick_good s w : good s w -> yields keeps_good (do_tick s w).
Proof.
  intros Hg. unfold do_tick, jobs_check_times. destruct (q_monotonic _ (o_quiet KO (children w)) w) as [HQ HC]; [by eauto|]. destruct (monotonic w) as [w1 [t|]].
  - destruct (check_jobs_own t.1 (jobs s) w1 HQ) as (H1 & H2 & H3); [cbn in HC; rewrite HC; apply Hg|]. destruct (check_jobs w1 t.1 (jobs s)) as [w2 js].
    apply keeps_ret; [|done]. apply (good_same s w); cbn in *; congruence.
  - apply keeps_ret; [|done]. by apply (good_same s w).
Qed.

#[local] Hint Resolve write_response_good answer_good handle_start_good handle_queue_good handle_pids_good handle_status_good handle_stop_good : core.

(** a choice by something that is read *)
Ltac choose := eapply yields_bind; [apply reading_any|]; intros [] _; cbv iota; [by auto|].

Lemma handle_named_good s w fd req : good s w -> yields keeps_good (handle_named (LR := LR) alloc_ok fuel s w fd req).
Proof. intros Hg. unfold handle_named, write_err_response. cbv zeta. do 5 choose. cbv iota. by auto. Qed.

#[local] Hint Resolve handle_named_good : core.

Lemma handle_req_good s w fd req : good s w -> yields keeps_good (handle_req (LR := LR) alloc_ok fuel s w fd req).
Proof.
  intros Hg. unfold handle_req, write_err_response. do 2 (eapply yields_bind; [apply reading_any|]; intros ? _). do 2 (match goal with |- yields _ (if ?b then _ else _) => destruct b end; [by auto|]).
  cbv zeta. choose. eapply yields_bind; [apply reading_any|]. intros [] _.
  { eapply yields_bind; [apply (load_manifest_quiet alloc_ok _ (o_quiet KO (children w))); by eauto|]. intros [w1 b] H1. apply answer_good. by apply (good_same s w); [|apply H1|apply H1|..]. }
  eapply yields_bind; [apply reading_any|]. intros [] _; [|by auto]. eapply yields_bind; [apply reading_any|]. intros b _. by auto.
Qed.

Lemma do_readreq_good s w fd : good s w -> yields keeps_good (do_readreq (LR := LR) alloc_ok fuel s w fd).
Proof.
  intros Hg. unfold do_readreq. eapply yields_bind; [apply (recvmsg_quiet alloc_ok fuel _ (o_quiet KO (children w))); by eauto|]. intros [[w1 msg] ret] [HQ HC]. cbv zeta.
  set (s1 := set_cli s fd _). assert (H1 : good s1 w1) by (by apply (good_same s w)). destruct (_ =? _); [by auto|]. destruct (negb _); [by apply keeps_ret; [|repeat constructor]|].
  eapply yields_bind; [apply reading_any|]. intros [[msg1 r] ret1] _. assert (H2 : good (set_cli s1 fd (set_msgbuf (KNG_CLI s fd) msg1)) w1) by (by apply good_client).
  unfold write_err_response. cbv zeta. destruct (negb _); [by auto|]. by apply handle_req_good.
Qed.

Lemma do_on_readable_good s w fd : good s w -> yields keeps_good (do_on_readable alloc_ok s w fd).
Proof.
  intros Hg. unfold do_on_readable. cbv zeta. assert (Hc : forall c, good (set_cli s fd c) w) by (intros c; by apply good_client).
  destruct (flag_set _ KNGFL_HASMSGBUF); [|destruct (ycl_msg_init alloc_ok)]; apply keeps_ret; try apply Hc; repeat constructor; by intros h [= <-].
Qed.

Lemma do_finalize_good s w fd : good s w -> yields keeps_good (do_finalize s w fd).
Proof. intros Hg. apply keeps_ret; [by apply good_client|done]. Qed.

(** ** Children that end *)

Lemma remove_loop_spec p jobs : NoDup (map pid jobs) ->
  match remove_loop jobs p with
  | Some js => NoDup (map pid js) /\ Forall (fun j => j ∈ jobs /\ pid j <> p) js /\ zlen js = zlen jobs - 1
  | None => Forall (fun j => pid j <> p) jobs
  end.
Proof.
  induction jobs as [|j jobs IH]; intros Hn; cbn [remove_loop]; [done|]. cbn [map] in Hn. apply NoDup_cons in Hn as [Hj Hn].
  destruct (Z.eqb_spec (pid j) p) as [<-|Hne].
  - split; [done|]. split; [|rewrite zlen_cons; lia]. apply Forall_forall. intros x Hx. split; [by right|]. intros E. apply Hj. rewrite <- E. by apply list_elem_of_fmap_2.
  - specialize (IH Hn). destruct (remove_loop jobs p) as [js|]; cbn [fmap option_fmap option_map]; [|by constructor]. destruct IH as (H1 & H2 & H3). split; [|split].
    + cbn [map]. constructor; [|done]. intros Hin. apply Hj. apply list_elem_of_fmap in Hin as (x & -> & Hx). rewrite Forall_forall in H2. destruct (H2 x Hx). by apply list_elem_of_fmap_2.
    + constructor; [split; [by left|done]|]. eapply Forall_impl; [exact H2|]. cbn. intros x [? ?]. split; [by right|done].
    + rewrite !zlen_cons. lia.
Qed.

Lemma do_reaped_child_good s w p : reaped p s w -> yields keeps_good (do_reaped_child alloc_ok fuel s w p).
Proof.
  intros (Hp & HQ & Hn & Hj & Hc & Ho). unfold do_reaped_child, jobs_remove. rewrite (proj2 (Z.leb_gt p 0)) by done. pose proof (remove_loop_spec p (jobs s) Hn) as Hr.
  assert (Hend : forall s1, good s1 w -> yields keeps_good ('(s2, w2) ← dispatch alloc_ok fuel s1 w; Ret (s2, w2, []))).
  { intros s1 H1. eapply yields_bind; [by apply dispatch_good|]. intros [s2 w2] H2. by apply keeps_ret. }
  rewrite Forall_forall in Hj. destruct (remove_loop (jobs s) p) as [js|]; cbn [mbind outcome_mbind].
  - change (0 =? 0) with true. cbv iota zeta. destruct Hr as (H1 & H2 & H3). apply Hend. split; [done| |cbn; lia|done]. split; [done|]. eapply Forall_impl; [exact H2|].
    cbn. intros j [Hin Hne]. destruct (Hj j Hin) as [? Hch]. auto.
  - change (-1 =? 0) with false. cbv iota zeta. apply Hend. split; [done| |done|done]. split; [done|]. rewrite Forall_forall in Hr. apply Forall_forall. intros j Hin.
    destruct (Hj j Hin) as [? Hch]. auto.
Qed.

Lemma kng_body_good h fd s w : may h fd s -> good s w -> yields keeps_good (kng_body (LR := LR) alloc_ok fuel h fd s w).
Proof.
  intros Hm Hg. destruct h; cbn [kng_body]; [by apply do_on_readable_good|by apply do_readreq_good|by apply do_finalize_good|done|by apply do_tick_good].
Qed.

(** the daemon after [eds_service_init] *)
Definition running (procs fds fd : Z) : @eds_service handler :=
  Service (Eds.name knegd_service) (Eds.path knegd_service) (actions knegd_service) procs fds (tick_slice_us knegd_service) (Some kng_on_tick) None (Some kng_on_svc_reaped_child) fd.

Lemma keeps_good_safe a x : keeps_good x -> safe_result may good a x.
Proof. destruct x as [[s w] cmds]. intros [Hg Hc]. split; [done|]. by split; [intros []|]. Qed.

Lemma knegd_laws procs fds fd : safe_laws (running procs fds fd) (kng_body (LR := LR) alloc_ok fuel) may good reaped.
Proof.
  split.
  - intros h c s w Hm Hg. eapply yields_impl; [by apply kng_body_good|]. intros x. apply keeps_good_safe.
  - intros c s. split; [by intros h [= <-]|]. split; [by intros h [=]|]. split; [by intros h [=]|by intros h [= <-]].
  - by intros s h [= <-].
  - by intros f p st c s [=].
  - intros s w Hg. pose proof (o_quiet KO (children w)) as K. assert (Hq : forall w', Q w' /\ children w' = children w -> good s w') by (intros w' [? ?]; by apply (good_same s w)).
    pose proof (quiet_start s w Hg) as H0. split; [by apply Hq, (q_accept _ K)|]. split; [intros c; by apply Hq, (q_close _ K)|]. split; [intros c bs; by apply Hq, (q_write _ K)|].
    split; [intros r wr; by apply Hq, (q_select _ K)|]. split; [by apply Hq, (q_clock _ K)|]. intros c x y. by apply Hq, (q_fcntl _ K).
  - intros s w Hg. pose proof (o_waitpid KO w (g_world s w Hg)) as Hw. destruct (waitpid w) as [w' [[p st]|e]]; [destruct (Z.ltb_spec 0 p)|]; destruct Hw as [HQ HC]; [|by apply (good_same s w)..].
    destruct Hg as [G1 [G2 G3] G4 G5]. split; [done|]. split; [done|]. split; [done|]. split; [|done]. eapply Forall_impl; [exact G3|]. cbn. intros j [? ?]. split; [done|]. rewrite HC. set_solver.
  - intros p st s w Hr. eapply yields_impl; [by apply do_reaped_child_good|]. intros x. apply keeps_good_safe.
Qed.

Lemma kngq_init_quiet P (K : quiet_ops P) w path n : P w -> P (kngq_init alloc_ok w path n).1.1.
Proof.
  intros Hw. unfold kngq_init. pose proof (q_mkdir P K w path 0x1c0 Hw) as H1. destruct (mkdir w path 0x1c0) as [w1 e]. destruct (is_error e EEXIST); [done|].
  pose proof (q_mkdir P K w1 (snprintf 256 (path ++ lit "/ids")) 0x1c0 H1) as H2. destruct (mkdir w1 _ _) as [w2 e2]. destruct (is_error e2 EEXIST); [done|]. by destruct (ycl_msg_init alloc_ok).
Qed.

Lemma kng_mod_init_good s w : jobs s = [] -> opts s = o -> Q w -> yields (fun x => good x.1.1 x.1.2) (kng_mod_init alloc_ok fuel s w).
Proof.
  intros Hj Ho HQ. unfold kng_mod_init. destruct (kngq_init_quiet _ (o_quiet KO (children w)) w (queuedir (opts s)) (nqueueslots (opts s))) as [H1 H2]; [done|].
  assert (Hn : nrunning (kngq_init alloc_ok w (queuedir (opts s)) (nqueueslots (opts s))).1.2 = 0).
  { unfold kngq_init. destruct (mkdir w _ _) as [w1 e]. destruct (is_error e EEXIST); [done|]. destruct (mkdir w1 _ _) as [w2 e2]. destruct (is_error e2 EEXIST); [done|].
    by destruct (ycl_msg_init alloc_ok). }
  destruct (kngq_init _ _ _ _) as [[w1 q] ret]. cbn [fst snd] in *. assert (Hg : good (set_kngq s q) w1).
  { split; [done| |cbn; by rewrite Hn, Hj|done]. cbn [jobs set_kngq]. rewrite Hj. split; constructor. }
  destruct (ret <? 0); [by apply yields_ret|]. eapply yields_bind; [by apply dispatch_good|]. intros [s2 w2] H. by apply yields_ret.
Qed.

Lemma kill_all_own sig jobs : forall w, Q w -> Forall (fun j => 0 < pid j /\ pid j ∈ children w) jobs -> Q (kill_all w jobs sig) /\ children (kill_all w jobs sig) = children w.
Proof.
  unfold kill_all. induction jobs as [|j jobs IH]; intros w HQ Hj; [done|]. cbn [foldl]. apply Forall_cons in Hj as [[_ Hj] Hjs].
  destruct (o_kill KO w (pid j) sig Hj HQ) as [H1 H2]. rewrite <- H2. apply IH; [done|by rewrite H2].
Qed.

Lemma sleep_loop_quiet P (K : quiet_ops P) n : forall w t, P w -> yields P (sleep_loop n w t).
Proof.
  induction n as [|n IH]; intros w t Hw; cbn [sleep_loop]; [done|]. pose proof (q_nanosleep P K w t Hw) as H1. destruct (nanosleep w t) as [w1 [r|]]; [by apply IH|by apply yields_ret].
Qed.

Lemma wait_loop_keeps n : forall w, Q w -> Q (wait_loop n w).
Proof. induction n as [|n IH]; intros w Hw; cbn [wait_loop]; [done|]. pose proof (o_wait KO w Hw) as H1. destruct (wait w) as [w1 [p|]]; [by apply IH|done]. Qed.

Lemma kng_mod_fini_keeps s w : good s w -> yields (fun x => Q x.2) (kng_mod_fini fuel s w).
Proof.
  intros [G1 [G2 G3] G4 G5]. unfold kng_mod_fini. destruct (kill_all_own SIGTERM (jobs s) w G1 G3) as [H1 H2]. cbv zeta.
  eapply (yields_bind Q); [|by intros w1 Hw; apply yields_ret]. destruct (0 <? _); [|by apply yields_ret].
  eapply yields_bind; [by apply (sleep_loop_quiet _ (o_quiet KO (children w)))|]. intros w1 [H3 H4]. apply yields_ret, wait_loop_keeps. apply kill_all_own; [done|by rewrite H4].
Qed.

Lemma kng_init_running w w' svc : eds_service_init knegd_service w = (w', Some svc) -> exists procs fds fd, svc = running procs fds fd.
Proof.
  unfold eds_service_init. change (Eds.name knegd_service) with (Some (lit "knegd")). change (Eds.path knegd_service) with (Some (lit "knegd.sock")). cbv iota.
  destruct (FD_SETSIZE <? nfds knegd_service); [done|]. destruct (_ && _); [done|]. destruct (io_listen_unix w (lit "knegd.sock")) as [w1 [fd|]]; [|done].
  intros [= _ <-]. by eexists _, _, fd.
Qed.

(** the states between the turns of the event loop *)
Definition runs (s0 : knegd) (w0 : W) (s : @Eds.state W knegd handler pointer) : Prop :=
  exists w1 svc a w last, eds_service_init knegd_service w0 = (w1, Some svc) /\ jobs s0 = [] /\ opts s0 = o /\ Q w1 /\
    kng_mod_init alloc_ok fuel s0 w1 = Ret (a, w, 0) /\ reachable svc (kng_body (LR := LR) alloc_ok fuel) load a (clock_gettime w).1 s last.

Lemma runs_keeps s0 w0 s : runs s0 w0 s -> exists procs fds fd, safe_laws (running procs fds fd) (kng_body (LR := LR) alloc_ok fuel) may good reaped /\ keeps may good s.
Proof.
  intros (w1 & svc & a & w & last & Hi & Hj & Ho & HQ & Hm & Hr). destruct (kng_init_running _ _ _ Hi) as (procs & fds & fd & ->). exists procs, fds, fd.
  pose proof (knegd_laws procs fds fd) as SL. split; [exact SL|]. apply (reachable_keeps _ _ load may good reaped SL a (clock_gettime w).1 s last); [|done].
  pose proof (kng_mod_init_good s0 w1 Hj Ho HQ _ Hm) as Hg. cbn [fst snd] in Hg. destruct (q_clock _ (o_quiet KO (children w)) w) as [H1 H2]; [by split; [apply Hg|]|]. by apply (good_same a w).
Qed.
End Owned.
