(* ===== verification/KngJobs.v ===== *)
(** * The jobs of the job daemon (src/apps/knegd/kng.c)

    Which signals jobs get and when, how many jobs run, and a run of the daemon
    in which a job is started, exceeds its time and is killed. *)

From stdpp Require Import gmap.
From S2P Require Import Prelude CLib Buf Netstring Io Ycl Keeps YclMsg Eds EdsSafe Services Str Kng KngInv.

(** C5: at every turn of the event loop the number of running jobs is that of
    the jobs in the list, whose pids are different and belong to children that
    were not waited for. *)
Theorem kng_jobs_are_children {W R : Type} {SW : Sys W} {EW : EdsSys W} {FW : Files W} {KW : KngSys W} {LR : Libc R} alloc_ok fuel
    (Q : W -> Prop) (children : W -> gset Z) s0 w0 (s : @Eds.state W knegd handler pointer) :
  kng_ops Q children (opts s0) -> runs (LR := LR) alloc_ok fuel Q (opts s0) s0 w0 s ->
  nrunning (kngq (app s)) = zlen (jobs (app s)) /\ NoDup (map pid (jobs (app s))) /\ Forall (fun j => 0 < pid j /\ pid j ∈ children (world s)) (jobs (app s)).
Proof.
  intros KO Hr. destruct (runs_keeps alloc_ok fuel Q children (opts s0) KO _ _ _ Hr) as (procs & fds & fd & _ & K).
  destruct (kept_good _ _ _ _ K) as [_ [H2 H3] H4 _]. done.
Qed.

(** C4: the daemon sends signals to its children that were not waited for only,
    and executes only programs of its directory whose name consists of lower
    case letters, digits and dashes: what holds as long as this is so holds at
    every turn, and still after the clients were removed and the jobs were
    killed at the end. *)
Theorem kng_signals_own {W R : Type} {SW : Sys W} {EW : EdsSys W} {FW : Files W} {KW : KngSys W} {LR : Libc R} alloc_ok fuel
    (Q : W -> Prop) (children : W -> gset Z) s0 w0 (s : @Eds.state W knegd handler pointer) :
  kng_ops Q children (opts s0) -> runs (LR := LR) alloc_ok fuel Q (opts s0) s0 w0 s ->
  exists svc, Q (world s) /\ forall n last sig s1 last1 e s2 a w,
    turn svc (kng_body (LR := LR) alloc_ok fuel) load n s last sig = Ret (s1, last1, e) ->
    cleanup_loop svc (kng_body (LR := LR) alloc_ok fuel) load (Z.to_nat (nfds svc)) n s1 0 = Ret s2 ->
    kng_mod_fini fuel (app s2) (world s2) = Ret (a, w) -> Q w.
Proof.
  intros KO Hr. destruct (runs_keeps alloc_ok fuel Q children (opts s0) KO _ _ _ Hr) as (procs & fds & fd & SL & K). exists (running procs fds fd).
  split; [by apply (kept_good _ _ _ _ K)|]. intros n last sig s1 last1 e s2 a w Ht Hc Hf.
  pose proof (turn_keeps _ _ load may _ _ SL n s last sig K _ Ht) as K1. pose proof (cleanup_keeps _ _ load may _ _ SL n _ s1 0 K1 _ Hc) as K2.
  exact (kng_mod_fini_keeps fuel Q children (opts s0) KO _ _ (kept_good _ _ _ _ K2) _ Hf).
Qed.

(** ** Signals of ticks *)

Section Ticks.
Context {W : Type} {KW : KngSys W}.

(** the times of the ticks *)
Fixpoint tick_all (w : W) (jobs : list kng_job) (ts : list Z) : W * list kng_job :=
  match ts with
  | [] => (w, jobs)
  | t :: ts => let '(w, jobs) := check_jobs w t jobs in tick_all w jobs ts
  end.

(** what a job that is not told to stop gets at each tick *)
Fixpoint waits (j : kng_job) (ts : list Z) : list (option Z) :=
  match ts with
  | [] => []
  | t :: ts => if timeout j <=? t - (started j).1 then Some SIGTERM :: map (fun _ => Some SIGKILL) ts else None :: waits j ts
  end.

Definition schedule (j : kng_job) (ts : list Z) : list (option Z) :=
  if flag_set (j_flags j) KNG_SENTSIGTERM then map (fun _ => Some SIGKILL) ts
  else if flag_set (j_flags j) KNG_STOPPED then match ts with [] => [] | _ :: ts => None :: map (fun _ => Some SIGKILL) ts end
  else waits j ts.

(** the signals of the tick number [k] *)
Definition round (jobs : list kng_job) (ts : list Z) (k : nat) : list (Z * Z) :=
  omap (fun j => match schedule j ts !! k with Some (Some sig) => Some (pid j, sig) | _ => None end) jobs.

Definition send_all (w : W) (sigs : list (Z * Z)) : W := foldl (fun w x => kill w x.1 x.2) w sigs.

Definition aged (t : Z) (j : kng_job) : kng_job :=
  if flag_set (j_flags j) KNG_SENTSIGTERM then j
  else if flag_set (j_flags j) KNG_STOPPED || (timeout j <=? t - (started j).1) then set_jflags j (Z.lor (j_flags j) KNG_SENTSIGTERM) else j.

Lemma sent_flag x : flag_set (Z.lor x KNG_SENTSIGTERM) KNG_SENTSIGTERM = true.
Proof. change KNG_SENTSIGTERM with (2 ^ 0). rewrite flag_set_bit by lia. rewrite Z.lor_spec. by rewrite orb_true_r. Qed.

Lemma schedule_aged j t ts k : schedule (aged t j) ts !! k = schedule j (t :: ts) !! S k.
Proof.
  unfold aged, schedule. destruct (flag_set (j_flags j) KNG_SENTSIGTERM) eqn:E1; [by rewrite E1|]. destruct (flag_set (j_flags j) KNG_STOPPED) eqn:E2; cbn [orb].
  - cbn [j_flags set_jflags]. by rewrite sent_flag.
  - cbn [waits]. destruct (timeout j <=? t - (started j).1); [cbn [j_flags set_jflags]; by rewrite sent_flag|by rewrite E1, E2].
Qed.

Lemma check_jobs_round t ts jobs : forall w, check_jobs w t jobs = (send_all w (round jobs (t :: ts) 0), map (aged t) jobs).
Proof.
  induction jobs as [|j jobs IH]; intros w; cbn [check_jobs]; [done|]. unfold check_job, round, aged, schedule. cbn [omap list_omap map].
  destruct (flag_set (j_flags j) KNG_SENTSIGTERM) eqn:E1; [by rewrite IH|]. destruct (flag_set (j_flags j) KNG_STOPPED) eqn:E2; cbn [orb]; [by rewrite IH|].
  cbn [waits]. destruct (timeout j <=? t - (started j).1); by rewrite IH.
Qed.

(** C6: at every tick each job gets what its schedule says: nothing until its
    time is over, then SIGTERM and at each later tick SIGKILL; a job that was
    told to stop, which got SIGTERM then, nothing at the next tick and SIGKILL
    at each one after. *)
Theorem kng_escalation (w : W) (jobs : list kng_job) (ts : list Z) :
  (tick_all w jobs ts).1 = send_all w (concat (map (round jobs ts) (List.seq 0 (length ts)))).
Proof.
  revert w jobs. induction ts as [|t ts IH]; intros w jobs; cbn [tick_all]; [done|]. rewrite (check_jobs_round t ts), IH. cbn [length List.seq map concat].
  unfold send_all at 3. rewrite foldl_app. fold (send_all w (round jobs (t :: ts) 0)). unfold send_all at 1 2. f_equal. f_equal.
  rewrite <- seq_shift, map_map. apply map_ext. intros k. unfold round. clear. induction jobs as [|j jobs IHj]; [done|]. cbn [map omap list_omap].
  rewrite schedule_aged, IHj. replace (pid (aged t j)) with (pid j); [done|]. unfold aged. by repeat case_match.
Qed.
End Ticks.

(** ** Slots *)

Section Slots.
Context {W R : Type} {SW : Sys W} {EW : EdsSys W} {FW : Files W} {KW : KngSys W} {LR : Libc R}.
Context (alloc_ok : Z -> bool) (fuel : nat).

#[local] Abbreviation any := (fun _ : W => True).

Lemma any_ops : quiet_ops any.
Proof. done. Qed.

(** a step that starts at most [n] jobs *)
Definition starts (n : Z) (s s' : knegd) : Prop := nslots (kngq s') = nslots (kngq s) /\ nrunning (kngq s') <= nrunning (kngq s) + n.

Lemma start_knegd_job_starts s w req : yields (fun x => starts (match x.2 with inl _ => 1 | inr _ => 0 end) s x.1.1) (start_knegd_job alloc_ok fuel s w req).
Proof.
  unfold start_knegd_job. do 4 (eapply yields_bind; [apply reading_any|]; intros ? _). open_pairs. destruct s0; apply yields_ret; split; cbn; lia.
Qed.

Lemma dispatch_n_jobs_starts k : forall s w n, yields (fun x => starts (Z.max 0 n) s x.1) (dispatch_n_jobs alloc_ok fuel k s w n).
Proof.
  induction k as [|k IH]; intros s w n; cbn [dispatch_n_jobs]; [done|]. destruct (Z.ltb_spec 0 n) as [Hn|]; [|by apply yields_ret; split; cbn; lia].
  eapply yields_bind; [by apply (kngq_next_quiet alloc_ok fuel _ any_ops)|]. intros [[[q w1] ret] r] (_ & H1 & H2). cbn [fst snd] in *. cbv zeta.
  assert (Hq : forall s1 m, starts m (set_kngq s q) s1 -> starts m s s1) by (intros s1 m [H3 H4]; split; cbn in *; lia).
  destruct r as [[req ct]|]; [|by apply yields_ret; split; cbn; lia]. destruct (_ || _); [eapply yields_impl; [apply IH|]; intros x; apply Hq|].
  eapply yields_bind; [apply start_knegd_job_starts|]. intros [[s2 w2] [j|e]] [H3 H4]; cbn [fst snd] in *.
  - destruct (now w2) as [w3 t]. eapply yields_impl; [apply IH|]. intros [s4 w4] [H5 H6]. apply Hq. split; cbn in *; lia.
  - eapply yields_impl; [apply IH|]. intros [s4 w4] [H5 H6]. apply Hq. split; cbn in *; lia.
Qed.

(** as many as there are slots *)
Definition fits_slots (s s' : knegd) : Prop := nslots (kngq s') = nslots (kngq s) /\ nrunning (kngq s') <= Z.max (nslots (kngq s)) (nrunning (kngq s)).

Lemma available q : 0 < kngq_navailable q -> kngq_navailable q <= nslots q - nrunning q.
Proof. unfold kngq_navailable. cbv zeta. destruct (Z.ltb_spec (nslots q - nrunning q) 0); [done|]. destruct (Z.ltb_spec (nslots q) (nslots q - nrunning q)); lia. Qed.

Lemma starts_fits s s' : starts (kngq_navailable (kngq s)) s s' -> 0 < kngq_navailable (kngq s) -> fits_slots s s'.
Proof. intros [H1 H2] Hn. pose proof (available _ Hn). split; [done|lia]. Qed.

Lemma dispatch_fits s w : yields (fun x => fits_slots s x.1) (dispatch alloc_ok fuel s w).
Proof.
  unfold dispatch. cbv zeta. destruct (Z.ltb_spec 0 (kngq_navailable (kngq s))) as [Hn|]; [|by apply yields_ret; split; cbn; lia].
  eapply yields_impl; [apply dispatch_n_jobs_starts|]. intros [s1 w1] H. apply starts_fits; [|done]. by rewrite Z.max_r in H by lia.
Qed.

(** the state of the queue is that of [s0] but for what does not count *)
Definition slots_kept (s0 : knegd) : knegd * W * calls -> Prop := fun '(s, _, _) => same_slots (kngq s0) (kngq s).

Lemma write_response_slots s w fd ok e : yields (slots_kept s) (write_response alloc_ok s w fd ok e).
Proof. unfold write_response. eapply yields_bind; [apply reading_any|]. intros [msg ret] _. by apply yields_ret. Qed.

Lemma answer_slots s w fd b : yields (slots_kept s) (answer alloc_ok s w fd b).
Proof. unfold answer. eapply yields_bind; [apply reading_any|]. intros msg _. exact (write_response_slots (set_cli s fd (set_respbuf (KNG_CLI s fd) b)) w fd msg []). Qed.

#[local] Hint Resolve write_response_slots answer_slots : core.

Definition fits (s : knegd) : knegd * W * calls -> Prop := fun '(s', _, _) => fits_slots s s'.

Lemma same_fits s s1 r : same_slots (kngq s) (kngq s1) -> yields (slots_kept s1) r -> yields (fits s) r.
Proof. intros [H1 H2] Hr. eapply yields_impl; [exact Hr|]. intros [[s2 w] cmds] [H3 H4]. split; lia. Qed.

Lemma write_fits s s1 w fd ok e : same_slots (kngq s) (kngq s1) -> yields (fits s) (write_response alloc_ok s1 w fd ok e).
Proof. intros H. by eapply same_fits. Qed.

Lemma answer_fits s s1 w fd b : same_slots (kngq s) (kngq s1) -> yields (fits s) (answer alloc_ok s1 w fd b).
Proof. intros H. by eapply same_fits. Qed.

#[local] Hint Resolve write_fits answer_fits same_slots_refl : core.

Lemma handle_queue_fits s w fd req : yields (fits s) (handle_queue (LR := LR) alloc_ok fuel s w fd req).
Proof.
  unfold handle_queue, write_err_response, write_ok_response. do 2 (eapply yields_bind; [apply reading_any|]; intros ? _).
  do 3 (match goal with |- yields _ (if ?b then _ else _) => destruct b end; [by auto|]). destruct (Z.ltb_spec 0 (kngq_navailable (kngq s))) as [Hn|].
  - eapply yields_bind; [apply start_knegd_job_starts|]. pose proof (available _ Hn). intros [[s1 w1] [j|e]] [H1 H2]; cbn [fst snd] in *.
    + eapply yields_impl; [apply write_response_slots|]. intros [[s2 w2] cmds] [H3 H4]. split; cbn in *; lia.
    + eapply yields_impl; [apply write_response_slots|]. intros [[s2 w2] cmds] [H3 H4]. split; lia.
  - eapply yields_bind; [by apply (kngq_put_quiet alloc_ok fuel _ any_ops)|]. intros [[q w1] ret] [_ H2]. cbv zeta. destruct (negb _); by apply write_fits.
Qed.

Lemma handle_named_fits s w fd req : yields (fits s) (handle_named (LR := LR) alloc_ok fuel s w fd req).
Proof.
  unfold handle_named, write_err_response. cbv zeta. eapply yields_bind; [apply reading_any|]. intros [] _; cbv iota; [by auto|].
  eapply yields_bind; [apply reading_any|]. intros [] _; cbv iota; [apply handle_queue_fits|].
  eapply yields_bind; [apply reading_any|]. intros [] _; cbv iota.
  { unfold handle_pids. destruct (id req).1; [|done]. eapply yields_bind; [apply reading_any|]. intros b _. by auto. }
  eapply yields_bind; [apply reading_any|]. intros [] _; cbv iota.
  { unfold handle_status. destruct (id req).1; [|done]. eapply yields_bind; [by apply (append_job_statuses_quiet alloc_ok _ any_ops)|]. intros [[b q] w1] [_ H]. by apply answer_fits. }
  eapply yields_bind; [apply reading_any|]. intros [] _; cbv iota; [|by auto]. unfold handle_stop. eapply yields_bind; [apply reading_any|]. intros id _.
  destruct (jobs_stop w (jobs s) id) as [w1 js]. by apply write_fits.
Qed.

(** a request to start a job at once comes next *)
Definition asks_start (s : knegd) (w : W) (fd : Z) : Prop :=
  exists w1 msg msg' r, ycl_recvmsg alloc_ok fuel w (ycl (KNG_CLI s fd)) (msgbuf (KNG_CLI s fd)) = Ret (w1, msg, YCL_OK) /\
    ycl_msg_parse alloc_ok knegd_req_fields msg = Ret (msg', r, YCL_OK) /\ streq (Buf.data (Ycl.buf msg')) (data_of r 1).1 (lit "start") = Ret true.

Lemma handle_req_fits s w fd req : streq (mem req) (action req).1 (lit "start") = Ret true \/ yields (fits s) (handle_req (LR := LR) alloc_ok fuel s w fd req).
Proof.
  destruct (streq (mem req) (action req).1 (lit "start")) as [[|]| |] eqn:E; [by left|right..].
  all: unfold handle_req, write_err_response; do 2 (eapply yields_bind; [apply reading_any|]; intros ? _); do 2 (match goal with |- yields _ (if ?b then _ else _) => destruct b end; [by auto|]).
  all: cbv zeta; rewrite E; cbn [mbind outcome_mbind]; try done.
  eapply yields_bind; [apply reading_any|]. intros [] _; cbv iota.
  { eapply yields_bind; [apply reading_any|]. intros [w1 b] _. by auto. }
  eapply yields_bind; [apply reading_any|]. intros [] _; cbv iota; [|apply handle_named_fits]. eapply yields_bind; [apply reading_any|]. intros b _. by auto.
Qed.

Definition starting (s : knegd) : knegd * W * calls -> Prop := fun '(s', _, _) => starts 1 s s'.

Lemma handle_req_starts s w fd req : streq (mem req) (action req).1 (lit "start") = Ret true -> yields (starting s) (handle_req (LR := LR) alloc_ok fuel s w fd req).
Proof.
  intros E. unfold handle_req, write_err_response. assert (Hw : forall s1 w1 ok e, starts 1 s s1 -> yields (starting s) (write_response alloc_ok s1 w1 fd ok e)).
  { intros s1 w1 ok e [H1 H2]. eapply yields_impl; [apply write_response_slots|]. intros [[s2 w2] cmds] [H3 H4]. split; lia. }
  assert (H0 : starts 1 s s) by (split; lia).
  do 2 (eapply yields_bind; [apply reading_any|]; intros ? _). do 2 (match goal with |- yields _ (if ?b then _ else _) => destruct b end; [by auto|]).
  cbv zeta. rewrite E. cbn [mbind outcome_mbind]. unfold handle_start. eapply yields_bind; [apply start_knegd_job_starts|]. intros [[s1 w1] [j|e]] [H1 H2]; cbn [fst snd] in *.
  - eapply yields_bind; [apply reading_any|]. intros b _. eapply yields_impl; [apply answer_slots|]. intros [[s2 w2] cmds] [H3 H4]. split; lia.
  - apply Hw. split; lia.
Qed.

(** C7: a handler leaves at most as many jobs running as there are slots, or as
    were running before, unless a client asks to start one at once, which is
    started whether or not a slot is free. *)
Theorem kng_slots h fd s w s' w' cmds :
  kng_body (LR := LR) alloc_ok fuel h fd s w = Ret (s', w', cmds) ->
  nslots (kngq s') = nslots (kngq s) /\
  (nrunning (kngq s') <= Z.max (nslots (kngq s)) (nrunning (kngq s)) \/ h = on_readreq /\ asks_start s w fd /\ nrunning (kngq s') <= nrunning (kngq s) + 1).
Proof.
  intros E. assert (Hf : forall r, r = Ret (s', w', cmds) -> yields (fits s) r -> nslots (kngq s') = nslots (kngq s) /\ nrunning (kngq s') <= Z.max (nslots (kngq s)) (nrunning (kngq s))).
  { intros r Er Hr. exact (Hr _ Er). }
  destruct h as [| | |p st|]; cbn [kng_body] in E.
  - destruct (Hf _ E) as [? ?]; [|by auto]. unfold do_on_readable. cbv zeta. destruct (flag_set _ KNGFL_HASMSGBUF); [|destruct (ycl_msg_init alloc_ok)]; apply yields_ret; split; cbn; lia.
  - unfold do_readreq in E. destruct (ycl_recvmsg _ _ _ _ _) as [[[w1 msg] ret]| |] eqn:Er; cbn [mbind outcome_mbind] in E; [|done..]. cbv zeta in E.
    destruct (ret =? YCL_AGAIN); [injection E as <- <- <-; cbn; split; [done|left; lia]|]. destruct (Z.eqb_spec ret YCL_OK) as [->|]; cbn [negb] in E; [|injection E as <- <- <-; cbn; split; [done|left; lia]].
    destruct (ycl_msg_parse _ _ _) as [[[msg1 r] ret1]| |] eqn:Ep; cbn [mbind outcome_mbind] in E; [|done..].
    destruct (Z.eqb_spec ret1 YCL_OK) as [->|]; cbn [negb] in E.
    2: { destruct (Hf _ E) as [? ?]; [|by auto]. by apply write_fits. }
    set (s1 := set_cli _ fd _) in E. assert (H1 : kngq s1 = kngq s) by done. destruct (handle_req_fits s1 w1 fd (request (Buf.data (Ycl.buf msg1)) r)) as [Hs|Hr].
    + destruct (handle_req_starts s1 w1 fd _ Hs _ E) as [H2 H3]. rewrite H1 in *. split; [done|right]. split; [done|]. split; [|done]. by exists w1, msg, msg1, r.
    + destruct (Hr _ E) as [H2 H3]. rewrite H1 in *. by auto.
  - injection E as <- <- <-. split; [done|left; cbn; lia].
  - unfold do_reaped_child in E. destruct (jobs_remove (jobs s) p) as [[js ret]| |]; cbn [mbind outcome_mbind] in E; [|done..]. cbv zeta in E.
    set (s1 := if ret =? 0 then _ else _) in E. assert (H1 : nslots (kngq s1) = nslots (kngq s) /\ nrunning (kngq s1) <= nrunning (kngq s)) by (unfold s1; destruct (ret =? 0); cbn; lia).
    destruct (dispatch alloc_ok fuel s1 w) as [[s2 w2]| |] eqn:Ed; cbn [mbind outcome_mbind] in E; [|done..]. injection E as <- <- <-.
    destruct (dispatch_fits s1 w _ Ed) as [H2 H3]. cbn [fst] in *. split; [lia|left; lia].
  - unfold do_tick in E. destruct (jobs_check_times w (jobs s)) as [w1 js]. injection E as <- <- <-. split; [done|left; cbn; lia].
Qed.

(** A client that asks for the status of a job with a name of one or two
    characters, which is not running, ends the daemon: an assertion on the
    length of the name fails. *)
Theorem kng_short_id_aborts s w fd name len_ ty t :
  cstring name -> 0 < zlen name <= 2 -> jobs_find_by_id (jobs s) name = None -> Buf.len (respbuf (KNG_CLI s fd)) = 0 ->
  handle_status alloc_ok s w fd (Req (name ++ [0]) t len_ (Some 0, zlen name) (None, 0) ty) = OutOfBounds.
Proof.
  intros Hc Hl Hj Hb. unfold handle_status, append_job_statuses, str_map_field. cbn [id fst snd mem].
  assert (Hn : Forall (fun c => c <> 0) name) by (eapply Forall_impl; [exact Hc|]; cbn; intros; lia).
  assert (E : forall q w, append_job_status alloc_ok (jobs s) (name ++ [0]) (0 + 0) (zlen name - 0) (respbuf (KNG_CLI s fd), q, w) = OutOfBounds).
  { intros q w'. unfold append_job_status. rewrite Hb. cbn [Z.ltb Z.compare mbind outcome_mbind]. change (0 + 0) with (zlen (@nil Z)). rewrite (cstr_at_mid [] name [] Hn : cstr_at (name ++ [0]) (zlen (@nil Z)) = Ret name).
    cbn [mbind outcome_mbind]. rewrite Hj. unfold kngq_contains, link_paths, kngq_mklinkdirpath. by rewrite (proj2 (Z.ltb_ge 2 (zlen name))) by lia. }
  assert (H0 : forall c, c <> 0 -> in_set [0] c = false) by (intros c Hne; unfold in_set, CLib.mem; cbn; by rewrite (proj2 (Z.eqb_neq c 0))).
  destruct name as [|a [|b [|]]]; [by unfold zlen in Hl; cbn in Hl; lia| | |by unfold zlen in Hl; cbn in Hl; lia].
  - apply Forall_cons in Hn as [Ha _]. change (Z.to_nat (zlen [a])) with 1%nat. cbn [field_loop]. change (rd ([a] ++ [0]) (0 + 0)) with (Ret a). cbn [mbind outcome_mbind].
    rewrite (H0 a Ha). cbn [mbind outcome_mbind]. change (true && (0 <? zlen [a])) with true. cbv iota. by rewrite E.
  - apply Forall_cons in Hn as [Ha Hn]. apply Forall_cons in Hn as [Hb' _]. change (Z.to_nat (zlen [a; b])) with 2%nat. cbn [field_loop].
    change (rd ([a; b] ++ [0]) (0 + 0)) with (Ret a). change (rd ([a; b] ++ [0]) (0 + (0 + 1))) with (Ret b). cbn [mbind outcome_mbind].
    rewrite (H0 a Ha). cbn [mbind outcome_mbind]. rewrite (H0 b Hb'). cbn [mbind outcome_mbind]. change (true && (0 <? zlen [a; b])) with true. cbv iota. by rewrite E.
Qed.
End Slots.

(** ** A job that takes too long *)

(** what is read, the signals and whether they were sent to a child, the
    children, the next pid, what was executed, what [select] returns, the time
    and the children that end *)
Record office : Type := Office {
  reads : list bytes;
  log : list (Z * Z * bool);
  kids : gset Z;
  next_pid : Z;
  progs : list bytes;
  readies : list (gset Z);
  time : Z;
  ended : list Z;
}.

Definition later (w : office) (t : Z) : office := Office (reads w) (log w) (kids w) (next_pid w) (progs w) (readies w) (time w + t) (ended w).

#[export] Instance office_sys : Sys office := {|
  read w fd n := match reads w with bs :: l => (Office l (log w) (kids w) (next_pid w) (progs w) (readies w) (time w) (ended w), inl bs) | [] => (w, inr EAGAIN) end;
  write w fd bs := (w, inl (zlen bs));
  writev w fd bss := (w, inl (zlen (concat bss)));
  poll_in w fd := (w, true);
  poll_out w fd := (w, true);
  close w fd := (w, true);
  accept w fd := (w, inl 4);
  socket w := (w, Some 3);
  connect w fd p := (w, true);
  bind w fd p := (w, true);
  listen w fd := (w, true);
  unlink w p := w;
  chmod w p m := w;
  sendmsg w fd m f := (w, inl ());
  recvmsg w fd := (w, inl (0, Some 9));
  fcntl w fd c a := (w, 0);
|}.

#[export] Instance office_eds : EdsSys office := {|
  select w r wr := match readies w with q :: l => (Office (reads w) (log w) (kids w) (next_pid w) (progs w) l (time w) (ended w), inl (q ∩ r, ∅)) | [] => (w, inr 9) end;
  clock_gettime w := (later w 40, (time w, 0));
  waitpid w := match ended w with
    | p :: l => (Office (reads w) (log w) (kids w ∖ {[p]}) (next_pid w) (progs w) (readies w) (time w) l, inl (Z.max 1 p, 0))
    | [] => (w, inr 10)
    end;
|}.

#[export] Instance office_files : Files office := {|
  open w p fl md := (w, inr ENOENT);
  mkdir w p md := (w, None);
  now w := (w, Some (time w));
|}.

#[export] Instance office_kng : KngSys office := {|
  symlink w p q := (w, None);
  remove_file w p := (w, None);
  stat w p := (w, false);
  rmdir w p := w;
  fts_open w p f := (w, Some 7);
  fts_read w f := (w, None);
  fts_close w f := w;
  monotonic w := (later w 43200, Some (time w, 0));
  read_file w p := (w, None);
  fork w c := (Office (reads w) (log w) ({[next_pid w]} ∪ kids w) (next_pid w + 1) (progs w ++ [c_path c]) (readies w) (time w) (ended w), Some (next_pid w));
  kill w p sig := Office (reads w) (log w ++ [(p, sig, bool_decide (p ∈ kids w))]) (kids w) (next_pid w) (progs w) (readies w) (time w) (ended w);
  nanosleep w t := (w, None);
  wait w := (w, None);
  errno w := 0;
|}.

#[export] Instance office_libc : Libc unit := {| strerror e := lit "error"; regcomp s := None; regexec r s := false |}.

Definition office_opts : kng_opts := Opts (lit "/kneg") (lit "queue") 7 43200 (lit "stored.sock").

(** pids are new, signals went to children, and programs were in the directory *)
Record in_order (w : office) : Prop := InOrder {
  i_next : 0 < next_pid w;
  i_kids : forall p, p ∈ kids w -> 0 < p < next_pid w;
  i_log : Forall (fun x => x.2 = true) (log w);
  i_progs : Forall (fun p => runnable office_opts (Child p [] 0)) (progs w);
  i_ended : Forall (fun p => 0 < p) (ended w);
}.

Lemma in_order_same w w' : in_order w -> next_pid w' = next_pid w -> kids w' = kids w -> log w' = log w -> progs w' = progs w -> ended w' = ended w -> in_order w'.
Proof. intros [] E1 E2 E3 E4 E5. by split; rewrite ?E1, ?E2, ?E3, ?E4, ?E5. Qed.

Lemma office_ops : kng_ops in_order kids office_opts.
Proof.
  split.
  - intros C. split; intros; cbn; repeat case_match; try done; destruct_and?; (split; [by eapply in_order_same|done]).
  - intros w c Hc [H1 H2 H3 H4 H5]. cbn. split; [|split; [done|]; split; [intros Hin; apply H2 in Hin; lia|done]]. split; cbn; [lia| |done| |done].
    + intros p [->%elem_of_singleton|Hp]%elem_of_union; [lia|]. apply H2 in Hp. lia.
    + apply Forall_app. split; [done|]. apply Forall_singleton. destruct Hc as (t & Ht & E). by exists t.
  - intros w p sig Hp [H1 H2 H3 H4 H5]. split; [|done]. split; cbn; try done. apply Forall_app. split; [done|]. apply Forall_singleton. by rewrite bool_decide_true.
  - intros w [H1 H2 H3 H4 H5]. cbn. destruct (ended w) as [|p l] eqn:E; [by split; [split; rewrite ?E|]|]. apply Forall_cons in H5 as [Hp H5]. rewrite Z.max_r by lia.
    split; [split; cbn; try done; intros x Hx; apply H2; set_solver|]. by rewrite (proj2 (Z.ltb_lt _ _)).
  - done.
Qed.

Definition wire (fields : list yclgen_field) (r : list member) : bytes :=
  match ycl_msg_init all_ok with
  | Some msg => match ycl_msg_create all_ok fields msg r with Ret (msg, _) => contents (Ycl.buf msg) | _ => [] end
  | None => []
  end.

(** a client starts a job, the store answers; then there are two more ticks,
    and the job ends *)
Definition office_start : office :=
  Office [wire knegd_req_fields [Long 0; Data (lit "start"); Data []; Data []; Data (lit "nmap-scan")]; wire status_resp [Data (lit "0123456789abcdef01ab"); Data []]]
    [] ∅ 100 [] [{[3]}; {[4]}; ∅; ∅] 0 [100].

Definition idle : knegd := Knegd ∅ [] (Queue [] 0 0 0 None 0 (msgbuf zero_cli) 0) office_opts.

Definition office_run (sigs : list bool) : option (@Eds.state office knegd handler pointer) :=
  match eds_service_init knegd_service office_start with
  | (w1, Some svc) =>
      match kng_mod_init all_ok 20 idle w1 with
      | Ret (a, w, 0) => match turns svc (kng_body all_ok 20) load 60 (initial svc a (clock_gettime w).1) (0, 0) sigs with Ret (s, Again) => Some s | _ => None end
      | _ => None
      end
  | _ => None
  end.

Definition seen (s : @Eds.state office knegd handler pointer) : Z * list Z * list bytes * list (Z * Z * bool) :=
  (nrunning (kngq (app s)), map pid (jobs (app s)), progs (world s), log (world s)).

Example office_signals :
  seen <$> office_run [false; false; false] = Some (1, [100], [lit "/kneg/nmap-scan"], [(100, SIGTERM, true); (100, SIGKILL, true)]) /\
  seen <$> office_run [false; false; false; true] = Some (0, [], [lit "/kneg/nmap-scan"], [(100, SIGTERM, true); (100, SIGKILL, true)]).
Proof. vm_compute. done. Qed.

Lemma office_runs sigs s : office_run sigs = Some s -> runs all_ok 20 in_order office_opts idle office_start s.
Proof.
  unfold office_run. destruct (eds_service_init knegd_service office_start) as [w1 [svc|]] eqn:Ei; [|done].
  destruct (kng_mod_init all_ok 20 idle w1) as [[[a w] [| |]]| |] eqn:Em; try done.
  destruct (turns _ _ _ _ _ _ sigs) as [[s' [|st]]| |] eqn:Et; try done. intros [= ->].
  destruct (turns_reachable svc (kng_body all_ok 20) load a (clock_gettime w).1 60 sigs (initial svc a (clock_gettime w).1) (0, 0) s (reach_initial _ _ _ _ _ _) Et) as (last & Hr).
  assert (E1 : w1 = office_start) by (vm_compute in Ei; by injection Ei as <- <-). exists w1, svc, a, w, last. split; [done|]. split; [done|]. split; [done|].
  split; [|by split]. rewrite E1. clear. split; cbn; [done|set_solver|by constructor|by constructor|by constructor].
Qed.

Lemma kng_jobs_are_children_witness :
  match office_run [false; false; false] with
  | Some s => jobs (app s) <> [] /\ nrunning (kngq (app s)) = zlen (jobs (app s)) /\ NoDup (map pid (jobs (app s))) /\ Forall (fun j => 0 < pid j /\ pid j ∈ kids (world s)) (jobs (app s))
  | None => False
  end.
Proof.
  destruct (office_run [false; false; false]) as [s|] eqn:E; [|vm_compute in E; discriminate E]. split; [vm_compute in E; injection E as <-; discriminate|].
  apply (kng_jobs_are_children all_ok 20 in_order kids idle office_start s office_ops), (office_runs _ _ E).
Defined.

Lemma kng_signals_own_witness :
  match office_run [false; false; false] with
  | Some s => in_order (world s) /\ log (world s) = [(100, SIGTERM, true); (100, SIGKILL, true)]
  | None => False
  end.
Proof.
  destruct (office_run [false; false; false]) as [s|] eqn:E; [|vm_compute in E; discriminate E]. split; [|vm_compute in E; by injection E as <-].
  destruct (kng_signals_own all_ok 20 in_order kids idle office_start s office_ops (office_runs _ _ E)) as (svc & H & _). exact H.
Defined.

(** the client 4 of a daemon without slots, before its request is read *)
Definition full : knegd := match kng_body all_ok 20 kng_on_readable 4 idle office_start with Ret (s, _, _) => s | _ => idle end.

Lemma kng_slots_witness :
  match kng_body all_ok 20 on_readreq 4 full office_start with
  | Ret (s, w, cmds) => nslots (kngq s) = 0 /\ nrunning (kngq s) = 1 /\ asks_start all_ok 20 full office_start 4
  | _ => False
  end.
Proof.
  destruct (kng_body all_ok 20 on_readreq 4 full office_start) as [[[s w] cmds]| |] eqn:E; [|vm_compute in E; discriminate E..].
  destruct (kng_slots all_ok 20 on_readreq 4 full office_start s w cmds E) as [H [H1|(_ & H1 & _)]].
  - vm_compute in E, H1. injection E as <- _ _. by destruct H1.
  - split; [rewrite H; reflexivity|]. split; [vm_compute in E; by injection E as <- _ _|done].
Defined.

Lemma kng_short_id_aborts_witness : handle_status all_ok full office_start 4 (Req (lit "ab" ++ [0]) 0 (None, 0) (Some 0, 2) (None, 0) (None, 0)) = OutOfBounds.
Proof. apply (kng_short_id_aborts all_ok full office_start 4 (lit "ab") (None, 0) (None, 0) 0); [by repeat constructor|done|done|reflexivity]. Defined.
