(* ===== verification/Reorder.v ===== *)
(** * Reordered ranges (src/lib/util/reorder.c)

    Iteration over a range of 32-bit numbers in the order of a linear
    congruential generator.  The theorems show that the generator has full
    period, so that an iteration gives every number of the range once and
    then ends, for every range but the one of all 2^32 numbers, whose
    iteration never ends. *)

From S2P Require Import Prelude.

Definition REORDER32_OVERFLOWED : Z := Z.shiftl 1 0.

Record reorder32 : Type := Reorder {
  flags : Z;
  mask : Z;
  first : Z;
  last : Z;
  curr : Z;
  nitems : Z;
  ival : Z;
}.

(** the loop over [i < 32]; [1 << 31] is the [int] with the sign bit *)
Fixpoint mask_loop (todo : nat) (nitems mask : Z) : Z :=
  match todo with
  | O => mask
  | S todo =>
      if negb (Z.land nitems (u32 (i32 (Z.shiftl 1 (Z.of_nat todo)))) =? 0) then mask
      else mask_loop todo nitems (Z.shiftr mask 1)
  end.

Definition calc_r4block_mask (nitems : Z) : Z := mask_loop 32 nitems 0xffffffff.

Definition reorder32_init (first last : Z) : reorder32 :=
  let '(first, last) := if last <? first then (last, first) else (first, last) in
  let nitems := u32 (last - first) in
  Reorder 0 (calc_r4block_mask nitems) first last first nitems 0.

(** the loop that rejects the values outside the range; a turn per value of
    the generator's period is enough *)
Fixpoint lcg_loop (fuel : nat) (mask nitems curr : Z) : outcome Z :=
  match fuel with
  | O => OutOfFuel
  | S fuel =>
      let curr := Z.land (u32 (u32 (curr * 5) + 1)) mask in
      if nitems <? curr then lcg_loop fuel mask nitems curr else Ret curr
  end.

(** the code returned and the number stored in [out] *)
Definition reorder32_next (fuel : nat) (blk : reorder32) : outcome (reorder32 * (Z * option Z)) :=
  if (nitems blk <? ival blk) || negb (Z.land (flags blk) REORDER32_OVERFLOWED =? 0)
  then Ret (reorder32_init (first blk) (last blk), (0, None))
  else
    curr ← lcg_loop fuel (mask blk) (nitems blk) (curr blk);
    let out := u32 (first blk + curr) in
    let ival' := u32 (ival blk + 1) in
    let flags := if ival' <? ival blk then Z.land (flags blk) REORDER32_OVERFLOWED else flags blk in
    Ret (Reorder flags (mask blk) (first blk) (last blk) curr (nitems blk) ival', (1, Some out)).

(** [n] calls in a row *)
Fixpoint nexts (fuel n : nat) (blk : reorder32) : outcome (reorder32 * list (Z * option Z)) :=
  match n with
  | O => Ret (blk, [])
  | S n =>
      '(blk, r) ← reorder32_next fuel blk;
      '(blk, rs) ← nexts fuel n blk;
      Ret (blk, r :: rs)
  end.

(** ** The generator modulo a power of two has full period *)

Definition lcg (x : Z) : Z := x * 5 + 1.

(** [2^j] steps of the generator, as a linear function *)
Lemma lcg_pow j : 0 <= j -> exists a c, (forall x, Nat.iter (Z.to_nat (2 ^ j)) lcg x = a * x + c) /\
  (exists p, a = 1 + 2 ^ (j + 2) * p) /\ exists q, c = 2 ^ j * (1 + 2 * q).
Proof.
  revert j. apply (natlike_ind (fun j => exists a c,
    (forall x, Nat.iter (Z.to_nat (2 ^ j)) lcg x = a * x + c) /\
    (exists p, a = 1 + 2 ^ (j + 2) * p) /\ exists q, c = 2 ^ j * (1 + 2 * q))).
  - exists 5, 1. split_and!; [intros x; simpl; unfold lcg; lia|by exists 1|by exists 0].
  - intros j Hj (a & c & Hf & (p & Ha) & (q & Hc)).
    pose proof (Z.pow_pos_nonneg 2 j ltac:(lia) Hj) as Hpos.
    exists (a * a), (a * c + c). split_and!.
    + intros x. rewrite Z.pow_succ_r by lia.
      replace (Z.to_nat (2 * 2 ^ j)) with (Z.to_nat (2 ^ j) + Z.to_nat (2 ^ j))%nat by lia.
      rewrite Nat.iter_add, !Hf. lia.
    + exists (p + 2 ^ (j + 1) * p * p). rewrite Ha. replace (Z.succ j + 2) with (j + 3) by lia.
      rewrite !Z.pow_add_r by lia. change (2 ^ 1) with 2. change (2 ^ 2) with 4. change (2 ^ 3) with 8. lia.
    + exists (q + (1 + 2 * q) * (2 ^ j * p)). rewrite Hc, Ha, Z.pow_succ_r, Z.pow_add_r by lia.
      change (2 ^ 2) with 4. lia.
Qed.

Lemma lcg_pow_mod j x : 0 <= j -> (2 ^ (j + 1) | Nat.iter (Z.to_nat (2 ^ j)) lcg x - (x + 2 ^ j)).
Proof.
  intros Hj. destruct (lcg_pow j Hj) as (a & c & -> & (p & ->) & (q & ->)).
  exists (2 * p * x + q). rewrite !Z.pow_add_r by lia. change (2 ^ 2) with 4. lia.
Qed.

Lemma lcg_pow_mul j q x : 0 <= j ->
  (2 ^ (j + 1) | Nat.iter (q * Z.to_nat (2 ^ j)) lcg x - (x + Z.of_nat q * 2 ^ j)).
Proof.
  intros Hj. induction q as [|q [r IH]]; [exists 0; simpl; lia|].
  change (S q * _)%nat with (Z.to_nat (2 ^ j) + q * Z.to_nat (2 ^ j))%nat.
  rewrite Nat.iter_add. destruct (lcg_pow_mod j (Nat.iter (q * Z.to_nat (2 ^ j)) lcg x) Hj) as [s Hs].
  exists (r + s). lia.
Qed.

(** the generator comes back to where it was after a multiple of the period only *)
Lemma lcg_period k : 0 <= k -> forall (d : nat) x, (2 ^ k | Nat.iter d lcg x - x) -> (2 ^ k | Z.of_nat d).
Proof.
  revert k. apply (natlike_ind (fun k => forall (d : nat) x, (2 ^ k | Nat.iter d lcg x - x) -> (2 ^ k | Z.of_nat d))).
  { intros d x _. apply Z.divide_1_l. }
  intros k Hk IH d x H. pose proof (Z.pow_pos_nonneg 2 k ltac:(lia) Hk).
  assert (2 ^ k | Z.of_nat d) as [q Hq].
  { apply (IH d x). etrans; [|exact H]. exists 2. rewrite Z.pow_succ_r; lia. }
  assert (0 <= q) by nia. assert (d = Z.to_nat q * Z.to_nat (2 ^ k))%nat as Ed by nia.
  pose proof (lcg_pow_mul k (Z.to_nat q) x Hk) as [r Hr]. rewrite <- Ed, Z2Nat.id in Hr by lia.
  destruct H as [s Hs]. rewrite <- Z.add_1_r, Z.pow_add_r in Hs by lia. rewrite Z.pow_add_r in Hr by lia.
  change (2 ^ 1) with 2 in *. exists (s - r). rewrite Hq, Z.pow_succ_r by lia.
  assert (q = 2 * (s - r)) by nia. lia.
Qed.

(** ** Orbits *)

(** the [n] values of the generator after [x], modulo [m] *)
Fixpoint orbit (m x : Z) (n : nat) : list Z :=
  match n with
  | O => []
  | S n => let y := lcg x mod m in y :: orbit m y n
  end.

Lemma orbit_mod m x n : 0 < m -> orbit m (x mod m) n = orbit m x n.
Proof.
  intros Hm. destruct n; [done|]. simpl. unfold lcg. by rewrite Z.add_mod, Z.mul_mod_idemp_l, <- Z.add_mod by lia.
Qed.

Lemma orbit_length m x n : length (orbit m x n) = n.
Proof. revert x. induction n as [|n IH]; intros x; simpl; [done|]. by rewrite IH. Qed.

Lemma iter_lcg_mod m d : 0 < m -> forall x, Nat.iter d lcg (x mod m) mod m = Nat.iter d lcg x mod m.
Proof.
  intros Hm. induction d as [|d IH]; intros x; simpl; [by apply Z.mod_mod; lia|].
  unfold lcg. rewrite Z.add_mod, Z.mul_mod, IH by lia.
  rewrite <- Z.mul_mod, <- Z.add_mod by lia. done.
Qed.

Lemma orbit_lookup m x n i y : 0 < m -> orbit m x n !! i = Some y ->
  y = Nat.iter (S i) lcg x mod m /\ (i < n)%nat.
Proof.
  intros Hm. revert x i. induction n as [|n IH]; intros x [|i]; simpl; try done.
  - intros [= <-]. split; [done|lia].
  - intros [-> Hi]%IH. split; [|lia]. rewrite iter_lcg_mod by done.
    by rewrite <- Nat.iter_succ_r.
Qed.

Lemma orbit_NoDup k x : 0 <= k -> NoDup (orbit (2 ^ k) x (Z.to_nat (2 ^ k))).
Proof.
  intros Hk. pose proof (Z.pow_pos_nonneg 2 k ltac:(lia) Hk) as Hm. apply NoDup_alt. intros i j y Hi Hj.
  cut (forall i j : nat, (i <= j)%nat -> orbit (2 ^ k) x (Z.to_nat (2 ^ k)) !! i = Some y ->
    orbit (2 ^ k) x (Z.to_nat (2 ^ k)) !! j = Some y -> i = j).
  { intros H. destruct (le_lt_dec i j); [by apply H|symmetry; apply H; [lia|done|done]]. }
  clear i j Hi Hj. intros i j Hij [Ei Hi]%orbit_lookup [Ej Hj]%orbit_lookup; [|done..].
  destruct (Nat.le_exists_sub i j Hij) as (d & -> & _).
  replace (S (d + i)) with (d + S i)%nat in Ej by lia. rewrite Nat.iter_add, Ei in Ej.
  assert (2 ^ k | Z.of_nat d) as [q Hq].
  { apply (lcg_period k Hk d (Nat.iter (S i) lcg x)). apply Z.mod_divide; [lia|].
    rewrite Zminus_mod, <- Ej, Z.sub_diag. done. }
  assert (Z.of_nat d < 2 ^ k) by lia. assert (q < 1) by nia. assert (-1 < q) by nia.
  assert (q = 0) as -> by lia. lia.
Qed.

Lemma orbit_perm k x : 0 <= k -> orbit (2 ^ k) x (Z.to_nat (2 ^ k)) ≡ₚ seqZ 0 (2 ^ k).
Proof.
  intros Hk. pose proof (Z.pow_pos_nonneg 2 k ltac:(lia) Hk) as Hm.
  apply submseteq_length_Permutation.
  - apply NoDup_submseteq; [by apply orbit_NoDup|]. intros y [i Hi]%list_elem_of_lookup.
    apply orbit_lookup in Hi as [-> _]; [|done]. apply elem_of_seqZ.
    pose proof (Z.mod_pos_bound (Nat.iter (S i) lcg x) (2 ^ k)). lia.
  - by rewrite orbit_length, length_seqZ.
Qed.

(** ** The mask *)

Lemma top_bit x j : 0 <= j -> 0 <= x < 2 ^ (j + 1) -> Z.land x (2 ^ j) = 0 <-> x < 2 ^ j.
Proof.
  intros Hj Hx. pose proof (Z.pow_pos_nonneg 2 j ltac:(lia) Hj). rewrite Z.pow_add_r in Hx by lia.
  change (2 ^ 1) with 2 in Hx. assert (E : Z.testbit x j = negb (x <? 2 ^ j)).
  { apply eq_true_iff_eq. rewrite Z.testbit_true, negb_true_iff, Z.ltb_ge by lia.
    split; intros Hd.
    - destruct (Z_lt_le_dec x (2 ^ j)); [|done]. rewrite Z.div_small in Hd by lia. done.
    - replace x with (x - 2 ^ j + 1 * 2 ^ j) by lia. rewrite Z.div_add, Z.div_small by lia. done. }
  split; intros Hb.
  - assert (Hbit : Z.testbit (Z.land x (2 ^ j)) j = false) by (rewrite Hb; apply Z.bits_0).
    rewrite Z.land_spec, Z.pow2_bits_true, andb_true_r, E in Hbit by lia. apply negb_false_iff in Hbit. lia.
  - apply Z.bits_inj'. intros i Hi. rewrite Z.land_spec, Z.bits_0, Z.pow2_bits_eqb by lia.
    destruct (Z.eqb_spec j i) as [<-|]; [|apply andb_false_r]. rewrite E, andb_true_r.
    apply negb_false_iff, Z.ltb_lt. done.
Qed.

Lemma bit_i32 j : 0 <= j < 32 -> u32 (i32 (Z.shiftl 1 j)) = 2 ^ j.
Proof.
  intros Hj. assert (E : forallb (fun j => u32 (i32 (Z.shiftl 1 j)) =? 2 ^ j) (seqZ 0 32) = true) by reflexivity.
  rewrite forallb_forall in E. apply Z.eqb_eq, E, list_elem_of_In, elem_of_seqZ. lia.
Qed.

Lemma mask_loop_spec todo : (todo <= 32)%nat -> forall nitems, 0 <= nitems < 2 ^ Z.of_nat todo ->
  exists k, 0 <= k <= Z.of_nat todo /\ mask_loop todo nitems (2 ^ Z.of_nat todo - 1) = 2 ^ k - 1 /\
    nitems < 2 ^ k /\ (0 < k -> 2 ^ (k - 1) <= nitems).
Proof.
  induction todo as [|todo IH]; intros Hle nitems Hn.
  - exists 0. simpl in *. split_and!; lia.
  - cbn [mask_loop]. rewrite bit_i32 by lia. rewrite Nat2Z.inj_succ, <- Z.add_1_r in *.
    pose proof (top_bit nitems (Z.of_nat todo) ltac:(lia) Hn) as Ht.
    destruct (Z.eqb_spec (Z.land nitems (2 ^ Z.of_nat todo)) 0) as [E|E]; cbn [negb].
    + replace (Z.shiftr (2 ^ (Z.of_nat todo + 1) - 1) 1) with (2 ^ Z.of_nat todo - 1).
      2: { rewrite shiftr_div, Z.pow_add_r by lia. change (2 ^ 1) with 2. divmod_lia. }
      destruct (IH ltac:(lia) nitems) as (k & Hk & ?); [lia|]. exists k. split; [lia|done].
    + exists (Z.of_nat todo + 1). split_and!; [lia|lia|done|lia|]. intros _.
      replace (Z.of_nat todo + 1 - 1) with (Z.of_nat todo) by lia. lia.
Qed.

Lemma calc_mask_spec nitems : 0 <= nitems < 2 ^ 32 ->
  exists k, 0 <= k <= 32 /\ calc_r4block_mask nitems = 2 ^ k - 1 /\ nitems < 2 ^ k /\
    (0 < k -> 2 ^ (k - 1) <= nitems).
Proof. intros Hn. apply (mask_loop_spec 32); [lia|done]. Qed.

(** ** The iteration *)

(** what is left of the iteration: the numbers of the range on the rest of
    the orbit *)
Definition rest (k nitems curr : Z) (n : nat) : list Z :=
  List.filter (fun y => y <=? nitems) (orbit (2 ^ k) curr n).

Lemma lcg_step k c : 0 <= k <= 32 -> Z.land (u32 (u32 (c * 5) + 1)) (2 ^ k - 1) = lcg c mod 2 ^ k.
Proof.
  intros Hk. rewrite land_mask, uw_mod_add by lia. unfold uw, lcg. apply Z.mod_mod_divide.
  exists (2 ^ (32 - k)). rewrite <- Z.pow_add_r by lia. f_equal. lia.
Qed.

Lemma lcg_loop_spec k nitems : 0 <= k <= 32 -> forall n fuel curr y ys, (n <= fuel)%nat ->
  rest k nitems curr n = y :: ys ->
  exists n', (n' < n)%nat /\ lcg_loop fuel (2 ^ k - 1) nitems curr = Ret y /\ rest k nitems y n' = ys /\ 0 <= y <= nitems.
Proof.
  intros Hk. induction n as [|n IH]; intros [|fuel] curr y ys Hle Hr; try (done || lia).
  unfold rest in Hr. cbn [orbit List.filter] in Hr. cbn [lcg_loop]. rewrite lcg_step by done.
  destruct (Z.leb_spec (lcg curr mod 2 ^ k) nitems) as [Hc|Hc].
  - rewrite (proj2 (Z.ltb_ge _ _)) by done. simplify_eq. exists n. split_and!; try done; try lia.
    pose proof (Z.pow_pos_nonneg 2 k). pose proof (Z.mod_pos_bound (lcg curr) (2 ^ k)). lia.
  - rewrite (proj2 (Z.ltb_lt _ _)) by done. destruct (IH fuel _ y ys ltac:(lia) Hr) as (n' & ? & ?).
    exists n'. split; [lia|done].
Qed.

(** the state of an iteration over [first .. first + nitems] with [ys] left *)
Definition iterating (k fst nit : Z) (ys : list Z) (blk : reorder32) : Prop :=
  flags blk = 0 /\ mask blk = 2 ^ k - 1 /\ first blk = fst /\ last blk = fst + nit /\
  nitems blk = nit /\ ival blk = nit + 1 - zlen ys /\ zlen ys <= nit + 1 /\
  exists n, (n <= Z.to_nat (2 ^ k))%nat /\ rest k nit (curr blk) n = ys.

Lemma next_one k fst nit y ys blk fuel : 0 <= k <= 32 -> 0 <= fst -> 0 <= nit -> fst + nit < 2 ^ 32 -> nit < UINT32_MAX ->
  (Z.to_nat (2 ^ k) <= fuel)%nat -> iterating k fst nit (y :: ys) blk ->
  exists blk', reorder32_next fuel blk = Ret (blk', (1, Some (fst + y))) /\ iterating k fst nit ys blk' /\
    0 <= y <= nit.
Proof.
  unfold UINT32_MAX. intros Hk Hf Hn Hsum Hmax Hfu (E1 & E2 & E3 & E4 & E5 & E6 & Hl & n & Hle & Hr).
  destruct (lcg_loop_spec k nit Hk n fuel (curr blk) y ys ltac:(lia) Hr) as (n' & Hn' & Hloop & Hr' & Hy).
  pose proof (zlen_nonneg ys). rewrite zlen_cons in *.
  unfold reorder32_next. rewrite E1, E2, E3, E5. rewrite (proj2 (Z.ltb_ge nit (ival blk))) by lia.
  change (Z.land 0 REORDER32_OVERFLOWED =? 0) with true. cbn [negb orb]. rewrite Hloop.
  cbn [mbind outcome_mbind]. rewrite !uw_small by lia.
  rewrite (proj2 (Z.ltb_ge (ival blk + 1) _)) by lia.
  eexists. split; [done|]. split; [|done]. unfold iterating. simpl. split_and!; try done; try lia.
  exists n'. split; [lia|done].
Qed.

Lemma next_end k fst nit blk fuel : 0 <= fst -> 0 <= nit -> fst + nit < 2 ^ 32 -> iterating k fst nit [] blk ->
  reorder32_next fuel blk = Ret (reorder32_init fst (fst + nit), (0, None)).
Proof.
  intros Hf Hn Hs (E1 & E2 & E3 & E4 & E5 & E6 & _). unfold reorder32_next.
  rewrite E1, E3, E4, E5, E6. rewrite (proj2 (Z.ltb_lt _ _)) by (zlen_simpl; lia). done.
Qed.

Lemma nexts_all k fst nit fuel : 0 <= k <= 32 -> 0 <= fst -> 0 <= nit -> fst + nit < 2 ^ 32 -> nit < UINT32_MAX ->
  (Z.to_nat (2 ^ k) <= fuel)%nat -> forall ys blk, iterating k fst nit ys blk ->
  nexts fuel (S (length ys)) blk =
    Ret (reorder32_init fst (fst + nit), ((fun y => (1, Some (fst + y))) <$> ys) ++ [(0, None)]).
Proof.
  intros Hk Hf Hn Hs Hmax Hfu. induction ys as [|y ys IH]; intros blk Hi.
  - cbn [nexts length]. by rewrite (next_end k fst nit).
  - cbn [length]. cbn [nexts]. destruct (next_one k fst nit y ys blk fuel) as (blk' & -> & Hi' & _); try done.
    cbn [mbind outcome_mbind]. specialize (IH blk' Hi'). cbn [nexts] in IH. rewrite IH. done.
Qed.

Lemma filter_le_perm n l m : n < m -> l ≡ₚ seqZ 0 m -> List.filter (fun y => y <=? n) l ≡ₚ seqZ 0 (n + 1).
Proof.
  intros Hlt Hp. apply NoDup_Permutation.
  - assert (NoDup l) as Hnd by (rewrite Hp; apply NoDup_seqZ).
    clear -Hnd. induction Hnd as [|x l Hx Hnd IH]; simpl; [constructor|]. case_match; [|done].
    constructor; [|done]. rewrite list_elem_of_In, filter_In, <- list_elem_of_In. tauto.
  - apply NoDup_seqZ.
  - intros x. rewrite list_elem_of_In, filter_In, <- list_elem_of_In, Hp, !elem_of_seqZ, Z.leb_le. lia.
Qed.

Lemma init_iterating fst lst : 0 <= fst <= lst -> lst < 2 ^ 32 ->
  exists k ys, 0 <= k <= 32 /\ lst - fst < 2 ^ k /\ (0 < k -> 2 ^ (k - 1) <= lst - fst) /\
    iterating k fst (lst - fst) ys (reorder32_init fst lst) /\ ys ≡ₚ seqZ 0 (lst - fst + 1).
Proof.
  intros Hf Hl. unfold reorder32_init. rewrite (proj2 (Z.ltb_ge _ _)) by lia.
  rewrite uw_small by lia. set (nit := lst - fst).
  destruct (calc_mask_spec nit) as (k & Hk & Em & Hlt & Hlow); [lia|].
  pose proof (filter_le_perm nit _ (2 ^ k) Hlt (orbit_perm k fst ltac:(lia))) as Hp.
  exists k, (rest k nit fst (Z.to_nat (2 ^ k))). split_and!; try done; try lia.
  assert (zlen (rest k nit fst (Z.to_nat (2 ^ k))) = nit + 1) as Elen.
  { unfold zlen, rest. rewrite Hp, length_seqZ. lia. }
  unfold iterating. simpl. rewrite Em, Elen. split_and!; try done; try lia. eauto.
Qed.

(** C27: for a range of less than 2^32 numbers, the calls of [reorder32_next]
    after [reorder32_init] give every number from [first] to [last] exactly
    once, then report the end and leave the iterator as initialized; each call
    needs at most twice as many turns of its loop as the range has numbers. *)
Theorem reorder32_enumerates fst lst fuel :
  0 <= fst <= lst -> lst < 2 ^ 32 -> lst - fst < UINT32_MAX -> (Z.to_nat (2 * (lst - fst) + 1) <= fuel)%nat ->
  exists l, l ≡ₚ seqZ fst (lst - fst + 1) /\
    nexts fuel (S (length l)) (reorder32_init fst lst) =
      Ret (reorder32_init fst lst, ((fun x => (1, Some x)) <$> l) ++ [(0, None)]).
Proof.
  intros Hf Hl Hm Hfu. destruct (init_iterating fst lst Hf Hl) as (k & ys & Hk & Hlt & Hlow & Hi & Hp).
  exists ((fun y => fst + y) <$> ys). split.
  { rewrite Hp. rewrite fmap_add_seqZ. by rewrite Z.add_0_r. }
  assert (Hpow : 2 ^ k <= 2 * (lst - fst) + 1).
  { destruct (Z.eq_dec k 0) as [->|]; [lia|]. specialize (Hlow ltac:(lia)).
    replace k with (k - 1 + 1) by lia. rewrite Z.pow_add_r by lia. lia. }
  rewrite length_fmap, (nexts_all k fst (lst - fst) fuel); [|done|lia|lia|lia|done|lia|done].
  rewrite <- list_fmap_compose. by replace (fst + (lst - fst)) with lst by lia.
Qed.

Lemma reorder32_enumerates_witness : (0 <= 10 <= 16 /\ 16 < 2 ^ 32) /\
  exists l, l ≡ₚ seqZ 10 7 /\
    nexts 13 (S (length l)) (reorder32_init 10 16) =
      Ret (reorder32_init 10 16, ((fun x => (1, Some x)) <$> l) ++ [(0, None)]).
Proof. split; [lia|]. apply (reorder32_enumerates 10 16 13); unfold UINT32_MAX; lia. Defined.

(** Over all 2^32 numbers the iteration never reports its end: each call
    after [reorder32_init] returns 1, however many calls were made, because
    the flag that records the overflow of the counter is masked instead of
    set. *)
Theorem reorder32_full_range_endless fuel n : (0 < fuel)%nat ->
  exists blk rs, nexts fuel n (reorder32_init 0 UINT32_MAX) = Ret (blk, rs) /\ length rs = n /\
    Forall (fun r => r.1 = 1) rs.
Proof.
  intros Hfu. assert (E : reorder32_init 0 UINT32_MAX = Reorder 0 UINT32_MAX 0 UINT32_MAX 0 UINT32_MAX 0) by reflexivity.
  rewrite E. cut (forall c i, 0 <= i <= UINT32_MAX -> exists blk rs,
    nexts fuel n (Reorder 0 UINT32_MAX 0 UINT32_MAX c UINT32_MAX i) = Ret (blk, rs) /\ length rs = n /\
    Forall (fun r => r.1 = 1) rs).
  { intros H. apply H. unfold UINT32_MAX. lia. }
  clear E. induction n as [|n IH]; intros c i Hi.
  { eexists _, []. split_and!; [done|done|constructor]. }
  destruct fuel as [|fuel]; [lia|]. cbn [nexts]. unfold reorder32_next at 1. simpl flags. simpl nitems. simpl ival.
  rewrite (proj2 (Z.ltb_ge _ _)) by lia. change (Z.land 0 REORDER32_OVERFLOWED =? 0) with true.
  cbn [negb orb lcg_loop curr mask]. change (Z.land ?x UINT32_MAX) with (Z.land x (2 ^ 32 - 1)).
  rewrite land_mask by lia.
  pose proof (Z.mod_pos_bound (u32 (u32 (c * 5) + 1)) (2 ^ 32) ltac:(lia)).
  rewrite (proj2 (Z.ltb_ge UINT32_MAX _)) by (unfold UINT32_MAX; lia). cbn [mbind outcome_mbind first last].
  change (Z.land 0 REORDER32_OVERFLOWED) with 0.
  replace (if u32 (i + 1) <? i then 0 else 0) with 0 by (by case_match).
  destruct (IH (u32 (u32 (c * 5) + 1) mod 2 ^ 32) (u32 (i + 1))) as (blk & rs & -> & Hl & Hf).
  { unfold UINT32_MAX. pose proof (uw_range 32 (i + 1) ltac:(lia)). lia. }
  cbn [mbind outcome_mbind]. eexists _, _. split; [done|]. split; [simpl; by rewrite Hl|]. by constructor.
Qed.

Lemma reorder32_full_range_endless_witness : (0 < 1)%nat /\
  exists blk rs, nexts 1 5 (reorder32_init 0 UINT32_MAX) = Ret (blk, rs) /\ length rs = 5%nat /\
    Forall (fun r => r.1 = 1) rs.
Proof. split; [lia|]. apply (reorder32_full_range_endless 1 5). lia. Defined.
