(* ===== verification/RoundRobin.v ===== *)
(** * Taking turns (src/lib/net/ports.c, src/lib/net/ip.c)

    Reordered iteration over several ranges: a map, itself a reordering of the
    ranges' indices, is cycled through, and the range an element of the map
    leads to gives its next item; the element of a range that has none left
    is overwritten with -1.  This file holds the code that [port_r4ranges_next]
    and [ip_r4blocks_next] share, and its theory for any kind of range. *)

From S2P Require Import Prelude Reorder.

(** [for (i = 0; i < n; i++) { reorder32_next(&mapgen, &mapval); map[i] = (int)mapval; }] *)
Fixpoint map_loop (fuel n : nat) (mapgen : reorder32) : outcome (list Z) :=
  match n with
  | O => Ret []
  | S n =>
      '(mapgen, (_, mapval)) ← reorder32_next fuel mapgen;
      rest ← map_loop fuel n mapgen;
      Ret (i32 (default 0 mapval) :: rest)
  end.

(** [do curr = (curr + 1) % n; while (curr != mapindex && map[curr] < 0)] *)
Fixpoint scan_map (fuel : nat) (n : Z) (map : list Z) (mapindex curr : Z) : outcome Z :=
  match fuel with
  | O => OutOfFuel
  | S fuel =>
      let curr := (curr + 1) mod n in
      m ← rd map curr;
      if negb (curr =? mapindex) && (m <? 0) then scan_map fuel n map mapindex curr else Ret curr
  end.

(** the range map is a permutation of the indices *)
Lemma map_loop_ys k fst nit fuel : 0 <= k <= 32 -> 0 <= fst -> 0 <= nit -> fst + nit <= INT_MAX ->
  (Z.to_nat (2 ^ k) <= fuel)%nat -> forall ys blk, iterating k fst nit ys blk ->
  map_loop fuel (length ys) blk = Ret ((fun y => fst + y) <$> ys).
Proof.
  unfold INT_MAX. intros Hk Hf Hn Hs Hfu. induction ys as [|y ys IH]; intros blk Hi; [done|]. cbn [map_loop length].
  destruct (next_one k fst nit y ys blk fuel) as (blk' & -> & Hi' & Hy); try done; try (unfold UINT32_MAX; lia).
  cbn [mbind outcome_mbind]. rewrite IH by done. cbn [mbind outcome_mbind default].
  rewrite sw_small by (simpl; lia). done.
Qed.

Lemma scan_map_spec map n idx : zlen map = n -> 0 <= idx < n -> forall fuel i, (Z.of_nat fuel = n - i) -> 0 <= i < n ->
  (forall j, 1 <= j <= i -> exists m, rd map ((idx + j) mod n) = Ret m /\ m < 0) ->
  exists curr m, scan_map fuel n map idx ((idx + i) mod n) = Ret curr /\ 0 <= curr < n /\ rd map curr = Ret m /\
    (m < 0 -> curr = idx /\ Forall (fun m => m < 0) map).
Proof.
  intros Hn Hidx. induction fuel as [|fuel IH]; intros i Hf Hi Hdead; [lia|]. cbn [scan_map].
  rewrite Z.add_mod_idemp_l by lia. rewrite <- Z.add_assoc.
  pose proof (Z.mod_pos_bound (idx + (i + 1)) n ltac:(lia)) as Hb.
  destruct (rd_in map ((idx + (i + 1)) mod n)) as (m & Em & _); [lia|]. rewrite Em. cbn [mbind outcome_mbind].
  assert (Hdead' : m < 0 -> forall j, 1 <= j <= i + 1 -> exists m, rd map ((idx + j) mod n) = Ret m /\ m < 0).
  { intros Hm j Hj. destruct (Z.eq_dec j (i + 1)) as [->|]; [eauto|]. apply Hdead. lia. }
  destruct (Z.eqb_spec ((idx + (i + 1)) mod n) idx) as [Hc|Hc]; cbn [negb andb].
  - do 2 eexists. split_and!; [done|lia|lia|exact Em|]. intros Hm. split; [done|].
    assert (Hlast : i + 1 = n).
    { destruct (Z_lt_le_dec (idx + (i + 1)) n); [rewrite Z.mod_small in Hc by lia; lia|].
      rewrite <- (Z.mod_add _ (-1)), Z.mod_small in Hc by lia. lia. }
    apply Forall_lookup. intros p x Hx. assert (Hp := lookup_lt_Some _ _ _ Hx).
    assert (Hj : exists j, 1 <= j <= i + 1 /\ (idx + j) mod n = Z.of_nat p).
    { unfold zlen in Hn. destruct (Z_lt_le_dec idx (Z.of_nat p)).
      - exists (Z.of_nat p - idx). split; [lia|]. rewrite Z.mod_small; lia.
      - exists (Z.of_nat p - idx + n). split; [lia|]. rewrite <- (Z.mod_add _ (-1)), Z.mod_small; lia. }
    destruct Hj as (j & Hj & Ej). destruct (Hdead' Hm j Hj) as (m' & Hm' & Hlt). rewrite Ej in Hm'.
    apply rd_ret in Hm' as [_ Hm']. rewrite Nat2Z.id in Hm'. congruence.
  - destruct (Z.ltb_spec m 0) as [Hm|Hm].
    + assert (i + 1 < n).
      { destruct (Z_lt_le_dec (i + 1) n); [done|]. destruct Hc. replace (i + 1) with (1 * n) by lia.
        rewrite Z.mod_add, Z.mod_small by lia. done. }
      apply IH; [lia|lia|]. by apply Hdead'.
    + do 2 eexists. split_and!; [done|lia|lia|exact Em|lia].
Qed.

Definition live (map : list Z) : nat := length (filter (fun m => 0 <= m) map).

Lemma live_le map : (live map <= length map)%nat.
Proof. apply length_filter. Qed.

Lemma live_kill map i m : map !! i = Some m -> 0 <= m -> live map = S (live (<[i := -1]> map)).
Proof.
  intros Hi Hm. unfold live. rewrite <- (take_drop_middle map i m Hi) at 1.
  rewrite insert_take_drop by (by eapply lookup_lt_Some).
  rewrite !filter_app, !length_app, filter_cons_True, filter_cons_False by lia. simpl. lia.
Qed.

Lemma concat_insert_perm {A} (rems : list (list A)) i x l : rems !! i = Some (x :: l) ->
  concat rems ≡ₚ x :: concat (<[i := l]> rems).
Proof.
  intros Hi. rewrite <- (take_drop_middle rems i _ Hi) at 1. rewrite insert_take_drop by (by eapply lookup_lt_Some).
  rewrite !concat_app. cbn [concat app]. by rewrite <- Permutation_middle.
Qed.

Lemma Forall_exists_list {A B} (P : A -> B -> Prop) l : Forall (fun x => exists y, P x y) l -> exists k, Forall2 P l k.
Proof.
  induction 1 as [|x l [y Hy] _ [k Hk]]; [by exists []|]. exists (y :: k). by constructor.
Qed.

Lemma bind_pointwise {A B} (f g : A -> list B) l : (forall x, x ∈ l -> f x = g x) -> l ≫= f = l ≫= g.
Proof.
  induction l as [|x l IH]; intros H; [done|]. rewrite !bind_cons, (H x) by left. rewrite IH; [done|].
  intros y Hy. apply H. by right.
Qed.

(** a list by its indices *)
Lemma bind_indexed {A B} (f : A -> list B) l :
  l ≫= f = seqZ 0 (zlen l) ≫= fun m => match l !! Z.to_nat m with Some x => f x | None => [] end.
Proof.
  induction l as [|x l IH] using rev_ind; [done|]. rewrite bind_app, IH. zlen_simpl.
  change (1 + 0) with 1. rewrite (seqZ_app 0 (zlen l) 1) by (pose proof (zlen_nonneg l); lia). rewrite bind_app. f_equal.
  - apply bind_pointwise. intros m Hm%elem_of_seqZ. unfold zlen in Hm. by rewrite lookup_app_l by lia.
  - rewrite seqZ_cons, seqZ_nil by lia. cbn. unfold zlen. rewrite Z.add_0_l, Nat2Z.id. by rewrite list_lookup_middle.
Qed.

(** ** The items that are left *)

Section Turns.
Context {S A : Type} (holds : S -> Z -> list A -> Prop).

(** the items [l] are left of the range that an element [m] of the map leads to *)
Definition slot (s : S) (m : Z) (l : list A) : Prop := m < 0 /\ l = [] \/ 0 <= m /\ holds s m l.

Record turns (s : S) (map : list Z) (n idx : Z) (rems : list (list A)) : Prop := Turns {
  trn_len : zlen map = n;
  trn_index : 0 <= idx < n;
  trn_slots : Forall2 (slot s) map rems;
  trn_inj : forall i j m, map !! i = Some m -> map !! j = Some m -> 0 <= m -> i = j;
}.

(** a turn of the range of the live element [i]; the others are as they were *)
Lemma turns_update s s' map n idx rems i m m' l : turns s map n idx rems -> map !! i = Some m -> 0 <= m ->
  m' = m \/ m' < 0 -> slot s' m' l -> (forall k r, k <> m -> 0 <= k -> holds s k r -> holds s' k r) ->
  turns s' (<[i := m']> map) n (Z.of_nat i) (<[i := l]> rems).
Proof.
  intros [Hl Hidx Hs Hinj] Hi Hm Hm' Hsl Hframe. assert (Hil := lookup_lt_Some _ _ _ Hi). split.
  - by rewrite zlen_insert.
  - unfold zlen in Hl. lia.
  - apply Forall2_same_length_lookup. split; [rewrite !length_insert; by eapply Forall2_length|].
    intros j x y Hx Hy. destruct (decide (j = i)) as [->|Hj].
    { rewrite list_lookup_insert_eq in Hx by lia.
      rewrite list_lookup_insert_eq in Hy by (rewrite <- (Forall2_length _ _ _ Hs); lia). by simplify_eq. }
    rewrite list_lookup_insert_ne in Hx by done. rewrite list_lookup_insert_ne in Hy by done.
    destruct (Forall2_lookup_lr _ _ _ _ _ _ Hs Hx Hy) as [?|[Hp Hh]]; [by left|]. right. split; [done|].
    apply Hframe; [|done|done]. intros ->. apply Hj. by apply (Hinj j i m).
  - intros j1 j2 x Hj1 Hj2 Hx. destruct (decide (j1 = i)) as [->|H1], (decide (j2 = i)) as [->|H2]; try done;
      try (rewrite list_lookup_insert_eq in Hj1 by lia); try (rewrite list_lookup_insert_eq in Hj2 by lia);
      try (rewrite list_lookup_insert_ne in Hj1 by done); try (rewrite list_lookup_insert_ne in Hj2 by done).
    + assert (x = m) as -> by (simplify_eq; lia). by apply (Hinj i j2 m).
    + assert (x = m) as -> by (simplify_eq; lia). by apply (Hinj j1 i m).
    + by apply (Hinj j1 j2 x).
Qed.

Lemma turns_over s map n idx rems : turns s map n idx rems -> Forall (fun m => m < 0) map -> concat rems = [].
Proof.
  intros [_ _ Hs _] Hall. induction Hs as [|m l map rems Hml Hs IH]; [done|]. apply Forall_cons in Hall as [Hm Hall].
  destruct Hml as [[_ ->]|[? _]]; [by apply IH|lia].
Qed.

(** the start: the map is a reordering of the indices *)
Lemma turns_start s map n idx (items : Z -> list A) : map ≡ₚ seqZ 0 n -> 0 <= idx < n ->
  (forall m, 0 <= m < n -> exists l, holds s m l /\ l ≡ₚ items m) ->
  exists rems, turns s map n idx rems /\ concat rems ≡ₚ seqZ 0 n ≫= items.
Proof.
  intros Hp Hidx Hitems.
  assert (Hrems : exists rems, Forall2 (fun m l => slot s m l /\ l ≡ₚ items m) map rems).
  { apply Forall_exists_list, Forall_forall. intros m Hm. rewrite Hp in Hm. apply elem_of_seqZ in Hm.
    destruct (Hitems m) as (l & Hh & Hl); [lia|]. exists l. split; [right; split; [lia|done]|done]. }
  destruct Hrems as (rems & Hrems). exists rems. split; [split|].
  - unfold zlen. rewrite Hp, length_seqZ. lia.
  - done.
  - eapply Forall2_impl; [exact Hrems|]. by intros ? ? [? _].
  - intros i j m Hi Hj _. apply (NoDup_lookup map i j m); try done. rewrite Hp. apply NoDup_seqZ.
  - rewrite <- Hp. clear -Hrems. induction Hrems as [|m l map rems [_ Hl] _ IH]; [done|].
    rewrite bind_cons. cbn [concat]. by rewrite Hl, IH.
Qed.

End Turns.

(** the map the loop makes *)
Lemma map_loop_perm n : 0 < n <= INT_MAX ->
  exists map, map_loop (Z.to_nat (2 * n)) (Z.to_nat n) (reorder32_init 0 (u32 (n - 1))) = Ret map /\ map ≡ₚ seqZ 0 n.
Proof.
  unfold INT_MAX. intros Hn. rewrite (uw_small 32) by lia.
  destruct (init_iterating 0 (n - 1)) as (k & ys & Hk & _ & Hlow & Hi & Hp); [lia|lia|].
  replace (n - 1 - 0 + 1) with n in Hp by lia. rewrite Z.sub_0_r in *.
  assert (Hyl : length ys = Z.to_nat n) by (rewrite Hp, length_seqZ; done).
  assert (Hpow : 2 ^ k <= 2 * n).
  { destruct (Z.eq_dec k 0) as [->|]; [lia|]. specialize (Hlow ltac:(lia)).
    replace k with (k - 1 + 1) by lia. rewrite Z.pow_add_r by lia. lia. }
  exists ys. split; [|done]. rewrite <- Hyl, (map_loop_ys k 0 (n - 1)) by (done || unfold INT_MAX; lia).
  f_equal. clear. induction ys as [|y ys IH]; [done|]. cbn. by rewrite IH.
Qed.
