(* ===== verification/Ports.v ===== *)
(** * Lists of port ranges (src/lib/net/ports.c)

    Parsing, normalization (sorting and merging), printing, iteration, in
    order and reordered, and extension of lists of ranges of ports. *)

From stdpp Require Import sorting.
From Stdlib Require Import Sorted.
From S2P Require Import Prelude CLib Buf Reorder RoundRobin.

Definition IS_PORT_RANGE_SEP (ch : Z) : bool :=
  (ch =? 13) || (ch =? 10) || (ch =? 9) || (ch =? 32) || (ch =? 44).

Definition PORT_RANGE_HAS_LHS : Z := Z.shiftl 1 0.
Definition PORT_RANGE_HAS_RHS : Z := Z.shiftl 1 1.
Definition PORT_RANGES_DIRTY : Z := Z.shiftl 1 0.
Definition DIRT_LIMIT : Z := 65536.

Record port_range : Type := Range {
  start : Z;
  end_ : Z;
}.

(** [ranges] is the allocated array, of [cap] elements, the first [nranges]
    of which are used *)
Record port_ranges : Type := Ranges {
  cap : Z;
  nranges : Z;
  ranges : list port_range;
  curr_range : Z;
  curr_port : Z;
  flags : Z;
}.

Definition port_ranges_reset (rs : port_ranges) : port_ranges :=
  Ranges (cap rs) (nranges rs) (ranges rs) 0 0 (flags rs).

Definition rangecmp (r0 r1 : port_range) : Z :=
  if start r0 =? start r1 then end_ r0 - end_ r1 else start r0 - start r1.

(** the loop over [next]; the number of ranges does not change when the
    ranges behind are moved *)
Fixpoint compress_loop (fuel : nat) (arr : list port_range) (nranges curr next : Z) :
    outcome (list port_range * Z) :=
  match fuel with
  | O => OutOfFuel
  | S fuel =>
      if negb (next <? nranges) then Ret (arr, curr + 1)
      else
        c ← rd arr curr;
        n ← rd arr next;
        if start n <=? end_ c + 1 then
          arr ← (if end_ c <? end_ n then wr arr curr (Range (start c) (end_ n)) else Ret arr);
          compress_loop fuel arr nranges curr (next + 1)
        else
          let curr := curr + 1 in
          if curr <? next then
            src ← rds arr next (nranges - next);
            arr ← wrs arr curr src;
            compress_loop fuel arr nranges curr (curr + 1)
          else compress_loop fuel arr nranges curr (next + 1)
  end.

Definition compress_ranges (arr : list port_range) (nranges : Z) : outcome (list port_range * Z) :=
  compress_loop (2 * Z.to_nat nranges + 1) arr nranges 0 1.

Section Operations.
Context (alloc_ok : Z -> bool) (qsort : list port_range -> list port_range) (uninit : port_range).

Definition _undirtify (rs : port_ranges) : outcome port_ranges :=
  let n := Z.to_nat (nranges rs) in
  let arr := qsort (take n (ranges rs)) ++ drop n (ranges rs) in
  '(arr, nr) ← compress_ranges arr (nranges rs);
  Ret (Ranges (cap rs) nr arr (curr_range rs) (curr_port rs) (Z.land (flags rs) (Z.lnot PORT_RANGES_DIRTY))).

Definition UNDIRTIFY (rs : port_ranges) : outcome port_ranges :=
  if flag_set (flags rs) PORT_RANGES_DIRTY then _undirtify rs else Ret rs.

Definition MARK_DIRTY (rs : port_ranges) : port_ranges :=
  Ranges (cap rs) (nranges rs) (ranges rs) (curr_range rs) (curr_port rs) (Z.lor (flags rs) PORT_RANGES_DIRTY).

(** the second component tells whether there is room; memory added by
    [realloc] holds [uninit] *)
Definition prep_insertion (rs : port_ranges) (needed : Z) : outcome (port_ranges * bool) :=
  rs ← (if DIRT_LIMIT <? nranges rs then UNDIRTIFY rs else Ret rs);
  if u64 (cap rs - nranges rs) <? needed then
    let n := u64 (cap rs + needed) in
    let n := u64 (n + n / 2) in
    if alloc_ok (u64 (4 * n)) then
      Ret (Ranges n (nranges rs) (ranges rs ++ replicate (Z.to_nat (n - cap rs)) uninit)
             (curr_range rs) (curr_port rs) (flags rs), true)
    else Ret (rs, false)
  else Ret (rs, true).

(** *** Parsing *)

Inductive parse_state : Type := SKIP_SEP | PARSE_LHS | PARSE_RHS.

Record parser : Type := Parser {
  p_state : parse_state;
  p_num : Z;
  p_flags : Z;
  p_start : Z;
  p_buf : buf_t;
}.

(** the bytes of a range in memory, and back *)
Definition range_bytes (r : port_range) : bytes :=
  [start r mod 256; start r / 256; end_ r mod 256; end_ r / 256].

Fixpoint bytes_ranges (bs : bytes) : list port_range :=
  match bs with
  | a :: b :: c :: d :: bs => Range (a + 256 * b) (c + 256 * d) :: bytes_ranges bs
  | _ => []
  end.

(** appends a range, its ends swapped if need be; the result of [buf_adata]
    is ignored *)
Definition add_parsed (b : buf_t) (s e : Z) : outcome buf_t :=
  let r := if e <? s then Range e s else Range s e in
  '(b, _) ← buf_adata alloc_ok b (range_bytes r);
  Ret b.

(** one turn of the loop; [None] is the jump to [fail] *)
Definition parse_char (st : parser) (ch : Z) : outcome (option parser) :=
  let lhs (st : parser) : outcome (option parser) :=
    if (ch =? 45) || IS_PORT_RANGE_SEP ch then
      let s := u16 (p_num st) in
      if ch =? 45 then
        if negb (flag_set (p_flags st) PORT_RANGE_HAS_LHS) then Ret None
        else Ret (Some (Parser PARSE_RHS 0 (p_flags st) s (p_buf st)))
      else
        b ← add_parsed (p_buf st) s s;
        Ret (Some (Parser SKIP_SEP (p_num st) (p_flags st) 0 b))
    else if (ch <? 48) || (57 <? ch) then Ret None
    else
      let num := u32 (p_num st * 10 + (ch - 48)) in
      if 65535 <? num then Ret None
      else Ret (Some (Parser PARSE_LHS num (Z.lor (p_flags st) PORT_RANGE_HAS_LHS) (p_start st) (p_buf st))) in
  match p_state st with
  | SKIP_SEP =>
      if IS_PORT_RANGE_SEP ch then Ret (Some st)
      else lhs (Parser PARSE_LHS 0 0 (p_start st) (p_buf st))
  | PARSE_LHS => lhs st
  | PARSE_RHS =>
      if IS_PORT_RANGE_SEP ch then
        if negb (flag_set (p_flags st) PORT_RANGE_HAS_RHS) then Ret None
        else
          b ← add_parsed (p_buf st) (p_start st) (u16 (p_num st));
          Ret (Some (Parser SKIP_SEP (p_num st) (p_flags st) 0 b))
      else if (ch <? 48) || (57 <? ch) then Ret None
      else
        let num := u32 (p_num st * 10 + (ch - 48)) in
        if 65535 <? num then Ret None
        else Ret (Some (Parser PARSE_RHS num (Z.lor (p_flags st) PORT_RANGE_HAS_RHS) (p_start st) (p_buf st)))
  end.

(** the state at the end of the string, or the offset stored in [fail_off] *)
Fixpoint parse_loop (s : bytes) (off : Z) (st : parser) : outcome (Z + parser) :=
  match s with
  | [] => Ret (inr st)
  | ch :: s =>
      r ← parse_char st ch;
      match r with
      | None => Ret (inl off)
      | Some st => parse_loop s (off + 1) st
      end
  end.

Definition empty_ranges : port_ranges := Ranges 0 0 [] 0 0 0.

(** what follows the loop: the last element, if any, is appended *)
Definition parse_last (st : parser) : outcome (option buf_t) :=
  match p_state st with
  | SKIP_SEP => Ret (Some (p_buf st))
  | PARSE_LHS => b ← add_parsed (p_buf st) (u16 (p_num st)) (u16 (p_num st)); Ret (Some b)
  | PARSE_RHS =>
      if negb (flag_set (p_flags st) PORT_RANGE_HAS_RHS) then Ret None
      else b ← add_parsed (p_buf st) (p_start st) (u16 (p_num st)); Ret (Some b)
  end.

(** the offset of a failure, if it is one of the string's; a null pointer is
    [None] *)
Definition port_ranges_from_str (s : option bytes) : outcome (option Z + port_ranges) :=
  match s with
  | None | Some [] => Ret (inr empty_ranges)
  | Some s =>
      match buf_init alloc_ok (256 * 4) with
      | None => Ret (inl None)
      | Some b =>
          r ← parse_loop s 0 (Parser SKIP_SEP 0 0 0 b);
          match r with
          | inl off => Ret (inl (Some off))
          | inr st =>
              b ← parse_last st;
              match b with
              | None => Ret (inl (Some (zlen s)))
              | Some b =>
                  if 4 <=? len b then
                    Ret (inr (MARK_DIRTY (Ranges (Buf.cap b / 4) (len b / 4) (bytes_ranges (data b)) 0 0 0)))
                  else Ret (inr empty_ranges)
              end
          end
      end
  end.

(** *** Printing *)

(** ["%hu"] *)
Fixpoint hu_loop (room : nat) (v : Z) (acc : bytes) : bytes :=
  match room with
  | O => acc
  | S room => let acc := (48 + v mod 10) :: acc in if v / 10 =? 0 then acc else hu_loop room (v / 10) acc
  end.
Definition hu (v : Z) : bytes := hu_loop 5 v [].

Definition append_range (b : buf_t) (r : port_range) (sep : bytes) : outcome (buf_t * Z) :=
  let s := if start r =? end_ r then sep ++ hu (start r) else sep ++ hu (start r) ++ [45] ++ hu (end_ r) in
  if (zlen s <=? 0) || (16 <=? zlen s) then Ret (b, -1)
  else
    '(b, ret) ← buf_adata alloc_ok b s;
    if ret <? 0 then Ret (b, -1) else Ret (b, 0).

Fixpoint append_ranges (rs : list port_range) (b : buf_t) : outcome (buf_t * Z) :=
  match rs with
  | [] => Ret (b, 0)
  | r :: rs =>
      '(b, ret) ← append_range b r [32];
      if ret <? 0 then Ret (b, -1) else append_ranges rs b
  end.

Definition set_curr (rs : port_ranges) (cr cp : Z) : port_ranges :=
  Ranges (cap rs) (nranges rs) (ranges rs) cr cp (flags rs).

(** "first entry - initialize rs->curr_port" *)
Definition first_port (rs : port_ranges) (r : port_range) : Z :=
  if (curr_range rs =? 0) && (curr_port rs =? 0) then start r else curr_port rs.

Definition port_ranges_to_buf (rs : port_ranges) (b : buf_t) : outcome (port_ranges * buf_t * Z) :=
  rs ← UNDIRTIFY rs;
  let b := buf_clear b in
  if nranges rs <=? curr_range rs then Ret (rs, b, 0)
  else
    r ← rd (ranges rs) (curr_range rs);
    let rs := set_curr rs (curr_range rs) (first_port rs r) in
    '(b, ret) ← append_range b (Range (curr_port rs) (end_ r)) [];
    if ret <? 0 then Ret (rs, b, -1)
    else
      '(b, ret) ← append_ranges
        (take (Z.to_nat (nranges rs - curr_range rs - 1)) (drop (Z.to_nat (curr_range rs + 1)) (ranges rs))) b;
      Ret (rs, b, ret).

Definition port_ranges_cleanup (rs : port_ranges) : port_ranges := Ranges (cap rs) 0 [] 0 0 (flags rs).

(** *** Iteration *)

Definition port_ranges_next (rs : port_ranges) : outcome (port_ranges * (Z * option Z)) :=
  rs ← UNDIRTIFY rs;
  if nranges rs <=? curr_range rs then Ret (port_ranges_reset rs, (0, None))
  else
    r ← rd (ranges rs) (curr_range rs);
    let out := first_port rs r in
    if out <? end_ r then Ret (set_curr rs (curr_range rs) (u16 (out + 1)), (1, Some out))
    else
      r ← rd (ranges rs) (curr_range rs + 1);
      Ret (set_curr rs (curr_range rs + 1) (start r), (1, Some out)).

(** *** Extension *)

(** copies [src] behind the used ranges *)
Definition store_ranges (rs : port_ranges) (src : list port_range) : outcome port_ranges :=
  arr ← wrs (ranges rs) (nranges rs) src;
  Ret (MARK_DIRTY (Ranges (cap rs) (nranges rs + zlen src) arr (curr_range rs) (curr_port rs) (flags rs))).

Definition port_ranges_add_ranges (dst from : port_ranges) : outcome (port_ranges * Z) :=
  if nranges from =? 0 then Ret (dst, 0)
  else
    '(dst, ret) ← prep_insertion dst (nranges from);
    if negb ret then Ret (dst, -1)
    else dst ← store_ranges dst (take (Z.to_nat (nranges from)) (ranges from)); Ret (dst, 0).

Definition port_ranges_add_range (dst : port_ranges) (r : port_range) : outcome (port_ranges * Z) :=
  '(dst, ret) ← prep_insertion dst 1;
  if negb ret then Ret (dst, -1)
  else dst ← store_ranges dst [r]; Ret (dst, 0).

Definition port_ranges_add_port (dst : port_ranges) (port : Z) : outcome (port_ranges * Z) :=
  port_ranges_add_range dst (Range port port).

(** *** Reordered iteration *)

(** [r4_ranges] are the ranges of the list the iterator was made from, the
    pointer [rs] *)
Record port_r4ranges : Type := R4 {
  r4_nranges : Z;
  r4_ranges : list port_range;
  r4_blocks : list reorder32;
  rangemap : list Z;
  mapindex : Z;
}.

(** the arrays are filled as a whole: they have [nranges] elements *)
Definition port_r4ranges_reset (r4 : port_r4ranges) : outcome port_r4ranges :=
  let n := r4_nranges r4 in
  map ← map_loop (Z.to_nat (2 * n)) (Z.to_nat n) (reorder32_init 0 (u32 (n - 1)));
  rs ← rds (r4_ranges r4) 0 n;
  Ret (R4 n (r4_ranges r4) ((fun r => reorder32_init (start r) (end_ r)) <$> rs) map (mapindex r4)).

Definition port_r4ranges_init (r4 : port_r4ranges) (rs : port_ranges) :
    outcome (port_r4ranges * port_ranges * Z) :=
  rs ← UNDIRTIFY rs;
  let n := nranges rs in
  let r4 := R4 n (r4_ranges r4) (r4_blocks r4) (rangemap r4) 0 in
  if (n =? 0) || (INT_MAX <? n) then Ret (r4, rs, 0)
  else
    let r4 := R4 n (ranges rs) (r4_blocks r4) (rangemap r4) 0 in
    if negb (alloc_ok (n * 28)) then Ret (r4, rs, -1)
    else if negb (alloc_ok (n * 4)) then Ret (r4, rs, -1)
    else
      r4 ← port_r4ranges_reset r4;
      Ret (r4, rs, 0).

Definition port_r4ranges_cleanup (r4 : port_r4ranges) : port_r4ranges :=
  R4 0 (r4_ranges r4) [] [] (mapindex r4).

(** the body after the label [again]; [fuel] bounds the jumps back to it *)
Fixpoint r4_again (fuel : nat) (r4 : port_r4ranges) : outcome (port_r4ranges * (Z * option Z)) :=
  match fuel with
  | O => OutOfFuel
  | S fuel =>
      curr ← scan_map (Z.to_nat (r4_nranges r4)) (r4_nranges r4) (rangemap r4) (mapindex r4) (mapindex r4);
      m ← rd (rangemap r4) curr;
      if (curr =? mapindex r4) && (m <? 0) then
        r4 ← port_r4ranges_reset r4;
        Ret (r4, (0, None))
      else
        range ← rd (r4_blocks r4) m;
        '(range, (ret, res)) ← reorder32_next (Z.to_nat 131072) range;
        blocks ← wr (r4_blocks r4) m range;
        if ret =? 0 then
          map ← wr (rangemap r4) curr (-1);
          r4_again fuel (R4 (r4_nranges r4) (r4_ranges r4) blocks map curr)
        else
          Ret (R4 (r4_nranges r4) (r4_ranges r4) blocks (rangemap r4) curr, (1, match res with Some x => Some (u16 x) | None => None end))
  end.

Definition port_r4ranges_next (r4 : port_r4ranges) : outcome (port_r4ranges * (Z * option Z)) :=
  if r4_nranges r4 =? 0 then Ret (r4, (0, None))
  else r4_again (S (Z.to_nat (r4_nranges r4))) r4.

End Operations.

(** ** Normalization *)

Definition wf_range (r : port_range) : Prop := 0 <= start r <= end_ r /\ end_ r <= 65535.

Definition in_range (p : Z) (r : port_range) : Prop := start r <= p <= end_ r.
Definition covered (p : Z) (rs : list port_range) : Prop := Exists (in_range p) rs.

Definition start_le (r0 r1 : port_range) : Prop := start r0 <= start r1.

(** a port is left out between a range and the next one *)
Definition apart (r0 r1 : port_range) : Prop := end_ r0 + 1 < start r1.

(** the loop's effect, on the list of the ranges that are left *)
Fixpoint compressed (c : port_range) (ns : list port_range) : list port_range :=
  match ns with
  | [] => [c]
  | n :: ns =>
      if start n <=? end_ c + 1 then compressed (Range (start c) (Z.max (end_ c) (end_ n))) ns
      else c :: compressed n ns
  end.

Lemma merged_end c n : (if end_ c <? end_ n then Range (start c) (end_ n) else c) =
  Range (start c) (Z.max (end_ c) (end_ n)).
Proof. destruct c as [s e]. simpl. destruct (Z.ltb_spec e (end_ n)); f_equal; lia. Qed.

Lemma ranges_compressed ns : forall c, wf_range c -> Forall wf_range ns -> Forall (start_le c) ns -> StronglySorted start_le ns ->
  Forall wf_range (compressed c ns) /\ Sorted apart (compressed c ns) /\
  (exists c' r, compressed c ns = c' :: r /\ start c' = start c) /\
  forall p, covered p (compressed c ns) <-> covered p (c :: ns).
Proof.
  unfold covered. induction ns as [|n ns IH]; intros c Hc Hns Hle Hs.
  { simpl. split_and!; [by constructor|by constructor|eauto|done]. }
  apply Forall_cons in Hns as [Hn Hns], Hle as [Hcn Hle]. apply StronglySorted_inv in Hs as [Hs Hnl].
  unfold wf_range, start_le in *. cbn [compressed]. destruct (Z.leb_spec (start n) (end_ c + 1)) as [Hm|Hm].
  - destruct (IH (Range (start c) (Z.max (end_ c) (end_ n)))) as (H1 & H2 & H3 & H4); [simpl; lia|done|done|done|].
    split_and!; try done. intros p. rewrite H4, !Exists_cons. unfold in_range. simpl.
    assert (start c <= p <= Z.max (end_ c) (end_ n) <-> start c <= p <= end_ c \/ start n <= p <= end_ n) by lia.
    tauto.
  - destruct (IH n Hn Hns Hnl Hs) as (H1 & H2 & (c' & r & Ec & Hf) & H4).
    split_and!; [by constructor| |eauto|intros p; rewrite !Exists_cons, H4, Exists_cons; done].
    constructor; [done|]. rewrite Ec. constructor. unfold apart. lia.
Qed.

(** what moved ranges leave behind the used part is merged without effect *)
Lemma stale_loop : forall stale fuel finished c junk tail,
  Forall (fun s => start s <= end_ c + 1 /\ end_ s <= end_ c) stale -> (length stale < fuel)%nat ->
  compress_loop fuel (finished ++ c :: junk ++ stale ++ tail) (zlen (finished ++ c :: junk ++ stale))
    (zlen finished) (zlen (finished ++ c :: junk)) =
  Ret (finished ++ c :: junk ++ stale ++ tail, zlen finished + 1).
Proof.
  induction stale as [|s stale IH]; intros [|fuel] finished c junk tail Hs Hf; try (simpl in Hf; lia); cbn [compress_loop].
  - rewrite (proj2 (Z.ltb_ge _ _)) by (zlen_simpl; lia). done.
  - pose proof (zlen_nonneg stale). pose proof (zlen_nonneg junk). pose proof (zlen_nonneg finished).
    rewrite (proj2 (Z.ltb_lt _ _)) by (zlen_simpl; lia). cbn [negb]. rewrite rd_mid. cbn [mbind outcome_mbind].
    replace (finished ++ c :: junk ++ (s :: stale) ++ tail) with ((finished ++ c :: junk) ++ s :: stale ++ tail)
      by (by rewrite <- ?app_assoc).
    rewrite rd_mid. cbn [mbind outcome_mbind]. apply Forall_cons in Hs as [[Hs1 Hs2] Hs].
    rewrite (proj2 (Z.leb_le _ _)), (proj2 (Z.ltb_ge (end_ c) _)) by lia. cbn [mbind outcome_mbind].
    replace ((finished ++ c :: junk) ++ s :: stale ++ tail) with (finished ++ c :: (junk ++ [s]) ++ stale ++ tail)
      by (by rewrite <- ?app_assoc).
    rewrite <- (IH fuel finished c (junk ++ [s]) tail) by (done || (simpl in Hf; lia)).
    f_equal; zlen_simpl; lia.
Qed.

(** one turn that finds a range to keep: it becomes the current one, moved
    back over the merged ranges if there are any *)
Lemma keep_range finished c junk n ns stale tail fuel :
  ~ start n <= end_ c + 1 ->
  exists old, length old = length junk /\ (forall P : port_range -> Prop, Forall P (junk ++ n :: ns ++ stale) -> Forall P old) /\
  compress_loop (S fuel) (finished ++ c :: junk ++ (n :: ns) ++ stale ++ tail)
    (zlen (finished ++ c :: junk ++ (n :: ns) ++ stale)) (zlen finished) (zlen (finished ++ c :: junk)) =
  compress_loop fuel ((finished ++ [c]) ++ n :: [] ++ ns ++ (stale ++ old) ++ tail)
    (zlen ((finished ++ [c]) ++ n :: [] ++ ns ++ stale ++ old)) (zlen (finished ++ [c]))
    (zlen ((finished ++ [c]) ++ n :: [])).
Proof.
  intros Hm. pose proof (zlen_nonneg ns). pose proof (zlen_nonneg junk). pose proof (zlen_nonneg finished).
  pose proof (zlen_nonneg stale). pose proof (zlen_nonneg tail).
  destruct (memmove_back (finished ++ [c]) junk (n :: ns ++ stale) tail) as (old & Hl & Hold & Emv).
  exists old. split; [done|]. split; [done|]. cbn [compress_loop].
  rewrite (proj2 (Z.ltb_lt _ _)) by (zlen_simpl; lia). cbn [negb]. rewrite rd_mid. cbn [mbind outcome_mbind].
  replace (finished ++ c :: junk ++ (n :: ns) ++ stale ++ tail) with ((finished ++ c :: junk) ++ n :: ns ++ stale ++ tail)
    by (by rewrite <- ?app_assoc).
  rewrite rd_mid. cbn [mbind outcome_mbind]. rewrite (proj2 (Z.leb_gt _ _)) by lia. cbv zeta.
  replace ((finished ++ c :: junk) ++ n :: ns ++ stale ++ tail) with ((finished ++ [c]) ++ junk ++ (n :: ns ++ stale) ++ tail)
    by (rewrite <- ?app_assoc; cbn [app]; by rewrite <- ?app_assoc).
  assert (Hz : zlen old = zlen junk) by (unfold zlen; lia).
  destruct (Z.ltb_spec (zlen finished + 1) (zlen (finished ++ c :: junk))) as [Hj|Hj].
  - replace (zlen (finished ++ c :: junk ++ (n :: ns) ++ stale) - zlen (finished ++ c :: junk))
      with (zlen (n :: ns ++ stale)) by (zlen_simpl; lia).
    replace (zlen (finished ++ c :: junk)) with (zlen (finished ++ [c]) + zlen junk) by (zlen_simpl; lia).
    replace (zlen finished + 1) with (zlen (finished ++ [c])) by (zlen_simpl; lia).
    destruct (rds _ _ _) as [src| |] eqn:Er; cbn [mbind outcome_mbind] in *; try done. rewrite Emv.
    cbn [mbind outcome_mbind app]. rewrite <- ?app_assoc. cbn [app]. rewrite <- ?app_assoc. f_equal; zlen_simpl; lia.
  - assert (junk = []) as -> by (destruct junk; [done|zlen_simpl; pose proof (zlen_nonneg junk); lia]).
    destruct old; [|done]. rewrite ?app_nil_r. cbn [app]. rewrite <- ?app_assoc. cbn [app]. rewrite <- ?app_assoc.
    f_equal; zlen_simpl; lia.
Qed.

(** the array: merged ranges, the current one, the ranges merged into it, the
    ranges to come, and [stale] copies of ranges seen or to come *)
Lemma ranges_compress_spec : forall ns fuel finished c junk stale tail,
  Forall wf_range (junk ++ ns ++ stale) ->
  Forall (fun s => end_ s <= end_ c) junk ->
  Forall (fun s => end_ s <= end_ c \/ s ∈ ns) stale ->
  (2 * length ns + length junk + length stale < fuel)%nat ->
  exists arr, compress_loop fuel (finished ++ c :: junk ++ ns ++ stale ++ tail)
      (zlen (finished ++ c :: junk ++ ns ++ stale)) (zlen finished) (zlen (finished ++ c :: junk)) =
    Ret (finished ++ compressed c ns ++ arr, zlen (finished ++ compressed c ns)) /\
    length (finished ++ compressed c ns ++ arr) = length (finished ++ c :: junk ++ ns ++ stale ++ tail).
Proof.
  induction ns as [|n ns IH]; intros fuel finished c junk stale tail Hw Hend Hstale Hf.
  - cbn [compressed app]. exists (junk ++ stale ++ tail). split; [|done].
    apply Forall_app in Hw as [_ Hst].
    rewrite stale_loop; [do 2 f_equal; zlen_simpl; lia| |simpl in Hf; lia].
    rewrite Forall_forall in *. intros s Hs. specialize (Hst s Hs). unfold wf_range in Hst.
    destruct (Hstale s Hs) as [He|He]; [lia|]. by apply elem_of_nil in He.
  - destruct fuel as [|fuel]; [lia|]. simpl in Hf.
    rewrite !Forall_app, Forall_cons in Hw. destruct Hw as (Hwj & [Hn Hns] & Hst).
    destruct (decide (start n <= end_ c + 1)) as [Hm|Hm].
    + cbn [compress_loop compressed]. rewrite (proj2 (Z.leb_le _ _) Hm).
      pose proof (zlen_nonneg ns). pose proof (zlen_nonneg junk). pose proof (zlen_nonneg finished).
      pose proof (zlen_nonneg stale). pose proof (zlen_nonneg tail).
      rewrite (proj2 (Z.ltb_lt _ _)) by (zlen_simpl; lia). cbn [negb]. rewrite rd_mid. cbn [mbind outcome_mbind].
      replace (finished ++ c :: junk ++ (n :: ns) ++ stale ++ tail) with ((finished ++ c :: junk) ++ n :: ns ++ stale ++ tail)
        by (by rewrite <- ?app_assoc).
      rewrite rd_mid. cbn [mbind outcome_mbind]. rewrite (proj2 (Z.leb_le _ _) Hm).
      set (c' := Range (start c) (Z.max (end_ c) (end_ n))).
      assert (Ewr : (if end_ c <? end_ n
        then wr ((finished ++ c :: junk) ++ n :: ns ++ stale ++ tail) (zlen finished) (Range (start c) (end_ n))
        else Ret ((finished ++ c :: junk) ++ n :: ns ++ stale ++ tail)) =
        Ret (finished ++ c' :: (junk ++ [n]) ++ ns ++ stale ++ tail)).
      { unfold c'. rewrite <- merged_end. destruct (end_ c <? end_ n); [|by rewrite <- ?app_assoc].
        rewrite wr_in by (zlen_simpl; lia). rewrite <- ?app_assoc. cbn [app].
        rewrite insert_app_r_alt by (unfold zlen; lia).
        replace (Z.to_nat (zlen finished) - length finished)%nat with 0%nat by (unfold zlen; lia). done. }
      rewrite Ewr. cbn [mbind outcome_mbind].
      destruct (IH fuel finished c' (junk ++ [n]) stale tail) as (arr & E & El).
      * rewrite !Forall_app, Forall_singleton. done.
      * rewrite Forall_app, Forall_singleton. split; [|simpl; lia]. eapply Forall_impl; [exact Hend|]. simpl. lia.
      * eapply Forall_impl; [exact Hstale|]. intros s [He|[->|He]%elem_of_cons]; [left; simpl; lia|left; simpl; lia|by right].
      * rewrite length_app. simpl. lia.
      * exists arr. split; [|rewrite El; repeat (rewrite length_app; simpl); lia].
        rewrite <- E. f_equal; zlen_simpl; lia.
    + destruct (keep_range finished c junk n ns stale tail fuel Hm) as (old & Hl & Hold & E). rewrite E.
      unfold wf_range in Hn. assert (Hq : Forall (fun s => wf_range s /\ (end_ s <= end_ n \/ s ∈ ns)) (stale ++ old)).
      { assert (Hq : Forall (fun s => wf_range s /\ (end_ s <= end_ n \/ s ∈ ns)) (junk ++ n :: ns ++ stale));
          [|apply Forall_app; split; [|by apply Hold]; by rewrite Forall_app, Forall_cons, Forall_app in Hq; tauto].
        rewrite Forall_app, Forall_cons, Forall_app. split; [|split; [split; [done|left; lia]|split]].
        - apply Forall_forall. intros s Hs. rewrite Forall_forall in Hend, Hwj. specialize (Hend s Hs). auto with lia.
        - apply Forall_forall. intros s Hs. rewrite Forall_forall in Hns. auto.
        - apply Forall_forall. intros s Hs. rewrite Forall_forall in Hst, Hstale. split; [by apply Hst|].
          destruct (Hstale s Hs) as [He|[->|He]%elem_of_cons]; [left; lia|left; lia|by right]. }
      destruct (IH fuel (finished ++ [c]) n [] (stale ++ old) tail) as (arr & E' & El).
      * cbn [app]. apply Forall_app. split; [done|]. eapply Forall_impl; [exact Hq|]. tauto.
      * constructor.
      * eapply Forall_impl; [exact Hq|]. tauto.
      * simpl. rewrite length_app, Hl. lia.
      * exists arr. cbn [compressed]. rewrite (proj2 (Z.leb_gt _ _)) by lia.
        rewrite E'. rewrite <- ?app_assoc in El |- *. cbn [app] in El |- *. split; [done|]. rewrite El.
        repeat (rewrite length_app; simpl). lia.
Qed.

(** ** Lists of ranges *)

Definition used (rs : port_ranges) : list port_range := take (Z.to_nat (nranges rs)) (ranges rs).

Record wf_ranges (rs : port_ranges) : Prop := WfRanges {
  wf_count : 0 <= nranges rs <= cap rs;
  wf_array : zlen (ranges rs) = cap rs;
  wf_used : Forall wf_range (used rs);
  wf_dirty : flags rs = 0 /\ Sorted apart (used rs) \/ flags rs = PORT_RANGES_DIRTY /\ 0 < nranges rs;
}.

Definition qsort_ok (qsort : list port_range -> list port_range) : Prop :=
  forall l, qsort l ≡ₚ l /\ Sorted (fun a b => rangecmp a b <= 0) (qsort l).

Lemma sorted_start_le l : Sorted (fun a b => rangecmp a b <= 0) l -> StronglySorted start_le l.
Proof.
  intros Hs. apply Sorted_StronglySorted; [unfold start_le; intros ???; lia|].
  induction Hs as [|b l Hs IH Hd]; [constructor|]. constructor; [done|].
  destruct Hd as [|b' l Hle]; constructor. unfold rangecmp, start_le in *.
  destruct (Z.eqb_spec (start b) (start b')); lia.
Qed.

Lemma used_length rs : wf_ranges rs -> zlen (used rs) = nranges rs.
Proof. intros [Hc Ha _ _]. unfold used. zlen_simpl. lia. Qed.

Lemma undirtify_spec qsort rs : qsort_ok qsort -> wf_ranges rs ->
  exists rs', UNDIRTIFY qsort rs = Ret rs' /\ wf_ranges rs' /\ flags rs' = 0 /\ Sorted apart (used rs') /\
    nranges rs' <= nranges rs /\ cap rs' = cap rs /\ curr_range rs' = curr_range rs /\ curr_port rs' = curr_port rs /\
    forall p, covered p (used rs') <-> covered p (used rs).
Proof.
  intros Hq Hw. pose proof Hw as [Hc Ha Hu Hd]. unfold UNDIRTIFY.
  destruct Hd as [[Hf Hs]|[Hf Hn]]; rewrite Hf.
  { exists rs. change (flag_set 0 PORT_RANGES_DIRTY) with false. by split_and!. }
  change (flag_set PORT_RANGES_DIRTY PORT_RANGES_DIRTY) with true. cbv iota. unfold _undirtify.
  fold (used rs). destruct (Hq (used rs)) as [Hp Hs]. set (tail := drop _ (ranges rs)).
  pose proof (used_length rs Hw) as Hul.
  destruct (qsort (used rs)) as [|c ns] eqn:Ec.
  { apply Permutation_nil in Hp. rewrite Hp in Hul. zlen_simpl. lia. }
  assert (Hwq : Forall wf_range (c :: ns)) by (by rewrite Hp).
  apply sorted_start_le, StronglySorted_inv in Hs as [Hs Hle].
  assert (Hwns := Hwq). apply Forall_cons in Hwns as [Hwc Hwns].
  destruct (ranges_compressed ns c Hwc Hwns Hle Hs) as (H1 & H2 & _ & H4).
  assert (Hlen : length (c :: ns) = Z.to_nat (nranges rs)).
  { rewrite Hp. unfold zlen in Hul. lia. }
  unfold compress_ranges.
  destruct (ranges_compress_spec ns (2 * Z.to_nat (nranges rs) + 1) [] c [] [] tail) as (arr & E & El).
  { by rewrite app_nil_r. } { constructor. } { constructor. } { simpl in *. lia. }
  cbn [app] in E, El. rewrite app_nil_r in E. change (zlen [c]) with 1 in E. change (zlen []) with 0 in E.
  replace (zlen (c :: ns)) with (nranges rs) in E by (unfold zlen; lia).
  cbn [app]. rewrite E. cbn [mbind outcome_mbind]. eexists. split; [done|].
  assert (Hnr : zlen (compressed c ns) <= nranges rs).
  { clear -Hlen Hn. assert (H : forall ns c, (length (compressed c ns) <= S (length ns))%nat).
    { clear. induction ns as [|n ns IH]; intros c; simpl; [done|]. case_match; [etrans; [apply IH|lia]|].
      simpl. specialize (IH n). lia. }
    specialize (H ns c). simpl in Hlen. unfold zlen. lia. }
  rewrite Hf. change (Z.land PORT_RANGES_DIRTY (Z.lnot PORT_RANGES_DIRTY)) with 0.
  assert (Hused : used (Ranges (cap rs) (zlen (compressed c ns)) (compressed c ns ++ arr) (curr_range rs)
    (curr_port rs) 0) = compressed c ns).
  { unfold used. cbn [nranges ranges]. replace (Z.to_nat (zlen (compressed c ns))) with (length (compressed c ns))
      by (unfold zlen; lia). apply take_app_length. }
  pose proof (zlen_nonneg (compressed c ns)).
  split_and!; try done; try (by rewrite Hused).
  - split; cbn [nranges cap ranges flags]; [lia| |by rewrite Hused|by left; rewrite Hused].
    rewrite <- Ha. unfold zlen. rewrite El. cbn [length] in *. rewrite length_app. unfold tail. rewrite length_drop.
    unfold zlen in Ha. lia.
  - intros p. rewrite Hused, H4. unfold covered. rewrite !Exists_exists. by setoid_rewrite Hp.
Qed.

(** normalized lists of the same ports are the same lists *)
Lemma apart_gap r rs : Sorted apart (r :: rs) -> Forall wf_range (r :: rs) ->
  forall p, covered p rs -> end_ r + 1 < p.
Proof.
  revert r. induction rs as [|r' rs IH]; intros r Hs Hw p Hp; [by apply Exists_nil in Hp|].
  apply Sorted_inv in Hs as [Hs Ha]. apply HdRel_inv in Ha. apply Forall_cons in Hw as [Hr Hw].
  assert (Hw' := Hw). apply Forall_cons in Hw' as [Hr' _]. unfold apart, wf_range in *.
  apply Exists_cons in Hp as [Hp|Hp]; [unfold in_range in Hp; lia|]. specialize (IH r' Hs Hw p Hp). lia.
Qed.

Lemma normal_unique l1 : forall l2, Sorted apart l1 -> Sorted apart l2 -> Forall wf_range l1 -> Forall wf_range l2 ->
  (forall p, covered p l1 <-> covered p l2) -> l1 = l2.
Proof.
  induction l1 as [|[s1 e1] l1 IH]; intros [|[s2 e2] l2] H1 H2 Hw1 Hw2 Hc; [done|..].
  - apply Forall_cons in Hw2 as [Hw _]. unfold wf_range in Hw. simpl in Hw.
    destruct (proj1 (Exists_nil (in_range s2))). apply Hc. left. unfold in_range. simpl. lia.
  - apply Forall_cons in Hw1 as [Hw _]. unfold wf_range in Hw. simpl in Hw.
    destruct (proj1 (Exists_nil (in_range s1))). apply Hc. left. unfold in_range. simpl. lia.
  - pose proof (apart_gap _ _ H1 Hw1) as G1. pose proof (apart_gap _ _ H2 Hw2) as G2.
    assert (Hw1' := Hw1). assert (Hw2' := Hw2).
    apply Forall_cons in Hw1' as [[R1 _] Hw1'], Hw2' as [[R2 _] Hw2']. simpl in *.
    assert (Hin : forall p, s1 <= p <= e1 \/ covered p l1 <-> s2 <= p <= e2 \/ covered p l2).
    { intros p. specialize (Hc p). unfold covered in *. rewrite !Exists_cons in Hc. exact Hc. }
    assert (s1 = s2) as ->.
    { pose proof (proj1 (Hin s1) ltac:(left; lia)) as [?|?%G2]; pose proof (proj2 (Hin s2) ltac:(left; lia)) as [?|?%G1]; lia. }
    assert (e1 = e2) as ->.
    { pose proof (proj1 (Hin e1) ltac:(left; lia)) as [?|Hx%G2]; pose proof (proj2 (Hin e2) ltac:(left; lia)) as [?|Hy%G1]; try lia.
      - pose proof (proj2 (Hin (e1 + 1)) ltac:(left; lia)) as [?|?%G1]; lia.
      - pose proof (proj1 (Hin (e2 + 1)) ltac:(left; lia)) as [?|?%G2]; lia. }
    f_equal. apply IH; try done; [exact (proj1 (Sorted_inv H1))|exact (proj1 (Sorted_inv H2))|].
    intros p. specialize (Hin p). split; intros Hp.
    + pose proof (G1 p Hp). destruct (proj1 Hin (or_intror Hp)); [lia|done].
    + pose proof (G2 p Hp). destruct (proj2 Hin (or_intror Hp)); [lia|done].
Qed.

(** C29: normalization sorts the ranges and merges those that overlap or
    touch: the list then has the same ports, its ranges are in order with at
    least a port left out between one and the next, and no other list of that
    kind has the same ports. *)
Theorem port_ranges_normal_form qsort rs (Hq : qsort_ok qsort) (Hw : wf_ranges rs) :
  exists rs', UNDIRTIFY qsort rs = Ret rs' /\ wf_ranges rs' /\ Sorted apart (used rs') /\
    (forall p, covered p (used rs') <-> covered p (used rs)) /\ nranges rs' <= nranges rs /\
    forall l, Sorted apart l -> Forall wf_range l -> (forall p, covered p l <-> covered p (used rs)) -> l = used rs'.
Proof.
  destruct (undirtify_spec qsort rs Hq Hw) as (rs' & E & Hw' & _ & Hs & Hn & _ & _ & _ & Hc).
  exists rs'. split_and!; try done. intros l Hl Hwl Hcl. apply normal_unique; try done; [apply Hw'|].
  intros p. by rewrite Hcl, Hc.
Qed.

(** ** Iteration in order *)

Fixpoint nexts (qsort : list port_range -> list port_range) (n : nat) (rs : port_ranges) :
    outcome (port_ranges * list (Z * option Z)) :=
  match n with
  | O => Ret (rs, [])
  | S n =>
      '(rs, r) ← port_ranges_next qsort rs;
      '(rs, l) ← nexts qsort n rs;
      Ret (rs, r :: l)
  end.

Definition range_ports (r : port_range) : list Z := seqZ (start r) (end_ r - start r + 1).
Definition ports (rs : list port_range) : list Z := rs ≫= range_ports.

(** the ports [l] are left of the iteration of a normal list with an element
    to spare *)
Definition iterating (rs : port_ranges) (l : list Z) : Prop :=
  flags rs = 0 /\ 0 <= nranges rs < zlen (ranges rs) /\ Forall wf_range (used rs) /\ 0 <= curr_range rs /\
  match drop (Z.to_nat (curr_range rs)) (used rs) with
  | [] => l = []
  | r :: rest =>
      start r <= first_port rs r <= end_ r /\
      l = seqZ (first_port rs r) (end_ r - first_port rs r + 1) ++ ports rest
  end.

Lemma next_port qsort rs x l : iterating rs (x :: l) ->
  exists rs', port_ranges_next qsort rs = Ret (rs', (1, Some x)) /\ iterating rs' l /\ used rs' = used rs.
Proof.
  intros (Hf & Hn & Hw & Hk & Hm). unfold port_ranges_next, UNDIRTIFY. rewrite Hf.
  change (flag_set 0 PORT_RANGES_DIRTY) with false. cbn [mbind outcome_mbind].
  destruct (drop (Z.to_nat (curr_range rs)) (used rs)) as [|r rest] eqn:Ed; [done|]. destruct Hm as [Hp Hl].
  assert (Hu : used rs !! Z.to_nat (curr_range rs) = Some r).
  { rewrite <- (Nat.add_0_r (Z.to_nat _)), <- lookup_drop, Ed. done. }
  assert (Hwr : wf_range r) by (by eapply Forall_lookup_1). unfold wf_range in Hwr.
  assert (Hr := Hu). unfold used in Hr. apply lookup_take_Some in Hr as [Hr Hlt].
  rewrite (proj2 (Z.leb_gt _ _)) by lia.
  assert (rd (ranges rs) (curr_range rs) = Ret r) as -> by (by apply rd_ret). cbn [mbind outcome_mbind].
  rewrite seqZ_cons in Hl by lia. injection Hl as Ex El. subst x.
  destruct (Z.ltb_spec (first_port rs r) (end_ r)) as [Hlast|Hlast].
  - eexists. split; [done|]. split; [|done]. rewrite uw_small by lia. unfold iterating.
    do 3 (split; [done|]). split; [simpl; lia|]. fold (used rs). change (used (set_curr _ _ _)) with (used rs).
    change (curr_range (set_curr _ ?x _)) with x. rewrite Ed. 
    set (p := first_port rs r) in *. unfold first_port. cbn [curr_range curr_port set_curr].
    assert ((curr_range rs =? 0) && (p + 1 =? 0) = false) as ->.
    { destruct (Z.eqb_spec (p + 1) 0); [lia|apply andb_false_r]. }
    split; [lia|]. rewrite El. f_equal. f_equal; lia.
  - destruct (rd_in (ranges rs) (curr_range rs + 1)) as (r' & -> & Hr'); [lia|]. cbn [mbind outcome_mbind].
    eexists. split; [done|]. split; [|done].
    replace (end_ r - first_port rs r + 1) with 1 in El by lia. rewrite seqZ_nil in El by lia. simpl in El.
    do 3 (split; [done|]). split; [simpl; lia|]. change (used (set_curr _ _ _)) with (used rs).
    change (curr_range (set_curr _ ?x _)) with x. replace (Z.to_nat (curr_range rs + 1)) with (Z.to_nat (curr_range rs) + 1)%nat by lia.
    rewrite <- drop_drop, Ed. cbn [drop]. destruct rest as [|r2 rest]; [done|].
    assert (Hu2 : used rs !! Z.to_nat (curr_range rs + 1) = Some r2).
    { replace (Z.to_nat (curr_range rs + 1)) with (Z.to_nat (curr_range rs) + 1)%nat by lia.
      rewrite <- lookup_drop, Ed. done. }
    assert (Hw2 : wf_range r2) by (by eapply Forall_lookup_1). unfold wf_range in Hw2.
    unfold used in Hu2. apply lookup_take_Some in Hu2 as [Hu2 _]. assert (r' = r2) as -> by congruence.
    unfold first_port. cbn [curr_range curr_port set_curr]. rewrite (proj2 (Z.eqb_neq _ 0)) by lia. cbn [andb].
    split; [lia|]. done.
Qed.

Lemma next_port_end qsort rs : iterating rs [] ->
  port_ranges_next qsort rs = Ret (port_ranges_reset rs, (0, None)).
Proof.
  intros (Hf & Hn & Hw & Hk & Hm). unfold port_ranges_next, UNDIRTIFY. rewrite Hf.
  change (flag_set 0 PORT_RANGES_DIRTY) with false. cbn [mbind outcome_mbind].
  destruct (drop (Z.to_nat (curr_range rs)) (used rs)) as [|r rest] eqn:Ed.
  - rewrite (proj2 (Z.leb_le _ _)); [done|]. apply (f_equal length) in Ed. unfold used in Ed.
    rewrite length_drop, length_take in Ed. unfold zlen in Hn. simpl in Ed. lia.
  - destruct Hm as [Hp Hl]. rewrite seqZ_cons in Hl by lia. done.
Qed.

Lemma nexts_ports qsort : forall l rs, iterating rs l -> exists rs', used rs' = used rs /\ flags rs' = 0 /\
  curr_range rs' = 0 /\ curr_port rs' = 0 /\
  nexts qsort (S (length l)) rs = Ret (rs', ((fun p => (1, Some p)) <$> l) ++ [(0, None)]).
Proof.
  induction l as [|x l IH]; intros rs Hi.
  - cbn [nexts length]. rewrite (next_port_end qsort rs Hi). cbn [mbind outcome_mbind].
    exists (port_ranges_reset rs). destruct Hi as [Hf _]. done.
  - cbn [length]. cbn [nexts]. destruct (next_port qsort rs x l Hi) as (rs1 & -> & Hi1 & Hu1). cbn [mbind outcome_mbind].
    destruct (IH rs1 Hi1) as (rs' & Hu' & Hf' & Hr' & Hp' & E). cbn [nexts] in E. rewrite E. cbn [mbind outcome_mbind].
    exists rs'. rewrite Hu', Hu1. done.
Qed.

Lemma ports_covered rs p : p ∈ ports rs <-> covered p rs.
Proof.
  unfold ports, covered. rewrite list_elem_of_bind, Exists_exists. unfold range_ports, in_range.
  split; intros (r & H1 & H2); exists r; rewrite elem_of_seqZ in *; (split; [done || lia|done || lia]).
Qed.

Lemma ports_sorted rs : Sorted apart rs -> Forall wf_range rs -> StronglySorted Z.lt (ports rs).
Proof.
  induction rs as [|r rs IH]; intros Hs Hw; [constructor|]. pose proof (apart_gap r rs Hs Hw) as Hgap.
  apply Sorted_inv in Hs as [Hs _]. apply Forall_cons in Hw as [Hr Hw]. specialize (IH Hs Hw).
  change (ports (r :: rs)) with (range_ports r ++ ports rs). unfold range_ports.
  assert (H : forall n a, a + Z.of_nat n <= end_ r + 1 -> StronglySorted Z.lt (seqZ a (Z.of_nat n) ++ ports rs)).
  { induction n as [|n IHn]; intros a Ha; [done|]. rewrite seqZ_cons by lia. cbn [app]. constructor.
    - replace (Z.pred (Z.of_nat (S n))) with (Z.of_nat n) by lia. apply IHn. lia.
    - rewrite Forall_app, !Forall_forall. split; intros x Hx.
      + apply elem_of_seqZ in Hx. lia.
      + apply ports_covered, Hgap in Hx. lia. }
  unfold wf_range in Hr. replace (end_ r - start r + 1) with (Z.of_nat (Z.to_nat (end_ r - start r + 1))) by lia.
  apply H. lia.
Qed.

(** An iteration from the start of a well-formed list, with room for one
    more range, gives every port of the list exactly once, in increasing
    order, then reports the end and is back at the start. *)
Theorem port_ranges_next_enumerates qsort rs (Hq : qsort_ok qsort) (Hw : wf_ranges rs)
    (H0 : curr_range rs = 0 /\ curr_port rs = 0) (Hroom : nranges rs < cap rs) :
  exists rs' l, nexts qsort (S (length l)) rs = Ret (rs', ((fun p => (1, Some p)) <$> l) ++ [(0, None)]) /\
    StronglySorted Z.lt l /\ (forall p, p ∈ l <-> covered p (used rs)) /\
    (forall p, covered p (used rs') <-> covered p (used rs)) /\ curr_range rs' = 0 /\ curr_port rs' = 0.
Proof.
  destruct H0 as [Hr0 Hp0].
  destruct (undirtify_spec qsort rs Hq Hw) as (rs1 & E1 & Hw1 & Hf1 & Hs1 & Hn1 & Hcap & Hcr & Hcp & Hc1).
  assert (Hi : iterating rs1 (ports (used rs1))).
  { pose proof Hw1 as [Hcnt Harr Hu _]. rewrite Hr0 in Hcr. rewrite Hp0 in Hcp.
    unfold iterating. do 1 (split; [done|]). split; [lia|]. split; [done|]. split; [lia|]. rewrite Hcr.
    cbn [Z.to_nat drop]. destruct (used rs1) as [|r rest]; [done|]. unfold first_port. rewrite Hcr, Hcp.
    change ((0 =? 0) && (0 =? 0)) with true. cbv iota. apply Forall_cons in Hu as [Hr _].
    unfold wf_range in Hr. split; [lia|done]. }
  destruct (nexts_ports qsort _ rs1 Hi) as (rs' & Hu' & _ & Hr' & Hp' & E).
  exists rs', (ports (used rs1)). split_and!; try done.
  - rewrite <- E. cbn [nexts]. f_equal. unfold port_ranges_next. rewrite E1.
    unfold UNDIRTIFY at 1. by rewrite Hf1.
  - by apply ports_sorted; [|apply Hw1].
  - intros p. by rewrite ports_covered, Hc1.
  - intros p. by rewrite Hu', Hc1.
Qed.

(** the last call of an iteration reads the element behind the last range,
    which is outside of an array that is full *)
Lemma port_ranges_next_overread qsort p :
  port_ranges_next qsort (Ranges 1 1 [Range p p] 0 0 0) = OutOfBounds.
Proof.
  unfold port_ranges_next, UNDIRTIFY. change (flag_set _ _) with false. cbn [mbind outcome_mbind]. unfold first_port. simpl.
  by rewrite Z.ltb_irrefl.
Qed.

(** ** Extension *)

Section Extension.
Context (alloc_ok : Z -> bool) (qsort : list port_range -> list port_range) (uninit : port_range).
Context (Hq : qsort_ok qsort).

Lemma prep_insertion_spec rs needed : wf_ranges rs -> 0 < needed < 2 ^ 60 -> cap rs < 2 ^ 60 ->
  exists rs' ok, prep_insertion alloc_ok qsort uninit rs needed = Ret (rs', ok) /\ wf_ranges rs' /\
    (forall p, covered p (used rs') <-> covered p (used rs)) /\
    (ok = true -> nranges rs' + needed <= cap rs').
Proof.
  intros Hw Hn Hcap.
  assert (H : exists rs1, (if DIRT_LIMIT <? nranges rs then UNDIRTIFY qsort rs else Ret rs) = Ret rs1 /\ wf_ranges rs1 /\
    (forall p, covered p (used rs1) <-> covered p (used rs)) /\ cap rs1 = cap rs).
  { destruct (DIRT_LIMIT <? nranges rs); [|by exists rs].
    destruct (undirtify_spec qsort rs Hq Hw) as (rs' & E & Hw' & _ & _ & _ & Hc & _ & _ & Hp). by exists rs'. }
  destruct H as (rs1 & E & Hw1 & Hc1 & Hcap1). unfold prep_insertion. rewrite E. cbn [mbind outcome_mbind]. clear E.
  pose proof Hw1 as [Hcnt Harr Hu Hd]. rewrite (uw_small 64) by lia.
  destruct (Z.ltb_spec (cap rs1 - nranges rs1) needed) as [Hlt|Hge].
  2: { exists rs1, true. split_and!; try done. intros _. lia. }
  rewrite (uw_small 64 (cap rs1 + needed)) by lia. set (n := cap rs1 + needed).
  assert (0 <= n / 2 <= n) by (unfold n; divmod_lia). rewrite (uw_small 64 (n + n / 2)) by lia.
  destruct (alloc_ok _); [|by exists rs1, false]. eexists _, true. split; [done|].
  assert (Hsame : forall fl, used (Ranges (n + n / 2) (nranges rs1)
    (ranges rs1 ++ replicate (Z.to_nat (n + n / 2 - cap rs1)) uninit) (curr_range rs1) (curr_port rs1) fl) = used rs1).
  { intros fl. unfold used. cbn [nranges ranges]. apply take_app_le. unfold zlen in *. lia. }
  split_and!; [|by rewrite Hsame|intros _; simpl; lia].
  split; rewrite ?Hsame; simpl; [lia| |done|done]. zlen_simpl. rewrite Harr. lia.
Qed.

Lemma store_ranges_spec rs src : wf_ranges rs -> Forall wf_range src -> src <> [] -> nranges rs + zlen src <= cap rs ->
  exists rs', store_ranges rs src = Ret rs' /\ wf_ranges rs' /\
    (forall p, covered p (used rs') <-> covered p (used rs) \/ covered p src).
Proof.
  intros [Hcnt Harr Hu Hd] Hs Hne Hroom. pose proof (zlen_nonneg src). unfold store_ranges.
  rewrite wrs_in by lia. cbn [mbind outcome_mbind]. eexists. split; [done|].
  assert (Hused : forall c fl cr cp, used (Ranges c (nranges rs + zlen src) (take (Z.to_nat (nranges rs)) (ranges rs) ++ src ++
    drop (Z.to_nat (nranges rs) + length src) (ranges rs)) cr cp fl) = used rs ++ src).
  { intros. unfold used. cbn [nranges ranges]. rewrite app_assoc. apply take_app_length'.
    rewrite length_app, length_take. unfold zlen in *. lia. }
  split; [split|]; unfold MARK_DIRTY; rewrite ?Hused; simpl.
  - lia.
  - zlen_simpl. unfold zlen in *. lia.
  - by apply Forall_app.
  - right. split; [destruct Hd as [[-> _]|[-> _]]; done|]. destruct src; [done|]. zlen_simpl. pose proof (zlen_nonneg src). lia.
  - intros p. unfold covered. by rewrite Exists_app.
Qed.

(** Adding a list of ranges keeps the list well formed; either memory runs
    out and its ports are the same, or its ports are those of both lists. *)
Theorem port_ranges_add_ranges_union dst from :
  wf_ranges dst -> wf_ranges from -> cap dst < 2 ^ 60 -> nranges from < 2 ^ 60 ->
  exists dst' ret, port_ranges_add_ranges alloc_ok qsort uninit dst from = Ret (dst', ret) /\ wf_ranges dst' /\
    (ret = -1 /\ (forall p, covered p (used dst') <-> covered p (used dst)) \/
     ret = 0 /\ (forall p, covered p (used dst') <-> covered p (used dst) \/ covered p (used from))).
Proof.
  intros Hw Hwf Hcap Hn. unfold port_ranges_add_ranges. pose proof (used_length from Hwf) as Hlen.
  pose proof Hwf as [Hcf _ Huf _]. destruct (Z.eqb_spec (nranges from) 0) as [H0|H0].
  { exists dst, 0. split_and!; try done. right. split; [done|]. intros p. rewrite H0 in Hlen.
    destruct (used from); [|zlen_simpl; pose proof (zlen_nonneg l); lia]. unfold covered. rewrite Exists_nil. tauto. }
  destruct (prep_insertion_spec dst (nranges from) Hw ltac:(lia) Hcap) as (d1 & ok & -> & Hw1 & Hc1 & Hroom).
  cbn [mbind outcome_mbind]. destruct ok; cbn [negb]; [|by eauto 10]. fold (used from).
  destruct (store_ranges_spec d1 (used from)) as (d2 & -> & Hw2 & Hc2); try done.
  { intros E. rewrite E in Hlen. zlen_simpl. lia. } { rewrite Hlen. by apply Hroom. }
  cbn [mbind outcome_mbind]. exists d2, 0. split_and!; try done. right. split; [done|]. intros p. by rewrite Hc2, Hc1.
Qed.

(** Adding a port keeps the list well formed; either memory runs out and
    its ports are the same, or the port is added to them. *)
Theorem port_ranges_add_port_member dst port :
  wf_ranges dst -> 0 <= port <= 65535 -> cap dst < 2 ^ 60 ->
  exists dst' ret, port_ranges_add_port alloc_ok qsort uninit dst port = Ret (dst', ret) /\ wf_ranges dst' /\
    (ret = -1 /\ (forall p, covered p (used dst') <-> covered p (used dst)) \/
     ret = 0 /\ (forall p, covered p (used dst') <-> p = port \/ covered p (used dst))).
Proof.
  intros Hw Hp Hcap. unfold port_ranges_add_port, port_ranges_add_range.
  destruct (prep_insertion_spec dst 1 Hw ltac:(lia) Hcap) as (d1 & ok & -> & Hw1 & Hc1 & Hroom).
  cbn [mbind outcome_mbind]. destruct ok; cbn [negb]; [|by eauto 10].
  destruct (store_ranges_spec d1 [Range port port]) as (d2 & -> & Hw2 & Hc2); try done.
  { repeat constructor; simpl; lia. } { by apply Hroom. }
  cbn [mbind outcome_mbind]. exists d2, 0. split_and!; try done. right. split; [done|]. intros p.
  rewrite Hc2, Hc1. unfold covered. rewrite Exists_cons, Exists_nil. unfold in_range. simpl.
  assert (port <= p <= port <-> p = port) by lia. tauto.
Qed.

End Extension.

(** sorting by insertion, for the concrete runs *)
Definition range_le (a b : port_range) : Prop := rangecmp a b <= 0.
#[export] Instance range_le_dec : RelDecision range_le := fun a b => Z_le_dec (rangecmp a b) 0.
Definition isort (l : list port_range) : list port_range := merge_sort range_le l.

#[export] Instance range_le_total : Total range_le.
Proof.
  intros a b. unfold range_le, rangecmp.
  destruct (Z.eqb_spec (start a) (start b)), (Z.eqb_spec (start b) (start a)); lia.
Qed.

Lemma isort_ok : qsort_ok isort.
Proof. intros l. split; [apply merge_sort_Permutation|apply (Sorted_merge_sort range_le)]. Qed.

Definition messy : port_ranges :=
  Ranges 5 4 [Range 80 90; Range 22 22; Range 91 91; Range 85 100; Range 7 7] 0 0 PORT_RANGES_DIRTY.

Lemma messy_wf : wf_ranges messy.
Proof.
  split; [simpl; lia|done| |right; done]. repeat constructor; simpl; lia.
Qed.

Lemma port_ranges_normal_form_witness : (qsort_ok isort /\ wf_ranges messy) /\
  exists rs', UNDIRTIFY isort messy = Ret rs' /\ wf_ranges rs' /\ Sorted apart (used rs') /\
    (forall p, covered p (used rs') <-> covered p (used messy)) /\ nranges rs' <= nranges messy /\
    forall l, Sorted apart l -> Forall wf_range l -> (forall p, covered p l <-> covered p (used messy)) -> l = used rs'.
Proof. split; [split; [apply isort_ok|apply messy_wf]|exact (port_ranges_normal_form isort messy isort_ok messy_wf)]. Defined.

Lemma port_ranges_next_enumerates_witness : (qsort_ok isort /\ wf_ranges messy) /\
  exists rs' l, nexts isort (S (length l)) messy = Ret (rs', ((fun p => (1, Some p)) <$> l) ++ [(0, None)]) /\
    StronglySorted Z.lt l /\ (forall p, p ∈ l <-> covered p (used messy)) /\
    (forall p, covered p (used rs') <-> covered p (used messy)) /\ curr_range rs' = 0 /\ curr_port rs' = 0.
Proof.
  split; [split; [apply isort_ok|apply messy_wf]|].
  apply (port_ranges_next_enumerates isort messy isort_ok messy_wf); [done|reflexivity].
Defined.

Example messy_normal : UNDIRTIFY isort messy =
  Ret (Ranges 5 2 [Range 22 22; Range 80 100; Range 85 100; Range 91 91; Range 7 7] 0 0 0).
Proof. reflexivity. Qed.

Lemma port_ranges_add_ranges_union_witness : wf_ranges messy /\
  exists dst' ret, port_ranges_add_ranges (fun _ => true) isort (Range 0 0) messy messy = Ret (dst', ret) /\ wf_ranges dst' /\
    (ret = -1 /\ (forall p, covered p (used dst') <-> covered p (used messy)) \/
     ret = 0 /\ (forall p, covered p (used dst') <-> covered p (used messy) \/ covered p (used messy))).
Proof.
  split; [apply messy_wf|].
  exact (port_ranges_add_ranges_union (fun _ => true) isort (Range 0 0) isort_ok messy messy messy_wf messy_wf eq_refl eq_refl).
Defined.

Lemma port_ranges_add_port_member_witness : wf_ranges messy /\
  exists dst' ret, port_ranges_add_port (fun _ => true) isort (Range 0 0) messy 443 = Ret (dst', ret) /\ wf_ranges dst' /\
    (ret = -1 /\ (forall p, covered p (used dst') <-> covered p (used messy)) \/
     ret = 0 /\ (forall p, covered p (used dst') <-> p = 443 \/ covered p (used messy))).
Proof.
  split; [apply messy_wf|].
  apply (port_ranges_add_port_member (fun _ => true) isort (Range 0 0) isort_ok messy 443 messy_wf); [lia|reflexivity].
Defined.
(** ** Reordered iteration *)

Fixpoint r4_nexts (n : nat) (r4 : port_r4ranges) : outcome (port_r4ranges * list (Z * option Z)) :=
  match n with
  | O => Ret (r4, [])
  | S n =>
      '(r4, r) ← port_r4ranges_next r4;
      '(r4, l) ← r4_nexts n r4;
      Ret (r4, r :: l)
  end.

(** the ports [l] are left of the range of index [m] *)
Definition holds (blocks : list reorder32) (m : Z) (l : list Z) : Prop :=
  exists blk k fst nit ys, blocks !! Z.to_nat m = Some blk /\ Reorder.iterating k fst nit ys blk /\
    0 <= k <= 16 /\ 0 <= fst /\ 0 <= nit /\ fst + nit <= 65535 /\ l = (fun y => fst + y) <$> ys.

Lemma ports_holds_frame blocks m blk k r : k <> m -> 0 <= k -> 0 <= m -> holds blocks k r ->
  holds (<[Z.to_nat m := blk]> blocks) k r.
Proof.
  intros Hk H0 H1 (b & k' & f & n & ys & Hb & H). exists b, k', f, n, ys. split; [|done].
  rewrite list_lookup_insert_ne by lia. done.
Qed.

Definition r4_state (r4 : port_r4ranges) (rems : list (list Z)) : Prop :=
  turns holds (r4_blocks r4) (rangemap r4) (r4_nranges r4) (mapindex r4) rems.

(** a call gives one of the ports that are left, or starts all over *)
Lemma ports_r4_again_spec : forall fuel r4 rems, r4_state r4 rems -> (live (rangemap r4) < fuel)%nat ->
  (concat rems = [] /\ exists blocks map idx, 0 <= idx < r4_nranges r4 /\
     r4_again fuel r4 = (port_r4ranges_reset (R4 (r4_nranges r4) (r4_ranges r4) blocks map idx) ≫= fun r4 => Ret (r4, (0, None)))) \/
  exists r4' rems' x, concat rems ≡ₚ x :: concat rems' /\ r4_state r4' rems' /\ r4_nranges r4' = r4_nranges r4 /\
    r4_ranges r4' = r4_ranges r4 /\ r4_again fuel r4 = Ret (r4', (1, Some x)).
Proof.
  induction fuel as [|fuel IH]; intros r4 rems Hst Hf; [lia|]. pose proof Hst as [Hl Hidx Hs _]. cbn [r4_again].
  destruct (scan_map_spec (rangemap r4) (r4_nranges r4) (mapindex r4) Hl Hidx (Z.to_nat (r4_nranges r4)) 0)
    as (curr & m & E & Hc & Em & Hdead); [lia|lia|lia|].
  rewrite Z.add_0_r, Z.mod_small in E by lia. rewrite E. cbn [mbind outcome_mbind]. rewrite Em. cbn [mbind outcome_mbind].
  assert (Hm := Em). apply rd_ret in Hm as [_ Hm].
  destruct (Z.ltb_spec m 0) as [Hneg|Hpos].
  { destruct (Hdead Hneg) as [-> Hall]. rewrite Z.eqb_refl. cbn [andb]. left. split; [by eapply turns_over|].
    exists (r4_blocks r4), (rangemap r4), (mapindex r4). split; [done|]. by destruct r4. }
  rewrite andb_false_r. destruct (Forall2_lookup_l _ _ _ _ _ Hs Hm) as (rem & Hrem & Hsl).
  destruct Hsl as [[? _]|(_ & blk & k & fst & nit & ys & Hb & Hit & Hk & Hf0 & Hn0 & Hsum & Hrl)]; [lia|].
  assert (rd (r4_blocks r4) m = Ret blk) as -> by (by apply rd_ret). cbn [mbind outcome_mbind].
  assert (Hbl := lookup_lt_Some _ _ _ Hb). destruct ys as [|y ys].
  - rewrite (Reorder.next_end k fst nit blk) by (done || lia). cbn [mbind outcome_mbind].
    rewrite !wr_in by (unfold zlen in *; lia). cbn [mbind outcome_mbind]. change (0 =? 0) with true. cbv iota.
    cbn [mbind outcome_mbind]. set (blk' := reorder32_init fst (fst + nit)).
    assert (Hst' := turns_update holds (r4_blocks r4) (<[Z.to_nat m := blk']> (r4_blocks r4)) _ _ _ _ (Z.to_nat curr) m (-1) []
      Hst Hm Hpos (or_intror eq_refl) (or_introl (conj eq_refl eq_refl)) (fun k' r Hk' H0 => ports_holds_frame _ m blk' k' r Hk' H0 Hpos)).
    rewrite (list_insert_id rems), Z2Nat.id in Hst' by (lia || by rewrite Hrem, Hrl).
    apply (IH (R4 _ _ _ _ curr) _ Hst'). cbn [rangemap]. rewrite (live_kill _ _ m Hm Hpos) in Hf. lia.
  - destruct (Reorder.next_one k fst nit y ys blk (Z.to_nat 131072)) as (blk' & -> & Hit' & Hy); try done; try (unfold UINT32_MAX; lia).
    { pose proof (Z.pow_le_mono_r 2 k 16 ltac:(lia) ltac:(lia)). lia. }
    cbn [mbind outcome_mbind]. rewrite !wr_in by (unfold zlen in *; lia). cbn [mbind outcome_mbind].
    change (1 =? 0) with false. cbv iota. rewrite (uw_small 16) by lia. right.
    set (l' := (fun y => fst + y) <$> ys).
    assert (Hsl : slot holds (<[Z.to_nat m := blk']> (r4_blocks r4)) m l').
    { right. split; [done|]. exists blk', k, fst, nit, ys. split; [by apply list_lookup_insert_eq|done]. }
    assert (Hst' := turns_update holds (r4_blocks r4) (<[Z.to_nat m := blk']> (r4_blocks r4)) _ _ _ _ (Z.to_nat curr) m m l'
      Hst Hm Hpos (or_introl eq_refl) Hsl (fun k' r Hk' H0 => ports_holds_frame _ m blk' k' r Hk' H0 Hpos)).
    rewrite (list_insert_id (rangemap r4)), Z2Nat.id in Hst' by (done || lia).
    exists (R4 (r4_nranges r4) (r4_ranges r4) (<[Z.to_nat m := blk']> (r4_blocks r4)) (rangemap r4) curr), (<[Z.to_nat curr := l']> rems), (fst + y).
    split; [|done]. apply concat_insert_perm. by rewrite Hrem, Hrl.
Qed.

Lemma ports_block_holds rs m r : rs !! Z.to_nat m = Some r -> wf_range r -> 0 <= m ->
  exists l, holds ((fun r => reorder32_init (start r) (end_ r)) <$> rs) m l /\ l ≡ₚ range_ports r.
Proof.
  intros Hr Hw Hm. unfold wf_range in Hw.
  destruct (Reorder.init_iterating (start r) (end_ r)) as (k & ys & Hk & _ & Hlow & Hi & Hp); [lia|lia|].
  exists ((fun y => start r + y) <$> ys). split.
  - exists (reorder32_init (start r) (end_ r)), k, (start r), (end_ r - start r), ys.
    split_and!; try done; try lia.
    + by rewrite list_lookup_fmap, Hr.
    + destruct (Z_le_gt_dec k 16); [done|]. specialize (Hlow ltac:(lia)).
      pose proof (Z.pow_le_mono_r 2 16 (k - 1) ltac:(lia) ltac:(lia)). lia.
  - rewrite Hp, fmap_add_seqZ. unfold range_ports. by rewrite Z.add_0_r.
Qed.

Lemma ports_reset_spec r4 : 0 < r4_nranges r4 <= INT_MAX -> r4_nranges r4 <= zlen (r4_ranges r4) ->
  Forall wf_range (take (Z.to_nat (r4_nranges r4)) (r4_ranges r4)) -> 0 <= mapindex r4 < r4_nranges r4 ->
  exists r4' rems, port_r4ranges_reset r4 = Ret r4' /\ r4_state r4' rems /\
    concat rems ≡ₚ ports (take (Z.to_nat (r4_nranges r4)) (r4_ranges r4)) /\ r4_nranges r4' = r4_nranges r4 /\
    r4_ranges r4' = r4_ranges r4.
Proof.
  intros Hn Hlen Hw Hidx. set (n := r4_nranges r4) in *. unfold port_r4ranges_reset. fold n.
  destruct (map_loop_perm n Hn) as (map & -> & Hp). cbn [mbind outcome_mbind]. rewrite rds_in by lia. cbn [mbind outcome_mbind].
  change (Z.to_nat 0) with 0%nat. rewrite drop_0. set (rs := take (Z.to_nat n) (r4_ranges r4)) in *.
  assert (Hrs : zlen rs = n) by (unfold rs; zlen_simpl; lia).
  set (items := fun m => match rs !! Z.to_nat m with Some r => range_ports r | None => [] end).
  destruct (turns_start holds ((fun r => reorder32_init (start r) (end_ r)) <$> rs) map n (mapindex r4) items Hp Hidx) as (rems & Ht & Hc).
  { intros m Hm. destruct (lookup_lt_is_Some_2 rs (Z.to_nat m)) as [r Hr]; [unfold zlen in Hrs; lia|]. unfold items. rewrite Hr.
    apply (ports_block_holds rs m r Hr); [by eapply Forall_lookup_1|lia]. }
  eexists _, rems. split; [done|]. split; [done|]. split; [|done]. unfold ports. by rewrite Hc, (bind_indexed range_ports), Hrs.
Qed.

Definition r4_over (r4 : port_r4ranges) (rs : list port_range) : Prop :=
  r4_nranges r4 <= INT_MAX /\ r4_nranges r4 <= zlen (r4_ranges r4) /\
  take (Z.to_nat (r4_nranges r4)) (r4_ranges r4) = rs /\ Forall wf_range rs.

Lemma ports_r4_nexts_cons n r4 r4' r r4'' l : port_r4ranges_next r4 = Ret (r4', r) -> r4_nexts n r4' = Ret (r4'', l) ->
  r4_nexts (S n) r4 = Ret (r4'', r :: l).
Proof. intros E E'. cbn [r4_nexts]. rewrite E. cbn [mbind outcome_mbind]. by rewrite E'. Qed.

(** a whole iteration *)
Lemma ports_r4_nexts_spec rs : forall n r4 rems, r4_state r4 rems -> length (concat rems) = n -> r4_over r4 rs ->
  exists r4' rems' l, r4_nexts (S (length l)) r4 = Ret (r4', ((fun p => (1, Some p)) <$> l) ++ [(0, None)]) /\
    l ≡ₚ concat rems /\ r4_state r4' rems' /\ concat rems' ≡ₚ ports rs /\ r4_over r4' rs.
Proof.
  induction n as [|n IH]; intros r4 rems Hst Hn Hov; pose proof Hst as [Hl Hidx _ _]; pose proof Hov as (Hmax & Hlen & Hrs & Hw);
    (assert (Hlive : (live (rangemap r4) < S (Z.to_nat (r4_nranges r4)))%nat)
      by (pose proof (live_le (rangemap r4)); unfold zlen in Hl; lia));
    destruct (ports_r4_again_spec _ r4 rems Hst Hlive) as [(He & bl & mp & idx & Hi & Ea)|(r4' & rems' & x & Hp & Hst' & En & Eg & Ea)].
  - destruct (ports_reset_spec (R4 (r4_nranges r4) (r4_ranges r4) bl mp idx)) as (r4'' & rems'' & Er' & Hst'' & Hp'' & En & Eg);
      cbn [r4_nranges r4_ranges mapindex]; [lia|lia|by rewrite Hrs|lia|].
    cbn [r4_nranges r4_ranges] in Hp'', En, Eg. rewrite Hrs in Hp''.
    exists r4'', rems'', []. split_and!; [|by rewrite He|done|done|unfold r4_over; by rewrite En, Eg].
    cbn [r4_nexts length]. unfold port_r4ranges_next. rewrite (proj2 (Z.eqb_neq _ 0)) by lia.
    rewrite Ea, Er'. done.
  - rewrite Hp in Hn. done.
  - rewrite He in Hn. done.
  - rewrite Hp in Hn. injection Hn as Hn.
    destruct (IH r4' rems' Hst' Hn) as (r4'' & rems'' & l & E & Hpl & Hst'' & Hp'' & Hov''); [unfold r4_over; by rewrite En, Eg|].
    exists r4'', rems'', (x :: l). split_and!; [|by rewrite Hpl|done|done|done].
    cbn [length]. refine (ports_r4_nexts_cons _ _ r4' _ _ _ _ E). unfold port_r4ranges_next.
    by rewrite (proj2 (Z.eqb_neq _ 0)) by lia.
Qed.

(** normal lists have at most 2^15 ranges *)
Lemma normal_length rs : Sorted apart rs -> Forall wf_range rs -> zlen rs <= 32768.
Proof.
  intros Hs Hw. cut (forall r rs, Sorted apart (r :: rs) -> Forall wf_range (r :: rs) -> start r + 2 * zlen rs <= 65535).
  { intros H. destruct rs as [|r rs]; [zlen_simpl; lia|]. specialize (H r rs Hs Hw).
    apply Forall_cons in Hw as [Hr _]. unfold wf_range in Hr. zlen_simpl. lia. }
  clear. intros r rs. revert r. induction rs as [|r' rs IH]; intros r Hs Hw; apply Forall_cons in Hw as [Hr Hw]; unfold wf_range in Hr.
  { zlen_simpl. lia. }
  apply Sorted_inv in Hs as [Hs Ha]. apply HdRel_inv in Ha. unfold apart in Ha. specialize (IH r' Hs Hw).
  zlen_simpl. lia.
Qed.

Lemma ports_NoDup rs : Sorted apart rs -> Forall wf_range rs -> NoDup (ports rs).
Proof.
  intros Hs Hw. pose proof (ports_sorted rs Hs Hw) as H. induction H as [|x l H IH Hx]; constructor; [|done].
  intros Hin. rewrite Forall_forall in Hx. specialize (Hx x Hin). lia.
Qed.

(** C3: the reordered iteration over a well-formed list gives every port of
    the list exactly once and then reports the end, where it is set up again: a
    second iteration gives the same ports. *)
Theorem port_r4ranges_next_enumerates alloc_ok qsort rs r4_0 (Hq : qsort_ok qsort) (Hw : wf_ranges rs)
    (Ha : forall n, alloc_ok n = true) :
  exists r4 rs', port_r4ranges_init alloc_ok qsort r4_0 rs = Ret (r4, rs', 0) /\
    (forall p, covered p (used rs') <-> covered p (used rs)) /\
    exists r4' l, r4_nexts (S (length l)) r4 = Ret (r4', ((fun p => (1, Some p)) <$> l) ++ [(0, None)]) /\
      NoDup l /\ (forall p, p ∈ l <-> covered p (used rs)) /\
      exists r4'' l', r4_nexts (S (length l')) r4' = Ret (r4'', ((fun p => (1, Some p)) <$> l') ++ [(0, None)]) /\ l' ≡ₚ l.
Proof.
  destruct (undirtify_spec qsort rs Hq Hw) as (rs1 & E1 & Hw1 & _ & Hs1 & _ & _ & _ & _ & Hc1).
  pose proof (used_length rs1 Hw1) as Hul. pose proof Hw1 as [Hcnt Harr Hu _]. pose proof (normal_length _ Hs1 Hu) as Hmax.
  unfold port_r4ranges_init. rewrite E1. cbn [mbind outcome_mbind]. destruct (Z.eqb_spec (nranges rs1) 0) as [H0|H0]; cbn [orb].
  { eexists _, rs1. split; [done|]. split; [done|]. 
    eexists _, []. split; [cbn [r4_nexts length]; unfold port_r4ranges_next; cbn [r4_nranges]; by rewrite H0|].
    assert (used rs1 = []) as Hnil by (destruct (used rs1); [done|zlen_simpl; pose proof (zlen_nonneg l); lia]).
    split_and!; [apply NoDup_nil_2| |by eexists _, []]. intros p. rewrite <- Hc1, Hnil. unfold covered. by rewrite Exists_nil, elem_of_nil. }
  rewrite (proj2 (Z.ltb_ge INT_MAX _)) by (unfold INT_MAX; lia). cbv iota. rewrite !Ha. cbn [negb r4_blocks rangemap r4_ranges].
  set (r40 := R4 (nranges rs1) (ranges rs1) (r4_blocks r4_0) (rangemap r4_0) 0).
  destruct (ports_reset_spec r40) as (r41 & rems & -> & Hst & Hp & En & Eg); cbn [r40 r4_nranges r4_ranges mapindex];
    [unfold INT_MAX; lia|lia|done|lia|]. cbn [r40 r4_nranges r4_ranges] in Hp, En, Eg. fold (used rs1) in Hp.
  cbn [mbind outcome_mbind]. exists r41, rs1. split; [done|]. split; [done|].
  assert (Hov : r4_over r41 (used rs1)) by (unfold r4_over; rewrite En, Eg; unfold INT_MAX; split_and!; done || lia).
  destruct (ports_r4_nexts_spec (used rs1) _ r41 rems Hst eq_refl Hov) as (r42 & rems2 & l & E & Hl & Hst2 & Hp2 & Hov2).
  destruct (ports_r4_nexts_spec (used rs1) _ r42 rems2 Hst2 eq_refl Hov2) as (r43 & _ & l' & E' & Hl' & _).
  exists r42, l. split; [done|]. rewrite Hp in Hl. rewrite Hp2 in Hl'. split_and!.
  - rewrite Hl. by apply ports_NoDup.
  - intros p. by rewrite Hl, ports_covered, Hc1.
  - exists r43, l'. split; [done|]. by rewrite Hl, Hl'.
Qed.

Lemma port_r4ranges_next_enumerates_witness : (qsort_ok isort /\ wf_ranges messy) /\
  exists r4 rs', port_r4ranges_init (fun _ => true) isort (R4 0 [] [] [] 0) messy = Ret (r4, rs', 0) /\
    (forall p, covered p (used rs') <-> covered p (used messy)) /\
    exists r4' l, r4_nexts (S (length l)) r4 = Ret (r4', ((fun p => (1, Some p)) <$> l) ++ [(0, None)]) /\
      NoDup l /\ (forall p, p ∈ l <-> covered p (used messy)) /\
      exists r4'' l', r4_nexts (S (length l')) r4' = Ret (r4'', ((fun p => (1, Some p)) <$> l') ++ [(0, None)]) /\ l' ≡ₚ l.
Proof.
  split; [split; [apply isort_ok|apply messy_wf]|].
  exact (port_r4ranges_next_enumerates (fun _ => true) isort messy (R4 0 [] [] [] 0) isort_ok messy_wf (fun _ => eq_refl)).
Defined.

(** ** Parsing *)

(** the maximal runs of characters that are not separators, [cur] being the
    start of the first *)
Fixpoint tokens (cur s : bytes) : list bytes :=
  match s with
  | [] => if decide (cur = []) then [] else [cur]
  | ch :: s =>
      if IS_PORT_RANGE_SEP ch then (if decide (cur = []) then [] else [cur]) ++ tokens [] s
      else tokens (cur ++ [ch]) s
  end.

(** decimal digits that continue the number [n] *)
Fixpoint num_from (n : Z) (t : bytes) : option Z :=
  match t with
  | [] => Some n
  | ch :: t =>
      if (ch <? 48) || (57 <? ch) then None
      else if 65535 <? n * 10 + (ch - 48) then None else num_from (n * 10 + (ch - 48)) t
  end.

Definition port_num (t : bytes) : option Z := if decide (t = []) then None else num_from 0 t.

Definition ordered (s e : Z) : port_range := if e <? s then Range e s else Range s e.

(** ["port"] or ["port-port"] *)
Definition parse_token (t : bytes) : option port_range :=
  match list_find (fun ch => ch = 45) t with
  | None => n ← port_num t; Some (Range n n)
  | Some (i, _) =>
      s ← port_num (take i t);
      e ← port_num (drop (S i) t);
      Some (ordered s e)
  end.

Definition parse_list (s : bytes) : option (list port_range) := mapM parse_token (tokens [] s).

Lemma num_from_range t : forall n m, 0 <= n <= 65535 -> num_from n t = Some m -> 0 <= m <= 65535.
Proof.
  induction t as [|ch t IH]; simpl; intros n m Hn Hm; [by simplify_eq|].
  destruct ((ch <? 48) || _) eqn:?; [done|]. destruct (65535 <? _) eqn:?; [done|]. zbool.
  apply (IH (n * 10 + (ch - 48))); [lia|done].
Qed.

Lemma parse_token_wf t r : parse_token t = Some r -> wf_range r.
Proof.
  assert (Hp : forall t n, port_num t = Some n -> 0 <= n <= 65535).
  { intros t' n. unfold port_num. destruct (decide (t' = [])); [done|]. apply num_from_range. lia. }
  unfold parse_token, wf_range. destruct (list_find _ t) as [[i c]|].
  - destruct (port_num (take i t)) as [s|] eqn:Es; [|done]. destruct (port_num (drop (S i) t)) as [e|] eqn:Ee; [|done].
    simpl. intros [= <-]. apply Hp in Es, Ee. unfold ordered. destruct (Z.ltb_spec e s); simpl; lia.
  - destruct (port_num t) as [n|] eqn:En; [|done]. simpl. intros [= <-]. apply Hp in En. simpl. lia.
Qed.

(** *** The buffer of parsed ranges *)

Lemma buf_adata_never_fails alloc_ok b bs b' r : (forall n, alloc_ok n = true) ->
  buf_adata alloc_ok b bs = Ret (b', r) -> r = 0.
Proof.
  intros Ha. unfold buf_adata, buf_reserve, buf_grow. rewrite !Ha.
  repeat (case_match; cbn [mbind outcome_mbind fst snd] in *; try done); intros; simplify_eq; try done.
  all: repeat match goal with H : context [wrs ?a ?b ?c] |- _ => destruct (wrs a b c); cbn [mbind outcome_mbind] in H end; by simplify_eq.
Qed.

Definition packed (l : list port_range) : bytes := l ≫= range_bytes.

Lemma range_bytes_is_byte r : wf_range r -> Forall is_byte (range_bytes r).
Proof. intros Hr. unfold wf_range in Hr. unfold range_bytes, is_byte. repeat constructor; divmod_lia. Qed.

Lemma bytes_ranges_packed l rest : Forall wf_range l -> bytes_ranges (packed l ++ rest) = l ++ bytes_ranges rest.
Proof.
  induction 1 as [|[s e] l Hr _ IH]; [done|]. unfold wf_range in Hr. simpl in Hr.
  unfold packed in *. rewrite bind_cons, <- app_assoc. cbn [range_bytes app bytes_ranges start end_]. rewrite IH.
  do 2 f_equal; divmod_lia.
Qed.

Lemma bytes_ranges_length n : forall bs, zlen bs = 4 * Z.of_nat n -> zlen (bytes_ranges bs) = Z.of_nat n.
Proof.
  induction n as [|n IH]; intros bs Hb.
  - destruct bs; [done|]. zlen_simpl. pose proof (zlen_nonneg bs). lia.
  - destruct bs as [|a [|b [|c [|d bs]]]]; try (unfold zlen in Hb; simpl in Hb; lia).
    cbn [bytes_ranges]. zlen_simpl. rewrite IH by lia. lia.
Qed.

Lemma packed_length l : zlen (packed l) = 4 * zlen l.
Proof. unfold packed. induction l as [|r l IH]; [done|]. rewrite bind_cons. zlen_simpl. rewrite IH. unfold range_bytes. zlen_simpl. lia. Qed.

(** *** Tokens *)

Abbreviation no_dash := (Forall (fun ch : Z => ch <> 45)).

Lemma num_from_app a b : forall n, num_from n (a ++ b) = (num_from n a ≫= fun m => num_from m b).
Proof. induction a as [|ch a IH]; intros n; [done|]. cbn [app num_from]. repeat case_match; done || apply IH. Qed.

Lemma num_from_no_dash t : forall n m, num_from n t = Some m -> no_dash t.
Proof.
  induction t as [|ch t IH]; intros n m; cbn [num_from]; [by constructor|].
  destruct ((ch <? 48) || _) eqn:?; [done|]. destruct (65535 <? _); [done|]. zbool. intros Hm.
  constructor; [lia|by eapply IH].
Qed.

Lemma dash_split (x : bytes) : no_dash x \/ exists a b, x = a ++ 45 :: b /\ no_dash a.
Proof.
  induction x as [|ch x [IH|(a & b & -> & Ha)]]; [by left; constructor|..]; destruct (decide (ch = 45)) as [->|Hc].
  - right. by exists [], x.
  - left. by constructor.
  - right. by exists [], (a ++ 45 :: b).
  - right. exists (ch :: a), b. split; [done|]. by constructor.
Qed.

Lemma parse_token_plain t : no_dash t -> parse_token t = (n ← port_num t; Some (Range n n)).
Proof. intros H. unfold parse_token. by rewrite (proj2 (list_find_None _ _) H). Qed.

Lemma parse_token_dash a b : no_dash a -> parse_token (a ++ 45 :: b) =
  (s ← port_num a; e ← port_num b; Some (ordered s e)).
Proof.
  intros H. unfold parse_token.
  assert (list_find (fun ch => ch = 45) (a ++ 45 :: b) = Some (length a, 45)) as ->.
  { apply list_find_Some. split_and!; [by rewrite list_lookup_middle|done|].
    intros j y Hy Hj. rewrite lookup_app_l in Hy by done. by eapply (Forall_lookup_1 _ _ _ _ H). }
  rewrite take_app_length. replace (a ++ 45 :: b) with ((a ++ [45]) ++ b) by (by rewrite <- app_assoc).
  by rewrite (drop_app_length' (a ++ [45]) b) by (rewrite length_app; simpl; lia).
Qed.

(** a token that starts with what is neither a number nor a number and a dash *)
Lemma parse_token_bad a x : no_dash a -> a <> [] -> num_from 0 a = None -> parse_token (a ++ x) = None.
Proof.
  intros Ha Hne Hnum. assert (Hbad : forall y, port_num (a ++ y) = None).
  { intros y. unfold port_num. rewrite decide_False by (by destruct a). by rewrite num_from_app, Hnum. }
  destruct (dash_split x) as [Hx|(b & c & -> & Hb)].
  - rewrite parse_token_plain by (by apply Forall_app). by rewrite Hbad.
  - rewrite app_assoc, parse_token_dash by (by apply Forall_app). by rewrite Hbad.
Qed.

Lemma tokens_head s : forall cur, cur <> [] -> exists more rest, tokens cur s = (cur ++ more) :: rest.
Proof.
  induction s as [|ch s IH]; intros cur Hc; cbn [tokens].
  - rewrite decide_False by done. exists [], []. by rewrite app_nil_r.
  - destruct (IS_PORT_RANGE_SEP ch).
    + rewrite decide_False by done. exists [], (tokens [] s). by rewrite app_nil_r.
    + destruct (IH (cur ++ [ch])) as (more & rest & ->); [by destruct cur|].
      exists (ch :: more), rest. by rewrite <- app_assoc.
Qed.

Lemma tokens_bad s cur : cur <> [] -> (forall more, parse_token (cur ++ more) = None) -> mapM parse_token (tokens cur s) = None.
Proof. intros Hc Hb. destruct (tokens_head s cur Hc) as (more & rest & ->). cbn [mapM]. by rewrite Hb. Qed.

Lemma tokens_sep cur ch s : IS_PORT_RANGE_SEP ch = true -> cur <> [] ->
  mapM parse_token (tokens cur (ch :: s)) = (r ← parse_token cur; l ← parse_list s; Some (r :: l)).
Proof. intros Hs Hc. cbn [tokens]. rewrite Hs, decide_False by done. done. Qed.

(** ** The states of the parser *)

Definition matches (cur : bytes) (st : parser) : Prop :=
  match p_state st with
  | SKIP_SEP => cur = []
  | PARSE_LHS => cur <> [] /\ num_from 0 cur = Some (p_num st) /\ p_flags st = 1
  | PARSE_RHS => exists a b, cur = a ++ 45 :: b /\ port_num a = Some (p_start st) /\ num_from 0 b = Some (p_num st) /\
      p_flags st = (if decide (b = []) then 1 else 3)
  end.

Lemma port_num_some t n : port_num t = Some n -> t <> [] /\ num_from 0 t = Some n /\ no_dash t /\ 0 <= n <= 65535.
Proof.
  unfold port_num. destruct (decide (t = [])); [done|]. intros H. split_and!; try done; [by eapply num_from_no_dash| |];
    apply (num_from_range t 0 n); done || lia.
Qed.

Lemma num_from_step t ch n : num_from 0 t = Some n -> num_from 0 (t ++ [ch]) =
  if (ch <? 48) || (57 <? ch) then None else if 65535 <? n * 10 + (ch - 48) then None else Some (n * 10 + (ch - 48)).
Proof. intros H. rewrite num_from_app, H. done. Qed.

Lemma u32_num n ch : 0 <= n <= 65535 -> (ch <? 48) || (57 <? ch) = false -> u32 (n * 10 + (ch - 48)) = n * 10 + (ch - 48).
Proof. intros Hn Hc. zbool. apply uw_small. lia. Qed.

Definition rejected alloc_ok (cur : bytes) (st : parser) (ch : Z) : Prop :=
  parse_char alloc_ok st ch = Ret None /\ forall more, parse_token ((cur ++ [ch]) ++ more) = None.
Definition continued alloc_ok (cur : bytes) (st : parser) (ch : Z) : Prop :=
  exists st', parse_char alloc_ok st ch = Ret (Some st') /\ matches (cur ++ [ch]) st' /\ p_buf st' = p_buf st.

Lemma lhs_char alloc_ok cur num fl stt b ch : num_from 0 cur = Some num -> fl = (if decide (cur = []) then 0 else 1) ->
  IS_PORT_RANGE_SEP ch = false ->
  rejected alloc_ok cur (Parser PARSE_LHS num fl stt b) ch \/ continued alloc_ok cur (Parser PARSE_LHS num fl stt b) ch.
Proof.
  intros Hnum Hfl Hs. assert (Hr := num_from_range cur 0 num ltac:(lia) Hnum). pose proof (num_from_no_dash cur 0 num Hnum) as Hnd.
  pose proof (num_from_step cur ch num Hnum) as Hst. unfold rejected, continued, parse_char.
  cbn [p_state p_num p_flags p_start p_buf]. rewrite Hs, orb_false_r. destruct (Z.eqb_spec ch 45) as [->|Hne].
  - destruct (decide (cur = [])) as [->|Hc]; rewrite Hfl.
    + left. split; [done|]. intros more. change (([] ++ [45]) ++ more) with ([] ++ 45 :: more).
      by rewrite parse_token_dash.
    + right. eexists. split; [done|]. split; [|done]. exists cur, []. cbn [p_start p_num p_flags]. rewrite (uw_small 16) by lia.
      split_and!; try done. unfold port_num. by rewrite decide_False.
  - destruct ((ch <? 48) || (57 <? ch)) eqn:Ed.
    { left. split; [done|]. intros more. apply parse_token_bad; [|by destruct cur|done]. apply Forall_app. by repeat constructor. }
    rewrite (u32_num num ch Hr Ed). destruct (65535 <? num * 10 + (ch - 48)).
    { left. split; [done|]. intros more. apply parse_token_bad; [|by destruct cur|done]. apply Forall_app. by repeat constructor. }
    right. eexists. split; [done|]. split; [|done]. split_and!; [by destruct cur|done|]. cbn [p_flags]. rewrite Hfl. by case_decide.
Qed.

Lemma rhs_char alloc_ok a b num fl stt bf ch : port_num a = Some stt -> num_from 0 b = Some num ->
  fl = (if decide (b = []) then 1 else 3) -> IS_PORT_RANGE_SEP ch = false ->
  rejected alloc_ok (a ++ 45 :: b) (Parser PARSE_RHS num fl stt bf) ch \/
  continued alloc_ok (a ++ 45 :: b) (Parser PARSE_RHS num fl stt bf) ch.
Proof.
  intros Ha Hnum Hfl Hs. assert (Hr := num_from_range b 0 num ltac:(lia) Hnum).
  pose proof (num_from_step b ch num Hnum) as Hst. pose proof (port_num_some a stt Ha) as (_ & _ & Hnd & _).
  assert (Hbad : num_from 0 (b ++ [ch]) = None -> forall more, parse_token (((a ++ 45 :: b) ++ [ch]) ++ more) = None).
  { intros Hn more. rewrite <- !app_assoc. cbn [app]. rewrite parse_token_dash, Ha by done. cbn [mbind option_bind].
    unfold port_num. rewrite decide_False by (by destruct b). change (ch :: more) with ([ch] ++ more).
    by rewrite app_assoc, num_from_app, Hn. }
  unfold rejected, continued, parse_char. cbn [p_state p_num p_flags p_start p_buf]. rewrite Hs.
  destruct ((ch <? 48) || (57 <? ch)) eqn:Ed; [left; auto|].
  rewrite (u32_num num ch Hr Ed). destruct (65535 <? num * 10 + (ch - 48)); [left; auto|].
  right. eexists. split; [done|]. split; [|done]. exists a, (b ++ [ch]). cbn [p_start p_num p_flags]. split_and!; try done.
  - by rewrite <- app_assoc.
  - rewrite Hfl, (decide_False (P := b ++ [ch] = [])) by (by destruct b). by case_decide.
Qed.

(** a character that is no separator extends the token or cannot be part of one *)
Lemma char_other alloc_ok cur st ch : matches cur st -> IS_PORT_RANGE_SEP ch = false ->
  rejected alloc_ok cur st ch \/ continued alloc_ok cur st ch.
Proof.
  intros Hm Hs. destruct st as [[] num fl stt b]; unfold matches in Hm; cbn [p_state p_num p_flags p_start p_buf] in *.
  - subst cur. destruct (lhs_char alloc_ok [] 0 0 stt b ch eq_refl eq_refl Hs) as [[Hp Hb]|(st' & Hp & Hst & Hb)];
      [left|right; exists st']; (split; [|done]); rewrite <- Hp; unfold parse_char; cbn [p_state p_start p_buf]; by rewrite Hs.
  - destruct Hm as (Hc & Hn & Hf). apply lhs_char; [done| |done]. by rewrite decide_False.
  - destruct Hm as (a & b' & -> & Ha & Hn & Hf). by apply rhs_char.
Qed.

(** the end of a token: its range is appended, or there is none *)
Lemma char_sep alloc_ok cur st ch : matches cur st -> cur <> [] -> IS_PORT_RANGE_SEP ch = true ->
  match parse_token cur with
  | None => parse_char alloc_ok st ch = Ret None /\ parse_last alloc_ok st = Ret None
  | Some r => exists num fl, parse_char alloc_ok st ch =
        ('(b, _) ← buf_adata alloc_ok (p_buf st) (range_bytes r); Ret (Some (Parser SKIP_SEP num fl 0 b))) /\
      parse_last alloc_ok st = ('(b, _) ← buf_adata alloc_ok (p_buf st) (range_bytes r); Ret (Some b))
  end.
Proof.
  intros Hm Hc Hs. destruct st as [[] num fl stt b]; unfold matches in Hm; cbn [p_state p_num p_flags p_start p_buf] in *; [done|..].
  - destruct Hm as (_ & Hn & Hf). assert (Hr := num_from_range cur 0 num ltac:(lia) Hn).
    rewrite parse_token_plain by (by eapply num_from_no_dash). unfold port_num. rewrite decide_False, Hn by done. cbn [mbind option_bind].
    exists num, fl. unfold parse_char, parse_last, add_parsed. cbn [p_state p_num p_flags p_start p_buf]. rewrite Hs, orb_true_r, (uw_small 16), Z.ltb_irrefl by lia.
    assert ((ch =? 45) = false) as ->. { apply Z.eqb_neq. intros ->. done. }
    destruct (buf_adata _ _ _) as [[? ?]| |]; done.
  - destruct Hm as (a & b' & -> & Ha & Hn & Hf). pose proof (port_num_some a stt Ha) as (_ & _ & Hnd & _).
    assert (Hr := num_from_range b' 0 num ltac:(lia) Hn).
    rewrite parse_token_dash, Ha by done. cbn [mbind option_bind]. unfold parse_char, parse_last, add_parsed, port_num.
    cbn [p_state p_num p_flags p_start p_buf]. rewrite Hs, Hf. destruct (decide (b' = [])) as [->|Hb]; [done|]. rewrite Hn. cbn [mbind option_bind].
    exists num, 3. change (flag_set 3 PORT_RANGE_HAS_RHS) with true. cbn [negb]. rewrite (uw_small 16) by lia. fold (ordered stt num).
    destruct (buf_adata _ _ _) as [[? ?]| |]; done.
Qed.

Section Parsing.
Context (alloc_ok : Z -> bool) (Hok : forall n, alloc_ok n = true).

Lemma append_parsed K b acc r : fits K b -> contents b = packed acc -> wf_range r -> 2 * (4 * zlen acc + 4) + 16 <= K ->
  exists b', buf_adata alloc_ok b (range_bytes r) = Ret (b', 0) /\ fits K b' /\ contents b' = packed (acc ++ [r]).
Proof.
  intros Hb Hc Hr HK. destruct (buf_adata_fits alloc_ok K b (range_bytes r) Hb (range_bytes_is_byte r Hr)) as (b' & ret & E & Hb' & H).
  - rewrite <- (contents_length b) by apply Hb. rewrite Hc, packed_length. change (zlen (range_bytes r)) with 4. lia.
  - pose proof (buf_adata_never_fails alloc_ok b _ b' ret Hok E). subst ret. destruct H as [[_ H]|[? _]]; [|done].
    exists b'. split; [done|]. split; [done|]. rewrite H, Hc. unfold packed. by rewrite bind_app.
Qed.

(** the rest of the string is parsed from any state *)
Lemma parse_loop_spec K : forall s off cur st acc, matches cur st -> fits K (p_buf st) -> contents (p_buf st) = packed acc ->
  8 * (zlen acc + zlen s + 1) + 16 <= K ->
  match mapM parse_token (tokens cur s) with
  | Some l => exists st' b, parse_loop alloc_ok s off st = Ret (inr st') /\ parse_last alloc_ok st' = Ret (Some b) /\
      fits K b /\ contents b = packed (acc ++ l)
  | None => (exists st', parse_loop alloc_ok s off st = Ret (inr st') /\ parse_last alloc_ok st' = Ret None) \/
      exists off', parse_loop alloc_ok s off st = Ret (inl off') /\ off <= off' < off + zlen s
  end.
Proof.
  induction s as [|ch s IH]; intros off cur st acc Hm Hb Hc HK; pose proof (zlen_nonneg acc).
  - cbn [tokens parse_loop]. destruct (decide (cur = [])) as [->|Hcur].
    + cbn [mapM option_ret mret]. exists st, (p_buf st). rewrite app_nil_r. split_and!; try done.
      destruct st as [[] num fl stt b]; unfold matches in Hm; cbn [p_state p_num p_flags p_start p_buf] in *; try done; [by destruct Hm|].
      destruct Hm as (a & b' & E & _). by destruct a.
    + pose proof (char_sep alloc_ok cur st 32 Hm Hcur eq_refl) as H1. cbn [mapM].
      destruct (parse_token cur) as [r|] eqn:Er; cbn [mbind option_bind mret option_ret mapM]; [|left; exists st; tauto].
      destruct H1 as (_ & _ & _ & E). destruct (append_parsed K (p_buf st) acc r Hb Hc) as (b' & E' & Hb' & Hc');
        [by eapply parse_token_wf|zlen_simpl; lia|]. rewrite E' in E. exists st, b'. done.
  - cbn [parse_loop]. zlen_simpl. pose proof (zlen_nonneg s). destruct (IS_PORT_RANGE_SEP ch) eqn:Hs.
    + destruct (decide (cur = [])) as [->|Hcur].
      { assert (p_state st = SKIP_SEP) as Hst.
        { destruct st as [[] num fl stt b]; unfold matches in Hm; cbn [p_state] in *; [done|by destruct Hm|].
          destruct Hm as (a & b' & E & _). by destruct a. }
        unfold parse_char. rewrite Hst, Hs. cbn [mbind outcome_mbind tokens]. rewrite Hs, decide_True by done. cbn [app].
        specialize (IH (off + 1) [] st acc Hm Hb Hc ltac:(lia)). destruct (mapM _ _); [done|].
        destruct IH as [?|(o & ? & ?)]; [by left|right; exists o; split; [done|lia]]. }
      rewrite (tokens_sep cur ch s Hs Hcur). pose proof (char_sep alloc_ok cur st ch Hm Hcur Hs) as H1.
      destruct (parse_token cur) as [r|] eqn:Er; cbn [mbind option_bind].
      2: { destruct H1 as [-> _]. right. exists off. split; [done|lia]. }
      destruct H1 as (num & fl & E & _). rewrite E.
      destruct (append_parsed K (p_buf st) acc r Hb Hc) as (b' & -> & Hb' & Hc'); [by eapply parse_token_wf|lia|].
      cbn [mbind outcome_mbind]. specialize (IH (off + 1) [] (Parser SKIP_SEP num fl 0 b') (acc ++ [r]) eq_refl Hb' Hc' ltac:(zlen_simpl; lia)).
      unfold parse_list. destruct (mapM _ _) as [l|]; cbn [mbind option_bind].
      * rewrite <- app_assoc in IH. exact IH.
      * destruct IH as [?|(o & ? & ?)]; [by left|right; exists o; split; [done|lia]].
    + cbn [tokens]. rewrite Hs. assert (Hne : cur ++ [ch] <> []) by (by destruct cur).
      destruct (char_other alloc_ok cur st ch Hm Hs) as [[-> Hbad]|(st' & -> & Hm' & Hbuf)]; cbn [mbind outcome_mbind].
      * rewrite (tokens_bad s _ Hne Hbad). right. exists off. split; [done|lia].
      * specialize (IH (off + 1) (cur ++ [ch]) st' acc Hm'). rewrite Hbuf in IH. specialize (IH Hb Hc ltac:(lia)).
        destruct (mapM _ _); [done|]. destruct IH as [?|(o & ? & ?)]; [by left|right; exists o; split; [done|lia]].
Qed.

Lemma initial_buffer : exists b, buf_init alloc_ok 1024 = Some b /\ contents b = [] /\ wf b /\ Buf.cap b = 1024.
Proof.
  unfold buf_init. rewrite Hok. change (buf_align_offset 1024) with 1024. eexists. split_and!; [done|done| |done].
  split; cbn [len Buf.cap data]; [lia|by rewrite zlen_replicate|by exists 128|]. apply Forall_replicate. unfold is_byte. lia.
Qed.

(** the list made of a filled buffer *)
Lemma ranges_of_buffer b l : wf b -> contents b = packed l -> Forall wf_range l -> l <> [] ->
  let rs := MARK_DIRTY (Ranges (Buf.cap b / 4) (len b / 4) (bytes_ranges (data b)) 0 0 0) in
  4 <= len b /\ used rs = l /\ wf_ranges rs.
Proof.
  intros Hb Hc Hl Hne rs. pose proof Hb as [Hlen Hdata Hal _]. pose proof (contents_length b Hb) as Hcl.
  rewrite Hc, packed_length in Hcl. assert (0 < zlen l) by (destruct l; [done|zlen_simpl; pose proof (zlen_nonneg l); lia]).
  assert (E4 : len b / 4 = zlen l) by divmod_lia.
  assert (Ed : data b = packed l ++ drop (Z.to_nat (len b)) (data b)) by (rewrite <- Hc; symmetry; apply take_drop).
  assert (Hused : used rs = l).
  { unfold rs, used, MARK_DIRTY. cbn [nranges ranges]. rewrite E4, Ed, bytes_ranges_packed by done.
    apply take_app_length'. unfold zlen. lia. }
  split; [lia|]. split; [done|]. destruct Hal as [k Hk]. unfold BUF_ALIGNMENT in Hk. split.
  - cbn [rs nranges cap MARK_DIRTY]. rewrite E4. divmod_lia.
  - cbn [rs ranges cap MARK_DIRTY]. rewrite (bytes_ranges_length (Z.to_nat (2 * k))); [divmod_lia|lia].
  - by rewrite Hused.
  - right. split; [done|]. cbn [rs nranges MARK_DIRTY]. lia.
Qed.

Lemma parse_list_wf s l : parse_list s = Some l -> Forall wf_range l.
Proof.
  unfold parse_list. intros H%mapM_Some. induction H as [|t r ts l Ht _ IH]; [done|].
  constructor; [by eapply parse_token_wf|done].
Qed.

(** C28: when memory does not run out, a string is parsed exactly when each of
    its elements, the runs of characters between separators, is a port or two
    ports with a dash between them; the ranges are those elements in the
    order of the string, the ends of each in increasing order. A string that
    is not one fails, at an offset in the string. *)
Theorem port_ranges_from_str_parses s : zlen s < 2 ^ 56 ->
  match parse_list s with
  | Some l => exists rs, port_ranges_from_str alloc_ok (Some s) = Ret (inr rs) /\ used rs = l /\ wf_ranges rs /\
      curr_range rs = 0 /\ curr_port rs = 0
  | None => exists off, port_ranges_from_str alloc_ok (Some s) = Ret (inl (Some off)) /\ 0 <= off <= zlen s
  end.
Proof.
  intros Hlen. assert (Hempty : wf_ranges empty_ranges) by (split; simpl; try done; left; split; [done|constructor]).
  destruct s as [|ch s']; [by exists empty_ranges|]. set (s := ch :: s') in *.
  destruct initial_buffer as (b0 & E0 & Hc0 & Hb0 & Hcap0). pose proof (zlen_nonneg s).
  assert (Hf0 : fits (2 ^ 60) b0) by (split; [done|lia]).
  pose proof (parse_loop_spec (2 ^ 60) s 0 [] (Parser SKIP_SEP 0 0 0 b0) [] eq_refl Hf0 Hc0 ltac:(zlen_simpl; lia)) as HL.
  unfold port_ranges_from_str. fold s. change (256 * 4) with 1024. rewrite E0. unfold parse_list in *.
  destruct (mapM parse_token (tokens [] s)) as [l|] eqn:El.
  - destruct HL as (st & b & -> & E2 & (Hb & _) & Hc). cbn [mbind outcome_mbind]. rewrite E2. cbn [mbind outcome_mbind app] in *.
    pose proof (parse_list_wf s l El) as Hl. destruct (decide (l = [])) as [->|Hne].
    + exists empty_ranges. pose proof (contents_length b Hb) as Hcl. rewrite Hc in Hcl. change (zlen (packed [])) with 0 in Hcl.
      by rewrite (proj2 (Z.leb_gt _ _)) by lia.
    + destruct (ranges_of_buffer b l Hb Hc Hl Hne) as (H4 & Hu & Hw). rewrite (proj2 (Z.leb_le _ _)) by done. by eexists.
  - destruct HL as [(st & -> & E2)|(off & -> & Hoff)]; cbn [mbind outcome_mbind].
    + rewrite E2. exists (zlen s). split; [done|lia].
    + exists off. split; [done|lia].
Qed.

End Parsing.

Lemma port_ranges_from_str_parses_witness : zlen (lit "443, 90-80") < 2 ^ 56 /\
  exists rs, port_ranges_from_str (fun _ => true) (Some (lit "443, 90-80")) = Ret (inr rs) /\ used rs = [Range 443 443; Range 80 90] /\
    wf_ranges rs /\ curr_range rs = 0 /\ curr_port rs = 0.
Proof. split; [reflexivity|]. exact (port_ranges_from_str_parses (fun _ => true) (fun _ => eq_refl) (lit "443, 90-80") eq_refl). Defined.
