(* ===== verification/Ip.v ===== *)
(** * Addresses and blocks of addresses (src/lib/net/ip.c)

    Addresses are compared and added to as the big-endian numbers their bytes
    are; blocks are ranges of them, kept sorted and merged, and iterated.
    The resolver ([getaddrinfo], [getnameinfo]) and [qsort] are parameters. *)

From stdpp Require Import sorting.
From Stdlib Require Import Sorted.
From S2P Require Import Prelude CLib Buf Reorder.

Definition AF_UNSPEC : Z := 0.
Definition AF_INET : Z := 2.
Definition AF_INET6 : Z := 28.
Definition EAI_FAMILY : Z := 5.
Definition EAI_MEMORY : Z := 6.
Definition EAI_NONAME : Z := 8.
Definition EAI_OVERFLOW : Z := 14.

(** the union of socket addresses: 4 or 16 bytes in network order, and the
    zone of an IPv6 address; an address of another family is its family *)
Inductive ip_addr_t : Type :=
  | Inet (addr : bytes)
  | Inet6 (addr : bytes) (scope_id : Z)
  | Family (f : Z).

Definition sa_family (a : ip_addr_t) : Z :=
  match a with Inet _ => AF_INET | Inet6 _ _ => AF_INET6 | Family f => f end.

Record ip_block_t : Type := Block {
  first : ip_addr_t;
  last : ip_addr_t;
}.

(** [nblocks] is the length of [blocks] *)
Record ip_blocks : Type := Blocks {
  blocks : list ip_block_t;
  curr_block : Z;
  curr_addr : ip_addr_t;
}.

Definition ip_blocks_reset (blks : ip_blocks) : ip_blocks :=
  Blocks (blocks blks) 0 (Family AF_UNSPEC).

Definition ip_addr_eqtype (a1 a2 : ip_addr_t) : bool := sa_family a1 =? sa_family a2.

(** a result, or the error stored in [err], if one is *)
Abbreviation result A := (option Z + A)%type.

Definition YANS_IP_ADDR_MAXLEN : nat := 512.
Definition spaces : bytes := [32; 9; 13; 10].

(** [getaddrinfo] gives a list of addresses or an error *)
Definition ip_addr (getaddrinfo : bytes -> Z + list ip_addr_t) (s : bytes) : result ip_addr_t :=
  let addrbuf := take (YANS_IP_ADDR_MAXLEN - 1) s in
  let start := drop (strspn addrbuf spaces) addrbuf in
  let start := take (strcspn start spaces) start in
  match getaddrinfo start with
  | inl ret => inl (Some ret)
  | inr ai =>
      match list_find (fun a => sa_family a = AF_INET \/ sa_family a = AF_INET6) ai with
      | Some (_, a) => inr a
      | None => inl None
      end
  end.

Definition ip_addr_str (getnameinfo : ip_addr_t -> Z -> Z + bytes) (addr : ip_addr_t) (dstlen : Z) :
    result bytes :=
  if (sa_family addr =? AF_INET) || (sa_family addr =? AF_INET6) then
    match getnameinfo addr dstlen with
    | inl ret => inl (Some ret)
    | inr s => inr s
    end
  else inl (Some EAI_FAMILY).

(** the result, and the error stored in [err], if one is *)
Definition ip_addr_cmp (a1 a2 : ip_addr_t) : Z * option Z :=
  match a1, a2 with
  | Inet _, Inet6 _ _ => (-1, None)
  | Inet6 _ _, Inet _ => (1, None)
  | Inet x, Inet y => (memcmp x y, None)
  | Inet6 x _, Inet6 y _ => (memcmp x y, None)
  | _, _ => (-1, Some EAI_FAMILY)
  end.

(** [s6_addr32] in host order *)
Definition words (addr : bytes) : list Z :=
  [be_val (take 4 addr); be_val (take 4 (drop 4 addr)); be_val (take 4 (drop 8 addr)); be_val (drop 12 addr)].
Definition of_words (ws : list Z) : bytes := ws ≫= be_bytes 4.

(** the loop from the last word to the first one, with its carry *)
Fixpoint add_words (ws ext : list Z) : list Z * Z :=
  match ws, ext with
  | w :: ws, e :: ext =>
      let '(r, acc) := add_words ws ext in
      let acc := u64 (w + e + acc) in
      (u32 acc :: r, Z.shiftr acc 32)
  | _, _ => ([], 0)
  end.

Definition ip_addr_add_ipv6 (addr : bytes) (n : Z) : bytes :=
  let ext := if n <? 0 then [0xffffffff; 0xffffffff; 0xffffffff; u32 n] else [0; 0; 0; u32 n] in
  of_words (add_words (words addr) ext).1.

Definition ip_addr_add (addr : ip_addr_t) (n : Z) : ip_addr_t :=
  match addr with
  | Inet a => Inet (be_bytes 4 (u32 (be_val a + u32 n)))
  | Inet6 a s => Inet6 (ip_addr_add_ipv6 a n) s
  | Family f => Family f
  end.

Definition ip_addr_sub (addr : ip_addr_t) (n : Z) : ip_addr_t := ip_addr_add addr (i32 (- n)).

(** [htonl(~((1<<bits)-1))] *)
Definition mask_word (bits : Z) : Z := u32 (Z.lnot (i32 (i32 (Z.shiftl 1 bits) - 1))).

Definition ip6_netmask (prefixlen : Z) : bytes :=
  let prefixlen := if 128 <? prefixlen then 128 else prefixlen in
  let nset := prefixlen / 32 in
  let nsetmod := prefixlen mod 32 in
  of_words ((fun i => if i <? nset then 0xffffffff
                      else if (i =? nset) && negb (nsetmod =? 0) then mask_word (32 - nsetmod)
                      else 0) <$> [0; 1; 2; 3]).

(** the bitwise operations on words of either byte order, byte by byte *)
Definition clearbits (addr mask : bytes) : bytes := zip_with Z.land addr mask.
Definition setbits (addr mask : bytes) : bytes := zip_with (fun a m => Z.lor a (255 - m)) addr mask.

Definition ip6_block_mask (first last : bytes) (prefixlen : Z) : bytes * bytes :=
  let mask := ip6_netmask prefixlen in
  (clearbits first mask, setbits last mask).

Definition ip4_netmask (prefixlen : Z) : bytes :=
  if prefixlen =? 0 then be_bytes 4 0
  else if 32 <? prefixlen then be_bytes 4 0xffffffff
  else be_bytes 4 (mask_word (32 - prefixlen)).

Definition ip4_block_mask (first last : bytes) (prefixlen : Z) : bytes * bytes :=
  let mask := ip4_netmask prefixlen in
  (clearbits first mask, setbits last mask).

Definition ip_block_cidr (getaddrinfo : bytes -> Z + list ip_addr_t) (addrstr plenstr : bytes) :
    result ip_block_t :=
  match ip_addr getaddrinfo addrstr with
  | inl e => inl e
  | inr addr =>
      let '(prefixlen, rest) := strtoul plenstr in
      if negb (bool_decide (rest = [])) then inl (Some EAI_NONAME)
      else
        match addr with
        | Inet a =>
            if 32 <? prefixlen then inl (Some EAI_NONAME)
            else let '(f, l) := ip4_block_mask a a (u32 prefixlen) in inr (Block (Inet f) (Inet l))
        | Inet6 a s =>
            if 128 <? prefixlen then inl (Some EAI_NONAME)
            else let '(f, l) := ip6_block_mask a a (u32 prefixlen) in inr (Block (Inet6 f s) (Inet6 l s))
        | Family _ => inl (Some EAI_NONAME)
        end
  end.

Definition ip_block_from_addrs (a1 a2 : ip_addr_t) : result ip_block_t :=
  if negb (sa_family a1 =? sa_family a2) then inl (Some EAI_FAMILY)
  else
    match ip_addr_cmp a1 a2 with
    | (_, Some lerr) => inl (Some lerr)
    | (cmp, None) => if cmp <? 0 then inr (Block a1 a2) else inr (Block a2 a1)
    end.

Definition ip_block_range (getaddrinfo : bytes -> Z + list ip_addr_t) (first last : bytes) :
    result ip_block_t :=
  match ip_addr getaddrinfo first with
  | inl e => inl e
  | inr a1 =>
      match ip_addr getaddrinfo last with
      | inl e => inl e
      | inr a2 => ip_block_from_addrs a1 a2
      end
  end.

Definition ip_block_from_str (getaddrinfo : bytes -> Z + list ip_addr_t) (s : bytes) : result ip_block_t :=
  let addrbuf := take (YANS_IP_ADDR_MAXLEN - 1) s in
  match strchr addrbuf 47 with
  | Some i => ip_block_cidr getaddrinfo (take i addrbuf) (drop (S i) addrbuf)
  | None =>
      match strchr addrbuf 45 with
      | Some i => ip_block_range getaddrinfo (take i addrbuf) (drop (S i) addrbuf)
      | None =>
          match ip_addr getaddrinfo addrbuf with
          | inl e => inl e
          | inr a => inr (Block a a)
          end
      end
  end.

(** [while (!(buf & 1))], on a byte that is not zero *)
Fixpoint low_zeros (fuel : nat) (buf nbits : Z) : Z :=
  match fuel with
  | O => nbits
  | S fuel => if Z.land buf 1 =? 0 then low_zeros fuel (Z.shiftr buf 1) (nbits + 1) else nbits
  end.

(** the loop over the bytes from the last one *)
Fixpoint prefixlen_loop (rev_data : bytes) (nbits : Z) : Z :=
  match rev_data with
  | [] => nbits
  | curr :: r => if curr =? 0 then prefixlen_loop r (nbits + 8) else low_zeros 8 curr nbits
  end.

Definition calc_prefixlen (data : bytes) : Z := zlen data * 8 - prefixlen_loop (rev data) 0.

Definition ip_block_netmask (addr netmask : ip_addr_t) : result ip_block_t :=
  match addr, netmask with
  | Inet a, Inet m =>
      let '(f, l) := ip4_block_mask a a (u32 (calc_prefixlen m)) in inr (Block (Inet f) (Inet l))
  | Inet6 a s, Inet6 m _ =>
      let '(f, l) := ip6_block_mask a a (u32 (calc_prefixlen m)) in inr (Block (Inet6 f s) (Inet6 l s))
  | _, _ => inl (Some EAI_FAMILY)
  end.

Definition ip_block_contains (blk : ip_block_t) (addr : ip_addr_t) : Z :=
  if ip_addr_eqtype (first blk) (last blk) && ip_addr_eqtype (first blk) addr &&
     ((ip_addr_cmp addr (last blk)).1 <=? 0) && (0 <=? (ip_addr_cmp addr (first blk)).1)
  then 1 else 0.

(** the string written to [dst] *)
Definition ip_block_to_str (getnameinfo : ip_addr_t -> Z -> Z + bytes) (blk : ip_block_t) (dstlen : Z) :
    result bytes :=
  match ip_addr_str getnameinfo (first blk) dstlen with
  | inl e => inl e
  | inr s =>
      if (ip_addr_cmp (first blk) (last blk)).1 =? 0 then inr s
      else
        let left := dstlen - zlen s in
        if left <? 2 then inl (Some EAI_OVERFLOW)
        else
          match ip_addr_str getnameinfo (last blk) (left - 1) with
          | inl e => inl e
          | inr t => inr (s ++ [45] ++ t)
          end
  end.

Definition IS_IP_BLOCKS_SEP (x : Z) : bool :=
  (x =? 13) || (x =? 10) || (x =? 9) || (x =? 32) || (x =? 44).

(** appends the block that the bytes [start .. end - 1] of [s] are *)
Definition cons_block (getaddrinfo : bytes -> Z + list ip_addr_t) (realloc_ok : Z -> bool)
    (blks : list ip_block_t) (s : bytes) (start end_ : nat) : result (list ip_block_t) :=
  let len := (end_ - start)%nat in
  let len := if (256 <=? len)%nat then 255%nat else len in
  match ip_block_from_str getaddrinfo (take len (drop start s)) with
  | inl e => inl e
  | inr blk => if realloc_ok (zlen blks + 1) then inr (blks ++ [blk]) else inl (Some EAI_MEMORY)
  end.

Definition blockcmp (b0 b1 : ip_block_t) : Z :=
  let ret := (ip_addr_cmp (first b0) (first b1)).1 in
  if ret =? 0 then (ip_addr_cmp (last b0) (last b1)).1 else ret.

Definition diff_zones (c n : ip_block_t) : bool :=
  match first c, first n with
  | Inet6 _ s, Inet6 _ t => negb (s =? t)
  | _, _ => false
  end.

(** the loop over [next], on the array of [nblocks] blocks; the array's
    content, and the number of blocks *)
Fixpoint compress_loop (fuel : nat) (arr : list ip_block_t) (nblocks curr next : Z) :
    outcome (list ip_block_t * Z) :=
  match fuel with
  | O => OutOfFuel
  | S fuel =>
      if negb (next <? nblocks) then Ret (arr, curr + 1)
      else
        c ← rd arr curr;
        n ← rd arr next;
        if negb (diff_zones c n) && (sa_family (first c) =? sa_family (first n)) &&
           (0 <=? (ip_addr_cmp (ip_addr_add (last c) 1) (first n)).1)
        then
          arr ← (if 0 <? (ip_addr_cmp (last n) (last c)).1 then wr arr curr (Block (first c) (last n))
                 else Ret arr);
          compress_loop fuel arr nblocks curr (next + 1)
        else
          let curr := curr + 1 in
          if curr <? next then
            src ← rds arr next (nblocks - next);
            arr ← wrs arr curr src;
            compress_loop fuel arr (nblocks - (next - curr)) curr (curr + 1)
          else compress_loop fuel arr nblocks curr (next + 1)
  end.

Definition compress_blocks (arr : list ip_block_t) : outcome (list ip_block_t * Z) :=
  compress_loop (S (length arr)) arr (zlen arr) 0 1.

(** the scanner's states: between elements, or in one that starts at [addrstart] *)
Fixpoint blocks_scan (getaddrinfo : bytes -> Z + list ip_addr_t) (realloc_ok : Z -> bool)
    (s todo : bytes) (pos : nat) (S : option nat) (blks : list ip_block_t) : result (list ip_block_t) :=
  match todo with
  | [] =>
      match S with
      | Some addrstart => cons_block getaddrinfo realloc_ok blks s addrstart pos
      | None => inr blks
      end
  | c :: todo =>
      match S with
      | None =>
          blocks_scan getaddrinfo realloc_ok s todo (pos + 1)
            (if IS_IP_BLOCKS_SEP c then None else Some pos) blks
      | Some addrstart =>
          if IS_IP_BLOCKS_SEP c then
            match cons_block getaddrinfo realloc_ok blks s addrstart pos with
            | inl e => inl e
            | inr blks => blocks_scan getaddrinfo realloc_ok s todo (pos + 1) None blks
            end
          else blocks_scan getaddrinfo realloc_ok s todo (pos + 1) S blks
      end
  end.

(** [s] is [None] for a null pointer *)
Definition ip_blocks_init (getaddrinfo : bytes -> Z + list ip_addr_t) (realloc_ok : Z -> bool)
    (qsort : list ip_block_t -> list ip_block_t) (s : option bytes) : outcome (result ip_blocks) :=
  match s with
  | None => Ret (inr (Blocks [] 0 (Family AF_UNSPEC)))
  | Some s =>
      match blocks_scan getaddrinfo realloc_ok s s 0 None [] with
      | inl e => Ret (inl e)
      | inr blks =>
          if zlen blks =? 0 then Ret (inr (Blocks [] 0 (Family AF_UNSPEC)))
          else
            '(arr, nblocks) ← compress_blocks (qsort blks);
            Ret (inr (Blocks (take (Z.to_nat nblocks) arr) 0 (Family AF_UNSPEC)))
      end
  end.

Definition ip_blocks_cleanup (blks : ip_blocks) : ip_blocks := Blocks [] 0 (Family AF_UNSPEC).

(** "first entry - initialize blks->curr_addr" *)
Definition start_addr (blks : ip_blocks) (blk : ip_block_t) : ip_addr_t :=
  if (curr_block blks =? 0) && (sa_family (curr_addr blks) =? AF_UNSPEC) then first blk
  else curr_addr blks.

Definition ip_blocks_next (blks : ip_blocks) : outcome (ip_blocks * (Z * option ip_addr_t)) :=
  if zlen (blocks blks) <=? curr_block blks then Ret (ip_blocks_reset blks, (0, None))
  else
    blk ← rd (blocks blks) (curr_block blks);
    let addr := start_addr blks blk in
    if (ip_addr_cmp addr (last blk)).1 <? 0
    then Ret (Blocks (blocks blks) (curr_block blks) (ip_addr_add addr 1), (1, Some addr))
    else
      let curr := curr_block blks + 1 in
      if curr <? zlen (blocks blks) then
        blk ← rd (blocks blks) curr;
        Ret (Blocks (blocks blks) curr (first blk), (1, Some addr))
      else Ret (Blocks (blocks blks) curr addr, (1, Some addr)).

(** the loop over the blocks from index [i] *)
Fixpoint contains_loop (bs : list ip_block_t) (addr : ip_addr_t) : Z :=
  match bs with
  | [] => 0
  | b :: bs => let ret := ip_block_contains b addr in if negb (ret =? 0) then ret else contains_loop bs addr
  end.

Definition ip_blocks_contains (blks : ip_blocks) (addr : ip_addr_t) : Z :=
  contains_loop (drop (Z.to_nat (curr_block blks)) (blocks blks)) addr.

(** ** Addresses as numbers *)

Definition addr_val (a : ip_addr_t) : Z :=
  match a with Inet x => be_val x | Inet6 x _ => be_val x | Family _ => 0 end.

(** the number of bits of an address, and what it shares with the addresses
    of its block: the family and the zone *)
Definition width (a : ip_addr_t) : Z := match a with Inet _ => 32 | Inet6 _ _ => 128 | Family _ => 0 end.
Definition kind (a : ip_addr_t) : Z * Z :=
  match a with Inet _ => (AF_INET, 0) | Inet6 _ s => (AF_INET6, s) | Family f => (f, 0) end.

Definition wf_addr (a : ip_addr_t) : Prop :=
  match a with
  | Inet x => Forall is_byte x /\ length x = 4%nat
  | Inet6 x _ => Forall is_byte x /\ length x = 16%nat
  | Family _ => False
  end.

(** IPv4 addresses come before the IPv6 addresses *)
Definition addr_key (a : ip_addr_t) : Z :=
  match a with Inet6 _ _ => 2 ^ 32 + addr_val a | _ => addr_val a end.

(** the address of the same family and zone with another number *)
Definition set_val (a : ip_addr_t) (v : Z) : ip_addr_t :=
  match a with Inet _ => Inet (be_bytes 4 v) | Inet6 _ s => Inet6 (be_bytes 16 v) s | Family f => Family f end.

Lemma addr_val_range a : wf_addr a -> 0 <= addr_val a < 2 ^ width a.
Proof.
  destruct a as [x|x s|f]; simpl; [| |done]; intros [Hb Hl]; pose proof (be_val_range x Hb) as H;
    unfold zlen in H; rewrite Hl in H; exact H.
Qed.

Lemma set_val_val a : wf_addr a -> set_val a (addr_val a) = a.
Proof.
  destruct a as [x|x s|f]; [| |done]; intros [Hb Hl]; cbn [set_val addr_val]; f_equal; rewrite <- Hl; by apply be_bytes_val.
Qed.

Lemma val_set_val a v : wf_addr a -> addr_val (set_val a v) = v mod 2 ^ width a.
Proof. destruct a as [x|x s|f]; [| |done]; intros _; cbn [set_val addr_val]; by rewrite be_val_bytes. Qed.

Lemma wf_set_val a v : wf_addr a -> wf_addr (set_val a v).
Proof.
  destruct a as [x|x s|f]; [| |done]; intros _; cbn [set_val wf_addr];
    (split; [apply be_bytes_byte|apply be_bytes_length]).
Qed.

Lemma kind_set_val a v : kind (set_val a v) = kind a.
Proof. by destruct a. Qed.

Lemma width_kind a b : wf_addr a -> wf_addr b -> kind a = kind b -> width a = width b.
Proof. by destruct a, b. Qed.

Lemma addr_ext a b : wf_addr a -> wf_addr b -> kind a = kind b -> addr_val a = addr_val b -> a = b.
Proof.
  intros Ha Hb Hk Hv. rewrite <- (set_val_val a Ha), <- (set_val_val b Hb), Hv.
  destruct a, b; simpl in *; simplify_eq; done.
Qed.

Lemma sgn_ltb a b : (if a <? b then -1 else if b <? a then 1 else 0) = Z.sgn (a - b).
Proof. destruct (Z.ltb_spec a b), (Z.ltb_spec b a); lia. Qed.

Lemma ip_addr_cmp_key a b : wf_addr a -> wf_addr b ->
  ip_addr_cmp a b = (Z.sgn (addr_key a - addr_key b), None).
Proof.
  intros Ha Hb. pose proof (addr_val_range a Ha) as Ra. pose proof (addr_val_range b Hb) as Rb.
  destruct a as [x|x s|f], b as [y|y t|g]; try done; destruct Ha, Hb; simpl in *; f_equal; try lia;
    rewrite memcmp_be, sgn_ltb by (done || congruence); lia.
Qed.

Lemma cmp_fst a b : wf_addr a -> wf_addr b -> (ip_addr_cmp a b).1 = Z.sgn (addr_key a - addr_key b).
Proof. intros. by rewrite ip_addr_cmp_key. Qed.

(** ** Addition *)

Fixpoint val32 (ws : list Z) : Z :=
  match ws with [] => 0 | w :: ws => w * 2 ^ (32 * zlen ws) + val32 ws end.

Definition word32 (w : Z) : Prop := 0 <= w < 2 ^ 32.

Lemma val32_range ws : Forall word32 ws -> 0 <= val32 ws < 2 ^ (32 * zlen ws).
Proof.
  induction 1 as [|w ws Hw _ IH]; [done|]. cbn [val32]. rewrite zlen_cons. pose proof (zlen_nonneg ws).
  replace (32 * (1 + zlen ws)) with (32 + 32 * zlen ws) by lia. rewrite Z.pow_add_r by lia.
  unfold word32 in Hw. nia.
Qed.

Lemma add_words_spec ws : forall ext, Forall word32 ws -> Forall word32 ext -> length ws = length ext ->
  let '(r, c) := add_words ws ext in
  Forall word32 r /\ length r = length ws /\ 0 <= c <= 1 /\
  val32 r + c * 2 ^ (32 * zlen ws) = val32 ws + val32 ext.
Proof.
  induction ws as [|w ws IH]; intros [|e ext] Hws Hext Hl; try done.
  apply Forall_cons in Hws as [Hw Hws], Hext as [He Hext]. simpl in Hl. cbn [add_words].
  specialize (IH ext Hws Hext ltac:(lia)). destruct (add_words ws ext) as [r c].
  destruct IH as (Hr & Hlr & Hc & Hv). unfold word32 in Hw, He.
  rewrite (uw_small 64) by lia. rewrite shiftr_div by lia. split_and!.
  - constructor; [apply (uw_range 32); lia|done].
  - simpl. by rewrite Hlr.
  - apply Z.div_pos; lia.
  - assert ((w + e + c) / 2 ^ 32 < 2); [|lia]. apply Z.div_lt_upper_bound; lia.
  - cbn [val32]. assert (zlen r = zlen ws) as -> by (unfold zlen; lia).
    assert (zlen ext = zlen ws) as -> by (unfold zlen; lia). rewrite zlen_cons.
    pose proof (zlen_nonneg ws). replace (32 * (1 + zlen ws)) with (32 + 32 * zlen ws) by lia.
    rewrite Z.pow_add_r by lia. unfold uw. pose proof (Z.div_mod (w + e + c) (2 ^ 32) ltac:(lia)). nia.
Qed.

Lemma be_val_of_words ws : Forall word32 ws -> be_val (of_words ws) = val32 ws /\
  length (of_words ws) = (4 * length ws)%nat.
Proof.
  unfold of_words. induction 1 as [|w ws Hw _ [IH IHl]]; [done|]. rewrite bind_cons, be_val_app, length_app, IH, IHl.
  rewrite be_bytes_length. cbn [val32 length]. split; [|lia]. unfold word32 in Hw.
  rewrite be_val_bytes. change (256 ^ Z.of_nat 4) with (2 ^ 32). rewrite (Z.mod_small w) by lia.
  unfold zlen at 1. rewrite IHl. rewrite pow256 by lia. unfold zlen.
  by replace (8 * Z.of_nat (4 * length ws)) with (32 * Z.of_nat (length ws)) by lia.
Qed.

Lemma words_spec x : Forall is_byte x -> length x = 16%nat ->
  Forall word32 (words x) /\ be_val x = val32 (words x).
Proof.
  intros Hb Hl. assert (Hw : forall l, Forall is_byte l -> length l = 4%nat -> word32 (be_val l)).
  { intros l Hbl Hll. pose proof (be_val_range l Hbl) as H. unfold zlen in H. rewrite Hll in H. exact H. }
  split.
  - unfold words. apply Forall_cons; split; [|apply Forall_cons; split; [|apply Forall_cons; split;
      [|apply Forall_singleton]]]; (apply Hw; [auto using Forall_take, Forall_drop|]);
      rewrite ?length_take, ?length_drop; lia.
  - unfold words. cbn [val32]. repeat (rewrite zlen_cons || rewrite zlen_nil).
    rewrite <- (take_drop 4 x) at 1. rewrite <- (take_drop 4 (drop 4 x)) at 1.
    rewrite <- (take_drop 4 (drop 4 (drop 4 x))) at 1. rewrite !drop_drop. cbn [Nat.add].
    rewrite !be_val_app. unfold zlen. rewrite !length_app, !length_take, !length_drop, Hl.
    rewrite !pow256 by lia. simpl. lia.
Qed.

Lemma ip_addr_add_val a n : wf_addr a -> - 2 ^ 31 <= n < 2 ^ 31 -> ip_addr_add a n = set_val a (addr_val a + n).
Proof.
  intros Ha Hn. assert (Hu : forall m, (m + u32 n) mod 2 ^ 32 = (m + n) mod 2 ^ 32).
  { intros m. unfold uw. by rewrite Z.add_mod_idemp_r. }
  destruct a as [x|x s|f]; [| |done]; destruct Ha as [Hb Hl]; cbn [ip_addr_add set_val addr_val]; f_equal.
  - apply be_val_inj; [apply be_bytes_byte..|by rewrite !be_bytes_length|]. rewrite !be_val_bytes.
    change (256 ^ Z.of_nat 4) with (2 ^ 32). unfold uw at 1. rewrite Hu. by rewrite Z.mod_mod.
  - unfold ip_addr_add_ipv6. set (ext := if n <? 0 then _ else _).
    destruct (words_spec x Hb Hl) as [Hw Hv].
    assert (He : Forall word32 ext /\ length ext = 4%nat /\ val32 ext = n mod 2 ^ 128).
    { subst ext. assert (Hu32 : u32 n = if n <? 0 then n + 2 ^ 32 else n).
      { unfold uw. destruct (Z.ltb_spec n 0); divmod_lia. }
      destruct (Z.ltb_spec n 0); (split; [repeat constructor; unfold word32; lia|]; split; [done|]).
      - cbn [val32]. repeat (rewrite zlen_cons || rewrite zlen_nil). rewrite Hu32.
        rewrite <- (Z.mod_add n 1) by lia. rewrite Z.mod_small by lia. simpl. lia.
      - cbn [val32]. repeat (rewrite zlen_cons || rewrite zlen_nil). rewrite Hu32.
        rewrite Z.mod_small by lia. change (zlen (@nil Z)) with 0. lia. }
    destruct He as (He & Hle & Hve). pose proof (add_words_spec (words x) ext Hw He) as Hadd.
    destruct (add_words (words x) ext) as [r c]. destruct (Hadd ltac:(by rewrite Hle)) as (Hr & Hlr & Hc & Hsum).
    simpl fst. destruct (be_val_of_words r Hr) as [Hvr Hlen]. rewrite Hlr in Hlen.
    apply be_val_inj; [|apply be_bytes_byte|by rewrite be_bytes_length, Hlen|].
    + unfold of_words. clear. induction r as [|w r IH]; [constructor|]. rewrite bind_cons.
      apply Forall_app. split; [apply be_bytes_byte|done].
    + rewrite be_val_bytes, Hvr. change (256 ^ Z.of_nat 16) with (2 ^ 128).
      pose proof (val32_range r Hr) as Hrr. assert (zlen r = 4) as Ezr by (unfold zlen; rewrite Hlr; done).
      change (zlen (words x)) with 4 in Hsum. rewrite Ezr in Hrr. change (32 * 4) with 128 in *.
      rewrite <- (Z.mod_small (val32 r) (2 ^ 128)) by done.
      rewrite <- (Z.mod_add (val32 r) c) by lia. rewrite Hsum, <- Hv, Hve. by rewrite Z.add_mod_idemp_r.
Qed.

(** On addresses as the resolver gives them, [ip_addr_cmp] reports no error
    and its sign is the order of the addresses as big-endian numbers, IPv4
    before IPv6: a total order that identifies only addresses of the same
    family and number. *)
Theorem ip_addr_cmp_order a b : wf_addr a -> wf_addr b ->
  ip_addr_cmp a b = (Z.sgn (addr_key a - addr_key b), None) /\
  ((ip_addr_cmp a b).1 = 0 <-> sa_family a = sa_family b /\ addr_val a = addr_val b).
Proof.
  intros Ha Hb. rewrite ip_addr_cmp_key by done. split; [done|]. simpl.
  pose proof (addr_val_range a Ha). pose proof (addr_val_range b Hb).
  destruct a, b; try done; simpl in *; unfold AF_INET, AF_INET6; lia.
Qed.

Definition demo_v4 (a b c d : Z) : ip_addr_t := Inet [a; b; c; d].

Lemma ip_addr_cmp_order_witness : wf_addr (demo_v4 10 0 0 1) /\ wf_addr (demo_v4 9 255 0 7) /\
  (ip_addr_cmp (demo_v4 10 0 0 1) (demo_v4 9 255 0 7) =
     (Z.sgn (addr_key (demo_v4 10 0 0 1) - addr_key (demo_v4 9 255 0 7)), None) /\
  ((ip_addr_cmp (demo_v4 10 0 0 1) (demo_v4 9 255 0 7)).1 = 0 <->
     sa_family (demo_v4 10 0 0 1) = sa_family (demo_v4 9 255 0 7) /\
     addr_val (demo_v4 10 0 0 1) = addr_val (demo_v4 9 255 0 7))).
Proof.
  assert (Ha : wf_addr (demo_v4 10 0 0 1)) by (split; [repeat constructor; unfold is_byte; lia|done]).
  assert (Hb : wf_addr (demo_v4 9 255 0 7)) by (split; [repeat constructor; unfold is_byte; lia|done]).
  split; [exact Ha|]. split; [exact Hb|]. exact (ip_addr_cmp_order _ _ Ha Hb).
Defined.

(** [ip_addr_add] adds modulo 2^32 or 2^128, carrying between the words of
    an IPv6 address and keeping its zone, and [ip_addr_sub] undoes it. *)
Theorem ip_addr_add_sub a n : wf_addr a -> - 2 ^ 31 < n < 2 ^ 31 ->
  ip_addr_add a n = set_val a ((addr_val a + n) mod 2 ^ width a) /\
  ip_addr_sub (ip_addr_add a n) n = a.
Proof.
  intros Ha Hn. assert (E : ip_addr_add a n = set_val a ((addr_val a + n) mod 2 ^ width a)).
  { rewrite ip_addr_add_val by (done || lia). apply addr_ext; try (by apply wf_set_val).
    - by rewrite !kind_set_val.
    - rewrite !val_set_val by done. by rewrite Zmod_mod. }
  split; [done|]. rewrite E. unfold ip_addr_sub. rewrite sw_small by lia.
  rewrite ip_addr_add_val by (apply wf_set_val || lia; done). rewrite val_set_val, Zmod_mod by done.
  pose proof (addr_val_range a Ha) as Hr.
  apply addr_ext; [by repeat apply wf_set_val|done|by rewrite !kind_set_val|].
  rewrite val_set_val by (by apply wf_set_val).
  replace (width (set_val a _)) with (width a) by (by destruct a).
  rewrite Zplus_mod_idemp_l. replace (addr_val a + n + - n) with (addr_val a) by lia.
  by apply Z.mod_small.
Qed.

Lemma ip_addr_add_sub_witness : wf_addr (demo_v4 10 0 255 255) /\
  (ip_addr_add (demo_v4 10 0 255 255) 1 =
     set_val (demo_v4 10 0 255 255) ((addr_val (demo_v4 10 0 255 255) + 1) mod 2 ^ width (demo_v4 10 0 255 255)) /\
   ip_addr_sub (ip_addr_add (demo_v4 10 0 255 255) 1) 1 = demo_v4 10 0 255 255).
Proof.
  assert (Ha : wf_addr (demo_v4 10 0 255 255)) by (split; [repeat constructor; unfold is_byte; lia|done]).
  split; [exact Ha|]. apply (ip_addr_add_sub _ 1 Ha). lia.
Defined.

(** ** Prefixes *)

Lemma land_high w k a : 0 <= k <= w -> 0 <= a < 2 ^ w -> Z.land a (2 ^ w - 2 ^ k) = a - a mod 2 ^ k.
Proof.
  intros Hk Ha. replace (2 ^ w - 2 ^ k) with (Z.shiftl (Z.ones (w - k)) k).
  2: { rewrite Z.shiftl_mul_pow2, Z.ones_equiv by lia.
       replace (2 ^ w) with (2 ^ (w - k) * 2 ^ k) by (rewrite <- Z.pow_add_r by lia; f_equal; lia). lia. }
  pose proof (Z.pow_pos_nonneg 2 k ltac:(lia) ltac:(lia)) as Hp.
  replace (a - a mod 2 ^ k) with (Z.shiftl (Z.shiftr a k) k).
  2: { rewrite Z.shiftl_mul_pow2, Z.shiftr_div_pow2 by lia. rewrite Z.mod_eq by lia. lia. }
  apply Z.bits_inj'. intros i Hi. rewrite Z.land_spec. destruct (Z_lt_le_dec i k).
  - rewrite !Z.shiftl_spec_low by lia. apply andb_false_r.
  - rewrite !Z.shiftl_spec, Z.shiftr_spec by lia. replace (i - k + k) with i by lia.
    destruct (Z_lt_le_dec i w).
    + rewrite Z.ones_spec_low by lia. apply andb_true_r.
    + rewrite Z.ones_spec_high, andb_false_r by lia. symmetry.
      rewrite <- (Z.mod_small a (2 ^ w)) by done. apply Z.mod_pow2_bits_high. lia.
Qed.

Lemma lor_low k a : 0 <= k -> 0 <= a -> Z.lor a (2 ^ k - 1) = a - a mod 2 ^ k + (2 ^ k - 1).
Proof.
  intros Hk Ha. pose proof (Z.pow_pos_nonneg 2 k ltac:(lia) Hk) as Hp.
  rewrite (Z.div_mod a (2 ^ k)) at 1 by lia.
  pose proof (Z.mod_pos_bound a (2 ^ k) Hp). rewrite Z.mul_comm, <- lor_field by lia.
  rewrite <- Z.lor_assoc. assert (E : Z.lor (a mod 2 ^ k) (2 ^ k - 1) = 2 ^ k - 1).
  { apply Z.bits_inj'. intros i Hi. rewrite Z.lor_spec.
    replace (2 ^ k - 1) with (Z.ones k) by (rewrite Z.ones_equiv; lia).
    destruct (Z_lt_le_dec i k).
    - rewrite Z.ones_spec_low by lia. apply orb_true_r.
    - rewrite Z.ones_spec_high, Z.mod_pow2_bits_high by lia. done. }
  rewrite E, lor_field by lia. rewrite (Z.mod_eq a) by lia. lia.
Qed.

Lemma be_val_not m : Forall is_byte m -> be_val ((fun b => 255 - b) <$> m) = 256 ^ zlen m - 1 - be_val m /\
  Forall is_byte ((fun b => 255 - b) <$> m).
Proof.
  induction 1 as [|b m Hb _ [IH IHb]]; [done|]. rewrite fmap_cons, !be_val_cons. split.
  - rewrite IH. replace (zlen ((fun b => 255 - b) <$> m)) with (zlen m) by (unfold zlen; by rewrite length_fmap).
    rewrite zlen_cons. pose proof (zlen_nonneg m). rewrite Z.pow_add_r by lia. change (256 ^ 1) with 256. lia.
  - constructor; [|done]. unfold is_byte in *. lia.
Qed.

Lemma zip_bytes (f : Z -> Z -> Z) a b : (forall x y, is_byte x -> is_byte y -> is_byte (f x y)) ->
  Forall is_byte a -> Forall is_byte b -> Forall is_byte (zip_with f a b).
Proof.
  intros Hf Ha. revert b. induction Ha as [|x a Hx Ha IH]; intros [|y b] Hb; simpl; try constructor.
  - apply Forall_cons in Hb as [Hy _]. auto.
  - apply Forall_cons in Hb as [_ Hb]. auto.
Qed.

(** clearing the bits outside the mask [m], and setting them *)
Lemma mask_bits w p a m : 0 <= p <= w -> Forall is_byte a -> Forall is_byte m -> length a = length m ->
  256 ^ zlen a = 2 ^ w -> be_val m = 2 ^ w - 2 ^ (w - p) ->
  (Forall is_byte (clearbits a m) /\ length (clearbits a m) = length a /\
   be_val (clearbits a m) = be_val a - be_val a mod 2 ^ (w - p)) /\
  (Forall is_byte (setbits a m) /\ length (setbits a m) = length a /\
   be_val (setbits a m) = be_val a - be_val a mod 2 ^ (w - p) + (2 ^ (w - p) - 1)).
Proof.
  intros Hp Ha Hm Hl Hw Hv. pose proof (be_val_range a Ha) as Hr. rewrite Hw in Hr.
  assert (Hset : setbits a m = zip_with Z.lor a ((fun b => 255 - b) <$> m)).
  { unfold setbits. by rewrite zip_with_fmap_r. }
  destruct (be_val_not m Hm) as [Hn Hnb].
  split; (split; [|split]).
  - apply zip_bytes; [|done..]. intros x y Hx Hy. unfold is_byte. apply (land_range 8); unfold is_byte in *; lia.
  - unfold clearbits. rewrite length_zip_with. lia.
  - unfold clearbits. rewrite be_val_land, Hv by done. apply land_high; lia.
  - rewrite Hset. apply zip_bytes; [|done..]. intros x y Hx Hy. apply (lor_range 8); unfold is_byte in *; lia.
  - rewrite Hset, length_zip_with, length_fmap. lia.
  - rewrite Hset, be_val_lor, Hn, Hv by (done || by rewrite length_fmap).
    assert (zlen m = zlen a) as -> by (unfold zlen; lia). rewrite Hw.
    replace (2 ^ w - 1 - (2 ^ w - 2 ^ (w - p))) with (2 ^ (w - p) - 1) by lia. apply lor_low; lia.
Qed.

Definition mask_ok (w : Z) (m : bytes) (p : Z) : bool :=
  forallb (fun b => (0 <=? b) && (b <? 256)) m && (zlen m * 8 =? w) && (be_val m =? 2 ^ w - 2 ^ (w - p)).

Lemma mask_ok_spec w m p : mask_ok w m p = true ->
  Forall is_byte m /\ zlen m * 8 = w /\ be_val m = 2 ^ w - 2 ^ (w - p).
Proof.
  unfold mask_ok. intros H. zbool. split_and!; try done. apply Forall_forall. intros b Hb.
  apply list_elem_of_In in Hb. apply (proj1 (forallb_forall _ _) H) in Hb. unfold is_byte. zbool. lia.
Qed.

Lemma netmask4 p : 0 <= p <= 32 -> mask_ok 32 (ip4_netmask p) p = true.
Proof.
  intros Hp. assert (E : forallb (fun p => mask_ok 32 (ip4_netmask p) p) (seqZ 0 33) = true) by (vm_compute; reflexivity).
  rewrite forallb_forall in E. apply E, list_elem_of_In, elem_of_seqZ. lia.
Qed.

Lemma netmask6 p : 0 <= p <= 128 -> mask_ok 128 (ip6_netmask p) p = true.
Proof.
  intros Hp. assert (E : forallb (fun p => mask_ok 128 (ip6_netmask p) p) (seqZ 0 129) = true) by (vm_compute; reflexivity).
  rewrite forallb_forall in E. apply E, list_elem_of_In, elem_of_seqZ. lia.
Qed.

(** the block of the addresses that share the first [p] bits of [a] *)
Definition prefix_block (a : ip_addr_t) (p : Z) (b : ip_block_t) : Prop :=
  wf_addr (first b) /\ wf_addr (last b) /\ kind (first b) = kind a /\ kind (last b) = kind a /\
  addr_val (first b) = addr_val a - addr_val a mod 2 ^ (width a - p) /\
  addr_val (last b) = addr_val (first b) + (2 ^ (width a - p) - 1).

Lemma ip4_prefix x p : Forall is_byte x /\ length x = 4%nat -> 0 <= p <= 32 ->
  let '(f, l) := ip4_block_mask x x p in prefix_block (Inet x) p (Block (Inet f) (Inet l)).
Proof.
  intros [Hb Hl] Hp. unfold ip4_block_mask. destruct (mask_ok_spec _ _ _ (netmask4 p Hp)) as (Hm & Hml & Hv).
  destruct (mask_bits 32 p x (ip4_netmask p) Hp Hb Hm) as [(H1 & H2 & H3) (H4 & H5 & H6)];
    [unfold zlen in Hml; lia|unfold zlen; by rewrite Hl|done|].
  unfold prefix_block. simpl first. simpl last. split_and!; try done; simpl; try lia; split; done || lia.
Qed.

Lemma ip6_prefix x s p : Forall is_byte x /\ length x = 16%nat -> 0 <= p <= 128 ->
  let '(f, l) := ip6_block_mask x x p in prefix_block (Inet6 x s) p (Block (Inet6 f s) (Inet6 l s)).
Proof.
  intros [Hb Hl] Hp. unfold ip6_block_mask. destruct (mask_ok_spec _ _ _ (netmask6 p Hp)) as (Hm & Hml & Hv).
  destruct (mask_bits 128 p x (ip6_netmask p) Hp Hb Hm) as [(H1 & H2 & H3) (H4 & H5 & H6)];
    [unfold zlen in Hml; lia|unfold zlen; by rewrite Hl|done|].
  unfold prefix_block. simpl first. simpl last. split_and!; try done; cbn [addr_val width]; try lia; split; done || lia.
Qed.

Lemma strtoul_range s v r : strtoul s = (v, r) -> 0 <= v <= ULONG_MAX.
Proof.
  assert (Hd : forall t acc, 0 <= acc -> 0 <= (digits t acc).1).
  { induction t as [|c t IH]; intros acc Ha; simpl; [done|]. unfold isdigit. case_match eqn:Hc; [|done].
    apply IH. zbool. lia. }
  unfold strtoul, ULONG_MAX. set (t0 := match skip_spaces s with [] => _ | _ => _ end). destruct t0 as [neg t].
  destruct t as [|c t]; [intros; simplify_eq; lia|]. destruct (isdigit c); [|intros; simplify_eq; lia].
  pose proof (Hd (c :: t) 0 ltac:(lia)) as H0. destruct (digits (c :: t) 0) as [w rest]. simpl in H0.
  destruct (Z.ltb_spec 18446744073709551615 w); intros; simplify_eq; [lia|].
  destruct neg; [|lia]. pose proof (uw_range 64 (- w) ltac:(lia)). lia.
Qed.

(** A block given as an address and a prefix length [p] holds exactly the
    addresses of the same family and zone whose first [p] bits are those of
    the address; a longer prefix than the address is refused. *)
Theorem ip_block_cidr_prefix getaddrinfo s plen a p :
  ip_addr getaddrinfo s = inr a -> wf_addr a -> strtoul plen = (p, []) ->
  if width a <? p then ip_block_cidr getaddrinfo s plen = inl (Some EAI_NONAME)
  else exists b, ip_block_cidr getaddrinfo s plen = inr b /\ wf_addr (first b) /\ wf_addr (last b) /\
    kind (first b) = kind a /\ kind (last b) = kind a /\
    forall x, wf_addr x -> kind x = kind a ->
      (addr_val (first b) <= addr_val x <= addr_val (last b) <->
       addr_val x / 2 ^ (width a - p) = addr_val a / 2 ^ (width a - p)).
Proof.
  intros Ha Hw Hp. pose proof (strtoul_range _ _ _ Hp) as Hr.
  destruct (Z.ltb_spec (width a) p) as [Hlt|Hle].
  { unfold ip_block_cidr. rewrite Ha, Hp. rewrite bool_decide_eq_true_2 by done. cbn [negb].
    destruct a; try done; cbn [width] in Hlt; by rewrite (proj2 (Z.ltb_lt _ _)). }
  assert (Hb : exists b, ip_block_cidr getaddrinfo s plen = inr b /\ prefix_block a p b).
  { unfold ip_block_cidr. rewrite Ha, Hp. rewrite bool_decide_eq_true_2 by done. cbn [negb].
    destruct a as [x|x t|f]; [| |done]; cbn [width] in Hle; rewrite (proj2 (Z.ltb_ge _ _)), (uw_small 32) by lia.
    - pose proof (ip4_prefix x p Hw ltac:(lia)) as H. destruct (ip4_block_mask x x p). eauto.
    - pose proof (ip6_prefix x t p Hw ltac:(lia)) as H. destruct (ip6_block_mask x x p). eauto. }
  destruct Hb as (b & Eb & H1 & H2 & H3 & H4 & H5 & H6). exists b. split_and!; try done.
  intros x Hx _. rewrite H6, H5. pose proof (Z.pow_pos_nonneg 2 (width a - p) ltac:(lia) ltac:(lia)) as Hpos.
  set (q := 2 ^ (width a - p)) in *. clearbody q.
  pose proof (Z.div_mod (addr_val a) q ltac:(lia)). pose proof (Z.mod_pos_bound (addr_val a) q Hpos).
  pose proof (Z.div_mod (addr_val x) q ltac:(lia)). pose proof (Z.mod_pos_bound (addr_val x) q Hpos).
  split; [|intros E; rewrite E in *; lia]. intros [Hlo Hhi]. nia.
Qed.

Definition demo_resolver (s : bytes) : Z + list ip_addr_t := inr [Family 1; demo_v4 10 1 2 3].

Lemma ip_block_cidr_prefix_witness :
  exists b, ip_block_cidr demo_resolver (lit "h") (lit "20") = inr b /\ wf_addr (first b) /\ wf_addr (last b) /\
    kind (first b) = kind (demo_v4 10 1 2 3) /\ kind (last b) = kind (demo_v4 10 1 2 3) /\
    forall x, wf_addr x -> kind x = kind (demo_v4 10 1 2 3) ->
      (addr_val (first b) <= addr_val x <= addr_val (last b) <->
       addr_val x / 2 ^ (32 - 20) = addr_val (demo_v4 10 1 2 3) / 2 ^ (32 - 20)).
Proof.
  assert (Ha : wf_addr (demo_v4 10 1 2 3)) by (split; [repeat constructor; unfold is_byte; lia|done]).
  exact (ip_block_cidr_prefix demo_resolver (lit "h") (lit "20") (demo_v4 10 1 2 3) 20 eq_refl Ha eq_refl).
Defined.

(** ** Merging of blocks *)

(** the loop's effect, on the list of the blocks that are left *)
Definition mergeable (c n : ip_block_t) : bool :=
  negb (diff_zones c n) && (sa_family (first c) =? sa_family (first n)) &&
  (0 <=? (ip_addr_cmp (ip_addr_add (last c) 1) (first n)).1).

Definition merge (c n : ip_block_t) : ip_block_t :=
  if 0 <? (ip_addr_cmp (last n) (last c)).1 then Block (first c) (last n) else c.

Fixpoint compressed (c : ip_block_t) (ns : list ip_block_t) : list ip_block_t :=
  match ns with
  | [] => [c]
  | n :: ns => if mergeable c n then compressed (merge c n) ns else c :: compressed n ns
  end.

(** the array: [done] merged blocks, the current one, the blocks already
    merged into it, the blocks to come, and what is left of moved blocks *)
Lemma blocks_compress_spec : forall ns fuel finished c junk tail,
  (length ns < fuel)%nat ->
  exists tail',
  compress_loop fuel (finished ++ c :: junk ++ ns ++ tail) (zlen (finished ++ c :: junk ++ ns))
    (zlen finished) (zlen (finished ++ c :: junk)) =
  Ret (finished ++ compressed c ns ++ tail', zlen (finished ++ compressed c ns)).
Proof.
  induction ns as [|n ns IH]; intros [|fuel] finished c junk tail Hf; try (simpl in Hf; lia); cbn [compress_loop].
  - rewrite (proj2 (Z.ltb_ge _ _)) by (zlen_simpl; lia). cbn [negb compressed].
    exists (junk ++ tail). cbn [app]. f_equal. f_equal. zlen_simpl. lia.
  - pose proof (zlen_nonneg ns). pose proof (zlen_nonneg junk). pose proof (zlen_nonneg finished).
    pose proof (zlen_nonneg tail).
    rewrite (proj2 (Z.ltb_lt _ _)) by (zlen_simpl; lia). cbn [negb].
    rewrite rd_mid. cbn [mbind outcome_mbind].
    replace (finished ++ c :: junk ++ (n :: ns) ++ tail) with ((finished ++ c :: junk) ++ n :: ns ++ tail)
      by (by rewrite <- !app_assoc).
    rewrite rd_mid. cbn [mbind outcome_mbind]. cbn [compressed]. fold (mergeable c n).
    destruct (mergeable c n) eqn:Em.
    + assert (Ewr : (if 0 <? (ip_addr_cmp (last n) (last c)).1
        then wr ((finished ++ c :: junk) ++ n :: ns ++ tail) (zlen finished) (Block (first c) (last n))
        else Ret ((finished ++ c :: junk) ++ n :: ns ++ tail)) =
        Ret (finished ++ merge c n :: (junk ++ [n]) ++ ns ++ tail)).
      { unfold merge. destruct (0 <? (ip_addr_cmp (last n) (last c)).1).
        - rewrite wr_in by (zlen_simpl; lia). rewrite <- !app_assoc. cbn [app].
          rewrite insert_app_r_alt by (unfold zlen; lia).
          replace (Z.to_nat (zlen finished) - length finished)%nat with 0%nat by (unfold zlen; lia). done.
        - by rewrite <- !app_assoc. }
      rewrite Ewr. cbn [mbind outcome_mbind].
      destruct (IH fuel finished (merge c n) (junk ++ [n]) tail) as [tail' E]; [simpl in Hf; lia|].
      exists tail'. rewrite <- E. f_equal; zlen_simpl; lia.
    + cbv zeta. destruct (Z.ltb_spec (zlen finished + 1) (zlen (finished ++ c :: junk))) as [Hj|Hj].
      * rewrite rds_in by (zlen_simpl; lia). cbn [mbind outcome_mbind].
        replace (Z.to_nat (zlen (finished ++ c :: junk))) with (length (finished ++ c :: junk)) by (unfold zlen; lia).
        rewrite drop_app_length. replace (Z.to_nat (zlen (finished ++ c :: junk ++ n :: ns) - zlen (finished ++ c :: junk)))
          with (length (n :: ns)) by (unfold zlen; rewrite !length_app; simpl; rewrite length_app; simpl; lia).
        change (n :: ns ++ tail) with ((n :: ns) ++ tail). rewrite take_app_length.
        rewrite wrs_in by (zlen_simpl; lia). cbn [mbind outcome_mbind].
        set (rest' := drop _ _). rewrite <- app_assoc. cbn [app].
        replace (take (Z.to_nat (zlen finished + 1)) (finished ++ c :: junk ++ n :: ns ++ tail)) with (finished ++ [c]).
        2: { replace (Z.to_nat (zlen finished + 1)) with (length finished + 1)%nat by (unfold zlen; lia).
             rewrite take_app_add. by destruct junk. }
        destruct (IH fuel (finished ++ [c]) n [] rest') as [tail' E]; [simpl in Hf; lia|].
        exists tail'. rewrite <- !app_assoc in E. cbn [app] in E. rewrite <- app_assoc. cbn [app].
        rewrite <- E. f_equal; zlen_simpl; lia.
      * assert (junk = []) as -> by (destruct junk; [done|zlen_simpl; pose proof (zlen_nonneg junk); lia]).
        destruct (IH fuel (finished ++ [c]) n [] tail) as [tail' E]; [simpl in Hf; lia|].
        exists tail'. rewrite <- !app_assoc in E. cbn [app] in E. rewrite <- app_assoc. cbn [app].
        rewrite <- E. f_equal; zlen_simpl; lia.
Qed.

Lemma compress_blocks_spec c ns : exists tail,
  compress_blocks (c :: ns) = Ret (compressed c ns ++ tail, zlen (compressed c ns)).
Proof.
  destruct (blocks_compress_spec ns (S (S (length ns))) [] c [] [] ltac:(lia)) as [tail E].
  exists tail. simpl in E. rewrite app_nil_r in E. exact E.
Qed.

(** a block of addresses of one family, and the addresses in it: those in the
    zone of the first one *)
Definition wf_block (b : ip_block_t) : Prop :=
  wf_addr (first b) /\ wf_addr (last b) /\ sa_family (first b) = sa_family (last b) /\
  addr_val (first b) <= addr_val (last b).

Definition in_block (x : ip_addr_t) (b : ip_block_t) : Prop :=
  kind x = kind (first b) /\ addr_val (first b) <= addr_val x <= addr_val (last b).

Definition covered (x : ip_addr_t) (bs : list ip_block_t) : Prop := Exists (in_block x) bs.

(** the blocks in the order of [blockcmp], as far as their first addresses go *)
Definition first_le (b0 b1 : ip_block_t) : Prop := addr_key (first b0) <= addr_key (first b1).

(** a block is followed by one of another family or zone, or one that starts
    beyond the next address, unless it ends in the last address there is *)
Definition apart (b0 b1 : ip_block_t) : Prop :=
  kind (first b0) = kind (first b1) ->
  addr_val (last b0) + 1 < addr_val (first b1) \/ addr_val (last b0) = 2 ^ width (last b0) - 1.

Lemma same_kind c n : wf_addr (first c) -> wf_addr (first n) ->
  negb (diff_zones c n) && (sa_family (first c) =? sa_family (first n)) = bool_decide (kind (first c) = kind (first n)).
Proof.
  unfold diff_zones. destruct c as [[x|x s|f] cl], n as [[y|y t|g] nl]; simpl; try done; intros _ _.
  unfold AF_INET6. destruct (Z.eqb_spec s t) as [->|Hne]; simpl; [by rewrite bool_decide_eq_true_2|].
  rewrite bool_decide_eq_false_2; [done|congruence].
Qed.

Lemma kind_family a b : kind a = kind b -> sa_family a = sa_family b.
Proof. destruct a, b; simpl; intros [=]; done. Qed.

Lemma width_family a b : wf_addr a -> wf_addr b -> sa_family a = sa_family b -> width a = width b.
Proof. by destruct a, b. Qed.

Lemma key_val a b : wf_addr a -> wf_addr b -> sa_family a = sa_family b -> addr_key a - addr_key b = addr_val a - addr_val b.
Proof. destruct a, b; simpl; intros; simplify_eq; try done; lia. Qed.

Lemma add_one a : wf_addr a -> wf_addr (ip_addr_add a 1) /\ kind (ip_addr_add a 1) = kind a /\
  addr_val (ip_addr_add a 1) = (addr_val a + 1) mod 2 ^ width a.
Proof.
  intros Ha. rewrite ip_addr_add_val by (done || lia). split_and!; [by apply wf_set_val|apply kind_set_val|].
  by apply val_set_val.
Qed.

Lemma mergeable_spec c n : wf_block c -> wf_block n -> first_le c n ->
  mergeable c n = true <-> kind (first c) = kind (first n) /\
    (addr_val (last c) + 1) mod 2 ^ width (last c) >= addr_val (first n).
Proof.
  intros (Hc1 & Hc2 & Hck & _) (Hn1 & Hn2 & Hnk & _) _. unfold mergeable. rewrite same_kind by done.
  destruct (add_one (last c) Hc2) as (Ha & Hk & Hv). apply kind_family in Hk.
  rewrite andb_true_iff, bool_decide_eq_true. split; intros [Hkk Hcmp]; (split; [done|]); apply kind_family in Hkk.
  - rewrite cmp_fst, key_val in Hcmp by (done || congruence). zbool. lia.
  - rewrite cmp_fst, key_val by (done || congruence). apply Z.leb_le. lia.
Qed.

Lemma merge_spec c n : wf_block c -> wf_block n -> first_le c n -> mergeable c n = true ->
  wf_block (merge c n) /\ first (merge c n) = first c /\ kind (first c) = kind (first n) /\
  addr_val (last (merge c n)) = Z.max (addr_val (last c)) (addr_val (last n)) /\
  forall x, in_block x (merge c n) <-> in_block x c \/ in_block x n.
Proof.
  intros Hc Hn Hle Hm. apply mergeable_spec in Hm as [Hk Hv]; [|done..].
  destruct Hc as (Hc1 & Hc2 & Hck & Hcv), Hn as (Hn1 & Hn2 & Hnk & Hnv).
  pose proof (kind_family _ _ Hk) as Hfam.
  assert (Hfl : addr_val (first c) <= addr_val (first n)).
  { pose proof (key_val _ _ Hc1 Hn1 Hfam). unfold first_le in Hle. lia. }
  assert (Hgap : addr_val (first n) <= addr_val (last c) + 1).
  { pose proof (addr_val_range _ Hc2) as Hr. pose proof (addr_val_range _ Hn1) as Hr'.
    rewrite <- (width_family _ _ Hc1 Hn1 Hfam), (width_family _ _ Hc1 Hc2 Hck) in Hr'.
    pose proof (Z.mod_le (addr_val (last c) + 1) (2 ^ width (last c))). lia. }
  assert (Hl : addr_val (last (merge c n)) = Z.max (addr_val (last c)) (addr_val (last n)) /\
    first (merge c n) = first c /\ wf_addr (last (merge c n)) /\ sa_family (last (merge c n)) = sa_family (first c)).
  { unfold merge. rewrite cmp_fst, key_val by (done || congruence).
    destruct (Z.ltb_spec 0 (Z.sgn (addr_val (last n) - addr_val (last c)))); simpl; split_and!; try done; try lia; congruence. }
  destruct Hl as (Hlm & Hfm & Hwm & Hkm). unfold wf_block, in_block. rewrite Hfm, Hlm.
  split_and!; try done; try lia. intros x. split.
  - intros [Hkx Hx]. destruct (Z_le_gt_dec (addr_val x) (addr_val (last c))); [left|right]; split; try lia; congruence.
  - intros [[Hkx Hx]|[Hkx Hx]]; split; try lia; congruence.
Qed.

Lemma blocks_compressed ns : forall c, wf_block c -> Forall wf_block ns -> Forall (first_le c) ns -> StronglySorted first_le ns ->
  Forall wf_block (compressed c ns) /\ Sorted apart (compressed c ns) /\
  (exists c' r, compressed c ns = c' :: r /\ first c' = first c) /\
  forall x, covered x (compressed c ns) <-> covered x (c :: ns).
Proof.
  unfold covered. induction ns as [|n ns IH]; intros c Hc Hns Hle Hs.
  { simpl. split_and!; [by constructor|by constructor|eauto|done]. }
  apply Forall_cons in Hns as [Hn Hns], Hle as [Hcn Hle]. apply StronglySorted_inv in Hs as [Hs Hnl].
  cbn [compressed]. destruct (mergeable c n) eqn:Em.
  - destruct (merge_spec c n Hc Hn Hcn Em) as (Hw & Hf & _ & _ & Hcov).
    destruct (IH (merge c n) Hw Hns) as (H1 & H2 & H3 & H4).
    { unfold first_le in *. by rewrite Hf. } { done. }
    split_and!; try done; [by rewrite <- Hf|]. intros x. rewrite H4, !Exists_cons, Hcov. tauto.
  - destruct (IH n Hn Hns Hnl Hs) as (H1 & H2 & (c' & r & Ec & Hf) & H4).
    split_and!; [by constructor| |eauto|intros x; rewrite !Exists_cons, H4, Exists_cons; done].
    constructor; [done|]. rewrite Ec. constructor. intros Hk. rewrite Hf in Hk |- *.
    destruct (decide (addr_val (last c) = 2 ^ width (last c) - 1)) as [|Hne]; [by right|left].
    apply not_true_iff_false in Em. rewrite mergeable_spec in Em by done.
    destruct Hc as (_ & Hc2 & _ & _). pose proof (addr_val_range _ Hc2).
    rewrite Z.mod_small in Em by lia. destruct (Z_lt_le_dec (addr_val (last c) + 1) (addr_val (first n))); [done|].
    exfalso. apply Em. split; [done|lia].
Qed.

(** ** Parsing a list of blocks *)

(** the elements of the list: what is between separators, by position *)
Fixpoint elements (todo : bytes) (pos : nat) (st : option nat) : list (nat * nat) :=
  match todo with
  | [] => match st with Some i => [(i, pos)] | None => [] end
  | c :: todo =>
      match st with
      | None => elements todo (pos + 1) (if IS_IP_BLOCKS_SEP c then None else Some pos)
      | Some i => if IS_IP_BLOCKS_SEP c then (i, pos) :: elements todo (pos + 1) None
                  else elements todo (pos + 1) st
      end
  end.

Definition parse_element (getaddrinfo : bytes -> Z + list ip_addr_t) (s : bytes) (e : nat * nat) : result ip_block_t :=
  let len := (e.2 - e.1)%nat in
  ip_block_from_str getaddrinfo (take (if (256 <=? len)%nat then 255 else len) (drop e.1 s)).

Lemma scan_spec getaddrinfo realloc_ok s : forall todo pos st blks blks',
  blocks_scan getaddrinfo realloc_ok s todo pos st blks = inr blks' ->
  exists new, blks' = blks ++ new /\ Forall2 (fun e b => parse_element getaddrinfo s e = inr b) (elements todo pos st) new.
Proof.
  assert (Hcons : forall i j blks blks', cons_block getaddrinfo realloc_ok blks s i j = inr blks' ->
    exists b, blks' = blks ++ [b] /\ parse_element getaddrinfo s (i, j) = inr b).
  { intros i j blks blks'. unfold cons_block, parse_element. cbn [fst snd].
    destruct (ip_block_from_str _ _) as [|b]; [done|]. case_match; [|done]. intros [= <-]. eauto. }
  induction todo as [|c todo IH]; intros pos st blks blks' H; cbn [blocks_scan elements] in *.
  - destruct st as [i|].
    + apply Hcons in H as (b & -> & E). exists [b]. split; [done|]. by repeat constructor.
    + exists []. rewrite app_nil_r. split; [congruence|constructor].
  - destruct st as [i|]; [|by apply IH in H].
    destruct (IS_IP_BLOCKS_SEP c); [|by apply IH in H].
    destruct (cons_block _ _ _ _ _ _) as [|blks1] eqn:E; [done|].
    apply Hcons in E as (b & -> & E). apply IH in H as (new & -> & Hnew).
    exists (b :: new). rewrite <- app_assoc. split; [done|]. by constructor.
Qed.

Lemma blockcmp_first_le b0 b1 : wf_block b0 -> wf_block b1 -> blockcmp b0 b1 <= 0 -> first_le b0 b1.
Proof.
  intros (H0 & _) (H1 & _). unfold blockcmp, first_le. rewrite !cmp_fst by done. cbv zeta.
  destruct (Z.eqb_spec (Z.sgn (addr_key (first b0) - addr_key (first b1))) 0); lia.
Qed.

(** ** What the parser gives *)

(** the resolver's addresses have the lengths of their families *)
Definition resolver_ok (getaddrinfo : bytes -> Z + list ip_addr_t) : Prop :=
  forall s l a, getaddrinfo s = inr l -> a ∈ l -> sa_family a = AF_INET \/ sa_family a = AF_INET6 -> wf_addr a.

(** [qsort] with [blockcmp] *)
Definition qsort_ok (qsort : list ip_block_t -> list ip_block_t) : Prop :=
  forall l, qsort l ≡ₚ l /\ Sorted (fun a b => blockcmp a b <= 0) (qsort l).

Lemma ip_addr_wf g s a : resolver_ok g -> ip_addr g s = inr a -> wf_addr a.
Proof.
  intros Hg. unfold ip_addr. destruct (g _) as [|l] eqn:E; [done|].
  destruct (list_find _ l) as [[i b]|] eqn:Ef; [|done]. intros [= <-].
  apply list_find_Some in Ef as (Hi & Hf & _). eapply Hg; [done| |done]. by eapply list_elem_of_lookup_2.
Qed.

Lemma prefix_block_wf a p b : wf_addr a -> 0 <= p <= width a -> prefix_block a p b -> wf_block b.
Proof.
  intros Ha Hp (H1 & H2 & H3 & H4 & H5 & H6). split_and!; try done; [apply kind_family; congruence|].
  pose proof (Z.pow_pos_nonneg 2 (width a - p)). lia.
Qed.

Lemma cidr_wf g s plen b : resolver_ok g -> ip_block_cidr g s plen = inr b -> wf_block b.
Proof.
  intros Hg. unfold ip_block_cidr. destruct (ip_addr g s) as [|a] eqn:E; [done|].
  apply ip_addr_wf in E as Ha; [|done]. destruct (strtoul plen) as [p r] eqn:Ep.
  pose proof (strtoul_range _ _ _ Ep) as Hr. destruct (negb _); [done|].
  destruct a as [x|x t|f]; [| |done].
  - destruct (Z.ltb_spec 32 p) as [|Hp]; [done|]. rewrite uw_small by lia.
    pose proof (ip4_prefix x p Ha ltac:(lia)) as H. destruct (ip4_block_mask x x p). intros [= <-].
    apply (prefix_block_wf (Inet x) p); simpl; done || lia.
  - destruct (Z.ltb_spec 128 p) as [|Hp]; [done|]. rewrite uw_small by lia.
    pose proof (ip6_prefix x t p Ha ltac:(lia)) as H. destruct (ip6_block_mask x x p). intros [= <-].
    apply (prefix_block_wf (Inet6 x t) p); cbn [width]; done || lia.
Qed.

Lemma from_addrs_wf a1 a2 b : wf_addr a1 -> wf_addr a2 -> ip_block_from_addrs a1 a2 = inr b -> wf_block b.
Proof.
  intros H1 H2. unfold ip_block_from_addrs. destruct (Z.eqb_spec (sa_family a1) (sa_family a2)) as [Hf|]; [|done].
  cbn [negb]. rewrite ip_addr_cmp_key, key_val by done.
  destruct (Z.ltb_spec (Z.sgn (addr_val a1 - addr_val a2)) 0); intros [= <-];
    unfold wf_block; simpl; split_and!; done || lia.
Qed.

Lemma from_str_wf g s b : resolver_ok g -> ip_block_from_str g s = inr b -> wf_block b.
Proof.
  intros Hg. unfold ip_block_from_str. destruct (strchr _ 47); [by apply cidr_wf|].
  destruct (strchr _ 45).
  - unfold ip_block_range. destruct (ip_addr g _) as [|a1] eqn:E1; [done|].
    destruct (ip_addr g (drop _ _)) as [|a2] eqn:E2; [done|]. apply from_addrs_wf; by eapply ip_addr_wf.
  - destruct (ip_addr g _) as [|a] eqn:E; [done|]. intros [= <-]. apply ip_addr_wf in E; [|done].
    unfold wf_block. simpl. split_and!; done || lia.
Qed.

Lemma sorted_first_le l : Forall wf_block l -> Sorted (fun a b => blockcmp a b <= 0) l -> StronglySorted first_le l.
Proof.
  intros Hw Hs. apply Sorted_StronglySorted; [unfold first_le; intros ???; lia|].
  induction Hs as [|b l Hs IH Hd]; [constructor|]. apply Forall_cons in Hw as [Hb Hw].
  constructor; [by apply IH|]. destruct Hd as [|b' l Hle]; constructor.
  apply Forall_cons in Hw as [Hb' _]. by apply blockcmp_first_le.
Qed.

(** C30: parsing a list of blocks always returns.  If it succeeds, each element
    of the list was a block, an address is in one of the blocks kept exactly
    if it is in one that was listed, and each block kept ends before the
    address that precedes the next one of its family and zone, unless it ends
    in the last address of its family. *)
Theorem ip_blocks_init_covers getaddrinfo realloc_ok qsort s :
  resolver_ok getaddrinfo -> qsort_ok qsort ->
  exists r, ip_blocks_init getaddrinfo realloc_ok qsort (Some s) = Ret r /\
  forall blks, r = inr blks -> curr_block blks = 0 /\ curr_addr blks = Family AF_UNSPEC /\
    Forall wf_block (blocks blks) /\ Sorted apart (blocks blks) /\
    exists bs, Forall2 (fun e b => parse_element getaddrinfo s e = inr b) (elements s 0 None) bs /\
      forall x, covered x (blocks blks) <-> covered x bs.
Proof.
  intros Hg Hq. unfold ip_blocks_init.
  destruct (blocks_scan _ _ _ _ _ _ _) as [e|bs] eqn:E; [by eexists|].
  apply scan_spec in E as (new & -> & Hnew). cbn [app].
  assert (Hw : Forall wf_block new).
  { clear -Hg Hnew. induction Hnew as [|e b es bs He _ IH]; constructor; [|done]. by eapply from_str_wf. }
  destruct new as [|b0 bs]; [|set (bs' := b0 :: bs) in *].
  { eexists. split; [done|]. intros blks [= <-]. simpl. split_and!; try done. by exists []. }
  destruct (Z.eqb_spec (zlen bs') 0) as [E0|_]; [subst bs'; zlen_simpl; pose proof (zlen_nonneg bs); lia|].
  destruct (Hq bs') as [Hp Hs]. destruct (qsort bs') as [|c ns] eqn:Ec.
  { apply Permutation_nil in Hp. done. }
  assert (Hwq : Forall wf_block (c :: ns)) by (by rewrite Hp).
  apply sorted_first_le in Hs; [|done]. apply StronglySorted_inv in Hs as [Hs Hc].
  apply Forall_cons in Hwq as [Hwc Hwns].
  destruct (blocks_compressed ns c Hwc Hwns Hc Hs) as (H1 & H2 & _ & H4).
  destruct (compress_blocks_spec c ns) as [tail ->]. cbn [mbind outcome_mbind].
  eexists. split; [done|]. intros blks [= <-]. cbn [blocks curr_block curr_addr].
  replace (Z.to_nat (zlen (compressed c ns))) with (length (compressed c ns)) by (unfold zlen; lia).
  rewrite take_app_length. split_and!; try done. exists bs'. split; [done|].
  intros x. rewrite H4. unfold covered. rewrite !Exists_exists. by setoid_rewrite Hp.
Qed.

(** *** A resolver and a sort for the witness *)

Lemma cmp_flip a b : (ip_addr_cmp b a).1 = - (ip_addr_cmp a b).1 \/ ((ip_addr_cmp a b).1 = -1 /\ (ip_addr_cmp b a).1 = -1).
Proof.
  assert (Hm : forall x y, memcmp y x = - memcmp x y).
  { induction x as [|x xs IH]; intros [|y ys]; simpl; try done. destruct (Z.ltb_spec x y), (Z.ltb_spec y x); try lia. apply IH. }
  destruct a, b; simpl; auto.
Qed.

Definition block_le (a b : ip_block_t) : Prop := blockcmp a b <= 0.
#[export] Instance block_le_dec a b : Decision (block_le a b) := Z_le_dec (blockcmp a b) 0.

Lemma block_le_total : Total block_le.
Proof.
  intros a b. unfold block_le, blockcmp. cbv zeta.
  pose proof (cmp_flip (first a) (first b)). pose proof (cmp_flip (last a) (last b)).
  destruct (Z.eqb_spec (ip_addr_cmp (first a) (first b)).1 0), (Z.eqb_spec (ip_addr_cmp (first b) (first a)).1 0); lia.
Qed.

Lemma demo_resolver_ok : resolver_ok demo_resolver.
Proof.
  intros s l a [= <-] Ha Hf. apply elem_of_cons in Ha as [->|Ha]; [destruct Hf; done|].
  apply list_elem_of_singleton in Ha as ->. split; [repeat constructor; unfold is_byte; lia|done].
Qed.

Lemma demo_sort_ok : qsort_ok (merge_sort block_le).
Proof.
  intros l. split; [apply merge_sort_Permutation|]. pose proof block_le_total. apply (Sorted_merge_sort block_le).
Qed.

Lemma ip_blocks_init_covers_witness : resolver_ok demo_resolver /\ qsort_ok (merge_sort block_le) /\
  exists r, ip_blocks_init demo_resolver (fun _ => true) (merge_sort block_le) (Some (lit "h/30, h/20 h")) = Ret r /\
  forall blks, r = inr blks -> curr_block blks = 0 /\ curr_addr blks = Family AF_UNSPEC /\
    Forall wf_block (blocks blks) /\ Sorted apart (blocks blks) /\
    exists bs, Forall2 (fun e b => parse_element demo_resolver (lit "h/30, h/20 h") e = inr b)
        (elements (lit "h/30, h/20 h") 0 None) bs /\
      forall x, covered x (blocks blks) <-> covered x bs.
Proof.
  split; [exact demo_resolver_ok|]. split; [exact demo_sort_ok|].
  exact (ip_blocks_init_covers demo_resolver (fun _ => true) (merge_sort block_le) _ demo_resolver_ok demo_sort_ok).
Defined.

(** A block that ends in the last IPv4 address is not merged with the
    blocks inside it, so that their addresses are listed twice. *)
Theorem compress_last_address :
  let all := Block (demo_v4 0 0 0 0) (demo_v4 255 255 255 255) in
  let one := Block (demo_v4 10 0 0 0) (demo_v4 10 0 0 255) in
  compress_blocks [all; one] = Ret ([all; one], 2) /\ blockcmp all one < 0 /\
  forall x, in_block x one -> in_block x all.
Proof.
  intros all one. split_and!; [reflexivity|reflexivity|]. unfold in_block. simpl. intros x [-> Hx].
  unfold be_val in *. simpl in *. split; [done|lia].
Qed.

(** ** Iteration *)

Definition block_addrs (b : ip_block_t) : list ip_addr_t :=
  set_val (first b) <$> seqZ (addr_val (first b)) (addr_val (last b) - addr_val (first b) + 1).
Definition all_addrs (bs : list ip_block_t) : list ip_addr_t := bs ≫= block_addrs.

(** [n] calls in a row *)
Fixpoint blocks_nexts (n : nat) (blks : ip_blocks) : outcome (ip_blocks * list (Z * option ip_addr_t)) :=
  match n with
  | O => Ret (blks, [])
  | S n =>
      '(blks, r) ← ip_blocks_next blks;
      '(blks, rs) ← blocks_nexts n blks;
      Ret (blks, r :: rs)
  end.

(** the state of an iteration that has [rest] to give *)
Definition at_rest (bs : list ip_block_t) (blks : ip_blocks) (rest : list ip_addr_t) : Prop :=
  blocks blks = bs /\
  ((exists pre b post v, bs = pre ++ b :: post /\ curr_block blks = zlen pre /\
      start_addr blks b = set_val (first b) v /\ addr_val (first b) <= v <= addr_val (last b) /\
      rest = (set_val (first b) <$> seqZ v (addr_val (last b) - v + 1)) ++ all_addrs post) \/
   (curr_block blks = zlen bs /\ rest = [])).

Lemma start_addr_family blks b a : curr_addr blks = a -> sa_family a <> AF_UNSPEC -> start_addr blks b = a.
Proof. intros <- H. unfold start_addr. rewrite (proj2 (Z.eqb_neq _ _) H), andb_false_r. done. Qed.

Lemma wf_family a : wf_addr a -> sa_family a <> AF_UNSPEC.
Proof. by destruct a. Qed.

(** the start of the block after [pre] *)
Lemma at_block bs pre b post blks : Forall wf_block bs -> bs = pre ++ b :: post -> blocks blks = bs ->
  curr_block blks = zlen pre -> start_addr blks b = first b -> at_rest bs blks (all_addrs (b :: post)).
Proof.
  intros Hw -> Hb Hc Hs. split; [done|left]. exists pre, b, post, (addr_val (first b)).
  apply Forall_app in Hw as [_ Hw]. apply Forall_cons in Hw as [(H1 & _ & _ & H4) _].
  rewrite set_val_val by done. split_and!; done || lia.
Qed.

Lemma blocks_next_step bs blks a rest : Forall wf_block bs -> at_rest bs blks (a :: rest) ->
  exists blks', ip_blocks_next blks = Ret (blks', (1, Some a)) /\ at_rest bs blks' rest.
Proof.
  intros Hw [Hb [(pre & b & post & v & -> & Hc & Hs & Hv & Hr)|[_ [=]]]].
  apply Forall_app in Hw as Hwb. destruct Hwb as [_ Hwb]. apply Forall_cons in Hwb as [(H1 & H2 & H3 & H4) Hwp].
  pose proof (zlen_nonneg pre). pose proof (zlen_nonneg post).
  pose proof (addr_val_range _ H2) as Hrange. pose proof (addr_val_range _ H1) as Hrange1.
  rewrite <- (width_family _ _ H1 H2 H3) in Hrange.
  assert (Ev : addr_val (set_val (first b) v) = v) by (rewrite val_set_val by done; apply Z.mod_small; lia).
  assert (Hwv : wf_addr (set_val (first b) v)) by (by apply wf_set_val).
  unfold ip_blocks_next. rewrite Hb, Hc. rewrite (proj2 (Z.leb_gt _ _)) by (zlen_simpl; lia).
  rewrite rd_mid. cbn [mbind outcome_mbind]. rewrite Hs.
  rewrite cmp_fst, key_val by (done || (rewrite <- H3; apply kind_family, kind_set_val)). rewrite Ev.
  destruct (Z.ltb_spec (Z.sgn (v - addr_val (last b))) 0) as [Hlt|Hge].
  - rewrite seqZ_cons in Hr by lia. cbn [fmap list_fmap app] in Hr. injection Hr as -> ->.
    eexists. split; [done|]. split; [done|left]. exists pre, b, post, (v + 1). cbn [blocks curr_block].
    split_and!; try done; try lia.
    + erewrite start_addr_family; [|done|].
      * rewrite ip_addr_add_val by (done || lia). rewrite Ev. by destruct (first b).
      * apply wf_family. by apply add_one.
    + by replace (addr_val (last b) - (v + 1) + 1) with (Z.pred (addr_val (last b) - v + 1)) by lia.
  - assert (v = addr_val (last b)) as -> by lia. rewrite Z.sub_diag in Hr. simpl in Hr. injection Hr as -> ->.
    cbv zeta. destruct post as [|b' post].
    + rewrite (proj2 (Z.ltb_ge _ _)) by (zlen_simpl; lia). eexists. split; [done|]. split; [done|right].
      cbn [curr_block]. split; [zlen_simpl; lia|done].
    + rewrite (proj2 (Z.ltb_lt _ _)) by (zlen_simpl; pose proof (zlen_nonneg post); lia).
      replace (pre ++ b :: b' :: post) with ((pre ++ [b]) ++ b' :: post) by (by rewrite <- app_assoc).
      rewrite rd_mid' by (zlen_simpl; lia). cbn [mbind outcome_mbind].
      eexists. split; [done|]. apply (at_block _ (pre ++ [b])); try done.
      * by rewrite <- app_assoc.
      * cbn [curr_block]. zlen_simpl. lia.
      * apply start_addr_family; [done|]. apply wf_family. apply Forall_cons in Hwp as [(Hf & _) _]. done.
Qed.

Lemma blocks_next_end bs blks : at_rest bs blks [] -> ip_blocks_next blks = Ret (ip_blocks_reset blks, (0, None)).
Proof.
  intros [Hb [(pre & b & post & v & _ & _ & _ & Hv & Hr)|[Hc _]]].
  - rewrite seqZ_cons in Hr by lia. done.
  - unfold ip_blocks_next. rewrite Hb, Hc, Z.leb_refl. done.
Qed.

Lemma reset_at_rest bs : Forall wf_block bs -> at_rest bs (Blocks bs 0 (Family AF_UNSPEC)) (all_addrs bs).
Proof.
  intros Hw. destruct bs as [|b bs]; [split; [done|by right]|]. by apply (at_block _ []).
Qed.

Lemma nexts_at_rest bs : Forall wf_block bs -> forall rest blks, at_rest bs blks rest ->
  blocks_nexts (S (length rest)) blks =
    Ret (Blocks bs 0 (Family AF_UNSPEC), ((fun a => (1, Some a)) <$> rest) ++ [(0, None)]).
Proof.
  intros Hw. induction rest as [|a rest IH]; intros blks Hr.
  - cbn [blocks_nexts length]. rewrite (blocks_next_end bs) by done. destruct Hr as [<- _]. done.
  - cbn [length]. cbn [blocks_nexts]. destruct (blocks_next_step bs blks a rest Hw Hr) as (blks' & -> & Hr').
    cbn [mbind outcome_mbind]. specialize (IH blks' Hr'). cbn [blocks_nexts] in IH. by rewrite IH.
Qed.

(** After a reset, the calls of [ip_blocks_next] give the addresses of
    each block from its first to its last one, block after block, and then
    report the end and leave the iteration reset. *)
Theorem ip_blocks_next_all bs : Forall wf_block bs ->
  blocks_nexts (S (length (all_addrs bs))) (Blocks bs 0 (Family AF_UNSPEC)) =
    Ret (Blocks bs 0 (Family AF_UNSPEC), ((fun a => (1, Some a)) <$> all_addrs bs) ++ [(0, None)]) /\
  forall x, x ∈ all_addrs bs <-> wf_addr x /\ covered x bs.
Proof.
  intros Hw. split; [by apply (nexts_at_rest bs), reset_at_rest|]. intros x. unfold all_addrs, covered.
  rewrite list_elem_of_bind, Exists_exists. unfold block_addrs, in_block. rewrite Forall_forall in Hw. split.
  - intros (b & Hx & Hb). destruct (Hw b Hb) as (H1 & H2 & H3 & H4).
    apply list_elem_of_fmap in Hx as (v & -> & Hv%elem_of_seqZ).
    split; [by apply wf_set_val|]. exists b. split; [done|]. rewrite kind_set_val, val_set_val by done.
    pose proof (addr_val_range _ H1). pose proof (addr_val_range _ H2) as Hr2.
    rewrite <- (width_family _ _ H1 H2 H3) in Hr2. rewrite Z.mod_small by lia. split; [done|lia].
  - intros (Hwx & b & Hb & Hk & Hv). destruct (Hw b Hb) as (H1 & _). exists b. split; [|done].
    apply list_elem_of_fmap. exists (addr_val x). split; [|apply elem_of_seqZ; lia].
    apply addr_ext; [done|by apply wf_set_val|by rewrite kind_set_val|].
    rewrite val_set_val by done. pose proof (addr_val_range _ Hwx). symmetry. apply Z.mod_small.
    by rewrite <- (width_family x (first b) Hwx H1 (kind_family _ _ Hk)).
Qed.

Definition demo_blocks : list ip_block_t :=
  [Block (demo_v4 10 0 0 255) (demo_v4 10 0 1 1); Block (demo_v4 10 0 2 0) (demo_v4 10 0 2 0)].

Lemma ip_blocks_next_all_witness : Forall wf_block demo_blocks /\
  (blocks_nexts (S (length (all_addrs demo_blocks))) (Blocks demo_blocks 0 (Family AF_UNSPEC)) =
    Ret (Blocks demo_blocks 0 (Family AF_UNSPEC), ((fun a => (1, Some a)) <$> all_addrs demo_blocks) ++ [(0, None)]) /\
  forall x, x ∈ all_addrs demo_blocks <-> wf_addr x /\ covered x demo_blocks).
Proof.
  assert (Hw : Forall wf_block demo_blocks).
  { repeat constructor; simpl; try (unfold is_byte; lia); unfold be_val; simpl; lia. }
  split; [exact Hw|exact (ip_blocks_next_all demo_blocks Hw)].
Defined.
