(* ===== verification/IpR4.v ===== *)
(** * Printing and reordered iteration of lists of blocks (src/lib/net/ip.c)

    [ip_blocks_to_buf] and the operations of [struct ip_r4blocks], which give
    the addresses of the blocks in turns: those of IPv4 blocks in the order
    of a [reorder32], those of IPv6 blocks in increasing order. *)

From stdpp Require Import sorting.
From S2P Require Import Prelude CLib Buf Reorder RoundRobin Ip.

(** ** Printing *)

Section Printing.
Context (getnameinfo : ip_addr_t -> Z -> Z + bytes) (alloc_ok : Z -> bool).

(** the loop over the blocks that follow the current one; the result of
    [buf_achar] is ignored *)
Fixpoint print_loop (bs : list ip_block_t) (b : buf_t) : outcome (buf_t * result unit) :=
  match bs with
  | [] => Ret (b, inr tt)
  | blk :: bs =>
      match ip_block_to_str getnameinfo blk 128 with
      | inl e => Ret (b, inl e)
      | inr s =>
          '(b, _) ← buf_achar alloc_ok b 32;
          '(b, ret) ← buf_adata alloc_ok b s;
          if ret <? 0 then Ret (b, inl (Some EAI_MEMORY)) else print_loop bs b
      end
  end.

Definition ip_blocks_to_buf (blks : ip_blocks) (b : buf_t) : outcome (ip_blocks * buf_t * result unit) :=
  let b := buf_clear b in
  if zlen (blocks blks) <=? curr_block blks then Ret (blks, b, inr tt)
  else
    blk ← rd (blocks blks) (curr_block blks);
    let blks := Blocks (blocks blks) (curr_block blks) (start_addr blks blk) in
    match ip_block_to_str getnameinfo (Block (curr_addr blks) (last blk)) 128 with
    | inl e => Ret (blks, b, inl e)
    | inr s =>
        '(b, ret) ← buf_adata alloc_ok b s;
        if ret <? 0 then Ret (blks, b, inl (Some EAI_MEMORY))
        else
          '(b, ret) ← print_loop (drop (Z.to_nat (curr_block blks + 1)) (blocks blks)) b;
          Ret (blks, b, ret)
    end.

End Printing.

(** ** Reordered iteration *)

(** [r4_blks] is the list that the pointer [blocks] leads to *)
Record ip_r4blocks : Type := R4Blocks {
  r4_blks : list ip_block_t;
  blockmap : list Z;
  ip4blocks : list reorder32;
  ip6_curraddrs : list ip_addr_t;
  mapindex : Z;
}.

(** the loop that sets up the blocks, from index [i]; the ends of a block are
    of one family *)
Fixpoint reset_loop (bs : list ip_block_t) (i : Z) (v4 : list reorder32) (v6 : list ip_addr_t) :
    outcome (list reorder32 * list ip_addr_t * Z) :=
  match bs with
  | [] => Ret (v4, v6, 0)
  | b :: bs =>
      let af := sa_family (first b) in
      if af =? AF_INET then
        v4 ← wr v4 i (reorder32_init (addr_val (first b)) (addr_val (last b)));
        reset_loop bs (i + 1) v4 v6
      else if af =? AF_INET6 then
        v6 ← wr v6 i (first b);
        reset_loop bs (i + 1) v4 v6
      else Ret (v4, v6, -1)
  end.

Definition ip_r4blocks_reset (r4 : ip_r4blocks) : outcome (ip_r4blocks * Z) :=
  let n := zlen (r4_blks r4) in
  map ← map_loop (Z.to_nat (2 * n)) (Z.to_nat n) (reorder32_init 0 (u32 (n - 1)));
  '(v4, v6, ret) ← reset_loop (r4_blks r4) 0 (ip4blocks r4) (ip6_curraddrs r4);
  Ret (R4Blocks (r4_blks r4) map v4 v6 (mapindex r4), ret).

(** when the blocks cannot be set up, [r4] keeps the pointers to the freed arrays *)
Definition ip_r4blocks_init (alloc_ok : Z -> bool) (r4 : ip_r4blocks) (blks : list ip_block_t) :
    outcome (ip_r4blocks * Z) :=
  let n := zlen blks in
  if INT_MAX <? n then Ret (r4, -1)
  else
    let r4 := R4Blocks blks (blockmap r4) (ip4blocks r4) (ip6_curraddrs r4) (mapindex r4) in
    if n =? 0 then Ret (r4, 0)
    else if negb (alloc_ok (4 * n)) then Ret (r4, -1)
    else if negb (alloc_ok (28 * n)) then Ret (r4, -1)
    else if negb (alloc_ok (28 * n)) then Ret (r4, -1)
    else
      '(r4, ret) ← ip_r4blocks_reset
        (R4Blocks blks (replicate (Z.to_nat n) 0) (replicate (Z.to_nat n) (Reorder 0 0 0 0 0 0 0))
           (replicate (Z.to_nat n) (Family 0)) 0);
      if ret <? 0 then Ret (r4, -1) else Ret (r4, 0).

Definition ip_r4blocks_cleanup (r4 : ip_r4blocks) : ip_r4blocks := R4Blocks [] [] [] [] 0.

(** the body after the label [again]: [jumps] bounds the jumps back to it and
    [fuel] the turns of the loop in [reorder32_next] *)
Fixpoint r4_again (fuel jumps : nat) (r4 : ip_r4blocks) : outcome (ip_r4blocks * (Z * option ip_addr_t)) :=
  match jumps with
  | O => OutOfFuel
  | S jumps =>
      let n := zlen (r4_blks r4) in
      curr ← scan_map (Z.to_nat n) n (blockmap r4) (mapindex r4) (mapindex r4);
      m ← rd (blockmap r4) curr;
      if (curr =? mapindex r4) && (m <? 0) then
        '(r4, _) ← ip_r4blocks_reset r4;
        Ret (r4, (0, None))
      else
        blk ← rd (r4_blks r4) m;
        let af := sa_family (first blk) in
        if af =? AF_INET then
          range ← rd (ip4blocks r4) m;
          '(range, (ret, next4)) ← reorder32_next fuel range;
          v4 ← wr (ip4blocks r4) m range;
          if ret =? 0 then
            map ← wr (blockmap r4) curr (-1);
            r4_again fuel jumps (R4Blocks (r4_blks r4) map v4 (ip6_curraddrs r4) curr)
          else
            Ret (R4Blocks (r4_blks r4) (blockmap r4) v4 (ip6_curraddrs r4) curr,
              (1, match next4 with Some x => Some (Inet (be_bytes 4 x)) | None => None end))
        else if af =? AF_INET6 then
          addr ← rd (ip6_curraddrs r4) m;
          if (ip_addr_cmp addr (last blk)).1 <? 0 then
            v6 ← wr (ip6_curraddrs r4) m (ip_addr_add addr 1);
            Ret (R4Blocks (r4_blks r4) (blockmap r4) (ip4blocks r4) v6 curr, (1, Some addr))
          else
            map ← wr (blockmap r4) curr (-1);
            Ret (R4Blocks (r4_blks r4) map (ip4blocks r4) (ip6_curraddrs r4) curr, (1, Some addr))
        else Ret (R4Blocks (r4_blks r4) (blockmap r4) (ip4blocks r4) (ip6_curraddrs r4) curr, (1, None))
  end.

Definition ip_r4blocks_next (fuel : nat) (r4 : ip_r4blocks) : outcome (ip_r4blocks * (Z * option ip_addr_t)) :=
  if zlen (r4_blks r4) =? 0 then Ret (r4, (0, None))
  else r4_again fuel (S (length (r4_blks r4))) r4.

(** [n] calls in a row *)
Fixpoint r4_nexts (fuel n : nat) (r4 : ip_r4blocks) : outcome (ip_r4blocks * list (Z * option ip_addr_t)) :=
  match n with
  | O => Ret (r4, [])
  | S n =>
      '(r4, r) ← ip_r4blocks_next fuel r4;
      '(r4, l) ← r4_nexts fuel n r4;
      Ret (r4, r :: l)
  end.

(** *** What is left of a block *)

Definition left4 (v4 : list reorder32) (m : Z) (l : list ip_addr_t) : Prop :=
  exists blk k lo nit ys, v4 !! Z.to_nat m = Some blk /\ iterating k lo nit ys blk /\
    0 <= k <= 32 /\ 0 <= lo /\ 0 <= nit < UINT32_MAX /\ lo + nit < 2 ^ 32 /\
    l = (fun y => Inet (be_bytes 4 (lo + y))) <$> ys.

Definition left6 (v6 : list ip_addr_t) (m : Z) (b : ip_block_t) (l : list ip_addr_t) : Prop :=
  exists v, v6 !! Z.to_nat m = Some (set_val (first b) v) /\ addr_val (first b) <= v <= addr_val (last b) /\
    l = set_val (first b) <$> seqZ v (addr_val (last b) - v + 1).

Definition holds (bs : list ip_block_t) (s : list reorder32 * list ip_addr_t) (m : Z) (l : list ip_addr_t) : Prop :=
  exists b, bs !! Z.to_nat m = Some b /\ wf_block b /\
    (sa_family (first b) = AF_INET /\ left4 s.1 m l \/ sa_family (first b) = AF_INET6 /\ left6 s.2 m b l).

Lemma blocks_holds_frame bs v4 v6 v4' v6' m k r : k <> m -> 0 <= k -> 0 <= m ->
  (v4' = v4 \/ exists x, v4' = <[Z.to_nat m := x]> v4) -> (v6' = v6 \/ exists x, v6' = <[Z.to_nat m := x]> v6) ->
  holds bs (v4, v6) k r -> holds bs (v4', v6') k r.
Proof.
  intros Hk H0 H1 H4 H6 (b & Hb & Hw & Hl). exists b. split; [done|]. split; [done|]. unfold left4, left6 in *. simpl in *.
  assert (E4 : v4' !! Z.to_nat k = v4 !! Z.to_nat k) by (destruct H4 as [->|[x ->]]; [done|apply list_lookup_insert_ne; lia]).
  assert (E6 : v6' !! Z.to_nat k = v6 !! Z.to_nat k) by (destruct H6 as [->|[x ->]]; [done|apply list_lookup_insert_ne; lia]).
  by rewrite E4, E6.
Qed.

Definition r4_state (r4 : ip_r4blocks) (rems : list (list ip_addr_t)) : Prop :=
  turns (holds (r4_blks r4)) (ip4blocks r4, ip6_curraddrs r4) (blockmap r4) (zlen (r4_blks r4)) (mapindex r4) rems.

(** what a call does: it starts all over when nothing is left, otherwise it
    gives one of the addresses that are left *)
Definition again_result (r4 : ip_r4blocks) (rems : list (list ip_addr_t)) (res : outcome (ip_r4blocks * (Z * option ip_addr_t))) : Prop :=
  (concat rems = [] /\ exists map v4 v6 idx, 0 <= idx < zlen (r4_blks r4) /\ length v4 = length (ip4blocks r4) /\
     length v6 = length (ip6_curraddrs r4) /\
     res = (ip_r4blocks_reset (R4Blocks (r4_blks r4) map v4 v6 idx) ≫= fun '(r4, _) => Ret (r4, (0, None)))) \/
  exists r4' rems' x, concat rems ≡ₚ x :: concat rems' /\ r4_state r4' rems' /\ r4_blks r4' = r4_blks r4 /\
    length (ip4blocks r4') = length (ip4blocks r4) /\ length (ip6_curraddrs r4') = length (ip6_curraddrs r4) /\
    res = Ret (r4', (1, Some x)).

Lemma blocks_r4_again_spec fuel : (Z.to_nat (2 ^ 32) <= fuel)%nat -> forall jumps r4 rems, r4_state r4 rems ->
  (live (blockmap r4) < jumps)%nat -> again_result r4 rems (r4_again fuel jumps r4).
Proof.
  intros Hfu. induction jumps as [|jumps IH]; intros r4 rems Hst Hf; [lia|]. pose proof Hst as [Hl Hidx Hs _]. cbn [r4_again].
  set (n := zlen (r4_blks r4)) in *.
  destruct (scan_map_spec (blockmap r4) n (mapindex r4) Hl Hidx (Z.to_nat n) 0)
    as (curr & m & E & Hc & Em & Hdead); [lia|lia|lia|].
  rewrite Z.add_0_r, Z.mod_small in E by lia. rewrite E. cbn [mbind outcome_mbind]. rewrite Em. cbn [mbind outcome_mbind].
  assert (Hm := Em). apply rd_ret in Hm as [_ Hm].
  destruct (Z.ltb_spec m 0) as [Hneg|Hpos].
  { destruct (Hdead Hneg) as [-> Hall]. rewrite Z.eqb_refl. cbn [andb]. left. split; [by eapply turns_over|].
    exists (blockmap r4), (ip4blocks r4), (ip6_curraddrs r4), (mapindex r4). split_and!; done || lia. }
  rewrite andb_false_r. destruct (Forall2_lookup_l _ _ _ _ _ Hs Hm) as (rem & Hrem & [[? _]|(_ & b & Hb & Hw & Hleft)]); [lia|].
  assert (rd (r4_blks r4) m = Ret b) as -> by (by apply rd_ret). cbn [mbind outcome_mbind].
  destruct Hleft as [[Haf (blk & k & lo & nit & ys & Hblk & Hit & Hk & Hf0 & Hn0 & Hsum & Hrl)]|[Haf (v & Hv & Hvr & Hrl)]]; rewrite Haf.
  - change (AF_INET =? AF_INET) with true. cbv iota. simpl in Hblk.
    assert (rd (ip4blocks r4) m = Ret blk) as -> by (by apply rd_ret). cbn [mbind outcome_mbind].
    assert (Hbl := lookup_lt_Some _ _ _ Hblk). destruct ys as [|y ys].
    + rewrite (next_end k lo nit blk) by (done || lia). cbn [mbind outcome_mbind].
      rewrite !wr_in by (unfold zlen in *; lia). cbn [mbind outcome_mbind]. change (0 =? 0) with true. cbv iota.
      cbn [mbind outcome_mbind]. set (v4 := <[Z.to_nat m := _]> (ip4blocks r4)).
      assert (Hst' := turns_update (holds (r4_blks r4)) (ip4blocks r4, ip6_curraddrs r4) (v4, ip6_curraddrs r4) _ _ _ _ (Z.to_nat curr) m (-1) []
        Hst Hm Hpos (or_intror eq_refl) (or_introl (conj eq_refl eq_refl))
        (fun k' r Hk' H0 => blocks_holds_frame _ _ _ v4 _ m k' r Hk' H0 Hpos (or_intror (ex_intro _ _ eq_refl)) (or_introl eq_refl))).
      rewrite (list_insert_id rems), Z2Nat.id in Hst' by (lia || by rewrite Hrem, Hrl).
      rewrite (live_kill _ _ m Hm Hpos) in Hf.
      specialize (IH (R4Blocks (r4_blks r4) (<[Z.to_nat curr := -1]> (blockmap r4)) v4 (ip6_curraddrs r4) curr) rems Hst' ltac:(simpl; lia)).
      assert (Hlen : length v4 = length (ip4blocks r4)) by apply length_insert. clearbody v4.
      unfold again_result in *. cbn [r4_blks ip4blocks ip6_curraddrs] in IH. rewrite Hlen in IH. exact IH.
    + destruct (next_one k lo nit y ys blk fuel) as (blk' & -> & Hit' & Hy); try done; try lia.
      { pose proof (Z.pow_le_mono_r 2 k 32 ltac:(lia) ltac:(lia)). lia. }
      cbn [mbind outcome_mbind]. rewrite !wr_in by (unfold zlen in *; lia). cbn [mbind outcome_mbind].
      change (1 =? 0) with false. cbv iota. right. set (v4 := <[Z.to_nat m := blk']> (ip4blocks r4)).
      set (l' := (fun y => Inet (be_bytes 4 (lo + y))) <$> ys).
      assert (Hsl : slot (holds (r4_blks r4)) (v4, ip6_curraddrs r4) m l').
      { right. split; [done|]. exists b. split; [done|]. split; [done|]. left. split; [done|].
        exists blk', k, lo, nit, ys. split; [by apply list_lookup_insert_eq|done]. }
      assert (Hst' := turns_update (holds (r4_blks r4)) (ip4blocks r4, ip6_curraddrs r4) (v4, ip6_curraddrs r4) _ _ _ _ (Z.to_nat curr) m m l'
        Hst Hm Hpos (or_introl eq_refl) Hsl
        (fun k' r Hk' H0 => blocks_holds_frame _ _ _ v4 _ m k' r Hk' H0 Hpos (or_intror (ex_intro _ _ eq_refl)) (or_introl eq_refl))).
      rewrite (list_insert_id (blockmap r4)), Z2Nat.id in Hst' by (done || lia).
      eexists (R4Blocks (r4_blks r4) (blockmap r4) v4 (ip6_curraddrs r4) curr), (<[Z.to_nat curr := l']> rems), _.
      split; [apply concat_insert_perm; by rewrite Hrem, Hrl|]. split; [done|]. split; [done|].
      split; [apply length_insert|]. done.
  - change (AF_INET6 =? AF_INET) with false. change (AF_INET6 =? AF_INET6) with true. cbv iota. simpl in Hv.
    assert (rd (ip6_curraddrs r4) m = Ret (set_val (first b) v)) as -> by (by apply rd_ret). cbn [mbind outcome_mbind].
    assert (Hbl := lookup_lt_Some _ _ _ Hv). right. pose proof Hw as (H1 & H2 & H3 & _).
    pose proof (addr_val_range _ H2) as Hr2. rewrite <- (width_family _ _ H1 H2 H3) in Hr2. pose proof (addr_val_range _ H1).
    assert (Ev : addr_val (set_val (first b) v) = v) by (rewrite val_set_val by done; apply Z.mod_small; lia).
    assert (Hwv : wf_addr (set_val (first b) v)) by (by apply wf_set_val).
    rewrite cmp_fst, key_val by (done || (rewrite <- H3; apply kind_family, kind_set_val)). rewrite Ev.
    rewrite seqZ_cons in Hrl by lia. cbn [fmap list_fmap] in Hrl.
    destruct (Z.ltb_spec (Z.sgn (v - addr_val (last b))) 0) as [Hlt|Hge].
    + rewrite ip_addr_add_val, Ev by (done || lia). rewrite wr_in by (unfold zlen in *; lia). cbn [mbind outcome_mbind].
      replace (set_val (set_val (first b) v) (v + 1)) with (set_val (first b) (v + 1)) by (by destruct (first b)).
      set (v6 := <[Z.to_nat m := set_val (first b) (v + 1)]> (ip6_curraddrs r4)).
      set (l' := set_val (first b) <$> seqZ (v + 1) (addr_val (last b) - (v + 1) + 1)).
      assert (Hsl : slot (holds (r4_blks r4)) (ip4blocks r4, v6) m l').
      { right. split; [done|]. exists b. split; [done|]. split; [done|]. right. split; [done|].
        exists (v + 1). split; [by apply list_lookup_insert_eq|]. split; [lia|done]. }
      assert (Hst' := turns_update (holds (r4_blks r4)) (ip4blocks r4, ip6_curraddrs r4) (ip4blocks r4, v6) _ _ _ _ (Z.to_nat curr) m m l'
        Hst Hm Hpos (or_introl eq_refl) Hsl
        (fun k' r Hk' H0 => blocks_holds_frame _ _ _ _ v6 m k' r Hk' H0 Hpos (or_introl eq_refl) (or_intror (ex_intro _ _ eq_refl)))).
      rewrite (list_insert_id (blockmap r4)), Z2Nat.id in Hst' by (done || lia).
      eexists (R4Blocks (r4_blks r4) (blockmap r4) (ip4blocks r4) v6 curr), (<[Z.to_nat curr := l']> rems), _.
      split; [apply concat_insert_perm; rewrite Hrem, Hrl; do 3 f_equal; unfold l'; do 2 f_equal; lia|].
      split; [done|]. split; [done|]. split; [done|]. split; [apply length_insert|done].
    + rewrite wr_in by (unfold zlen in *; lia). cbn [mbind outcome_mbind].
      assert (Hst' := turns_update (holds (r4_blks r4)) (ip4blocks r4, ip6_curraddrs r4) (ip4blocks r4, ip6_curraddrs r4) _ _ _ _ (Z.to_nat curr) m (-1) []
        Hst Hm Hpos (or_intror eq_refl) (or_introl (conj eq_refl eq_refl)) (fun k' r Hk' H0 Hh => Hh)).
      rewrite Z2Nat.id in Hst' by lia.
      eexists (R4Blocks (r4_blks r4) (<[Z.to_nat curr := -1]> (blockmap r4)) (ip4blocks r4) (ip6_curraddrs r4) curr), (<[Z.to_nat curr := []]> rems), _.
      split; [apply concat_insert_perm; rewrite Hrem, Hrl; rewrite seqZ_nil by lia; done|]. done.
Qed.

Lemma reset_loop_spec : forall bs i v4 v6, Forall wf_block bs -> 0 <= i -> i + zlen bs <= zlen v4 -> i + zlen bs <= zlen v6 ->
  exists v4' v6', reset_loop bs i v4 v6 = Ret (v4', v6', 0) /\ length v4' = length v4 /\ length v6' = length v6 /\
    (forall j, (j < Z.to_nat i)%nat -> v4' !! j = v4 !! j /\ v6' !! j = v6 !! j) /\
    (forall j b, bs !! j = Some b ->
      (sa_family (first b) = AF_INET -> v4' !! (Z.to_nat i + j)%nat = Some (reorder32_init (addr_val (first b)) (addr_val (last b)))) /\
      (sa_family (first b) = AF_INET6 -> v6' !! (Z.to_nat i + j)%nat = Some (first b))).
Proof.
  induction bs as [|b bs IH]; intros i v4 v6 Hw Hi H4 H6; [by exists v4, v6|].
  apply Forall_cons in Hw as [Hb Hw]. rewrite zlen_cons in H4, H6. pose proof (zlen_nonneg bs). cbn [reset_loop].
  assert (Hstep : forall v4b v6b, length v4b = length v4 -> length v6b = length v6 ->
    (forall j, j <> Z.to_nat i -> v4b !! j = v4 !! j /\ v6b !! j = v6 !! j) ->
    (sa_family (first b) = AF_INET -> v4b !! Z.to_nat i = Some (reorder32_init (addr_val (first b)) (addr_val (last b)))) ->
    (sa_family (first b) = AF_INET6 -> v6b !! Z.to_nat i = Some (first b)) ->
    exists v4' v6', reset_loop bs (i + 1) v4b v6b = Ret (v4', v6', 0) /\ length v4' = length v4 /\ length v6' = length v6 /\
    (forall j, (j < Z.to_nat i)%nat -> v4' !! j = v4 !! j /\ v6' !! j = v6 !! j) /\
    (forall j b', (b :: bs) !! j = Some b' ->
      (sa_family (first b') = AF_INET -> v4' !! (Z.to_nat i + j)%nat = Some (reorder32_init (addr_val (first b')) (addr_val (last b')))) /\
      (sa_family (first b') = AF_INET6 -> v6' !! (Z.to_nat i + j)%nat = Some (first b')))).
  { intros v4b v6b L4 L6 Hsame E4 E6.
    destruct (IH (i + 1) v4b v6b Hw ltac:(lia)) as (v4' & v6' & -> & L4' & L6' & Hlow & Hbs); [unfold zlen in *; lia..|].
    exists v4', v6'. split_and!; [done|congruence|congruence| |].
    - intros j Hj. destruct (Hlow j) as [-> ->]; [lia|]. apply Hsame. lia.
    - intros [|j] b' Hb'.
      + injection Hb' as <-. rewrite Nat.add_0_r. destruct (Hlow (Z.to_nat i)) as [-> ->]; [lia|]. done.
      + replace (Z.to_nat i + S j)%nat with (Z.to_nat (i + 1) + j)%nat by lia. by apply Hbs. }
  destruct (first b) as [x|x z|f] eqn:Ef; simpl sa_family in *.
  - change (AF_INET =? AF_INET) with true. cbv iota. rewrite wr_in by lia. cbn [mbind outcome_mbind].
    apply Hstep; [apply length_insert|done| |intros _; apply list_lookup_insert_eq; unfold zlen in *; lia|done].
    intros j Hj. by rewrite list_lookup_insert_ne.
  - change (AF_INET6 =? AF_INET) with false. change (AF_INET6 =? AF_INET6) with true. cbv iota. rewrite wr_in by lia.
    cbn [mbind outcome_mbind].
    apply Hstep; [done|apply length_insert| |done|intros _; apply list_lookup_insert_eq; unfold zlen in *; lia].
    intros j Hj. by rewrite list_lookup_insert_ne.
  - destruct Hb as [Hb _]. rewrite Ef in Hb. done.
Qed.

(** a block of all IPv4 addresses is left out, see [reorder32_full_range_endless] *)
Definition not_full (b : ip_block_t) : Prop :=
  sa_family (first b) = AF_INET -> addr_val (last b) - addr_val (first b) < UINT32_MAX.

Lemma blocks_block_holds bs m b v4 v6 : bs !! Z.to_nat m = Some b -> wf_block b -> not_full b ->
  (sa_family (first b) = AF_INET -> v4 !! Z.to_nat m = Some (reorder32_init (addr_val (first b)) (addr_val (last b)))) ->
  (sa_family (first b) = AF_INET6 -> v6 !! Z.to_nat m = Some (first b)) ->
  exists l, holds bs (v4, v6) m l /\ l ≡ₚ block_addrs b.
Proof.
  intros Hb Hw Hnf E4 E6. pose proof Hw as (H1 & H2 & H3 & H4). unfold not_full, UINT32_MAX in Hnf.
  pose proof (addr_val_range _ H2) as Hr2. rewrite <- (width_family _ _ H1 H2 H3) in Hr2. pose proof (addr_val_range _ H1).
  unfold block_addrs. destruct (first b) as [x|x z|f] eqn:Ef; [| |done].
  - specialize (E4 eq_refl). specialize (Hnf eq_refl). cbn [width] in *.
    destruct (init_iterating (addr_val (Inet x)) (addr_val (last b))) as (k & ys & Hk & _ & _ & Hi & Hp); [lia|lia|].
    exists ((fun y => Inet (be_bytes 4 (addr_val (Inet x) + y))) <$> ys). split.
    + exists b. split; [done|]. split; [done|]. left. rewrite Ef. split; [done|].
      exists (reorder32_init (addr_val (Inet x)) (addr_val (last b))), k, (addr_val (Inet x)), (addr_val (last b) - addr_val (Inet x)), ys.
      unfold UINT32_MAX. split_and!; done || lia.
    + rewrite Hp. cbn [set_val]. rewrite (list_fmap_compose (fun y => addr_val (Inet x) + y) (fun v => Inet (be_bytes 4 v))).
      by rewrite fmap_add_seqZ, Z.add_0_r.
  - specialize (E6 eq_refl). eexists. split; [|reflexivity]. exists b. split; [done|]. split; [done|]. right. rewrite Ef.
    split; [done|]. unfold left6. rewrite Ef. exists (addr_val (Inet6 x z)). rewrite set_val_val by done. split; [done|]. split; [lia|done].
Qed.

Definition r4_ready (bs : list ip_block_t) : Prop := 0 < zlen bs <= INT_MAX /\ Forall wf_block bs /\ Forall not_full bs.

Lemma blocks_reset_spec r4 : r4_ready (r4_blks r4) -> 0 <= mapindex r4 < zlen (r4_blks r4) ->
  length (ip4blocks r4) = length (r4_blks r4) -> length (ip6_curraddrs r4) = length (r4_blks r4) ->
  exists r4' rems, ip_r4blocks_reset r4 = Ret (r4', 0) /\ r4_state r4' rems /\ concat rems ≡ₚ all_addrs (r4_blks r4) /\
    r4_blks r4' = r4_blks r4 /\ length (ip4blocks r4') = length (r4_blks r4) /\ length (ip6_curraddrs r4') = length (r4_blks r4).
Proof.
  intros (Hn & Hw & Hnf) Hidx L4 L6. unfold ip_r4blocks_reset. set (n := zlen (r4_blks r4)) in *.
  destruct (map_loop_perm n Hn) as (map & -> & Hp). cbn [mbind outcome_mbind].
  destruct (reset_loop_spec (r4_blks r4) 0 (ip4blocks r4) (ip6_curraddrs r4) Hw) as (v4 & v6 & -> & L4' & L6' & _ & Hbs);
    [lia|unfold zlen; lia..|]. cbn [mbind outcome_mbind].
  set (items := fun m => match r4_blks r4 !! Z.to_nat m with Some b => block_addrs b | None => [] end).
  destruct (turns_start (holds (r4_blks r4)) (v4, v6) map n (mapindex r4) items Hp Hidx) as (rems & Ht & Hc).
  { intros m Hm. destruct (lookup_lt_is_Some_2 (r4_blks r4) (Z.to_nat m)) as [b Hb]; [unfold n, zlen in Hm; lia|].
    unfold items. rewrite Hb. destruct (Hbs _ _ Hb) as [E4 E6].
    apply blocks_block_holds; try done; by eapply Forall_lookup_1. }
  eexists _, rems. split; [done|]. split; [done|]. cbn [r4_blks ip4blocks ip6_curraddrs]. split; [|split_and!; done || congruence].
  unfold all_addrs. by rewrite Hc, (bind_indexed block_addrs).
Qed.

Lemma blocks_r4_nexts_cons fuel n r4 r4' r r4'' l : ip_r4blocks_next fuel r4 = Ret (r4', r) -> r4_nexts fuel n r4' = Ret (r4'', l) ->
  r4_nexts fuel (S n) r4 = Ret (r4'', r :: l).
Proof. intros E E'. cbn [r4_nexts]. rewrite E. cbn [mbind outcome_mbind]. by rewrite E'. Qed.

Definition r4_over (r4 : ip_r4blocks) (bs : list ip_block_t) : Prop :=
  r4_blks r4 = bs /\ length (ip4blocks r4) = length bs /\ length (ip6_curraddrs r4) = length bs.

(** a whole iteration *)
Lemma blocks_r4_nexts_spec fuel bs : (Z.to_nat (2 ^ 32) <= fuel)%nat -> r4_ready bs -> forall n r4 rems, r4_state r4 rems ->
  length (concat rems) = n -> r4_over r4 bs ->
  exists r4' rems' l, r4_nexts fuel (S (length l)) r4 = Ret (r4', ((fun a => (1, Some a)) <$> l) ++ [(0, None)]) /\
    l ≡ₚ concat rems /\ r4_state r4' rems' /\ concat rems' ≡ₚ all_addrs bs /\ r4_over r4' bs.
Proof.
  intros Hfu Hready. pose proof Hready as [Hn0 _]. induction n as [|n IH]; intros r4 rems Hst Hn (Hb & L4 & L6); pose proof Hst as [Hl _ _ _];
    (assert (Hlive : (live (blockmap r4) < S (length (r4_blks r4)))%nat)
      by (pose proof (live_le (blockmap r4)); unfold zlen in Hl; lia));
    (assert (Hnext : ip_r4blocks_next fuel r4 = r4_again fuel (S (length (r4_blks r4))) r4)
      by (unfold ip_r4blocks_next; rewrite Hb; by rewrite (proj2 (Z.eqb_neq _ 0)) by lia));
    destruct (blocks_r4_again_spec fuel Hfu _ r4 rems Hst Hlive) as
      [(He & mp & v4 & v6 & idx & Hi & E4 & E6 & Ea)|(r4' & rems' & x & Hp & Hst' & Eb & E4 & E6 & Ea)]; rewrite Ea in Hnext.
  - destruct (blocks_reset_spec (R4Blocks (r4_blks r4) mp v4 v6 idx)) as (r4'' & rems'' & Er' & Hst'' & Hp'' & Eb'' & L4'' & L6'');
      cbn [r4_blks mapindex ip4blocks ip6_curraddrs] in *; [by rewrite Hb|done|congruence|congruence|]. rewrite Hb in *.
    exists r4'', rems'', []. split; [|by rewrite He].
    cbn [r4_nexts length]. rewrite Hnext, Er'. done.
  - rewrite Hp in Hn. done.
  - rewrite He in Hn. done.
  - rewrite Hp in Hn. injection Hn as Hn.
    destruct (IH r4' rems' Hst' Hn) as (r4'' & rems'' & l & E & Hpl & Hst'' & Hp'' & Hov''); [unfold r4_over; split_and!; congruence|].
    exists r4'', rems'', (x :: l). split; [by apply (blocks_r4_nexts_cons _ _ r4 r4')|]. by rewrite Hpl.
Qed.

(** C31: when memory does not run out, the reordered iteration over a list of
    blocks, none of which is all of the IPv4 addresses, gives every address of
    every block as often as the blocks have it, each block's turn coming
    around in the order of the block map, then reports the end, where it is
    set up again: a second iteration gives the same addresses. *)
Theorem ip_r4blocks_next_enumerates alloc_ok fuel r4_0 bs :
  (forall n, alloc_ok n = true) -> (Z.to_nat (2 ^ 32) <= fuel)%nat -> r4_ready bs ->
  exists r4, ip_r4blocks_init alloc_ok r4_0 bs = Ret (r4, 0) /\
    exists r4' l, r4_nexts fuel (S (length l)) r4 = Ret (r4', ((fun a => (1, Some a)) <$> l) ++ [(0, None)]) /\ l ≡ₚ all_addrs bs /\
      exists r4'' l', r4_nexts fuel (S (length l')) r4' = Ret (r4'', ((fun a => (1, Some a)) <$> l') ++ [(0, None)]) /\ l' ≡ₚ l.
Proof.
  intros Ha Hfu Hready. pose proof Hready as (Hn & Hw & _). unfold ip_r4blocks_init. rewrite (proj2 (Z.ltb_ge INT_MAX _)) by lia.
  rewrite (proj2 (Z.eqb_neq (zlen bs) 0)) by lia. rewrite !Ha. cbn [negb].
  set (r40 := R4Blocks bs _ _ _ 0).
  assert (Ln : Z.to_nat (zlen bs) = length bs) by (unfold zlen; lia).
  destruct (blocks_reset_spec r40) as (r41 & rems & -> & Hst & Hp & Eb & L4 & L6); cbn [r40 r4_blks mapindex ip4blocks ip6_curraddrs];
    [done|lia|by rewrite length_replicate|by rewrite length_replicate|]. cbn [r40 r4_blks] in *.
  cbn [mbind outcome_mbind]. change (0 <? 0) with false. cbv iota. exists r41. split; [done|].
  destruct (blocks_r4_nexts_spec fuel bs Hfu Hready _ r41 rems Hst eq_refl (conj Eb (conj L4 L6))) as (r42 & rems2 & l & E & Hl & Hst2 & Hp2 & Hov2).
  destruct (blocks_r4_nexts_spec fuel bs Hfu Hready _ r42 rems2 Hst2 eq_refl Hov2) as (r43 & _ & l' & E' & Hl' & _).
  exists r42, l. split; [done|]. split; [by rewrite Hl|]. exists r43, l'. split; [done|]. by rewrite Hl', Hl, Hp2.
Qed.

Lemma demo_ready : r4_ready demo_blocks.
Proof.
  split; [vm_compute; split; [reflexivity|discriminate]|]. split.
  - repeat constructor; simpl; try (unfold is_byte; lia); unfold be_val; simpl; lia.
  - repeat constructor; intros _; reflexivity.
Qed.

Lemma ip_r4blocks_next_enumerates_witness : r4_ready demo_blocks /\
  exists r4, ip_r4blocks_init (fun _ => true) (R4Blocks [] [] [] [] 0) demo_blocks = Ret (r4, 0) /\
    exists r4' l, r4_nexts (Z.to_nat (2 ^ 32)) (S (length l)) r4 = Ret (r4', ((fun a => (1, Some a)) <$> l) ++ [(0, None)]) /\ l ≡ₚ all_addrs demo_blocks /\
      exists r4'' l', r4_nexts (Z.to_nat (2 ^ 32)) (S (length l')) r4' = Ret (r4'', ((fun a => (1, Some a)) <$> l') ++ [(0, None)]) /\ l' ≡ₚ l.
Proof.
  split; [apply demo_ready|].
  exact (ip_r4blocks_next_enumerates (fun _ => true) (Z.to_nat (2 ^ 32)) (R4Blocks [] [] [] [] 0) demo_blocks (fun _ => eq_refl) (le_n _) demo_ready).
Defined.
