(* ===== verification/Vaguever.v ===== *)
(** * Versions of up to four numbers (src/lib/util/vaguever.c)

    Parsing, printing and comparison; an [int] that overflows while a number
    is read wraps. *)

From S2P Require Import Prelude CLib.

Definition VAGUEVER_NFIELDS : Z := 4.

(** [fields] has [VAGUEVER_NFIELDS] numbers: major, minor, patch and build *)
Record vaguever_version : Type := Version {
  nused : Z;
  fields : list Z;
}.

(** what a character that is no digit does with a number that was read *)
Definition put_field (hasval : bool) (fs : list Z) (i val : Z) : outcome (list Z * Z) :=
  if hasval then fs ← wr fs i val; Ret (fs, i + 1) else Ret (fs, i).

(** the loop over the characters, the terminator included; [i] is the number
    of fields read *)
Fixpoint init_loop (s : bytes) (i val : Z) (hasval : bool) (fs : list Z) : outcome (list Z * Z) :=
  match s with
  | [] => put_field hasval fs i val
  | ch :: s =>
      if isdigit ch then init_loop s i (i32 (i32 (val * 10) + (ch - 48))) true fs
      else
        '(fs, i) ← put_field hasval fs i val;
        if negb (ch =? 46) || (VAGUEVER_NFIELDS <=? i) then Ret (fs, i) else init_loop s i 0 false fs
  end.

Definition vaguever_init (str : bytes) : outcome vaguever_version :=
  '(fs, i) ← init_loop str 0 0 false (replicate (Z.to_nat VAGUEVER_NFIELDS) 0);
  Ret (Version (if i <? 1 then 1 else i) fs).

(** ["%u"] *)
Fixpoint dec_loop (room : nat) (v : Z) (acc : bytes) : bytes :=
  match room with
  | O => acc
  | S room => let acc := (48 + v mod 10) :: acc in if v / 10 =? 0 then acc else dec_loop room (v / 10) acc
  end.
Definition pct_u (v : Z) : bytes := dec_loop 10 (u32 v) [].

(** the formats have one, two, three or four numbers with dots in between *)
Fixpoint format_fields (fs : list Z) : bytes :=
  match fs with
  | [] => []
  | [f] => pct_u f
  | f :: fs => pct_u f ++ [46] ++ format_fields fs
  end.

(** the string written to [out], of [len] bytes *)
Definition vaguever_str (v : vaguever_version) (len : Z) : bytes :=
  let n := if (nused v =? 1) || (nused v =? 2) || (nused v =? 3) then nused v else 4 in
  take (Z.to_nat (len - 1)) (format_fields (take (Z.to_nat n) (fields v))).

Fixpoint cmp_loop (fs gs : list Z) : Z :=
  match fs, gs with
  | f :: fs, g :: gs =>
      let diff := (if g <? f then 1 else 0) - (if f <? g then 1 else 0) in
      if negb (diff =? 0) then diff else cmp_loop fs gs
  | _, _ => 0
  end.

Definition vaguever_cmp (v1 v2 : vaguever_version) : Z := cmp_loop (fields v1) (fields v2).

(** ** Parsing *)

Definition is_digits (ds : bytes) : Prop := Forall (fun c => 48 <= c <= 57) ds.
Definition dec_val (n : Z) (ds : bytes) : Z := foldl (fun n c => n * 10 + (c - 48)) n ds.

Lemma isdigit_spec c : 48 <= c <= 57 -> isdigit c = true.
Proof. intros H. unfold isdigit. by rewrite (proj2 (Z.leb_le _ _)), (proj2 (Z.leb_le _ _)) by lia. Qed.

Lemma dec_val_grows ds : is_digits ds -> forall n, 0 <= n -> n <= dec_val n ds.
Proof.
  induction 1 as [|c ds Hc _ IH]; intros n Hn; [done|]. unfold dec_val in *. cbn [foldl].
  specialize (IH (n * 10 + (c - 48)) ltac:(lia)). lia.
Qed.

Lemma init_loop_digits ds : is_digits ds -> forall r i val h fs, 0 <= val -> dec_val val ds <= INT_MAX -> ds <> [] ->
  init_loop (ds ++ r) i val h fs = init_loop r i (dec_val val ds) true fs.
Proof.
  unfold INT_MAX. induction 1 as [|c ds Hc Hds IH]; intros r i val h fs Hv Hmax Hne; [done|]. cbn [app init_loop].
  rewrite isdigit_spec by done. unfold dec_val in *. cbn [foldl] in *.
  pose proof (dec_val_grows ds Hds (val * 10 + (c - 48)) ltac:(lia)) as Hg. unfold dec_val in Hg.
  rewrite !(sw_small 32) by (rewrite ?sw_small; simpl; lia).
  destruct ds as [|d ds]; [done|]. apply IH; [lia|done|done].
Qed.

Lemma dec_loop_spec room : forall v acc, (0 < room)%nat -> 0 <= v < 10 ^ Z.of_nat room ->
  exists ds, dec_loop room v acc = ds ++ acc /\ is_digits ds /\ ds <> [] /\ forall n, dec_val n ds = n * 10 ^ zlen ds + v.
Proof.
  induction room as [|room IH]; intros v acc H0 Hv; [lia|]. cbn [dec_loop].
  assert (Hd : 48 <= 48 + v mod 10 <= 57) by divmod_lia.
  destruct (Z.eqb_spec (v / 10) 0) as [E|E].
  - exists [48 + v mod 10]. split; [done|]. split; [by constructor|]. split; [done|]. intros n. unfold dec_val. cbn [foldl].
    change (zlen [48 + v mod 10]) with 1. divmod_lia.
  - rewrite Nat2Z.inj_succ, Z.pow_succ_r in Hv by lia.
    destruct (IH (v / 10) ((48 + v mod 10) :: acc)) as (ds & -> & Hds & Hne & Hval).
    { destruct room; [simpl in Hv; divmod_lia|lia]. } { divmod_lia. }
    exists (ds ++ [48 + v mod 10]). split; [by rewrite <- app_assoc|]. split; [apply Forall_app; split; [done|by constructor]|].
    split; [by destruct ds|]. intros n. unfold dec_val in *. rewrite foldl_app, Hval. cbn [foldl]. zlen_simpl.
    change (1 + 0) with 1. rewrite Z.pow_add_r by (pose proof (zlen_nonneg ds); lia). divmod_lia.
Qed.

Lemma pct_u_spec v : 0 <= v <= INT_MAX -> is_digits (pct_u v) /\ pct_u v <> [] /\ dec_val 0 (pct_u v) = v.
Proof.
  unfold INT_MAX, pct_u. intros Hv. rewrite uw_small by lia.
  destruct (dec_loop_spec 10 v [] ltac:(lia)) as (ds & -> & Hds & Hne & Hval); [simpl; lia|]. rewrite app_nil_r.
  rewrite Hval. split_and!; done || lia.
Qed.

(** the fields that were read, and zeros *)
Definition wf_version (v : vaguever_version) : Prop :=
  1 <= nused v <= 4 /\ zlen (fields v) = 4 /\
  Forall (fun f => 0 <= f <= INT_MAX) (fields v) /\ Forall (eq 0) (drop (Z.to_nat (nused v)) (fields v)).

Lemma put_field_wr pre x post val : put_field true (pre ++ x :: post) (zlen pre) val = Ret (pre ++ val :: post, zlen pre + 1).
Proof.
  unfold put_field. rewrite wr_in by (zlen_simpl; pose proof (zlen_nonneg pre); pose proof (zlen_nonneg post); lia).
  cbn [mbind outcome_mbind]. rewrite insert_app_r_alt by (unfold zlen; lia).
  by replace (Z.to_nat (zlen pre) - length pre)%nat with 0%nat by (unfold zlen; lia).
Qed.

Lemma init_loop_fields fs : forall pre post, fs <> [] -> Forall (fun f => 0 <= f <= INT_MAX) fs -> length post = length fs ->
  zlen pre + zlen fs <= 4 -> forall rest,
  init_loop (format_fields fs) (zlen pre) 0 false (pre ++ post ++ rest) = Ret (pre ++ fs ++ rest, zlen pre + zlen fs).
Proof.
  induction fs as [|f fs IH]; intros pre [|x post] Hne Hfs Hl Hlen rest; try done. clear Hne.
  apply Forall_cons in Hfs as [Hf Hfs]. destruct (pct_u_spec f Hf) as (Hd & Hn & Hv). simpl in Hl.
  pose proof (zlen_nonneg pre). pose proof (zlen_nonneg fs). destruct fs as [|g fs].
  - cbn [format_fields]. destruct post; [|done]. rewrite <- (app_nil_r (pct_u f)), init_loop_digits by (done || lia).
    cbn [init_loop]. rewrite Hv. cbn [app]. by rewrite put_field_wr.
  - change (format_fields (f :: g :: fs)) with (pct_u f ++ [46] ++ format_fields (g :: fs)).
    rewrite init_loop_digits by (done || lia). cbn [app init_loop]. rewrite Hv. change (isdigit 46) with false. cbv iota.
    rewrite put_field_wr. cbn [mbind outcome_mbind]. change (46 =? 46) with true. cbn [negb orb]. unfold VAGUEVER_NFIELDS.
    pose proof (zlen_nonneg fs). zlen_simpl. rewrite (proj2 (Z.leb_gt 4 _)) by lia.
    assert (E := IH (pre ++ [f]) post ltac:(done) Hfs ltac:(simpl in *; lia) ltac:(zlen_simpl; lia) rest).
    rewrite zlen_app in E. change (zlen [f]) with 1 in E. rewrite <- !app_assoc in E. cbn [app] in E. rewrite E.
    do 2 f_equal. zlen_simpl. lia.
Qed.

Lemma pct_u_length v : zlen (pct_u v) <= 10.
Proof.
  unfold pct_u. assert (H : forall room v acc, zlen (dec_loop room v acc) <= Z.of_nat room + zlen acc).
  { induction room as [|room IH]; intros w acc; cbn [dec_loop]; [lia|]. destruct (_ =? 0); [zlen_simpl; lia|].
    etrans; [apply IH|]. zlen_simpl. lia. }
  specialize (H 10%nat (u32 v) []). change (zlen (@nil Z)) with 0 in H. lia.
Qed.

Lemma format_length fs : zlen (format_fields fs) <= 11 * zlen fs.
Proof.
  induction fs as [|f fs IH]; [done|]. pose proof (pct_u_length f). destruct fs as [|g fs]; [cbn [format_fields]; zlen_simpl; lia|].
  change (format_fields (f :: g :: fs)) with (pct_u f ++ [46] ++ format_fields (g :: fs)). zlen_simpl. lia.
Qed.

(** A version printed to a buffer of at least 45 bytes and parsed again is
    the same. *)
Theorem vaguever_roundtrip v len : wf_version v -> 45 <= len -> vaguever_init (vaguever_str v len) = Ret v.
Proof.
  intros (Hn & Hl & Hf & H0) Hlen. unfold vaguever_init, vaguever_str.
  assert (En : (if (nused v =? 1) || (nused v =? 2) || (nused v =? 3) then nused v else 4) = nused v).
  { destruct (Z.eqb_spec (nused v) 1), (Z.eqb_spec (nused v) 2), (Z.eqb_spec (nused v) 3); simpl; lia. }
  rewrite En. set (fs := take (Z.to_nat (nused v)) (fields v)).
  assert (Lf : zlen fs = nused v) by (unfold fs; zlen_simpl; lia).
  pose proof (format_length fs). rewrite take_ge by (unfold zlen in *; lia).
  assert (Er : replicate (Z.to_nat VAGUEVER_NFIELDS) 0 = [] ++ replicate (length fs) 0 ++ drop (Z.to_nat (nused v)) (fields v)).
  { rewrite app_nil_l. unfold VAGUEVER_NFIELDS. apply (list_eq_same_length _ _ 4); [|done|].
    - rewrite length_app, length_replicate, length_drop. unfold zlen in *. lia.
    - intros i x y Hi Hx Hy. apply lookup_replicate in Hx as [-> _]. apply lookup_app_Some in Hy as [Hy|[_ Hy]].
      + by apply lookup_replicate in Hy as [-> _].
      + by eapply Forall_lookup_1 in Hy; [|exact H0]. }
  rewrite Er. change 0 with (zlen (@nil Z)) at 1. rewrite init_loop_fields.
  - cbn [mbind outcome_mbind app]. change (zlen (@nil Z)) with 0. rewrite Lf, (proj2 (Z.ltb_ge _ _)) by lia.
    unfold fs. rewrite take_drop. by destruct v.
  - intros E. rewrite E in Lf. change (zlen (@nil Z)) with 0 in Lf. lia.
  - by apply Forall_take.
  - by rewrite length_replicate.
  - change (zlen (@nil Z)) with 0. lia.
Qed.

Lemma demo_version_wf : wf_version (Version 3 [1; 22; 333; 0]).
Proof. unfold wf_version, INT_MAX. split_and!; try done; repeat constructor; simpl; lia. Qed.

Lemma vaguever_roundtrip_witness : wf_version (Version 3 [1; 22; 333; 0]) /\
  vaguever_init (vaguever_str (Version 3 [1; 22; 333; 0]) 64) = Ret (Version 3 [1; 22; 333; 0]).
Proof. split; [apply demo_version_wf|]. apply (vaguever_roundtrip (Version 3 [1; 22; 333; 0]) 64 demo_version_wf). lia. Defined.

Example vaguever_str_runs : vaguever_str (Version 3 [1; 22; 333; 0]) 64 = lit "1.22.333" /\
  vaguever_init (lit "5.6p1") = Ret (Version 2 [5; 6; 0; 0]).
Proof. split; reflexivity. Qed.

(** ** The parser stays in the fields *)

Lemma put_field_safe h fs i val : 0 <= i < 4 -> length fs = 4%nat ->
  exists fs' i', put_field h fs i val = Ret (fs', i') /\ length fs' = 4%nat /\ i <= i' <= i + 1.
Proof.
  intros Hi Hl. unfold put_field. destruct h; [|exists fs, i; split_and!; done || lia].
  rewrite wr_in by (unfold zlen; lia). cbn [mbind outcome_mbind]. eexists _, _. split; [done|]. rewrite length_insert. lia.
Qed.

Lemma init_loop_safe s : forall i val h fs, 0 <= i < 4 -> length fs = 4%nat ->
  exists fs' i', init_loop s i val h fs = Ret (fs', i') /\ length fs' = 4%nat /\ 0 <= i' <= 4.
Proof.
  induction s as [|ch s IH]; intros i val h fs Hi Hl; cbn [init_loop].
  - destruct (put_field_safe h fs i val Hi Hl) as (fs' & i' & -> & ? & ?). eexists _, _. split; [done|]. lia.
  - destruct (isdigit ch); [by apply IH|]. destruct (put_field_safe h fs i val Hi Hl) as (fs' & i' & -> & Hl' & Hi').
    cbn [mbind outcome_mbind]. destruct (negb (ch =? 46) || (VAGUEVER_NFIELDS <=? i')) eqn:E.
    + eexists _, _. split; [done|]. lia.
    + zbool. unfold VAGUEVER_NFIELDS in *. apply IH; lia.
Qed.

(** the version of any string *)
Lemma vaguever_init_ret s : exists v, vaguever_init s = Ret v /\ length (fields v) = 4%nat /\ 1 <= nused v <= 4.
Proof.
  unfold vaguever_init. destruct (init_loop_safe s 0 0 false (replicate (Z.to_nat VAGUEVER_NFIELDS) 0)) as (fs & i & -> & Hl & Hi);
    [lia|done|]. cbn [mbind outcome_mbind]. eexists. split; [done|]. split; [done|]. cbn [nused]. destruct (Z.ltb_spec i 1); lia.
Qed.

(** ** The order *)

Lemma cmp_loop_spec fs : forall gs hs, length fs = length gs -> length gs = length hs ->
  -1 <= cmp_loop fs gs <= 1 /\ cmp_loop gs fs = - cmp_loop fs gs /\ (cmp_loop fs gs = 0 <-> fs = gs) /\
  (cmp_loop fs gs <= 0 -> cmp_loop gs hs <= 0 -> cmp_loop fs hs <= 0).
Proof.
  induction fs as [|f fs IH]; intros [|g gs] [|h hs] L1 L2; try done.
  simpl in L1, L2. destruct (IH gs hs ltac:(lia) ltac:(lia)) as (H1 & H2 & H3 & H4). cbn [cmp_loop].
  assert (Hcons : f = g -> (f :: fs = g :: gs <-> fs = gs)) by (intros ->; split; [by intros [=]|by intros ->]).
  assert (Hne : f <> g -> f :: fs <> g :: gs) by (intros Hn [=]; done).
  destruct (Z.ltb_spec g f), (Z.ltb_spec f g); try lia; cbn [Z.sub Z.eqb negb];
    destruct (Z.ltb_spec h g), (Z.ltb_spec g h); try lia; destruct (Z.ltb_spec h f), (Z.ltb_spec f h); try lia;
    simpl; repeat split; try lia; intros; try (exfalso; apply Hne; [lia|done]); try (apply Hcons; [lia|by apply H3]);
    try (apply H3, Hcons; [lia|done]); try lia.
Qed.

(** Every string has a version, with one to four fields used, and versions
    are totally ordered: the comparison has three values, is 0 for equal
    fields only, changes its sign when its arguments change places, and is
    transitive. *)
Theorem vaguever_total_order s1 s2 s3 : exists v1 v2 v3,
  vaguever_init s1 = Ret v1 /\ vaguever_init s2 = Ret v2 /\ vaguever_init s3 = Ret v3 /\ 1 <= nused v1 <= VAGUEVER_NFIELDS /\
  -1 <= vaguever_cmp v1 v2 <= 1 /\ vaguever_cmp v2 v1 = - vaguever_cmp v1 v2 /\
  (vaguever_cmp v1 v2 = 0 <-> fields v1 = fields v2) /\
  (vaguever_cmp v1 v2 <= 0 -> vaguever_cmp v2 v3 <= 0 -> vaguever_cmp v1 v3 <= 0).
Proof.
  destruct (vaguever_init_ret s1) as (v1 & E1 & L1 & U1), (vaguever_init_ret s2) as (v2 & E2 & L2 & _), (vaguever_init_ret s3) as (v3 & E3 & L3 & _).
  exists v1, v2, v3. do 3 (split; [done|]). split; [done|]. apply cmp_loop_spec; congruence.
Qed.
