(* ===== verification/Nalphaver.v ===== *)
(** * Versions of numbers and letters (src/lib/util/nalphaver.c)

    Versions are split at dots into fields of a number and a suffix, which
    are compared in order, missing fields counting as zero without suffix.
    The theorem shows that the comparison is a total preorder. *)

From S2P Require Import Prelude CLib.

Definition dot : bytes := [46].
Definition UINT_MAX : Z := UINT32_MAX.

Record nalphaver_field : Type := Field {
  pos : bytes;
  suffix : bytes;
  suffixlen : Z;
  val : Z;
}.

Definition next (na : nalphaver_field) : nalphaver_field * Z :=
  if decide (pos na = []) then (Field (pos na) (pos na) 0 0, 0)
  else
    let '(l, cptr) := strtoul (pos na) in
    let l := if l <? INT_MAX then l else INT_MAX in
    let off := Z.of_nat (strcspn cptr dot) in
    let off := if UINT_MAX <? off then UINT_MAX else off in
    let next := drop (Z.to_nat off) cptr in
    let next := drop (strspn next dot) next in
    (Field next cptr off (i32 l), 1).

(** [strncmp] of bytes of which the first [n] are not terminators, up to the
    magnitude, which [CLAMP] removes *)
Definition cmp (l r : nalphaver_field) : Z :=
  let val :=
    if negb (i32 (val l - val r) =? 0) then i32 (val l - val r)
    else
      let len := Z.to_nat (if suffixlen l <? suffixlen r then suffixlen l else suffixlen r) in
      let val := memcmp (take len (suffix l)) (take len (suffix r)) in
      if negb (val =? 0) then val else i32 (i32 (suffixlen l) - i32 (suffixlen r)) in
  if val <? -1 then -1 else if 1 <? val then 1 else val.

Fixpoint cmp_loop (fuel : nat) (l r : nalphaver_field) : outcome Z :=
  match fuel with
  | O => OutOfFuel
  | S fuel =>
      let '(l, r1) := next l in
      let '(r, r2) := next r in
      if negb (r1 =? 0) || negb (r2 =? 0) then
        let val := cmp l r in
        if negb (val =? 0) then Ret val else cmp_loop fuel l r
      else Ret 0
  end.

(** each call of [next] consumes a byte of a string that has some left *)
Definition nalphaver_cmp (s1 s2 : bytes) : outcome Z :=
  cmp_loop (S (length s1 + length s2)) (Field s1 [] 0 0) (Field s2 [] 0 0).

(** ** The order *)

Fixpoint lex (a b : list Z) : Z :=
  match a, b with
  | [], [] => 0
  | [], _ => -1
  | _, [] => 1
  | x :: a, y :: b => if x <? y then -1 else if y <? x then 1 else lex a b
  end.

Lemma lex_opp a : forall b, lex b a = - lex a b.
Proof.
  induction a as [|x a IH]; intros [|y b]; try done. cbn [lex]. rewrite IH.
  destruct (Z.ltb_spec x y), (Z.ltb_spec y x); lia.
Qed.

Lemma lex_range a : forall b, -1 <= lex a b <= 1.
Proof.
  induction a as [|x a IH]; intros [|y b]; cbn [lex]; try lia. specialize (IH b).
  destruct (x <? y), (y <? x); lia.
Qed.

(** [lex a b <= 0] is transitive, and strict when one of its premises is *)
Lemma lex_trans a : forall b c, lex a b <= 0 -> lex b c <= 0 ->
  lex a c <= 0 /\ (lex a c = 0 -> lex a b = 0 /\ lex b c = 0).
Proof.
  induction a as [|x a IH]; intros [|y b] [|z c]; cbn [lex]; try lia.
  destruct (Z.ltb_spec x y), (Z.ltb_spec y x), (Z.ltb_spec y z), (Z.ltb_spec z y), (Z.ltb_spec x z), (Z.ltb_spec z x);
    try lia. by apply IH.
Qed.

Lemma lex_memcmp a : forall b n, (n = length a \/ n = length b) -> (n <= length a)%nat -> (n <= length b)%nat ->
  lex a b = if memcmp (take n a) (take n b) =? 0 then Z.sgn (zlen a - zlen b) else memcmp (take n a) (take n b).
Proof.
  induction a as [|x a IH]; intros [|y b] n Hn Ha Hb; try (simpl in *; lia).
  - destruct n; [done|simpl in *; lia].
  - simpl in *. assert (n = 0)%nat as -> by lia. cbn [take memcmp]. change (0 =? 0) with true. zlen_simpl.
    pose proof (zlen_nonneg b). lia.
  - simpl in *. assert (n = 0)%nat as -> by lia. cbn [take memcmp]. change (0 =? 0) with true. zlen_simpl.
    pose proof (zlen_nonneg a). lia.
  - destruct n as [|n]; [simpl in *; lia|]. cbn [take memcmp lex]. rewrite (IH b n) by (simpl in *; lia).
    replace (zlen (x :: a) - zlen (y :: b)) with (zlen a - zlen b) by (zlen_simpl; lia).
    destruct (x <? y); [done|]. by destruct (y <? x).
Qed.

(** fields in turn, a missing one being [0] *)
Fixpoint lexs (n : nat) (a b : list (list Z)) : Z :=
  match n with
  | O => 0
  | S n =>
      let c := lex (hd [0] a) (hd [0] b) in
      if c =? 0 then lexs n (tl a) (tl b) else c
  end.

Lemma lexs_opp n : forall a b, lexs n b a = - lexs n a b.
Proof.
  induction n as [|n IH]; intros a b; [done|]. cbn [lexs]. rewrite (lex_opp (hd [0] a)), IH.
  destruct (Z.eqb_spec (- lex (hd [0] a) (hd [0] b)) 0), (Z.eqb_spec (lex (hd [0] a) (hd [0] b)) 0); lia.
Qed.

Lemma lexs_range n : forall a b, -1 <= lexs n a b <= 1.
Proof.
  induction n as [|n IH]; intros a b; cbn [lexs]; [lia|]. pose proof (lex_range (hd [0] a) (hd [0] b)).
  specialize (IH (tl a) (tl b)). destruct (_ =? 0); lia.
Qed.

Lemma lexs_trans n : forall a b c, lexs n a b <= 0 -> lexs n b c <= 0 -> lexs n a c <= 0.
Proof.
  induction n as [|n IH]; intros a b c; cbn [lexs]; [lia|].
  pose proof (lex_trans (hd [0] a) (hd [0] b) (hd [0] c)) as Ht.
  specialize (IH (tl a) (tl b) (tl c)).
  destruct (Z.eqb_spec (lex (hd [0] a) (hd [0] b)) 0) as [E1|E1], (Z.eqb_spec (lex (hd [0] b) (hd [0] c)) 0) as [E2|E2],
    (Z.eqb_spec (lex (hd [0] a) (hd [0] c)) 0) as [E3|E3]; lia.
Qed.

Lemma lexs_more n : forall m a b, (length a <= n)%nat -> (length b <= n)%nat -> (n <= m)%nat -> lexs m a b = lexs n a b.
Proof.
  assert (H0 : forall m, lexs m [] [] = 0) by (induction m; [done|]; cbn [lexs hd tl]; done).
  induction n as [|n IH]; intros m a b Ha Hb Hm.
  - destruct a, b; simpl in *; try lia. apply H0.
  - destruct m as [|m]; [lia|]. cbn [lexs]. rewrite (IH m); [done|destruct a; simpl in *; lia|destruct b; simpl in *; lia|lia].
Qed.

(** ** The fields of a version *)

Definition key (na : nalphaver_field) : list Z := val na :: take (Z.to_nat (suffixlen na)) (suffix na).

Fixpoint fields (n : nat) (s : bytes) : list (list Z) :=
  match n with
  | O => []
  | S n =>
      if decide (s = []) then []
      else let na := (next (Field s [] 0 0)).1 in key na :: fields n (pos na)
  end.

Lemma fields_length n : forall s, (length (fields n s) <= n)%nat.
Proof. induction n as [|n IH]; intros s; cbn [fields]; [done|]. case_decide; simpl; [lia|]. specialize (IH (pos (next (Field s [] 0 0)).1)). lia. Qed.

Lemma digits_suffix s : forall acc, exists p, s = p ++ (digits s acc).2.
Proof.
  induction s as [|c s IH]; intros acc; cbn [digits]; [by exists []|].
  destruct (isdigit c); [|by exists []]. destruct (IH (acc * 10 + (c - 48))) as [p Hp]. exists (c :: p). simpl. by f_equal.
Qed.

Lemma skip_spaces_suffix s : exists p, s = p ++ skip_spaces s.
Proof.
  induction s as [|c s [p Hp]]; cbn [skip_spaces]; [by exists []|]. destruct (isspace c); [|by exists []].
  exists (c :: p). simpl. by f_equal.
Qed.

Lemma strtoul_suffix s : (exists p, s = p ++ (strtoul s).2) /\ 0 <= (strtoul s).1.
Proof.
  unfold strtoul. destruct (skip_spaces_suffix s) as [p Hp].
  set (t := skip_spaces s) in *.
  assert (Hd : forall (neg : bool) q u, t = q ++ u ->
    let r := match u with
      | c :: _ => if isdigit c then let '(v, rest) := digits u 0 in
          if ULONG_MAX <? v then (ULONG_MAX, rest) else (if neg then u64 (- v) else v, rest) else (0, s)
      | [] => (0, s) end in (exists p, s = p ++ r.2) /\ 0 <= r.1).
  { intros neg q u Hu. destruct u as [|c u]; [split; [by exists []|done]|]. destruct (isdigit c) eqn:Ec; [|split; [by exists []|done]].
    destruct (digits_suffix (c :: u) 0) as [w Hw].
    assert (Hnn : forall s acc, 0 <= acc -> 0 <= (digits s acc).1).
    { clear. induction s as [|c s IH]; intros acc Ha; cbn [digits]; [done|]. destruct (isdigit c) eqn:E; [|done].
      apply IH. unfold isdigit in E. zbool. lia. }
    specialize (Hnn (c :: u) 0 ltac:(lia)). destruct (digits (c :: u) 0) as [v rest]. cbn [fst snd] in *.
    assert (Hs : s = (p ++ q ++ w) ++ rest) by (rewrite Hp, Hu, Hw; by rewrite <- !app_assoc).
    destruct (ULONG_MAX <? v); (split; [by exists (p ++ q ++ w)|]); [done|]. cbn [fst].
    destruct neg; [apply (uw_range 64); lia|done]. }
  destruct t as [|c u]; [by apply (Hd false [] [])|].
  destruct (c =? 45); [by apply (Hd true [c] u)|]. destruct (c =? 43); [by apply (Hd false [c] u)|by apply (Hd false [] (c :: u))].
Qed.

Lemma drop_strspn_suffix s set : exists p, s = p ++ drop (strspn s set) s.
Proof. exists (take (strspn s set) s). by rewrite take_drop. Qed.

(** [next] takes a non-empty prefix off a non-empty string *)
Lemma next_spec s x n v : s <> [] -> zlen s < INT_MAX -> exists na p,
  next (Field s x n v) = (na, 1) /\ s = p ++ pos na /\ p <> [] /\
  0 <= val na <= INT_MAX /\ 0 <= suffixlen na <= zlen (suffix na) /\ zlen (suffix na) <= zlen s.
Proof.
  intros Hs Hlen. unfold next. cbn [pos]. rewrite decide_False by done. pose proof (strtoul_suffix s) as [[p Hp] Hv].
  destruct (strtoul s) as [l cptr] eqn:El. cbn [fst snd] in *. unfold INT_MAX, UINT_MAX, UINT32_MAX in *.
  assert (Hoff : (strcspn cptr dot <= length cptr)%nat).
  { clear. induction cptr as [|c cptr IH]; simpl; [lia|]. destruct (_ || _); lia. }
  assert (Hcl : zlen cptr <= zlen s) by (rewrite Hp; zlen_simpl; pose proof (zlen_nonneg p); lia).
  rewrite (proj2 (Z.ltb_ge 4294967295 _)) by (unfold zlen in *; lia). rewrite Nat2Z.id.
  set (l' := if l <? 2147483647 then l else 2147483647).
  assert (Hl' : 0 <= l' <= 2147483647) by (unfold l'; destruct (Z.ltb_spec l 2147483647); lia).
  rewrite sw_small by (simpl; lia). eexists _, (p ++ take (strcspn cptr dot) cptr ++ take (strspn (drop (strcspn cptr dot) cptr) dot) (drop (strcspn cptr dot) cptr)).
  split; [done|]. cbn [pos val suffixlen suffix]. split_and!; try lia.
  - rewrite Hp at 1. by rewrite <- !app_assoc, !take_drop.
  - intros Hnil. apply app_nil in Hnil as [-> Hnil]. apply app_nil in Hnil as [Hc Hd]. simpl in Hp. subst cptr.
    (* nothing consumed by [strtoul]: either a dot or another character starts the string *)
    destruct s as [|c s]; [done|]. cbn [strcspn take] in Hc. destruct (mem dot c) eqn:Em; [|done].
    cbn [strcspn] in Hd. rewrite Em in Hd. cbn [drop strspn] in Hd. by rewrite Em in Hd.
  - unfold zlen. lia.
Qed.

Lemma token_end x n v : next (Field [] x n v) = (Field [] [] 0 0, 0).
Proof. done. Qed.

Definition wf_field (na : nalphaver_field) : Prop :=
  0 <= val na <= INT_MAX /\ 0 <= suffixlen na <= zlen (suffix na) /\ suffixlen na < INT_MAX.

Lemma cmp_lex l r : wf_field l -> wf_field r -> cmp l r = lex (key l) (key r).
Proof.
  unfold wf_field, INT_MAX. intros (Hl & Hsl & Hll) (Hr & Hsr & Hlr). unfold cmp, key. cbn [lex].
  rewrite (sw_small 32 (val l - val r)) by (simpl; lia).
  destruct (Z.eqb_spec (val l - val r) 0) as [E|E]; cbn [negb].
  - destruct (Z.ltb_spec (val l) (val r)), (Z.ltb_spec (val r) (val l)); try lia.
    set (len := Z.to_nat (if suffixlen l <? suffixlen r then suffixlen l else suffixlen r)).
    assert (Hln : length (take (Z.to_nat (suffixlen l)) (suffix l)) = Z.to_nat (suffixlen l)) by (rewrite length_take; unfold zlen in *; lia).
    assert (Hrn : length (take (Z.to_nat (suffixlen r)) (suffix r)) = Z.to_nat (suffixlen r)) by (rewrite length_take; unfold zlen in *; lia).
    rewrite (lex_memcmp _ _ len); [|unfold len; case_test; rewrite ?Hln, ?Hrn; auto|unfold len; case_test; lia|unfold len; case_test; lia].
    rewrite !take_take, !Nat.min_l by (unfold len; case_test; lia).
    rewrite !(sw_small 32) by (rewrite ?sw_small; simpl; lia).
    unfold zlen. rewrite Hln, Hrn, !Z2Nat.id by lia.
    assert (Hm : forall a b, -1 <= memcmp a b <= 1).
    { clear. induction a as [|x a IH]; intros [|y b]; cbn [memcmp]; try lia. specialize (IH b). repeat case_test; lia. }
    specialize (Hm (take len (suffix l)) (take len (suffix r))).
    destruct (Z.eqb_spec (memcmp (take len (suffix l)) (take len (suffix r))) 0) as [E0|E0]; cbn [negb]; repeat case_test; lia.
  - repeat case_test; lia.
Qed.

Lemma lexs_nil n : lexs n [] [] = 0.
Proof. induction n; [done|]. cbn [lexs hd tl]. done. Qed.

(** a string of fields, one more call of [next] *)
Lemma next_key s n : zlen s < INT_MAX ->
  exists na, next (Field s [] 0 0) = (na, if decide (s = []) then 0 else 1) /\ wf_field na /\
    key na = hd [0] (fields (S n) s) /\ fields n (pos na) = tl (fields (S n) s) /\
    (length (pos na) <= length s)%nat /\ (s <> [] -> (length (pos na) < length s)%nat).
Proof.
  intros Hlen. destruct (decide (s = [])) as [->|Hs].
  { eexists. split; [done|]. unfold wf_field, INT_MAX. simpl. split_and!; try done; try (change (zlen (@nil Z)) with 0; lia).
    destruct n; [done|]. cbn [fields pos]. by rewrite decide_True. }
  destruct (next_spec s [] 0 0 Hs Hlen) as (na & p & E & Hp & Hne & Hv & Hsl & Hsuf). exists na. split; [done|].
  cbn [fields]. rewrite decide_False, E by done. cbn [hd tl fst].
  split; [unfold wf_field; lia|]. split; [done|]. split; [done|].
  rewrite Hp, length_app. destruct p; [done|]. simpl. lia.
Qed.

Lemma cmp_loop_lexs fuel : forall l r, zlen (pos l) < INT_MAX -> zlen (pos r) < INT_MAX -> (length (pos l) + length (pos r) < fuel)%nat ->
  cmp_loop fuel l r = Ret (lexs fuel (fields fuel (pos l)) (fields fuel (pos r))).
Proof.
  induction fuel as [|fuel IH]; intros l r Hl Hr Hf; [lia|]. cbn [cmp_loop].
  change (next l) with (next (Field (pos l) [] 0 0)). change (next r) with (next (Field (pos r) [] 0 0)).
  destruct (next_key (pos l) fuel Hl) as (l' & -> & Hwl & Hkl & Htl & Hll & Hsl).
  destruct (next_key (pos r) fuel Hr) as (r' & -> & Hwr & Hkr & Htr & Hlr & Hsr).
  rewrite cmp_lex by done. cbn [lexs]. rewrite <- Hkl, <- Hkr, <- Htl, <- Htr.
  destruct (decide (pos l = [])) as [El|El], (decide (pos r = [])) as [Er|Er]; cbn [Z.eqb negb orb].
  - f_equal. rewrite Hkl, Hkr, Htl, Htr, El, Er. cbn [fields]. rewrite decide_True by done. cbn [hd tl]. by rewrite lexs_nil.
  - destruct (lex (key l') (key r') =? 0); cbn [negb]; [|done].
    specialize (Hsr Er). apply IH; unfold zlen in *; lia.
  - destruct (lex (key l') (key r') =? 0); cbn [negb]; [|done].
    specialize (Hsl El). apply IH; unfold zlen in *; lia.
  - destruct (lex (key l') (key r') =? 0); cbn [negb]; [|done].
    specialize (Hsl El). apply IH; unfold zlen in *; lia.
Qed.

(** the order of versions, on the fields of both *)
Definition version_order (s1 s2 : bytes) : Z :=
  let n := S (length s1 + length s2) in lexs n (fields n s1) (fields n s2).

Lemma fields_more n : forall m s, (length s <= n)%nat -> (n <= m)%nat -> zlen s < INT_MAX -> fields m s = fields n s.
Proof.
  induction n as [|n IH]; intros m s Hs Hm Hlen.
  - destruct s; [|simpl in Hs; lia]. destruct m; [done|]. cbn [fields]. by rewrite decide_True.
  - destruct m as [|m]; [lia|]. cbn [fields]. destruct (decide (s = [])) as [|Hne]; [done|].
    destruct (next_key s n Hlen) as (na & -> & _ & _ & _ & Hl & Hlt). cbn [fst]. f_equal. specialize (Hlt Hne).
    apply IH; unfold zlen in *; lia.
Qed.

Lemma version_order_at n s1 s2 : (length s1 <= n)%nat -> (length s2 <= n)%nat -> zlen s1 < INT_MAX -> zlen s2 < INT_MAX ->
  version_order s1 s2 = lexs n (fields n s1) (fields n s2).
Proof.
  intros H1 H2 L1 L2. unfold version_order. set (m := S (length s1 + length s2)).
  set (k := Nat.max m n). rewrite <- (fields_more m k s1), <- (fields_more m k s2), <- (fields_more n k s1), <- (fields_more n k s2) by (unfold k, m; lia || done).
  assert (Hk : forall s j, (length s <= j)%nat -> (j <= k)%nat -> zlen s < INT_MAX -> (length (fields k s) <= j)%nat).
  { intros s j Hs Hj Hz. rewrite (fields_more j k) by done. apply fields_length. }
  rewrite <- (lexs_more m k), <- (lexs_more n k); try done; try (unfold k, m; lia); apply Hk; unfold k, m; lia || done.
Qed.

Lemma nalphaver_cmp_ret s1 s2 : zlen s1 < INT_MAX -> zlen s2 < INT_MAX -> nalphaver_cmp s1 s2 = Ret (version_order s1 s2).
Proof. intros H1 H2. unfold nalphaver_cmp. by rewrite cmp_loop_lexs by (simpl; done || lia). Qed.

(** The comparison of versions always returns; it is the order of their
    fields, a total preorder: it has three values, changes its sign when its
    arguments change places, and is transitive. *)
Theorem nalphaver_cmp_preorder s1 s2 s3 : zlen s1 < INT_MAX -> zlen s2 < INT_MAX -> zlen s3 < INT_MAX ->
  nalphaver_cmp s1 s2 = Ret (version_order s1 s2) /\ -1 <= version_order s1 s2 <= 1 /\
  version_order s2 s1 = - version_order s1 s2 /\
  (version_order s1 s2 <= 0 -> version_order s2 s3 <= 0 -> version_order s1 s3 <= 0).
Proof.
  intros H1 H2 H3. split; [by apply nalphaver_cmp_ret|].
  set (n := (length s1 + length s2 + length s3)%nat).
  rewrite (version_order_at n s1 s2), (version_order_at n s2 s1), (version_order_at n s2 s3), (version_order_at n s1 s3) by (done || unfold n; lia).
  split; [apply lexs_range|]. split; [apply lexs_opp|apply lexs_trans].
Qed.

Lemma nalphaver_cmp_preorder_witness : zlen (lit "1.2a") < INT_MAX /\
  nalphaver_cmp (lit "1.2a") (lit "1.10") = Ret (version_order (lit "1.2a") (lit "1.10")) /\
  -1 <= version_order (lit "1.2a") (lit "1.10") <= 1 /\
  version_order (lit "1.10") (lit "1.2a") = - version_order (lit "1.2a") (lit "1.10") /\
  (version_order (lit "1.2a") (lit "1.10") <= 0 -> version_order (lit "1.10") (lit "2") <= 0 -> version_order (lit "1.2a") (lit "2") <= 0).
Proof.
  split; [reflexivity|]. exact (nalphaver_cmp_preorder (lit "1.2a") (lit "1.10") (lit "2") eq_refl eq_refl eq_refl).
Defined.

Example nalphaver_runs : nalphaver_cmp (lit "1.2a") (lit "1.10") = Ret (-1) /\ nalphaver_cmp (lit "1.0") (lit "1") = Ret 0 /\
  nalphaver_cmp (lit "1.2b") (lit "1.2") = Ret 1.
Proof. split_and!; reflexivity. Qed.
