(* ===== verification/VulnInterp.v ===== *)
(** * Evaluation of vulnerability specifications (src/lib/vulnspec/interp.c)

    A compiled specification is an image in memory: a list of CVE nodes, each
    with an expression over the vendor, product and version that are looked
    for.  [vulnspec_load] validates an image and [vulnspec_eval] walks it.
    The theorems show that a validated image is a finite tree, that its
    evaluation reads no byte outside of the image and the terminator behind
    it, and that it is the meaning of the tree.

    [mem] is the memory from the start of the image on, [len] the length of
    the image and [base] its address.  Numbers are little endian, without
    padding in the structures. *)

From S2P Require Import Prelude CLib Vaguever Nalphaver.

Definition VULNSPEC_EINVALID_OFFSET : Z := -4.
Definition VULNSPEC_EINVALID_NODE : Z := -5.
Definition VULNSPEC_ELOAD : Z := -6.
Definition VULNSPEC_EHEADER : Z := -7.
Definition VULNSPEC_HEADER : bytes := [86; 77; 48; 0; 0; 0; 0; 0].
Definition VULNSPEC_HEADER_SIZE : Z := 8.

Definition VULNSPEC_CVE_NODE : Z := 1.
Definition VULNSPEC_OR_NODE : Z := 2.
Definition VULNSPEC_AND_NODE : Z := 3.
Definition VULNSPEC_LT_NODE : Z := 5.
Definition VULNSPEC_LE_NODE : Z := 6.
Definition VULNSPEC_EQ_NODE : Z := 7.
Definition VULNSPEC_GE_NODE : Z := 8.
Definition VULNSPEC_GT_NODE : Z := 9.

Definition VULNSPEC_VVAGUE : Z := 0.
Definition VULNSPEC_VNALPHA : Z := 1.

Definition is_compar (t : Z) : bool :=
  (t =? VULNSPEC_LT_NODE) || (t =? VULNSPEC_LE_NODE) || (t =? VULNSPEC_EQ_NODE) || (t =? VULNSPEC_GE_NODE) ||
  (t =? VULNSPEC_GT_NODE).
Definition is_boolean (t : Z) : bool := (t =? VULNSPEC_AND_NODE) || (t =? VULNSPEC_OR_NODE).

(** ** Reading the structures *)

Definition ld32 (mem : bytes) (off : Z) : outcome Z :=
  b0 ← rd mem off;
  b1 ← rd mem (off + 1);
  b2 ← rd mem (off + 2);
  b3 ← rd mem (off + 3);
  Ret (b0 + 256 * b1 + 65536 * b2 + 16777216 * b3).

(** [struct vulnspec_cvalue]: [length] and [value.offset] *)
Definition ld_cvalue (mem : bytes) (off : Z) : outcome (Z * Z) :=
  length ← ld32 mem off;
  offset ← ld32 mem (off + 4);
  Ret (length, offset).

Definition COMPAR_NODE_SIZE : Z := 36.
Record vulnspec_compar_node : Type := ComparNode {
  vendprod : Z * Z;
  vtype : Z;
}.
Definition ld_compar (mem : bytes) (off : Z) : outcome vulnspec_compar_node :=
  vendprod ← ld_cvalue mem (off + 4);
  vtype ← ld32 mem (off + 12);
  Ret (ComparNode vendprod vtype).
(** the members of the union [version] *)
Definition ld_vague (mem : bytes) (off : Z) : outcome vaguever_version :=
  n ← ld32 mem (off + 16);
  f0 ← ld32 mem (off + 20);
  f1 ← ld32 mem (off + 24);
  f2 ← ld32 mem (off + 28);
  f3 ← ld32 mem (off + 32);
  Ret (Version (i32 n) [i32 f0; i32 f1; i32 f2; i32 f3]).
Definition ld_cval (mem : bytes) (off : Z) : outcome (Z * Z) := ld_cvalue mem (off + 16).

Definition BOOLEAN_NODE_SIZE : Z := 12.
Record vulnspec_boolean_node : Type := BooleanNode {
  b_type : Z;
  b_next : Z;
  b_value : Z;
}.
Definition ld_boolean (mem : bytes) (off : Z) : outcome vulnspec_boolean_node :=
  t ← ld32 mem off;
  next ← ld32 mem (off + 4);
  value ← ld32 mem (off + 8);
  Ret (BooleanNode t next value).

Definition CVE_NODE_SIZE : Z := 36.
Record vulnspec_cve_node : Type := CveNode {
  c_type : Z;
  c_next : Z;
  cvss2_base : Z;
  cvss3_base : Z;
  c_id : Z * Z;
  c_description : Z * Z;
  c_vulnexpr : Z;
}.
Definition ld_cve (mem : bytes) (off : Z) : outcome vulnspec_cve_node :=
  t ← ld32 mem off;
  next ← ld32 mem (off + 4);
  c2 ← ld32 mem (off + 8);
  c3 ← ld32 mem (off + 12);
  id ← ld_cvalue mem (off + 16);
  description ← ld_cvalue mem (off + 24);
  vulnexpr ← ld32 mem (off + 32);
  Ret (CveNode t next c2 c3 id description vulnexpr).

(** ** Computations that may [longjmp] with a status *)

Abbreviation jump A := (outcome (Z + A)%type).
Definition ret {A} (a : A) : jump A := Ret (inr a).
Definition bail {A} (status : Z) : jump A := Ret (inl status).
Definition lift {A} (x : outcome A) : jump A := a ← x; Ret (inr a).
Definition jbind {A B} (m : jump A) (f : A -> jump B) : jump B :=
  x ← m; match x with inl status => Ret (inl status) | inr a => f a end.
Notation "x <<- m ; f" := (jbind m (fun x => f)) (at level 100, m at next level, right associativity) : yans_scope.
Notation "m ;; f" := (jbind m (fun _ => f)) (at level 100, f at level 200, right associativity) : yans_scope.

(** ** Validation *)

Section Validator.
Context (base : Z) (mem : bytes) (len : Z).

Definition check (offset n : Z) : jump unit :=
  if offset <? VULNSPEC_HEADER_SIZE then bail VULNSPEC_EINVALID_OFFSET
  else if len <? u64 (offset + n) then bail VULNSPEC_EINVALID_OFFSET
  else if u64 (base + offset) <? base then bail VULNSPEC_EINVALID_OFFSET
  else if u64 (base + offset + n) <? base then bail VULNSPEC_EINVALID_OFFSET
  else ret tt.

Definition vstr (cval : Z * Z) : jump unit :=
  check cval.2 cval.1 ;;
  c <<- lift (rd mem (u32 (cval.2 + cval.1 - 1))) ;
  if negb (c =? 0) then bail VULNSPEC_EINVALID_NODE else ret tt.

Definition vcompar (offset : Z) : jump unit :=
  check offset COMPAR_NODE_SIZE ;;
  node <<- lift (ld_compar mem offset) ;
  vstr (vendprod node) ;;
  if negb (vtype node =? VULNSPEC_VVAGUE) then cval <<- lift (ld_cval mem offset) ; vstr cval else ret tt.

Fixpoint vvulnexpr (fuel : nat) (offset : Z) : jump unit :=
  match fuel with
  | O => OutOfFuel
  | S fuel =>
      check offset 4 ;;
      t <<- lift (ld32 mem offset) ;
      if is_compar t then vcompar offset
      else if is_boolean t then vboolean fuel offset
      else bail VULNSPEC_EINVALID_NODE
  end
(** the loop, from the node at [offset] on *)
with vboolean (fuel : nat) (offset : Z) : jump unit :=
  match fuel with
  | O => OutOfFuel
  | S fuel =>
      if 0 <? offset then
        check offset BOOLEAN_NODE_SIZE ;;
        node <<- lift (ld_boolean mem offset) ;
        if is_boolean (b_type node) then
          vvulnexpr fuel (b_value node) ;;
          vboolean fuel (b_next node)
        else bail VULNSPEC_EINVALID_NODE
      else ret tt
  end.

Fixpoint vcve (fuel : nat) (offset : Z) : jump unit :=
  match fuel with
  | O => OutOfFuel
  | S fuel =>
      if 0 <? offset then
        check offset CVE_NODE_SIZE ;;
        cve <<- lift (ld_cve mem offset) ;
        if negb (c_type cve =? VULNSPEC_CVE_NODE) then bail VULNSPEC_EINVALID_NODE
        else
          vstr (c_id cve) ;;
          vstr (c_description cve) ;;
          vvulnexpr fuel (c_vulnexpr cve) ;;
          vcve fuel (c_next cve)
      else ret tt
  end.

Definition vnode (fuel : nat) (offset : Z) : jump unit :=
  check offset 4 ;;
  t <<- lift (ld32 mem offset) ;
  if t =? VULNSPEC_CVE_NODE then vcve fuel offset else bail VULNSPEC_EINVALID_NODE.

(** a [longjmp] with 0 would make [setjmp] return 1 *)
Definition validate (fuel : nat) : outcome Z :=
  if len <? VULNSPEC_HEADER_SIZE then Ret VULNSPEC_EHEADER
  else
    hdr ← rds mem 0 VULNSPEC_HEADER_SIZE;
    if negb (memcmp hdr VULNSPEC_HEADER =? 0) then Ret VULNSPEC_EHEADER
    else
      r ← vnode fuel VULNSPEC_HEADER_SIZE;
      match r with inl status => Ret (if status =? 0 then 1 else status) | inr _ => Ret 0 end.

End Validator.

(** ** The interpreter *)

(** the scores are in hundredths, the strings are offsets in the image *)
Record vulnspec_cve_match : Type := Match {
  m_id : Z;
  m_cvss2_base : Z;
  m_cvss3_base : Z;
  m_desc : Z;
}.

(** [cve_on_match] is given the matches so far, the current one last: what it
    returns depends on the calls *)
Record vulnspec_params : Type := Params {
  cve_on_match : option (list vulnspec_cve_match -> Z);
  cve_vendprod : option bytes;
  cve_version : option bytes;
  cve_vaguever_version : vaguever_version;
}.

Record vulnspec_interp : Type := Interp {
  params : vulnspec_params;
  data : bytes;
  len : Z;
}.

Definition vulnspec_init : vulnspec_interp :=
  Interp (Params None None None (Version 0 [0; 0; 0; 0])) [] 0.

Definition vulnspec_load (base : Z) (fuel : nat) (interp : vulnspec_interp) (mem : bytes) (n : Z) :
    outcome (vulnspec_interp * Z) :=
  status ← validate base mem n fuel;
  if negb (status =? 0) then Ret (interp, status) else Ret (Interp (params interp) mem n, 0).

(** [mapped] is the file, if it could be mapped *)
Definition vulnspec_loadfile (base : Z) (fuel : nat) (interp : vulnspec_interp) (mapped : option (bytes * Z)) :
    outcome (vulnspec_interp * Z) :=
  match mapped with
  | None => Ret (interp, VULNSPEC_ELOAD)
  | Some (mem, n) => vulnspec_load base fuel interp mem n
  end.

Inductive vulnspec_param : Type :=
  | PCVEONMATCH (f : option (list vulnspec_cve_match -> Z))
  | PCVEVENDPROD (s : bytes)
  | PCVEVERSION (s : bytes).

Definition vulnspec_set (interp : vulnspec_interp) (p : vulnspec_param) : outcome vulnspec_interp :=
  let '(Params f vp v vv) := params interp in
  match p with
  | PCVEONMATCH f => Ret (Interp (Params f vp v vv) (data interp) (len interp))
  | PCVEVENDPROD s => Ret (Interp (Params f (Some s) v vv) (data interp) (len interp))
  | PCVEVERSION s => vv ← vaguever_init s; Ret (Interp (Params f vp (Some s) vv) (data interp) (len interp))
  end.

Definition compar_result (t cmp : Z) : Z :=
  if t =? VULNSPEC_LT_NODE then Z.b2z (cmp <? 0)
  else if t =? VULNSPEC_LE_NODE then Z.b2z (cmp <=? 0)
  else if t =? VULNSPEC_EQ_NODE then Z.b2z (cmp =? 0)
  else if t =? VULNSPEC_GE_NODE then Z.b2z (0 <=? cmp)
  else if t =? VULNSPEC_GT_NODE then Z.b2z (0 <? cmp)
  else 0.

Section Evaluation.
Context (interp : vulnspec_interp).

(** a null string is not compared: [enodes] returns before *)
Definition ecompar (offset : Z) : outcome Z :=
  let mem := data interp in
  node ← ld_compar mem offset;
  eq ← streq_at mem (vendprod node).2 (default [] (cve_vendprod (params interp)));
  if negb eq then Ret 0
  else
    t ← ld32 mem offset;
    if vtype node =? VULNSPEC_VVAGUE then
      v ← ld_vague mem offset;
      Ret (compar_result t (vaguever_cmp (cve_vaguever_version (params interp)) v))
    else if vtype node =? VULNSPEC_VNALPHA then
      cval ← ld_cval mem offset;
      version ← cstr_at mem cval.2;
      cmp ← nalphaver_cmp (default [] (cve_version (params interp))) version;
      Ret (compar_result t cmp)
    else Ret 0.

Fixpoint evulnexpr (fuel : nat) (offset : Z) : jump Z :=
  match fuel with
  | O => OutOfFuel
  | S fuel =>
      t <<- lift (ld32 (data interp) offset) ;
      if is_compar t then lift (ecompar offset)
      else if is_boolean t then eboolean fuel offset 0
      else bail VULNSPEC_EINVALID_NODE
  end
(** the loop; [r] is the result so far *)
with eboolean (fuel : nat) (offset r : Z) : jump Z :=
  match fuel with
  | O => OutOfFuel
  | S fuel =>
      if 0 <? offset then
        node <<- lift (ld_boolean (data interp) offset) ;
        if is_boolean (b_type node) then
          r <<- evulnexpr fuel (b_value node) ;
          if (r =? 0) && (b_type node =? VULNSPEC_AND_NODE) then ret r
          else if negb (r =? 0) && (b_type node =? VULNSPEC_OR_NODE) then ret r
          else eboolean fuel (b_next node) r
        else bail VULNSPEC_EINVALID_NODE
      else ret r
  end.

Definition no_string (s : option bytes) : bool :=
  match s with None | Some [] => true | Some _ => false end.

(** the loop over the CVE nodes: the matches reported, and the status; a
    [longjmp] with 0 makes [setjmp] return 1 *)
Fixpoint enodes (fuel : nat) (offset : Z) (ms : list vulnspec_cve_match) : outcome (list vulnspec_cve_match * Z) :=
  match fuel with
  | O => OutOfFuel
  | S fuel =>
      if 0 <? offset then
        cve ← ld_cve (data interp) offset;
        if negb (c_type cve =? VULNSPEC_CVE_NODE) then Ret (ms, VULNSPEC_EINVALID_NODE)
        else if no_string (cve_version (params interp)) || no_string (cve_vendprod (params interp)) then Ret (ms, 0)
        else
          r ← evulnexpr fuel (c_vulnexpr cve);
          match r with
          | inl status => Ret (ms, status)
          | inr r =>
              if negb (r =? 0) then
                match cve_on_match (params interp) with
                | Some f =>
                    let ms := ms ++ [Match (c_id cve).2 (cvss2_base cve) (cvss3_base cve) (c_description cve).2] in
                    let r := f ms in
                    if r <=? 0 then Ret (ms, if r =? 0 then 1 else r) else enodes fuel (c_next cve) ms
                | None => enodes fuel (c_next cve) ms
                end
              else enodes fuel (c_next cve) ms
          end
      else Ret (ms, 0)
  end.

Definition vulnspec_eval (fuel : nat) : outcome (list vulnspec_cve_match * Z) :=
  if len interp <=? VULNSPEC_HEADER_SIZE + 4 then Ret ([], 0) else enodes fuel VULNSPEC_HEADER_SIZE [].

End Evaluation.

(** ** The meaning of an image *)

Inductive version : Type :=
  | Vague (v : vaguever_version)
  | Nalpha (s : bytes)
  | OtherVersion.

Inductive vexpr : Type :=
  | Compar (t : Z) (vendprod : bytes) (v : version)
  | Boolean (bs : list (Z * vexpr)).

Record cve : Type := Cve {
  cve_match : vulnspec_cve_match;
  cve_id : bytes;
  cve_description : bytes;
  cve_expr : vexpr;
}.

Section Meaning.
Context (p : vulnspec_params).

(** how the version of the product may stand to that of a comparison *)
Definition accepts (t : Z) (o : comparison) : bool :=
  match o with
  | Lt => (t =? VULNSPEC_LT_NODE) || (t =? VULNSPEC_LE_NODE)
  | Eq => (t =? VULNSPEC_LE_NODE) || (t =? VULNSPEC_EQ_NODE) || (t =? VULNSPEC_GE_NODE)
  | Gt => (t =? VULNSPEC_GE_NODE) || (t =? VULNSPEC_GT_NODE)
  end.

Definition matches_version (t : Z) (v : version) : bool :=
  match v with
  | Vague v => accepts t (vaguever_cmp (cve_vaguever_version p) v ?= 0)
  | Nalpha s => accepts t (version_order (default [] (cve_version p)) s ?= 0)
  | OtherVersion => false
  end.

(** a conjunction or disjunction stops at the first operand that decides it *)
Fixpoint denote (e : vexpr) : bool :=
  match e with
  | Compar t vp v => bool_decide (vp = default [] (cve_vendprod p)) && matches_version t v
  | Boolean bs =>
      (fix chain (bs : list (Z * vexpr)) (r : bool) : bool :=
        match bs with
        | [] => r
        | (t, e) :: bs =>
            let r := denote e in
            if (negb r && (t =? VULNSPEC_AND_NODE)) || (r && (t =? VULNSPEC_OR_NODE)) then r else chain bs r
        end) bs false
  end.

Fixpoint denote_chain (bs : list (Z * vexpr)) (r : bool) : bool :=
  match bs with
  | [] => r
  | (t, e) :: bs =>
      let r := denote e in
      if (negb r && (t =? VULNSPEC_AND_NODE)) || (r && (t =? VULNSPEC_OR_NODE)) then r else denote_chain bs r
  end.

Lemma denote_boolean bs : denote (Boolean bs) = denote_chain bs false.
Proof.
  cbn [denote]. generalize false. induction bs as [|[t e] bs IH]; intros r; [done|]. cbn [denote_chain]. case_match; [done|apply IH].
Qed.

(** the reports on a list of CVEs, until a report is refused *)
Fixpoint report (cs : list cve) (ms : list vulnspec_cve_match) : list vulnspec_cve_match * Z :=
  match cs with
  | [] => (ms, 0)
  | c :: cs =>
      match cve_on_match p with
      | Some f =>
          if denote (cve_expr c) then
            let ms := ms ++ [cve_match c] in
            if f ms <=? 0 then (ms, if f ms =? 0 then 1 else f ms) else report cs ms
          else report cs ms
      | None => report cs ms
      end
  end.

End Meaning.

(** the nodes and strings of an image *)
Inductive rep_version (mem : bytes) (off : Z) : Z -> version -> Prop :=
  | rep_vague v : ld_vague mem off = Ret v -> rep_version mem off VULNSPEC_VVAGUE (Vague v)
  | rep_nalpha cval s : ld_cval mem off = Ret cval -> cstr_at mem cval.2 = Ret s -> rep_version mem off VULNSPEC_VNALPHA (Nalpha s)
  | rep_other t : t <> VULNSPEC_VVAGUE -> t <> VULNSPEC_VNALPHA -> rep_version mem off t OtherVersion.

Inductive rep_expr (mem : bytes) : Z -> vexpr -> Prop :=
  | rep_compar off t node vp v : ld32 mem off = Ret t -> is_compar t = true -> ld_compar mem off = Ret node ->
      cstr_at mem (vendprod node).2 = Ret vp -> rep_version mem off (vtype node) v -> rep_expr mem off (Compar t vp v)
  | rep_boolean off t bs : ld32 mem off = Ret t -> is_boolean t = true -> rep_chain mem off bs -> rep_expr mem off (Boolean bs)
with rep_chain (mem : bytes) : Z -> list (Z * vexpr) -> Prop :=
  | rep_end off : off <= 0 -> rep_chain mem off []
  | rep_link off node e bs : 0 < off -> ld_boolean mem off = Ret node -> is_boolean (b_type node) = true ->
      rep_expr mem (b_value node) e -> rep_chain mem (b_next node) bs -> rep_chain mem off ((b_type node, e) :: bs).

Inductive rep_cves (mem : bytes) : Z -> list cve -> Prop :=
  | rep_no_cve off : off <= 0 -> rep_cves mem off []
  | rep_cve off node id desc e cs : 0 < off -> ld_cve mem off = Ret node -> c_type node = VULNSPEC_CVE_NODE ->
      cstr_at mem (c_id node).2 = Ret id -> cstr_at mem (c_description node).2 = Ret desc ->
      rep_expr mem (c_vulnexpr node) e -> rep_cves mem (c_next node) cs ->
      rep_cves mem off (Cve (Match (c_id node).2 (cvss2_base node) (cvss3_base node) (c_description node).2) id desc e :: cs).

(** ** A validated image *)

Lemma jbind_ret {A B} (m : jump A) (f : A -> jump B) b : jbind m f = ret b -> exists a, m = ret a /\ f a = ret b.
Proof. unfold jbind, ret. destruct m as [[st|a]| |]; cbn [mbind outcome_mbind]; intros H; try done. by exists a. Qed.

Lemma lift_ret {A} (x : outcome A) a : lift x = ret a -> x = Ret a.
Proof. unfold lift, ret. destruct x; cbn [mbind outcome_mbind]; intros H; by simplify_eq. Qed.

Section Validated.
Context (base : Z) (mem : bytes) (n : Z).
Context (Hn : 0 <= n < INT_MAX) (Hmem : n < zlen mem) (Hend : rd mem n = Ret 0) (Hbytes : Forall is_byte mem).

Lemma ld32_range off x : ld32 mem off = Ret x -> 0 <= x < 2 ^ 32.
Proof.
  unfold ld32. intros H. destruct (rd mem off) as [b0| |] eqn:E0, (rd mem (off + 1)) as [b1| |] eqn:E1,
    (rd mem (off + 2)) as [b2| |] eqn:E2, (rd mem (off + 3)) as [b3| |] eqn:E3; cbn [mbind outcome_mbind] in H; try done.
  injection H as <-. apply rd_ret in E0 as [_ E0], E1 as [_ E1], E2 as [_ E2], E3 as [_ E3].
  rewrite Forall_lookup in Hbytes. apply Hbytes in E0, E1, E2, E3. unfold is_byte in *. lia.
Qed.

Lemma ld32_in off : 0 <= off -> off + 4 <= n -> exists x, ld32 mem off = Ret x.
Proof.
  intros H0 H1. unfold ld32. destruct (rd_in mem off) as (? & -> & _); [lia|]. destruct (rd_in mem (off + 1)) as (? & -> & _); [lia|].
  destruct (rd_in mem (off + 2)) as (? & -> & _); [lia|]. destruct (rd_in mem (off + 3)) as (? & -> & _); [lia|].
  cbn [mbind outcome_mbind]. by eexists.
Qed.

Lemma ld_cvalue_range off c : ld_cvalue mem off = Ret c -> 0 <= c.1 < 2 ^ 32 /\ 0 <= c.2 < 2 ^ 32.
Proof.
  unfold ld_cvalue. intros H. destruct (ld32 mem off) as [l| |] eqn:E1; [|done|done]. cbn [mbind outcome_mbind] in H.
  destruct (ld32 mem (off + 4)) as [o| |] eqn:E2; [|done|done]. cbn [mbind outcome_mbind] in H. injection H as <-.
  apply ld32_range in E1, E2. done.
Qed.

Lemma check_ret off k u : 0 <= off < 2 ^ 32 -> 0 <= k < 2 ^ 32 -> check base n off k = ret u -> 8 <= off /\ off + k <= n.
Proof.
  unfold check, VULNSPEC_HEADER_SIZE, ret. intros Ho Hk. destruct (Z.ltb_spec off 8); [done|].
  rewrite (uw_small 64 (off + k)) by lia. destruct (Z.ltb_spec n (off + k)); [done|]. lia.
Qed.

(** a string of the image ends at the terminator behind the image at the latest *)
Lemma cstr_ret off : 0 <= off <= n -> exists s, cstr_at mem off = Ret s /\ zlen s <= n /\ Forall (fun c => c <> 0) s.
Proof.
  intros Ho. unfold cstr_at. rewrite (proj2 (Z.ltb_ge off 0)) by lia.
  assert (Hin : exists k, strchr (drop (Z.to_nat off) mem) 0 = Some k /\ (k <= Z.to_nat (n - off))%nat).
  { apply rd_ret in Hend as [_ He]. replace (Z.to_nat n) with (Z.to_nat off + Z.to_nat (n - off))%nat in He by lia.
    rewrite <- lookup_drop in He. revert He. generalize (drop (Z.to_nat off) mem) (Z.to_nat (n - off)). clear.
    induction l as [|x l IH]; intros [|k] He; try done; cbn [strchr].
    - simpl in He. injection He as ->. by exists 0%nat.
    - destruct (Z.eqb_spec x 0); [exists 0%nat; split; [done|lia]|]. destruct (IH k He) as (j & -> & Hj).
      exists (S j). split; [done|lia]. }
  destruct Hin as (k & E & Hk). rewrite E. eexists. split; [done|]. split; [zlen_simpl; lia|].
  revert E. generalize (drop (Z.to_nat off) mem). clear. intros l. revert k. induction l as [|x l IH]; intros k E; [done|].
  cbn [strchr] in E. destruct (Z.eqb_spec x 0); [injection E as <-; constructor|].
  destruct (strchr l 0) as [j|] eqn:Ej; [|done]. injection E as <-. cbn [take]. constructor; [done|]. by apply IH.
Qed.

Lemma vstr_ret c u : 0 <= c.1 < 2 ^ 32 -> 0 <= c.2 < 2 ^ 32 -> vstr base mem n c = ret u ->
  exists s, cstr_at mem c.2 = Ret s /\ zlen s <= n /\ Forall (fun c => c <> 0) s.
Proof.
  intros H1 H2 H. unfold vstr in H. apply jbind_ret in H as ([] & Hc & _). apply check_ret in Hc; [|done|done].
  apply cstr_ret. lia.
Qed.

Context (p : vulnspec_params).
Let vp : bytes := default [] (cve_vendprod p).
Let ver : bytes := default [] (cve_version p).
Context (Hvp : Forall (fun c => c <> 0) vp) (Hver : zlen ver < INT_MAX).
Let interp : vulnspec_interp := Interp p mem n.

Lemma b2z_bool (b : bool) : negb (Z.b2z b =? 0) = b.
Proof. by destruct b. Qed.

Lemma compar_result_accepts t c : compar_result t c = Z.b2z (accepts t (c ?= 0)).
Proof.
  unfold compar_result, accepts, VULNSPEC_LT_NODE, VULNSPEC_LE_NODE, VULNSPEC_EQ_NODE, VULNSPEC_GE_NODE, VULNSPEC_GT_NODE.
  rewrite Z.leb_compare, (Z.ltb_compare c), (Z.leb_compare 0), (Z.ltb_compare 0), (Z.eqb_compare c), (Z.compare_antisym c 0).
  destruct (c ?= 0); cbn [CompOpp]; repeat match goal with |- context [t =? ?k] => destruct (Z.eqb_spec t k) as [->|] end; done.
Qed.

(** a comparison node that passed is a comparison, and is evaluated as one *)
Lemma compar_meaning off t u : ld32 mem off = Ret t -> is_compar t = true -> 0 <= off < 2 ^ 32 ->
  vcompar base mem n off = ret u ->
  exists e, rep_expr mem off e /\ ecompar interp off = Ret (Z.b2z (denote p e)).
Proof.
  intros Ht Hc Hoff H. unfold vcompar in H. apply jbind_ret in H as ([] & Hck & H).
  apply check_ret in Hck; [|done|done]. unfold COMPAR_NODE_SIZE in Hck. apply jbind_ret in H as (node & Hnode & H). apply lift_ret in Hnode. apply jbind_ret in H as ([] & Hs & H).
  assert (Hcv : 0 <= (vendprod node).1 < 2 ^ 32 /\ 0 <= (vendprod node).2 < 2 ^ 32).
  { unfold ld_compar in Hnode. destruct (ld_cvalue mem (off + 4)) as [c| |] eqn:Ec; cbn [mbind outcome_mbind] in Hnode; try done.
    destruct (ld32 mem (off + 12)); cbn [mbind outcome_mbind] in Hnode; try done. injection Hnode as <-. by eapply ld_cvalue_range. }
  destruct (vstr_ret _ _ (proj1 Hcv) (proj2 Hcv) Hs) as (s & Es & _ & Hnz).
  assert (Hstreq : streq_at mem (vendprod node).2 vp = Ret (bool_decide (s = vp))) by (by apply streq_ret).
  unfold ecompar. cbn [data params interp]. rewrite Hnode. cbn [mbind outcome_mbind]. fold vp ver. rewrite Hstreq, Ht. cbn [mbind outcome_mbind].
  destruct (Z.eqb_spec (vtype node) VULNSPEC_VVAGUE) as [Ev|Ev]; cbn [negb] in H.
  - assert (Hv : exists v, ld_vague mem off = Ret v).
    { unfold ld_vague. destruct (ld32_in (off + 16)) as [? ->]; [lia|lia|]. destruct (ld32_in (off + 20)) as [? ->]; [lia|lia|].
      destruct (ld32_in (off + 24)) as [? ->]; [lia|lia|]. destruct (ld32_in (off + 28)) as [? ->]; [lia|lia|].
      destruct (ld32_in (off + 32)) as [? ->]; [lia|lia|]. cbn [mbind outcome_mbind]. by eexists. }
    destruct Hv as [v Hv]. exists (Compar t s (Vague v)). split.
    + eapply rep_compar; try done. rewrite Ev. by apply rep_vague.
    + cbn [denote matches_version]. fold vp. case_bool_decide; cbn [negb andb]; [|done]. rewrite Hv. cbn [mbind outcome_mbind].
      f_equal. apply compar_result_accepts.
  - apply jbind_ret in H as (cval & Hcval & H). apply lift_ret in Hcval. pose proof (ld_cvalue_range _ _ Hcval) as [R1 R2].
    destruct (vstr_ret _ _ R1 R2 H) as (w & Ew & Hwl & _).
    destruct (Z.eqb_spec (vtype node) VULNSPEC_VNALPHA) as [En|En].
    + exists (Compar t s (Nalpha w)). split; [eapply rep_compar; try done; rewrite En; by eapply rep_nalpha|].
      cbn [denote matches_version]. fold vp ver. case_bool_decide; cbn [negb andb]; [|done]. rewrite Hcval. cbn [mbind outcome_mbind].
      rewrite Ew. cbn [mbind outcome_mbind].
      rewrite nalphaver_cmp_ret by (done || lia). cbn [mbind outcome_mbind]. f_equal. apply compar_result_accepts.
    + exists (Compar t s OtherVersion). split; [eapply rep_compar; try done; by apply rep_other|].
      cbn [denote matches_version]. fold vp. case_bool_decide; done.
Qed.

Lemma ld_boolean_range off node : ld_boolean mem off = Ret node ->
  0 <= b_next node < 2 ^ 32 /\ 0 <= b_value node < 2 ^ 32.
Proof.
  unfold ld_boolean. intros H. destruct (ld32 mem off) as [t| |]; [|done|done]. cbn [mbind outcome_mbind] in H.
  destruct (ld32 mem (off + 4)) as [x| |] eqn:E1; [|done|done]. cbn [mbind outcome_mbind] in H.
  destruct (ld32 mem (off + 8)) as [v| |] eqn:E2; [|done|done]. cbn [mbind outcome_mbind] in H. injection H as <-.
  apply ld32_range in E1, E2. done.
Qed.

Lemma ld_cve_range off node : ld_cve mem off = Ret node ->
  0 <= c_next node < 2 ^ 32 /\ 0 <= c_vulnexpr node < 2 ^ 32 /\
  (0 <= (c_id node).1 < 2 ^ 32 /\ 0 <= (c_id node).2 < 2 ^ 32) /\
  0 <= (c_description node).1 < 2 ^ 32 /\ 0 <= (c_description node).2 < 2 ^ 32.
Proof.
  unfold ld_cve. intros H. destruct (ld32 mem off) as [t| |]; [|done|done]. cbn [mbind outcome_mbind] in H.
  destruct (ld32 mem (off + 4)) as [x| |] eqn:E1; [|done|done]. cbn [mbind outcome_mbind] in H.
  destruct (ld32 mem (off + 8)) as [c2| |]; [|done|done]. cbn [mbind outcome_mbind] in H.
  destruct (ld32 mem (off + 12)) as [c3| |]; [|done|done]. cbn [mbind outcome_mbind] in H.
  destruct (ld_cvalue mem (off + 16)) as [i| |] eqn:E2; [|done|done]. cbn [mbind outcome_mbind] in H.
  destruct (ld_cvalue mem (off + 24)) as [d| |] eqn:E3; [|done|done]. cbn [mbind outcome_mbind] in H.
  destruct (ld32 mem (off + 32)) as [v| |] eqn:E4; [|done|done]. cbn [mbind outcome_mbind] in H. injection H as <-.
  apply ld32_range in E1, E4. apply ld_cvalue_range in E2, E3. done.
Qed.

Lemma boolean_type t : is_boolean t = true -> t = VULNSPEC_AND_NODE \/ t = VULNSPEC_OR_NODE.
Proof. unfold is_boolean. intros [H|H]%orb_prop; zbool; auto. Qed.

(** the walk of the validator is a tree, and the interpreter walks a part of it *)
Lemma expr_meaning fuel :
  (forall off, 0 <= off < 2 ^ 32 -> vvulnexpr base mem n fuel off = ret tt ->
    exists e, rep_expr mem off e /\ evulnexpr interp fuel off = ret (Z.b2z (denote p e))) /\
  (forall off, 0 <= off < 2 ^ 32 -> vboolean base mem n fuel off = ret tt ->
    exists bs, rep_chain mem off bs /\ forall r : bool, eboolean interp fuel off (Z.b2z r) = ret (Z.b2z (denote_chain p bs r))).
Proof.
  induction fuel as [|fuel [IHe IHc]]; [done|]. split; intros off Hoff H.
  - cbn [vvulnexpr] in H. apply jbind_ret in H as ([] & _ & H). apply jbind_ret in H as (t & Ht & H). apply lift_ret in Ht.
    cbn [evulnexpr]. cbn [data interp]. rewrite Ht. cbn [lift jbind mbind outcome_mbind].
    destruct (is_compar t) eqn:Ec.
    + destruct (compar_meaning off t tt Ht Ec Hoff H) as (e & He & E). exists e. split; [done|]. by rewrite E.
    + destruct (is_boolean t) eqn:Eb; [|done]. destruct (IHc off Hoff H) as (bs & Hbs & E).
      exists (Boolean bs). split; [by eapply rep_boolean|]. rewrite denote_boolean. apply (E false).
  - cbn [vboolean] in H. cbn [eboolean]. cbn [data interp]. destruct (Z.ltb_spec 0 off) as [Hpos|Hpos].
    2: { exists []. split; [by constructor|done]. }
    apply jbind_ret in H as ([] & _ & H). apply jbind_ret in H as (node & Hnode & H). apply lift_ret in Hnode.
    rewrite Hnode. cbn [lift jbind mbind outcome_mbind]. destruct (is_boolean (b_type node)) eqn:Eb; [|done].
    apply jbind_ret in H as ([] & He & H). destruct (ld_boolean_range off node Hnode) as [Rn Rv].
    destruct (IHe _ Rv He) as (e & Hre & Ee). destruct (IHc _ Rn H) as (bs & Hrb & Eb').
    exists ((b_type node, e) :: bs). split; [by constructor|]. intros r. rewrite Ee. cbn [jbind mbind outcome_mbind ret denote_chain].
    specialize (Eb' (denote p e)). destruct (boolean_type _ Eb) as [Et|Et]; rewrite Et; destruct (denote p e); done || exact Eb'.
Qed.

Lemma cves_meaning fuel : no_string (cve_version p) || no_string (cve_vendprod p) = false ->
  forall off, 0 <= off < 2 ^ 32 -> vcve base mem n fuel off = ret tt ->
  exists cs, rep_cves mem off cs /\ forall ms, enodes interp fuel off ms = Ret (report p cs ms).
Proof.
  intros Hns. induction fuel as [|fuel IH]; intros off Hoff H; [done|]. cbn [vcve] in H. cbn [enodes].
  destruct (Z.ltb_spec 0 off) as [Hpos|Hpos]; [|exists []; split; [by constructor|done]].
  apply jbind_ret in H as ([] & _ & H). apply jbind_ret in H as (node & Hnode & H). apply lift_ret in Hnode.
  destruct (Z.eqb_spec (c_type node) VULNSPEC_CVE_NODE) as [Et|]; [|done]. cbn [negb] in H.
  apply jbind_ret in H as ([] & Hid & H). apply jbind_ret in H as ([] & Hde & H). apply jbind_ret in H as ([] & Hex & H).
  destruct (ld_cve_range off node Hnode) as (Rn & Rv & (Ri1 & Ri2) & Rd1 & Rd2).
  destruct (vstr_ret _ _ Ri1 Ri2 Hid) as (si & Esi & _). destruct (vstr_ret _ _ Rd1 Rd2 Hde) as (sd & Esd & _).
  destruct (proj1 (expr_meaning fuel) _ Rv Hex) as (e & He & Ee). destruct (IH _ Rn H) as (cs & Hcs & Ecs).
  eexists. split; [by apply (rep_cve mem off node si sd e cs)|].
  intros ms. cbn [data params interp]. rewrite Hnode. cbn [mbind outcome_mbind].
  rewrite Et, Z.eqb_refl. cbn [negb]. rewrite Hns, Ee. cbn [mbind outcome_mbind ret]. rewrite b2z_bool. cbn [report cve_expr cve_match].
  destruct (denote p e), (cve_on_match p) as [f|]; rewrite ?Ecs; try done. cbv zeta. by case_match.
Qed.

(** without a product or a version nothing is evaluated *)
Lemma cves_no_string fuel : no_string (cve_version p) || no_string (cve_vendprod p) = true ->
  forall off, 0 <= off < 2 ^ 32 -> vcve base mem n fuel off = ret tt ->
  forall ms, enodes interp fuel off ms = Ret (ms, 0).
Proof.
  intros Hns off Hoff H ms. destruct fuel as [|fuel]; [done|]. cbn [vcve] in H. cbn [enodes].
  destruct (Z.ltb_spec 0 off) as [Hpos|Hpos]; [|done].
  apply jbind_ret in H as ([] & _ & H). apply jbind_ret in H as (node & Hnode & H). apply lift_ret in Hnode.
  cbn [data params interp]. rewrite Hnode. cbn [mbind outcome_mbind].
  destruct (Z.eqb_spec (c_type node) VULNSPEC_CVE_NODE) as [Et|]; [|done]. cbn [negb]. by rewrite Hns.
Qed.

Lemma vcve_rep fuel : forall off, 0 <= off < 2 ^ 32 -> vcve base mem n fuel off = ret tt -> exists cs, rep_cves mem off cs.
Proof.
  induction fuel as [|fuel IH]; intros off Hoff H; [done|]. cbn [vcve] in H.
  destruct (Z.ltb_spec 0 off) as [Hpos|Hpos]; [|exists []; by constructor].
  apply jbind_ret in H as ([] & _ & H). apply jbind_ret in H as (node & Hnode & H). apply lift_ret in Hnode.
  destruct (Z.eqb_spec (c_type node) VULNSPEC_CVE_NODE) as [Et|]; [|done]. cbn [negb] in H.
  apply jbind_ret in H as ([] & Hid & H). apply jbind_ret in H as ([] & Hde & H). apply jbind_ret in H as ([] & Hex & H).
  destruct (ld_cve_range off node Hnode) as (Rn & Rv & (Ri1 & Ri2) & Rd1 & Rd2).
  destruct (vstr_ret _ _ Ri1 Ri2 Hid) as (si & Esi & _). destruct (vstr_ret _ _ Rd1 Rd2 Hde) as (sd & Esd & _).
  destruct (proj1 (expr_meaning fuel) _ Rv Hex) as (e & He & _). destruct (IH _ Rn H) as (cs & Hcs).
  eexists. by apply (rep_cve mem off node si sd e cs).
Qed.

Lemma validate_ret fuel : validate base mem n fuel = Ret 0 -> vcve base mem n fuel 8 = ret tt /\ 12 < n.
Proof.
  unfold validate, VULNSPEC_HEADER_SIZE. destruct (Z.ltb_spec n 8); [done|].
  destruct (rds mem 0 8) as [hdr| |]; cbn [mbind outcome_mbind]; try done. destruct (negb _); [done|].
  destruct (vnode base mem n fuel 8) as [[st|[]]| |] eqn:E; cbn [mbind outcome_mbind]; try done.
  - destruct (Z.eqb_spec st 0); [done|]. by intros [= ->].
  - intros _. change (vnode base mem n fuel 8 = ret tt) in E. unfold vnode in E.
    apply jbind_ret in E as ([] & Hc & E). apply jbind_ret in E as (t & Ht & E). destruct (t =? VULNSPEC_CVE_NODE); [|done].
    split; [done|]. destruct fuel as [|fuel]; [done|]. cbn [vcve] in E. change (0 <? 8) with true in E. cbv iota in E.
    apply jbind_ret in E as ([] & Hck & _). apply check_ret in Hck; [|lia|unfold CVE_NODE_SIZE; lia]. unfold CVE_NODE_SIZE in Hck. lia.
Qed.

End Validated.

(** C32: an image that [vulnspec_load] accepts is a finite list of CVEs, each
    with a finite expression and terminated strings, and is evaluated, in the
    same number of turns and without a read behind the byte that follows the
    image, to the reports on the CVEs whose expression holds of the product
    and version, in order, until one is refused; nothing is reported when
    there is no product or version. The image is followed by a readable null
    byte, as a mapped file is unless it fills its last page. *)
Theorem vulnspec_eval_meaning base mem n fuel interp0 interp :
  0 <= n < INT_MAX -> n < zlen mem -> rd mem n = Ret 0 -> Forall is_byte mem ->
  Forall (fun c => c <> 0) (default [] (cve_vendprod (params interp0))) ->
  zlen (default [] (cve_version (params interp0))) < INT_MAX ->
  vulnspec_load base fuel interp0 mem n = Ret (interp, 0) ->
  exists cs, rep_cves mem VULNSPEC_HEADER_SIZE cs /\
    vulnspec_eval interp fuel = Ret
      (if no_string (cve_version (params interp0)) || no_string (cve_vendprod (params interp0)) then ([], 0)
       else report (params interp0) cs []).
Proof.
  intros Hn Hmem Hend Hby Hvp Hver H. unfold vulnspec_load in H.
  destruct (validate base mem n fuel) as [st| |] eqn:Ev; cbn [mbind outcome_mbind] in H; try done.
  destruct (Z.eqb_spec st 0) as [->|Hst]; cbn [negb] in H; [|by injection H as _ ->].
  injection H as <-. destruct (validate_ret base mem n fuel Ev) as [Hv H12].
  unfold vulnspec_eval. cbn [len]. rewrite (proj2 (Z.leb_gt _ _)) by (unfold VULNSPEC_HEADER_SIZE; lia).
  destruct (no_string _ || no_string _) eqn:Ens.
  - destruct (vcve_rep base mem n Hn Hmem Hend Hby _ Hvp Hver fuel 8 ltac:(lia) Hv) as (cs & Hcs). exists cs. split; [done|].
    by apply (cves_no_string base mem n (params interp0) fuel Ens 8 ltac:(lia)).
  - destruct (cves_meaning base mem n Hn Hmem Hend Hby _ Hvp Hver fuel Ens 8 ltac:(lia) Hv) as (cs & Hcs & E).
    exists cs. split; [done|]. apply E.
Qed.

(** an image with one CVE: the version of "a/b" is at least 1.2 *)
Definition le32 (x : Z) : bytes := [x mod 256; x / 256 mod 256; x / 65536 mod 256; x / 16777216 mod 256].
Definition demo_compar (vp_len vp_off : Z) : bytes := mjoin (le32 <$> [VULNSPEC_GE_NODE; vp_len; vp_off; 0; 2; 1; 2; 0; 0]).
Definition demo_image (vp_len vp_off : Z) : bytes :=
  VULNSPEC_HEADER ++ mjoin (le32 <$> [VULNSPEC_CVE_NODE; 0; 750; 980; vp_len; vp_off; vp_len; vp_off; 44]) ++
  demo_compar vp_len vp_off ++ lit "a/b" ++ [0].
Definition demo_interp : vulnspec_interp :=
  Interp (Params (Some (fun _ => 1)) (Some (lit "a/b")) (Some (lit "1.10")) (Version 2 [1; 10; 0; 0])) [] 0.

Definition is_byteb (b : Z) : bool := (0 <=? b) && (b <? 256).
Lemma bytes_dec l : forallb is_byteb l = true -> Forall is_byte l.
Proof.
  intros H. rewrite forallb_forall in H. apply Forall_forall. intros x Hx%list_elem_of_In%H.
  unfold is_byteb in Hx. zbool. unfold is_byte. lia.
Qed.

Lemma vulnspec_eval_meaning_witness :
  vulnspec_load 4096 10 demo_interp (demo_image 4 80 ++ [0]) 84 = Ret (Interp (params demo_interp) (demo_image 4 80 ++ [0]) 84, 0) /\
  exists cs, rep_cves (demo_image 4 80 ++ [0]) VULNSPEC_HEADER_SIZE cs /\
    vulnspec_eval (Interp (params demo_interp) (demo_image 4 80 ++ [0]) 84) 10 = Ret
      (if no_string (cve_version (params demo_interp)) || no_string (cve_vendprod (params demo_interp)) then ([], 0)
       else report (params demo_interp) cs []).
Proof.
  assert (Hload : vulnspec_load 4096 10 demo_interp (demo_image 4 80 ++ [0]) 84 =
    Ret (Interp (params demo_interp) (demo_image 4 80 ++ [0]) 84, 0)) by reflexivity.
  split; [exact Hload|].
  apply (vulnspec_eval_meaning 4096 (demo_image 4 80 ++ [0]) 84 10 demo_interp _); [unfold INT_MAX; lia|reflexivity|reflexivity| | |reflexivity|exact Hload].
  - apply bytes_dec. reflexivity.
  - repeat constructor; discriminate.
Defined.

Example demo_runs : vulnspec_eval (Interp (params demo_interp) (demo_image 4 80 ++ [0]) 84) 10 = Ret ([Match 80 750 980 80], 0).
Proof. reflexivity. Qed.

(** The validator looks at the byte before a string of length 0 and lets
    the string start at the end of the image: an image is accepted whose
    evaluation reads behind it. *)
Theorem vulnspec_empty_string_overread :
  exists mem interp, vulnspec_load 4096 10 demo_interp mem (zlen mem) = Ret (interp, 0) /\
    vulnspec_eval interp 10 = OutOfBounds.
Proof.
  exists (VULNSPEC_HEADER ++ mjoin (le32 <$> [VULNSPEC_CVE_NODE; 0; 750; 980; 0; 80; 0; 80; 44]) ++ demo_compar 0 80).
  eexists. split; reflexivity.
Qed.

(** The validator follows a list that leads back to itself without end: no
    number of turns is enough. *)
Theorem vulnspec_cyclic_endless fuel :
  vulnspec_load 4096 fuel demo_interp
    (VULNSPEC_HEADER ++ mjoin (le32 <$> [VULNSPEC_CVE_NODE; 8; 750; 980; 4; 80; 4; 80; 44]) ++ demo_compar 4 80 ++ lit "a/b" ++ [0]) 84 = OutOfFuel.
Proof.
  set (mem := VULNSPEC_HEADER ++ _). unfold vulnspec_load, validate. change (84 <? VULNSPEC_HEADER_SIZE) with false. cbv iota.
  change (rds mem 0 VULNSPEC_HEADER_SIZE) with (Ret VULNSPEC_HEADER). cbn [mbind outcome_mbind].
  change (negb (memcmp VULNSPEC_HEADER VULNSPEC_HEADER =? 0)) with false. cbv iota.
  assert (H : vcve 4096 mem 84 fuel 8 = OutOfFuel).
  { induction fuel as [|fuel IH]; [done|]. cbn [vcve]. change (0 <? 8) with true. cbv iota.
    change (check 4096 84 8 CVE_NODE_SIZE) with (ret tt). cbn [jbind mbind outcome_mbind ret].
    change (ld_cve mem 8) with (Ret (CveNode 1 8 750 980 (4, 80) (4, 80) 44)). cbn [lift jbind mbind outcome_mbind c_type c_id c_description c_vulnexpr c_next].
    change (negb (1 =? VULNSPEC_CVE_NODE)) with false. cbv iota. change (vstr 4096 mem 84 (4, 80)) with (ret tt). cbn [jbind mbind outcome_mbind ret].
    destruct fuel as [|fuel]; [done|]. change (vvulnexpr 4096 mem 84 (S fuel) 44) with (ret tt). cbn [jbind mbind outcome_mbind ret].
    by rewrite IH. }
  unfold vnode. change (check 4096 84 VULNSPEC_HEADER_SIZE 4) with (ret tt). cbn [jbind mbind outcome_mbind ret].
  change (ld32 mem VULNSPEC_HEADER_SIZE) with (Ret VULNSPEC_CVE_NODE). cbn [lift jbind mbind outcome_mbind].
  change (VULNSPEC_CVE_NODE =? VULNSPEC_CVE_NODE) with true. cbv iota. change VULNSPEC_HEADER_SIZE with 8. by rewrite H.
Qed.
