(* ===== verification/VulnReader.v ===== *)
(** * Reading vulnerability specifications (src/lib/vulnspec/reader.c)

    The reader gives the tokens of a file one by one, with the position in
    the file.  A file is the bytes that are still to be read.  The theorems
    relate the reader to a lexical specification on byte strings: which token
    a text starts with and where it ends.

    Floating point numbers are those of IEEE 754 binary64, as specified by
    [SpecFloat]. *)

From Stdlib Require Import SpecFloat.
From S2P Require Import Prelude CLib Buf.

Definition EOF : Z := -1.

Inductive vulnspec_token : Type :=
  | VULNSPEC_TINVALID
  | VULNSPEC_TEOF
  | VULNSPEC_TLPAREN
  | VULNSPEC_TRPAREN
  | VULNSPEC_TSTRING
  | VULNSPEC_TLONG
  | VULNSPEC_TDOUBLE
  | VULNSPEC_TSYMBOL.

#[export] Instance vulnspec_token_eq_dec : EqDecision vulnspec_token.
Proof. solve_decision. Defined.

Definition vulnspec_token2str (t : vulnspec_token) : string :=
  match t with
  | VULNSPEC_TINVALID => "VULNSPEC_TINVALID"
  | VULNSPEC_TEOF => "VULNSPEC_TEOF"
  | VULNSPEC_TLPAREN => "VULNSPEC_TLPAREN"
  | VULNSPEC_TRPAREN => "VULNSPEC_TRPAREN"
  | VULNSPEC_TSTRING => "VULNSPEC_TSTRING"
  | VULNSPEC_TLONG => "VULNSPEC_TLONG"
  | VULNSPEC_TDOUBLE => "VULNSPEC_TDOUBLE"
  | VULNSPEC_TSYMBOL => "VULNSPEC_TSYMBOL"
  end.

(** the member of the union [num] that was written last *)
Inductive number : Type :=
  | Dval (d : spec_float)
  | Ival (n : Z).

Definition SYMBOL_SIZE : Z := 32.

Record vulnspec_reader : Type := Reader {
  symbol : bytes;
  input : bytes;
  row : Z;
  col : Z;
  lastcol : Z;
  sval : buf_t;
  num : number;
}.

Definition set_input (r : vulnspec_reader) (i : bytes) (row col lastcol : Z) : vulnspec_reader :=
  Reader (symbol r) i row col lastcol (sval r) (num r).
Definition set_symbol (r : vulnspec_reader) (s : bytes) : vulnspec_reader :=
  Reader s (input r) (row r) (col r) (lastcol r) (sval r) (num r).
Definition set_sval (r : vulnspec_reader) (b : buf_t) : vulnspec_reader :=
  Reader (symbol r) (input r) (row r) (col r) (lastcol r) b (num r).
Definition set_num (r : vulnspec_reader) (n : number) : vulnspec_reader :=
  Reader (symbol r) (input r) (row r) (col r) (lastcol r) (sval r) n.

Definition vm_getc (r : vulnspec_reader) : vulnspec_reader * Z :=
  match input r with
  | [] => (r, EOF)
  | ch :: rest =>
      if ch =? 10 then (set_input r rest (u64 (row r + 1)) 0 (col r), ch)
      else (set_input r rest (row r) (u64 (col r + 1)) (lastcol r), ch)
  end.

(** a pushed back EOF is refused *)
Definition vm_ungetc (r : vulnspec_reader) (ch : Z) : vulnspec_reader * Z :=
  if ch =? EOF then (r, EOF)
  else
    if col r =? 0 then (set_input r (ch :: input r) (u64 (row r - 1)) (lastcol r) (lastcol r), ch)
    else (set_input r (ch :: input r) (row r) (u64 (col r - 1)) (lastcol r), ch).

Definition double_of_Z (n : Z) : spec_float := binary_normalize 53 1024 n 0 false.

(** the loop of [read_number]; a [long] and an [int] that overflow wrap *)
Fixpoint number_loop (fuel : nat) (r : vulnspec_reader) (ival fpdiv : Z) :
    outcome (vulnspec_reader * option (Z * Z)) :=
  match fuel with
  | O => OutOfFuel
  | S fuel =>
      let '(r, ch) := vm_getc r in
      if ch =? EOF then Ret (r, Some (ival, fpdiv))
      else if negb (ch =? 46) && ((ch <? 48) || (57 <? ch)) then
        let '(r, _) := vm_ungetc r ch in Ret (r, Some (ival, fpdiv))
      else
        let fpdiv := i32 (fpdiv * 10) in
        if ch =? 46 then
          if negb (fpdiv =? 0) then Ret (r, None) else number_loop fuel r ival 1
        else
          let tmp := i64 (i64 (ival * 10) + (ch - 48)) in
          if tmp <? ival then Ret (r, None) else number_loop fuel r tmp fpdiv
  end.

Definition read_number (fuel : nat) (r : vulnspec_reader) (first : Z) : outcome (vulnspec_reader * vulnspec_token) :=
  let ival := if (48 <=? first) && (first <=? 57) then first - 48 else 0 in
  let negate := first =? 45 in
  let fpdiv := if first =? 46 then 1 else 0 in
  '(r, v) ← number_loop fuel r ival fpdiv;
  match v with
  | None => Ret (r, VULNSPEC_TINVALID)
  | Some (ival, fpdiv) =>
      let ival := if negate then i64 (- ival) else ival in
      if negb (fpdiv =? 0) then
        Ret (set_num r (Dval (SFdiv 53 1024 (double_of_Z ival) (double_of_Z fpdiv))), VULNSPEC_TDOUBLE)
      else Ret (set_num r (Ival ival), VULNSPEC_TLONG)
  end.

Section Reader.
Context (alloc_ok : Z -> bool).

(** the results of [buf_achar] are ignored *)
Fixpoint string_loop (fuel : nat) (r : vulnspec_reader) : outcome (vulnspec_reader * vulnspec_token) :=
  match fuel with
  | O => OutOfFuel
  | S fuel =>
      let '(r, ch) := vm_getc r in
      if ch =? EOF then Ret (r, VULNSPEC_TINVALID)
      else if ch =? 34 then
        '(b, _) ← buf_achar alloc_ok (sval r) 0;
        Ret (set_sval r b, VULNSPEC_TSTRING)
      else
        let '(r, ch) := if ch =? 92 then vm_getc r else (r, ch) in
        if ch =? EOF then Ret (r, VULNSPEC_TINVALID)
        else
          '(b, _) ← buf_achar alloc_ok (sval r) ch;
          string_loop fuel (set_sval r b)
  end.

Definition read_string (fuel : nat) (r : vulnspec_reader) : outcome (vulnspec_reader * vulnspec_token) :=
  string_loop fuel (set_sval r (buf_clear (sval r))).

Definition is_delim (ch : Z) : bool :=
  (ch =? 40) || (ch =? 41) || (ch =? 32) || (ch =? 13) || (ch =? 10) || (ch =? 9).

Fixpoint symbol_loop (fuel : nat) (r : vulnspec_reader) (offset : Z) : outcome (vulnspec_reader * vulnspec_token) :=
  match fuel with
  | O => OutOfFuel
  | S fuel =>
      let '(r, ch) := vm_getc r in
      if is_delim ch || (ch =? EOF) then
        let r := if is_delim ch then fst (vm_ungetc r ch) else r in
        s ← wr (symbol r) offset 0;
        Ret (set_symbol r s, VULNSPEC_TSYMBOL)
      else
        s ← wr (symbol r) offset ch;
        let r := set_symbol r s in
        let offset := u32 (offset + 1) in
        if SYMBOL_SIZE - 1 <=? offset then Ret (r, VULNSPEC_TINVALID) else symbol_loop fuel r offset
  end.

Definition read_symbol (fuel : nat) (r : vulnspec_reader) : outcome (vulnspec_reader * vulnspec_token) :=
  symbol_loop fuel r 0.

(** the result of [buf_init] is ignored *)
Definition vulnspec_reader_init (file : bytes) : vulnspec_reader :=
  Reader (replicate 32 0) file 0 0 0 (default (Buf 0 0 []) (buf_init alloc_ok 8192)) (Ival 0).

Definition vulnspec_reader_cleanup (r : vulnspec_reader) : vulnspec_reader := set_sval r (buf_cleanup (sval r)).

Fixpoint token_loop (fuel : nat) (r : vulnspec_reader) : outcome (vulnspec_reader * vulnspec_token) :=
  match fuel with
  | O => OutOfFuel
  | S fuel =>
      let '(r, ch) := vm_getc r in
      if ch =? EOF then Ret (r, VULNSPEC_TEOF)
      else if (ch =? 32) || (ch =? 9) || (ch =? 13) || (ch =? 10) then token_loop fuel r
      else if ch =? 40 then Ret (r, VULNSPEC_TLPAREN)
      else if ch =? 41 then Ret (r, VULNSPEC_TRPAREN)
      else if (ch =? 46) || (ch =? 45) || ((48 <=? ch) && (ch <=? 57)) then
        read_number (S (length (input r))) r ch
      else if ch =? 34 then read_string (S (length (input r))) r
      else let '(r, _) := vm_ungetc r ch in read_symbol (S (length (input r))) r
  end.

(** every turn of a loop consumes a byte *)
Definition vulnspec_read_token (r : vulnspec_reader) : outcome (vulnspec_reader * vulnspec_token) :=
  token_loop (S (length (input r))) r.

End Reader.

(** [num] is read after a token of its type only *)
Definition vulnspec_reader_long (r : vulnspec_reader) : outcome Z :=
  match num r with Ival n => Ret n | Dval _ => OutOfBounds end.
Definition vulnspec_reader_double (r : vulnspec_reader) : outcome spec_float :=
  match num r with Dval d => Ret d | Ival _ => OutOfBounds end.
Definition vulnspec_reader_symbol (r : vulnspec_reader) : bytes := symbol r.

(** the bytes at the pointer, and the length stored at [len] *)
Definition vulnspec_reader_string (r : vulnspec_reader) : bytes * Z :=
  if 0 <? len (sval r) then (data (sval r), len (sval r) - 1) else ([0], 0).

(** ** Lexical specification *)

Inductive token : Type :=
  | TInvalid
  | TEof
  | TLparen
  | TRparen
  | TString (s : bytes)
  | TLong (n : Z)
  | TDouble (d : spec_float)
  | TSymbol (s : bytes).

Definition kind (t : token) : vulnspec_token :=
  match t with
  | TInvalid => VULNSPEC_TINVALID
  | TEof => VULNSPEC_TEOF
  | TLparen => VULNSPEC_TLPAREN
  | TRparen => VULNSPEC_TRPAREN
  | TString _ => VULNSPEC_TSTRING
  | TLong _ => VULNSPEC_TLONG
  | TDouble _ => VULNSPEC_TDOUBLE
  | TSymbol _ => VULNSPEC_TSYMBOL
  end.

(** up to the closing quote; a backslash takes the next byte as it is *)
Fixpoint lex_string (s acc : bytes) : option (bytes * bytes) :=
  match s with
  | [] => None
  | c :: s =>
      if c =? 34 then Some (acc, s)
      else if c =? 92 then match s with [] => None | c :: s => lex_string s (acc ++ [c]) end
      else lex_string s (acc ++ [c])
  end.

(** up to a delimiter, at most 30 bytes *)
Fixpoint lex_symbol (s acc : bytes) : option (bytes * bytes) :=
  match s with
  | [] => Some (acc, [])
  | c :: s' =>
      if is_delim c then Some (acc, s)
      else if 30 <=? zlen acc then None else lex_symbol s' (acc ++ [c])
  end.

(** digits [ival] with at most one point, [fpdiv] is 0 before it and then
    the power of ten of the digits behind it *)
Fixpoint lex_digits (s : bytes) (ival fpdiv : Z) : option (Z * Z * bytes) :=
  match s with
  | [] => Some (ival, fpdiv, [])
  | c :: s' =>
      if c =? 46 then if i32 (fpdiv * 10) =? 0 then lex_digits s' ival 1 else None
      else if isdigit c then
        let n := i64 (i64 (ival * 10) + (c - 48)) in
        if n <? ival then None else lex_digits s' n (i32 (fpdiv * 10))
      else Some (ival, fpdiv, s)
  end.

Definition lex_number (c : Z) (s : bytes) : token * bytes :=
  match lex_digits s (if isdigit c then c - 48 else 0) (if c =? 46 then 1 else 0) with
  | None => (TInvalid, [])
  | Some (ival, fpdiv, s) =>
      let ival := if c =? 45 then i64 (- ival) else ival in
      if fpdiv =? 0 then (TLong ival, s)
      else (TDouble (SFdiv 53 1024 (double_of_Z ival) (double_of_Z fpdiv)), s)
  end.

Definition is_blank (c : Z) : bool := (c =? 32) || (c =? 9) || (c =? 13) || (c =? 10).

(** the first token of a text and what follows it *)
Fixpoint lex (s : bytes) : token * bytes :=
  match s with
  | [] => (TEof, [])
  | c :: s' =>
      if is_blank c then lex s'
      else if c =? 40 then (TLparen, s')
      else if c =? 41 then (TRparen, s')
      else if (c =? 46) || (c =? 45) || isdigit c then lex_number c s'
      else if c =? 34 then match lex_string s' [] with Some (t, s) => (TString t, s) | None => (TInvalid, []) end
      else match lex_symbol s [] with Some (t, s) => (TSymbol t, s) | None => (TInvalid, []) end
  end.

(** ** The reader follows it *)

(** row and column behind a byte *)
Definition advance (p : Z * Z) (c : Z) : Z * Z := if c =? 10 then (p.1 + 1, 0) else (p.1, p.2 + 1).

Definition moved (r r' : vulnspec_reader) : Prop :=
  exists pre, input r = pre ++ input r' /\ (row r', col r') = foldl advance (row r, col r) pre.

(** a file of text, and counters that cannot wrap *)
Record reader_ok (r : vulnspec_reader) : Prop := ReaderOk {
  ok_sval : wf (sval r);
  ok_cap : cap (sval r) <= 2 ^ 60;
  ok_symbol : zlen (symbol r) = 32;
  ok_input : Forall (fun c => 0 < c < 256) (input r);
  ok_row : 0 <= row r /\ row r + zlen (input r) < 2 ^ 56;
  ok_col : 0 <= col r /\ col r + zlen (input r) < 2 ^ 56;
}.

Definition payload (r : vulnspec_reader) (t : token) : Prop :=
  match t with
  | TString s => contents (sval r) = s ++ [0]
  | TLong n => num r = Ival n
  | TDouble d => num r = Dval d
  | TSymbol s => exists rest, symbol r = s ++ 0 :: rest /\ Forall (fun c => 0 < c < 256) s
  | _ => True
  end.

Lemma moved_refl r : moved r r.
Proof. by exists []. Qed.

Lemma moved_trans a b c : moved a b -> moved b c -> moved a c.
Proof.
  intros (p & Ep & Hp) (q & Eq & Hq). exists (p ++ q). rewrite Ep, Eq. split; [by rewrite app_assoc|].
  by rewrite foldl_app, <- Hp.
Qed.

Lemma moved_shorter a b : moved a b -> (length (input b) <= length (input a))%nat.
Proof. intros (p & -> & _). rewrite length_app. lia. Qed.

Lemma getc_moves r c rest : reader_ok r -> input r = c :: rest ->
  exists r', vm_getc r = (r', c) /\ input r' = rest /\ moved r r' /\ reader_ok r' /\
    symbol r' = symbol r /\ sval r' = sval r /\ num r' = num r /\ 0 < c < 256 /\
    exists lc, vm_ungetc r' c = (set_input r (c :: rest) (row r) (col r) lc, c).
Proof.
  intros [Hs Hc Hy Hi [Hr0 Hr] [Hc0 Hcc]] E. rewrite E in *. apply Forall_cons in Hi as [Hch Hi].
  zlen_simpl. pose proof (zlen_nonneg rest). unfold vm_getc, vm_ungetc, EOF. rewrite E.
  destruct (Z.eqb_spec c 10) as [->|Hne]; eexists; split; try done; cbn [input row col lastcol symbol sval num set_input].
  - rewrite (uw_small 64 (row r + 1)) by lia. split; [done|]. split; [exists [10]; by rewrite E|].
    split; [constructor; cbn [input row col lastcol symbol sval num set_input]; done || lia|].
    do 3 (split; [done|]). split; [lia|]. eexists. simpl. rewrite uw_small by lia. by rewrite Z.add_simpl_r.
  - rewrite (uw_small 64 (col r + 1)) by lia. split; [done|].
    split; [exists [c]; rewrite E; cbn; unfold advance; by rewrite (proj2 (Z.eqb_neq _ _) Hne)|].
    split; [constructor; cbn [input row col lastcol symbol sval num set_input]; done || lia|].
    do 3 (split; [done|]). split; [lia|]. eexists. rewrite (proj2 (Z.eqb_neq c (-1))), (proj2 (Z.eqb_neq (col r + 1) 0)) by lia.
    rewrite uw_small by lia. by rewrite Z.add_simpl_r.
Qed.

Lemma getc_eof r : input r = [] -> vm_getc r = (r, EOF).
Proof. unfold vm_getc. by intros ->. Qed.

Lemma unget_ok r lc : reader_ok r ->
  let r' := set_input r (input r) (row r) (col r) lc in reader_ok r' /\ moved r r' /\ input r' = input r.
Proof. intros []. split; [by constructor|]. split; [by exists []|done]. Qed.

Lemma digit_test c : (c <? 48) || (57 <? c) = negb (isdigit c).
Proof. unfold isdigit. destruct (Z.ltb_spec c 48), (Z.ltb_spec 57 c), (Z.leb_spec 48 c), (Z.leb_spec c 57); simpl; lia || done. Qed.

Lemma number_loop_lex fuel : forall r ival fpdiv, reader_ok r -> (length (input r) < fuel)%nat ->
  exists r', number_loop fuel r ival fpdiv = Ret (r', fst <$> lex_digits (input r) ival fpdiv) /\
    reader_ok r' /\ moved r r' /\ (forall v rest, lex_digits (input r) ival fpdiv = Some (v, rest) -> input r' = rest).
Proof.
  induction fuel as [|fuel IH]; intros r ival fpdiv Hr Hf; [lia|]. cbn [number_loop].
  destruct (input r) as [|c rest] eqn:E.
  - rewrite (getc_eof r E). cbv iota. change (EOF =? EOF) with true. cbv iota. exists r. cbn [lex_digits].
    split; [done|]. split; [done|]. split; [apply moved_refl|]. by intros v w [= _ <-].
  - destruct (getc_moves r c rest Hr E) as (r1 & -> & Ei & Hm & Hr1 & _ & _ & _ & Hc & lc & Hu).
    rewrite (proj2 (Z.eqb_neq c EOF)) by (unfold EOF; lia). cbn [lex_digits]. rewrite digit_test.
    destruct (Z.eqb_spec c 46) as [->|Hne]; cbn [negb andb].
    + destruct (i32 (fpdiv * 10) =? 0); cbn [negb].
      * destruct (IH r1 ival 1 Hr1) as (r' & -> & Hr' & Hm' & Hi'); [rewrite Ei; simpl in Hf; lia|].
        rewrite Ei in *. exists r'. split; [done|]. split; [done|]. split; [by eapply moved_trans|done].
      * exists r1. by split_and!.
    + destruct (isdigit c) eqn:Ed; cbn [negb].
      * cbv zeta. destruct (_ <? ival); [exists r1; by split_and!|].
        destruct (IH r1 (i64 (i64 (ival * 10) + (c - 48))) (i32 (fpdiv * 10)) Hr1) as (r' & -> & Hr' & Hm' & Hi'); [rewrite Ei; simpl in Hf; lia|].
        rewrite Ei in *. exists r'. split; [done|]. split; [done|]. split; [by eapply moved_trans|done].
      * rewrite Hu, <- E. destruct (unget_ok r lc Hr) as (Hok & Hmv & Hin).
        eexists. split; [done|]. split; [done|]. split; [done|]. intros v w [= _ <-]. done.
Qed.

(** when memory does not run out every append succeeds *)
Lemma buf_achar_succeeds alloc_ok b ch b' r : (forall n, alloc_ok n = true) ->
  buf_achar alloc_ok b ch = Ret (b', r) -> r = 0.
Proof.
  intros Ha. unfold buf_achar, buf_reserve, buf_grow. cbv zeta. rewrite !Ha.
  repeat (case_match; cbn [mbind outcome_mbind]; try done);
    destruct (wr _ _ _); cbn [mbind outcome_mbind]; by intros [= _ <-].
Qed.

Section Lexing.
Context (alloc_ok : Z -> bool) (Halloc : forall n, alloc_ok n = true).

Lemma sval_achar r ch : reader_ok r -> len (sval r) < 2 ^ 56 -> is_byte ch ->
  exists b, buf_achar alloc_ok (sval r) ch = Ret (b, 0) /\ reader_ok (set_sval r b) /\ contents b = contents (sval r) ++ [ch] /\
    len b = len (sval r) + 1.
Proof.
  intros Hr Hl Hch. destruct (buf_achar_spec alloc_ok (sval r) ch) as (b & x & E & H);
    [apply Hr|unfold small; pose proof (ok_cap r Hr); lia|]. rewrite E.
  rewrite (buf_achar_succeeds _ _ _ _ _ Halloc E) in *. destruct H as [(_ & Hw & Hc & Hcap)|[? _]]; [|done].
  rewrite uw_small in Hc by (unfold is_byte in Hch; lia). exists b. split; [done|].
  assert (Hlen : len b = len (sval r) + 1).
  { rewrite <- (contents_length b Hw), <- (contents_length (sval r)) by apply Hr. rewrite Hc. by zlen_simpl. }
  destruct Hr. split; [constructor; cbn [set_sval sval symbol input row col]; try done; lia|]. done.
Qed.

Lemma moved_sval r b : moved r (set_sval r b).
Proof. by exists []. Qed.

Lemma moved_sval_trans r b r' : moved (set_sval r b) r' -> moved r r'.
Proof. intros H. eapply moved_trans; [apply (moved_sval r b)|done]. Qed.

Lemma string_loop_lex fuel : forall r acc, reader_ok r -> (length (input r) < fuel)%nat -> contents (sval r) = acc ->
  len (sval r) + zlen (input r) < 2 ^ 56 ->
  exists r', string_loop alloc_ok fuel r = Ret (r', if lex_string (input r) acc is Some _ then VULNSPEC_TSTRING else VULNSPEC_TINVALID) /\
    reader_ok r' /\ moved r r' /\
    (forall s rest, lex_string (input r) acc = Some (s, rest) -> input r' = rest /\ contents (sval r') = s ++ [0]).
Proof.
  induction fuel as [|fuel IH]; intros r acc Hr Hf Ha Hb; [lia|]. cbn [string_loop].
  destruct (input r) as [|c rest] eqn:E; [rewrite (getc_eof r E); exists r; split; [done|]; split; [done|]; split; [apply moved_refl|done]|].
  destruct (getc_moves r c rest Hr E) as (r1 & -> & Ei & Hm & Hr1 & _ & Es & _ & Hc & _).
  rewrite (proj2 (Z.eqb_neq c EOF)) by (unfold EOF; lia). cbn [lex_string]. rewrite <- Es in Ha, Hb. zlen_simpl. simpl in Hf.
  pose proof (zlen_nonneg rest). destruct (Z.eqb_spec c 34) as [->|Hq].
  - destruct (sval_achar r1 0 Hr1) as (b & -> & Hok & Hcb & _); [lia|unfold is_byte; lia|]. cbn [mbind outcome_mbind].
    eexists. split; [done|]. split; [done|]. split; [by eapply moved_trans, moved_sval|].
    intros s w [= <- <-]. cbn [set_sval input sval]. rewrite Hcb, Ha. done.
  - assert (Hstep : forall r1 c rest, reader_ok r1 -> input r1 = rest -> moved r r1 -> 0 < c < 256 -> (length rest < fuel)%nat ->
      contents (sval r1) = acc -> len (sval r1) + 1 + zlen rest < 2 ^ 56 ->
      exists r', ('(b, _) ← buf_achar alloc_ok (sval r1) c; string_loop alloc_ok fuel (set_sval r1 b)) =
        Ret (r', if lex_string rest (acc ++ [c]) is Some _ then VULNSPEC_TSTRING else VULNSPEC_TINVALID) /\
      reader_ok r' /\ moved r r' /\
      (forall s w, lex_string rest (acc ++ [c]) = Some (s, w) -> input r' = w /\ contents (sval r') = s ++ [0])).
    { clear - Halloc IH. intros r1 c rest Hr1 Ei Hm Hc Hf Ha Hb. pose proof (zlen_nonneg rest).
      destruct (sval_achar r1 c Hr1) as (b & -> & Hok & Hcb & Hl); [lia|unfold is_byte; lia|]. cbn [mbind outcome_mbind].
      destruct (IH (set_sval r1 b) (acc ++ [c]) Hok) as (r' & -> & Hr' & Hm' & Hi'); cbn [set_sval input sval] in *;
        [rewrite Ei; lia|by rewrite Hcb, Ha|rewrite Ei, Hl; lia|].
      rewrite Ei in *. exists r'. split; [done|]. split; [done|]. split; [|done]. eapply moved_trans; [done|by eapply moved_sval_trans]. }
    destruct (Z.eqb_spec c 92) as [->|Hs].
    + destruct rest as [|c2 rest]; [rewrite (getc_eof r1 Ei); exists r1; by split_and!|].
      destruct (getc_moves r1 c2 rest Hr1 Ei) as (r2 & -> & Ei2 & Hm2 & Hr2 & _ & Es2 & _ & Hc2 & _).
      rewrite (proj2 (Z.eqb_neq c2 EOF)) by (unfold EOF; lia). zlen_simpl. simpl in Hf. pose proof (zlen_nonneg rest).
      apply Hstep; try done; try lia; try congruence; [by eapply moved_trans|rewrite Es2; lia].
    + rewrite (proj2 (Z.eqb_neq c EOF)) by (unfold EOF; lia). apply Hstep; try done; lia.
Qed.

Lemma wr_symbol r k c : reader_ok r -> 0 <= k < 32 ->
  exists s, wr (symbol r) k c = Ret s /\ reader_ok (set_symbol r s) /\ moved r (set_symbol r s) /\
    take (Z.to_nat k) s = take (Z.to_nat k) (symbol r) /\ s !! Z.to_nat k = Some c.
Proof.
  intros Hr Hk. pose proof (ok_symbol r Hr) as Hl. rewrite wr_in by lia. eexists. split; [done|].
  split; [destruct Hr; constructor; cbn [set_symbol symbol sval input row col]; try done; by rewrite zlen_insert|].
  split; [by exists []|]. split; [by rewrite take_insert_ge|]. apply list_lookup_insert_eq. unfold zlen in Hl. lia.
Qed.

Lemma symbol_loop_lex fuel : forall r acc, reader_ok r -> (length (input r) < fuel)%nat -> zlen acc <= 30 ->
  take (length acc) (symbol r) = acc -> Forall (fun c => 0 < c < 256) acc ->
  exists r', symbol_loop fuel r (zlen acc) = Ret (r', if lex_symbol (input r) acc is Some _ then VULNSPEC_TSYMBOL else VULNSPEC_TINVALID) /\
    reader_ok r' /\ moved r r' /\
    (forall s rest, lex_symbol (input r) acc = Some (s, rest) -> input r' = rest /\ payload r' (TSymbol s)).
Proof.
  induction fuel as [|fuel IH]; intros r acc Hr Hf Hl Ha Hacc; [lia|]. cbn [symbol_loop].
  pose proof (zlen_nonneg acc).
  assert (Hend : forall r1, reader_ok r1 -> moved r r1 -> symbol r1 = symbol r ->
    exists s, wr (symbol r1) (zlen acc) 0 = Ret s /\ reader_ok (set_symbol r1 s) /\ moved r (set_symbol r1 s) /\
      payload (set_symbol r1 s) (TSymbol acc)).
  { intros r1 Hr1 Hm1 Es. destruct (wr_symbol r1 (zlen acc) 0 Hr1) as (s & -> & Hok & Hmv & Ht & Hk); [lia|].
    exists s. split; [done|]. split; [done|]. split; [by eapply moved_trans|]. simpl. exists (drop (S (length acc)) s). split; [|done].
    unfold zlen in Ht, Hk. rewrite Nat2Z.id in Ht, Hk. rewrite Es, Ha in Ht.
    rewrite <- (take_drop (length acc) s) at 1. rewrite Ht. f_equal. by apply drop_S. }
  destruct (input r) as [|c rest] eqn:E.
  - rewrite (getc_eof r E). cbv iota. change (is_delim EOF) with false. change (EOF =? EOF) with true. cbn [orb].
    destruct (Hend r Hr (moved_refl r) eq_refl) as (s & -> & Hok & Hmv & Hp). cbn [mbind outcome_mbind].
    eexists. split; [done|]. split; [done|]. split; [done|]. cbn [lex_symbol]. intros s' w [= <- <-]. split; [done|exact Hp].
  - destruct (getc_moves r c rest Hr E) as (r1 & -> & Ei & Hm & Hr1 & Ey & _ & _ & Hc & lc & Hu).
    rewrite (proj2 (Z.eqb_neq c EOF)) by (unfold EOF; lia). cbn [lex_symbol]. destruct (is_delim c) eqn:Ed; cbn [orb].
    + rewrite Hu, <- E. cbn [fst]. destruct (unget_ok r lc Hr) as (Hok & Hmv & Hin).
      destruct (Hend _ Hok Hmv eq_refl) as (s & -> & Hok' & Hmv' & Hp). cbn [mbind outcome_mbind].
      eexists. split; [done|]. split; [done|]. split; [done|]. intros s' w [= <- <-]. split; [done|exact Hp].
    + destruct (wr_symbol r1 (zlen acc) c Hr1) as (s & -> & Hok & Hmv & Ht & Hk); [lia|]. cbn [mbind outcome_mbind]. cbv zeta.
      rewrite (uw_small 32) by lia. unfold SYMBOL_SIZE. destruct (Z.leb_spec (32 - 1) (zlen acc + 1)), (Z.leb_spec 30 (zlen acc)); try lia.
      * eexists. split; [done|]. split; [done|]. split; [by eapply moved_trans|done].
      * replace (zlen acc + 1) with (zlen (acc ++ [c])) by (by rewrite zlen_app).
        destruct (IH (set_symbol r1 s) (acc ++ [c]) Hok) as (r' & E' & Hr' & Hm' & Hi').
        -- cbn [set_symbol input]. rewrite Ei. simpl in Hf. lia.
        -- zlen_simpl. lia.
        -- cbn [set_symbol symbol]. unfold zlen in Ht, Hk. rewrite Nat2Z.id in Ht, Hk. rewrite length_app. simpl.
           rewrite Nat.add_1_r, (take_S_r _ _ c Hk), Ht, Ey, Ha. done.
        -- apply Forall_app. split; [done|]. by constructor.
        -- rewrite E'. cbn [set_symbol input] in *. rewrite Ei in *. exists r'. split; [done|]. split; [done|].
           split; [|exact Hi']. exact (moved_trans _ _ _ Hm (moved_trans _ _ _ Hmv Hm')).
Qed.

Lemma read_number_lex r c : reader_ok r ->
  exists r', read_number (S (length (input r))) r c = Ret (r', kind (lex_number c (input r)).1) /\ reader_ok r' /\ moved r r' /\
    ((lex_number c (input r)).1 <> TInvalid -> input r' = (lex_number c (input r)).2 /\ payload r' (lex_number c (input r)).1).
Proof.
  intros Hr. unfold read_number, lex_number. cbv zeta. change ((48 <=? c) && (c <=? 57)) with (isdigit c).
  destruct (number_loop_lex (S (length (input r))) r (if isdigit c then c - 48 else 0) (if c =? 46 then 1 else 0) Hr) as (r' & -> & Hr' & Hm & Hi); [lia|].
  destruct (lex_digits _ _ _) as [[[i f] rest]|]; cbn [fmap option_fmap option_map fst mbind outcome_mbind].
  - specialize (Hi _ _ eq_refl). destruct (f =? 0); cbn [negb fst snd kind]; eexists; (split; [done|]);
      (split; [destruct Hr'; by constructor|]); (split; [by eapply moved_trans; [|exists []]|done]).
  - exists r'. by split_and!.
Qed.

Lemma token_loop_lex fuel : forall r, reader_ok r -> (length (input r) < fuel)%nat ->
  exists r', token_loop alloc_ok fuel r = Ret (r', kind (lex (input r)).1) /\ reader_ok r' /\ moved r r' /\
    ((lex (input r)).1 <> TInvalid -> input r' = (lex (input r)).2 /\ payload r' (lex (input r)).1).
Proof.
  induction fuel as [|fuel IH]; intros r Hr Hf; [lia|]. cbn [token_loop]. destruct (input r) as [|c rest] eqn:E.
  { rewrite (getc_eof r E). cbv iota. change (EOF =? EOF) with true. cbv iota. cbn [lex fst snd kind]. exists r. split; [done|].
    split; [done|]. split; [apply moved_refl|done]. }
  destruct (getc_moves r c rest Hr E) as (r1 & -> & Ei & Hm & Hr1 & Ey & Es & _ & Hc & lc & Hu).
  rewrite (proj2 (Z.eqb_neq c EOF)) by (unfold EOF; lia). cbn [lex]. fold (is_blank c). destruct (is_blank c) eqn:Eb.
  { destruct (IH r1 Hr1) as (r' & -> & Hr' & Hm' & Hi'); [rewrite Ei; simpl in Hf; lia|]. rewrite Ei in *.
    exists r'. split; [done|]. split; [done|]. split; [by eapply moved_trans|exact Hi']. }
  destruct (c =? 40); [exists r1; by split_and!|]. destruct (c =? 41); [exists r1; by split_and!|].
  change ((48 <=? c) && (c <=? 57)) with (isdigit c). destruct ((c =? 46) || (c =? 45) || isdigit c).
  { destruct (read_number_lex r1 c Hr1) as (r' & -> & Hr' & Hm' & Hi'). rewrite Ei in *.
    exists r'. split; [done|]. split; [done|]. split; [by eapply moved_trans|exact Hi']. }
  destruct (c =? 34).
  - unfold read_string. set (r2 := set_sval r1 (buf_clear (sval r1))).
    assert (Hr2 : reader_ok r2).
    { destruct Hr1 as [[] ? ? ? ? ?]. constructor; try done. split; try done. simpl. lia. }
    destruct (string_loop_lex (S (length (input r1))) r2 [] Hr2) as (r' & -> & Hr' & Hm' & Hi'); [simpl; lia|done| |].
    { simpl. pose proof (ok_row r1 Hr1). lia. }
    change (input r2) with (input r1) in *. rewrite Ei in *. exists r'. destruct (lex_string rest []) as [[s w]|]; cbn [kind fst snd].
    + destruct (Hi' s w eq_refl) as [-> Hp]. split; [done|]. split; [done|]. split; [|done]. eapply moved_trans; [done|].
      by eapply moved_sval_trans.
    + split; [done|]. split; [done|]. split; [|done]. eapply moved_trans; [done|]. by eapply moved_sval_trans.
  - rewrite Hu. rewrite <- E. cbn [input set_input]. unfold read_symbol. destruct (unget_ok r lc Hr) as (Hok & Hmv & Hin).
    destruct (symbol_loop_lex (S (length (input r))) _ [] Hok) as (r' & E' & Hr' & Hm' & Hi'); [rewrite Hin; lia|done|done|done|].
    change (zlen (@nil Z)) with 0 in E'. cbn [set_input input] in *. rewrite E'. exists r'.
    destruct (lex_symbol (input r) []) as [[s w]|]; cbn [kind fst snd]; (split; [done|]); (split; [done|]);
      (split; [exact (moved_trans _ _ _ Hmv Hm')|]); [|done]. intros _. by apply Hi'.
Qed.

(** reading a token *)
Lemma read_token_lex r : reader_ok r ->
  exists r', vulnspec_read_token alloc_ok r = Ret (r', kind (lex (input r)).1) /\ reader_ok r' /\ moved r r' /\
    ((lex (input r)).1 <> TInvalid -> input r' = (lex (input r)).2 /\ payload r' (lex (input r)).1).
Proof. intros Hr. apply token_loop_lex; [done|lia]. Qed.

Lemma reader_init_ok file : Forall (fun c => 0 < c < 256) file -> zlen file < 2 ^ 56 ->
  reader_ok (vulnspec_reader_init alloc_ok file) /\ input (vulnspec_reader_init alloc_ok file) = file.
Proof.
  intros Hf Hl. split; [|done]. unfold vulnspec_reader_init, buf_init. rewrite Halloc.
  destruct (align_offset_spec 8192) as [Hb Hd]; [lia|].
  constructor; cbn [sval symbol input row col default from_option id cap]; try done; try lia.
  constructor; cbn [len cap data]; [lia|rewrite zlen_replicate; lia|done|]. apply Forall_replicate. unfold is_byte. lia.
Qed.

End Lexing.

(** ** The tokens of a text *)

Lemma lex_digits_length s : forall i f v rest, lex_digits s i f = Some (v, rest) -> (length rest <= length s)%nat.
Proof.
  induction s as [|c s IH]; intros i f v rest; cbn [lex_digits]; [by intros [= _ <-]|]. cbv zeta.
  repeat case_match; try done; intros E; first [by injection E as _ <-|apply IH in E; simpl; lia].
Qed.

Lemma lex_string_length n : forall s acc t rest, (length s <= n)%nat -> lex_string s acc = Some (t, rest) -> (length rest < length s)%nat.
Proof.
  induction n as [|n IH]; intros [|c s] acc t rest Hn; try done; [simpl in Hn; lia|]. cbn [lex_string]. simpl in Hn.
  destruct (c =? 34); [intros [= _ <-]; simpl; lia|]. destruct (c =? 92).
  - destruct s as [|c' s]; [done|]. intros E. apply IH in E; simpl in *; lia.
  - intros E. apply IH in E; simpl in *; lia.
Qed.

Lemma lex_symbol_length s : forall acc t rest, lex_symbol s acc = Some (t, rest) -> (length rest <= length s)%nat.
Proof.
  induction s as [|c s IH]; intros acc t rest; cbn [lex_symbol]; [by intros [= _ <-]|].
  destruct (is_delim c); [intros [= _ <-]; done|]. destruct (30 <=? zlen acc); [done|]. intros E%IH. simpl. lia.
Qed.

(** a token takes at least a byte *)
Lemma lex_length s : (lex s).1 <> TEof -> (length (lex s).2 < length s)%nat.
Proof.
  induction s as [|c s IH]; [done|]. cbn [lex]. destruct (is_blank c) eqn:Eb; [intros H%IH; simpl; lia|].
  destruct (c =? 40) eqn:E40; [simpl; lia|]. destruct (c =? 41) eqn:E41; [simpl; lia|]. destruct (_ || isdigit c).
  - intros _. unfold lex_number. destruct (lex_digits s _ _) as [[[i f] rest]|] eqn:E; [|simpl; lia].
    apply lex_digits_length in E. cbv zeta. case_match; simpl; lia.
  - destruct (c =? 34); intros _.
    + destruct (lex_string s []) as [[t rest]|] eqn:E; [|simpl; lia]. apply (lex_string_length (length s)) in E; simpl; lia.
    + cbn [lex_symbol]. assert (Hd : is_delim c = false).
      { unfold is_blank in Eb. unfold is_delim. rewrite E40, E41. by destruct (c =? 32), (c =? 9), (c =? 13), (c =? 10). }
      rewrite Hd. change (30 <=? zlen (@nil Z)) with false. cbv iota.
      destruct (lex_symbol s _) as [[t rest]|] eqn:E; [|simpl; lia]. apply lex_symbol_length in E. simpl. lia.
Qed.

(** a string of a text without null bytes has none, and is shorter *)
Lemma lex_string_text n : forall s acc t rest, (length s <= n)%nat -> lex_string s acc = Some (t, rest) ->
  Forall (fun c => 0 < c < 256) s -> Forall (fun c => 0 < c < 256) acc ->
  Forall (fun c => 0 < c < 256) t /\ zlen t <= zlen acc + zlen s.
Proof.
  induction n as [|n IH]; intros [|c s] acc t rest Hn; try done; [simpl in Hn; lia|]. cbn [lex_string]. simpl in Hn.
  intros E Hs Ha. apply Forall_cons in Hs as [Hc Hs]. zlen_simpl. pose proof (zlen_nonneg s). destruct (c =? 34); [injection E as <- _; split; [done|lia]|].
  assert (Hstep : forall c s, (length s <= n)%nat -> lex_string s (acc ++ [c]) = Some (t, rest) -> 0 < c < 256 ->
    Forall (fun c => 0 < c < 256) s -> Forall (fun c => 0 < c < 256) t /\ zlen t <= zlen acc + 1 + zlen s).
  { intros c' s' Hl El Hc' Hs'. destruct (IH s' (acc ++ [c']) t rest Hl El Hs') as [H1 H2]; [apply Forall_app_2; [done|by constructor]|].
    split; [done|]. rewrite zlen_app in H2. change (zlen [c']) with 1 in H2. lia. }
  destruct (c =? 92); [|destruct (Hstep c s); done || (split; [done|lia]) || lia].
  destruct s as [|c' s]; [done|]. apply Forall_cons in Hs as [Hc' Hs]. zlen_simpl. simpl in Hn.
  destruct (Hstep c' s) as [H1 H2]; try done; [lia|]. split; [done|lia].
Qed.

Lemma lex_text s : Forall (fun c => 0 < c < 256) s ->
  match (lex s).1 with TString t => Forall (fun c => 0 < c < 256) t /\ zlen t <= zlen s | _ => True end.
Proof.
  induction s as [|c s IH]; intros Hs; [done|]. apply Forall_cons in Hs as [Hc Hs]. specialize (IH Hs). cbn [lex]. rewrite zlen_cons.
  destruct (is_blank c); [destruct (lex s).1; try done; destruct IH; split; [done|lia]|]. destruct (c =? 40); [done|]. destruct (c =? 41); [done|].
  destruct (_ || isdigit c).
  - unfold lex_number. destruct (lex_digits s _ _) as [[[i f] rest]|]; [|done]. cbv zeta. by destruct (f =? 0).
  - destruct (c =? 34); [|by destruct (lex_symbol _ _) as [[t rest]|]].
    destruct (lex_string s []) as [[t rest]|] eqn:E; [|done]. apply (lex_string_text (length s)) in E as [H1 H2]; [|done..].
    split; [done|]. change (zlen (@nil Z)) with 0 in H2. cbn [fst]. lia.
Qed.

Fixpoint tokens_loop (fuel : nat) (s : bytes) : list token :=
  match fuel with
  | O => []
  | S fuel =>
      match lex s with
      | (TEof, _) => []
      | (TInvalid, _) => [TInvalid]
      | (t, rest) => t :: tokens_loop fuel rest
      end
  end.

(** up to the end of the text, or what is not a token *)
Definition tokens (s : bytes) : list token := tokens_loop (S (length s)) s.

Lemma tokens_loop_fuel n : forall m s, (length s < n)%nat -> (length s < m)%nat -> tokens_loop n s = tokens_loop m s.
Proof.
  induction n as [|n IH]; intros [|m] s Hn Hm; try lia. cbn [tokens_loop]. pose proof (lex_length s) as Hl.
  destruct (lex s) as [[] rest]; try done; cbn [fst snd] in Hl; f_equal; apply IH;
    (apply Nat.lt_le_trans with (length s); [by apply Hl|lia]).
Qed.

Lemma tokens_step s : tokens s = match lex s with
  | (TEof, _) => []
  | (TInvalid, _) => [TInvalid]
  | (t, rest) => t :: tokens rest
  end.
Proof.
  unfold tokens at 1. cbn [tokens_loop]. pose proof (lex_length s) as Hl. destruct (lex s) as [[] rest]; try done; cbn [fst snd] in Hl;
    f_equal; apply tokens_loop_fuel; (lia || by apply Hl).
Qed.

(** C33: the reader gives the first token of the text that is left, with its
    value, leaves the rest of the text, and counts the lines and columns of
    what it has passed; after an invalid token it stays within the text. *)
Theorem vulnspec_read_token_lexes alloc_ok r : (forall n, alloc_ok n = true) -> reader_ok r ->
  exists r', vulnspec_read_token alloc_ok r = Ret (r', kind (lex (input r)).1) /\ reader_ok r' /\
    (exists pre, input r = pre ++ input r' /\ (row r', col r') = foldl advance (row r, col r) pre) /\
    ((lex (input r)).1 <> TInvalid -> input r' = (lex (input r)).2 /\ payload r' (lex (input r)).1).
Proof. intros Ha Hr. by apply read_token_lex. Qed.

(** a symbol that ends the file *)
Definition demo_reader : vulnspec_reader :=
  Reader (replicate 32 0) (lit " cve") 3 7 0 (Buf.Buf 8 0 (replicate 8 0)) (Ival 0).

Lemma vulnspec_read_token_lexes_witness : reader_ok demo_reader /\
  exists r', vulnspec_read_token (fun _ => true) demo_reader = Ret (r', kind (lex (input demo_reader)).1) /\ reader_ok r' /\
    (exists pre, input demo_reader = pre ++ input r' /\ (row r', col r') = foldl advance (row demo_reader, col demo_reader) pre) /\
    ((lex (input demo_reader)).1 <> TInvalid -> input r' = (lex (input demo_reader)).2 /\ payload r' (lex (input demo_reader)).1).
Proof.
  assert (H : reader_ok demo_reader).
  { split; [split; [done|done|by exists 1|repeat constructor; unfold is_byte; lia]|done|done|repeat constructor; done|done|done]. }
  split; [exact H|]. apply (vulnspec_read_token_lexes (fun _ => true) demo_reader); [reflexivity|exact H].
Defined.
