(* ===== verification/VulnStrtab.v ===== *)
(** * The string table of the compiler (src/lib/vulnspec/parser.c)

    Strings of a specification are stored once: an object table maps them to
    their place in the program.  An object is an entry on the heap; the key
    of a search is an entry on the stack.  The functions given to the object
    table read both, so the options of the table are those of the current
    heap.  The theorems show that the table is a finite map from strings to
    offsets. *)

From stdpp Require Import gmap.
From S2P Require Import Prelude CLib RobinHood Objtbl.

Definition STRTAB_ENTRIES : Z := 4096.

(** [str] is the memory from the pointer on *)
Record strtab_entry : Type := StrEntry {
  se_str : bytes;
  se_len : Z;
  se_val : Z;
}.

(** the bytes before the terminator *)
Definition cstr (s : bytes) : bytes :=
  match strchr s 0 with Some n => take n s | None => s end.

(** the comparison includes the terminator *)
Definition strtab_cmp (key entry : strtab_entry) : Z :=
  let minlen := Z.to_nat (Z.min (se_len key) (se_len entry)) in
  memcmp (take minlen (se_str key)) (take minlen (se_str entry)).

Definition strtab_hash (entry : strtab_entry) (seed : Z) : Z := objtbl_strhash (Some (cstr (se_str entry))) seed.

(** [strdup] copies up to the terminator *)
Definition strtab_new (alloc_ok : Z -> bool) (s : bytes) (len val : Z) : option strtab_entry :=
  if alloc_ok 24 then
    if alloc_ok (zlen (cstr s) + 1) then Some (StrEntry (cstr s ++ [0]) len val) else None
  else None.

(** the entry on the heap with number [i] has the address [i + 1], the key
    on the stack the address -1 *)
Record strtab : Type := Strtab {
  st_tbl : objtbl_ctx;
  st_heap : list strtab_entry;
}.

Definition no_entry : strtab_entry := StrEntry [0] 1 0.

Definition deref (heap : list strtab_entry) (key : strtab_entry) (p : Z) : strtab_entry :=
  if p =? -1 then key else default no_entry (heap !! Z.to_nat (p - 1)).

Definition strtab_opts (heap : list strtab_entry) (key : strtab_entry) : objtbl_opts :=
  Opts 0 (fun p => strtab_hash (deref heap key p)) (fun p q => strtab_cmp (deref heap key p) (deref heap key q)).

(** the memory that the table sees *)
Definition with_opts (tbl : objtbl_ctx) (o : objtbl_opts) : objtbl_ctx :=
  Ctx (Header (cap (header tbl)) (size (header tbl)) (modmask (header tbl)) (rehash_limit (header tbl)) o) (entries tbl).

Definition strtab_init (alloc_ok : Z -> bool) : option strtab :=
  match objtbl_init alloc_ok (strtab_opts [] no_entry) STRTAB_ENTRIES with
  | (Some tbl, _) => Some (Strtab tbl [])
  | (None, _) => None
  end.

(** [objtbl_get(&p->strtab, &e, &tblentry)] *)
Definition strtab_get (t : strtab) (key : strtab_entry) : outcome (Z * option strtab_entry) :=
  '(ret, p) ← objtbl_get (with_opts (st_tbl t) (strtab_opts (st_heap t) key)) (-1);
  Ret (ret, option_map (deref (st_heap t) key) p).

(** [objtbl_insert(&p->strtab, ent)] of a new entry *)
Definition strtab_insert (alloc_ok : Z -> bool) (t : strtab) (ent : strtab_entry) : outcome (strtab * Z) :=
  let heap := st_heap t ++ [ent] in
  '(tbl, ret) ← objtbl_insert alloc_ok (with_opts (st_tbl t) (strtab_opts heap no_entry)) (zlen heap);
  Ret (Strtab tbl heap, ret).

(** ** Keys *)

(** a string without terminators inside, and its terminator *)
Definition wf_entry (s : bytes) (e : strtab_entry) : Prop :=
  (exists rest, se_str e = s ++ 0 :: rest) /\ se_len e = zlen s + 1 /\ Forall (fun c => 0 < c < 256) s.

Lemma cstr_terminated s rest : Forall (fun c => 0 < c < 256) s -> cstr (s ++ 0 :: rest) = s.
Proof.
  intros Hs. unfold cstr. assert (strchr (s ++ 0 :: rest) 0 = Some (length s)) as ->.
  { induction Hs as [|c s Hc _ IH]; [done|]. cbn [app strchr length]. rewrite (proj2 (Z.eqb_neq c 0)) by lia. by rewrite IH. }
  apply take_app_length.
Qed.

Lemma memcmp_eq a b : length a = length b -> memcmp a b = 0 <-> a = b.
Proof.
  revert b. induction a as [|x a IH]; intros [|y b] Hl; try done. simpl in Hl. cbn [memcmp].
  destruct (Z.ltb_spec x y); [split; [done|intros [= -> _]; lia]|].
  destruct (Z.ltb_spec y x); [split; [done|intros [= -> _]; lia]|].
  rewrite IH by lia. split; [intros ->; f_equal; lia|by intros [= _ ->]].
Qed.

Lemma take_terminated s t : Forall (fun c => 0 < c < 256) s -> Forall (fun c => 0 < c < 256) t -> (length s <= length t)%nat ->
  take (S (length s)) (t ++ [0]) = s ++ [0] -> s = t.
Proof.
  revert t. induction s as [|x s IH]; intros [|y t] Hs Ht Hl E; try done; try (simpl in Hl; lia).
  - cbn in E. apply Forall_cons in Ht as [Hy _]. injection E as ->. lia.
  - apply Forall_cons in Hs as [_ Hs], Ht as [_ Ht]. cbn [length app take] in E. injection E as -> E. f_equal. apply IH; try done. simpl in Hl. lia.
Qed.

Lemma strtab_cmp_eq s t k e : wf_entry s k -> wf_entry t e -> strtab_cmp k e = 0 <-> s = t.
Proof.
  intros ((rs & Es) & Ls & Hs) ((rt & Et) & Lt & Ht). unfold strtab_cmp. rewrite Es, Et, Ls, Lt. cbv zeta. set (m := Z.to_nat _).
  assert (Em : m = S (Nat.min (length s) (length t))) by (unfold m, zlen; lia).
  rewrite (cons_middle 0 s rs), (cons_middle 0 t rt), (app_assoc s), (app_assoc t).
  rewrite (take_app_le (s ++ [0])), (take_app_le (t ++ [0])) by (rewrite length_app; simpl; lia).
  rewrite memcmp_eq by (rewrite !length_take, !length_app; simpl; lia).
  split; [|by intros ->]. intros E. destruct (le_lt_dec (length s) (length t)) as [Hle|Hlt].
  - rewrite Nat.min_l in Em by lia. rewrite Em in E. rewrite (take_ge (s ++ [0])) in E by (rewrite length_app; simpl; lia).
    by apply take_terminated.
  - rewrite Nat.min_r in Em by lia. rewrite Em in E. rewrite (take_ge (t ++ [0])) in E by (rewrite length_app; simpl; lia).
    symmetry. apply take_terminated; done || lia.
Qed.

Lemma strtab_hash_key s e seed : wf_entry s e -> strtab_hash e seed = objtbl_strhash (Some s) seed.
Proof. intros ((r & Es) & _ & Hs). unfold strtab_hash. by rewrite Es, cstr_terminated. Qed.

Definition wf_any (e : strtab_entry) : Prop := exists s, wf_entry s e.

Lemma wf_any_cstr e : wf_any e -> wf_entry (cstr (se_str e)) e.
Proof. intros (s & (r & E) & L & H). unfold wf_entry. rewrite E, cstr_terminated by done. split; [by exists r|done]. Qed.

Lemma wf_deref heap key p : Forall wf_any heap -> wf_any key -> wf_any (deref heap key p).
Proof.
  intros Hh Hk. unfold deref. destruct (p =? -1); [done|]. destruct (heap !! _) as [e|] eqn:E; [|exists []; split; [by exists []|by split]].
  rewrite Forall_lookup in Hh. by eapply Hh.
Qed.

(** the key of an object is its string *)
#[program] Definition strtab_keys heap key (Hh : Forall wf_any heap) (Hk : wf_any key) : ObjKeys bytes (strtab_opts heap key) := {|
  key_of := fun p => cstr (se_str (deref heap key p));
  key_hash := fun s => objtbl_strhash (Some s) 0;
|}.
Next Obligation.
  intros heap key Hh Hk a b _ _. simpl. apply strtab_cmp_eq; by apply wf_any_cstr, wf_deref.
Qed.
Next Obligation.
  intros heap key Hh Hk a _. simpl. by apply strtab_hash_key, wf_any_cstr, wf_deref.
Qed.
Next Obligation. intros heap key _ _ k. apply hash_data_range. apply (uw_range 32). lia. Qed.

(** ** The table when memory changes *)

Section Transfer.
Context (o o' : objtbl_opts) (K1 : ObjKeys bytes o) (K2 : ObjKeys bytes o').

Lemma repr_transfer tbl m :
  (forall k, key_hash (ObjKeys := K1) k = key_hash (ObjKeys := K2) k) ->
  Forall (fun e => ENTRY_IS_EMPTY e = false -> key_of (ObjKeys := K1) (e_value e) = key_of (ObjKeys := K2) (e_value e)) (entries tbl) ->
  repr o (with_opts tbl o) m -> repr o' (with_opts tbl o') m.
Proof.
  intros Hhash Hkeys ([[_ Hlg Hmask Hlim Hlen Hent] Hinv Hsize] & Hm & Hmap). cbn [with_opts header entries cap size modmask rehash_limit opts] in *.
  assert (Eabs : abs o' <$> entries tbl = abs o <$> entries tbl).
  { apply list_fmap_ext. intros i e He. rewrite Forall_lookup in Hkeys. unfold abs. specialize (Hkeys i e He).
    destruct (ENTRY_IS_EMPTY e); [done|]. by rewrite Hkeys. }
  split; [split|split]; cbn [with_opts header entries cap size modmask rehash_limit opts].
  - split; done.
  - rewrite Eabs. destruct Hinv as [Hh Hc Hu Hs]. split; [|done..]. intros p k v d Hp Hf.
    unfold home. rewrite <- Hhash. by apply (Hh p k v d).
  - by rewrite Eabs.
  - done.
  - intros k v. rewrite Eabs. apply Hmap.
Qed.

End Transfer.

(** [M] maps the strings stored so far to their offsets *)
Definition strtab_ok (t : strtab) (M : gmap bytes Z) : Prop :=
  exists (Hh : Forall wf_any (st_heap t)) (Hk : wf_any no_entry) (m : gmap bytes Z),
    @repr bytes _ _ (strtab_opts (st_heap t) no_entry) (strtab_keys (st_heap t) no_entry Hh Hk)
      (with_opts (st_tbl t) (strtab_opts (st_heap t) no_entry)) m /\
    (forall s p, m !! s = Some p -> 1 <= p <= zlen (st_heap t)) /\
    M = (fun p => se_val (deref (st_heap t) no_entry p)) <$> m.

Lemma wf_no_entry : wf_any no_entry.
Proof. exists []. split; [by exists []|]. split; [done|constructor]. Qed.

Lemma deref_heap heap key p : 1 <= p -> deref heap key p = default no_entry (heap !! Z.to_nat (p - 1)).
Proof. intros Hp. unfold deref. by rewrite (proj2 (Z.eqb_neq _ _)) by lia. Qed.

(** the entries of a table are on the heap *)
Lemma strtab_entries tbl heap Hh Hk m :
  @repr bytes _ _ (strtab_opts heap no_entry) (strtab_keys heap no_entry Hh Hk) (with_opts tbl (strtab_opts heap no_entry)) m ->
  (forall s p, m !! s = Some p -> 1 <= p <= zlen heap) ->
  Forall (fun e => ENTRY_IS_EMPTY e = false -> 1 <= e_value e <= zlen heap) (entries tbl).
Proof.
  intros Hr Hm. apply Forall_lookup. intros i e He Hne. eapply Hm.
  eapply (repr_entry (strtab_opts heap no_entry) (ObjKeys0 := strtab_keys heap no_entry Hh Hk) (with_opts tbl (strtab_opts heap no_entry)) m i e); [exact Hr|exact He|].
  unfold abs. by rewrite Hne.
Qed.

Lemma strtab_init_ok alloc_ok : (forall n, alloc_ok n = true) ->
  exists t, strtab_init alloc_ok = Some t /\ strtab_ok t ∅.
Proof.
  intros Ha. unfold strtab_init. destruct (objtbl_init alloc_ok (strtab_opts [] no_entry) STRTAB_ENTRIES) as [[tbl|] r] eqn:E.
  - exists (Strtab tbl []). split; [done|]. assert (Hh : Forall wf_any []) by constructor. exists Hh, wf_no_entry, ∅.
    split; [|split; [done|by rewrite fmap_empty]]. assert (r = OBJTBL_OK) as ->.
    { revert E. unfold objtbl_init. cbv zeta. repeat case_match; by intros [= _ <-]. }
    apply (obt_init_spec _ (ObjKeys0 := strtab_keys [] no_entry Hh wf_no_entry)) in E; [|unfold STRTAB_ENTRIES; lia]. cbn [st_tbl st_heap]. destruct E as ([[Ho ? ? ? ? ?] ? ?] & ? & ?).
    split; [split; [split|..]|split]; done.
  - exfalso. revert E. unfold objtbl_init, init_table, init_header. cbv zeta. change (if STRTAB_ENTRIES =? 0 then 1 else STRTAB_ENTRIES) with 4096.
    change (REHASH_ROUND_UP 4096 <? 4096) with false. change (round_up_pow2 (REHASH_ROUND_UP 4096)) with 8192.
    change (8192 <? REHASH_ROUND_UP 4096) with false. cbv iota. by rewrite Ha.
Qed.

Lemma strtab_get_spec t M s key : strtab_ok t M -> wf_entry s key ->
  match M !! s with
  | Some off => exists e, strtab_get t key = Ret (OBJTBL_OK, Some e) /\ wf_entry s e /\ se_val e = off
  | None => strtab_get t key = Ret (OBJTBL_ENOTFOUND, None)
  end.
Proof.
  intros (Hh & Hk & m & Hr & Hm & ->) Hkey. assert (Hk' : wf_any key) by (by exists s).
  pose proof (strtab_entries _ _ _ _ _ Hr Hm) as Hent.
  set (o := strtab_opts (st_heap t) key). set (K' := strtab_keys (st_heap t) key Hh Hk').
  assert (Hr' : @repr bytes _ _ o K' (with_opts (st_tbl t) o) m).
  { apply (repr_transfer _ _ (strtab_keys (st_heap t) no_entry Hh Hk)); [done| |exact Hr].
    eapply Forall_impl; [exact Hent|]. intros e He Hne. specialize (He Hne). cbn [key_of strtab_keys K'].
    by rewrite !deref_heap by lia. }
  destruct (obt_find_spec o (ObjKeys0 := K') _ m (-1) Hr') as (r & E & Hres); [done|].
  assert (Hkey1 : @key_of bytes o K' (-1) = s).
  { change (cstr (se_str key) = s). destruct Hkey as ((rk & ->) & _ & Hs). by apply cstr_terminated. }
  rewrite Hkey1 in Hres. unfold strtab_get, objtbl_get. fold o. rewrite E. cbn [mbind outcome_mbind].
  rewrite lookup_fmap. destruct r as [i|].
  - destruct Hres as (_ & e & v & Er & Ea & Ev & Hms). rewrite Er. cbn [mbind outcome_mbind option_map]. rewrite Ev, Hms.
    cbn [fmap option_fmap option_map]. destruct (Hm s v Hms) as [Hv1 Hv2].
    eexists. split; [done|]. split; [|by rewrite !deref_heap by lia].
    unfold abs in Ea. destruct (ENTRY_IS_EMPTY e); [done|]. injection Ea as Ekey _. rewrite Ev in Ekey.
    change (cstr (se_str (deref (st_heap t) key v)) = s) in Ekey. rewrite <- Ekey. by apply wf_any_cstr, wf_deref.
  - rewrite Hres. done.
Qed.

Lemma strtab_insert_spec alloc_ok t M s ent : (forall n, alloc_ok n = true) -> strtab_ok t M -> wf_entry s ent -> M !! s = None ->
  Z.of_nat (base.size M) < 2 ^ 29 ->
  exists t', strtab_insert alloc_ok t ent = Ret (t', OBJTBL_OK) /\ strtab_ok t' (<[s := se_val ent]> M).
Proof.
  intros Ha (Hh & Hk & m & Hr & Hm & ->) Hent Hnone Hsz.
  pose proof (strtab_entries _ _ _ _ _ Hr Hm) as Hes. pose proof (zlen_nonneg (st_heap t)) as Hz.
  set (heap := st_heap t ++ [ent]). assert (Hh' : Forall wf_any heap) by (apply Forall_app; split; [done|]; constructor; [by exists s|done]).
  assert (Hold : forall p, 1 <= p <= zlen (st_heap t) -> deref heap no_entry p = deref (st_heap t) no_entry p).
  { intros p Hp. rewrite !deref_heap by lia. unfold heap. rewrite lookup_app_l; [done|]. unfold zlen in Hp. lia. }
  assert (Hnew : deref heap no_entry (zlen heap) = ent).
  { rewrite deref_heap by (unfold heap; zlen_simpl; lia). unfold heap. replace (Z.to_nat _) with (length (st_heap t)); [|zlen_simpl; unfold zlen; lia].
    by rewrite list_lookup_middle. }
  set (o := strtab_opts heap no_entry). set (K' := strtab_keys heap no_entry Hh' Hk).
  assert (Hr' : @repr bytes _ _ o K' (with_opts (st_tbl t) o) m).
  { apply (repr_transfer _ _ (strtab_keys (st_heap t) no_entry Hh Hk)); [done| |exact Hr].
    eapply Forall_impl; [exact Hes|]. intros e He Hne. specialize (He Hne). cbn [key_of strtab_keys K']. by rewrite Hold. }
  assert (Hkey1 : @key_of bytes o K' (zlen heap) = s).
  { change (cstr (se_str (deref heap no_entry (zlen heap))) = s). rewrite Hnew. destruct Hent as ((rk & ->) & _ & Hs). by apply cstr_terminated. }
  destruct (obt_insert_total o (ObjKeys0 := K') alloc_ok _ m (zlen heap) Hr') as (tbl' & E & Hins).
  { unfold heap. zlen_simpl. lia. }
  { done. }
  { destruct Hr' as (_ & -> & _). by rewrite map_size_fmap in Hsz. }
  rewrite Hkey1 in Hins. unfold strtab_insert. fold heap. fold o. rewrite E. cbn [mbind outcome_mbind]. eexists. split; [done|].
  exists Hh', Hk, (<[s := zlen heap]> m). cbn [st_tbl st_heap]. split; [|split].
  - destruct Hins as ([[Ho ? ? ? ? ?] ? ?] & ? & ?). split; [split; [split|..]|split]; done.
  - intros s' p. destruct (decide (s = s')) as [<-|Hne].
    + rewrite lookup_insert_eq. intros [= <-]. unfold heap. zlen_simpl. lia.
    + rewrite lookup_insert_ne by done. intros Hp%Hm. unfold heap. zlen_simpl. lia.
  - rewrite fmap_insert, Hnew. f_equal. apply map_fmap_ext. intros s' p Hp%Hm. by rewrite Hold.
Qed.
