(* ===== verification/VulnGrammar.v ===== *)
(** * The grammar of specifications (src/lib/vulnspec)

    What a text says, as a relation on its tokens, when it is satisfied, and
    that both a text and an image have one reading. *)

From Stdlib Require Import SpecFloat.
From stdpp Require Import gmap.
From S2P Require Import Prelude CLib Buf RobinHood Objtbl Vaguever Nalphaver VulnInterp VulnReader VulnStrtab VulnParser.

(** ** Grammar *)

(** a version is read as the kind of version in force *)
Definition version_of (vt : Z) (s : bytes) : version :=
  if vt =? VULNSPEC_VVAGUE then match vaguever_init s with Ret v => Vague v | _ => OtherVersion end else Nalpha s.

(** [Expr vt ts rest e]: the tokens [ts] start with the expression [e] and its
    closing parenthesis, and [rest] follows; [Operands] is the same for the
    operands of a connective *)
Inductive Expr : Z -> list token -> list token -> vexpr -> Prop :=
  | expr_compar vt s t vp ver rest : (s, t) ∈ symbols -> is_compar t = true ->
      Expr vt (TSymbol s :: TString vp :: TString ver :: TRparen :: rest) rest (Compar t vp (version_of vt ver))
  | expr_boolean vt s t ts rest bs : (s, t) ∈ symbols -> is_boolean t = true -> Operands vt t ts rest bs -> bs <> [] ->
      Expr vt (TSymbol s :: ts) rest (Boolean bs)
  | expr_nalpha vt ts rest e : Expr VULNSPEC_VNALPHA ts (TRparen :: rest) e ->
      Expr vt (TSymbol (lit "nalpha") :: TLparen :: ts) rest e
with Operands : Z -> Z -> list token -> list token -> list (Z * vexpr) -> Prop :=
  | operands_end vt t rest : Operands vt t (TRparen :: rest) rest []
  | operands_more vt t ts ts' rest e bs : Expr vt ts ts' e -> Operands vt t ts' rest bs ->
      Operands vt t (TLparen :: ts) rest ((t, e) :: bs).

Scheme Expr_mut := Minimality for Expr Sort Prop
  with Operands_mut := Minimality for Operands Sort Prop.
Combined Scheme Expr_Operands_ind from Expr_mut, Operands_mut.

(** what a text says of a CVE *)
Record source : Type := Source {
  src_id : bytes;
  src_cvss2 : Z;
  src_cvss3 : Z;
  src_description : bytes;
  src_expr : vexpr;
}.

Inductive Cves (odd_u32 : spec_float -> Z) : list token -> list source -> Prop :=
  | cves_end : Cves odd_u32 [] []
  | cves_more id d2 d3 desc ts ts' e cs : Expr VULNSPEC_VVAGUE ts (TRparen :: ts') e -> Cves odd_u32 ts' cs ->
      Cves odd_u32 (TLparen :: TSymbol (lit "cve") :: TString id :: TDouble d2 :: TDouble d3 :: TString desc :: TLparen :: ts)
        (Source id (hundredths odd_u32 d2) (hundredths odd_u32 d3) desc e :: cs).

Definition source_of (c : VulnInterp.cve) : source :=
  Source (cve_id c) (m_cvss2_base (cve_match c)) (m_cvss3_base (cve_match c)) (cve_description c) (cve_expr c).

Lemma symbol_node s t : t <> VULNSPEC_INVALID_NODE -> symbol2node s = t <-> (s, t) ∈ symbols.
Proof.
  intros Ht. unfold symbol2node. split.
  - assert (H : forall l, find_symbol s l = t -> (s, t) ∈ l); [|apply H].
    induction l as [|[s' t'] l IH]; cbn [find_symbol]; [by intros <-|].
    destruct (Z.eqb_spec (strcmp s s') 0) as [->%strcmp_eq|_]; [intros ->; by left|intros H%IH; by right].
  - intros H. unfold symbols in H. repeat (apply elem_of_cons in H as [[= -> ->]|H]; [reflexivity|]). by apply elem_of_nil in H.
Qed.

Lemma symbol_fun s t u : (s, t) ∈ symbols -> (s, u) ∈ symbols -> t = u.
Proof.
  assert (H : Forall (fun x => x.2 <> VULNSPEC_INVALID_NODE) symbols) by (repeat constructor; done).
  rewrite Forall_forall in H. intros Ht Hu. pose proof (H _ Ht) as H1. pose proof (H _ Hu) as H2.
  apply symbol_node in Ht, Hu; [congruence|done..].
Qed.

Lemma compar_not_boolean t : is_compar t = true -> is_boolean t = false.
Proof. unfold is_compar. intros H. repeat (apply orb_prop in H as [H|H]); apply Z.eqb_eq in H as ->; done. Qed.

Lemma nalpha_node t : (lit "nalpha", t) ∈ symbols -> t = VULNSPEC_NALPHA_NODE.
Proof. intros H. apply (symbol_fun (lit "nalpha")); [done|]. by repeat (apply elem_of_cons; first [by left|right]). Qed.

(** an expression is read in one way *)
Lemma grammar_fun :
  (forall vt ts rest e, Expr vt ts rest e -> forall rest' e', Expr vt ts rest' e' -> rest = rest' /\ e = e') /\
  (forall vt t ts rest bs, Operands vt t ts rest bs -> forall rest' bs', Operands vt t ts rest' bs' -> rest = rest' /\ bs = bs').
Proof.
  apply Expr_Operands_ind.
  - intros vt s t vp ver rest Hs Hc rest' e' H.
    inversion H as [? s' t' ? ? ? Hs' Hc'|? s' t' ts ? bs Hs' Hb' Ho Hne|]; subst.
    + split; [done|]. by rewrite (symbol_fun s t t').
    + rewrite (symbol_fun s t' t) in Hb' by done. apply compar_not_boolean in Hc. congruence.
  - intros vt s t ts rest bs Hs Hb _ IH Hne rest' e' H.
    inversion H as [? s' t' ? ? ? Hs' Hc'|? s' t' ts' ? bs' Hs' Hb' Ho Hne'|? ? ? ? He]; subst.
    + rewrite (symbol_fun s t' t) in Hc' by done. apply compar_not_boolean in Hc'. congruence.
    + rewrite (symbol_fun s t' t) in Ho by done. by destruct (IH _ _ Ho) as [-> ->].
    + apply nalpha_node in Hs as ->. done.
  - intros vt ts rest e _ IH rest' e' H.
    inversion H as [|? s' t' ts' ? bs' Hs' Hb' Ho Hne'|? ? ? ? He]; subst.
    + apply nalpha_node in Hs' as ->. done.
    + destruct (IH _ _ He) as [[= ->] ->]. done.
  - intros vt t rest rest' bs' H. by inversion H.
  - intros vt t ts ts' rest e bs _ IHe _ IHo rest' bs' H. inversion H as [|? ? ? ts2 ? e2 bs2 He Ho]; subst.
    destruct (IHe _ _ He) as [<- <-]. by destruct (IHo _ _ Ho) as [-> ->].
Qed.

Lemma expr_fun vt ts rest e rest' e' : Expr vt ts rest e -> Expr vt ts rest' e' -> rest = rest' /\ e = e'.
Proof. intros H. by apply grammar_fun. Qed.

Lemma Cves_fun odd ts srcs : Cves odd ts srcs -> forall srcs', Cves odd ts srcs' -> srcs = srcs'.
Proof.
  induction 1 as [|id d2 d3 desc ts ts' e cs He Hcs IH]; intros srcs' H; inversion H as [|? ? ? ? ? ts2 e2 cs2 He2 Hcs2]; subst; [done|].
  destruct (expr_fun _ _ _ _ _ _ He He2) as [[= ->] ->]. f_equal. by apply IH.
Qed.

(** ** An image has one reading *)

Scheme rep_expr_mut := Minimality for rep_expr Sort Prop
  with rep_chain_mut := Minimality for rep_chain Sort Prop.
Combined Scheme rep_expr_chain_ind from rep_expr_mut, rep_chain_mut.

Lemma rep_version_fun d off t v v' : rep_version d off t v -> rep_version d off t v' -> v = v'.
Proof.
  intros H. inversion H; subst; intros H'; inversion H'; subst; try done; try congruence.
Qed.

Lemma rep_fun d :
  (forall off e, rep_expr d off e -> forall e', rep_expr d off e' -> e = e') /\
  (forall off bs, rep_chain d off bs -> forall bs', rep_chain d off bs' -> bs = bs').
Proof.
  apply rep_expr_chain_ind.
  - intros off t node vp v Ht Hc Hn Hvp Hv e' H. inversion H as [? t' node' vp' v' Ht' Hc' Hn' Hvp' Hv'|? t' bs' Ht' Hb']; subst.
    + assert (t' = t) as -> by congruence. assert (node' = node) as -> by congruence. assert (vp' = vp) as -> by congruence.
      by rewrite (rep_version_fun _ _ _ _ _ Hv Hv').
    + apply compar_not_boolean in Hc. congruence.
  - intros off t bs Ht Hb _ IH e' H. inversion H as [? t' node' vp' v' Ht' Hc' Hn' Hvp' Hv'|? t' bs' Ht' Hb' Hc]; subst.
    + apply compar_not_boolean in Hc'. congruence.
    + by rewrite (IH _ Hc).
  - intros off Ho bs' H. inversion H; subst; [done|lia].
  - intros off node e bs Ho Hn Hb _ IHe _ IHc bs' H. inversion H as [|? node' e' bs2 Ho' Hn' Hb' He Hc]; subst; [lia|].
    assert (node' = node) as -> by congruence. by rewrite (IHe _ He), (IHc _ Hc).
Qed.

Lemma rep_cves_fun d off cs : rep_cves d off cs -> forall cs', rep_cves d off cs' -> cs = cs'.
Proof.
  induction 1 as [off Ho|off node id desc e cs Ho Hn Ht Hid Hde He Hcs IH]; intros cs' H.
  - inversion H; subst; [done|lia].
  - inversion H as [|? node' id' desc' e' cs2 Ho' Hn' Ht' Hid' Hde' He' Hcs']; subst; [lia|].
    assert (node' = node) as -> by congruence. assert (id' = id) as -> by congruence. assert (desc' = desc) as -> by congruence.
    rewrite (proj1 (rep_fun d) _ _ He _ He'). f_equal. by apply IH.
Qed.

(** ** What an expression says *)

(** a conjunction holds when all of its operands do, a disjunction when one does *)
Fixpoint satisfies (p : vulnspec_params) (e : vexpr) : bool :=
  match e with
  | Compar t vp v => bool_decide (vp = default [] (cve_vendprod p)) && matches_version p t v
  | Boolean [] => false
  | Boolean (((t, _) :: _) as bs) =>
      if t =? VULNSPEC_AND_NODE then forallb (fun '(_, e) => satisfies p e) bs
      else existsb (fun '(_, e) => satisfies p e) bs
  end.

Lemma chain_all p bs : Forall (fun b => b.1 = VULNSPEC_AND_NODE /\ denote p b.2 = satisfies p b.2) bs ->
  denote_chain p bs true = forallb (fun '(_, e) => satisfies p e) bs.
Proof.
  induction 1 as [|[t e] bs [Et Ee] _ IH]; [done|]. cbn [fst snd] in *. subst t. cbn [denote_chain forallb]. cbv zeta. rewrite Ee.
  destruct (satisfies p e); [exact IH|done].
Qed.

Lemma chain_any p bs : Forall (fun b => b.1 = VULNSPEC_OR_NODE /\ denote p b.2 = satisfies p b.2) bs ->
  denote_chain p bs false = existsb (fun '(_, e) => satisfies p e) bs.
Proof.
  induction 1 as [|[t e] bs [Et Ee] _ IH]; [done|]. cbn [fst snd] in *. subst t. cbn [denote_chain existsb]. cbv zeta. rewrite Ee.
  destruct (satisfies p e); [done|exact IH].
Qed.

Lemma grammar_denote p :
  (forall vt ts rest e, Expr vt ts rest e -> denote p e = satisfies p e) /\
  (forall vt t ts rest bs, Operands vt t ts rest bs -> Forall (fun b => b.1 = t /\ denote p b.2 = satisfies p b.2) bs).
Proof.
  apply Expr_Operands_ind; try done.
  - intros vt s t ts rest bs _ Hb _ Hall Hne. rewrite denote_boolean. destruct bs as [|[t' e] bs]; [done|].
    pose proof Hall as [[Et Ee] _]%Forall_cons. cbn [fst snd] in Et, Ee. subst t'. cbn [satisfies].
    destruct (boolean_type t Hb) as [->| ->].
    + rewrite <- (chain_all p _ Hall). cbn [denote_chain]. done.
    + rewrite <- (chain_any p _ Hall). done.
  - intros vt t ts ts' rest e bs _ He _ Hbs. by constructor.
Qed.

Lemma cves_denote odd p ts srcs : Cves odd ts srcs -> Forall (fun s => denote p (src_expr s) = satisfies p (src_expr s)) srcs.
Proof. induction 1; constructor; [|done]. by eapply grammar_denote. Qed.
