(* ===== verification/VulnRules.v ===== *)
(** * Rules for the parser (src/lib/vulnspec/parser.c)

    The state of the parser satisfies [inv O]: the cells of [O] belong to nodes
    that are not finished.  What [holds O] of the image stays true whatever
    is written to these cells and appended behind the image.  The rules
    [runs_*] say what the steps of the parser do to such a state. *)

From Stdlib Require Import SpecFloat.
From stdpp Require Import gmap.
From S2P Require Import Prelude CLib Buf RobinHood Objtbl Vaguever Nalphaver VulnInterp VulnReader VulnStrtab VulnParser VulnGrammar.

(** ** The buffer of the program *)

Lemma rd_neg {A} (d : list A) i : i < 0 -> rd d i = OutOfBounds.
Proof. intros Hi. apply rd_out. lia. Qed.

Lemma rd_app_l {A} (d e : list A) i : i < zlen d -> rd (d ++ e) i = rd d i.
Proof.
  intros Hi. destruct (Z_lt_le_dec i 0); [by rewrite !rd_neg|]. unfold rd. rewrite lookup_app_l; [done|]. unfold zlen in Hi. lia.
Qed.

Lemma rd_zeros (d : bytes) k i : zlen d <= i < zlen d + Z.of_nat k -> rd (d ++ replicate k 0) i = Ret 0.
Proof.
  intros Hi. pose proof (zlen_nonneg d). apply rd_ret. split; [lia|]. unfold zlen in *. rewrite lookup_app_r by lia.
  apply lookup_replicate. split; [done|lia].
Qed.

(** what [memcpy] writes *)
Lemma wrs_rd (d : bytes) off src : 0 <= off -> off + zlen src <= zlen d ->
  exists d', wrs d off src = Ret d' /\ zlen d' = zlen d /\
    (forall i, off <= i < off + zlen src -> rd d' i = rd src (i - off)) /\
    (forall i, ~ (off <= i < off + zlen src) -> rd d' i = rd d i).
Proof.
  intros Ho Hl. pose proof (zlen_nonneg src). eexists. split; [by apply wrs_in|]. split; [zlen_simpl; unfold zlen in *; lia|].
  assert (Ht : zlen (take (Z.to_nat off) d) = off) by (zlen_simpl; lia). split.
  - intros i Hi. replace i with (zlen (take (Z.to_nat off) d) + (i - off)) at 1 by lia. apply rd_slice. lia.
  - intros i Hi. rewrite app_assoc. destruct (Z_lt_le_dec i off) as [Hlt|Hge].
    + rewrite <- app_assoc, rd_app_l by lia. rewrite <- (take_drop (Z.to_nat off) d) at 2. by rewrite rd_app_l by lia.
    + destruct (Z_lt_le_dec i (zlen d)) as [Hi'|Hi'].
      * destruct (rd_in d i ltac:(lia)) as (x & -> & Hx). apply rd_ret. split; [lia|].
        rewrite lookup_app_r by (rewrite length_app, length_take; unfold zlen in *; lia).
        rewrite lookup_drop. rewrite <- Hx. f_equal. rewrite length_app, length_take. unfold zlen in *. lia.
      * rewrite (rd_out d) by lia. apply rd_out. zlen_simpl. unfold zlen in *. lia.
Qed.

Section Buffer.
Context (alloc_ok : Z -> bool).

(** a buffer grows by zeros *)
Lemma buf_grow_zeros b n b' r : buf_grow alloc_ok b n = Ret (b', r) -> exists k, Buf.data b' = Buf.data b ++ replicate k 0.
Proof.
  unfold buf_grow. cbv zeta. set (added := if _ <? n then _ else _). clearbody added.
  destruct (alloc_ok _); [|intros [= <- _]; exists 0%nat; by rewrite app_nil_r].
  destruct (_ <? _); [done|]. intros [= <- _]. by eexists.
Qed.

Lemma buf_reserve_zeros b n b' r : buf_reserve alloc_ok b n = Ret (b', r) -> exists k, Buf.data b' = Buf.data b ++ replicate k 0.
Proof.
  unfold buf_reserve. cbv zeta. case_match; [|intros [= <- _]; exists 0%nat; by rewrite app_nil_r].
  destruct (buf_grow _ _ _) as [[b1 r1]| |] eqn:E; cbn [mbind outcome_mbind]; try done. apply buf_grow_zeros in E.
  case_match; by intros [= <- _].
Qed.

Lemma buf_alloc_zeros b n b' o r : buf_alloc alloc_ok b n = Ret (b', o, r) -> exists k, Buf.data b' = Buf.data b ++ replicate k 0.
Proof.
  unfold buf_alloc. cbv zeta. case_match; [intros [= <- _ _]; exists 0%nat; by rewrite app_nil_r|].
  destruct (buf_reserve _ _ _) as [[b1 r1]| |] eqn:E; cbn [mbind outcome_mbind]; try done. apply buf_reserve_zeros in E.
  repeat case_match; by intros [= <- _ _].
Qed.

Lemma buf_align_zeros b b' r : buf_align alloc_ok b = Ret (b', r) -> exists k, Buf.data b' = Buf.data b ++ replicate k 0.
Proof.
  unfold buf_align. cbv zeta. case_match.
  - destruct (buf_grow _ _ _) as [[b1 r1]| |] eqn:E; cbn [mbind outcome_mbind]; try done. apply buf_grow_zeros in E.
    case_match; by intros [= <- _].
  - cbn [mbind outcome_mbind]. change (0 <? 0) with false. intros [= <- _]. exists 0%nat. by rewrite app_nil_r.
Qed.

(** with memory for it *)
Context (Halloc : forall n, alloc_ok n = true).

Lemma buf_alloc_ok b n : Buf.wf b -> Buf.cap b <= 2 ^ 59 -> 0 < n <= 2 ^ 57 ->
  exists b', buf_alloc alloc_ok b n = Ret (b', Some (Buf.len b), 0) /\ Buf.wf b' /\ Buf.len b' = Buf.len b + n /\
    Buf.cap b' <= Z.max (Buf.cap b) (2 * (Buf.len b + n) + 16).
Proof.
  intros Hw Hc Hn. pose proof Hw as [Hl _ _ _]. unfold buf_alloc. rewrite (proj2 (Z.eqb_neq _ _)) by lia. cbv zeta.
  destruct (buf_reserve_spec alloc_ok b n Hw) as (b1 & r & E & H); [unfold small; lia|lia|].
  assert (r = 0) as ->.
  { revert E. unfold buf_reserve, buf_grow. cbv zeta. rewrite !Halloc. repeat (case_match; cbn [mbind outcome_mbind]; try done); by intros [= _ <-]. }
  rewrite E. destruct H as [(_ & Hw1 & El & _ & Hcap)|[? _]]; [|done]. cbn [mbind outcome_mbind]. change (negb (0 =? 0)) with false. cbv iota.
  rewrite El, uw_small by lia. rewrite (proj2 (Z.ltb_ge _ _)) by lia. eexists. split; [done|]. cbn [Buf.len Buf.cap].
  split; [|lia]. destruct Hw1 as [? Hd Ha Hb]. split; cbn [Buf.len Buf.cap Buf.data]; done || lia.
Qed.

Lemma buf_align_writes b : Buf.wf b -> Buf.cap b <= 2 ^ 60 + 2 ^ 59 ->
  exists b', buf_align alloc_ok b = Ret (b', 0) /\ Buf.wf b' /\ Buf.len b <= Buf.len b' < Buf.len b + 8 /\ (8 | Buf.len b') /\
    Buf.len b' < Buf.cap b' /\ Buf.cap b' <= Z.max (Buf.cap b) (2 * Buf.len b + 32).
Proof.
  intros Hw Hc. pose proof Hw as [Hl Hd Ha Hby]. unfold buf_align. cbv zeta.
  destruct (align_offset_spec (Buf.len b)) as [B A]; [lia|]. destruct (Z.leb_spec (Buf.cap b) (buf_align_offset (Buf.len b))) as [Hle|Hgt].
  - assert (Buf.cap b = buf_align_offset (Buf.len b)) as Ecap.
    { destruct A as [j Hj]. destruct Ha as [k Hk]. unfold BUF_ALIGNMENT in Hk. lia. }
    destruct (buf_grow_spec alloc_ok b BUF_ALIGNMENT Hw) as (b1 & r & E & H); [unfold small; lia|unfold BUF_ALIGNMENT; lia|].
    assert (r = 0) as ->.
    { revert E. unfold buf_grow. cbv zeta. set (added := if _ <? BUF_ALIGNMENT then _ else _). clearbody added. rewrite Halloc.
      destruct (_ <? _); [done|]. by intros [= _ <-]. }
    rewrite E. destruct H as [(_ & Hw1 & El & _ & Hcap)|[? _]]; [|done]. unfold BUF_ALIGNMENT in Hcap. cbn [mbind outcome_mbind].
    change (0 <? 0) with false. eexists. split; [done|]. cbn [Buf.len Buf.cap]. destruct Hw1 as [? Hd1 Ha1 Hb1].
    assert (Buf.cap b / 2 <= Buf.cap b) by divmod_lia. assert (2 * (Buf.cap b / 2) <= Buf.cap b) by divmod_lia.
    split; [split; cbn [Buf.len Buf.cap Buf.data]; done || lia|]. split; [lia|]. split; [done|]. lia.
  - cbn [mbind outcome_mbind]. change (0 <? 0) with false. eexists. split; [done|]. cbn [Buf.len Buf.cap].
    split; [split; cbn [Buf.len Buf.cap Buf.data]; done || lia|]. split; [lia|]. split; [done|]. lia.
Qed.

(** zeros behind the program, and room for one *)
Record fresh (b : buf_t) : Prop := Fresh {
  fr_wf : Buf.wf b;
  fr_cap : Buf.cap b <= 2 ^ 59;
  fr_room : Buf.len b < Buf.cap b;
  fr_zero : forall i, Buf.len b <= i < Buf.cap b -> rd (Buf.data b) i = Ret 0;
}.

Lemma vulnspec_progn_alloc_ok b n : fresh b -> 0 < n <= 2 ^ 57 ->
  (Buf.len b <= UINT32_MAX /\ exists b', vulnspec_progn_alloc alloc_ok b n = Ret (b', Some (Buf.len b), 0) /\ fresh b' /\
    Buf.len b + n <= Buf.len b' /\ (8 | Buf.len b') /\ (forall i, i < Buf.len b -> rd (Buf.data b') i = rd (Buf.data b) i) /\
    (forall i, Buf.len b <= i < Buf.len b' -> rd (Buf.data b') i = Ret 0)) \/
  (UINT32_MAX < Buf.len b /\ exists b', vulnspec_progn_alloc alloc_ok b n = Ret (b', None, -1) /\ Buf.len b <= Buf.len b').
Proof.
  intros [Hw Hc Hr Hz] Hn. pose proof Hw as [Hl Hd _ _]. unfold vulnspec_progn_alloc.
  destruct (buf_alloc_ok b n Hw Hc Hn) as (b1 & E1 & Hw1 & El1 & Hc1). destruct (buf_alloc_zeros _ _ _ _ _ E1) as [k1 Hk1].
  rewrite E1. cbn [mbind outcome_mbind]. change (0 =? 0) with true. cbv iota.
  destruct (buf_align_writes b1 Hw1) as (b2 & E2 & Hw2 & El2 & Ha2 & Hr2 & Hc2); [lia|]. destruct (buf_align_zeros _ _ _ E2) as [k2 Hk2].
  rewrite E2. cbn [mbind outcome_mbind]. destruct (Z.ltb_spec UINT32_MAX (Buf.len b)) as [Hbig|Hsm].
  - right. split; [done|]. eexists. split; [done|]. lia.
  - left. split; [done|]. unfold UINT32_MAX in Hsm. exists b2. split; [done|].
    assert (Hdata : Buf.data b2 = Buf.data b ++ replicate (k1 + k2) 0) by (rewrite Hk2, Hk1, replicate_add; by rewrite app_assoc).
    pose proof Hw2 as [_ Hd2 _ _]. rewrite Hdata in Hd2. zlen_simpl.
    assert (Hzero : forall i, Buf.len b <= i < Buf.cap b2 -> rd (Buf.data b2) i = Ret 0).
    { intros i Hi. rewrite Hdata. destruct (Z_lt_le_dec i (Buf.cap b)); [rewrite rd_app_l by lia; apply Hz; lia|apply rd_zeros; lia]. }
    split; [split; [done|lia|done|]; intros i Hi; apply Hzero; lia|]. split; [lia|]. split; [done|]. split.
    + intros i Hi. rewrite Hdata, rd_app_l by lia. done.
    + intros i Hi. apply Hzero. lia.
Qed.

End Buffer.

(** ** Memory that agrees *)

Lemma ld32_agree d d' off : (forall i, off <= i < off + 4 -> rd d' i = rd d i) -> ld32 d' off = ld32 d off.
Proof. intros H. unfold ld32. by rewrite !H by lia. Qed.

Lemma ld32_stored d off v : 0 <= v < 2 ^ 32 -> (forall i, off <= i < off + 4 -> rd d i = rd (le32 v) (i - off)) -> ld32 d off = Ret v.
Proof.
  intros Hv H. unfold ld32. rewrite !H by lia. rewrite Z.sub_diag, !Z.add_simpl_l. unfold le32.
  unfold rd. change (0 <? 0) with false. change (1 <? 0) with false. change (2 <? 0) with false. change (3 <? 0) with false.
  change (Z.to_nat 0) with 0%nat. change (Z.to_nat 1) with 1%nat. change (Z.to_nat 2) with 2%nat. change (Z.to_nat 3) with 3%nat.
  cbn [lookup list_lookup mbind outcome_mbind].
  f_equal. change (2 ^ 32) with 4294967296 in Hv. divmod_lia.
Qed.

Lemma ld32_zero d off : (forall i, off <= i < off + 4 -> rd d i = Ret 0) -> ld32 d off = Ret 0.
Proof. intros H. unfold ld32. by rewrite !H by lia. Qed.

(** [s] and its terminator at [off] *)
Definition str_in (d : bytes) (off : Z) (s : bytes) : Prop :=
  forall i, 0 <= i <= zlen s -> rd d (off + i) = rd (s ++ [0]) i.

Lemma str_in_cstr d off s : 0 <= off -> Forall (fun c => 0 < c < 256) s -> str_in d off s -> cstr_at d off = Ret s.
Proof.
  intros Ho Hs H. unfold cstr_at. rewrite (proj2 (Z.ltb_ge _ _)) by lia.
  assert (E : exists rest, drop (Z.to_nat off) d = s ++ 0 :: rest).
  { exists (drop (Z.to_nat off + S (length s)) d). apply list_eq. intros i. destruct (le_lt_dec i (length s)) as [Hi|Hi].
    - rewrite lookup_drop. pose proof (H (Z.of_nat i) ltac:(unfold zlen; lia)) as Hr.
      destruct (rd_in (s ++ [0]) (Z.of_nat i)) as (x & Ex & Hx); [zlen_simpl; unfold zlen; lia|]. rewrite Ex in Hr.
      apply rd_ret in Hr as [_ Hr]. replace (Z.to_nat (off + Z.of_nat i)) with (Z.to_nat off + i)%nat in Hr by lia.
      rewrite Hr, <- Hx, Nat2Z.id. rewrite (cons_middle 0 s (drop _ d)), (app_assoc s [0]). symmetry. apply lookup_app_l.
      rewrite length_app. simpl. lia.
    - rewrite lookup_app_r by lia. destruct (i - length s)%nat as [|k] eqn:Ek; [lia|].
      change ((0 :: ?l) !! S k) with (l !! k). rewrite !lookup_drop. f_equal. lia. }
  destruct E as [rest E]. rewrite E. assert (strchr (s ++ 0 :: rest) 0 = Some (length s)) as ->; [|by rewrite take_app_length].
  clear - Hs. induction Hs as [|c s Hc _ IH]; [done|]. cbn [app strchr length]. rewrite (proj2 (Z.eqb_neq c 0)) by lia. by rewrite IH.
Qed.

Lemma check_passes base n off k : 0 <= base -> base + n < 2 ^ 64 -> 8 <= off -> 0 <= k -> off + k <= n -> check base n off k = ret tt.
Proof.
  intros Hb Hn Ho Hk Hl. unfold check, VULNSPEC_HEADER_SIZE. rewrite (proj2 (Z.ltb_ge off 8)) by lia.
  rewrite !(uw_small 64) by lia. rewrite (proj2 (Z.ltb_ge n _)), !(proj2 (Z.ltb_ge _ base)) by lia. done.
Qed.

(** ** What is true of an image whatever happens later *)

Section Holds.
Context (O : Z -> Prop).

Definition holds (d : bytes) (n : Z) (F : bytes -> Z -> Prop) : Prop :=
  forall d' n', (forall i, 0 <= i < n -> ~ O i -> rd d' i = rd d i) -> n <= n' -> n' < INT_MAX -> n' < zlen d' -> F d' n'.

End Holds.

Lemma holds_later (O O' : Z -> Prop) d d' n n' F : holds O d n F -> n <= n' ->
  (forall i, O' i -> i < n -> O i) -> (forall i, 0 <= i < n -> ~ O i -> rd d' i = rd d i) -> holds O' d' n' F.
Proof.
  intros H Hn HO Hd d2 n2 H2 Hn2 Hmax Hz. apply H; [|lia|done|done]. intros i Hi Ho.
  rewrite H2; [by apply Hd|lia|]. intros Ho'. apply Ho. apply HO; [done|lia].
Qed.

Definition valid_expr (off : Z) (d : bytes) (n : Z) : Prop :=
  exists k, forall base fuel, 0 <= base -> base + n < 2 ^ 64 -> (k <= fuel)%nat -> vvulnexpr base d n fuel off = ret tt.
Definition valid_chain (off : Z) (d : bytes) (n : Z) : Prop :=
  exists k, forall base fuel, 0 <= base -> base + n < 2 ^ 64 -> (k <= fuel)%nat -> vboolean base d n fuel off = ret tt.
Definition valid_cves (off : Z) (d : bytes) (n : Z) : Prop :=
  exists k, forall base fuel, 0 <= base -> base + n < 2 ^ 64 -> (k <= fuel)%nat -> vcve base d n fuel off = ret tt.

Definition expr_image (off : Z) (e : vexpr) (d : bytes) (n : Z) : Prop := rep_expr d off e /\ valid_expr off d n.
Definition chain_image (off : Z) (bs : list (Z * vexpr)) (d : bytes) (n : Z) : Prop := rep_chain d off bs /\ valid_chain off d n.
Definition cves_image (off : Z) (srcs : list source) (d : bytes) (n : Z) : Prop :=
  (exists cs, rep_cves d off cs /\ source_of <$> cs = srcs) /\ valid_cves off d n.

(** a string of the image, for the nodes that are not in [O] *)
Record string_at (O : Z -> Prop) (d : bytes) (n : Z) (s : bytes) (off : Z) : Prop := StringAt {
  sa_off : 8 <= off <= UINT32_MAX;
  sa_end : off + zlen s + 1 <= n;
  sa_text : Forall (fun c => 0 < c < 256) s;
  sa_in : str_in d off s;
  sa_open : forall i, off <= i <= off + zlen s -> ~ O i;
}.

Lemma string_later (O O' : Z -> Prop) d d' n n' s off : string_at O d n s off -> n <= n' ->
  (forall i, O' i -> i < n -> O i) -> (forall i, 0 <= i < n -> ~ O i -> rd d' i = rd d i) -> string_at O' d' n' s off.
Proof.
  intros [H1 H2 H3 H4 H5] Hn HO Hd. split; [done|lia|done| |].
  - intros i Hi. rewrite Hd; [by apply H4|lia|apply H5; lia].
  - intros i Hi Ho'. apply (H5 i Hi). apply HO; [done|lia].
Qed.

(** the node field that refers to a string *)
Definition cvalue_of (c : Z * Z) (s : bytes) (d : bytes) (n : Z) : Prop :=
  cstr_at d c.2 = Ret s /\ forall base, 0 <= base -> base + n < 2 ^ 64 -> vstr base d n c = ret tt.

Lemma string_cvalue O d n s off : string_at O d n s off -> holds O d n (cvalue_of (u32 (zlen s + 1), off) s).
Proof.
  intros H d' n' Hd Hn Hmax Hz. assert (H' : string_at O d' n' s off) by (by apply (string_later O O d d' n n')).
  destruct H' as [H1 H2 H3 H4 _].
  pose proof (zlen_nonneg s). unfold INT_MAX, UINT32_MAX in *. rewrite uw_small by lia. split; [apply str_in_cstr; done || (simpl; lia)|].
  intros base Hb Hbn. unfold vstr. cbn [fst snd]. rewrite check_passes by lia. cbn [jbind mbind outcome_mbind ret].
  rewrite (uw_small 32) by lia. replace (off + (zlen s + 1) - 1) with (off + zlen s) by lia. rewrite (H4 (zlen s)) by lia.
  by rewrite rd_mid.
Qed.

(** ** The parser *)

Abbreviation text p := (input (p_r p)).
Abbreviation toks p := (tokens (input (p_r p))).
Abbreviation image p := (Buf.data (p_progn p)).
Abbreviation size_of p := (Buf.len (p_progn p)).

Record inv (O : Z -> Prop) (M : gmap bytes Z) (p : vulnspec_parser) : Prop := Inv {
  inv_fresh : fresh (p_progn p);
  inv_head : 8 <= size_of p;
  inv_align : (8 | size_of p);
  inv_strtab : strtab_ok (p_strtab p) M;
  inv_count : 8 * Z.of_nat (base.size M) <= size_of p;
  inv_strings : forall s off, M !! s = Some off -> string_at O (image p) (size_of p) s off;
  inv_open : forall i, O i -> i < size_of p;
  inv_reader : reader_ok (p_r p);
}.

(** the image has grown, and has not changed but in [W] *)
Definition ext (W : Z -> Prop) (p p' : vulnspec_parser) : Prop :=
  size_of p <= size_of p' /\ forall i, 0 <= i < size_of p -> ~ W i -> rd (image p') i = rd (image p) i.
Definition nowhere : Z -> Prop := fun _ => False.
Definition cells (off n : Z) : Z -> Prop := fun i => off <= i < off + n.
Definition union (O P : Z -> Prop) : Z -> Prop := fun i => O i \/ P i.

Lemma ext_refl W p : ext W p p.
Proof. by split. Qed.

Lemma ext_trans W p q r : ext W p q -> ext W q r -> ext W p r.
Proof. intros [H1 H2] [H3 H4]. split; [lia|]. intros i Hi Hw. rewrite H4 by (done || lia). by apply H2. Qed.

(** what is written behind the image is no change *)
Lemma ext_behind W P p q r : ext W p q -> ext P q r -> (forall i, P i -> W i \/ size_of p <= i) -> ext W p r.
Proof.
  intros [H1 H2] [H3 H4] HP. split; [lia|]. intros i Hi Hw. rewrite H4; [by apply H2|lia|]. intros [?|?]%HP; [done|lia].
Qed.

Lemma inv_close O O' M p : inv O M p -> (forall i, O' i -> O i) -> inv O' M p.
Proof.
  intros [] HO. split; try done; [|by eauto]. intros s off Hs. eapply (string_later O); [by auto|lia|by auto|done].
Qed.

(** a computation gives a result that is [Good], or leaves the parser with the
    status of an unexpected token, when [Bad], or of a program too large *)
Definition runs {A} (m : vulnspec_parser -> outcome (vulnspec_parser * (Z + A))) (p : vulnspec_parser)
    (Good : A -> vulnspec_parser -> Prop) (Bad : Prop) : Prop :=
  exists p' r, m p = Ret (p', r) /\
  match r with
  | inr a => Good a p'
  | inl status => (status = VULNSPEC_EUNEXPECTED_TOKEN /\ Bad) \/ (status = VULNSPEC_EMALLOC /\ UINT32_MAX < size_of p')
  end.

Lemma runs_bind {A B} (m : vulnspec_parser -> outcome (vulnspec_parser * (Z + A))) (f : A -> vulnspec_parser -> outcome (vulnspec_parser * (Z + B)))
    p Good1 (Bad1 : Prop) Good Bad :
  runs m p Good1 Bad1 -> (Bad1 -> Bad) -> (forall a p', Good1 a p' -> runs (f a) p' Good Bad) -> runs (cbind m f) p Good Bad.
Proof.
  intros (p1 & r & E & H) HB Hf. unfold runs, cbind. rewrite E. cbn [mbind outcome_mbind]. destruct r as [st|a]; [|by apply Hf].
  exists p1, (inl st). split; [done|]. destruct H as [[? ?]|?]; [left; auto|by right].
Qed.

Lemma runs_done {A} (a : A) p (Good : A -> vulnspec_parser -> Prop) Bad : Good a p -> runs (done_with a) p Good Bad.
Proof. intros H. by exists p, (inr a). Qed.

Lemma runs_unexpected {A} p (Good : A -> vulnspec_parser -> Prop) (Bad : Prop) : Bad -> runs (bail_out VULNSPEC_EUNEXPECTED_TOKEN) p Good Bad.
Proof. intros H. exists p, (inl VULNSPEC_EUNEXPECTED_TOKEN). split; [done|]. by left. Qed.

Lemma runs_mono {A} (m : vulnspec_parser -> outcome (vulnspec_parser * (Z + A))) p (G1 G2 : A -> vulnspec_parser -> Prop) (B1 B2 : Prop) :
  runs m p G1 B1 -> (forall a p', G1 a p' -> G2 a p') -> (B1 -> B2) -> runs m p G2 B2.
Proof. intros (p' & r & E & H) HG HB. exists p', r. split; [done|]. destruct r; [|by apply HG]. destruct H as [[? ?]|?]; [left; auto|by right]. Qed.

Lemma runs_eq {A} (m m' : vulnspec_parser -> outcome (vulnspec_parser * (Z + A))) p q Good Bad :
  m p = m' q -> runs m' q Good Bad -> runs m p Good Bad.
Proof. unfold runs. by intros ->. Qed.

Section Rules.
Context (alloc_ok : Z -> bool) (Halloc : forall n, alloc_ok n = true).

(** the token [t] was read from [p] *)
Record took (t : token) (p p' : vulnspec_parser) : Prop := Took {
  took_toks : toks p = t :: toks p';
  took_less : (length (text p') < length (text p))%nat;
  took_payload : payload (p_r p') t;
  took_text : match t with TString s => Forall (fun c => 0 < c < 256) s /\ zlen s < 2 ^ 56 | _ => True end;
  took_rest : p_vtype p' = p_vtype p /\ p_strtab p' = p_strtab p /\ p_progn p' = p_progn p;
}.

Lemma took_inv O M t p p' : took t p p' -> inv O M p -> reader_ok (p_r p') -> inv O M p' /\ ext nowhere p p' /\ p_vtype p' = p_vtype p.
Proof.
  intros [_ _ _ _ (Ev & Es & Ep)] [] Hr. split; [split; rewrite ?Ep, ?Es; try done|]. split; [split; rewrite Ep; done|done].
Qed.

Lemma runs_read_token O M p : inv O M p ->
  runs (read_token alloc_ok) p (fun k p' => inv O M p' /\ ext nowhere p p' /\ p_vtype p' = p_vtype p /\
    ((k = VULNSPEC_TEOF /\ toks p = []) \/ (k = VULNSPEC_TINVALID /\ toks p = [TInvalid]) \/
     exists t, k = kind t /\ k <> VULNSPEC_TEOF /\ k <> VULNSPEC_TINVALID /\ took t p p')) False.
Proof.
  intros Hi. destruct (read_token_lex alloc_ok Halloc (p_r p)) as (r' & E & Hok & Hm & Hp); [apply Hi|].
  unfold runs, read_token. rewrite E. cbn [mbind outcome_mbind done_with]. eexists _, (inr _). split; [done|].
  split; [destruct Hi; by split|]. split; [by split|]. split; [done|].
  pose proof (tokens_step (text p)) as Ht. pose proof (lex_length (text p)) as Hl.
  pose proof (lex_text (text p) (ok_input _ (inv_reader _ _ _ Hi))) as Htx. pose proof (ok_row _ (inv_reader _ _ _ Hi)) as Hrow.
  destruct (lex (text p)) as [t rest]. cbn [fst snd] in *.
  destruct (decide (kind t = VULNSPEC_TEOF)) as [Ek|He]; [left; by destruct t|].
  destruct (decide (kind t = VULNSPEC_TINVALID)) as [Ek|Hv]; [right; left; by destruct t|]. right. right. exists t.
  split; [done|]. split; [done|]. split; [done|]. destruct Hp as [Ei Hpay]; [by intros ->|].
  split; cbn [set_reader p_r p_vtype p_strtab p_progn]; rewrite ?Ei; [by destruct t|apply Hl; by intros ->|exact Hpay| |done].
  destruct t; try done. split; [tauto|lia].
Qed.

Lemma runs_expect O M p k : inv O M p -> k <> VULNSPEC_TEOF -> k <> VULNSPEC_TINVALID ->
  runs (expect alloc_ok k) p (fun _ p' => inv O M p' /\ ext nowhere p p' /\ p_vtype p' = p_vtype p /\ exists t, k = kind t /\ took t p p')
    (forall t rest, toks p = t :: rest -> kind t <> k).
Proof.
  intros Hi He Hv. unfold expect. eapply runs_bind; [by apply runs_read_token|done|]. intros k' p' (Hi' & Hx & Ev & Hk). destruct (decide (k' = k)) as [->|Hne].
  - apply runs_done. split; [done|]. split; [done|]. split; [done|]. destruct Hk as [[? _]|[[? _]|(t & Ek & _ & _ & Ht)]]; try done. by exists t.
  - apply runs_unexpected. intros t rest E. destruct Hk as [[_ E']|[[-> E']|(t' & Ek & _ & _ & Ht)]]; try congruence.
    + rewrite E' in E. injection E as <- _. done.
    + rewrite (took_toks _ _ _ Ht) in E. injection E as <- _. congruence.
Qed.

Lemma runs_alloc O M p n : inv O M p -> 0 < n <= 2 ^ 57 ->
  runs (progn_alloc alloc_ok n) p (fun off p' => off = size_of p /\ off <= UINT32_MAX /\ inv (union O (cells off n)) M p' /\
    ext nowhere p p' /\ off + n <= size_of p' /\ size_of p + 8 <= size_of p' /\ p_vtype p' = p_vtype p /\ p_r p' = p_r p /\ p_strtab p' = p_strtab p /\
    forall i, cells off n i -> rd (image p') i = Ret 0) False.
Proof.
  intros [Hf Hh Ha Ht Hc Hs Ho Hr] Hn. unfold runs, progn_alloc.
  destruct (vulnspec_progn_alloc_ok alloc_ok Halloc (p_progn p) n Hf Hn) as [(Hsm & b & -> & Hf' & Hl & Ha' & Hd & Hz)|(Hbig & b & -> & Hl)];
    cbn [mbind outcome_mbind done_with bail_out set_progn p_progn].
  - eexists _, (inr _). split; [done|]. cbn [p_progn p_vtype p_strtab p_r]. split; [done|]. split; [done|].
    assert (Hlt : size_of p + 8 <= Buf.len b) by (destruct Ha as [x Hx], Ha' as [y Hy]; lia).
    split; [|split; [split; [simpl; lia|intros i Hi _; apply Hd; lia]|]].
    + split; cbn [set_progn p_progn p_vtype p_strtab p_r]; try done; try lia.
      * intros s off Hm. eapply (string_later O); [by apply Hs|lia| |intros i Hi _; apply Hd; lia].
        intros i [?|[? _]] Hi; [done|lia].
      * intros i [Hi%Ho|[_ Hi]]; lia.
    + split; [simpl; lia|]. split; [simpl; lia|]. split; [done|]. split; [done|]. split; [done|]. intros i Hi. apply Hz. unfold cells in Hi. lia.
  - eexists _, (inl VULNSPEC_EMALLOC). split; [done|]. right. split; [done|]. cbn [set_progn p_progn]. lia.
Qed.

Lemma runs_store O M p off src : inv O M p -> 0 <= off -> off + zlen src <= size_of p -> Forall is_byte src ->
  (forall i, cells off (zlen src) i -> O i) ->
  runs (store off src) p (fun _ p' => inv O M p' /\ ext (cells off (zlen src)) p p' /\ size_of p' = size_of p /\ p_vtype p' = p_vtype p /\ p_r p' = p_r p /\
    p_strtab p' = p_strtab p /\ forall i, cells off (zlen src) i -> rd (image p') i = rd src (i - off)) False.
Proof.
  intros [[[Hl Hd Hda Hby] Hcap Hroom Hzero] Hh Ha Ht Hc Hs Ho Hr] Hoff Hend Hsrc HO. unfold runs, store.
  destruct (wrs_rd (image p) off src Hoff) as (d & Ew & Ed & Hin & Hout); [lia|]. rewrite Ew. cbn [mbind outcome_mbind done_with].
  eexists _, (inr tt). split; [done|]. unfold set_progn. cbn [p_progn p_vtype p_strtab p_r Buf.len Buf.cap Buf.data].
  split; [|split; [split; [done|intros i Hi Hw; apply Hout; exact Hw]|by repeat (split; [done|])]].
  split; cbn [p_progn p_vtype p_strtab p_r Buf.len Buf.cap Buf.data]; try done.
  - split; cbn [Buf.len Buf.cap Buf.data]; try done.
    + split; cbn [Buf.len Buf.cap Buf.data]; try done; [by rewrite Ed|].
      rewrite wrs_in in Ew by lia. injection Ew as <-. rewrite !Forall_app. auto using Forall_take, Forall_drop.
    + intros i Hi. rewrite Hout by lia. by apply Hzero.
  - intros s o Hm. eapply (string_later O); [by apply Hs|lia|done|]. intros i Hi Hn. apply Hout. intros Hi'. apply Hn, HO. exact Hi'.
Qed.

Lemma le32_bytes v : Forall is_byte (le32 v).
Proof. unfold le32. repeat constructor; unfold is_byte; apply Z.mod_pos_bound; lia. Qed.

(** the word at [off] is now [v], and the rest of the image is as it was *)
Record wrote (off v : Z) (p p' : vulnspec_parser) : Prop := Wrote {
  wrote_word : 0 <= v < 2 ^ 32 -> ld32 (image p') off = Ret v;
  wrote_ext : ext (cells off 4) p p';
  wrote_size : size_of p' = size_of p;
  wrote_vtype : p_vtype p' = p_vtype p;
  wrote_reader : p_r p' = p_r p;
}.

Lemma wrote_other off v p p' o : wrote off v p p' -> 0 <= o -> o + 4 <= size_of p -> o + 4 <= off \/ off + 4 <= o ->
  ld32 (image p') o = ld32 (image p) o.
Proof. intros [_ [_ He] _ _ _] Ho Hs Hd. apply ld32_agree. intros i Hi. apply He; [lia|]. unfold cells. lia. Qed.

Lemma runs_st32 O M p off v : inv O M p -> 0 <= off -> off + 4 <= size_of p -> (forall i, cells off 4 i -> O i) ->
  runs (st32 off v) p (fun _ p' => inv O M p' /\ wrote off v p p') False.
Proof.
  intros Hi H0 He HO. eapply runs_mono; [apply (runs_store O M p off (le32 v) Hi H0 He (le32_bytes v) HO)| |done].
  intros _ p' (Hi' & Hx & Es & Ev & Er & _ & Hin). split; [done|]. split; try done. intros Hv. by apply ld32_stored.
Qed.

(** what [loads] gives: the field that refers to a string of the image *)
Definition loaded (O : Z -> Prop) (c : Z * Z) (s : bytes) (p : vulnspec_parser) : Prop :=
  exists off, c = (u32 (zlen s + 1), off) /\ string_at O (image p) (size_of p) s off.

Lemma took_entry s p p' : took (TString s) p p' -> reader_ok (p_r p') ->
  exists str, vulnspec_reader_string (p_r p') = (str, zlen s) /\ wf_entry s (StrEntry str (u64 (zlen s + 1)) 0) /\
    cstr str = s /\ rds str 0 (zlen s + 1) = Ret (s ++ [0]).
Proof.
  intros [_ _ Hp [Hs Hl] _] Hr. simpl in Hp. pose proof (zlen_nonneg s). unfold vulnspec_reader_string.
  pose proof (contents_length _ (ok_sval _ Hr)) as Hc. rewrite Hp in Hc. rewrite zlen_app in Hc. change (zlen [0]) with 1 in Hc.
  rewrite (proj2 (Z.ltb_lt _ _)) by lia. rewrite <- Hc, Z.add_simpl_r. eexists. split; [done|].
  set (b := sval (p_r p')) in *. assert (Hd : Buf.data b = s ++ 0 :: drop (Z.to_nat (Buf.len b)) (Buf.data b)).
  { rewrite <- (take_drop (Z.to_nat (Buf.len b)) (Buf.data b)) at 1. fold (contents b). rewrite Hp. by rewrite <- app_assoc. }
  rewrite Hd. split; [split; [by eexists|split; [by rewrite uw_small by lia|done]]|]. split; [by apply cstr_terminated|].
  rewrite (cons_middle 0 s), (app_assoc s). rewrite rds_in; [|lia|lia|zlen_simpl; pose proof (zlen_nonneg (drop (Z.to_nat (Buf.len b)) (Buf.data b))); unfold zlen in *; lia].
  f_equal. change (Z.to_nat 0) with 0%nat. rewrite drop_0. apply take_app_length'. rewrite length_app. unfold zlen. simpl. lia.
Qed.

Lemma runs_loads O M p : inv O M p ->
  runs (loads alloc_ok) p (fun c p' => exists s M', toks p = TString s :: toks p' /\ (length (text p') < length (text p))%nat /\
      inv O M' p' /\ ext nowhere p p' /\ p_vtype p' = p_vtype p /\ loaded O c s p')
    (forall s rest, toks p <> TString s :: rest).
Proof.
  intros Hi. unfold loads. eapply runs_bind; [by apply runs_expect| |].
  { intros Hb s rest E. by apply Hb in E. }
  intros _ p1 (Hi1 & Hx1 & Ev1 & t & Ek & Ht). destruct t as [| | | |s| | |]; try done.
  destruct (took_entry s p p1 Ht) as (str & Er & Hwf & Ecs & Erds); [apply Hi1|].
  pose proof (took_text _ _ _ Ht) as [Hs Hl]. pose proof (zlen_nonneg s) as Hl0.
  pose proof (strtab_get_spec _ _ _ _ (inv_strtab _ _ _ Hi1) Hwf) as Hget.
  destruct (M !! s) as [off|] eqn:EM.
  - destruct Hget as (ent & Hget & (_ & Hlen & _) & Hval). eapply (runs_eq _ (done_with (u32 (zlen s + 1), off)) _ p1).
    { rewrite Er. cbv zeta. rewrite Hget. cbn [mbind outcome_mbind]. by rewrite Hlen, Hval. }
    apply runs_done. exists s, M. split; [apply Ht|]. split; [apply Ht|]. split; [done|]. split; [done|]. split; [done|].
    exists off. split; [done|]. by apply (inv_strings _ _ _ Hi1).
  - eapply runs_eq.
    { rewrite Er. cbv zeta. rewrite Hget. cbn [mbind outcome_mbind]. change (OBJTBL_ENOTFOUND =? OBJTBL_OK) with false.
      change (OBJTBL_ENOTFOUND =? OBJTBL_ENOTFOUND) with true. cbv iota. cbn [se_len se_str]. rewrite (uw_small 64) by lia. reflexivity. }
    eapply runs_bind; [apply (runs_alloc O M p1 (zlen s + 1) Hi1); lia|done|].
    intros off p2 (Eoff & Hmax & Hi2 & Hx2 & Hend & Hgrow & Ev2 & Er2 & Est2 & _).
    assert (Hlen : zlen (s ++ [0]) = zlen s + 1) by (by zlen_simpl). pose proof (inv_head _ _ _ Hi1) as Hhead.
    eapply runs_eq; [rewrite Erds; cbn [mbind outcome_mbind]; reflexivity|].
    eapply runs_bind; [apply (runs_store _ M p2 off (s ++ [0]) Hi2); [lia|lia| |]|done|].
    + apply Forall_app_2; [|repeat constructor; lia]. eapply Forall_impl; [exact Hs|]. unfold is_byte. simpl. lia.
    + intros i Hin. right. by rewrite <- Hlen.
    + intros _ p3 (Hi3 & Hx3 & Es3 & Ev3 & Er3 & Est3 & Hin). rewrite Hlen in *.
      set (ent := StrEntry (s ++ [0]) (zlen s + 1) off).
      assert (Hent : wf_entry s ent) by (split; [by exists []|done]).
      destruct (strtab_insert_spec alloc_ok (p_strtab p3) M s ent Halloc (inv_strtab _ _ _ Hi3) Hent EM) as (t' & Eins & Hok).
      { pose proof (inv_count _ _ _ Hi1). unfold UINT32_MAX in Hmax. lia. }
      eapply (runs_eq _ (done_with (u32 (zlen s + 1), off)) _ (set_strtab p3 t')).
      { unfold strtab_new. rewrite !Halloc, Ecs. cbn [se_str se_len se_val]. fold ent. rewrite Eins. reflexivity. }
      apply runs_done. exists s, (<[s := off]> M). destruct Ht as [Ht1 Ht2 _ _ _].
      change (p_r (set_strtab p3 t')) with (p_r p3). rewrite Er3, Er2. split; [done|]. split; [done|].
      assert (Hstr : string_at O (image p3) (size_of p3) s off).
      { split; [lia|lia|done| |].
        - intros i Hi'. rewrite Hin by (unfold cells; lia). f_equal. lia.
        - intros i Hi' Ho'. apply (inv_open _ _ _ Hi1) in Ho'. lia. }
      split; [|split; [|split; [by cbn [set_strtab p_vtype]; congruence|by exists off]]].
      * pose proof (inv_close _ O _ _ Hi3 ltac:(by left)) as [Hf3 Hh3 Ha3 _ Hc3 Hs3 Ho3 Hr3].
        split; cbn [set_strtab p_progn p_strtab p_r]; try done.
        -- rewrite map_size_insert_None by done. pose proof (inv_count _ _ _ Hi1). lia.
        -- intros s' o Hm. destruct (decide (s' = s)) as [->|Hne]; [rewrite lookup_insert_eq in Hm; by injection Hm as <-|].
           rewrite lookup_insert_ne in Hm by done. by apply Hs3.
      * eapply ext_trans; [exact Hx1|]. eapply (ext_behind nowhere (cells off (zlen s + 1)) p1 p2); [exact Hx2|exact Hx3|].
        intros i Hi'. right. unfold cells in Hi'. lia.
Qed.

Lemma runs_read_symbol O M p : inv O M p ->
  runs (VulnParser.read_symbol alloc_ok) p (fun t p' => exists s, t = symbol2node s /\ took (TSymbol s) p p' /\
      inv O M p' /\ ext nowhere p p' /\ p_vtype p' = p_vtype p)
    (forall s rest, toks p <> TSymbol s :: rest).
Proof.
  intros Hi. unfold VulnParser.read_symbol. eapply runs_bind; [by apply runs_read_token|done|].
  intros k p1 (Hi1 & Hx1 & Ev1 & Hk). destruct (decide (k = VULNSPEC_TSYMBOL)) as [->|Hne].
  - destruct Hk as [[? _]|[[? _]|(t & Ek & _ & _ & Ht)]]; try done. destruct t as [| | | | | | |s]; try done.
    eapply (runs_eq _ (done_with (symbol2node s)) _ p1).
    { destruct (took_payload _ _ _ Ht) as (rest & E & Hs). unfold vulnspec_reader_symbol. by rewrite E, cstr_terminated. }
    apply runs_done. by exists s.
  - apply runs_unexpected. intros s rest E. destruct Hk as [[_ E']|[[_ E']|(t' & Ek & _ & _ & Ht)]]; try congruence.
    rewrite (took_toks _ _ _ Ht) in E. injection E as -> _. done.
Qed.

Lemma runs_eq_bind {A B} (m m' : vulnspec_parser -> outcome (vulnspec_parser * (Z + A))) (f : A -> vulnspec_parser -> outcome (vulnspec_parser * (Z + B)))
    p Good Bad : m p = m' p -> runs (cbind m' f) p Good Bad -> runs (cbind m f) p Good Bad.
Proof. intros E. apply runs_eq. unfold cbind. by rewrite E. Qed.

End Rules.
