(* ===== verification/VulnCompile.v ===== *)
(** * Compiled specifications are what they say (src/lib/vulnspec)

    The nodes that the parser writes, with the rules of [VulnRules], and the
    theorem that relates a text, the image that the parser makes of it and the
    evaluation of the image. *)

From Stdlib Require Import SpecFloat.
From stdpp Require Import gmap.
From S2P Require Import Prelude CLib Buf RobinHood Objtbl Vaguever Nalphaver VulnInterp VulnReader VulnStrtab VulnParser VulnGrammar VulnRules.

Section Nodes.
Context (alloc_ok : Z -> bool) (Halloc : forall n, alloc_ok n = true).
Context (odd_u32 : spec_float -> Z) (Hodd : forall x, 0 <= odd_u32 x < 2 ^ 32).

(** ** Filling a node *)

(** the words [ws] were written to the node of [n] bytes at [off] *)
Record filled (off n : Z) (ws : list (Z * Z)) (p p' : vulnspec_parser) : Prop := Filled {
  filled_ext : ext (cells off n) p p';
  filled_size : size_of p' = size_of p;
  filled_vtype : p_vtype p' = p_vtype p;
  filled_reader : p_r p' = p_r p;
  filled_words : forall w, w ∈ ws -> ld32 (image p') w.1 = Ret w.2;
  filled_others : forall o, off <= o -> o + 4 <= off + n -> Forall (fun w => o + 4 <= w.1 \/ w.1 + 4 <= o) ws ->
    ld32 (image p') o = ld32 (image p) o;
}.

Lemma filled_nil off n p : filled off n [] p p.
Proof. split; try done. intros w Hw. by apply elem_of_nil in Hw. Qed.

Lemma runs_assoc {A B C} (m : vulnspec_parser -> outcome (vulnspec_parser * (Z + A))) (f : A -> vulnspec_parser -> outcome (vulnspec_parser * (Z + B)))
    (g : B -> vulnspec_parser -> outcome (vulnspec_parser * (Z + C))) p Good Bad :
  runs (cbind m (fun x => cbind (f x) g)) p Good Bad -> runs (cbind (cbind m f) g) p Good Bad.
Proof.
  apply runs_eq. unfold cbind. destruct (m p) as [[q [st|a]]| |]; cbn [mbind outcome_mbind]; done.
Qed.

Lemma runs_word {A} O M off n ws p0 p o v (f : unit -> vulnspec_parser -> outcome (vulnspec_parser * (Z + A))) Good Bad :
  inv O M p -> filled off n ws p0 p -> 0 <= off -> off + n <= size_of p -> (forall i, cells off n i -> O i) ->
  off <= o -> o + 4 <= off + n -> 0 <= v < 2 ^ 32 -> Forall (fun w => o + 4 <= w.1 \/ w.1 + 4 <= o) ws ->
  Forall (fun w => off <= w.1 /\ w.1 + 4 <= off + n) ws ->
  (forall p', inv O M p' -> filled off n ((o, v) :: ws) p0 p' -> size_of p' = size_of p -> runs (f tt) p' Good Bad) ->
  runs (cbind (st32 o v) f) p Good Bad.
Proof.
  intros Hi [Fx Fs Fv Fr Fw Fo] H0 Hn HO Ho1 Ho2 Hv Hd Hin Hf.
  eapply runs_bind; [apply (runs_st32 O M p o v Hi); [lia|lia|]|done|].
  { intros i Hc. apply HO. unfold cells in *. lia. }
  intros [] p' (Hi' & Hw). pose proof Hw as [Ww Wx Ws Wv Wr]. apply Hf; [done| |congruence]. split; try congruence.
  - destruct Fx as [Fx1 Fx2], Wx as [Wx1 Wx2]. split; [lia|]. intros i Hi1 Hc. rewrite Wx2; [by apply Fx2|lia|]. unfold cells in *. lia.
  - intros w [->|Hws]%elem_of_cons; [by apply Ww|].
    + rewrite <- (Fw w Hws). rewrite Forall_forall in Hd, Hin. pose proof (Hd w Hws). pose proof (Hin w Hws).
      apply (wrote_other o v p p'); [done|lia|lia|lia].
  - intros o' H1 H2 Hall. apply Forall_cons in Hall as [Hb Ha]. rewrite <- (Fo o' H1 H2 Ha).
    apply (wrote_other o v p p'); [done|lia|lia|]. cbn [fst] in Hb. lia.
Qed.

Lemma compar_image_ok d n off t vt c vp v : is_compar t = true -> ld32 d off = Ret t -> ld32 d (off + 12) = Ret vt ->
  ld_cvalue d (off + 4) = Ret c -> cvalue_of c vp d n -> rep_version d off vt v ->
  (vt <> VULNSPEC_VVAGUE -> exists cv s, ld_cval d off = Ret cv /\ cvalue_of cv s d n) ->
  8 <= off -> off + COMPAR_NODE_SIZE <= n -> expr_image off (Compar t vp v) d n.
Proof.
  intros Ht Et Ev Ec [Hs Hvs] Hv Hcv Ho Hn. unfold COMPAR_NODE_SIZE in *.
  assert (En : ld_compar d off = Ret (ComparNode c vt)) by (unfold ld_compar; by rewrite Ec, Ev).
  split; [by eapply rep_compar|]. exists 1%nat. intros base [|fuel] Hb Hbn Hf; [lia|]. cbn [vvulnexpr].
  rewrite check_passes by lia. rewrite Et. cbn [lift jbind mbind outcome_mbind ret]. rewrite Ht. unfold vcompar, COMPAR_NODE_SIZE.
  rewrite check_passes by lia. rewrite En. cbn [lift jbind mbind outcome_mbind ret vendprod vtype]. rewrite Hvs by done.
  cbn [jbind mbind outcome_mbind ret]. destruct (Z.eqb_spec vt VULNSPEC_VVAGUE) as [->|Hne]; [done|]. cbn [negb].
  destruct (Hcv Hne) as (cv & s & -> & _ & Hvc). cbn [lift jbind mbind outcome_mbind ret]. by apply Hvc.
Qed.

Lemma init_loop_i32 s : forall i val h fs fs' i', - 2 ^ 31 <= val < 2 ^ 31 -> Forall (fun f => - 2 ^ 31 <= f < 2 ^ 31) fs ->
  init_loop s i val h fs = Ret (fs', i') -> Forall (fun f => - 2 ^ 31 <= f < 2 ^ 31) fs'.
Proof.
  assert (Hput : forall i val h fs fs' i', - 2 ^ 31 <= val < 2 ^ 31 -> Forall (fun f => - 2 ^ 31 <= f < 2 ^ 31) fs ->
    put_field h fs i val = Ret (fs', i') -> Forall (fun f => - 2 ^ 31 <= f < 2 ^ 31) fs').
  { intros i val [] fs fs' i' Hv Hfs; unfold put_field; [|by intros [= <- _]]. unfold wr. case_match; [done|].
    cbn [mbind outcome_mbind]. intros [= <- _]. by apply Forall_insert. }
  induction s as [|ch s IH]; intros i val h fs fs' i' Hv Hfs; cbn [init_loop]; [by apply Hput|].
  destruct (isdigit ch); [apply IH; [apply (sw_range 32); lia|done]|].
  destruct (put_field h fs i val) as [[fs1 i1]| |] eqn:E; cbn [mbind outcome_mbind]; try done. apply Hput in E; [|done|done].
  destruct (_ || _); [by intros [= <- _]|apply IH; [lia|done]].
Qed.

(** a version as five words of memory *)
Lemma vague_words s v d off : vaguever_init s = Ret v ->
  ld32 d (off + 16) = Ret (u32 (nused v)) -> ld32 d (off + 20) = Ret (u32 (nth 0 (Vaguever.fields v) 0)) ->
  ld32 d (off + 24) = Ret (u32 (nth 1 (Vaguever.fields v) 0)) -> ld32 d (off + 28) = Ret (u32 (nth 2 (Vaguever.fields v) 0)) ->
  ld32 d (off + 32) = Ret (u32 (nth 3 (Vaguever.fields v) 0)) -> ld_vague d off = Ret v.
Proof.
  intros E E0 E1 E2 E3 E4. unfold ld_vague. rewrite E0, E1, E2, E3, E4. cbn [mbind outcome_mbind].
  destruct (vaguever_init_ret s) as (v' & E' & Hl & Hn). rewrite E in E'. injection E' as <-.
  assert (Hf : Forall (fun f => - 2 ^ 31 <= f < 2 ^ 31) (Vaguever.fields v)).
  { unfold vaguever_init in E. destruct (init_loop s 0 0 false _) as [[fs i]| |] eqn:Ei; cbn [mbind outcome_mbind] in E; try done.
    injection E as <-. cbn [Vaguever.fields]. eapply init_loop_i32; [|..|exact Ei]; [lia|]. apply Forall_replicate. lia. }
  assert (Hi : forall x, - 2 ^ 31 <= x < 2 ^ 31 -> i32 (u32 x) = x).
  { intros x Hx. unfold uw, sw. change (2 ^ (32 - 1)) with (2 ^ 31). rewrite Z.add_mod_idemp_l by lia. rewrite Z.mod_small by lia. lia. }
  destruct v as [n [|f0 [|f1 [|f2 [|f3 [|]]]]]]; try done. cbn [Vaguever.fields nth nused] in *.
  repeat (apply Forall_cons in Hf as [? Hf]). by rewrite !Hi by lia.
Qed.

(** the words of a node that is filled, whatever happens to [O] *)
Lemma node_word (O : Z -> Prop) off n ws p q r d' w : filled off n ws p q -> ext nowhere q r -> w ∈ ws ->
  0 <= off -> off <= w.1 -> w.1 + 4 <= off + n -> off + n <= size_of q -> (forall i, O i -> i < off) ->
  (forall i, 0 <= i < size_of r -> ~ O i -> rd d' i = rd (image r) i) -> ld32 d' w.1 = Ret w.2.
Proof.
  intros Hf [Hx1 Hx2] Hw H0 H1 H2 Hn HO Hd. rewrite <- (filled_words _ _ _ _ _ Hf w Hw).
  apply ld32_agree. intros i Hi. rewrite Hd; [apply Hx2; [lia|by intros []]|lia|]. intros Ho%HO. lia.
Qed.

Ltac in_list := repeat (apply elem_of_cons; (left; f_equal; lia) || (left; reflexivity) || right).

Ltac word off :=
  eapply (runs_word _ _ off); [eassumption|eassumption|lia|unfold COMPAR_NODE_SIZE, BOOLEAN_NODE_SIZE, CVE_NODE_SIZE in *; lia|
    |lia|unfold COMPAR_NODE_SIZE, BOOLEAN_NODE_SIZE, CVE_NODE_SIZE; lia| |repeat constructor; simpl; lia|
    repeat constructor; unfold COMPAR_NODE_SIZE, BOOLEAN_NODE_SIZE, CVE_NODE_SIZE; simpl; lia|].

Lemma node_range t : is_compar t = true \/ is_boolean t = true -> 0 <= t < 2 ^ 32.
Proof.
  unfold is_compar, is_boolean. intros [H|H]; repeat (apply orb_prop in H as [H|H]); apply Z.eqb_eq in H as ->; by vm_compute.
Qed.

Lemma runs_close {A} O M p (a : A) : inv O M p ->
  runs (cbind (expect alloc_ok VULNSPEC_TRPAREN) (fun _ => done_with a)) p
    (fun x p' => x = a /\ inv O M p' /\ ext nowhere p p' /\ p_vtype p' = p_vtype p /\ toks p = TRparen :: toks p' /\
      (length (text p') < length (text p))%nat)
    (forall rest, toks p <> TRparen :: rest).
Proof.
  intros Hi. eapply runs_bind; [by apply (runs_expect alloc_ok Halloc O M p)| |].
  - intros Hb rest. intros E. by apply Hb in E.
  - intros _ p' (Hi' & Hx & Ev & t & Ek & Ht). apply runs_done. destruct t; try done. by destruct Ht.
Qed.

Lemma runs_compar O M p t : inv O M p -> is_compar t = true -> p_vtype p = VULNSPEC_VVAGUE \/ p_vtype p = VULNSPEC_VNALPHA ->
  runs (compar alloc_ok t) p (fun off p' => exists vp ver M', toks p = TString vp :: TString ver :: TRparen :: toks p' /\
      (length (text p') < length (text p))%nat /\ inv O M' p' /\ ext nowhere p p' /\ p_vtype p' = p_vtype p /\ 0 <= off <= UINT32_MAX /\
      holds O (image p') (size_of p') (expr_image off (Compar t vp (version_of (p_vtype p) ver))))
    (forall vp ver rest, toks p <> TString vp :: TString ver :: TRparen :: rest).
Proof.
  intros Hi Ht Hvt. unfold compar. pose proof (inv_head _ _ _ Hi) as Hhead. pose proof (inv_open _ _ _ Hi) as Hopen.
  pose proof (node_range t (or_introl Ht)) as Rt.
  eapply runs_bind; [apply (runs_alloc alloc_ok Halloc O M p COMPAR_NODE_SIZE Hi); unfold COMPAR_NODE_SIZE; lia|done|].
  intros off p1 (Eoff & Hmax & Hi1 & Hx1 & Hend1 & _ & Ev1 & Er1 & _ & _). set (O1 := union O (cells off COMPAR_NODE_SIZE)) in *.
  assert (HO1 : forall i, cells off COMPAR_NODE_SIZE i -> O1 i) by (by right).
  eapply runs_bind; [apply (runs_loads alloc_ok Halloc O1 M p1 Hi1)| |].
  { rewrite Er1. intros Hb vp ver rest. apply Hb. }
  intros c p2 (vp & M2 & Et2 & Hl2 & Hi2 & Hx2 & Ev2 & Hld). rewrite Er1 in Et2, Hl2.
  destruct Hld as (vpo & -> & Hstr). pose proof (sa_off _ _ _ _ _ Hstr) as Rvp.
  pose proof (proj1 Hx2) as Hsz2.
  match goal with |- runs _ _ ?G ?B => set (Good := G); set (Bad := B) end.
  assert (Hfin : forall M' p3 q ver ws, ext nowhere p2 p3 -> toks p2 = TString ver :: toks p3 ->
    (length (text p3) < length (text p2))%nat -> p_vtype p3 = p_vtype p2 -> inv O1 M' q -> filled off COMPAR_NODE_SIZE ws p3 q ->
    (off, t) ∈ ws -> (off + 12, p_vtype p2) ∈ ws -> (off + 4, u32 (zlen vp + 1)) ∈ ws -> (off + 4 + 4, vpo) ∈ ws ->
    Forall (fun w => off <= w.1 /\ w.1 + 4 <= off + COMPAR_NODE_SIZE) ws ->
    (forall d' n', (forall w, w ∈ ws -> ld32 d' w.1 = Ret w.2) ->
      (forall i, 0 <= i < size_of q -> ~ O1 i -> rd d' i = rd (image q) i) -> size_of q <= n' -> n' < INT_MAX -> n' < zlen d' ->
      rep_version d' off (p_vtype p2) (version_of (p_vtype p) ver) /\
      (p_vtype p2 <> VULNSPEC_VVAGUE -> exists cv s, ld_cval d' off = Ret cv /\ cvalue_of cv s d' n')) ->
    runs (cbind (expect alloc_ok VULNSPEC_TRPAREN) (fun _ => done_with off)) q Good Bad).
  { intros M' p3 q ver ws Hx3 Et3 Hl3 Ev3 Hiq Hf Hw1 Hw2 Hw3 Hw4 Hin Hver. pose proof Hf as [Fx Fs Fv Fr _ _]. pose proof (proj1 Hx3) as Hsz3.
    eapply runs_mono; [apply (runs_close O1 M' q off Hiq)| |].
    - intros a r (-> & Hir & Hxr & Evr & Etr & Hlr). exists vp, ver, M'. rewrite Fr in Etr, Hlr.
      split; [by rewrite Et2, Et3, Etr|]. split; [lia|]. split; [by apply (inv_close O1); [|by left]|].
      split; [|split; [congruence|split; [lia|]]].
      + eapply (ext_behind nowhere (cells off COMPAR_NODE_SIZE) p p3); [exact (ext_trans _ _ _ _ (ext_trans _ _ _ _ Hx1 Hx2) Hx3)| |].
        * eapply (ext_behind _ nowhere); [exact Fx|exact Hxr|done].
        * intros i Hc. right. unfold cells in Hc. lia.
      + intros d' n' Hd Hn Hmax' Hz.
        assert (Hw : forall w, w ∈ ws -> ld32 d' w.1 = Ret w.2).
        { intros w Hw. rewrite Forall_forall in Hin. destruct (Hin w Hw). eapply (node_word O off COMPAR_NODE_SIZE ws p3 q r); try done; [lia|lia|].
          intros i Ho. apply Hopen in Ho. lia. }
        assert (Hq : forall i, 0 <= i < size_of q -> ~ O1 i -> rd d' i = rd (image q) i).
        { intros i Hi' Ho. destruct Hxr as [Hr1 Hr2]. rewrite Hd; [apply Hr2; [done|by intros []]|lia|]. intros Ho'. apply Ho. by left. }
        destruct Hxr as [Hr1 _]. destruct (Hver d' n' Hw Hq) as [Hrep Hcv]; [lia|done|done|].
        eapply (compar_image_ok d' n' off t (p_vtype p2) (u32 (zlen vp + 1), vpo)); try done.
        * apply (Hw _ Hw1). * apply (Hw _ Hw2).
        * pose proof (Hw _ Hw3) as W3. pose proof (Hw _ Hw4) as W4. cbn [fst snd] in W3, W4. unfold ld_cvalue. by rewrite W3, W4.
        * eapply string_cvalue; [exact Hstr| |lia|done|done]. intros i Hi' Ho. destruct Hx3 as [_ Hx3].
          rewrite Hq by (done || lia). destruct Fx as [_ Fx]. rewrite Fx; [apply Hx3; [done|by intros []]|lia|]. intros Hc. apply Ho. by right.
        * lia.
        * lia.
    - intros Hb vp' ver' rest E. rewrite E in Et2. injection Et2 as _ Et2. rewrite <- Et2 in Et3. injection Et3 as _ Et3.
      apply (Hb rest). by rewrite Fr. }
  destruct Hvt as [Evt|Evt].
  - eapply runs_eq; [rewrite (proj2 (Z.eqb_eq (p_vtype p2) VULNSPEC_VVAGUE)) by congruence; reflexivity|].
    eapply runs_bind; [by apply (runs_expect alloc_ok Halloc O1 M2 p2 VULNSPEC_TSTRING)| |].
    { intros Hb vp' ver rest E. rewrite E in Et2. injection Et2 as _ Et2. by apply (Hb (TString ver) (TRparen :: rest)). }
    intros _ p3 (Hi3 & Hx3 & Ev3 & tk & Ek & Htk). destruct tk as [| | | |ver| | |]; try done.
    destruct (took_entry ver p2 p3 Htk (inv_reader _ _ _ Hi3)) as (str & Estr & _ & Ecs & _).
    destruct (vaguever_init_ret ver) as (v & Eini & Hv).
    eapply runs_eq; [rewrite Estr; reflexivity|].
    pose proof (filled_nil off COMPAR_NODE_SIZE p3) as Hf0. pose proof (proj1 Hx3) as Hsz3.
    word off; [done|done|]. intros p4 Hi4 Hf4 Hs4. word off; [done|by rewrite Ev2, Ev1, Evt|]. intros p5 Hi5 Hf5 Hs5.
    apply runs_assoc. word off; [done|by apply (uw_range 32)|]. intros p6 Hi6 Hf6 Hs6.
    word off; [done|unfold UINT32_MAX in Rvp; cbn [snd]; lia|]. intros p7 Hi7 Hf7 Hs7.
    eapply runs_eq_bind; [unfold st_vague; cbn [fst]; rewrite Ecs, Eini; cbn [mbind outcome_mbind]; reflexivity|].
    apply runs_assoc. word off; [done|by apply (uw_range 32)|]. intros p8 Hi8 Hf8 Hs8.
    apply runs_assoc. word off; [done|by apply (uw_range 32)|]. intros p9 Hi9 Hf9 Hs9.
    apply runs_assoc. word off; [done|by apply (uw_range 32)|]. intros p10 Hi10 Hf10 Hs10.
    apply runs_assoc. word off; [done|by apply (uw_range 32)|]. intros p11 Hi11 Hf11 Hs11.
    word off; [done|by apply (uw_range 32)|]. intros p12 Hi12 Hf12 Hs12.
    eapply (Hfin M2 p3 p12 ver); [exact Hx3|apply Htk|apply Htk|done|done|exact Hf12|in_list|in_list|in_list|in_list| |].
    { repeat constructor; unfold COMPAR_NODE_SIZE; simpl; lia. }
    intros d' n' Hw Hq _ _ _. rewrite Ev2, Ev1, Evt. split; [|done]. unfold version_of. rewrite Z.eqb_refl, Eini. apply rep_vague.
    eapply vague_words; [exact Eini|..];
      match goal with |- ld32 _ ?o = Ret ?v => apply (Hw (o, v)) end; in_list.
  - eapply runs_eq; [rewrite (proj2 (Z.eqb_neq (p_vtype p2) VULNSPEC_VVAGUE)) by (rewrite Ev2, Ev1, Evt; done); reflexivity|].
    eapply runs_bind; [apply (runs_loads alloc_ok Halloc O1 M2 p2 Hi2)| |].
    { intros Hb vp' ver rest E. rewrite E in Et2. injection Et2 as _ Et2. by apply (Hb ver (TRparen :: rest)). }
    intros c p3 (ver & M3 & Et3 & Hl3 & Hi3 & Hx3 & Ev3 & (vero & -> & Hstr3)). pose proof (sa_off _ _ _ _ _ Hstr3) as Rver.
    pose proof (filled_nil off COMPAR_NODE_SIZE p3) as Hf0. pose proof (proj1 Hx3) as Hsz3. unfold UINT32_MAX in Rvp, Rver.
    word off; [done|done|]. intros p4 Hi4 Hf4 Hs4. word off; [done|by rewrite Ev2, Ev1, Evt|]. intros p5 Hi5 Hf5 Hs5.
    apply runs_assoc. word off; [done|by apply (uw_range 32)|]. intros p6 Hi6 Hf6 Hs6.
    word off; [done|cbn [snd]; lia|]. intros p7 Hi7 Hf7 Hs7.
    apply runs_assoc. word off; [done|by apply (uw_range 32)|]. intros p8 Hi8 Hf8 Hs8.
    word off; [done|cbn [snd]; lia|]. intros p9 Hi9 Hf9 Hs9.
    eapply (Hfin M3 p3 p9 ver); [exact Hx3|done|done|done|done|exact Hf9|in_list|in_list|in_list|in_list| |].
    { repeat constructor; unfold COMPAR_NODE_SIZE; simpl; lia. }
    intros d' n' Hw Hq Hs Hmax' Hz. rewrite Ev2, Ev1, Evt.
    assert (Hcv : ld_cval d' off = Ret (u32 (zlen ver + 1), vero)).
    { unfold ld_cval, ld_cvalue. assert (W1 : ld32 d' (off + 16) = Ret (u32 (zlen ver + 1))) by (apply (Hw (off + 16, _)); in_list).
      assert (W2 : ld32 d' (off + 16 + 4) = Ret vero) by (apply (Hw (off + 16 + 4, _)); in_list). by rewrite W1, W2. }
    assert (Hval : cvalue_of (u32 (zlen ver + 1), vero) ver d' n').
    { eapply string_cvalue; [exact Hstr3| |lia|done|done]. intros i Hi' Ho. rewrite Hq by (done || lia).
      destruct (filled_ext _ _ _ _ _ Hf9) as [_ Fx]. apply Fx; [done|]. intros Hc. apply Ho. by right. }
    split; [|intros _; by eauto]. unfold version_of. change (VULNSPEC_VNALPHA =? VULNSPEC_VVAGUE) with false. cbv iota.
    eapply rep_nalpha; [exact Hcv|]. apply Hval.
Qed.

(** ** Expressions *)

Lemma chain_expr head bs d n : chain_image head bs d n -> bs <> [] -> 8 <= head -> head + 4 <= n -> expr_image head (Boolean bs) d n.
Proof.
  intros [Hr (k & Hk)] Hne H8 Hn. inversion Hr as [|? node e bs' H0 Hnode Hb He Hc]; subst; [done|].
  assert (Ht : ld32 d head = Ret (b_type node)).
  { unfold ld_boolean in Hnode. destruct (ld32 d head) as [t| |]; cbn [mbind outcome_mbind] in Hnode; try done.
    destruct (ld32 d (head + 4)); cbn [mbind outcome_mbind] in Hnode; try done.
    destruct (ld32 d (head + 8)); cbn [mbind outcome_mbind] in Hnode; try done. by injection Hnode as <-. }
  split; [by eapply rep_boolean|]. exists (S k). intros base [|fuel] Hb0 Hbn Hf; [lia|]. cbn [vvulnexpr].
  rewrite check_passes by lia. rewrite Ht. cbn [lift jbind mbind outcome_mbind ret].
  destruct (is_compar (b_type node)) eqn:Ec; [apply compar_not_boolean in Ec; congruence|]. rewrite Hb. apply Hk; lia.
Qed.

Lemma vboolean_step base d n fuel off node : 0 <= base -> base + n < 2 ^ 64 -> 8 <= off -> off + BOOLEAN_NODE_SIZE <= n ->
  ld_boolean d off = Ret node -> is_boolean (b_type node) = true -> vvulnexpr base d n fuel (b_value node) = ret tt ->
  vboolean base d n (S fuel) off = vboolean base d n fuel (b_next node).
Proof.
  intros Hb Hbn Ho Hn Enode Et Hv. transitivity (if 0 <? off then jbind (check base n off BOOLEAN_NODE_SIZE) (fun _ =>
    jbind (lift (ld_boolean d off)) (fun node => if is_boolean (b_type node) then
      jbind (vvulnexpr base d n fuel (b_value node)) (fun _ => vboolean base d n fuel (b_next node)) else bail VULNSPEC_EINVALID_NODE)) else ret tt);
    [reflexivity|]. rewrite (proj2 (Z.ltb_lt 0 off)) by lia. rewrite check_passes by (done || (unfold BOOLEAN_NODE_SIZE; lia)). rewrite Enode.
  cbn [lift jbind mbind outcome_mbind ret]. by rewrite Et, Hv.
Qed.

Lemma link_image d n off t val next e bs : ld32 d off = Ret t -> ld32 d (off + 4) = Ret next -> ld32 d (off + 8) = Ret val ->
  is_boolean t = true -> expr_image val e d n -> chain_image next bs d n -> 8 <= off -> off + BOOLEAN_NODE_SIZE <= n ->
  chain_image off ((t, e) :: bs) d n.
Proof.
  intros Et En Ev Hb [He (k1 & Hk1)] [Hc (k2 & Hk2)] Ho Hn. unfold BOOLEAN_NODE_SIZE in *.
  assert (Enode : ld_boolean d off = Ret (BooleanNode t next val)) by (unfold ld_boolean; by rewrite Et, En, Ev).
  split; [by apply (rep_link d off (BooleanNode t next val)); [lia|..]|].
  exists (S (Nat.max k1 k2)). intros base [|fuel] Hb0 Hbn Hf; [lia|].
  rewrite (vboolean_step base d n fuel off (BooleanNode t next val)); try done; [apply Hk2; lia|apply Hk1; lia].
Qed.

Lemma chain_end d n : chain_image 0 [] d n.
Proof. split; [by apply rep_end|]. exists 1%nat. intros base [|fuel] _ _ Hf; [lia|done]. Qed.

(** the last node of a list so far, of [n] bytes: it has no successor yet *)
Definition last_node (O : Z -> Prop) (n : Z) (p : vulnspec_parser) (prev : Z) : Prop :=
  prev = 0 \/ (8 <= prev /\ prev + n <= size_of p /\ (forall i, cells (prev + 4) 4 i -> O i) /\ ld32 (image p) (prev + 4) = Ret 0).
Definition next_cells (prev : Z) : Z -> Prop := fun i => prev <> 0 /\ cells (prev + 4) 4 i.

Lemma runs_link O M p n prev curr : inv O M p -> last_node O n p prev -> 8 <= n -> 0 <= curr < 2 ^ 32 ->
  runs (if negb (prev =? 0) then st32 (prev + 4) curr else done_with tt) p
    (fun _ p' => inv O M p' /\ ext (next_cells prev) p p' /\ size_of p' = size_of p /\ p_vtype p' = p_vtype p /\ p_r p' = p_r p /\
      (prev <> 0 -> ld32 (image p') (prev + 4) = Ret curr)) False.
Proof.
  intros Hi [->|(H8 & Hn & HO & _)] Hn8 Hc.
  - apply runs_done. split; [done|]. split; [apply ext_refl|]. done.
  - rewrite (proj2 (Z.eqb_neq prev 0)) by lia. cbn [negb]. eapply runs_mono; [apply (runs_st32 O M p); [done|lia|lia|]| |done].
    { intros i Hci. by apply HO. }
    intros _ p' (Hi' & [Hw [Hx1 Hx2] Hs Hv Hr]). split; [done|]. split; [|split; [done|split; [done|split; [done|by intros _; apply Hw]]]].
    split; [done|]. intros i Hi0 Hni. apply Hx2; [done|]. intros Hcc. apply Hni. split; [lia|done].
Qed.

Definition vt_ok (p : vulnspec_parser) : Prop := p_vtype p = VULNSPEC_VVAGUE \/ p_vtype p = VULNSPEC_VNALPHA.

Definition expr_good (O : Z -> Prop) (p : vulnspec_parser) (off : Z) (p' : vulnspec_parser) : Prop :=
  exists M' e, Expr (p_vtype p) (toks p) (toks p') e /\ (length (text p') < length (text p))%nat /\ inv O M' p' /\ ext nowhere p p' /\
    p_vtype p' = p_vtype p /\ 0 <= off <= UINT32_MAX /\ holds O (image p') (size_of p') (expr_image off e).

Definition chain_good (O : Z -> Prop) (t bnode prev : Z) (p : vulnspec_parser) (a : Z) (p' : vulnspec_parser) : Prop :=
  exists M' bs head, Operands (p_vtype p) t (toks p) (toks p') bs /\ (length (text p') < length (text p))%nat /\ inv O M' p' /\
    ext (next_cells prev) p p' /\ p_vtype p' = p_vtype p /\ a = (if bnode =? 0 then head else bnode) /\ (bnode = 0 -> bs <> []) /\
    (prev <> 0 -> ld32 (image p') (prev + 4) = Ret head) /\
    ((bs = [] /\ head = 0) \/ (bs <> [] /\ size_of p <= head <= UINT32_MAX /\ head + BOOLEAN_NODE_SIZE <= size_of p')) /\
    holds O (image p') (size_of p') (chain_image head bs).

Lemma ext_weaken (W W' : Z -> Prop) p q : ext W p q -> (forall i, W i -> W' i) -> ext W' p q.
Proof. intros [H1 H2] HW. split; [done|]. intros i Hi Hn. apply H2; [done|]. intros Hw. by apply Hn, HW. Qed.

(** one more operand: the node at [curr], its expression and the rest of the chain *)
Lemma chain_step O M M3 t bnode prev p p1 p2 p3 p5 p6 p' curr val e a :
  inv O M p -> is_boolean t = true -> last_node O BOOLEAN_NODE_SIZE p prev ->
  took TLparen p p1 -> ext nowhere p p1 -> curr = size_of p1 -> curr <= UINT32_MAX ->
  ext nowhere p1 p2 -> toks p2 = toks p1 -> curr + BOOLEAN_NODE_SIZE <= size_of p2 ->
  Expr (p_vtype p) (toks p2) (toks p3) e -> (length (text p3) < length (text p1))%nat -> ext nowhere p2 p3 ->
  inv (union O (cells curr BOOLEAN_NODE_SIZE)) M3 p3 ->
  holds (union O (cells curr BOOLEAN_NODE_SIZE)) (image p3) (size_of p3) (expr_image val e) ->
  filled curr BOOLEAN_NODE_SIZE [(curr + 8, val); (curr, t)] p3 p5 ->
  ext (next_cells prev) p5 p6 -> size_of p6 = size_of p5 -> p_r p6 = p_r p5 -> p_vtype p6 = p_vtype p ->
  (prev <> 0 -> ld32 (image p6) (prev + 4) = Ret curr) ->
  chain_good (union O (cells curr BOOLEAN_NODE_SIZE)) t (if bnode =? 0 then curr else bnode) curr p6 a p' ->
  chain_good O t bnode prev p a p'.
Proof.
  intros Hi Ht Hlast [Tt Tl _ _ _] Hx1 Ecurr Hmax Hx2 Et2 Hend He Hl3 Hx3 Hi3 Hhe [Fx Fs Fv Fr Fw _] Hx6 Hs6 Er6 Ev6 Hlink
    (M' & bs & head & Hops & Hl' & Hi' & Hx' & Ev' & Ea & _ & Hnext & Hhead & Hhc).
  pose proof (inv_head _ _ _ Hi) as H8. pose proof (inv_open _ _ _ Hi) as Hopen.
  pose proof (proj1 Hx1) as S1. pose proof (proj1 Hx2) as S2. pose proof (proj1 Hx3) as S3. pose proof (proj1 Hx') as S6.
  assert (E63 : p_r p6 = p_r p3) by congruence. rewrite E63 in Hops, Hl'. rewrite Et2 in He. unfold BOOLEAN_NODE_SIZE in *.
  assert (Hx36 : forall i, 0 <= i < size_of p3 -> ~ union O (cells curr 12) i -> rd (image p') i = rd (image p3) i).
  { intros i Hi0 Ho. destruct Fx as [_ Fx], Hx6 as [_ Hx6], Hx' as [_ Hx'].
    rewrite Hx', Hx6, Fx; [done|done|intros Hc; apply Ho; by right|lia| |lia|].
    - intros [Hp Hc]. apply Ho. left. destruct Hlast as [|(_ & _ & HO & _)]; [done|]. by apply HO.
    - intros [_ Hc]. apply Ho. right. unfold cells in *. lia. }
  exists M', ((t, e) :: bs), curr. split; [rewrite Tt; eapply operands_more; [exact He|by rewrite <- Ev6]|].
  split; [lia|]. split; [by apply (inv_close (union O (cells curr 12))); [|by left]|]. split; [|split; [congruence|split; [|split; [done|split; [|split]]]]].
  - split; [lia|]. intros i Hi0 Hn. destruct Hx1 as [_ Hx1], Hx2 as [_ Hx2], Hx3 as [_ Hx3], Fx as [_ Fx], Hx6 as [_ Hx6], Hx' as [_ Hx'].
    rewrite Hx', Hx6, Fx, Hx3, Hx2, Hx1; try done; try lia; try (by intros []); unfold next_cells, cells; lia.
  - rewrite Ea. destruct (Z.eqb_spec bnode 0) as [->|Hb]; [by rewrite (proj2 (Z.eqb_neq _ _)) by lia|].
    by rewrite (proj2 (Z.eqb_neq bnode 0)).
  - intros Hp. rewrite <- (Hlink Hp). destruct Hlast as [|(Hp8 & Hpn & _)]; [done|]. apply ld32_agree. intros i Hi0.
    destruct Hx' as [_ Hx']. apply Hx'; [lia|]. unfold next_cells, cells. lia.
  - right. split; [done|]. unfold BOOLEAN_NODE_SIZE. lia.
  - intros d' n' Hd Hn Hmax' Hz.
    assert (Hnode : forall o, curr <= o -> o + 4 <= curr + 12 -> ld32 d' o = ld32 (image p') o).
    { intros o Ho1 Ho2. apply ld32_agree. intros i Hi0. apply Hd; [lia|]. intros Ho%Hopen. lia. }
    assert (Hkeep : forall o, o = curr \/ o = curr + 8 -> ld32 (image p') o = ld32 (image p5) o).
    { intros o Ho. apply ld32_agree. intros i Hi0. destruct Hx6 as [_ Hx6], Hx' as [_ Hx'].
      rewrite Hx', Hx6; [done|lia| |lia|unfold next_cells, cells; lia].
      intros [Hp Hc]. destruct Hlast as [|(Hp8 & Hpn & _)]; [done|]. unfold cells in Hc. lia. }
    eapply (link_image d' n' curr t val head).
    + rewrite Hnode, Hkeep by lia. apply (Fw (curr, t)). in_list.
    + rewrite Hnode by lia. apply Hnext. lia.
    + rewrite Hnode, Hkeep by lia. apply (Fw (curr + 8, val)). in_list.
    + done.
    + eapply (holds_later _ O _ (image p')); [exact Hhe|exact (Z.le_trans _ _ _ (proj1 Fx) (Z.le_trans _ _ _ (proj1 Hx6) S6))|by left|exact Hx36|exact Hd|done|done|done].
    + eapply (holds_later _ O _ (image p')); [exact Hhc|reflexivity|by left|done|exact Hd|done|done|done].
    + lia.
    + unfold BOOLEAN_NODE_SIZE. lia.
Qed.

Lemma symbol_type s t : (s, t) ∈ symbols -> symbol2node s = t.
Proof.
  intros H. apply symbol_node; [|done].
  assert (Hall : Forall (fun x => x.2 <> VULNSPEC_INVALID_NODE) symbols) by (repeat constructor; done).
  rewrite Forall_forall in Hall. by apply (Hall (s, t)).
Qed.

Lemma node_not_invalid t : is_compar t = true \/ is_boolean t = true -> t <> VULNSPEC_INVALID_NODE.
Proof. by intros [H|H] ->. Qed.

Lemma expr_symbol vt ts rest e : Expr vt ts rest e -> exists s ts', ts = TSymbol s :: ts' /\
  (is_compar (symbol2node s) = true \/ is_boolean (symbol2node s) = true \/ symbol2node s = VULNSPEC_NALPHA_NODE).
Proof.
  intros H. inversion H as [? s t vp ver ? Hs Ht|? s t ts' ? bs Hs Ht Ho Hne|? ts' ? ? He]; subst; eexists _, _; (split; [reflexivity|]).
  - left. by rewrite (symbol_type s t).
  - right. left. by rewrite (symbol_type s t).
  - by right; right.
Qed.

Lemma expr_compar_inv vt s ts rest e : is_compar (symbol2node s) = true -> Expr vt (TSymbol s :: ts) rest e ->
  exists vp ver, ts = TString vp :: TString ver :: TRparen :: rest.
Proof.
  intros Hc H. inversion H as [? s' t vp ver ? Hs Ht|? s' t ts' ? bs Hs Ht Ho Hne|? ts' ? ? He]; subst; [by eexists _, _|..].
  - apply symbol_type in Hs. apply compar_not_boolean in Hc. congruence.
  - done.
Qed.

Lemma expr_boolean_inv vt s ts rest e : is_boolean (symbol2node s) = true -> Expr vt (TSymbol s :: ts) rest e ->
  exists bs, Operands vt (symbol2node s) ts rest bs /\ bs <> [].
Proof.
  intros Hb H. inversion H as [? s' t vp ver ? Hs Ht|? s' t ts' ? bs Hs Ht Ho Hne|? ts' ? ? He]; subst.
  - apply symbol_type in Hs. apply compar_not_boolean in Ht. congruence.
  - apply symbol_type in Hs as <-. by exists bs.
  - done.
Qed.

Lemma nalpha_symbol s : symbol2node s = VULNSPEC_NALPHA_NODE -> s = lit "nalpha".
Proof.
  intros H%symbol_node; [|done]. unfold symbols in H.
  repeat (apply elem_of_cons in H as [H|H]; [first [discriminate H|by injection H]|]). by apply elem_of_nil in H.
Qed.

Lemma expr_nalpha_inv vt s ts rest e : symbol2node s = VULNSPEC_NALPHA_NODE -> Expr vt (TSymbol s :: ts) rest e ->
  exists ts', ts = TLparen :: ts' /\ Expr VULNSPEC_VNALPHA ts' (TRparen :: rest) e.
Proof.
  intros Hn H. inversion H as [? s' t vp ver ? Hs Ht|? s' t ts' ? bs Hs Ht Ho Hne|? ts' ? ? He]; subst; [..|by eexists].
  - apply symbol_type in Hs. rewrite Hn in Hs. by rewrite <- Hs in Ht.
  - apply symbol_type in Hs. rewrite Hn in Hs. by rewrite <- Hs in Ht.
Qed.

Lemma set_vtype_inv O M p t : inv O M p -> inv O M (set_vtype p t).
Proof. intros []. by split. Qed.

Section Turn.
Context (fuel : nat).
Context (IHe : forall O M p, inv O M p -> vt_ok p -> (length (text p) < fuel)%nat ->
  runs (vulnexpr alloc_ok fuel) p (expr_good O p) (forall rest e, ~ Expr (p_vtype p) (toks p) rest e)).
Context (IHc : forall O M p t bnode prev, inv O M p -> vt_ok p -> (length (text p) < fuel)%nat -> is_boolean t = true ->
  last_node O BOOLEAN_NODE_SIZE p prev -> (bnode = 0 <-> prev = 0) ->
  runs (boolean alloc_ok fuel t bnode prev) p (chain_good O t bnode prev p)
    (forall rest bs, Operands (p_vtype p) t (toks p) rest bs -> bnode = 0 /\ bs = [])).

Lemma runs_nalpha O M p s p1 : inv O M p -> symbol2node s = VULNSPEC_NALPHA_NODE -> took (TSymbol s) p p1 -> inv O M p1 -> ext nowhere p p1 ->
  p_vtype p1 = p_vtype p -> (length (text p) < S fuel)%nat -> vt_ok p ->
  runs (cbind (expect alloc_ok VULNSPEC_TLPAREN) (fun _ => cbind (vulnexpr alloc_ok fuel) (fun val =>
    cbind (expect alloc_ok VULNSPEC_TRPAREN) (fun _ => fun q => done_with val (set_vtype q (p_vtype p1)))))) (set_vtype p1 VULNSPEC_VNALPHA)
    (expr_good O p) (forall rest e, ~ Expr (p_vtype p) (toks p) rest e).
Proof.
  intros Hi Hs [Tt Tl _ _ _] Hi1 Hx1 Ev1 Hf Hvt. set (q1 := set_vtype p1 VULNSPEC_VNALPHA).
  eapply runs_bind; [apply (runs_expect alloc_ok Halloc O M q1 VULNSPEC_TLPAREN); [by apply set_vtype_inv|done|done]| |].
  { intros Hb rest e He. rewrite Tt in He. apply expr_nalpha_inv in He as (ts & E & _); [|done]. by apply Hb in E. }
  intros _ q2 (Hi2 & Hx2 & Ev2 & tk & Ek & [T2 L2 _ _ _]). destruct tk; try done. change (toks q1) with (toks p1) in T2. change (text q1) with (text p1) in L2.
  eapply runs_bind; [apply (IHe O M q2 Hi2); [by right|lia]| |].
  { intros Hb rest e He. rewrite Tt, T2 in He. apply expr_nalpha_inv in He as (ts & [= <-] & He); [|done]. rewrite Ev2 in Hb. by apply Hb in He. }
  intros val q3 (M3 & e & He & L3 & Hi3 & Hx3 & Ev3 & Rv & Hh). rewrite Ev2 in He. change (p_vtype q1) with VULNSPEC_VNALPHA in He.
  eapply runs_bind; [by apply (runs_expect alloc_ok Halloc O M3 q3 VULNSPEC_TRPAREN)| |].
  { intros Hb rest e' He'. rewrite Tt, T2 in He'. apply expr_nalpha_inv in He' as (ts & [= <-] & He'); [|done].
    destruct (expr_fun _ _ _ _ _ _ He He') as [E _]. by apply Hb in E. }
  intros _ q4 (Hi4 & Hx4 & Ev4 & tk & Ek' & [T4 L4 _ _ _]). destruct tk; try done. rewrite T4 in He.
  apply runs_done. exists M3, e. change (toks (set_vtype q4 (p_vtype p1))) with (toks q4). change (text (set_vtype q4 (p_vtype p1))) with (text q4).
  split; [rewrite Tt, T2, (nalpha_symbol s Hs); by apply expr_nalpha|]. split; [lia|]. split; [by apply set_vtype_inv|].
  split; [exact (ext_trans _ _ _ _ Hx1 (ext_trans nowhere p1 q2 (set_vtype q4 (p_vtype p1)) Hx2 (ext_trans nowhere q2 q3 (set_vtype q4 (p_vtype p1)) Hx3 Hx4)))|].
  split; [exact Ev1|]. split; [done|]. eapply (holds_later O O _ (image q4)); [exact Hh|apply Hx4|done|].
  intros i Hi0 _. apply Hx4; [done|by intros []].
Qed.

Lemma runs_vulnexpr_step O M p : inv O M p -> vt_ok p -> (length (text p) < S fuel)%nat ->
  runs (vulnexpr alloc_ok (S fuel)) p (expr_good O p) (forall rest e, ~ Expr (p_vtype p) (toks p) rest e).
Proof.
  intros Hi Hvt Hf. cbn [vulnexpr]. eapply runs_bind; [apply (runs_read_symbol alloc_ok Halloc O M p Hi)| |].
  { intros Hb rest e He. destruct (expr_symbol _ _ _ _ He) as (s & ts & E & _). by apply Hb in E. }
  intros t p1 (s & -> & Htk & Hi1 & Hx1 & Ev1). pose proof Htk as [Tt Tl _ _ _].
  assert (Hvt1 : vt_ok p1) by (unfold vt_ok; by rewrite Ev1).
  destruct (is_compar (symbol2node s)) eqn:Ec.
  { eapply runs_mono; [by apply (runs_compar O M p1)| |].
    - intros off p' (vp & ver & M' & T' & L' & Hi' & Hx' & Ev' & Ro & Hh). exists M', (Compar (symbol2node s) vp (version_of (p_vtype p) ver)).
      split; [rewrite Tt, T'; apply expr_compar; [|done]; apply symbol_node; [apply node_not_invalid; by left|done]|].
      split; [lia|]. split; [done|]. split; [by eapply ext_trans|]. split; [congruence|]. split; [done|]. by rewrite <- Ev1.
    - intros Hb rest e He. rewrite Tt in He. apply expr_compar_inv in He as (vp & ver & E); [|done]. by apply Hb in E. }
  destruct (is_boolean (symbol2node s)) eqn:Eb.
  { eapply runs_mono; [apply (IHc O M p1 (symbol2node s) 0 0); [done|done|lia|done|by left|done]| |].
    - intros off p' (M' & bs & head & Ho & L' & Hi' & Hx' & Ev' & Ea & Hne & _ & Hhead & Hh). cbn in Ea. subst off. specialize (Hne eq_refl).
      destruct Hhead as [[? _]|(_ & Hr & Hsz)]; [done|]. unfold BOOLEAN_NODE_SIZE in Hsz. pose proof (inv_head _ _ _ Hi1).
      exists M', (Boolean bs). rewrite Ev1 in Ho.
      split; [rewrite Tt; apply (expr_boolean _ _ (symbol2node s)); try done; apply symbol_node; [apply node_not_invalid; by right|done]|].
      split; [lia|]. split; [done|]. split; [eapply ext_trans; [done|]; eapply ext_weaken; [exact Hx'|by intros i [? _]]|]. split; [congruence|]. split; [lia|].
      intros d' n' Hd Hn Hmax Hz. apply (chain_expr head bs); [by apply Hh|done|lia|lia].
    - intros Hb rest e He. rewrite Tt in He. apply expr_boolean_inv in He as (bs & Ho & Hne); [|done]. rewrite <- Ev1 in Ho. by apply Hb in Ho as [_ ->]. }
  destruct (Z.eqb_spec (symbol2node s) VULNSPEC_NALPHA_NODE) as [Hn|Hn].
  { by apply (runs_nalpha O M p s p1). }
  apply runs_unexpected. intros rest e He. destruct (expr_symbol _ _ _ _ He) as (s' & ts & E & Hs). rewrite Tt in E. injection E as <- _.
  destruct Hs as [?|[?|?]]; congruence.
Qed.

Lemma boolean_step nodet bnode prev : boolean alloc_ok (S fuel) nodet bnode prev =
  cbind (read_token alloc_ok) (fun tok =>
    if decide (tok = VULNSPEC_TLPAREN) then
      cbind (progn_alloc alloc_ok BOOLEAN_NODE_SIZE) (fun curr =>
      cbind (vulnexpr alloc_ok fuel) (fun val =>
      cbind (st32 curr nodet) (fun _ =>
      cbind (st32 (curr + 8) val) (fun _ =>
      cbind (if negb (prev =? 0) then st32 (prev + 4) curr else done_with tt) (fun _ =>
      boolean alloc_ok fuel nodet (if bnode =? 0 then curr else bnode) curr)))))
    else if decide (tok = VULNSPEC_TRPAREN) then
      if bnode =? 0 then bail_out VULNSPEC_EUNEXPECTED_TOKEN else done_with bnode
    else bail_out VULNSPEC_EUNEXPECTED_TOKEN).
Proof. reflexivity. Qed.

(** the end of the operands *)
Lemma runs_boolean_end O M p p1 t bnode prev : inv O M p1 -> last_node O BOOLEAN_NODE_SIZE p prev -> (bnode = 0 <-> prev = 0) ->
  ext nowhere p p1 -> p_vtype p1 = p_vtype p -> took TRparen p p1 ->
  runs (if bnode =? 0 then bail_out VULNSPEC_EUNEXPECTED_TOKEN else done_with bnode) p1 (chain_good O t bnode prev p)
    (forall rest bs, Operands (p_vtype p) t (toks p) rest bs -> bnode = 0 /\ bs = []).
Proof.
  intros Hi1 Hlast Hbp Hx1 Ev1 [Tt Tl _ _ _]. destruct (Z.eqb_spec bnode 0) as [Eb|Hb].
  - apply runs_unexpected. intros rest bs Ho. split; [done|]. rewrite Tt in Ho. by inversion Ho.
  - apply runs_done. exists M, [], 0. split; [rewrite Tt; apply operands_end|]. split; [done|]. split; [done|].
    split; [eapply ext_weaken; [exact Hx1|by intros i []]|]. split; [done|]. split; [by rewrite (proj2 (Z.eqb_neq _ _))|]. split; [done|].
    split; [|split; [by left|intros d' n' _ _ _ _; apply chain_end]].
    intros Hp. destruct Hlast as [|(Hp8 & Hpn & _ & Hz)]; [done|]. unfold BOOLEAN_NODE_SIZE in Hpn. rewrite <- Hz. apply ld32_agree. intros i Hi.
    apply Hx1; [lia|by intros []].
Qed.

Lemma runs_boolean_step O M p t bnode prev : inv O M p -> vt_ok p -> (length (text p) < S fuel)%nat -> is_boolean t = true ->
  last_node O BOOLEAN_NODE_SIZE p prev -> (bnode = 0 <-> prev = 0) ->
  runs (boolean alloc_ok (S fuel) t bnode prev) p (chain_good O t bnode prev p)
    (forall rest bs, Operands (p_vtype p) t (toks p) rest bs -> bnode = 0 /\ bs = []).
Proof.
  intros Hi Hvt Hf Ht Hlast Hbp. rewrite boolean_step. pose proof (inv_head _ _ _ Hi) as H8.
  eapply runs_bind; [by apply (runs_read_token alloc_ok Halloc O M p)|done|]. intros k p1 (Hi1 & Hx1 & Ev1 & Hk).
  destruct (decide (k = VULNSPEC_TLPAREN)) as [->|Hnl].
  2: { destruct (decide (k = VULNSPEC_TRPAREN)) as [->|Hnr].
    - destruct Hk as [[? _]|[[? _]|(tk & Ek & _ & _ & Htk)]]; try done. destruct tk; try done. by apply (runs_boolean_end O M p p1).
    - apply runs_unexpected. intros rest bs Ho. exfalso.
      destruct Hk as [[_ E]|[[_ E]|(tk & Ek & _ & _ & Htk)]]; [rewrite E in Ho; inversion Ho..|].
      rewrite (took_toks _ _ _ Htk) in Ho. inversion Ho; subst; done. }
  destruct Hk as [[? _]|[[? _]|(tk & Ek & _ & _ & Htk)]]; try done. destruct tk; try done. pose proof Htk as [Tt Tl _ _ _].
  eapply runs_bind; [apply (runs_alloc alloc_ok Halloc O M p1 BOOLEAN_NODE_SIZE Hi1); by unfold BOOLEAN_NODE_SIZE|done|].
  intros curr p2 (Ecurr & Hmax & Hi2 & Hx2 & Hend & _ & Ev2 & Er2 & _ & Hz2). set (O2 := union O (cells curr BOOLEAN_NODE_SIZE)) in *.
  pose proof (proj1 Hx1) as S1. pose proof (proj1 Hx2) as S2. unfold UINT32_MAX in Hmax.
  assert (Hvt2 : vt_ok p2) by (unfold vt_ok; by rewrite Ev2, Ev1).
  eapply runs_bind; [apply (IHe O2 M p2 Hi2 Hvt2); rewrite Er2; lia| |].
  { intros Hb rest bs Ho. exfalso. rewrite Tt in Ho. inversion Ho as [|? ? ? ? ? ? ? He _]; subst.
    rewrite Ev2, Ev1, Er2 in Hb. by apply Hb in He. }
  intros val p3 (M3 & e & He & L3 & Hi3 & Hx3 & Ev3 & Rv & Hh3). rewrite Er2 in L3. pose proof (proj1 Hx3) as S3. unfold UINT32_MAX in Rv.
  pose proof (filled_nil curr BOOLEAN_NODE_SIZE p3) as Hf3. assert (HO2 : forall i, cells curr BOOLEAN_NODE_SIZE i -> O2 i) by (by right).
  pose proof (node_range t (or_intror Ht)) as Rt.
  word curr; [done|done|]. intros p4 Hi4 Hf4 Hs4. word curr; [done|lia|]. intros p5 Hi5 Hf5 Hs5.
  pose proof Hf5 as [Fx Fs Fv Fr Fw Fo].
  assert (Hlast5 : last_node O2 BOOLEAN_NODE_SIZE p5 prev).
  { destruct Hlast as [|(Hp8 & Hpn & HO & Hz)]; [by left|right]. split; [done|]. split; [lia|]. split; [intros i Hc; left; by apply HO|].
    rewrite <- Hz. apply ld32_agree. unfold BOOLEAN_NODE_SIZE in *. intros i Hi0. destruct Fx as [_ Fx], Hx1 as [_ Hx1], Hx2 as [_ Hx2], Hx3 as [_ Hx3].
    rewrite Fx, Hx3, Hx2, Hx1; try done; try lia; try (by intros []). unfold cells. lia. }
  eapply runs_bind; [apply (runs_link O2 M3 p5 BOOLEAN_NODE_SIZE prev curr Hi5 Hlast5); [done|lia]|done|].
  intros _ p6 (Hi6 & Hx6 & Hs6 & Ev6 & Er6 & Hlink). pose proof Hx6 as [_ Hx6'].
  assert (Hlast6 : last_node O2 BOOLEAN_NODE_SIZE p6 curr).
  { right. unfold BOOLEAN_NODE_SIZE in *. split; [lia|]. split; [lia|]. split; [|transitivity (ld32 (image p5) (curr + 4))].
    - intros i Hi0. apply HO2. unfold cells in *. lia.
    - apply ld32_agree. intros i Hi0. apply Hx6'; [lia|]. intros [Hp Hc]. destruct Hlast as [|(Hp8 & Hpn & _)]; [done|]. unfold cells in Hc. lia.
    - rewrite (Fo (curr + 4)); [|lia|lia|repeat constructor; simpl; lia]. apply ld32_zero. intros i Hi0. destruct Hx3 as [_ Hx3].
      rewrite Hx3; [apply Hz2; unfold cells; lia|lia|by intros []]. }
  assert (E63 : p_r p6 = p_r p3) by congruence. assert (Hvt6 : vt_ok p6) by (unfold vt_ok; by rewrite Ev6, Fv, Ev3, Ev2, Ev1).
  eapply runs_mono; [apply (IHc O2 M3 p6 t (if bnode =? 0 then curr else bnode) curr Hi6 Hvt6); [rewrite E63; lia|done|done|]| |].
  - destruct (Z.eqb_spec bnode 0); lia.
  - intros a p' Hgood. eapply (chain_step O M M3 t bnode prev p p1 p2 p3 p5 p6 p' curr val e a); try done; congruence.
  - intros Hb rest bs Ho. exfalso. rewrite Tt in Ho. inversion Ho as [|? ? ? ts' ? e' bs' He' Ho']; subst.
    rewrite <- Er2, <- Ev1, <- Ev2 in He'. destruct (expr_fun _ _ _ _ _ _ He He') as [Ets _].
    rewrite <- Ets in Ho'. rewrite Ev6, Fv, Ev3, Ev2, Ev1, E63 in Hb. apply Hb in Ho' as [Hc _]. destruct (Z.eqb_spec bnode 0); lia.
Qed.

End Turn.

Lemma runs_exprs fuel :
  (forall O M p, inv O M p -> vt_ok p -> (length (text p) < fuel)%nat ->
    runs (vulnexpr alloc_ok fuel) p (expr_good O p) (forall rest e, ~ Expr (p_vtype p) (toks p) rest e)) /\
  (forall O M p t bnode prev, inv O M p -> vt_ok p -> (length (text p) < fuel)%nat -> is_boolean t = true ->
    last_node O BOOLEAN_NODE_SIZE p prev -> (bnode = 0 <-> prev = 0) ->
    runs (boolean alloc_ok fuel t bnode prev) p (chain_good O t bnode prev p)
      (forall rest bs, Operands (p_vtype p) t (toks p) rest bs -> bnode = 0 /\ bs = [])).
Proof.
  induction fuel as [|fuel [IHe IHc]]; [split; intros; lia|]. split; intros.
  - by eapply runs_vulnexpr_step.
  - by eapply runs_boolean_step.
Qed.

(** ** CVEs *)

(** a node of [n] bytes at [off] that holds the words [ws], while the image grows *)
Record building (off n : Z) (ws : list (Z * Z)) (p0 p : vulnspec_parser) : Prop := Building {
  bd_ext : ext (cells off n) p0 p;
  bd_room : 0 <= off /\ off + n <= size_of p;
  bd_vtype : p_vtype p = p_vtype p0;
  bd_words : Forall (fun w => off <= w.1 /\ w.1 + 4 <= off + n /\ ld32 (image p) w.1 = Ret w.2) ws;
}.

Lemma building_later off n ws p0 p p' : building off n ws p0 p -> ext nowhere p p' -> p_vtype p' = p_vtype p -> building off n ws p0 p'.
Proof.
  intros [Hx [H0 Hr] Hv Hw] Hx' Hv'. pose proof (proj1 Hx'). split; [|lia|congruence|].
  - eapply ext_trans; [exact Hx|]. eapply ext_weaken; [exact Hx'|by intros i []].
  - eapply Forall_impl; [exact Hw|]. intros w (H1 & H2 & E). split; [done|]. split; [done|]. rewrite <- E. apply ld32_agree.
    intros i Hi. apply Hx'; [lia|by intros []].
Qed.

Lemma runs_build {A} O M off n ws p0 p o v (f : unit -> vulnspec_parser -> outcome (vulnspec_parser * (Z + A))) Good Bad :
  inv O M p -> building off n ws p0 p -> (forall i, cells off n i -> O i) ->
  off <= o -> o + 4 <= off + n -> 0 <= v < 2 ^ 32 -> Forall (fun w => o + 4 <= w.1 \/ w.1 + 4 <= o) ws ->
  (forall p', inv O M p' -> building off n ((o, v) :: ws) p0 p' -> ext (cells off n) p p' -> size_of p' = size_of p -> p_vtype p' = p_vtype p -> p_r p' = p_r p -> runs (f tt) p' Good Bad) ->
  runs (cbind (st32 o v) f) p Good Bad.
Proof.
  intros Hi [Bx [B0 Br] Bv Bw] HO Ho1 Ho2 Hv Hd Hf.
  eapply runs_bind; [apply (runs_st32 O M p o v Hi); [lia|lia|]|done|].
  { intros i Hc. apply HO. unfold cells in *. lia. }
  intros [] p' (Hi' & Hw). pose proof Hw as [Ww Wx Ws Wv Wr].
  assert (Hx : ext (cells off n) p p') by (eapply ext_weaken; [exact Wx|unfold cells; lia]).
  apply Hf; [done| |done|done|done|done]. split; [by eapply ext_trans|lia|congruence|]. constructor; [split; [done|split; [done|by apply Ww]]|].
  apply Forall_forall. intros w Hin. rewrite Forall_forall in Bw, Hd. destruct (Bw w Hin) as (H1 & H2 & E). pose proof (Hd w Hin).
  split; [done|]. split; [done|]. rewrite <- E. apply (wrote_other o v p p'); [done|lia|lia|lia].
Qed.

Lemma building_word off n ws p0 p o v : building off n ws p0 p -> (o, v) ∈ ws -> ld32 (image p) o = Ret v.
Proof. intros [_ _ _ Hw] Hin. rewrite Forall_forall in Hw. apply (Hw (o, v) Hin). Qed.

Lemma hundredths_range d : 0 <= hundredths odd_u32 d < 2 ^ 32.
Proof.
  unfold hundredths, u32_of_double. pose proof (Hodd (SFmul 53 1024 d (double_of_Z 100))).
  repeat case_match; zbool; unfold UINT32_MAX in *; lia.
Qed.

(** a score is read and stored *)
Lemma runs_score {A} O M off n ws p0 p o (f : unit -> vulnspec_parser -> outcome (vulnspec_parser * (Z + A))) Good (Bad : Prop) :
  inv O M p -> building off n ws p0 p -> (forall i, cells off n i -> O i) ->
  off <= o -> o + 4 <= off + n -> Forall (fun w => o + 4 <= w.1 \/ w.1 + 4 <= o) ws ->
  ((forall d rest, toks p <> TDouble d :: rest) -> Bad) ->
  (forall d p', inv O M p' -> building off n ((o, hundredths odd_u32 d) :: ws) p0 p' -> ext (cells off n) p p' -> toks p = TDouble d :: toks p' ->
    (length (text p') < length (text p))%nat -> runs (f tt) p' Good Bad) ->
  runs (cbind (read_score alloc_ok odd_u32 o) f) p Good Bad.
Proof.
  intros Hi Hb HO Ho1 Ho2 Hd HB Hf. unfold read_score. apply runs_assoc.
  eapply runs_bind; [by apply (runs_expect alloc_ok Halloc O M p VULNSPEC_TDOUBLE)| |].
  { intros Hbad. apply HB. intros d rest E. by apply Hbad in E. }
  intros _ p1 (Hi1 & Hx1 & Ev1 & t & Ek & [Tt Tl Tp _ _]). destruct t as [| | | | | |d|]; try done.
  eapply runs_eq_bind; [unfold vulnspec_reader_double; simpl in Tp; rewrite Tp; cbn [mbind outcome_mbind]; reflexivity|].
  pose proof (building_later _ _ _ _ _ _ Hb Hx1 Ev1) as Hb1.
  eapply (runs_build O M off n); [done|exact Hb1|done|done|done|apply hundredths_range|done|].
  intros p2 Hi2 Hb2 Hx2 Hs2 Hv2 Hr2. apply (Hf d p2); [done|done| |by rewrite Hr2|by rewrite Hr2].
  eapply ext_trans; [|exact Hx2]. eapply ext_weaken; [exact Hx1|by intros i []].
Qed.

(** the members of a node but its successor *)
Record cve_fields (off : Z) (s : source) (d : bytes) (n : Z) : Prop := CveFields {
  cf_type : ld32 d off = Ret VULNSPEC_CVE_NODE;
  cf_cvss2 : ld32 d (off + 8) = Ret (src_cvss2 s);
  cf_cvss3 : ld32 d (off + 12) = Ret (src_cvss3 s);
  cf_id : exists c, ld_cvalue d (off + 16) = Ret c /\ cvalue_of c (src_id s) d n;
  cf_description : exists c, ld_cvalue d (off + 24) = Ret c /\ cvalue_of c (src_description s) d n;
  cf_expr : exists v, ld32 d (off + 32) = Ret v /\ expr_image v (src_expr s) d n;
}.

Lemma cve_link_image d n off s next srcs : cve_fields off s d n -> ld32 d (off + 4) = Ret next -> cves_image next srcs d n ->
  8 <= off -> off + CVE_NODE_SIZE <= n -> cves_image off (s :: srcs) d n.
Proof.
  intros [Et E2 E3 (ci & Ei & Hsi & Hvi) (cd & Ed & Hsd & Hvd) (v & Ev & Hre & k1 & Hk1)] En [(cs & Hcs & Hsrc) (k2 & Hk2)] Ho Hn.
  unfold CVE_NODE_SIZE in *.
  assert (Enode : ld_cve d off = Ret (CveNode VULNSPEC_CVE_NODE next (src_cvss2 s) (src_cvss3 s) ci cd v)).
  { unfold ld_cve. by rewrite Et, En, E2, E3, Ei, Ed, Ev. }
  split.
  - eexists. split; [eapply (rep_cve d off _ (src_id s) (src_description s) (src_expr s) cs); [lia|exact Enode|done..]|].
    cbn [fmap list_fmap]. rewrite Hsrc. by destruct s.
  - exists (S (Nat.max k1 k2)). intros base [|fuel] Hb Hbn Hf; [lia|]. cbn [vcve]. rewrite (proj2 (Z.ltb_lt 0 off)) by lia.
    unfold CVE_NODE_SIZE. rewrite check_passes by lia. rewrite Enode. cbn [lift jbind mbind outcome_mbind ret c_type c_id c_description c_vulnexpr c_next].
    change (negb (VULNSPEC_CVE_NODE =? VULNSPEC_CVE_NODE)) with false. cbv iota. rewrite Hvi, Hvd by done. cbn [jbind mbind outcome_mbind ret].
    rewrite Hk1 by lia. cbn [jbind mbind outcome_mbind ret]. apply Hk2; lia.
Qed.

Definition cve_good (O : Z -> Prop) (p : vulnspec_parser) (off : Z) (p' : vulnspec_parser) : Prop :=
  exists M' s d2 d3 ts, toks p = TString (src_id s) :: TDouble d2 :: TDouble d3 :: TString (src_description s) :: TLparen :: ts /\
    src_cvss2 s = hundredths odd_u32 d2 /\ src_cvss3 s = hundredths odd_u32 d3 /\ Expr (p_vtype p) ts (toks p') (src_expr s) /\
    (length (text p') < length (text p))%nat /\ inv (union O (cells (off + 4) 4)) M' p' /\ ext nowhere p p' /\ p_vtype p' = p_vtype p /\
    off = size_of p /\ off <= UINT32_MAX /\ off + CVE_NODE_SIZE <= size_of p' /\ ld32 (image p') (off + 4) = Ret 0 /\
    holds (union O (cells (off + 4) 4)) (image p') (size_of p') (cve_fields off s).

Lemma ext_into C p q : ext nowhere p q -> ext C p q.
Proof. intros H. eapply ext_weaken; [exact H|by intros i []]. Qed.

(** the node is complete but for its successor *)
Lemma cve_done O off ws p0 q pid pde pex id desc d2 d3 ido deo v e :
  let O1 := union O (cells off CVE_NODE_SIZE) in let C := cells off CVE_NODE_SIZE in
  (forall i, O i -> i < off) -> 0 <= off ->
  building off CVE_NODE_SIZE ws p0 q ->
  ws = [(off + 32, v); (off + 24 + 4, deo); (off + 24, u32 (zlen desc + 1)); (off, VULNSPEC_CVE_NODE); (off + 12, hundredths odd_u32 d3); (off + 8, hundredths odd_u32 d2);
    (off + 16 + 4, ido); (off + 16, u32 (zlen id + 1)); (off + 4, 0)] ->
  string_at O1 (image pid) (size_of pid) id ido -> ext C pid q ->
  string_at O1 (image pde) (size_of pde) desc deo -> ext C pde q ->
  holds O1 (image pex) (size_of pex) (expr_image v e) -> ext C pex q ->
  holds (union O (cells (off + 4) 4)) (image q) (size_of q) (cve_fields off (Source id (hundredths odd_u32 d2) (hundredths odd_u32 d3) desc e)).
Proof.
  intros O1 C HO H0 Hb Ews Hid Xid Hde Xde Hex Xex d' n' Hd Hn Hmax Hz. pose proof (bd_room _ _ _ _ _ Hb) as [_ Hroom]. unfold CVE_NODE_SIZE in *.
  assert (Hw : forall o w, (o, w) ∈ ws -> o + 4 <= off + 4 \/ off + 8 <= o -> off <= o -> o + 4 <= off + 36 -> ld32 d' o = Ret w).
  { intros o w Hin Ho1 Ho2 Ho3. rewrite <- (building_word _ _ _ _ _ _ _ Hb Hin). apply ld32_agree. intros i Hi. apply Hd; [lia|].
    intros [Hc|Hc]; [apply HO in Hc; lia|unfold cells in Hc; lia]. }
  assert (Hagree : forall r, ext C r q -> forall i, 0 <= i < size_of r -> ~ O1 i -> rd d' i = rd (image r) i).
  { intros r [X1 X2] i Hi Ho. rewrite Hd; [apply X2; [done|intros Hc; apply Ho; by right]|lia|].
    intros [Hc|Hc]; apply Ho; [by left|right; unfold cells in *; lia]. }
  assert (Hsz : forall r, ext C r q -> size_of r <= n') by (intros r [X1 _]; lia).
  split; cbn [src_id src_cvss2 src_cvss3 src_description src_expr].
  - apply Hw; [rewrite Ews; in_list|lia..].
  - apply Hw; [rewrite Ews; in_list|lia..].
  - apply Hw; [rewrite Ews; in_list|lia..].
  - exists (u32 (zlen id + 1), ido). split; [unfold ld_cvalue; rewrite !(Hw (off + 16) (u32 (zlen id + 1))), (Hw (off + 16 + 4) ido); done || lia || (rewrite Ews; in_list)|].
    eapply string_cvalue; [exact Hid|by apply Hagree|by apply Hsz|done|done].
  - exists (u32 (zlen desc + 1), deo). split; [unfold ld_cvalue; rewrite !(Hw (off + 24) (u32 (zlen desc + 1))), (Hw (off + 24 + 4) deo); done || lia || (rewrite Ews; in_list)|].
    eapply string_cvalue; [exact Hde|by apply Hagree|by apply Hsz|done|done].
  - exists v. split; [apply Hw; [rewrite Ews; in_list|lia..]|]. apply Hex; [by apply Hagree|by apply Hsz|done|done].
Qed.

Ltac build off ws :=
  eapply (runs_build _ _ off CVE_NODE_SIZE ws); [eassumption|eassumption|eassumption|unfold CVE_NODE_SIZE; lia|unfold CVE_NODE_SIZE; lia|
    |repeat constructor; simpl; lia|].

Lemma runs_cve fuel O M p : inv O M p -> vt_ok p -> (length (text p) < fuel)%nat ->
  runs (VulnParser.cve alloc_ok odd_u32 fuel) p (cve_good O p)
    (forall id d2 d3 desc ts rest e, toks p = TString id :: TDouble d2 :: TDouble d3 :: TString desc :: TLparen :: ts -> ~ Expr (p_vtype p) ts rest e).
Proof.
  intros Hi Hvt Hf. unfold VulnParser.cve. pose proof (inv_head _ _ _ Hi) as H8. pose proof (inv_open _ _ _ Hi) as Hopen.
  eapply runs_bind; [apply (runs_alloc alloc_ok Halloc O M p CVE_NODE_SIZE Hi); by unfold CVE_NODE_SIZE|done|].
  intros off p1 (Eoff & Hmax & Hi1 & Hx1 & Hend & _ & Ev1 & Er1 & _ & Hz1). set (O1 := union O (cells off CVE_NODE_SIZE)) in *.
  set (C := cells off CVE_NODE_SIZE). assert (HO1 : forall i, C i -> O1 i) by (by right).
  assert (Hb1 : building off CVE_NODE_SIZE [(off + 4, 0)] p1 p1).
  { split; [apply ext_refl|lia|done|]. repeat constructor; unfold CVE_NODE_SIZE in *; simpl; [lia|lia|].
    apply ld32_zero. intros i Hi0. apply Hz1. unfold cells. lia. }
  eapply runs_bind; [apply (runs_loads alloc_ok Halloc O1 M p1 Hi1)| |].
  { rewrite Er1. intros Hb id d2 d3 desc ts rest e E. by apply Hb in E. }
  intros c p2 (id & M2 & T2 & L2 & Hi2 & X2 & Ev2 & (ido & -> & Hid)). rewrite Er1 in T2, L2.
  pose proof (building_later _ _ _ _ _ _ Hb1 X2 Ev2) as Hb2. pose proof (sa_off _ _ _ _ _ Hid) as Rid. unfold UINT32_MAX in Rid.
  apply runs_assoc. build off [(off + 4, 0)]; [by apply (uw_range 32)|]. intros p3 Hi3 Hb3 X3 S3 V3 R3. cbn [fst snd] in *.
  build off [(off + 16, u32 (zlen id + 1)); (off + 4, 0)]; [lia|]. intros p4 Hi4 Hb4 X4 S4 V4 R4.
  eapply (runs_score O1 M2 off CVE_NODE_SIZE); [done|exact Hb4|done|unfold CVE_NODE_SIZE; lia|unfold CVE_NODE_SIZE; lia|repeat constructor; simpl; lia| |].
  { rewrite R4, R3. intros Hb id' d2 d3 desc ts rest e E. rewrite E in T2. injection T2 as _ T2. by symmetry in T2; apply Hb in T2. }
  intros d2 p5 Hi5 Hb5 X5 T5 L5. rewrite R4, R3 in T5, L5.
  eapply (runs_score O1 M2 off CVE_NODE_SIZE); [done|exact Hb5|done|unfold CVE_NODE_SIZE; lia|unfold CVE_NODE_SIZE; lia|repeat constructor; simpl; lia| |].
  { intros Hb id' d2' d3 desc ts rest e E. rewrite E, T5 in T2. injection T2 as _ _ T2. by symmetry in T2; apply Hb in T2. }
  intros d3 p6 Hi6 Hb6 X6 T6 L6.
  eapply (runs_build O1 M2 off CVE_NODE_SIZE); [done|exact Hb6|done|unfold CVE_NODE_SIZE; lia|unfold CVE_NODE_SIZE; lia|done|repeat constructor; simpl; lia|].
  intros p7 Hi7 Hb7 X7 S7 V7 R7.
  eapply runs_bind; [apply (runs_loads alloc_ok Halloc O1 M2 p7 Hi7)| |].
  { rewrite R7. intros Hb id' d2' d3' desc ts rest e E. rewrite E, T5, T6 in T2. injection T2 as _ _ _ T2. by symmetry in T2; apply Hb in T2. }
  intros c p8 (desc & M8 & T8 & L8 & Hi8 & X8 & Ev8 & (deo & -> & Hde)). rewrite R7 in T8, L8.
  pose proof (building_later _ _ _ _ _ _ Hb7 X8 Ev8) as Hb8. pose proof (sa_off _ _ _ _ _ Hde) as Rde. unfold UINT32_MAX in Rde.
  apply runs_assoc. eapply (runs_build O1 M8 off CVE_NODE_SIZE); [done|exact Hb8|done|unfold CVE_NODE_SIZE; lia|unfold CVE_NODE_SIZE; lia|by apply (uw_range 32)|repeat constructor; simpl; lia|].
  intros p9 Hi9 Hb9 X9 S9 V9 R9. cbn [fst snd] in *.
  eapply (runs_build O1 M8 off CVE_NODE_SIZE); [done|exact Hb9|done|unfold CVE_NODE_SIZE; lia|unfold CVE_NODE_SIZE; lia|lia|repeat constructor; simpl; lia|].
  intros p10 Hi10 Hb10 X10 S10 V10 R10.
  eapply runs_bind; [by apply (runs_expect alloc_ok Halloc O1 M8 p10 VULNSPEC_TLPAREN)| |].
  { rewrite R10, R9. intros Hb id' d2' d3' desc' ts rest e E. rewrite E, T5, T6, T8 in T2. injection T2 as _ _ _ _ T2. by symmetry in T2; apply Hb in T2. }
  intros _ p11 (Hi11 & X11 & Ev11 & tk & Ek & [T11 L11 _ _ _]). destruct tk; try done. rewrite R10, R9 in T11, L11.
  pose proof (bd_vtype _ _ _ _ _ Hb10) as Ev10.
  eapply runs_bind; [apply (proj1 (runs_exprs fuel) O1 M8 p11 Hi11); [unfold vt_ok; by rewrite Ev11, Ev10, Ev1|lia]| |].
  { intros Hb id' d2' d3' desc' ts rest e E. rewrite E, T5, T6, T8, T11 in T2. injection T2 as _ _ _ _ ->. rewrite Ev11, Ev10, Ev1 in Hb. apply Hb. }
  intros v p12 (M12 & e & He & L12 & Hi12 & X12 & Ev12 & Rv & Hhe). unfold UINT32_MAX in Rv.
  pose proof (building_later _ _ _ _ _ _ (building_later _ _ _ _ _ _ Hb10 X11 Ev11) X12 Ev12) as Hb12.
  eapply (runs_build O1 M12 off CVE_NODE_SIZE); [done|exact Hb12|done|unfold CVE_NODE_SIZE; lia|unfold CVE_NODE_SIZE; lia|lia|repeat constructor; simpl; lia|].
  intros p13 Hi13 Hb13 X13 S13 V13 R13. apply runs_done.
  assert (Y8 : ext C p8 p13) by exact (ext_trans _ _ _ _ X9 (ext_trans _ _ _ _ X10 (ext_trans _ _ _ _ (ext_into C _ _ X11) (ext_trans _ _ _ _ (ext_into C _ _ X12) X13)))).
  assert (Y2 : ext C p2 p13) by exact (ext_trans _ _ _ _ X3 (ext_trans _ _ _ _ X4 (ext_trans _ _ _ _ X5 (ext_trans _ _ _ _ X6 (ext_trans _ _ _ _ X7 (ext_trans _ _ _ _ (ext_into C _ _ X8) Y8)))))).
  exists M12, (Source id (hundredths odd_u32 d2) (hundredths odd_u32 d3) desc e), d2, d3, (toks p11). cbn [src_id src_cvss2 src_cvss3 src_description src_expr].
  split; [by rewrite T2, T5, T6, T8, T11|]. split; [done|]. split; [done|]. rewrite R13.
  split; [by rewrite <- Ev1, <- Ev10, <- Ev11|]. split; [lia|].
  split; [apply (inv_close O1); [done|]; intros i [?|Hc]; [by left|right; unfold cells, CVE_NODE_SIZE in *; lia]|].
  split; [eapply (ext_behind nowhere C p p1); [exact Hx1|exact (bd_ext _ _ _ _ _ Hb13)|]; intros i Hc; right; unfold C, cells in Hc; lia|].
  split; [by rewrite (bd_vtype _ _ _ _ _ Hb13)|]. split; [done|]. split; [done|]. split; [apply (bd_room _ _ _ _ _ Hb13)|].
  split; [eapply building_word; [exact Hb13|in_list]|].
  eapply (cve_done O off _ p1 p13 p2 p8 p12); [intros i Ho%Hopen; lia|lia|exact Hb13|reflexivity|exact Hid|exact Y2|exact Hde|exact Y8|exact Hhe|exact X13].
Qed.

Definition cves_good (O : Z -> Prop) (prev : Z) (p p' : vulnspec_parser) : Prop :=
  exists M' srcs head, Cves odd_u32 (toks p) srcs /\ inv O M' p' /\ ext (next_cells prev) p p' /\
    (prev <> 0 -> ld32 (image p') (prev + 4) = Ret head) /\
    ((srcs = [] /\ head = 0) \/ (srcs <> [] /\ head = size_of p /\ head + CVE_NODE_SIZE <= size_of p')) /\
    holds O (image p') (size_of p') (cves_image head srcs).

Lemma cves_image_end d n : cves_image 0 [] d n.
Proof. split; [exists []; split; [by apply rep_no_cve|done]|]. exists 1%nat. intros base [|fuel] _ _ Hf; [lia|done]. Qed.

Lemma cve_symbol s : symbol2node s = VULNSPEC_CVE_NODE -> s = lit "cve".
Proof.
  intros H%symbol_node; [|done]. unfold symbols in H.
  repeat (apply elem_of_cons in H as [H|H]; [first [discriminate H|by injection H]|]). by apply elem_of_nil in H.
Qed.

(** one more CVE and the rest of the list *)
Lemma cves_step O p p2 p3 p5 p6 prev curr s d2 d3 ts M' srcs head p' :
  let O3 := union O (cells (curr + 4) 4) in
  8 <= size_of p -> (forall i, O i -> i < size_of p) -> last_node O CVE_NODE_SIZE p prev ->
  toks p = TLparen :: TSymbol (lit "cve") :: toks p2 -> p_progn p2 = p_progn p -> curr = size_of p ->
  toks p2 = TString (src_id s) :: TDouble d2 :: TDouble d3 :: TString (src_description s) :: TLparen :: ts ->
  src_cvss2 s = hundredths odd_u32 d2 -> src_cvss3 s = hundredths odd_u32 d3 -> Expr VULNSPEC_VVAGUE ts (toks p3) (src_expr s) ->
  ext nowhere p2 p3 -> curr + CVE_NODE_SIZE <= size_of p3 ->
  holds O3 (image p3) (size_of p3) (cve_fields curr s) ->
  toks p3 = TRparen :: toks p5 -> ext nowhere p3 p5 -> ext (next_cells prev) p5 p6 -> size_of p6 = size_of p5 -> p_r p6 = p_r p5 ->
  (prev <> 0 -> ld32 (image p6) (prev + 4) = Ret curr) ->
  Cves odd_u32 (toks p6) srcs -> inv O3 M' p' -> ext (next_cells curr) p6 p' -> ld32 (image p') (curr + 4) = Ret head ->
  holds O3 (image p') (size_of p') (cves_image head srcs) -> cves_good O prev p p'.
Proof.
  intros O3 H8 Hopen Hlast Tp Ep2 Ecurr T2 E2 E3 He Hx3 Hroom Hcf T3 Hx5 Hx6 Hs6 Er6 Hlink Hcs Hi' Hx' Hnext Hh. unfold CVE_NODE_SIZE in *.
  assert (Hs2 : size_of p2 = size_of p) by (by rewrite Ep2). assert (Hi2 : image p2 = image p) by (by rewrite Ep2).
  pose proof (proj1 Hx3) as S3. pose proof (proj1 Hx5) as S5. pose proof (proj1 Hx') as S'.
  exists M', (s :: srcs), curr. rewrite Er6 in Hcs.
  split.
  { rewrite Tp, T2. destruct s as [id c2 c3 desc e]. cbn [src_id src_cvss2 src_cvss3 src_description src_expr] in *. subst c2 c3.
    eapply cves_more; [by rewrite <- T3|done]. }
  split; [by apply (inv_close O3); [|by left]|].
  assert (Hno : forall i, i < size_of p -> ~ next_cells curr i) by (intros i Hi; unfold next_cells, cells; lia).
  split; [|split; [|split; [by right; split; [done|]; split; [done|unfold CVE_NODE_SIZE; lia]|]]].
  - split; [lia|]. intros i Hi Hn. destruct Hx3 as [_ Hx3], Hx5 as [_ Hx5], Hx6 as [_ Hx6], Hx' as [_ Hx'].
    rewrite Hx', Hx6, Hx5, Hx3, Hi2; try done; try lia; try (by intros []). apply Hno. lia.
  - intros Hp. rewrite <- (Hlink Hp). destruct Hlast as [|(Hp8 & Hpn & _)]; [done|]. apply ld32_agree. intros i Hi.
    destruct Hx' as [_ Hx']. apply Hx'; [lia|]. apply Hno. lia.
  - intros d' n' Hd Hn Hmax Hz. apply (cve_link_image d' n' curr s head srcs).
    + eapply (holds_later O3 O _ (image p') _ (size_of p')); [exact Hcf|lia|by left| |exact Hd|done|done|done].
      intros i Hi Ho. destruct Hx5 as [_ Hx5], Hx6 as [_ Hx6], Hx' as [_ Hx'].
      rewrite Hx', Hx6, Hx5; [done|lia|by intros []|lia| |lia|intros [_ Hc]; apply Ho; by right].
      intros [Hp Hc]. apply Ho. left. destruct Hlast as [|(_ & _ & HO & _)]; [done|]. by apply HO.
    + rewrite <- Hnext. apply ld32_agree. intros i Hi. apply Hd; [lia|]. intros Ho%Hopen. lia.
    + eapply (holds_later O3 O _ (image p')); [exact Hh|reflexivity|by left|done|exact Hd|done|done|done].
    + lia.
    + unfold CVE_NODE_SIZE. lia.
Qed.

Lemma runs_cves fuel : forall O M p prev, inv O M p -> p_vtype p = VULNSPEC_VVAGUE -> (length (text p) < fuel)%nat ->
  last_node O CVE_NODE_SIZE p prev ->
  runs (cves alloc_ok odd_u32 fuel prev) p (fun _ p' => cves_good O prev p p') (forall srcs, ~ Cves odd_u32 (toks p) srcs).
Proof.
  induction fuel as [|fuel IH]; intros O M p prev Hi Hvt Hf Hlast; [lia|]. cbn [cves]. pose proof (inv_head _ _ _ Hi) as H8.
  eapply runs_bind; [by apply (runs_read_token alloc_ok Halloc O M p)|done|]. intros k p1 (Hi1 & Hx1 & Ev1 & Hk).
  destruct (decide (k = VULNSPEC_TEOF)) as [->|Hne].
  { destruct Hk as [[_ E]|[[? _]|(tk & Ek & ? & _)]]; try done. apply runs_done. exists M, [], 0. rewrite E. split; [apply cves_end|].
    split; [done|]. split; [by apply ext_into|]. split; [|split; [by left|intros d' n' _ _ _ _; apply cves_image_end]].
    intros Hp. destruct Hlast as [|(Hp8 & Hpn & _ & Hz)]; [done|]. unfold CVE_NODE_SIZE in *. rewrite <- Hz. apply ld32_agree. intros i Hi0.
    apply Hx1; [lia|by intros []]. }
  destruct (bool_decide_reflect (k = VULNSPEC_TLPAREN)) as [->|Hnl]; cbn [negb].
  2: { apply runs_unexpected. intros srcs Hc. destruct Hk as [[? _]|[[_ E]|(tk & Ek & _ & _ & Htk)]]; [done|rewrite E in Hc; inversion Hc|].
    rewrite (took_toks _ _ _ Htk) in Hc. inversion Hc; subst. done. }
  destruct Hk as [[? _]|[[? _]|(tk & Ek & _ & _ & [T1 L1 _ _ (_ & _ & Eg1)])]]; try done. destruct tk; try done.
  eapply runs_bind; [by apply (runs_read_symbol alloc_ok Halloc O M p1)| |].
  { intros Hb srcs Hc. rewrite T1 in Hc. inversion Hc as [|id d2 d3 desc ts ts' e cs He Hcs E]. by apply (Hb _ _ (eq_sym E)). }
  intros t p2 (sy & -> & [T2 L2 _ _ (_ & _ & Eg2)] & Hi2 & Hx2 & Ev2).
  destruct (Z.eqb_spec (symbol2node sy) VULNSPEC_CVE_NODE) as [Es|Es].
  2: { apply runs_unexpected. intros srcs Hc. rewrite T1, T2 in Hc. inversion Hc; subst. by apply Es. }
  apply cve_symbol in Es as ->.
  eapply runs_bind; [apply (runs_cve fuel O M p2 Hi2); [left; congruence|lia]| |].
  { intros Hb srcs Hc. rewrite T1, T2 in Hc. inversion Hc as [|id d2 d3 desc ts ts' e cs He Hcs E]. rewrite Ev2, Ev1, Hvt in Hb.
    by apply (Hb _ _ _ _ _ _ _ (eq_sym E) He). }
  intros curr p3 (M3 & s & d2 & d3 & ts & T3 & E2 & E3 & He & L3 & Hi3 & Hx3 & Ev3 & Ecurr & Hmax & Hroom & Hz & Hcf).
  rewrite Ev2, Ev1, Hvt in He. rewrite Eg2, Eg1 in Ecurr. pose proof (inv_open _ _ _ Hi) as Hopen. unfold UINT32_MAX in Hmax.
  set (O3 := union O (cells (curr + 4) 4)) in *.
  eapply runs_bind; [by apply (runs_expect alloc_ok Halloc O3 M3 p3 VULNSPEC_TRPAREN)| |].
  { intros Hb srcs Hc. rewrite T1, T2, T3 in Hc. inversion Hc; subst.
    match goal with H : Expr _ ts (TRparen :: _) _ |- _ => destruct (expr_fun _ _ _ _ _ _ He H) as [E _] end. by apply Hb in E. }
  intros _ p5 (Hi5 & Hx5 & Ev5 & tk & Ek' & [T5 L5 _ _ _]). destruct tk; try done.
  pose proof (proj1 Hx3) as S3. pose proof (proj1 Hx5) as S5.
  assert (Hlast5 : last_node O3 CVE_NODE_SIZE p5 prev).
  { destruct Hlast as [|(Hp8 & Hpn & HO & Hzero)]; [by left|right]. unfold CVE_NODE_SIZE in *. rewrite Eg2, Eg1 in S3. split; [done|]. split; [lia|].
    split; [intros i Hc; left; by apply HO|]. rewrite <- Hzero. apply ld32_agree. intros i Hi0. destruct Hx3 as [_ Hx3], Hx5 as [_ Hx5]. rewrite Eg2, Eg1 in Hx3.
    rewrite Hx5, Hx3; try done; try lia; by intros []. }
  eapply runs_bind; [apply (runs_link O3 M3 p5 CVE_NODE_SIZE prev curr Hi5 Hlast5); [done|lia]|done|].
  intros _ p6 (Hi6 & Hx6 & Hs6 & Ev6 & Er6 & Hlink). rewrite Eg2, Eg1 in S3.
  assert (Hlast6 : last_node O3 CVE_NODE_SIZE p6 curr).
  { right. unfold CVE_NODE_SIZE in *. split; [lia|]. split; [lia|]. split; [by right|]. rewrite <- Hz. apply ld32_agree. intros i Hi0.
    destruct Hx5 as [_ Hx5], Hx6 as [_ Hx6]. rewrite Hx6, Hx5; [done|lia|by intros []|lia|].
    intros [Hp Hc]. destruct Hlast as [|(Hp8 & Hpn & _)]; [done|]. unfold cells in Hc. lia. }
  eapply runs_mono; [apply (IH O3 M3 p6 curr Hi6); [congruence|rewrite Er6; lia|done]| |].
  - intros _ p' (M' & srcs & head & Hcs & Hi' & Hx' & Hnext & _ & Hh). specialize (Hnext ltac:(lia)).
    eapply (cves_step O p p2 p3 p5 p6 prev curr s d2 d3 ts M' srcs head p'); try done; [by rewrite T1, T2|congruence].
  - intros Hb srcs Hc. rewrite T1, T2, T3 in Hc. inversion Hc; subst.
    match goal with H : Expr _ ts (TRparen :: _) _ |- _ => destruct (expr_fun _ _ _ _ _ _ He H) as [E _] end. rewrite T5 in E. injection E as E.
    rewrite Er6, E in Hb. by eapply Hb.
Qed.

End Nodes.

(** ** Compiling a text *)

Lemma parser_init_ok alloc_ok : (forall n, alloc_ok n = true) ->
  exists t, strtab_ok t ∅ /\
    vulnspec_parser_init alloc_ok = Some (Parser VULNSPEC_VVAGUE t (Buf.Buf DEFAULT_PROGN_SIZE 0 (replicate (Z.to_nat DEFAULT_PROGN_SIZE) 0))
      (Reader (replicate 32 0) [] 0 0 0 (Buf.Buf 0 0 []) (Ival 0))).
Proof.
  intros Ha. destruct (strtab_init_ok alloc_ok Ha) as (t & E & Ht). exists t. split; [done|].
  unfold vulnspec_parser_init, vulnspec_progn_init, buf_init. rewrite E, Ha. done.
Qed.

(** the buffer with the header *)
Definition start_buf (c : Z) : buf_t := Buf.Buf c 8 (VULNSPEC_HEADER ++ replicate (Z.to_nat (c - 8)) 0).

Lemma header_ok alloc_ok c : 8 <= c < 2 ^ 59 ->
  buf_adata alloc_ok (buf_clear (Buf.Buf c 0 (replicate (Z.to_nat c) 0))) VULNSPEC_HEADER = Ret (start_buf c, 0).
Proof.
  intros Hc. unfold buf_adata, buf_reserve, buf_clear. cbn [Buf.cap Buf.len Buf.data].
  change (zlen VULNSPEC_HEADER) with 8. change (8 =? 0) with false. cbv iota zeta.
  rewrite (uw_small 64), (proj2 (Z.ltb_ge _ _)) by lia.
  cbn [mbind outcome_mbind Buf.cap Buf.len Buf.data]. change (0 =? 0) with true. cbv iota.
  rewrite wrs_in by (zlen_simpl; change (zlen VULNSPEC_HEADER) with 8; lia).
  cbn [mbind outcome_mbind]. change (uw 64 (0 + 8)) with 8. change (Z.to_nat 0) with 0%nat.
  rewrite take_0, drop_replicate. replace (Z.to_nat c - (0 + length VULNSPEC_HEADER))%nat with (Z.to_nat (c - 8)); [done|].
  change (length VULNSPEC_HEADER) with 8%nat. lia.
Qed.

Lemma start_fresh c : 8 < c < 2 ^ 59 -> (8 | c) -> fresh (start_buf c).
Proof.
  intros Hc H8. assert (Hz : zlen (Buf.data (start_buf c)) = c).
  { unfold start_buf. cbn [Buf.data]. zlen_simpl. change (zlen VULNSPEC_HEADER) with 8. lia. }
  split; [split|..]; cbn [Buf.len Buf.cap start_buf]; try lia; try done.
  - cbn [Buf.data]. apply Forall_app. split; [repeat constructor; unfold is_byte; lia|apply Forall_replicate; unfold is_byte; lia].
  - intros i Hi. cbn [Buf.data]. apply rd_zeros. change (zlen VULNSPEC_HEADER) with 8. lia.
Qed.

(** what [vulnspec_load] and [vulnspec_eval] do with the image of [srcs] *)
Definition evaluates (image : bytes) (n : Z) (srcs : list source) : Prop :=
  exists k cs, source_of <$> cs = srcs /\
  forall base fuel interp0, 0 <= base -> base + n < 2 ^ 64 -> (k <= fuel)%nat ->
    Forall (fun c => c <> 0) (default [] (cve_vendprod (params interp0))) ->
    zlen (default [] (cve_version (params interp0))) < INT_MAX ->
    vulnspec_load base fuel interp0 image n = Ret (Interp (params interp0) image n, 0) /\
    vulnspec_eval (Interp (params interp0) image n) fuel = Ret
      (if no_string (cve_version (params interp0)) || no_string (cve_vendprod (params interp0)) then ([], 0)
       else report (params interp0) cs []).

Lemma validate_passes base mem n fuel : 0 <= base -> base + n < 2 ^ 64 -> 12 <= n -> n < zlen mem ->
  take 8 mem = VULNSPEC_HEADER -> ld32 mem 8 = Ret VULNSPEC_CVE_NODE -> vcve base mem n fuel 8 = ret tt -> validate base mem n fuel = Ret 0.
Proof.
  intros Hb Hbn Hn Hm Hh Ht Hv. unfold validate, VULNSPEC_HEADER_SIZE. rewrite (proj2 (Z.ltb_ge n 8)) by lia.
  rewrite rds_in by lia. change (Z.to_nat 0) with 0%nat. rewrite drop_0. change (Z.to_nat 8) with 8%nat. rewrite Hh.
  cbn [mbind outcome_mbind]. change (negb (memcmp VULNSPEC_HEADER VULNSPEC_HEADER =? 0)) with false. cbv iota.
  unfold vnode. rewrite check_passes by lia. rewrite Ht. cbn [lift jbind mbind outcome_mbind ret].
  change (VULNSPEC_CVE_NODE =? VULNSPEC_CVE_NODE) with true. cbv iota. by rewrite Hv.
Qed.

Lemma image_evaluates mem n srcs : 0 <= n < INT_MAX -> n < zlen mem -> rd mem n = Ret 0 -> Forall is_byte mem ->
  take 8 mem = VULNSPEC_HEADER -> srcs <> [] -> 12 <= n -> cves_image 8 srcs mem n -> evaluates mem n srcs.
Proof.
  intros Hn Hm Hend Hby Hh Hne H12 [(cs & Hcs & Hsrc) (k & Hk)]. exists k, cs. split; [done|].
  intros base fuel interp0 Hb Hbn Hf Hvp Hver. specialize (Hk base fuel Hb Hbn Hf).
  assert (Ht : ld32 mem 8 = Ret VULNSPEC_CVE_NODE).
  { destruct Hcs as [off Ho|off node id desc e cs Ho Hnode Ht _ _ _ _]; [done|]. rewrite <- Ht. clear - Hnode. unfold ld_cve in Hnode.
    destruct (ld32 mem off) as [t| |]; [|done|done]. cbn [mbind outcome_mbind] in Hnode.
    repeat (match type of Hnode with context [mbind _ ?x] => destruct x as [?| |]; cbn [mbind outcome_mbind] in Hnode; try done end).
    injection Hnode as <-. done. }
  pose proof (validate_passes base mem n fuel Hb Hbn H12 Hm Hh Ht Hk) as Hval. split; [unfold vulnspec_load; by rewrite Hval|].
  unfold vulnspec_eval. cbn [len]. destruct (validate_ret base mem n fuel Hval) as [Hv H13].
  rewrite (proj2 (Z.leb_gt _ _)) by (unfold VULNSPEC_HEADER_SIZE; lia).
  destruct (no_string _ || no_string _) eqn:Ens.
  - by apply (cves_no_string base mem n (params interp0) fuel Ens 8 ltac:(lia)).
  - destruct (cves_meaning base mem n Hn Hm Hend Hby _ Hvp Hver fuel Ens 8 ltac:(lia) Hv) as (cs' & Hcs' & E).
    rewrite <- (rep_cves_fun _ _ _ Hcs _ Hcs') in E. apply E.
Qed.

(** the parser before the first token *)
Lemma start_inv alloc_ok c t file : (forall n, alloc_ok n = true) -> 8 < c < 2 ^ 59 -> (8 | c) -> strtab_ok t ∅ ->
  Forall (fun c => 0 < c < 256) file -> zlen file < 2 ^ 55 ->
  inv nowhere ∅ (Parser VULNSPEC_VVAGUE t (start_buf c) (vulnspec_reader_init alloc_ok file)).
Proof.
  intros Ha Hc H8 Ht Hf Hl. split; cbn [p_progn p_strtab p_r]; try done.
  - by apply start_fresh.
  - apply (reader_init_ok alloc_ok Ha); [done|lia].
Qed.

(** C1: a text compiles exactly when it is a list of CVEs of the grammar. The
    image is then one that [vulnspec_load] accepts, and its evaluation
    reports, in the order of the text, the CVEs whose expression is satisfied
    by the product and the version: a comparison when the product is the same
    and the version compares as said, a conjunction when all operands are, a
    disjunction when one is. Any other text is refused as having an unexpected
    token, unless the image has grown over 4 GB by then; the reading, the
    string table and the image never leave their bounds. There is memory for
    everything that is allocated. The scores are stored in hundredths; for a
    negative one, whose conversion C does not define, and one that is too
    large, any number may be stored ([odd_u32]), and the rest holds all the
    same. *)
Theorem vulnspec_compile_correct alloc_ok odd_u32 file : (forall n, alloc_ok n = true) -> (forall x, 0 <= odd_u32 x < 2 ^ 32) ->
  Forall (fun c => 0 < c < 256) file -> zlen file < 2 ^ 55 ->
  exists p0 p st, vulnspec_parser_init alloc_ok = Some p0 /\ vulnspec_parse alloc_ok odd_u32 p0 file = Ret (p, st) /\
  let '(image, n) := vulnspec_parser_data p in
  (st = 0 /\ exists srcs, Cves odd_u32 (tokens file) srcs /\
    (forall params, Forall (fun s => denote params (src_expr s) = satisfies params (src_expr s)) srcs) /\
    (srcs <> [] -> n < INT_MAX -> evaluates image n srcs)) \/
  (st = VULNSPEC_EUNEXPECTED_TOKEN /\ forall srcs, ~ Cves odd_u32 (tokens file) srcs) \/
  (st = VULNSPEC_EMALLOC /\ UINT32_MAX < n).
Proof.
  intros Ha Hodd Hf Hl. destruct (parser_init_ok alloc_ok Ha) as (t & Ht & E0).
  assert (Hc : 8 < DEFAULT_PROGN_SIZE < 2 ^ 59) by (unfold DEFAULT_PROGN_SIZE; lia).
  assert (H8 : (8 | DEFAULT_PROGN_SIZE)) by (by exists 65536). revert E0. generalize dependent DEFAULT_PROGN_SIZE. intros c Hc H8 E0.
  pose proof (start_inv alloc_ok c t file Ha Hc H8 Ht Hf Hl) as Hi.
  set (p1 := Parser VULNSPEC_VVAGUE t (start_buf c) (vulnspec_reader_init alloc_ok file)) in *.
  destruct (runs_cves alloc_ok Ha odd_u32 Hodd (S (length file)) nowhere ∅ p1 0 Hi) as (p & r & Er & H); [done| |by left|].
  { unfold p1. cbn [p_r]. rewrite (proj2 (reader_init_ok alloc_ok Ha file Hf ltac:(lia))). lia. }
  assert (Etoks : toks p1 = tokens file) by (unfold p1; cbn [p_r]; by rewrite (proj2 (reader_init_ok alloc_ok Ha file Hf ltac:(lia)))).
  eexists _, (set_reader p (vulnspec_reader_cleanup (p_r p))), _. split; [exact E0|]. split.
  { unfold vulnspec_parse. cbn [set_reader p_progn]. rewrite header_ok by lia.
    cbn [mbind outcome_mbind]. change (set_progn _ _) with p1. rewrite Er. reflexivity. }
  unfold vulnspec_parser_data. cbn [set_reader p_progn]. destruct r as [st|[]].
  { right. destruct H as [[-> Hb]|[-> Hb]]; [left; split; [done|by rewrite <- Etoks]|by right]. }
  left. split; [done|]. destruct H as (M' & srcs & head & Hcs & Hi' & Hx & _ & Hhead & Himg). exists srcs. rewrite Etoks in Hcs.
  split; [done|]. split; [intros params; by eapply cves_denote|]. intros Hne Hn.
  destruct Hhead as [[? _]|(_ & -> & Hroom)]; [done|]. change (size_of p1) with 8 in *. unfold CVE_NODE_SIZE in Hroom.
  pose proof (inv_fresh _ _ _ Hi') as [[Hlen Hdata _ Hby] _ Hr Hz].
  apply image_evaluates; [lia|lia| |exact Hby| |exact Hne|lia|].
  - apply Hz. lia.
  - assert (Hhd : take 8 (image p1) = VULNSPEC_HEADER) by done. rewrite <- Hhd. apply list_eq. intros i.
    destruct (decide (i < 8)%nat) as [Hlt|Hge]; [|by rewrite !lookup_take_ge by lia]. rewrite !lookup_take_lt by lia.
    destruct Hx as [_ Hx]. specialize (Hx (Z.of_nat i)). change (size_of p1) with 8 in Hx.
    destruct (rd_in (image p) (Z.of_nat i)) as (x & Ex & Hx1); [lia|]. rewrite Nat2Z.id in Hx1. rewrite Hx1.
    rewrite Hx in Ex; [|lia|intros [? _]; done]. apply rd_ret in Ex as [_ Ex]. by rewrite Nat2Z.id in Ex.
  - apply Himg; [done|lia|lia|lia].
Qed.

(** the text with [''] for a double quote *)
Definition quoted (s : string) : bytes := (fun c => if c =? 39 then 34 else c) <$> lit s.

Definition demo_text : bytes :=
  quoted "(cve 'CVE-1' 7.5 2.3 'one' (^ (>= 'a/b' '1.2') (v (< 'a/b' '1.1') (nalpha (> 'a/b' '1.2')))))".

Definition is_textb (c : Z) : bool := (0 <? c) && (c <? 256).
Lemma text_dec l : forallb is_textb l = true -> Forall (fun c => 0 < c < 256) l.
Proof.
  intros H. rewrite forallb_forall in H. apply Forall_forall. intros x Hx%list_elem_of_In%H. unfold is_textb in Hx. zbool. lia.
Qed.

Lemma vulnspec_compile_correct_witness :
  exists p0 p st, vulnspec_parser_init (fun _ => true) = Some p0 /\ vulnspec_parse (fun _ => true) (fun _ => 4294967196) p0 demo_text = Ret (p, st) /\
  let '(image, n) := vulnspec_parser_data p in
  (st = 0 /\ exists srcs, Cves (fun _ => 4294967196) (tokens demo_text) srcs /\
    (forall params, Forall (fun s => denote params (src_expr s) = satisfies params (src_expr s)) srcs) /\
    (srcs <> [] -> n < INT_MAX -> evaluates image n srcs)) \/
  (st = VULNSPEC_EUNEXPECTED_TOKEN /\ forall srcs, ~ Cves (fun _ => 4294967196) (tokens demo_text) srcs) \/
  (st = VULNSPEC_EMALLOC /\ UINT32_MAX < n).
Proof.
  apply (vulnspec_compile_correct (fun _ => true) (fun _ => 4294967196) demo_text); [reflexivity|lia|apply text_dec; reflexivity|].
  apply Z.ltb_lt. vm_compute. reflexivity.
Defined.

(** a parser with small tables *)
Definition demo_parser : option vulnspec_parser :=
  match objtbl_init (fun _ => true) (strtab_opts [] no_entry) 8 with
  | (Some tbl, _) =>
      Some (Parser VULNSPEC_VVAGUE (Strtab tbl []) (Buf.Buf 16 0 (replicate 16 0)) (vulnspec_reader_init (fun _ => false) []))
  | (None, _) => None
  end.

(** the image of the text, loaded and evaluated *)
Definition compile_and_eval (text : bytes) (interp0 : vulnspec_interp) : option (list vulnspec_cve_match * Z) :=
  match demo_parser with
  | None => None
  | Some p0 =>
      match vulnspec_parse (fun n => n <? 8192) (fun _ => 4294967196) p0 text with
      | Ret (p, 0) =>
          let '(image, n) := vulnspec_parser_data p in
          match vulnspec_load 4096 20 interp0 image n with
          | Ret (interp, 0) => match vulnspec_eval interp 20 with Ret r => Some r | _ => None end
          | _ => None
          end
      | _ => None
      end
  end.

Example demo_text_runs : compile_and_eval demo_text demo_interp = Some ([Match 48 750 229 56], 0).
Proof. vm_compute. reflexivity. Qed.

(** ** Scores *)

(** A score is multiplied by a hundred in floating point and cut off: the
    text 2.3 is stored as 229, and 8.2 as 819. *)
Theorem vulnspec_score_truncated odd_u32 : exists d e,
  tokens (lit "2.3 8.2") = [TDouble d; TDouble e] /\ hundredths odd_u32 d = 229 /\ hundredths odd_u32 e = 819.
Proof. eexists _, _. split; [vm_compute; reflexivity|]. split; vm_compute; reflexivity. Qed.

(** The score -1.00, which stands for one that is not known, is a negative
    number, of which the program takes the conversion that is not defined: what
    is stored is what the platform gives for -100. *)
Lemma vulnspec_score_undefined : exists d x,
  tokens (lit "-1.00") = [TDouble d] /\ truncated x = Some (-100) /\ forall odd_u32, hundredths odd_u32 d = odd_u32 x.
Proof.
  eexists _, _. split; [vm_compute; reflexivity|].
  split; [|intros odd_u32; unfold hundredths, u32_of_double; vm_compute; reflexivity]. vm_compute. reflexivity.
Qed.
