(* ===== verification/Idset.v ===== *)
(** * Sets of identifiers (src/lib/util/idset.c)

    A set hands out identifiers from an interval and takes them back.  It is a
    bit per identifier, set while the identifier is free.  The theorem shows
    that the code implements a finite set of the identifiers in use, from
    which the least free one is taken. *)

From stdpp Require Import gmap.
From S2P Require Import Prelude.

Definition BITS_IN_INT : Z := 32.

(** in the type of [sizeof] *)
Definition CEIL_INTBITS (x : Z) : Z := Z.land (u64 (x + BITS_IN_INT - 1)) (u64 (Z.lnot (BITS_IN_INT - 1))).
Definition FLOOR_INTBITS (x : Z) : Z := Z.land x (u64 (Z.lnot (BITS_IN_INT - 1))).
Definition MOD_INTBITS (x : Z) : Z := Z.land x (BITS_IN_INT - 1).

Definition IDSETF_NONE : Z := 0.
Definition IDSETF_FULL : Z := 1.

Record idset_ctx : Type := Ctx {
  flags : Z;
  last_id : Z;
  nelems : Z;
  elems : list Z;
}.

Definition set_flags (ctx : idset_ctx) (f : Z) : idset_ctx := Ctx f (last_id ctx) (nelems ctx) (elems ctx).
Definition set_elems (ctx : idset_ctx) (es : list Z) : idset_ctx := Ctx (flags ctx) (last_id ctx) (nelems ctx) es.

Definition idset_new (alloc_ok : Z -> bool) (nids : Z) : option idset_ctx :=
  let ceil_nids := u32 (CEIL_INTBITS nids) in
  if (nids =? 0) || (INT_MAX <? nids) || (INT_MAX <? ceil_nids) then None
  else
    let nelems := u32 (ceil_nids / BITS_IN_INT) in
    if alloc_ok (12 + 4 * nelems) then
      Some (Ctx IDSETF_NONE (nids - 1) nelems (replicate (Z.to_nat nelems) UINT32_MAX))
    else None.

(** [ffs] of the C library: one more than the position of the lowest bit that
    is set, or 0 *)
Fixpoint ffs_loop (n : nat) (x j : Z) : Z :=
  match n with
  | O => 0
  | S n => if Z.testbit x j then j + 1 else ffs_loop n x (j + 1)
  end.
Definition ffs (x : Z) : Z := ffs_loop 32 (u32 x) 0.

Fixpoint use_loop (fuel : nat) (ctx : idset_ctx) (i : Z) : outcome (idset_ctx * Z) :=
  match fuel with
  | O => OutOfFuel
  | S fuel =>
      if i <? nelems ctx then
        e ← rd (elems ctx) i;
        let first_set := ffs (i32 e) in
        if negb (first_set =? 0) then
          let bit := first_set - 1 in
          es ← wr (elems ctx) i (Z.land e (u32 (Z.lnot (Z.shiftl 1 bit))));
          let ctx := set_elems ctx es in
          let id := i32 (i * BITS_IN_INT + bit) in
          if last_id ctx <? id then Ret (set_flags ctx (Z.lor (flags ctx) IDSETF_FULL), -1)
          else Ret (ctx, id)
        else use_loop fuel ctx (u32 (i + 1))
      else Ret (ctx, -1)
  end.

Definition idset_use_next (ctx : idset_ctx) : outcome (idset_ctx * Z) :=
  if flag_set (flags ctx) IDSETF_FULL then Ret (ctx, -1)
  else use_loop (S (length (elems ctx))) ctx 0.

Definition idset_clear (ctx : idset_ctx) (id : Z) : outcome idset_ctx :=
  if (id <? 0) || (last_id ctx <? id) then Ret ctx
  else
    let uid := u32 id in
    let elem := u32 (FLOOR_INTBITS uid / BITS_IN_INT) in
    let bit := u32 (MOD_INTBITS uid) in
    if elem <? nelems ctx then
      e ← rd (elems ctx) elem;
      es ← wr (elems ctx) elem (Z.lor e (u32 (Z.shiftl 1 bit)));
      let ctx := set_elems ctx es in
      Ret (set_flags ctx (Z.land (flags ctx) (Z.lnot IDSETF_FULL)))
    else Ret ctx.

(** ** Words *)

Lemma ffs_loop_spec n x : forall j, 0 <= j ->
  (ffs_loop n x j = 0 /\ (forall k, j <= k < j + Z.of_nat n -> Z.testbit x k = false)) \/
  (exists b, ffs_loop n x j = b + 1 /\ j <= b < j + Z.of_nat n /\ Z.testbit x b = true /\ forall k, j <= k < b -> Z.testbit x k = false).
Proof.
  induction n as [|n IH]; intros j Hj; cbn [ffs_loop]; [left; split; [done|lia]|].
  destruct (Z.testbit x j) eqn:E; [right; exists j; split; [done|]; split; [lia|]; split; [done|lia]|].
  destruct (IH (j + 1)) as [(-> & H)|(b & -> & Hb & Hx & H)]; [lia| |].
  - left. split; [done|]. intros k Hk. destruct (decide (k = j)) as [->|]; [done|]. apply H. lia.
  - right. exists b. split; [done|]. split; [lia|]. split; [done|]. intros k Hk. destruct (decide (k = j)) as [->|]; [done|]. apply H. lia.
Qed.

Lemma ffs_spec e : 0 <= e < 2 ^ 32 ->
  (ffs (i32 e) = 0 /\ forall k, 0 <= k < 32 -> Z.testbit e k = false) \/
  (exists b, ffs (i32 e) = b + 1 /\ 0 <= b < 32 /\ Z.testbit e b = true /\ forall k, 0 <= k < b -> Z.testbit e k = false).
Proof.
  intros He. unfold ffs. rewrite uw_sw, uw_small by lia. destruct (ffs_loop_spec 32 e 0 ltac:(lia)) as [[-> H]|(b & -> & Hb & Hx & H)].
  - left. split; [done|exact H].
  - right. exists b. split; [done|]. split; [lia|]. done.
Qed.

Lemma single_bit b k : 0 <= b < 32 -> 0 <= k -> Z.testbit (u32 (Z.shiftl 1 b)) k = (k =? b).
Proof.
  intros Hb Hk. rewrite Z.shiftl_1_l. rewrite uw_small by (split; [lia|apply Z.pow_lt_mono_r; lia]).
  rewrite Z.pow2_bits_eqb by lia. apply Z.eqb_sym.
Qed.

Lemma clear_bit e b k : 0 <= b < 32 -> 0 <= k < 32 ->
  Z.testbit (Z.land e (u32 (Z.lnot (Z.shiftl 1 b)))) k = Z.testbit e k && negb (k =? b).
Proof.
  intros Hb Hk. rewrite Z.land_spec. f_equal. unfold uw. rewrite Z.mod_pow2_bits_low by lia. rewrite Z.lnot_spec by lia.
  rewrite Z.shiftl_1_l, Z.pow2_bits_eqb by lia. by rewrite (Z.eqb_sym b).
Qed.

Lemma land_word e x : 0 <= e < 2 ^ 32 -> 0 <= Z.land e (u32 x) < 2 ^ 32.
Proof.
  intros He. pose proof (uw_range 32 x ltac:(lia)) as Hx. split; [apply Z.land_nonneg; lia|].
  destruct (Z.eq_dec (Z.land e (u32 x)) 0) as [->|Hn]; [lia|]. apply Z.log2_lt_pow2; [pose proof (proj2 (Z.land_nonneg e (u32 x)) ltac:(lia)); lia|].
  eapply Z.le_lt_trans; [apply Z.log2_land; lia|]. apply Z.min_lt_iff. left.
  destruct (Z.eq_dec e 0) as [->|]; [simpl; lia|]. apply Z.log2_lt_pow2; lia.
Qed.

Lemma lor_word e x : 0 <= e < 2 ^ 32 -> 0 <= x < 2 ^ 32 -> 0 <= Z.lor e x < 2 ^ 32.
Proof.
  intros He Hx. split; [apply Z.lor_nonneg; lia|].
  destruct (Z.eq_dec (Z.lor e x) 0) as [->|Hn]; [lia|]. apply Z.log2_lt_pow2; [pose proof (proj2 (Z.lor_nonneg e x) ltac:(lia)); lia|].
  rewrite Z.log2_lor by lia. apply Z.max_lub_lt.
  - destruct (Z.eq_dec e 0) as [->|]; [simpl; lia|]. apply Z.log2_lt_pow2; lia.
  - destruct (Z.eq_dec x 0) as [->|]; [simpl; lia|]. apply Z.log2_lt_pow2; lia.
Qed.

(** ** The set of the identifiers in use *)

(** the bit of [id] *)
Definition free_bit (es : list Z) (id : Z) : bool := Z.testbit (nth (Z.to_nat (id / 32)) es 0) (id mod 32).

Record repr (ctx : idset_ctx) (n : Z) (U : gset Z) : Prop := Repr {
  r_last : last_id ctx = n - 1;
  r_size : 0 < n <= 32 * nelems ctx;
  r_max : 32 * nelems ctx <= INT_MAX;
  r_elems : zlen (elems ctx) = nelems ctx;
  r_words : Forall (fun e => 0 <= e < 2 ^ 32) (elems ctx);
  r_used : forall id, id ∈ U -> 0 <= id < n;
  r_bits : forall id, 0 <= id < n -> free_bit (elems ctx) id = negb (bool_decide (id ∈ U));
  r_full : flag_set (flags ctx) IDSETF_FULL = true -> forall id, 0 <= id < n -> id ∈ U;
}.

Lemma free_bit_word es i e b : es !! Z.to_nat i = Some e -> 0 <= i -> 0 <= b < 32 -> free_bit es (i * 32 + b) = Z.testbit e b.
Proof.
  intros Hi H0 Hb. unfold free_bit. rewrite Z.add_comm, Z.div_add, Z.mod_add by lia. rewrite Z.div_small, Z.mod_small, Z.add_0_l by lia.
  by rewrite (nth_lookup_Some _ _ _ _ Hi).
Qed.

Lemma free_bit_insert es i e e' id : es !! Z.to_nat i = Some e -> 0 <= i -> 0 <= id ->
  free_bit (<[Z.to_nat i := e']> es) id = if id / 32 =? i then Z.testbit e' (id mod 32) else free_bit es id.
Proof.
  intros Hi H0 Hid. pose proof (lookup_lt_Some _ _ _ Hi). assert (0 <= id / 32) by (apply Z.div_pos; lia). unfold free_bit.
  destruct (Z.eqb_spec (id / 32) i) as [<-|Hne].
  - by rewrite (nth_lookup_Some _ _ 0 e') by (by apply list_lookup_insert_eq).
  - rewrite !nth_lookup. by rewrite list_lookup_insert_ne by lia.
Qed.

Lemma ceil_spec x : 0 <= x < 2 ^ 32 -> CEIL_INTBITS x = 32 * ((x + 31) / 32).
Proof.
  intros Hx. unfold CEIL_INTBITS, BITS_IN_INT. rewrite uw_small by lia. change (32 - 1) with (Z.ones 5).
  assert (E : Z.land (x + 32 - Z.ones 5 + Z.ones 5 - 1) (u64 (Z.lnot (Z.ones 5))) = 32 * ((x + 31) / 32)); [|by rewrite <- E; f_equal; lia].
  replace (x + 32 - Z.ones 5 + Z.ones 5 - 1) with (x + 31) by lia. rewrite <- (uw_small 64 (x + 31)) at 1 by lia.
  unfold uw. rewrite <- !Z.land_ones by lia. rewrite <- Z.land_assoc, (Z.land_comm (Z.ones 64) (Z.land _ _)), <- Z.land_assoc, Z.land_diag.
  rewrite (Z.land_comm (Z.lnot _)), Z.land_assoc, Z.land_ones by lia. rewrite Z.mod_small by lia. fold (Z.ldiff (x + 31) (Z.ones 5)).
  rewrite <- Z.ldiff_land, Z.ldiff_ones_r by lia. rewrite Z.shiftr_div_pow2, Z.shiftl_mul_pow2 by lia. change (2 ^ 5) with 32. lia.
Qed.

Lemma floor_spec x : 0 <= x < 2 ^ 32 -> FLOOR_INTBITS x / BITS_IN_INT = x / 32 /\ MOD_INTBITS x = x mod 32.
Proof.
  intros Hx. unfold FLOOR_INTBITS, MOD_INTBITS, BITS_IN_INT. change (32 - 1) with (2 ^ 5 - 1). rewrite land_mask by lia. split; [|done].
  change (2 ^ 5 - 1) with (Z.ones 5). unfold uw. rewrite <- Z.land_ones, (Z.land_comm (Z.lnot _)), Z.land_assoc, Z.land_ones by lia.
  rewrite Z.mod_small by lia. rewrite <- Z.ldiff_land, Z.ldiff_ones_r by lia. rewrite Z.shiftr_div_pow2, Z.shiftl_mul_pow2 by lia.
  change (2 ^ 5) with 32. by rewrite Z.div_mul.
Qed.

Lemma all_ones k : 0 <= k < 32 -> Z.testbit UINT32_MAX k = true.
Proof. intros Hk. change UINT32_MAX with (Z.ones 32). by apply Z.ones_spec_low. Qed.

Lemma idset_new_spec alloc_ok nids : 0 <= nids < 2 ^ 32 ->
  match idset_new alloc_ok nids with
  | Some ctx => 0 < nids <= INT_MAX - 31 /\ repr ctx nids ∅
  | None => nids = 0 \/ INT_MAX - 31 < nids \/ exists n, alloc_ok n = false
  end.
Proof.
  intros Hn. unfold idset_new. rewrite ceil_spec by done. unfold INT_MAX. set (k := (nids + 31) / 32).
  assert (Hk : 32 * k < nids + 32 /\ nids <= 32 * k) by (subst k; divmod_lia).
  destruct (Z.eqb_spec nids 0); [by left|]. destruct (Z.ltb_spec 2147483647 nids); [right; left; lia|]. cbn [orb].
  rewrite (uw_small 32 (32 * k)) by lia. destruct (Z.ltb_spec 2147483647 (32 * k)); [right; left; subst k; divmod_lia|].
  replace (32 * k / BITS_IN_INT) with k by (unfold BITS_IN_INT; rewrite Z.mul_comm, Z.div_mul; lia). rewrite uw_small by lia.
  destruct (alloc_ok _) eqn:Ea; [|right; right; by eexists]. split; [subst k; divmod_lia|].
  split; cbn [last_id nelems elems flags]; try done; try lia.
  - rewrite zlen_replicate. lia.
  - apply Forall_replicate. unfold UINT32_MAX. lia.
  - intros id Hid. unfold free_bit. rewrite nth_lookup, lookup_replicate_2; [|apply Z2Nat.inj_lt; divmod_lia].
    cbn [default]. rewrite all_ones by divmod_lia. by rewrite bool_decide_eq_false_2 by set_solver.
Qed.

(** a turn of the loop when the words before [i] have no free identifier *)
Lemma use_loop_spec fuel ctx n U : repr ctx n U -> flag_set (flags ctx) IDSETF_FULL = false ->
  forall i, 0 <= i <= nelems ctx -> (Z.to_nat (nelems ctx - i) < fuel)%nat -> (forall id, 0 <= id < n -> id < 32 * i -> id ∈ U) ->
  exists ctx' r, use_loop fuel ctx i = Ret (ctx', r) /\
    ((0 <= r < n /\ (r ∉ U) /\ (forall id, 0 <= id < r -> id ∈ U) /\ repr ctx' n ({[r]} ∪ U)) \/
     (r = -1 /\ (forall id, 0 <= id < n -> id ∈ U) /\ repr ctx' n U)).
Proof.
  intros Hr Hfl. pose proof Hr as [Hlast [Hn0 Hn] Hmax Hlen Hw Hused Hbits Hfull]. unfold INT_MAX in Hmax.
  induction fuel as [|fuel IH]; intros i Hi Hf Hb; [lia|]. cbn [use_loop]. destruct (Z.ltb_spec i (nelems ctx)) as [Hlt|Hge].
  2: { exists ctx, (-1). split; [done|]. right. split; [done|]. split; [|done]. intros id Hid. apply Hb; lia. }
  destruct (rd_in (elems ctx) i ltac:(lia)) as (e & -> & He). cbn [mbind outcome_mbind].
  pose proof (proj1 (Forall_lookup _ _) Hw _ _ He) as Hew. simpl in Hew.
  destruct (ffs_spec e Hew) as [[-> Hz]|(b & -> & Hbr & Hbit & Hlow)].
  - change (negb (0 =? 0)) with false. cbv iota. rewrite uw_small by lia. apply IH; [lia|lia|].
    intros id Hid Hlt'. destruct (Z_lt_le_dec id (32 * i)) as [|Hge']; [by apply Hb|].
    pose proof (Hbits id Hid) as Hbid. replace id with (i * 32 + (id - 32 * i)) in Hbid at 1 by lia.
    rewrite (free_bit_word _ _ e) in Hbid by (done || lia). rewrite Hz in Hbid by lia. by apply negb_sym, bool_decide_eq_true in Hbid.
  - rewrite (proj2 (Z.eqb_neq (b + 1) 0)) by lia. cbn [negb]. replace (b + 1 - 1) with b by lia. rewrite wr_in by lia.
    cbn [mbind outcome_mbind set_elems last_id nelems elems flags]. unfold BITS_IN_INT. rewrite sw_small by (simpl; lia).
    set (e' := Z.land e _). set (es := <[Z.to_nat i := e']> (elems ctx)).
    assert (Hes : forall id, 0 <= id -> free_bit es id = free_bit (elems ctx) id && negb (id =? i * 32 + b)).
    { intros id Hid. unfold es. rewrite (free_bit_insert _ _ e) by (done || lia). destruct (Z.eqb_spec (id / 32) i) as [Ei|Ei].
      - unfold e'. rewrite clear_bit by (done || divmod_lia). unfold free_bit at 1. rewrite Ei, (nth_lookup_Some _ _ _ _ He). f_equal. f_equal.
        destruct (Z.eqb_spec (id mod 32) b), (Z.eqb_spec id (i * 32 + b)); try done; divmod_lia.
      - destruct (Z.eqb_spec id (i * 32 + b)) as [->|]; [|by rewrite andb_true_r]. exfalso. apply Ei. divmod_lia. }
    assert (Hlow' : forall id, 0 <= id < n -> id < i * 32 + b -> id ∈ U).
    { intros id Hid Hlt'. destruct (Z_lt_le_dec id (32 * i)) as [|Hge']; [by apply Hb|].
      pose proof (Hbits id Hid) as Hbid. replace id with (i * 32 + (id - 32 * i)) in Hbid at 1 by lia.
      rewrite (free_bit_word _ _ e) in Hbid by (done || lia). rewrite Hlow in Hbid by lia. by apply negb_sym, bool_decide_eq_true in Hbid. }
    assert (Hwes : Forall (fun x => 0 <= x < 2 ^ 32) es) by (apply Forall_insert; [done|by apply land_word]).
    destruct (Z.ltb_spec (last_id ctx) (i * 32 + b)) as [Hover|Hin].
    + eexists _, (-1). split; [done|]. right. split; [done|]. assert (Hall : forall id, 0 <= id < n -> id ∈ U) by (intros id Hid; apply Hlow'; lia).
      split; [done|]. split; cbn [set_flags set_elems last_id nelems elems flags]; try done; try (unfold INT_MAX; lia).
      * unfold es. by rewrite zlen_insert.
      * intros id Hid. rewrite Hes, Hbits by lia. rewrite (proj2 (Z.eqb_neq _ _)) by lia. by rewrite andb_true_r.
    + eexists _, (i * 32 + b). split; [done|]. left. split; [lia|].
      assert (Hnu : i * 32 + b ∉ U).
      { intros Hin'. pose proof (Hbits (i * 32 + b) ltac:(lia)) as Hbid. rewrite (free_bit_word _ _ e) in Hbid by (done || lia).
        rewrite Hbit in Hbid. by rewrite bool_decide_eq_true_2 in Hbid. }
      split; [done|]. split; [intros id Hid; apply Hlow'; lia|].
      split; cbn [set_flags set_elems last_id nelems elems flags]; try done; try (unfold INT_MAX; lia).
      * unfold es. by rewrite zlen_insert.
      * intros id [->%elem_of_singleton|Hid]%elem_of_union; [lia|by apply Hused].
      * intros id Hid. rewrite Hes, Hbits by lia. destruct (Z.eqb_spec id (i * 32 + b)) as [->|Hne].
        -- rewrite andb_false_r, bool_decide_eq_true_2 by set_solver. done.
        -- rewrite andb_true_r. f_equal. apply bool_decide_ext. set_solver.
      * rewrite Hfl. done.
Qed.

Lemma use_next_spec ctx n U : repr ctx n U ->
  exists ctx' r, idset_use_next ctx = Ret (ctx', r) /\
    ((0 <= r < n /\ (r ∉ U) /\ (forall id, 0 <= id < r -> id ∈ U) /\ repr ctx' n ({[r]} ∪ U)) \/
     (r = -1 /\ (forall id, 0 <= id < n -> id ∈ U) /\ repr ctx' n U)).
Proof.
  intros Hr. unfold idset_use_next. destruct (flag_set (flags ctx) IDSETF_FULL) eqn:Ef.
  - exists ctx, (-1). split; [done|]. right. split; [done|]. split; [|done]. by apply (r_full _ _ _ Hr).
  - pose proof (r_elems _ _ _ Hr) as Hl. unfold zlen in Hl. apply use_loop_spec; [done|done|lia|lia|lia].
Qed.

Lemma clear_spec ctx n U id : repr ctx n U ->
  exists ctx', idset_clear ctx id = Ret ctx' /\ repr ctx' n (U ∖ {[id]}).
Proof.
  intros Hr. pose proof Hr as [Hlast [Hn0 Hn] Hmax Hlen Hw Hused Hbits Hfull]. unfold INT_MAX in Hmax. unfold idset_clear.
  destruct (Z.ltb_spec id 0) as [Hneg|Hpos]; [|destruct (Z.ltb_spec (last_id ctx) id) as [Hbig|Hid]]; cbn [orb].
  1, 2: exists ctx; split; [done|]; assert (U ∖ {[id]} = U) as -> by (apply leibniz_equiv; intros x; split; [set_solver|];
    intros Hx; apply elem_of_difference; split; [done|]; intros ->%elem_of_singleton; apply Hused in Hx; lia); done.
  rewrite (uw_small 32 id) by lia. destruct (floor_spec id ltac:(lia)) as [Ef Em]. rewrite Ef, Em. assert (0 <= id / 32) by (apply Z.div_pos; lia).
  rewrite (uw_small 32 (id / 32)), (uw_small 32 (id mod 32)) by divmod_lia.
  assert (id / 32 < nelems ctx) by divmod_lia. rewrite (proj2 (Z.ltb_lt _ _)) by done.
  destruct (rd_in (elems ctx) (id / 32) ltac:(lia)) as (e & -> & He). cbn [mbind outcome_mbind]. rewrite wr_in by lia. cbn [mbind outcome_mbind].
  pose proof (proj1 (Forall_lookup _ _) Hw _ _ He) as Hew. simpl in Hew. eexists. split; [done|].
  split; cbn [set_flags set_elems last_id nelems elems flags]; try done; try (unfold INT_MAX; lia).
  - by rewrite zlen_insert.
  - apply Forall_insert; [done|]. apply lor_word; [done|]. apply (uw_range 32). lia.
  - intros x Hx. apply Hused. set_solver.
  - intros x Hx. rewrite (free_bit_insert _ _ e) by (done || lia). destruct (Z.eqb_spec (x / 32) (id / 32)) as [Ex|Ex].
    + rewrite Z.lor_spec, single_bit by divmod_lia. pose proof (Hbits x Hx) as Hb. unfold free_bit in Hb.
      rewrite Ex, (nth_lookup_Some _ _ _ _ He) in Hb. rewrite Hb. destruct (Z.eqb_spec (x mod 32) (id mod 32)) as [Em'|Em'].
      * assert (x = id) as -> by divmod_lia. rewrite orb_true_r, bool_decide_eq_false_2 by set_solver. done.
      * assert (x <> id) by congruence. rewrite orb_false_r. f_equal. apply bool_decide_ext. set_solver.
    + rewrite Hbits by done. f_equal. apply bool_decide_ext. assert (x <> id) by congruence. set_solver.
  - assert (E : flag_set (Z.land (flags ctx) (Z.lnot IDSETF_FULL)) IDSETF_FULL = false); [|by rewrite E].
    unfold flag_set. rewrite <- Z.land_assoc. change (Z.land (Z.lnot IDSETF_FULL) IDSETF_FULL) with 0. by rewrite Z.land_0_r.
Qed.

(** ** Runs *)

Inductive op : Type := UseNext | Clear (id : Z).

Definition exec (ctx : idset_ctx) (o : op) : outcome (idset_ctx * option Z) :=
  match o with
  | UseNext => '(ctx, r) ← idset_use_next ctx; Ret (ctx, Some r)
  | Clear id => ctx ← idset_clear ctx id; Ret (ctx, None)
  end.

Fixpoint run (ctx : idset_ctx) (os : list op) : outcome (idset_ctx * list (option Z)) :=
  match os with
  | [] => Ret (ctx, [])
  | o :: os => '(ctx, r) ← exec ctx o; '(ctx, rs) ← run ctx os; Ret (ctx, r :: rs)
  end.

(** what the set of the identifiers in use does *)
Inductive step (n : Z) (U : gset Z) : op -> option Z -> gset Z -> Prop :=
  | step_use id : 0 <= id < n -> id ∉ U -> (forall j, 0 <= j < id -> j ∈ U) -> step n U UseNext (Some id) ({[id]} ∪ U)
  | step_none : (forall j, 0 <= j < n -> j ∈ U) -> step n U UseNext (Some (-1)) U
  | step_clear id : step n U (Clear id) None (U ∖ {[id]}).

Inductive steps (n : Z) : gset Z -> list op -> list (option Z) -> gset Z -> Prop :=
  | steps_nil U : steps n U [] [] U
  | steps_cons U o r U' os rs U'' : step n U o r U' -> steps n U' os rs U'' -> steps n U (o :: os) (r :: rs) U''.

Lemma run_spec os : forall ctx n U, repr ctx n U -> exists ctx' rs U', run ctx os = Ret (ctx', rs) /\ steps n U os rs U' /\ repr ctx' n U'.
Proof.
  induction os as [|o os IH]; intros ctx n U Hr; [exists ctx, [], U; split; [done|]; split; [constructor|done]|].
  assert (H : exists ctx1 r U1, exec ctx o = Ret (ctx1, r) /\ step n U o r U1 /\ repr ctx1 n U1).
  { destruct o as [|id]; cbn [exec].
    - destruct (use_next_spec ctx n U Hr) as (ctx1 & r & -> & [(H1 & H2 & H3 & H4)|(-> & H1 & H2)]); cbn [mbind outcome_mbind].
      + exists ctx1, (Some r), ({[r]} ∪ U). split; [done|]. split; [by apply step_use|done].
      + exists ctx1, (Some (-1)), U. split; [done|]. split; [by apply step_none|done].
    - destruct (clear_spec ctx n U id Hr) as (ctx1 & -> & H1). cbn [mbind outcome_mbind]. exists ctx1, None, (U ∖ {[id]}). split; [done|].
      split; [by apply step_clear|done]. }
  destruct H as (ctx1 & r & U1 & E1 & Hs & Hr1). destruct (IH _ _ _ Hr1) as (ctx2 & rs & U2 & E2 & Hss & Hr2).
  exists ctx2, (r :: rs), U2. cbn [run]. rewrite E1. cbn [mbind outcome_mbind]. rewrite E2. cbn [mbind outcome_mbind].
  split; [done|]. split; [by econstructor|done].
Qed.

(** C36: a set for [nids] identifiers can be made, given memory, exactly for 1 to
    2^31 - 32 of them; from then on every sequence of calls takes the least
    identifier that is not in use, or -1 when there is none, and takes back any
    identifier, without an access outside the set. *)
Theorem idset_refines alloc_ok nids : 0 <= nids < 2 ^ 32 ->
  match idset_new alloc_ok nids with
  | Some ctx => 0 < nids <= INT_MAX - 31 /\ forall os, exists ctx' rs U, run ctx os = Ret (ctx', rs) /\ steps nids ∅ os rs U
  | None => nids = 0 \/ INT_MAX - 31 < nids \/ exists n, alloc_ok n = false
  end.
Proof.
  intros Hn. pose proof (idset_new_spec alloc_ok nids Hn) as H. destruct (idset_new alloc_ok nids) as [ctx|]; [|done].
  destruct H as [Hr0 Hr]. split; [done|]. intros os. destruct (run_spec os _ _ _ Hr) as (ctx' & rs & U & E & Hs & _). by exists ctx', rs, U.
Qed.

Lemma idset_refines_witness :
  match idset_new (fun _ => true) 33 with
  | Some ctx => 0 < 33 <= INT_MAX - 31 /\ forall os, exists ctx' rs U, run ctx os = Ret (ctx', rs) /\ steps 33 ∅ os rs U
  | None => 33 = 0 \/ INT_MAX - 31 < 33 \/ exists n : Z, (fun _ => true) n = false
  end.
Proof. apply (idset_refines (fun _ => true) 33). split; [discriminate|reflexivity]. Defined.

Example run_two : option_map (fun ctx => match run ctx [UseNext; UseNext; UseNext; Clear 0; UseNext] with Ret (_, rs) => rs | _ => [] end)
  (idset_new (fun _ => true) 2) = Some [Some 0; Some 1; Some (-1); None; Some 0].
Proof. reflexivity. Qed.
