(* ===== verification/Reaplan.v ===== *)
(** * Concurrent connections (src/lib/net/reaplan.c)

    A plan keeps a number of connections open at a time: it asks the
    application for new ones, waits for the kernel to report what has happened
    to them, hands it on and closes the ones that are done or have expired.

    The kernel, the application and the TLS library are an [Env]: what they do
    to a world [W] when they are called.  The theorems are proved for every
    environment that keeps its part of the contract, [EnvLaws]. *)

From stdpp Require Import gmap fin_maps fin_map_dom.
From S2P Require Import Prelude Idset.

(** ** Constants of FreeBSD *)

Definition EINTR : Z := 4.
Definition EAGAIN : Z := 35.
Definition EVFILT_READ : Z := -1.
Definition EVFILT_WRITE : Z := -2.
Definition EVFILT_TIMER : Z := -7.
Definition EV_ADD : Z := 0x1.
Definition EV_DELETE : Z := 0x2.
Definition EV_ONESHOT : Z := 0x10.
Definition EV_ERROR : Z := 0x4000.
Definition EV_EOF : Z := 0x8000.
Definition NOTE_SECONDS : Z := 1.
Definition NOTE_MSECONDS : Z := 2.
Definition SSL_ERROR_WANT_READ : Z := 2.
Definition SSL_ERROR_WANT_WRITE : Z := 3.

(** [udata] points to a connection, given by its index *)
Record kevent : Type := Kevent {
  ev_ident : Z;
  ev_filter : Z;
  ev_flags : Z;
  ev_fflags : Z;
  ev_data : Z;
  ev_udata : option Z;
}.

(** ** Data *)

Definition TIMEOUT_TIMER : Z := 666.
Definition SECONDS_TOCHECK : Z := 2.

Definition REAPLAN_ERR : Z := -1.
Definition REAPLAN_OK : Z := 0.
Definition REAPLANC_ERR : Z := -1.
Definition REAPLANC_OK : Z := 0.
Definition REAPLANC_DONE : Z := 1.
Definition REAPLANC_WAIT : Z := 2.

Definition REAPLAN_READABLE : Z := 1.
Definition REAPLAN_WRITABLE_ONESHOT : Z := 2.
Definition REAPLAN_TLS_HANDSHAKE : Z := 4.

(** [ssl] is a handle of the TLS library *)
Record reaplan_conn : Type := Conn {
  expires : Z;
  udata : Z;
  fd : Z;
  flags : Z;
  rflags : Z;
  nwritten : Z;
  nread : Z;
  ssl : option Z;
}.

(** the callbacks are in the environment; these tell whether they are there *)
Record reaplan_opts : Type := Opts {
  has_on_connect : bool;
  has_on_done : bool;
  timeout : Z;
  max_clients : Z;
  connects_per_tick : Z;
  mdelay_per_tick : Z;
  ssl_ctx : bool;
}.

(** [closeconns] has indices of connections *)
Record reaplan_ctx : Type := Ctx {
  evs : list kevent;
  ids : idset_ctx;
  conns : list reaplan_conn;
  closeconns : list Z;
  last_time : Z;
  active_conns : Z;
  ncloseconns : Z;
  timer_active : Z;
  connect_done : Z;
  throttle_connect : Z;
}.

Definition set_fd (c : reaplan_conn) (x : Z) : reaplan_conn :=
  Conn (expires c) (udata c) x (flags c) (rflags c) (nwritten c) (nread c) (ssl c).
Definition set_flags (c : reaplan_conn) (x : Z) : reaplan_conn :=
  Conn (expires c) (udata c) (fd c) x (rflags c) (nwritten c) (nread c) (ssl c).
Definition set_rflags (c : reaplan_conn) (x : Z) : reaplan_conn :=
  Conn (expires c) (udata c) (fd c) (flags c) x (nwritten c) (nread c) (ssl c).
Definition set_expires (c : reaplan_conn) (x : Z) : reaplan_conn :=
  Conn x (udata c) (fd c) (flags c) (rflags c) (nwritten c) (nread c) (ssl c).
Definition set_ssl (c : reaplan_conn) (x : option Z) : reaplan_conn :=
  Conn (expires c) (udata c) (fd c) (flags c) (rflags c) (nwritten c) (nread c) x.
Definition set_nread (c : reaplan_conn) (x : Z) : reaplan_conn :=
  Conn (expires c) (udata c) (fd c) (flags c) (rflags c) (nwritten c) x (ssl c).
Definition set_nwritten (c : reaplan_conn) (x : Z) : reaplan_conn :=
  Conn (expires c) (udata c) (fd c) (flags c) (rflags c) x (nread c) (ssl c).

Definition set_evs (c : reaplan_ctx) (x : list kevent) : reaplan_ctx :=
  Ctx x (ids c) (conns c) (closeconns c) (last_time c) (active_conns c) (ncloseconns c) (timer_active c) (connect_done c) (throttle_connect c).
Definition set_ids (c : reaplan_ctx) (x : idset_ctx) : reaplan_ctx :=
  Ctx (evs c) x (conns c) (closeconns c) (last_time c) (active_conns c) (ncloseconns c) (timer_active c) (connect_done c) (throttle_connect c).
Definition set_conns (c : reaplan_ctx) (x : list reaplan_conn) : reaplan_ctx :=
  Ctx (evs c) (ids c) x (closeconns c) (last_time c) (active_conns c) (ncloseconns c) (timer_active c) (connect_done c) (throttle_connect c).
Definition set_queue (c : reaplan_ctx) (x : list Z) (n : Z) : reaplan_ctx :=
  Ctx (evs c) (ids c) (conns c) x (last_time c) (active_conns c) n (timer_active c) (connect_done c) (throttle_connect c).
Definition set_last_time (c : reaplan_ctx) (x : Z) : reaplan_ctx :=
  Ctx (evs c) (ids c) (conns c) (closeconns c) x (active_conns c) (ncloseconns c) (timer_active c) (connect_done c) (throttle_connect c).
Definition set_active (c : reaplan_ctx) (x : Z) : reaplan_ctx :=
  Ctx (evs c) (ids c) (conns c) (closeconns c) (last_time c) x (ncloseconns c) (timer_active c) (connect_done c) (throttle_connect c).
Definition set_timer (c : reaplan_ctx) (x : Z) : reaplan_ctx :=
  Ctx (evs c) (ids c) (conns c) (closeconns c) (last_time c) (active_conns c) (ncloseconns c) x (connect_done c) (throttle_connect c).
Definition set_done (c : reaplan_ctx) (x : Z) : reaplan_ctx :=
  Ctx (evs c) (ids c) (conns c) (closeconns c) (last_time c) (active_conns c) (ncloseconns c) (timer_active c) x (throttle_connect c).
Definition set_throttle (c : reaplan_ctx) (x : Z) : reaplan_ctx :=
  Ctx (evs c) (ids c) (conns c) (closeconns c) (last_time c) (active_conns c) (ncloseconns c) (timer_active c) (connect_done c) x.

(** ** Programs that may fail an assertion *)

Definition prog (A : Type) : Type := outcome (option A).
#[export] Instance prog_mret : MRet prog := fun A a => Ret (Some a).
#[export] Instance prog_mbind : MBind prog := fun A B f m =>
  match m with
  | Ret (Some a) => f a
  | Ret None => Ret None
  | OutOfBounds => OutOfBounds
  | OutOfFuel => OutOfFuel
  end.
Definition lift {A} (m : outcome A) : prog A := match m with Ret a => Ret (Some a) | OutOfBounds => OutOfBounds | OutOfFuel => OutOfFuel end.
Definition assert_ (b : bool) : prog () := if b then mret () else Ret None.

(** ** The environment *)

(** Callbacks get the connection and its index and give back the connection;
    [kevent] registers changes and gives an errno or at most that many events,
    [clock_gettime] the seconds, unless it fails. *)
Class Env (W : Type) : Type := {
  on_connect : W -> Z -> reaplan_conn -> W * reaplan_conn * Z;
  on_readable : W -> Z -> reaplan_conn -> W * reaplan_conn * Z * Z;
  on_writable : W -> Z -> reaplan_conn -> W * reaplan_conn * Z * Z;
  on_done : W -> Z -> reaplan_conn -> W * reaplan_conn;
  close : W -> Z -> W;
  kevent_wait : W -> list kevent -> Z -> bool -> W * (Z + list kevent);
  kevent_change : W -> list kevent -> W;
  clock_gettime : W -> W * option Z;
  SSL_free : W -> Z -> W;
  SSL_connect : W -> Z -> W * Z * Z;
}.

Section Plan.
Context {W : Type} `{Env W} (opts : reaplan_opts).

Definition reaplan_conn_id (conn : Z) : Z :=
  if (conn <? 0) || (max_clients opts <=? conn) then -1 else conn.

Definition reaplan_conn_close (ctx : reaplan_ctx) (w : W) (conn : Z) : prog (reaplan_ctx * W) :=
  c ← lift (rd (conns ctx) conn);
  let w := close w (fd c) in
  let c := set_fd c (-1) in
  let '(w, c) := if has_on_done opts then on_done w conn c else (w, c) in
  let '(w, c) := match ssl c with Some s => (SSL_free w s, set_ssl c None) | None => (w, c) end in
  cs ← lift (wr (conns ctx) conn c);
  let ctx := set_active (set_conns ctx cs) (i32 (active_conns ctx - 1)) in
  let id := reaplan_conn_id conn in
  _ ← assert_ (0 <=? id);
  s ← lift (idset_clear (ids ctx) id);
  mret (set_ids ctx s, w).

Definition reset_close_queue (ctx : reaplan_ctx) : reaplan_ctx := set_queue ctx (closeconns ctx) 0.

Fixpoint close_loop (n : nat) (ctx : reaplan_ctx) (w : W) (i : Z) : prog (reaplan_ctx * W) :=
  match n with
  | O => mret (ctx, w)
  | S n =>
      conn ← lift (rd (closeconns ctx) i);
      '(ctx, w) ← reaplan_conn_close ctx w conn;
      close_loop n ctx w (i + 1)
  end.

(** closing does not change the queue *)
Definition close_conns (ctx : reaplan_ctx) (w : W) : prog (reaplan_ctx * W) :=
  close_loop (Z.to_nat (ncloseconns ctx)) ctx w 0.

Fixpoint queued (n : nat) (q : list Z) (i : Z) (conn : Z) : outcome bool :=
  match n with
  | O => Ret false
  | S n => x ← rd q i; if x =? conn then Ret true else queued n q (i + 1) conn
  end.

Definition enqueue_close_conn (ctx : reaplan_ctx) (conn : Z) : outcome (reaplan_ctx * Z) :=
  if ncloseconns ctx =? connects_per_tick opts then Ret (ctx, REAPLAN_ERR)
  else
    found ← queued (Z.to_nat (ncloseconns ctx)) (closeconns ctx) 0 conn;
    if (found : bool) then Ret (ctx, REAPLAN_OK)
    else
      q ← wr (closeconns ctx) (ncloseconns ctx) conn;
      Ret (set_queue ctx q (ncloseconns ctx + 1), REAPLAN_OK).

(** a null connection is the one that [calloc] gives, without a descriptor *)
Definition no_conn : reaplan_conn := Conn 0 0 (-1) 0 0 0 0 None.
Definition no_event : kevent := Kevent 0 0 0 0 0 None.

(** [kqueue_ok] tells whether the kernel gives a queue *)
Definition reaplan_init (alloc_ok : Z -> bool) (kqueue_ok : bool) : option reaplan_ctx :=
  if negb (has_on_connect opts) || (max_clients opts =? 0) || (connects_per_tick opts =? 0) ||
     (max_clients opts <? connects_per_tick opts) then None
  else if negb kqueue_ok then None
  else
    match idset_new alloc_ok (max_clients opts) with
    | None => None
    | Some s =>
        if negb (alloc_ok (64 * max_clients opts)) then None
        else if negb (alloc_ok (8 * connects_per_tick opts)) then None
        else
          let n := u32 (u32 (connects_per_tick opts * 2) + 1) in
          if negb (alloc_ok (64 * n)) then None
          else Some (Ctx (replicate (Z.to_nat n) no_event) s (replicate (Z.to_nat (max_clients opts)) no_conn)
            (replicate (Z.to_nat (connects_per_tick opts)) 0) 0 0 0 0 0 0)
    end.

(** *** Events of a connection *)

Definition is_done (ret errno : Z) : bool := (ret =? 0) || ((ret <? 0) && negb (errno =? EAGAIN)).

Definition handle_readable (ctx : reaplan_ctx) (w : W) (conn : Z) : prog (reaplan_ctx * W) :=
  c ← lift (rd (conns ctx) conn);
  let '(w, c, ret, errno) := on_readable w conn c in
  cs ← lift (wr (conns ctx) conn c);
  let ctx := set_conns ctx cs in
  if is_done ret errno then '(ctx, _) ← lift (enqueue_close_conn ctx conn); mret (ctx, w)
  else mret (ctx, w).

Definition handle_writable (ctx : reaplan_ctx) (w : W) (conn : Z) : prog (reaplan_ctx * W) :=
  c ← lift (rd (conns ctx) conn);
  let '(w, c, ret, errno) := on_writable w conn c in
  cs ← lift (wr (conns ctx) conn c);
  let ctx := set_conns ctx cs in
  if is_done ret errno then '(ctx, _) ← lift (enqueue_close_conn ctx conn); mret (ctx, w)
  else mret (ctx, w).

Definition handle_tls_handshake (ctx : reaplan_ctx) (w : W) (conn : Z) : prog (reaplan_ctx * W) :=
  c ← lift (rd (conns ctx) conn);
  _ ← assert_ (ssl_ctx opts);
  match ssl c with
  | None => Ret None
  | Some s =>
      let '(w, ret, err) := SSL_connect w s in
      if ret <? 0 then
        if err =? SSL_ERROR_WANT_WRITE then
          mret (ctx, kevent_change w [Kevent (fd c) EVFILT_WRITE (Z.lor EV_ADD EV_ONESHOT) 0 0 (Some conn)])
        else if negb (err =? SSL_ERROR_WANT_READ) then
          '(ctx, _) ← lift (enqueue_close_conn ctx conn); mret (ctx, w)
        else mret (ctx, w)
      else if ret =? 0 then '(ctx, _) ← lift (enqueue_close_conn ctx conn); mret (ctx, w)
      else
        let readable := flag_set (rflags c) REAPLAN_READABLE in
        let writable := flag_set (rflags c) REAPLAN_WRITABLE_ONESHOT in
        let fl := Z.lor (if readable then REAPLAN_READABLE else 0) (if writable then REAPLAN_WRITABLE_ONESHOT else 0) in
        let changes :=
          (if readable then [] else [Kevent (fd c) EVFILT_READ EV_DELETE 0 0 (Some conn)]) ++
          (if writable then [Kevent (fd c) EVFILT_WRITE (Z.lor EV_ADD EV_ONESHOT) 0 0 (Some conn)] else []) in
        cs ← lift (wr (conns ctx) conn (set_flags c fl));
        let ctx := set_conns ctx cs in
        _ ← assert_ (0 <? zlen changes);
        mret (ctx, kevent_change w changes)
  end.

(** an event of a connection has its address *)
Definition conn_of (ev : kevent) : outcome Z := match ev_udata ev with Some conn => Ret conn | None => OutOfBounds end.

Definition handle_event (ctx : reaplan_ctx) (w : W) (ev : kevent) : prog (reaplan_ctx * W) :=
  if flag_set (ev_flags ev) EV_ERROR && ((ev_filter ev =? EVFILT_READ) || (ev_filter ev =? EVFILT_WRITE)) then
    conn ← lift (conn_of ev);
    '(ctx, _) ← lift (enqueue_close_conn ctx conn);
    mret (ctx, w)
  else if ev_filter ev =? EVFILT_READ then
    conn ← lift (conn_of ev);
    ctx ← (if flag_set (ev_flags ev) EV_EOF then '(ctx, _) ← lift (enqueue_close_conn ctx conn); mret ctx else mret ctx);
    c ← lift (rd (conns ctx) conn);
    if flag_set (flags c) REAPLAN_TLS_HANDSHAKE then handle_tls_handshake ctx w conn
    else if 0 <? ev_data ev then handle_readable ctx w conn
    else mret (ctx, w)
  else if ev_filter ev =? EVFILT_WRITE then
    conn ← lift (conn_of ev);
    if flag_set (ev_flags ev) EV_EOF then '(ctx, _) ← lift (enqueue_close_conn ctx conn); mret (ctx, w)
    else
      c ← lift (rd (conns ctx) conn);
      if flag_set (flags c) REAPLAN_TLS_HANDSHAKE then handle_tls_handshake ctx w conn
      else handle_writable ctx w conn
  else if (ev_filter ev =? EVFILT_TIMER) && (ev_ident ev =? TIMEOUT_TIMER) then
    mret (set_throttle (set_timer ctx 0) 0, w)
  else mret (ctx, w).

Fixpoint handle_loop (evs : list kevent) (ctx : reaplan_ctx) (w : W) : prog (reaplan_ctx * W) :=
  match evs with
  | [] => mret (ctx, w)
  | ev :: evs => '(ctx, w) ← handle_event ctx w ev; handle_loop evs ctx w
  end.

Definition reaplan_handle_events (ctx : reaplan_ctx) (w : W) (evs : list kevent) : prog (reaplan_ctx * W) :=
  '(ctx, w) ← handle_loop evs (reset_close_queue ctx) w;
  close_conns ctx w.

(** *** Connecting *)

(** the loop of [setup_connections]: events are written from [off] on, [i] of
    them so far; a connection that wants no events is closed at once and takes
    no event *)
Fixpoint setup_loop (fuel : nat) (ctx : reaplan_ctx) (w : W) (off i end_ t result : Z) : prog (reaplan_ctx * W * Z * Z) :=
  match fuel with
  | O => OutOfFuel
  | S fuel =>
      if i <=? u64 (end_ - 2) then
        '(s, conn_id) ← lift (idset_use_next (ids ctx));
        let ctx := set_ids ctx s in
        if conn_id <? 0 then mret (ctx, w, REAPLANC_WAIT, i)
        else
          cs ← lift (wr (conns ctx) conn_id no_conn);
          let '(w, curr, result) := on_connect w conn_id no_conn in
          cs ← lift (wr cs conn_id curr);
          let ctx := set_conns ctx cs in
          if negb (result =? REAPLANC_OK) || (fd curr <? 0) then
            s ← lift (idset_clear (ids ctx) conn_id);
            mret (set_ids ctx s, w, result, i)
          else
            let ctx := set_active ctx (i32 (active_conns ctx + 1)) in
            if negb (flag_set (rflags curr) (Z.lor REAPLAN_READABLE REAPLAN_WRITABLE_ONESHOT)) then
              '(ctx, w) ← reaplan_conn_close ctx w conn_id;
              setup_loop fuel ctx w off i end_ t result
            else
              let tls := match ssl curr with Some _ => true | None => false end in
              let readable := tls || flag_set (rflags curr) REAPLAN_READABLE in
              let writable := tls || flag_set (rflags curr) REAPLAN_WRITABLE_ONESHOT in
              let fl :=
                if tls then Z.lor (flags curr) REAPLAN_TLS_HANDSHAKE
                else Z.lor (Z.lor (flags curr) (if readable then REAPLAN_READABLE else 0)) (if writable then REAPLAN_WRITABLE_ONESHOT else 0) in
              cs ← lift (wr (conns ctx) conn_id (set_flags (set_expires curr t) fl));
              '(es, i) ← (if readable then
                es ← lift (wr (evs ctx) (off + i) (Kevent (fd curr) EVFILT_READ EV_ADD 0 0 (Some conn_id))); mret (es, i + 1)
                else mret (evs ctx, i));
              '(es, i) ← (if writable then
                es ← lift (wr es (off + i) (Kevent (fd curr) EVFILT_WRITE (Z.lor EV_ADD EV_ONESHOT) 0 0 (Some conn_id))); mret (es, i + 1)
                else mret (es, i));
              setup_loop fuel (set_evs (set_conns ctx cs) es) w off i end_ t result
      else mret (ctx, w, result, i)
  end.

(** the status and the number of events *)
Definition setup_connections (fuel : nat) (ctx : reaplan_ctx) (w : W) (off nevs t : Z) : prog (reaplan_ctx * W * Z * Z) :=
  setup_loop fuel ctx w off 0 nevs t REAPLANC_ERR.

(** *** The timer *)

(** the connections from [i] on that have expired *)
Fixpoint expire_loop (n : nat) (ctx : reaplan_ctx) (w : W) (i now : Z) : prog (reaplan_ctx * W) :=
  match n with
  | O => mret (ctx, w)
  | S n =>
      if 0 <? active_conns ctx then
        curr ← lift (rd (conns ctx) i);
        '(ctx, w) ← (if (0 <=? fd curr) && (expires curr <=? now) then reaplan_conn_close ctx w i else mret (ctx, w));
        expire_loop n ctx w (i + 1) now
      else mret (ctx, w)
  end.

Definition reaplan_update_timer (ctx : reaplan_ctx) (w : W) : prog (reaplan_ctx * W * Z) :=
  if negb (timer_active ctx =? 0) then mret (ctx, w, 0)
  else
    '(ctx, w) ←
      (if 0 <? timeout opts then
        let '(w, t) := clock_gettime w in
        let now := default 0 t in
        if last_time ctx <? now then
          '(ctx, w) ← expire_loop (Z.to_nat (max_clients opts)) ctx w 0 now;
          mret (set_last_time ctx now, w)
        else mret (ctx, w)
      else mret (ctx, w));
    if negb (connect_done ctx =? 0) || (active_conns ctx =? max_clients opts) then
      es ← lift (wr (evs ctx) 0 (Kevent TIMEOUT_TIMER EVFILT_TIMER (Z.lor EV_ADD EV_ONESHOT) NOTE_SECONDS SECONDS_TOCHECK None));
      mret (set_timer (set_evs ctx es) 1, w, 1)
    else if mdelay_per_tick opts <=? 0 then mret (ctx, w, 0)
    else
      es ← lift (wr (evs ctx) 0 (Kevent TIMEOUT_TIMER EVFILT_TIMER (Z.lor EV_ADD EV_ONESHOT) NOTE_MSECONDS (mdelay_per_tick opts) None));
      mret (set_timer (set_evs ctx es) 1, w, 1).

(** *** The main loop *)

(** waiting again after a signal *)
Fixpoint kevent_again (fuel : nat) (w : W) (changes : list kevent) (n : Z) (nodelay : bool) : outcome (W * option (list kevent)) :=
  match fuel with
  | O => OutOfFuel
  | S fuel =>
      match kevent_wait w changes n nodelay with
      | (w, inl errno) => if errno =? EINTR then kevent_again fuel w changes n nodelay else Ret (w, None)
      | (w, inr evs) => Ret (w, Some evs)
      end
  end.

(** what the loop carries: events to register, and when new connections expire *)
Record loop_state : Type := Loop {
  l_ctx : reaplan_ctx;
  l_w : W;
  l_nevs : Z;
  l_expires : Z;
}.

(** a turn of the loop: the state after it, or [REAPLAN_ERR] *)
Definition turn (fuel : nat) (s : loop_state) : prog (loop_state + reaplan_ctx * W) :=
  let '(Loop ctx w nevs t) := s in
  r ←
    (if (connect_done ctx =? 0) && ((mdelay_per_tick opts <=? 0) || (throttle_connect ctx =? 0)) then
      let '(w, t) :=
        if 0 <? timeout opts then
          let '(w, now) := clock_gettime w in
          (w, match now with Some now => now + timeout opts | None => t end)
        else (w, t) in
      '(ctx, w, ret, new_nevs) ← setup_connections fuel ctx w nevs (u32 (connects_per_tick opts * 2)) t;
      if ret =? REAPLANC_ERR then mret (inr (ctx, w))
      else
        let ctx := if ret =? REAPLANC_DONE then set_done ctx 1 else ctx in
        mret (inl (set_throttle ctx 1, w, nevs + new_nevs, t))
    else mret (inl (ctx, w, nevs, t)));
  match r with
  | inr e => mret (inr e)
  | inl (ctx, w, nevs, t) =>
      let nodelay := (mdelay_per_tick opts <=? 0) && (connect_done ctx =? 0) && (active_conns ctx <? max_clients opts) in
      changes ← lift (rds (evs ctx) 0 nevs);
      '(w, res) ← lift (kevent_again fuel w changes (connects_per_tick opts) nodelay);
      match res with
      | None => mret (inr (ctx, w))
      | Some l =>
          es ← lift (wrs (evs ctx) 0 l);
          '(ctx, w) ← reaplan_handle_events (set_evs ctx es) w l;
          '(ctx, w, n) ← reaplan_update_timer ctx w;
          mret (inl (Loop ctx w n t))
      end
  end.

Definition finished (s : loop_state) : bool :=
  negb ((connect_done (l_ctx s) =? 0) || (0 <? active_conns (l_ctx s))).

Fixpoint run_loop (fuel : nat) (s : loop_state) : prog (reaplan_ctx * W * Z) :=
  match fuel with
  | O => OutOfFuel
  | S fuel' =>
      if finished s then mret (l_ctx s, l_w s, REAPLAN_OK)
      else
        r ← turn fuel s;
        match r with
        | inl s => run_loop fuel' s
        | inr (ctx, w) => mret (ctx, w, REAPLAN_ERR)
        end
  end.

Definition reaplan_run (fuel : nat) (ctx : reaplan_ctx) (w : W) : prog (reaplan_ctx * W * Z) :=
  let ctx := set_done (set_timer ctx 0) 0 in
  '(ctx, w, n) ← reaplan_update_timer ctx w;
  run_loop fuel (Loop ctx w n 0).

(** the identifiers are freed first: closing a connection uses them again *)
Fixpoint cleanup_loop (n : nat) (ctx : reaplan_ctx) (i : Z) : outcome () :=
  match n with
  | O => Ret ()
  | S n => c ← rd (conns ctx) i; if 0 <=? fd c then OutOfBounds else cleanup_loop n ctx (i + 1)
  end.

Definition reaplan_cleanup (ctx : reaplan_ctx) : outcome () := cleanup_loop (Z.to_nat (max_clients opts)) ctx 0.

End Plan.

(** *** Calls of the callbacks *)

Class ConnEnv (W : Type) : Type := {
  SSL_new : W -> W * option Z;
  SSL_set_fd : W -> Z -> Z -> W * Z;
  SSL_set_tlsext_host_name : W -> Z -> bytes -> W;
  SSL_drop : W -> Z -> W;
  SSL_read : W -> Z -> Z -> W * bytes * Z;
  SSL_write : W -> Z -> bytes -> W * Z;
  SSL_get_error : W -> Z -> Z -> Z;
  fd_read : W -> Z -> Z -> W * bytes * Z;
  fd_send : W -> Z -> bytes -> W * Z;
  set_errno : W -> Z -> W;
  peer_cert_chain : W -> Z -> option bytes;
}.

Section Callbacks.
Context {W : Type} `{ConnEnv W} (opts : reaplan_opts).

Definition reaplan_register_conn (w : W) (conn : reaplan_conn) (fd flags : Z) (name : option bytes) : W * reaplan_conn * Z :=
  if ssl_ctx opts then
    match SSL_new w with
    | (w, None) => (w, set_ssl conn None, -1)
    | (w, Some s) =>
        let '(w, ret) := SSL_set_fd w s fd in
        if negb (ret =? 1) then (SSL_drop w s, set_ssl conn None, -1)
        else
          let w := match name with Some name => SSL_set_tlsext_host_name w s name | None => w end in
          (w, set_rflags (set_fd (set_ssl conn (Some s)) fd) flags, 0)
    end
  else (w, set_rflags (set_fd conn fd) flags, 0).

Definition want_again (w : W) (s ret : Z) : W :=
  if ret <=? 0 then
    let err := SSL_get_error w s ret in
    if (err =? SSL_ERROR_WANT_READ) || (err =? SSL_ERROR_WANT_WRITE) then set_errno w EAGAIN else w
  else w.

(** the bytes read, and the result *)
Definition reaplan_conn_read (w : W) (conn : reaplan_conn) (len : Z) : W * reaplan_conn * bytes * Z :=
  let '(w, data, ret) :=
    match ssl conn with
    | Some s => let '(w, data, ret) := SSL_read w s len in (want_again w s ret, data, ret)
    | None => let '(w, data, ret) := fd_read w (fd conn) len in (w, data, i32 ret)
    end in
  (w, if 0 <? ret then set_nread conn (u32 (nread conn + ret)) else conn, data, ret).

Definition reaplan_conn_write (w : W) (conn : reaplan_conn) (data : bytes) : W * reaplan_conn * Z :=
  let '(w, ret) :=
    match ssl conn with
    | Some s => let '(w, ret) := SSL_write w s data in (want_again w s ret, ret)
    | None => let '(w, ret) := fd_send w (fd conn) data in (w, i32 ret)
    end in
  (w, if 0 <? ret then set_nwritten conn (u32 (nwritten conn + ret)) else conn, ret).

End Callbacks.
