(* ===== verification/ReaplanInv.v ===== *)
(** * Connections are opened and closed once (src/lib/net/reaplan.c)

    The part of the contract that the kernel and the application keep, the
    invariant of a plan, and the theorems about its runs. *)

From stdpp Require Import gmap fin_maps fin_map_dom.
From S2P Require Import Prelude Idset Reaplan.

(** ** The contract *)

(** what a callback leaves as it is *)
Definition internal (c : reaplan_conn) : Z * Z * Z * Z * option Z := (expires c, fd c, flags c, rflags c, ssl c).

(** [opened w] has the connections that were established and not closed, with
    their descriptors.  A callback may connect [pending w] times more at most,
    and a wait is interrupted [retries w] times more at most. *)
Class EnvLaws (W : Type) `{Env W} (opts : reaplan_opts) : Type := {
  opened : W -> gmap Z Z;
  pending : W -> nat;
  retries : W -> nat;
  on_connect_law w i : opened w !! i = None ->
    let '(w', c, ret) := on_connect w i no_conn in
    (ret = REAPLANC_OK /\ 0 <= fd c /\ opened w' = <[i := fd c]> (opened w) /\ (forall j, opened w !! j <> Some (fd c)) /\
      flags c = 0 /\ (ssl c <> None -> ssl_ctx opts = true /\ flag_set (rflags c) REAPLAN_WRITABLE_ONESHOT = true) /\
      (pending w' < pending w)%nat) \/
    ((ret <> REAPLANC_OK \/ fd c < 0) /\ fd c < 0 /\ opened w' = opened w);
  on_readable_law w i c :
    let '(w', c', _, _) := on_readable w i c in opened w' = opened w /\ internal c' = internal c;
  on_writable_law w i c :
    let '(w', c', _, _) := on_writable w i c in opened w' = opened w /\ internal c' = internal c;
  on_done_law w i c :
    let '(w', c') := on_done w i c in opened w' = opened w /\ internal c' = internal c /\ pending w' = pending w;
  close_law w f : opened (close w f) = filter (fun '(_, g) => g <> f) (opened w) /\ pending (close w f) = pending w;
  SSL_free_law w s : opened (SSL_free w s) = opened w /\ pending (SSL_free w s) = pending w;
  SSL_connect_law w s : opened (SSL_connect w s).1.1 = opened w;
  kevent_change_law w l : opened (kevent_change w l) = opened w;
  clock_gettime_law w : opened (clock_gettime w).1 = opened w;
  kevent_wait_law w l n nodelay :
    let '(w', r) := kevent_wait w l n nodelay in
    opened w' = opened w /\
    match r with
    | inl errno => errno = EINTR -> (retries w' < retries w)%nat
    | inr evs => (0 <= n -> zlen evs <= n) /\ Forall (fun ev => ev_filter ev = EVFILT_READ \/ ev_filter ev = EVFILT_WRITE ->
        exists i, ev_udata ev = Some i /\ is_Some (opened w !! i)) evs
    end;
}.

Section Invariant.
Context {W : Type} {E0 : Env W} (opts : reaplan_opts) {L0 : EnvLaws W opts}.

(** ** The invariant *)

Definition opts_ok : Prop :=
  0 < connects_per_tick opts <= max_clients opts /\ max_clients opts <= INT_MAX - 31.

(** a connection in the table, with its descriptor when it is open *)
Definition conn_ok (o : option Z) (c : reaplan_conn) : Prop :=
  match o with
  | Some f => 0 <= f /\ fd c = f /\
      (flag_set (flags c) REAPLAN_TLS_HANDSHAKE = true -> ssl c <> None) /\
      (ssl c <> None -> ssl_ctx opts = true /\ flag_set (rflags c) REAPLAN_WRITABLE_ONESHOT = true)
  | None => fd c < 0
  end.

Record inv (ctx : reaplan_ctx) (w : W) : Prop := Inv {
  i_opts : opts_ok;
  i_ids : repr (ids ctx) (max_clients opts) (dom (opened w));
  i_conns : zlen (conns ctx) = max_clients opts;
  i_conn : forall i c, conns ctx !! Z.to_nat i = Some c -> 0 <= i -> conn_ok (opened w !! i) c;
  i_inj : forall i j f, opened w !! i = Some f -> opened w !! j = Some f -> i = j;
  i_active : active_conns ctx = Z.of_nat (base.size (opened w));
  i_queue : zlen (closeconns ctx) = connects_per_tick opts;
  i_evs : zlen (evs ctx) = 2 * connects_per_tick opts + 1;
}.

(** everything but the connections and the identifiers *)
Definition rest_of (ctx : reaplan_ctx) :=
  (evs ctx, closeconns ctx, ncloseconns ctx, last_time ctx, timer_active ctx, connect_done ctx, throttle_connect ctx).

Lemma open_range ctx w i : inv ctx w -> is_Some (opened w !! i) -> 0 <= i < max_clients opts.
Proof. intros Hi Ho. apply (r_used _ _ _ (i_ids _ _ Hi)). by apply elem_of_dom. Qed.

Lemma open_conn ctx w i : inv ctx w -> 0 <= i < max_clients opts -> exists c, rd (conns ctx) i = Ret c /\ conns ctx !! Z.to_nat i = Some c /\ conn_ok (opened w !! i) c.
Proof.
  intros Hi Hr. destruct (rd_in (conns ctx) i) as (c & E & Hc); [rewrite (i_conns _ _ Hi); lia|].
  exists c. split; [done|]. split; [done|]. apply (i_conn _ _ Hi i c Hc). lia.
Qed.

Lemma active_range ctx w : inv ctx w -> 0 <= active_conns ctx <= max_clients opts.
Proof.
  intros Hi. rewrite (i_active _ _ Hi). split; [lia|]. rewrite <- (size_dom (D := gset Z)).
  assert (dom (opened w) ⊆ (list_to_set (seqZ 0 (max_clients opts)) : gset Z)) as Hs%subseteq_size.
  { intros i Hd. apply elem_of_list_to_set, elem_of_seqZ. pose proof (r_used _ _ _ (i_ids _ _ Hi) i Hd). lia. }
  rewrite size_list_to_set in Hs by apply NoDup_seqZ. rewrite length_seqZ in Hs.
  destruct (i_opts _ _ Hi) as [? _]. lia.
Qed.

(** the table after a change to one connection *)
Lemma conns_update (o o' : gmap Z Z) (cs : list reaplan_conn) i c' : (forall j c, cs !! Z.to_nat j = Some c -> 0 <= j -> conn_ok (o !! j) c) ->
  0 <= i -> conn_ok (o' !! i) c' -> (forall j, j <> i -> o' !! j = o !! j) ->
  forall j c, <[Z.to_nat i := c']> cs !! Z.to_nat j = Some c -> 0 <= j -> conn_ok (o' !! j) c.
Proof.
  intros Hcs H0 Hc' Ho j c Hj Hj0. destruct (decide (j = i)) as [->|Hne].
  - rewrite list_lookup_insert_Some in Hj. destruct Hj as [(_ & <- & _)|[? _]]; [done|lia].
  - rewrite list_lookup_insert_ne in Hj by lia. rewrite Ho by done. by apply Hcs.
Qed.

Lemma same_conn ctx w w' i c c' : inv ctx w -> opened w' = opened w -> conns ctx !! Z.to_nat i = Some c -> 0 <= i -> internal c' = internal c ->
  inv (set_conns ctx (<[Z.to_nat i := c']> (conns ctx))) w'.
Proof.
  intros [Ho Hids Hlen Hc Hinj Ha Hq He] Eo Hi H0 [= E1 E2 E3 E4 E5]. split; cbn [set_conns ids conns active_conns closeconns evs]; rewrite ?Eo; try done.
  - by rewrite zlen_insert.
  - apply (conns_update (opened w)); [done|done| |done]. specialize (Hc i c Hi H0). unfold conn_ok in *. rewrite E2, E3, E4, E5. done.
Qed.

(** *** Closing *)

Lemma filter_delete (m : gmap Z Z) i f : m !! i = Some f -> (forall j, m !! j = Some f -> j = i) ->
  filter (fun '(_, g) => g <> f) m = delete i m.
Proof.
  intros Hi Hinj. apply map_eq. intros j. destruct (decide (j = i)) as [->|Hne].
  - rewrite lookup_delete_eq. apply map_lookup_filter_None. right. intros g Hg. simplify_eq. by intros ?.
  - rewrite lookup_delete_ne by done. destruct (m !! j) as [g|] eqn:Ej.
    + apply map_lookup_filter_Some. split; [done|]. intros ->. by apply Hne, Hinj.
    + apply map_lookup_filter_None. by left.
Qed.

Lemma conn_close_spec ctx w i : inv ctx w -> is_Some (opened w !! i) ->
  exists ctx' w', reaplan_conn_close opts ctx w i = Ret (Some (ctx', w')) /\ inv ctx' w' /\ opened w' = delete i (opened w) /\
    rest_of ctx' = rest_of ctx /\ pending w' = pending w /\ (forall j, 0 <= j -> j <> i -> conns ctx' !! Z.to_nat j = conns ctx !! Z.to_nat j).
Proof.
  intros Hi [f Hf]. pose proof (open_range _ _ i Hi (mk_is_Some _ _ Hf)) as Hr. destruct (open_conn _ _ i Hi Hr) as (c & Erd & Hc & Hok).
  rewrite Hf in Hok. destruct Hok as (Hf0 & Efd & _). pose proof (active_range _ _ Hi) as Hact. pose proof Hi as [Hopts Hids Hlen Hcs Hinj Ha Hq He].
  destruct Hopts as [Hcpt Hmax]. unfold INT_MAX in Hmax. unfold reaplan_conn_close. rewrite Erd. cbn [lift mbind prog_mbind]. cbv zeta.
  rewrite Efd. destruct (close_law w f) as [Ecl Epe]. rewrite (filter_delete _ i) in Ecl by (done || intros j Hj; by eapply Hinj).
  assert (E1 : exists w1 c1, (if has_on_done opts then on_done (close w f) i (set_fd c (-1)) else (close w f, set_fd c (-1))) = (w1, c1) /\
    opened w1 = delete i (opened w) /\ pending w1 = pending w /\ fd c1 < 0 /\ ssl c1 = ssl c).
  { destruct (has_on_done opts); [|eexists _, _; split; [done|]; cbn [set_fd fd ssl]; split; [done|]; split; [done|]; split; [lia|done]].
    pose proof (on_done_law (close w f) i (set_fd c (-1))) as Hd. destruct (on_done _ _ _) as [w1 c1]. exists w1, c1.
    destruct Hd as (-> & [= _ E _ _ E5] & ->). split; [done|]. split; [done|]. split; [done|]. cbn [set_fd fd ssl] in E, E5. split; [lia|done]. }
  destruct E1 as (w1 & c1 & -> & Eo1 & Ep1 & Hfd1 & Es1).
  assert (E2 : exists w2 c2, match ssl c1 with Some s => (SSL_free w1 s, set_ssl c1 None) | None => (w1, c1) end = (w2, c2) /\
    opened w2 = delete i (opened w) /\ pending w2 = pending w /\ fd c2 < 0).
  { destruct (ssl c1) as [s|]; [|by exists w1, c1]. exists (SSL_free w1 s), (set_ssl c1 None). split; [done|].
    destruct (SSL_free_law w1 s) as [-> ->]. done. }
  destruct E2 as (w2 & c2 & -> & Eo2 & Ep2 & Hfd2). rewrite wr_in by lia. cbn [lift]. unfold reaplan_conn_id.
  rewrite (proj2 (Z.ltb_ge i 0)), (proj2 (Z.leb_gt _ i)) by lia. cbn [orb]. unfold assert_. rewrite (proj2 (Z.leb_le 0 i)) by lia. cbn [mret prog_mret].
  cbn [set_active set_conns ids]. destruct (clear_spec (ids ctx) _ _ i Hids) as (s & -> & Hs). cbn [lift mret prog_mret].
  eexists _, w2. split; [reflexivity|]. cbn [set_ids set_active set_conns ids conns evs closeconns ncloseconns last_time active_conns timer_active connect_done throttle_connect].
  split; [|split; [done|split; [done|split; [done|intros j Hj Hne; by rewrite list_lookup_insert_ne by lia]]]].
  assert (Hsz : Z.of_nat (base.size (opened w)) = Z.of_nat (base.size (delete i (opened w))) + 1).
  { rewrite <- (insert_delete_id _ _ _ Hf) at 1. rewrite map_size_insert_None by apply lookup_delete_eq. lia. }
  split; cbn [set_ids set_active set_conns ids conns evs closeconns active_conns]; rewrite ?Eo2; try done.
  - by rewrite dom_delete_L.
  - by rewrite zlen_insert.
  - apply (conns_update (opened w)); [done|lia| |].
    + rewrite lookup_delete_eq. cbn [conn_ok]. done.
    + intros j Hj. by rewrite lookup_delete_ne.
  - intros j k g Hj Hk. apply lookup_delete_Some in Hj as [_ Hj], Hk as [_ Hk]. by eapply Hinj.
  - rewrite Ha in *. rewrite Hsz in *. rewrite sw_small by (simpl; lia). lia.
Qed.

(** *** The queue of connections to close *)

Definition queue (ctx : reaplan_ctx) : list Z := take (Z.to_nat (ncloseconns ctx)) (closeconns ctx).

Record queue_ok (ctx : reaplan_ctx) (w : W) : Prop := QueueOk {
  q_len : 0 <= ncloseconns ctx <= connects_per_tick opts;
  q_nodup : NoDup (queue ctx);
  q_open : Forall (fun i => is_Some (opened w !! i)) (queue ctx);
}.

(** [conn] is the only one that may have been queued *)
Definition queue_step (conn : Z) (ctx ctx' : reaplan_ctx) : Prop :=
  queue ctx' = queue ctx \/ ((conn ∉ queue ctx) /\ queue ctx' = queue ctx ++ [conn]).

Lemma queue_step_trans conn a b c : queue_step conn a b -> queue_step conn b c -> queue_step conn a c.
Proof.
  intros [E|[Hn E]] [F|[Hm F]]; unfold queue_step; rewrite F, E in *; auto. exfalso. apply Hm. rewrite elem_of_app. right. by left.
Qed.

Lemma queue_step_incl conn a b i : queue_step conn a b -> i ∈ queue a -> i ∈ queue b.
Proof. intros [->|[_ ->]]; [done|]. rewrite elem_of_app. by left. Qed.

Lemma queued_spec n q i conn : 0 <= i -> i + Z.of_nat n <= zlen q ->
  queued n q i conn = Ret (bool_decide (conn ∈ take n (drop (Z.to_nat i) q))).
Proof.
  revert i. induction n as [|n IH]; intros i Hi Hn; cbn [queued]; [done|].
  destruct (rd_in q i ltac:(lia)) as (x & -> & Hx). cbn [mbind outcome_mbind]. rewrite (drop_S _ _ _ Hx).
  change (take (S n) (x :: drop (S (Z.to_nat i)) q)) with (x :: take n (drop (S (Z.to_nat i)) q)).
  destruct (Z.eqb_spec x conn) as [->|Hne].
  - by rewrite bool_decide_eq_true_2 by (by left).
  - rewrite IH by lia. replace (Z.to_nat (i + 1)) with (S (Z.to_nat i)) by lia. f_equal. apply bool_decide_ext.
    rewrite elem_of_cons. split; [by right|by intros [?|?]].
Qed.

Lemma enqueue_spec ctx w conn : inv ctx w -> queue_ok ctx w -> is_Some (opened w !! conn) ->
  exists ctx' r, enqueue_close_conn opts ctx conn = Ret (ctx', r) /\ inv ctx' w /\ queue_ok ctx' w /\ queue_step conn ctx ctx' /\
    conns ctx' = conns ctx /\ (ncloseconns ctx < connects_per_tick opts -> conn ∈ queue ctx').
Proof.
  intros Hi Hqo Ho. pose proof Hqo as [Hq Hnd Hop]. pose proof (i_queue _ _ Hi) as Hlen. unfold enqueue_close_conn.
  destruct (Z.eqb_spec (ncloseconns ctx) (connects_per_tick opts)) as [Ef|Ef].
  { exists ctx, REAPLAN_ERR. split; [done|]. split; [done|]. split; [done|]. split; [by left|]. split; [done|lia]. }
  rewrite queued_spec by lia. cbn [mbind outcome_mbind]. change (take _ (drop (Z.to_nat 0) (closeconns ctx))) with (queue ctx).
  destruct (bool_decide_reflect (conn ∈ queue ctx)) as [Hin|Hnin].
  { exists ctx, REAPLAN_OK. split; [done|]. split; [done|]. split; [done|]. split; [by left|]. by split. }
  rewrite wr_in by lia. cbn [mbind outcome_mbind]. set (q := <[_ := _]> _).
  assert (Eq : take (Z.to_nat (ncloseconns ctx + 1)) q = queue ctx ++ [conn]).
  { replace (Z.to_nat (ncloseconns ctx + 1)) with (S (Z.to_nat (ncloseconns ctx))) by lia. unfold q.
    rewrite (take_S_r _ _ conn); [|apply list_lookup_insert_eq; unfold zlen in *; lia]. by rewrite take_insert_ge by lia. }
  eexists _, _. split; [done|]. split.
  { destruct Hi as [? ? ? ? ? ? ? ?]. split; cbn [set_queue ids conns active_conns closeconns evs]; try done. unfold q. by rewrite zlen_insert. }
  split; [split; cbn [set_queue ncloseconns]; [lia|unfold queue; cbn [set_queue ncloseconns closeconns]; rewrite Eq..]|].
  - apply NoDup_app. split; [done|]. split; [|apply NoDup_singleton]. intros x Hx ->%list_elem_of_singleton. done.
  - apply Forall_app. split; [done|by constructor].
  - split; [right; split; [done|exact Eq]|]. split; [done|]. intros _. unfold queue. cbn [set_queue ncloseconns closeconns]. rewrite Eq, elem_of_app. right. by left.
Qed.

(** closing the connections [l], which the queue has from [i] on *)
Lemma close_loop_spec l : forall ctx w i, inv ctx w -> 0 <= i -> NoDup l -> Forall (fun j => is_Some (opened w !! j)) l ->
  take (length l) (drop (Z.to_nat i) (closeconns ctx)) = l ->
  exists ctx' w', close_loop opts (length l) ctx w i = Ret (Some (ctx', w')) /\ inv ctx' w' /\ rest_of ctx' = rest_of ctx /\
    (forall j, opened w' !! j = if decide (j ∈ l) then None else opened w !! j).
Proof.
  induction l as [|x l IH]; intros ctx w i Hi H0 Hnd Hop Htk; cbn [length close_loop].
  { exists ctx, w. split; [done|]. split; [done|]. split; [done|]. intros j. by rewrite decide_False by (by intros ?%elem_of_nil). }
  apply NoDup_cons in Hnd as [Hx Hnd]. apply Forall_cons in Hop as [Hox Hop].
  assert (Ex : closeconns ctx !! Z.to_nat i = Some x).
  { pose proof (f_equal (fun l => l !! 0%nat) Htk) as E. cbn in E. destruct (drop (Z.to_nat i) (closeconns ctx)) as [|y r] eqn:Ed; [done|].
    cbn in E. injection E as ->. pose proof (f_equal (fun l => l !! 0%nat) Ed) as E2. rewrite lookup_drop, Nat.add_0_r in E2. done. }
  rewrite (proj2 (rd_ret (closeconns ctx) i x) (conj H0 Ex)). cbn [lift mbind prog_mbind].
  destruct (conn_close_spec ctx w x Hi Hox) as (ctx1 & w1 & -> & Hi1 & Eo1 & [= Ev Eq En Et Eti Ed Eth] & _). cbn [mbind prog_mbind].
  destruct (IH ctx1 w1 (i + 1)) as (ctx2 & w2 & -> & Hi2 & Er2 & Eo2); try done; [lia| | |].
  - apply Forall_forall. intros j Hj. rewrite Forall_forall in Hop. rewrite Eo1, lookup_delete_ne by (intros ->; done). by apply Hop.
  - rewrite Eq. rewrite (drop_S _ _ _ Ex) in Htk. cbn [length] in Htk. injection Htk as Htk. replace (Z.to_nat (i + 1)) with (S (Z.to_nat i)) by lia. exact Htk.
  - exists ctx2, w2. split; [done|]. split; [done|]. split; [unfold rest_of in *; congruence|]. intros j. rewrite Eo2, Eo1.
    destruct (decide (j ∈ l)) as [Hj|Hj]; [by rewrite decide_True by (by right)|]. destruct (decide (j = x)) as [->|Hne].
    + rewrite lookup_delete_eq. by rewrite decide_True by (by left).
    + rewrite lookup_delete_ne by done. by rewrite decide_False by (by intros [?|?]%elem_of_cons).
Qed.

Lemma close_conns_spec ctx w : inv ctx w -> queue_ok ctx w ->
  exists ctx' w', close_conns opts ctx w = Ret (Some (ctx', w')) /\ inv ctx' w' /\ rest_of ctx' = rest_of ctx /\
    (forall j, opened w' !! j = if decide (j ∈ queue ctx) then None else opened w !! j).
Proof.
  intros Hi [Hq Hnd Hop]. unfold close_conns. pose proof (i_queue _ _ Hi) as Hl.
  assert (E : Z.to_nat (ncloseconns ctx) = length (queue ctx)) by (unfold queue, zlen in *; rewrite length_take; lia).
  rewrite E. apply close_loop_spec; try done. rewrite drop_0. rewrite <- E. done.
Qed.

(** *** Events *)

(** what handling an event of [conn] does *)
Definition handled (conn : Z) (ctx : reaplan_ctx) (w : W) (m : prog (reaplan_ctx * W)) : Prop :=
  exists ctx' w', m = Ret (Some (ctx', w')) /\ inv ctx' w' /\ queue_ok ctx' w' /\ opened w' = opened w /\ queue_step conn ctx ctx'.

Lemma queue_same ctx w w' cs : queue_ok ctx w -> opened w' = opened w -> queue_ok (set_conns ctx cs) w'.
Proof. intros [? ? ?] E. split; rewrite ?E; done. Qed.

Lemma inv_world ctx w w' : inv ctx w -> opened w' = opened w -> inv ctx w'.
Proof. intros [] E. split; rewrite ?E; done. Qed.

Lemma queue_world ctx w w' : queue_ok ctx w -> opened w' = opened w -> queue_ok ctx w'.
Proof. intros [] E. split; rewrite ?E; done. Qed.

(** the connection is queued, or not, after the callback *)
Lemma handled_enqueue conn ctx0 ctx w0 w (b : bool) : inv ctx w -> queue_ok ctx w -> is_Some (opened w !! conn) ->
  queue ctx = queue ctx0 -> opened w = opened w0 ->
  handled conn ctx0 w0 (if b then '(ctx, _) ← lift (enqueue_close_conn opts ctx conn); mret (ctx, w) else mret (ctx, w)).
Proof.
  intros Hi Hq Ho Eq Eo. destruct b; [|exists ctx, w; split; [done|]; split; [done|]; split; [done|]; split; [done|by left]].
  destruct (enqueue_spec ctx w conn Hi Hq Ho) as (ctx' & r & -> & Hi' & Hq' & Hs & _). cbn [lift mbind prog_mbind mret prog_mret].
  exists ctx', w. split; [done|]. split; [done|]. split; [done|]. split; [done|]. unfold queue_step in *. by rewrite Eq in Hs.
Qed.

Lemma handle_readable_spec ctx w conn : inv ctx w -> queue_ok ctx w -> is_Some (opened w !! conn) ->
  handled conn ctx w (handle_readable opts ctx w conn).
Proof.
  intros Hi Hq Ho. pose proof (open_range _ _ _ Hi Ho) as Hr. destruct (open_conn _ _ _ Hi Hr) as (c & Erd & Hc & _).
  unfold handle_readable. rewrite Erd. cbn [lift mbind prog_mbind]. pose proof (on_readable_law w conn c) as Hl.
  destruct (on_readable w conn c) as [[[w' c'] ret] errno]. destruct Hl as [Eo Ec].
  rewrite wr_in by (rewrite (i_conns _ _ Hi); lia). cbn [lift]. cbv zeta.
  apply handled_enqueue; [apply (same_conn ctx w w' conn c c'); done || lia|by apply (queue_same ctx w)|by rewrite Eo|done|done].
Qed.

Lemma handle_writable_spec ctx w conn : inv ctx w -> queue_ok ctx w -> is_Some (opened w !! conn) ->
  handled conn ctx w (handle_writable opts ctx w conn).
Proof.
  intros Hi Hq Ho. pose proof (open_range _ _ _ Hi Ho) as Hr. destruct (open_conn _ _ _ Hi Hr) as (c & Erd & Hc & _).
  unfold handle_writable. rewrite Erd. cbn [lift mbind prog_mbind]. pose proof (on_writable_law w conn c) as Hl.
  destruct (on_writable w conn c) as [[[w' c'] ret] errno]. destruct Hl as [Eo Ec].
  rewrite wr_in by (rewrite (i_conns _ _ Hi); lia). cbn [lift]. cbv zeta.
  apply handled_enqueue; [apply (same_conn ctx w w' conn c c'); done || lia|by apply (queue_same ctx w)|by rewrite Eo|done|done].
Qed.

Lemma handle_tls_spec ctx w conn c : inv ctx w -> queue_ok ctx w -> is_Some (opened w !! conn) ->
  rd (conns ctx) conn = Ret c -> flag_set (flags c) REAPLAN_TLS_HANDSHAKE = true -> handled conn ctx w (handle_tls_handshake opts ctx w conn).
Proof.
  intros Hi Hq Ho Erd Hfl. pose proof (open_range _ _ _ Hi Ho) as Hr. pose proof (proj1 (rd_ret _ _ _) Erd) as [_ Hc].
  pose proof (i_conn _ _ Hi conn c Hc ltac:(lia)) as Hok. destruct Ho as [f Hf]. rewrite Hf in Hok. destruct Hok as (Hf0 & Efd & Hs & Htls).
  specialize (Hs Hfl). destruct (Htls Hs) as [Hctx Hw]. unfold handle_tls_handshake. rewrite Erd. cbn [lift mbind prog_mbind].
  rewrite Hctx. cbn [assert_ mret prog_mret mbind prog_mbind]. destruct (ssl c) as [s|] eqn:Es; [|done].
  pose proof (SSL_connect_law w s) as Hl. destruct (SSL_connect w s) as [[w' ret] err]. cbn [fst] in Hl.
  pose proof (inv_world _ _ _ Hi Hl) as Hi'. pose proof (queue_world _ _ _ Hq Hl) as Hq'. assert (Ho' : is_Some (opened w' !! conn)) by (by rewrite Hl, Hf).
  destruct (ret <? 0).
  { destruct (err =? SSL_ERROR_WANT_WRITE); [|by apply (handled_enqueue conn ctx ctx w w' (negb _))].
    eexists _, _. split; [done|]. rewrite kevent_change_law. split; [apply (inv_world _ w); [done|by rewrite kevent_change_law]|].
    split; [apply (queue_world _ w); [done|by rewrite kevent_change_law]|]. split; [done|by left]. }
  destruct (ret =? 0); [by apply (handled_enqueue conn ctx ctx w w' true)|].
  rewrite Hw. rewrite wr_in by (rewrite (i_conns _ _ Hi); lia). cbn [lift]. set (fl := Z.lor _ _). set (ch := (if flag_set _ _ then _ else _) ++ _).
  assert (Hch : 0 < zlen ch) by (unfold ch; zlen_simpl; pose proof (zlen_nonneg (if flag_set (rflags c) REAPLAN_READABLE then [] else [Kevent (fd c) EVFILT_READ EV_DELETE 0 0 (Some conn)])); lia).
  clearbody ch. unfold assert_. rewrite (proj2 (Z.ltb_lt 0 (zlen ch))) by done. cbn [mret prog_mret mbind prog_mbind].
  assert (Eo : opened (kevent_change w' ch) = opened w) by (by rewrite kevent_change_law).
  eexists _, _. split; [done|]. rewrite Eo.
  split; [|split; [by apply (queue_same ctx w)|split; [done|by left]]].
  destruct Hi as [Hopts Hids Hlen Hcs Hinj Ha Hqq He]. split; cbn [set_conns ids conns active_conns closeconns evs]; rewrite ?Eo; try done.
  - by rewrite zlen_insert.
  - apply (conns_update (opened w)); [done|lia| |done]. rewrite Hf. cbn [conn_ok set_flags fd flags ssl rflags]. split; [done|]. split; [done|].
    rewrite Es. split; [done|]. done.
Qed.

(** an event tells that the connection [i] has ended *)
Definition hung_up (ev : kevent) (i : Z) : Prop :=
  (ev_filter ev = EVFILT_READ \/ ev_filter ev = EVFILT_WRITE) /\ ev_udata ev = Some i /\
  (flag_set (ev_flags ev) EV_ERROR = true \/ flag_set (ev_flags ev) EV_EOF = true).

Lemma queue_length ctx w : inv ctx w -> queue_ok ctx w -> zlen (queue ctx) = ncloseconns ctx.
Proof. intros Hi [Hq _ _]. pose proof (i_queue _ _ Hi). unfold queue, zlen in *. rewrite length_take. lia. Qed.

Lemma step_count conn ctx w ctx' w' : inv ctx w -> queue_ok ctx w -> inv ctx' w' -> queue_ok ctx' w' -> queue_step conn ctx ctx' ->
  ncloseconns ctx' <= ncloseconns ctx + 1.
Proof.
  intros Hi Hq Hi' Hq' Hs. rewrite <- (queue_length _ _ Hi Hq), <- (queue_length _ _ Hi' Hq'). destruct Hs as [->|[_ ->]]; zlen_simpl; lia.
Qed.

(** what handling the event [ev] does *)
Definition event_done (ctx : reaplan_ctx) (w : W) (ev : kevent) (m : prog (reaplan_ctx * W)) : Prop :=
  exists ctx' w', m = Ret (Some (ctx', w')) /\ inv ctx' w' /\ queue_ok ctx' w' /\ opened w' = opened w /\
    ncloseconns ctx' <= ncloseconns ctx + 1 /\ (forall i, i ∈ queue ctx -> i ∈ queue ctx') /\ (forall i, hung_up ev i -> i ∈ queue ctx').

Lemma event_finish ctx w ev conn m : inv ctx w -> queue_ok ctx w -> ev_udata ev = Some conn -> handled conn ctx w m ->
  (forall ctx' w' i, m = Ret (Some (ctx', w')) -> hung_up ev i -> i ∈ queue ctx') -> event_done ctx w ev m.
Proof.
  intros Hi Hq Eu (ctx' & w' & E & Hi' & Hq' & Eo & Hs) Hh. exists ctx', w'. split; [done|]. split; [done|]. split; [done|]. split; [done|].
  split; [by eapply (step_count conn ctx w)|]. split; [intros i; by eapply queue_step_incl|]. intros i Hu. by eapply Hh.
Qed.

(** the connection of an event is queued *)
Lemma event_enqueue ctx w ev conn : inv ctx w -> queue_ok ctx w -> ncloseconns ctx < connects_per_tick opts ->
  ev_udata ev = Some conn -> is_Some (opened w !! conn) ->
  event_done ctx w ev ('(ctx, _) ← lift (enqueue_close_conn opts ctx conn); mret (ctx, w)).
Proof.
  intros Hi Hq Hroom Eu Ho. apply (event_finish ctx w ev conn); [done|done|done|by apply (handled_enqueue conn ctx ctx w w true)|].
  destruct (enqueue_spec ctx w conn Hi Hq Ho) as (ctx1 & r & -> & _ & _ & _ & _ & Hin). cbn [lift mbind prog_mbind mret prog_mret].
  intros ctx' w' i [= <- <-] (_ & Eu' & _). rewrite Eu in Eu'. injection Eu' as <-. by apply Hin.
Qed.

(** an event that is not of a connection *)
Lemma event_other ctx w ev : inv ctx w -> queue_ok ctx w -> ev_filter ev <> EVFILT_READ -> ev_filter ev <> EVFILT_WRITE ->
  event_done ctx w ev (if (ev_filter ev =? EVFILT_TIMER) && (ev_ident ev =? TIMEOUT_TIMER) then mret (set_throttle (set_timer ctx 0) 0, w) else mret (ctx, w)).
Proof.
  intros Hi Hq Hr Hw. assert (Hno : forall i, ~ hung_up ev i) by (intros i ([?|?] & _); done).
  destruct (_ && _); (eexists _, _; split; [done|]); (split; [destruct Hi; by split|]); (split; [destruct Hq; by split|]); (split; [done|]);
    (split; [cbn [set_throttle set_timer ncloseconns]; lia|]); (split; [done|]); intros i Hu; by apply Hno in Hu.
Qed.

Lemma event_readable ctx w ev conn : inv ctx w -> queue_ok ctx w -> ncloseconns ctx < connects_per_tick opts ->
  ev_udata ev = Some conn -> is_Some (opened w !! conn) -> flag_set (ev_flags ev) EV_ERROR = false ->
  event_done ctx w ev
    (ctx ← (if flag_set (ev_flags ev) EV_EOF then '(ctx, _) ← lift (enqueue_close_conn opts ctx conn); mret ctx else mret ctx);
     c ← lift (rd (conns ctx) conn);
     if flag_set (flags c) REAPLAN_TLS_HANDSHAKE then handle_tls_handshake opts ctx w conn
     else if 0 <? ev_data ev then handle_readable opts ctx w conn
     else mret (ctx, w)).
Proof.
  intros Hi Hq Hroom Eu Ho Eerr. set (m1 := if flag_set (ev_flags ev) EV_EOF then _ else _).
  assert (H1 : exists ctx1, m1 = Ret (Some ctx1) /\ inv ctx1 w /\ queue_ok ctx1 w /\ queue_step conn ctx ctx1 /\ conns ctx1 = conns ctx /\
    (flag_set (ev_flags ev) EV_EOF = true -> conn ∈ queue ctx1)).
  { unfold m1. destruct (flag_set (ev_flags ev) EV_EOF); [|exists ctx; split; [done|]; split; [done|]; split; [done|]; split; [by left|]; by split].
    destruct (enqueue_spec ctx w conn Hi Hq Ho) as (ctx1 & r & -> & Hi1 & Hq1 & Hs1 & Ec1 & Hin). cbn [lift mbind prog_mbind mret prog_mret].
    exists ctx1. split; [done|]. split; [done|]. split; [done|]. split; [done|]. split; [done|]. intros _. by apply Hin. }
  destruct H1 as (ctx1 & -> & Hi1 & Hq1 & Hs1 & Ec1 & Hin1). cbn [mbind prog_mbind].
  pose proof (open_range _ _ _ Hi1 Ho) as Hr. destruct (open_conn _ _ _ Hi1 Hr) as (c & Erd & Hc & _). rewrite Erd. cbn [lift mbind prog_mbind].
  assert (Hh : handled conn ctx1 w (if flag_set (flags c) REAPLAN_TLS_HANDSHAKE then handle_tls_handshake opts ctx1 w conn
    else if 0 <? ev_data ev then handle_readable opts ctx1 w conn else mret (ctx1, w))).
  { destruct (flag_set (flags c) REAPLAN_TLS_HANDSHAKE) eqn:Et; [by apply (handle_tls_spec ctx1 w conn c)|].
    destruct (0 <? ev_data ev); [by apply handle_readable_spec|]. exists ctx1, w. split; [done|]. split; [done|]. split; [done|]. split; [done|by left]. }
  destruct Hh as (ctx' & w' & E & Hi' & Hq' & Eo & Hs). apply (event_finish ctx w ev conn); [done|done|done| |].
  - exists ctx', w'. split; [exact E|]. split; [done|]. split; [done|]. split; [done|]. by eapply queue_step_trans.
  - intros ctx2 w2 i E2 (_ & Eu' & [F|F]); [congruence|]. rewrite E in E2. injection E2 as <- <-. rewrite Eu in Eu'. injection Eu' as <-.
    eapply queue_step_incl; [exact Hs|]. by apply Hin1.
Qed.

Lemma event_writable ctx w ev conn : inv ctx w -> queue_ok ctx w -> ncloseconns ctx < connects_per_tick opts ->
  ev_udata ev = Some conn -> is_Some (opened w !! conn) -> flag_set (ev_flags ev) EV_ERROR = false ->
  event_done ctx w ev
    (if flag_set (ev_flags ev) EV_EOF then '(ctx, _) ← lift (enqueue_close_conn opts ctx conn); mret (ctx, w)
     else
       c ← lift (rd (conns ctx) conn);
       if flag_set (flags c) REAPLAN_TLS_HANDSHAKE then handle_tls_handshake opts ctx w conn
       else handle_writable opts ctx w conn).
Proof.
  intros Hi Hq Hroom Eu Ho Eerr. destruct (flag_set (ev_flags ev) EV_EOF) eqn:Eeof; [by apply event_enqueue|].
  pose proof (open_range _ _ _ Hi Ho) as Hr. destruct (open_conn _ _ _ Hi Hr) as (c & Erd & Hc & _). rewrite Erd. cbn [lift mbind prog_mbind].
  apply (event_finish ctx w ev conn); [done|done|done| |intros ctx' w' i _ (_ & _ & [?|?]); congruence].
  destruct (flag_set (flags c) REAPLAN_TLS_HANDSHAKE) eqn:Et; [by apply (handle_tls_spec ctx w conn c)|by apply handle_writable_spec].
Qed.

Lemma handle_event_spec ctx w ev : inv ctx w -> queue_ok ctx w -> ncloseconns ctx < connects_per_tick opts ->
  (ev_filter ev = EVFILT_READ \/ ev_filter ev = EVFILT_WRITE -> exists i, ev_udata ev = Some i /\ is_Some (opened w !! i)) ->
  event_done ctx w ev (handle_event opts ctx w ev).
Proof.
  intros Hi Hq Hroom Hev. unfold handle_event, conn_of.
  destruct (Z.eqb_spec (ev_filter ev) EVFILT_READ) as [Er|Er].
  { destruct Hev as (conn & Eu & Ho); [by left|]. rewrite Eu, andb_true_r. cbn [lift mbind prog_mbind].
    destruct (flag_set (ev_flags ev) EV_ERROR) eqn:Eerr; [by apply event_enqueue|by apply event_readable]. }
  destruct (Z.eqb_spec (ev_filter ev) EVFILT_WRITE) as [Ew|Ew].
  { destruct Hev as (conn & Eu & Ho); [by right|]. rewrite Eu, andb_true_r. cbn [lift mbind prog_mbind].
    destruct (flag_set (ev_flags ev) EV_ERROR) eqn:Eerr; [by apply event_enqueue|by apply event_writable]. }
  rewrite andb_false_r. by apply event_other.
Qed.

Definition event_ok (w : W) (ev : kevent) : Prop :=
  ev_filter ev = EVFILT_READ \/ ev_filter ev = EVFILT_WRITE -> exists i, ev_udata ev = Some i /\ is_Some (opened w !! i).

Lemma handle_loop_spec l : forall ctx w, inv ctx w -> queue_ok ctx w -> ncloseconns ctx + zlen l <= connects_per_tick opts -> Forall (event_ok w) l ->
  exists ctx' w', handle_loop opts l ctx w = Ret (Some (ctx', w')) /\ inv ctx' w' /\ queue_ok ctx' w' /\ opened w' = opened w /\
    (forall i, i ∈ queue ctx -> i ∈ queue ctx') /\ (forall ev i, ev ∈ l -> hung_up ev i -> i ∈ queue ctx').
Proof.
  induction l as [|ev l IH]; intros ctx w Hi Hq Hn Hl; cbn [handle_loop].
  { exists ctx, w. do 5 (split; [done|]). intros ev i Hev. by apply elem_of_nil in Hev. }
  rewrite zlen_cons in Hn. pose proof (zlen_nonneg l). apply Forall_cons in Hl as [Hev Hl].
  destruct (handle_event_spec ctx w ev Hi Hq ltac:(lia) Hev) as (ctx1 & w1 & -> & Hi1 & Hq1 & Eo1 & Hn1 & Hk1 & Hh1). cbn [mbind prog_mbind].
  destruct (IH ctx1 w1 Hi1 Hq1) as (ctx2 & w2 & -> & Hi2 & Hq2 & Eo2 & Hk2 & Hh2); [lia| |].
  { eapply Forall_impl; [exact Hl|]. intros e He. unfold event_ok in *. by rewrite Eo1. }
  exists ctx2, w2. split; [done|]. split; [done|]. split; [done|]. split; [congruence|]. split; [auto|].
  intros e i [->|He]%elem_of_cons Hu; [by apply Hk2, Hh1|by eapply Hh2].
Qed.

Lemma handle_events_spec ctx w l : inv ctx w -> zlen l <= connects_per_tick opts -> Forall (event_ok w) l ->
  exists ctx' w', reaplan_handle_events opts ctx w l = Ret (Some (ctx', w')) /\ inv ctx' w' /\
    (forall j f, opened w' !! j = Some f -> opened w !! j = Some f) /\ (forall ev i, ev ∈ l -> hung_up ev i -> opened w' !! i = None).
Proof.
  intros Hi Hn Hl. unfold reaplan_handle_events.
  assert (Hi0 : inv (reset_close_queue ctx) w) by (destruct Hi; by split).
  assert (Hq0 : queue_ok (reset_close_queue ctx) w).
  { destruct (i_opts _ _ Hi) as [[? _] _]. split; cbn [reset_close_queue set_queue ncloseconns]; [lia|unfold queue; cbn; constructor..]. }
  destruct (handle_loop_spec l _ w Hi0 Hq0) as (ctx1 & w1 & -> & Hi1 & Hq1 & Eo1 & _ & Hh1); [done|done|]. cbn [mbind prog_mbind].
  destruct (close_conns_spec ctx1 w1 Hi1 Hq1) as (ctx2 & w2 & -> & Hi2 & _ & Eo2). exists ctx2, w2. split; [done|]. split; [done|]. split.
  - intros j f. rewrite Eo2, Eo1. by destruct (decide _).
  - intros ev i Hev Hu. rewrite Eo2. by rewrite decide_True by (by eapply Hh1).
Qed.

(** *** Connecting *)

Lemma room_left ctx w i : inv ctx w -> 0 <= i < max_clients opts -> opened w !! i = None ->
  Z.of_nat (base.size (opened w)) < max_clients opts.
Proof.
  intros Hi Hr Hn. rewrite <- (size_dom (D := gset Z)).
  assert ({[i]} ∪ dom (opened w) ⊆ (list_to_set (seqZ 0 (max_clients opts)) : gset Z)) as Hs%subseteq_size.
  { intros j [->%elem_of_singleton|Hd]%elem_of_union; apply elem_of_list_to_set, elem_of_seqZ; [lia|].
    pose proof (r_used _ _ _ (i_ids _ _ Hi) j Hd). lia. }
  rewrite size_union, size_singleton in Hs by (apply disjoint_singleton_l; by apply not_elem_of_dom).
  rewrite size_list_to_set in Hs by apply NoDup_seqZ. rewrite length_seqZ in Hs. lia.
Qed.

(** the table with a connection that was established *)
Lemma inv_connected ctx w w' s i c n : inv ctx w -> 0 <= i < max_clients opts -> opened w !! i = None -> 0 <= fd c ->
  opened w' = <[i := fd c]> (opened w) -> (forall j, opened w !! j <> Some (fd c)) ->
  repr s (max_clients opts) ({[i]} ∪ dom (opened w)) -> n = i32 (active_conns ctx + 1) ->
  (flag_set (flags c) REAPLAN_TLS_HANDSHAKE = true -> ssl c <> None) ->
  (ssl c <> None -> ssl_ctx opts = true /\ flag_set (rflags c) REAPLAN_WRITABLE_ONESHOT = true) ->
  inv (set_active (set_conns (set_ids ctx s) (<[Z.to_nat i := c]> (conns ctx))) n) w'.
Proof.
  intros Hi Hr Hn Hf Eo Hfresh Hs -> Hfl Htls. pose proof (room_left _ _ _ Hi Hr Hn) as Hroom. pose proof Hi as [Hopts Hids Hlen Hcs Hinj Ha Hqq He].
  pose proof Hopts as [_ Hmax]. unfold INT_MAX in Hmax.
  split; cbn [set_active set_conns set_ids ids conns active_conns closeconns evs]; rewrite ?Eo; try done.
  - by rewrite dom_insert_L.
  - by rewrite zlen_insert.
  - apply (conns_update (opened w)); [done|lia| |].
    + rewrite lookup_insert_eq. done.
    + intros j Hj. by rewrite lookup_insert_ne.
  - intros j k f Hj Hk. apply lookup_insert_Some in Hj as [[<- <-]|[Hj1 Hj]], Hk as [[<- Hk2]|[Hk1 Hk]]; try done.
    + by apply Hfresh in Hk.
    + subst f. by apply Hfresh in Hj.
    + by eapply Hinj.
  - rewrite map_size_insert_None by done. rewrite Ha, sw_small by (simpl; lia). lia.
Qed.

Lemma inv_change ctx w i c c' es : inv ctx w -> conns ctx !! Z.to_nat i = Some c -> 0 <= i -> zlen es = zlen (evs ctx) ->
  fd c' = fd c -> ssl c' = ssl c -> rflags c' = rflags c -> (flag_set (flags c') REAPLAN_TLS_HANDSHAKE = true -> ssl c <> None) ->
  inv (set_evs (set_conns ctx (<[Z.to_nat i := c']> (conns ctx))) es) w.
Proof.
  intros [Hopts Hids Hlen Hcs Hinj Ha Hqq He] Hc H0 Hes E1 E2 E3 Hfl.
  split; cbn [set_evs set_conns ids conns active_conns closeconns evs]; try done; [by rewrite zlen_insert| |lia].
  apply (conns_update (opened w)); [done|done| |done]. specialize (Hcs i c Hc H0). unfold conn_ok in *. rewrite E1, E2, E3.
  destruct (opened w !! i); [|done]. destruct Hcs as (? & ? & _ & ?). done.
Qed.

(** the table after the application had no connection *)
Lemma inv_refused ctx w w' s i c : inv ctx w -> opened w !! i = None -> opened w' = opened w ->
  repr s (max_clients opts) ({[i]} ∪ dom (opened w)) -> fd c < 0 -> 0 <= i ->
  exists s', idset_clear s i = Ret s' /\ inv (set_ids (set_conns (set_ids ctx s) (<[Z.to_nat i := c]> (conns ctx))) s') w'.
Proof.
  intros Hi Hnu Eo Hs Hfd H0. destruct (clear_spec s _ _ i Hs) as (s' & E & Hs'). exists s'. split; [done|].
  assert (({[i]} ∪ dom (opened w)) ∖ {[i]} = dom (opened w)) as Hd by (apply not_elem_of_dom in Hnu; clear - Hnu; set_solver).
  rewrite Hd in Hs'. destruct Hi as [Hopts Hids Hlen Hcs Hinj Ha Hqq He].
  split; cbn [set_conns set_ids ids conns active_conns closeconns evs]; rewrite ?Eo; try done; [by rewrite zlen_insert|].
  apply (conns_update (opened w)); [done|lia| |done]. rewrite Hnu. done.
Qed.

(** an event is stored if [b] *)
Lemma store_event (b : bool) (es : list kevent) (i k : Z) (ev : kevent) : 0 <= k < zlen es ->
  exists es' i', (if b then es ← lift (wr es k ev); mret (es, i + 1) else mret (es, i)) = Ret (Some (es', i')) /\ zlen es' = zlen es /\ i <= i' <= i + 1.
Proof.
  intros Hk. destruct b; [|exists es, i; split; [done|]; split; [done|lia]].
  rewrite wr_in by lia. cbn [lift mbind prog_mbind]. eexists _, _. split; [done|]. rewrite zlen_insert. split; [done|lia].
Qed.

(** the rest of the state is not touched by connecting *)
Definition timers_of (ctx : reaplan_ctx) := (last_time ctx, timer_active ctx, connect_done ctx, throttle_connect ctx).

Lemma setup_loop_spec fuel : forall ctx w off i t result, inv ctx w -> 0 <= off <= 1 -> 0 <= i <= 2 * connects_per_tick opts -> (pending w < fuel)%nat ->
  exists ctx' w' r i', setup_loop opts fuel ctx w off i (2 * connects_per_tick opts) t result = Ret (Some (ctx', w', r, i')) /\
    inv ctx' w' /\ i <= i' <= 2 * connects_per_tick opts /\ timers_of ctx' = timers_of ctx /\
    (forall j f, opened w !! j = Some f -> opened w' !! j = Some f).
Proof.
  induction fuel as [|fuel IH]; intros ctx w off i t result Hi Hoff Hi0 Hf; [lia|]. cbn [setup_loop].
  pose proof (i_opts _ _ Hi) as [Hcpt Hmax]. unfold INT_MAX in Hmax. rewrite uw_small by lia.
  destruct (Z.leb_spec i (2 * connects_per_tick opts - 2)) as [Hle|Hgt].
  2: { eexists _, _, _, _. split; [done|]. split; [done|]. split; [lia|]. split; [done|]. done. }
  destruct (use_next_spec (ids ctx) _ _ (i_ids _ _ Hi)) as (s & id & -> & [(Hid & Hnu & _ & Hs)|(-> & _ & Hs)]); cbn [lift mbind prog_mbind].
  2: { change (-1 <? 0) with true. cbv iota. eexists _, _, _, _. split; [done|]. split; [destruct Hi; by split|]. split; [lia|]. split; [done|]. done. }
  rewrite (proj2 (Z.ltb_ge id 0)) by lia. apply not_elem_of_dom in Hnu. pose proof (i_conns _ _ Hi) as Hlen.
  cbn [set_ids conns]. rewrite wr_in by lia. cbn [lift mbind prog_mbind].
  pose proof (on_connect_law w id Hnu) as Hlaw. destruct (on_connect w id no_conn) as [[w1 c] ret].
  rewrite wr_in by (rewrite zlen_insert; lia). cbn [lift mbind prog_mbind]. rewrite list_insert_insert_eq.
  destruct Hlaw as [(-> & Hfd & Eo1 & Hfresh & Hfl & Htls & Hpend)|(Hbad & Hfd & Eo1)].
  2: { assert (negb (ret =? REAPLANC_OK) || (fd c <? 0) = true) as ->.
    { rewrite (proj2 (Z.ltb_lt (fd c) 0)) by done. by rewrite orb_true_r. }
    cbn [set_conns set_ids ids]. destruct (inv_refused ctx w w1 s id c Hi Hnu Eo1 Hs Hfd ltac:(lia)) as (s' & -> & Hi'). cbn [lift mbind prog_mbind].
    eexists _, _, _, _. split; [done|]. rewrite Eo1. split; [exact Hi'|]. split; [lia|]. by split. }
  change (negb (REAPLANC_OK =? REAPLANC_OK)) with false. rewrite (proj2 (Z.ltb_ge (fd c) 0)) by done. cbn [orb].
  assert (Hnew : opened w1 !! id = Some (fd c)) by (rewrite Eo1; apply lookup_insert_eq).
  assert (Hkeep : forall j f, opened w !! j = Some f -> opened w1 !! j = Some f).
  { intros j f Hj. rewrite Eo1, lookup_insert_ne by (intros ->; congruence). done. }
  set (ctx1 := set_active _ _).
  assert (Hi1 : inv ctx1 w1).
  { eapply inv_connected; [exact Hi|exact Hid|exact Hnu|exact Hfd|exact Eo1|exact Hfresh|exact Hs|done| |exact Htls].
    rewrite Hfl. done. }
  assert (Hcs1 : conns ctx1 !! Z.to_nat id = Some c).
  { unfold ctx1. cbn [set_active set_conns conns]. apply list_lookup_insert_eq. unfold zlen in Hlen. lia. }
  assert (Ht1 : timers_of ctx1 = timers_of ctx) by done. clearbody ctx1.
  destruct (negb (flag_set (rflags c) _)).
  { destruct (conn_close_spec ctx1 w1 id Hi1 ltac:(by eexists)) as (ctx2 & w2 & -> & Hi2 & Eo2 & [= Ev Eq En Et Eti Ed Eth] & Ep2 & _). cbn [mbind prog_mbind].
    destruct (IH ctx2 w2 off i t REAPLANC_OK Hi2 Hoff Hi0) as (ctx3 & w3 & r & i' & E & Hi3 & Hr3 & Ht3 & Hk3); [lia|].
    exists ctx3, w3, r, i'. split; [exact E|]. split; [done|]. split; [done|]. split; [unfold timers_of in *; congruence|].
    intros j f Hj. apply Hk3. rewrite Eo2, lookup_delete_ne by (intros ->; congruence). by apply Hkeep. }
  set (tls := match ssl c with Some _ => true | None => false end).
  assert (Hlen1 : zlen (conns ctx1) = max_clients opts) by apply (i_conns _ _ Hi1).
  rewrite (wr_in (conns ctx1) id) by lia. cbn [lift mbind prog_mbind]. set (c' := Reaplan.set_flags _ _).
  assert (Hc' : fd c' = fd c /\ ssl c' = ssl c /\ rflags c' = rflags c /\ (flag_set (flags c') REAPLAN_TLS_HANDSHAKE = true -> ssl c <> None)).
  { split; [done|]. split; [done|]. split; [done|]. cbn [c' Reaplan.set_flags flags]. unfold tls. destruct (ssl c); [done|]. rewrite Hfl. intros Hx. exfalso. revert Hx.
    cbn [orb]. by destruct (flag_set (rflags c) REAPLAN_READABLE), (flag_set (rflags c) REAPLAN_WRITABLE_ONESHOT). }
  clearbody c' tls. destruct Hc' as (Hc1 & Hc2 & Hc3 & Hc4).
  pose proof (i_evs _ _ Hi1) as Hevs.
  destruct (store_event (tls || flag_set (rflags c) REAPLAN_READABLE) (evs ctx1) i (off + i)
    (Kevent (fd c) EVFILT_READ EV_ADD 0 0 (Some id)) ltac:(lia)) as (es1 & i1 & -> & Hes1 & Hi1r). cbn [mbind prog_mbind].
  destruct (store_event (tls || flag_set (rflags c) REAPLAN_WRITABLE_ONESHOT) es1 i1 (off + i1)
    (Kevent (fd c) EVFILT_WRITE (Z.lor EV_ADD EV_ONESHOT) 0 0 (Some id)) ltac:(lia)) as (es2 & i2 & -> & Hes2 & Hi2r). cbn [mbind prog_mbind].
  destruct (IH (set_evs (set_conns ctx1 (<[Z.to_nat id := c']> (conns ctx1))) es2) w1 off i2 t REAPLANC_OK) as (ctx3 & w3 & r & i' & E & Hi3 & Hr3 & Ht3 & Hk3).
  - apply (inv_change ctx1 w1 id c c' es2); try done; lia.
  - done.
  - lia.
  - lia.
  - exists ctx3, w3, r, i'. split; [exact E|]. split; [done|]. split; [lia|]. split; [rewrite Ht3; exact Ht1|]. intros j f Hj. by apply Hk3, Hkeep.
Qed.

(** more fuel does not change a result *)
Lemma setup_loop_mono fuel : forall fuel' ctx w off i end_ t result o,
  setup_loop opts fuel ctx w off i end_ t result = o -> (fuel <= fuel')%nat -> o <> OutOfFuel -> setup_loop opts fuel' ctx w off i end_ t result = o.
Proof.
  induction fuel as [|fuel IH]; intros [|fuel'] ctx w off i end_ t result o; cbn [setup_loop]; intros E Hf Ho; try congruence; try lia.
  destruct (i <=? u64 (end_ - 2)); [|done]. destruct (idset_use_next (ids ctx)) as [[s id]| |]; cbn [lift mbind prog_mbind] in *; try congruence.
  destruct (id <? 0); [done|]. destruct (wr _ id no_conn) as [cs| |]; cbn [lift mbind prog_mbind] in *; try congruence.
  destruct (on_connect w id no_conn) as [[w1 c] ret]. destruct (wr cs id c) as [cs1| |]; cbn [lift mbind prog_mbind] in *; try congruence.
  destruct (negb (ret =? REAPLANC_OK) || (fd c <? 0)); [done|]. destruct (negb (flag_set (rflags c) _)).
  { destruct (reaplan_conn_close _ _ _ _) as [[[ctx2 w2]|]| |]; cbn [mbind prog_mbind] in *; try congruence. apply (IH _ _ _ _ _ _ _ _ _ E); [lia|done]. }
  cbv zeta in *. destruct (wr _ id (Reaplan.set_flags _ _)) as [cs2| |]; cbn [lift mbind prog_mbind] in *; try congruence.
  destruct (match ssl c with Some _ => true | None => false end || flag_set (rflags c) REAPLAN_READABLE);
    [destruct (wr _ (off + i) _) as [es| |]; cbn [lift mbind prog_mbind mret prog_mret] in *; try congruence|cbn [mbind prog_mbind mret prog_mret] in *];
  (destruct (match ssl c with Some _ => true | None => false end || flag_set (rflags c) REAPLAN_WRITABLE_ONESHOT);
    [match type of E with context [wr ?l ?o ?v] => destruct (wr l o v) as [es2| |] end; cbn [lift mbind prog_mbind mret prog_mret] in *; try congruence|
     cbn [mbind prog_mbind mret prog_mret] in *]); (apply (IH _ _ _ _ _ _ _ _ _ E); [lia|done]).
Qed.

(** *** Expiry *)

Lemma expire_loop_spec n : forall ctx w i now, inv ctx w -> 0 <= i -> i + Z.of_nat n = max_clients opts ->
  exists ctx' w', expire_loop opts n ctx w i now = Ret (Some (ctx', w')) /\ inv ctx' w' /\ rest_of ctx' = rest_of ctx /\
    (forall j f, opened w' !! j = Some f -> opened w !! j = Some f) /\
    (forall j c f, i <= j -> conns ctx !! Z.to_nat j = Some c -> opened w' !! j = Some f -> now < expires c).
Proof.
  induction n as [|n IH]; intros ctx w i now Hi H0 Hn; cbn [expire_loop].
  { exists ctx, w. split; [done|]. split; [done|]. split; [done|]. split; [done|]. intros j c f Hj _ Hf.
    pose proof (open_range _ _ j Hi ltac:(by eexists)). lia. }
  destruct (Z.ltb_spec 0 (active_conns ctx)) as [Hpos|Hz].
  2: { exists ctx, w. split; [done|]. split; [done|]. split; [done|]. split; [done|]. intros j c f _ _ Hf.
    pose proof (i_active _ _ Hi) as Ha. assert (base.size (opened w) = 0%nat) as Hs by lia. apply map_size_empty_inv in Hs.
    rewrite Hs, lookup_empty in Hf. done. }
  destruct (open_conn _ _ i Hi ltac:(lia)) as (c & -> & Hc & Hok). cbn [lift mbind prog_mbind].
  set (m := if (0 <=? fd c) && (expires c <=? now) then _ else _).
  assert (Hm : exists ctx1 w1, m = Ret (Some (ctx1, w1)) /\ inv ctx1 w1 /\ rest_of ctx1 = rest_of ctx /\
    (forall j f, opened w1 !! j = Some f -> opened w !! j = Some f) /\ (forall f, opened w1 !! i = Some f -> now < expires c) /\
    (forall j, i < j -> conns ctx1 !! Z.to_nat j = conns ctx !! Z.to_nat j)).
  { unfold m. destruct (Z.leb_spec 0 (fd c)) as [Hfd|Hfd]; cbn [andb].
    - destruct (opened w !! i) as [f|] eqn:Ef; [|simpl in Hok; lia]. destruct (Z.leb_spec (expires c) now) as [Hex|Hex].
      + destruct (conn_close_spec ctx w i Hi ltac:(by rewrite Ef)) as (ctx1 & w1 & -> & Hi1 & Eo1 & Er1 & _ & Hc1).
        exists ctx1, w1. split; [done|]. split; [done|]. split; [done|]. split; [intros j g; rewrite Eo1; by intros [_ ?]%lookup_delete_Some|].
        split; [intros g; rewrite Eo1, lookup_delete_eq; done|]. intros j Hj. apply Hc1; lia.
      + exists ctx, w. split; [done|]. split; [done|]. split; [done|]. split; [done|]. split; [|done]. intros g _. lia.
    - exists ctx, w. split; [done|]. split; [done|]. split; [done|]. split; [done|]. split; [|done]. intros g Hg. rewrite Hg in Hok. destruct Hok as (? & ? & _). lia. }
  destruct Hm as (ctx1 & w1 & -> & Hi1 & Er1 & Hs1 & Hx1 & Hc1). cbn [mbind prog_mbind].
  destruct (IH ctx1 w1 (i + 1) now Hi1) as (ctx2 & w2 & -> & Hi2 & Er2 & Hs2 & Hx2); [lia|lia|].
  exists ctx2, w2. split; [done|]. split; [done|]. split; [congruence|]. split; [auto|]. intros j c' f Hj Hcj Hf.
  destruct (Z.eq_dec j i) as [->|Hne]; [|apply (Hx2 j c' f); [lia|by rewrite Hc1 by lia|done]].
  rewrite Hcj in Hc. injection Hc as ->. eapply Hx1. by apply Hs2.
Qed.

Lemma inv_timer ctx w es x : inv ctx w -> zlen es = zlen (evs ctx) -> inv (set_timer (set_evs ctx es) x) w.
Proof. intros [? ? ? ? ? ? ? He] Hes. split; cbn [set_timer set_evs ids conns active_conns closeconns evs]; try done. lia. Qed.

Lemma update_timer_spec ctx w : inv ctx w ->
  exists ctx' w' n, reaplan_update_timer opts ctx w = Ret (Some (ctx', w', n)) /\ inv ctx' w' /\ 0 <= n <= 1 /\
    connect_done ctx' = connect_done ctx /\ (forall j f, opened w' !! j = Some f -> opened w !! j = Some f).
Proof.
  intros Hi. unfold reaplan_update_timer. destruct (negb (timer_active ctx =? 0)).
  { exists ctx, w, 0. split; [done|]. split; [done|]. split; [lia|]. done. }
  set (m := if 0 <? timeout opts then _ else _).
  assert (Hm : exists ctx1 w1, m = Ret (Some (ctx1, w1)) /\ inv ctx1 w1 /\ connect_done ctx1 = connect_done ctx /\
    (forall j f, opened w1 !! j = Some f -> opened w !! j = Some f)).
  { unfold m. destruct (0 <? timeout opts); [|by exists ctx, w]. pose proof (clock_gettime_law w) as Hcl. destruct (clock_gettime w) as [w0 t]. cbn [fst] in Hcl. cbv zeta.
    pose proof (inv_world _ _ _ Hi Hcl) as Hi0. destruct (last_time ctx <? default 0 t); [|exists ctx, w0; split; [done|]; split; [done|]; split; [done|]; by rewrite Hcl].
    pose proof (i_opts _ _ Hi) as [[? ?] _].
    destruct (expire_loop_spec (Z.to_nat (max_clients opts)) ctx w0 0 (default 0 t) Hi0) as (ctx1 & w1 & -> & Hi1 & [= _ _ _ _ _ Ed _] & Hs1 & _); [lia|lia|].
    cbn [mbind prog_mbind]. eexists _, w1. split; [done|]. split; [destruct Hi1; by split|]. split; [done|]. intros j f Hj. apply Hs1 in Hj. by rewrite Hcl in Hj. }
  destruct Hm as (ctx1 & w1 & -> & Hi1 & Ed1 & Hs1). cbn [mbind prog_mbind]. pose proof (i_evs _ _ Hi1) as Hev. pose proof (i_opts _ _ Hi) as [[? ?] _].
  destruct (_ || _); [|destruct (_ <=? 0)]; rewrite ?wr_in by lia; cbn [lift mbind prog_mbind mret prog_mret]; (eexists _, w1, _; split; [done|]).
  - split; [apply inv_timer; [done|by rewrite zlen_insert]|]. split; [lia|]. done.
  - split; [done|]. split; [lia|]. done.
  - split; [apply inv_timer; [done|by rewrite zlen_insert]|]. split; [lia|]. done.
Qed.

(** *** Turns *)

Lemma kevent_again_spec w changes n nodelay : 0 <= n -> exists k w' res,
  (forall fuel, (k <= fuel)%nat -> kevent_again fuel w changes n nodelay = Ret (w', res)) /\ opened w' = opened w /\
    match res with None => True | Some l => zlen l <= n /\ Forall (event_ok w') l end.
Proof.
  intros Hn0. remember (retries w) as m eqn:Em. revert w Em. induction (lt_wf m) as [m _ IH]. intros w ->.
  pose proof (kevent_wait_law w changes n nodelay) as Hl. destruct (kevent_wait w changes n nodelay) as [w' [errno|l]] eqn:E; destruct Hl as [Eo Hl].
  - destruct (Z.eqb_spec errno EINTR) as [->|Hne].
    + destruct (IH _ (Hl eq_refl) w' eq_refl) as (k & w2 & res & Hk & Eo2 & Hr). exists (S k), w2, res. split; [|split; [congruence|done]].
      intros [|fuel] Hf; [lia|]. cbn [kevent_again]. rewrite E. change (EINTR =? EINTR) with true. cbv iota. apply Hk. lia.
    + exists 1%nat, w', None. split; [|done]. intros [|fuel] Hf; [lia|]. cbn [kevent_again]. rewrite E. by rewrite (proj2 (Z.eqb_neq _ _)) by done.
  - exists 1%nat, w', (Some l). split; [|split; [done|]].
    + intros [|fuel] Hf; [lia|]. cbn [kevent_again]. by rewrite E.
    + destruct Hl as [Hn Hl]. split; [by apply Hn|]. eapply Forall_impl; [exact Hl|]. intros ev Hev. unfold event_ok. by rewrite Eo.
Qed.

Definition state_ok (s : loop_state) : Prop := inv (l_ctx s) (l_w s) /\ 0 <= l_nevs s <= 1.

(** the first part of a turn *)
Definition turn_connect (fuel : nat) (ctx : reaplan_ctx) (w : W) (nevs t : Z) : prog (reaplan_ctx * W * Z * Z + reaplan_ctx * W) :=
  if (connect_done ctx =? 0) && ((mdelay_per_tick opts <=? 0) || (throttle_connect ctx =? 0)) then
    let '(w, t) :=
      if 0 <? timeout opts then
        let '(w, now) := clock_gettime w in
        (w, match now with Some now => now + timeout opts | None => t end)
      else (w, t) in
    '(ctx, w, ret, new_nevs) ← setup_connections opts fuel ctx w nevs (u32 (connects_per_tick opts * 2)) t;
    if ret =? REAPLANC_ERR then mret (inr (ctx, w))
    else
      let ctx := if ret =? REAPLANC_DONE then set_done ctx 1 else ctx in
      mret (inl (set_throttle ctx 1, w, nevs + new_nevs, t))
  else mret (inl (ctx, w, nevs, t)).

Definition turn_wait (fuel : nat) (ctx : reaplan_ctx) (w : W) (nevs t : Z) : prog (loop_state + reaplan_ctx * W) :=
  let nodelay := (mdelay_per_tick opts <=? 0) && (connect_done ctx =? 0) && (active_conns ctx <? max_clients opts) in
  changes ← lift (rds (evs ctx) 0 nevs);
  '(w, res) ← lift (kevent_again fuel w changes (connects_per_tick opts) nodelay);
  match res with
  | None => mret (inr (ctx, w))
  | Some l =>
      es ← lift (wrs (evs ctx) 0 l);
      '(ctx, w) ← reaplan_handle_events opts (set_evs ctx es) w l;
      '(ctx, w, n) ← reaplan_update_timer opts ctx w;
      mret (inl (Loop ctx w n t))
  end.

Lemma turn_parts fuel ctx w nevs t : turn opts fuel (Loop ctx w nevs t) =
  (r ← turn_connect fuel ctx w nevs t; match r with inr e => mret (inr e) | inl (ctx, w, nevs, t) => turn_wait fuel ctx w nevs t end).
Proof. reflexivity. Qed.

Lemma turn_connect_spec ctx w nevs t : inv ctx w -> 0 <= nevs <= 1 -> exists k r,
  (forall fuel, (k <= fuel)%nat -> turn_connect fuel ctx w nevs t = Ret (Some r)) /\
  match r with
  | inr (ctx', w') => inv ctx' w'
  | inl (ctx', w', nevs', t') => inv ctx' w' /\ 0 <= nevs' <= 2 * connects_per_tick opts + 1
  end.
Proof.
  intros Hi Hn. pose proof (i_opts _ _ Hi) as [[Hc0 Hc] Hmax]. unfold INT_MAX in Hmax. unfold turn_connect.
  destruct (_ && _); [|exists 0%nat; eexists; split; [done|]; split; [done|lia]].
  set (cl := if 0 <? timeout opts then _ else (w, t)). assert (Hcl : opened cl.1 = opened w).
  { unfold cl. destruct (0 <? timeout opts); [|done]. pose proof (clock_gettime_law w) as Hl. by destruct (clock_gettime w) as [w0 now]. }
  destruct cl as [w0 t0]. cbn [fst] in Hcl. pose proof (inv_world _ _ _ Hi Hcl) as Hi0. exists (S (pending w0)).
  rewrite uw_small by lia. rewrite (Z.mul_comm _ 2). unfold setup_connections.
  destruct (setup_loop_spec (S (pending w0)) ctx w0 nevs 0 t0 REAPLANC_ERR Hi0) as (ctx1 & w1 & r & i & E & Hi1 & Hr & _ & _); [lia|lia|lia|].
  destruct (Z.eqb_spec r REAPLANC_ERR) as [Er|Er]; (eexists; split; [intros fuel Hf; rewrite (setup_loop_mono _ fuel _ _ _ _ _ _ _ _ E Hf ltac:(done)); cbn [mbind prog_mbind]|]).
  - rewrite Er. done.
  - done.
  - rewrite (proj2 (Z.eqb_neq _ _)) by done. done.
  - split; [|lia]. destruct (r =? REAPLANC_DONE); destruct Hi1; by split.
Qed.

Lemma turn_wait_spec ctx w nevs t : inv ctx w -> 0 <= nevs <= 2 * connects_per_tick opts + 1 -> exists k r,
  (forall fuel, (k <= fuel)%nat -> turn_wait fuel ctx w nevs t = Ret (Some r)) /\
  match r with inl s => state_ok s | inr (ctx', w') => inv ctx' w' end.
Proof.
  intros Hi Hn. pose proof (i_opts _ _ Hi) as [[Hc0 Hc] Hmax]. pose proof (i_evs _ _ Hi) as Hev. unfold turn_wait.
  rewrite rds_in by lia. set (changes := take _ _). set (nodelay := _ && _).
  destruct (kevent_again_spec w changes (connects_per_tick opts) nodelay ltac:(lia)) as (k & w1 & res & Hk & Eo1 & Hl). exists k.
  pose proof (inv_world _ _ _ Hi Eo1) as Hi1. destruct res as [l|].
  2: { eexists. split; [intros fuel Hf; cbn [lift mbind prog_mbind]; rewrite (Hk fuel Hf); done|done]. }
  destruct Hl as [Hll Hl]. pose proof (zlen_nonneg l). set (es := take (Z.to_nat 0) (evs ctx) ++ l ++ drop (Z.to_nat 0 + length l) (evs ctx)).
  assert (Ew : wrs (evs ctx) 0 l = Ret es) by (apply wrs_in; lia).
  assert (Hes : zlen es = zlen (evs ctx)) by (unfold es; zlen_simpl; unfold zlen in *; lia). clearbody es.
  assert (Hi2 : inv (set_evs ctx es) w1) by (destruct Hi1; split; cbn [set_evs ids conns active_conns closeconns evs]; done || lia).
  destruct (handle_events_spec _ _ l Hi2 Hll Hl) as (ctx3 & w3 & E3 & Hi3 & _ & _).
  destruct (update_timer_spec ctx3 w3 Hi3) as (ctx4 & w4 & n & E4 & Hi4 & Hn4 & _).
  eexists. split.
  - intros fuel Hf. cbn [lift mbind prog_mbind]. rewrite (Hk fuel Hf). cbn [lift mbind prog_mbind]. rewrite Ew. cbn [lift mbind prog_mbind].
    rewrite E3. cbn [mbind prog_mbind]. rewrite E4. cbn [mbind prog_mbind mret prog_mret]. done.
  - split; done.
Qed.

Lemma kevent_again_mono fuel : forall fuel' w changes n nodelay o,
  kevent_again fuel w changes n nodelay = o -> (fuel <= fuel')%nat -> o <> OutOfFuel -> kevent_again fuel' w changes n nodelay = o.
Proof.
  induction fuel as [|fuel IH]; intros [|fuel'] w changes n nodelay o; cbn [kevent_again]; intros E Hf Ho; try congruence; try lia.
  destruct (kevent_wait w changes n nodelay) as [w' [errno|l]]; [|done]. destruct (errno =? EINTR); [|done]. apply (IH fuel'); [done|lia|done].
Qed.

Lemma turn_mono fuel fuel' s o : o <> OutOfFuel -> turn opts fuel s = o -> (fuel <= fuel')%nat -> turn opts fuel' s = o.
Proof.
  destruct s as [ctx w nevs t]. intros Ho E Hf. rewrite turn_parts in *.
  assert (Hc : forall o1, turn_connect fuel ctx w nevs t = o1 -> o1 <> OutOfFuel -> turn_connect fuel' ctx w nevs t = o1).
  { intros o1 Ec Ho1. revert Ec. unfold turn_connect. destruct (_ && _); [|done]. destruct (if 0 <? timeout opts then _ else _) as [w0 t0]. unfold setup_connections.
    destruct (setup_loop opts fuel _ _ _ _ _ _ _) as [x| |] eqn:Es; cbn [mbind prog_mbind]; [| |by intros <-];
      by rewrite (setup_loop_mono _ fuel' _ _ _ _ _ _ _ _ Es Hf ltac:(done)). }
  destruct (turn_connect fuel ctx w nevs t) as [[r|]| |] eqn:E1; cbn [mbind prog_mbind] in E; [..|congruence];
    rewrite (Hc _ eq_refl ltac:(done)); cbn [mbind prog_mbind]; try done.
  destruct r as [[[[ctx1 w1] nevs1] t1]|]; [|done]. revert E. unfold turn_wait. cbv zeta.
  destruct (rds (evs ctx1) 0 nevs1) as [changes| |]; cbn [lift mbind prog_mbind]; try done.
  destruct (kevent_again fuel _ _ _ _) as [x| |] eqn:Ek; cbn [lift mbind prog_mbind]; [| |congruence];
    by rewrite (kevent_again_mono _ fuel' _ _ _ _ _ Ek Hf ltac:(done)).
Qed.

(** a turn returns, and keeps the invariant *)
Lemma turn_spec s : state_ok s -> exists k r, (forall fuel, (k <= fuel)%nat -> turn opts fuel s = Ret (Some r)) /\
  match r with inl s' => state_ok s' | inr (ctx', w') => inv ctx' w' end.
Proof.
  destruct s as [ctx w nevs t]. intros [Hi Hn]. cbn [l_ctx l_w l_nevs] in *.
  destruct (turn_connect_spec ctx w nevs t Hi Hn) as (k1 & r & Hk1 & Hr). destruct r as [[[[ctx1 w1] nevs1] t1]|[ctx1 w1]].
  - destruct Hr as [Hi1 Hn1]. destruct (turn_wait_spec ctx1 w1 nevs1 t1 Hi1 Hn1) as (k2 & r & Hk2 & Hr). exists (Nat.max k1 k2), r. split; [|done].
    intros fuel Hf. rewrite turn_parts, Hk1 by lia. cbn [mbind prog_mbind]. apply Hk2. lia.
  - exists k1, (inr (ctx1, w1)). split; [|done]. intros fuel Hf. rewrite turn_parts, Hk1 by lia. done.
Qed.

(** with any fuel *)
Lemma turn_any fuel s : state_ok s -> turn opts fuel s = OutOfFuel \/
  exists r, turn opts fuel s = Ret (Some r) /\ match r with inl s' => state_ok s' | inr (ctx', w') => inv ctx' w' end.
Proof.
  intros Hs. destruct (turn_spec s Hs) as (k & r & Hk & Hr).
  assert (Hd : turn opts fuel s = OutOfFuel \/ turn opts fuel s <> OutOfFuel) by (destruct (turn opts fuel s); auto).
  destruct Hd as [Hd|Hd]; [by left|right]. exists r. split; [|done]. rewrite <- (Hk (Nat.max k fuel) ltac:(lia)). symmetry.
  apply (turn_mono fuel); [done|done|lia].
Qed.

Lemma finished_spec s : state_ok s -> finished s = true -> opened (l_w s) = ∅.
Proof.
  intros [Hi _] Hf. unfold finished in Hf. apply negb_true_iff, orb_false_elim in Hf as [_ Hf]. zbool.
  pose proof (i_active _ _ Hi) as Ha. apply map_size_empty_inv. lia.
Qed.

Lemma run_loop_spec fuel : forall s, state_ok s ->
  match run_loop opts fuel s with
  | OutOfFuel => True
  | Ret (Some (ctx', w', r)) => inv ctx' w' /\ ((r = REAPLAN_OK /\ opened w' = ∅) \/ r = REAPLAN_ERR)
  | _ => False
  end.
Proof.
  induction fuel as [|fuel IH]; intros s Hs; [done|]. cbn [run_loop]. destruct (finished s) eqn:Ef.
  { cbn [mret prog_mret]. split; [apply Hs|]. left. split; [done|]. by apply finished_spec. }
  destruct (turn_any (S fuel) s Hs) as [->|(r & -> & Hr)]; [done|]. cbn [mbind prog_mbind]. destruct r as [s'|[ctx' w']]; [by apply IH|].
  cbn [mret prog_mret]. split; [done|by right].
Qed.

Lemma cleanup_spec ctx w : inv ctx w -> opened w = ∅ -> reaplan_cleanup opts ctx = Ret ().
Proof.
  intros Hi Ho. unfold reaplan_cleanup. pose proof (i_opts _ _ Hi) as [[? ?] _].
  assert (Hl : forall n i, 0 <= i -> i + Z.of_nat n <= max_clients opts -> cleanup_loop n ctx i = Ret ()); [|apply Hl; lia].
  induction n as [|n IH]; intros i Hi0 Hn; cbn [cleanup_loop]; [done|]. destruct (open_conn _ _ i Hi ltac:(lia)) as (c & -> & _ & Hok).
  rewrite Ho, lookup_empty in Hok. cbn [conn_ok] in Hok. cbn [mbind outcome_mbind]. rewrite (proj2 (Z.leb_gt 0 _)) by done. apply IH; lia.
Qed.

Lemma init_spec alloc_ok kqueue_ok ctx w : 0 <= max_clients opts < 2 ^ 32 -> 0 <= connects_per_tick opts ->
  reaplan_init opts alloc_ok kqueue_ok = Some ctx -> opened w = ∅ -> inv ctx w.
Proof.
  intros Hm Hc. unfold reaplan_init. destruct (Z.eqb_spec (max_clients opts) 0) as [|Hm0]; [rewrite orb_true_r; done|].
  destruct (Z.eqb_spec (connects_per_tick opts) 0) as [|Hc0]; [rewrite orb_true_r; done|].
  destruct (Z.ltb_spec (max_clients opts) (connects_per_tick opts)) as [|Hmc]; [rewrite orb_true_r; done|].
  rewrite !orb_false_r. destruct (negb (has_on_connect opts)); [done|]. destruct (negb kqueue_ok); [done|].
  pose proof (idset_new_spec alloc_ok (max_clients opts) Hm) as Hid. destruct (idset_new alloc_ok (max_clients opts)) as [s|]; [|done].
  destruct Hid as [Hrange Hs]. unfold INT_MAX in Hrange. destruct (negb (alloc_ok _)); [done|]. destruct (negb (alloc_ok _)); [done|].
  destruct (negb (alloc_ok _)); [done|]. rewrite (uw_small 32 (connects_per_tick opts * 2)), uw_small by lia. intros [= <-] Ho.
  split; cbn [ids conns active_conns closeconns evs]; rewrite ?Ho; try done; try (rewrite zlen_replicate; lia).
  - unfold opts_ok, INT_MAX. lia.
  - intros i c Hi _. apply lookup_replicate in Hi as [-> _]. by rewrite lookup_empty.
Qed.

(** the states at the head of the loop *)
Inductive reachable : loop_state -> Prop :=
  | reach_start alloc_ok kqueue_ok ctx w ctx' w' n : reaplan_init opts alloc_ok kqueue_ok = Some ctx -> opened w = ∅ ->
      reaplan_update_timer opts (set_done (set_timer ctx 0) 0) w = Ret (Some (ctx', w', n)) -> reachable (Loop ctx' w' n 0)
  | reach_turn fuel s s' : reachable s -> finished s = false -> turn opts fuel s = Ret (Some (inl s')) -> reachable s'.

Lemma start_ok alloc_ok kqueue_ok ctx w : 0 <= max_clients opts < 2 ^ 32 -> 0 <= connects_per_tick opts ->
  reaplan_init opts alloc_ok kqueue_ok = Some ctx -> opened w = ∅ ->
  exists ctx' w' n, reaplan_update_timer opts (set_done (set_timer ctx 0) 0) w = Ret (Some (ctx', w', n)) /\ state_ok (Loop ctx' w' n 0).
Proof.
  intros Hm Hc Hinit Ho. pose proof (init_spec _ _ _ w Hm Hc Hinit Ho) as Hi.
  assert (Hi' : inv (set_done (set_timer ctx 0) 0) w) by (destruct Hi; by split).
  destruct (update_timer_spec _ _ Hi') as (ctx1 & w1 & n & E & Hi1 & Hn & _). by exists ctx1, w1, n.
Qed.

Lemma reachable_ok s : 0 <= max_clients opts < 2 ^ 32 -> 0 <= connects_per_tick opts -> reachable s -> state_ok s.
Proof.
  intros Hm Hc. induction 1 as [alloc_ok kqueue_ok ctx w ctx' w' n Hinit Ho E|fuel s s' _ IH _ E].
  - destruct (start_ok _ _ _ _ Hm Hc Hinit Ho) as (ctx1 & w1 & n1 & E1 & Hs). congruence.
  - destruct (turn_any fuel s IH) as [E1|(r & E1 & Hr)]; rewrite E1 in E; [done|]. injection E as ->. done.
Qed.

End Invariant.

(** ** An environment *)

(** The application has so many connections to make, and is done or fails
    then; a descriptor is the index of its connection.  The kernel reports that the
    timer has fired and that the first connections have ended. *)
Record demo_world : Type := Demo {
  dw_targets : nat;
  dw_open : gset Z;
  dw_clock : Z;
  dw_fail : bool;
}.

#[export] Instance demo_env : Env demo_world := {|
  on_connect w i c :=
    match dw_targets w with
    | S n => if 0 <=? i then (Demo n ({[i]} ∪ dw_open w) (dw_clock w) (dw_fail w), Reaplan.set_rflags (set_fd c i) 3, REAPLANC_OK) else (w, c, REAPLANC_ERR)
    | O => (w, c, if dw_fail w then REAPLANC_ERR else REAPLANC_DONE)
    end;
  on_readable w i c := (w, set_nread c 10, 10, 0);
  on_writable w i c := (w, c, -1, EAGAIN);
  on_done w i c := (w, c);
  close w f := Demo (dw_targets w) (dw_open w ∖ {[f]}) (dw_clock w) (dw_fail w);
  kevent_wait w changes n nodelay :=
    (w, inr (take (Z.to_nat n) (Kevent TIMEOUT_TIMER EVFILT_TIMER 0 0 1 None ::
      ((fun i => Kevent i EVFILT_READ EV_EOF 0 5 (Some i)) <$> elements (dw_open w)))));
  kevent_change w changes := w;
  clock_gettime w := (Demo (dw_targets w) (dw_open w) (dw_clock w + 1) (dw_fail w), Some (dw_clock w));
  SSL_free w s := w;
  SSL_connect w s := (w, 1, 0);
|}.

Definition demo_opts : reaplan_opts := Opts true true 5 4 2 10 false.
Definition demo_opened (w : demo_world) : gmap Z Z := set_to_map (fun i => (i, i)) (dw_open w).

Lemma demo_lookup w i : demo_opened w !! i = if decide (i ∈ dw_open w) then Some i else None.
Proof.
  unfold demo_opened. destruct (decide (i ∈ dw_open w)) as [Hi|Hi].
  - apply lookup_set_to_map; [naive_solver|]. by exists i.
  - apply eq_None_not_Some. intros [f Hf]. apply lookup_set_to_map in Hf as (j & Hj & [= -> _]); [done|naive_solver].
Qed.

#[export] Program Instance demo_laws : EnvLaws demo_world demo_opts := {|
  opened := demo_opened;
  pending := dw_targets;
  retries _ := 0%nat;
|}.
Next Obligation.
  intros w i Hn. cbn. destruct (dw_targets w) as [|n] eqn:En; [right; cbn; split; [left; by destruct (dw_fail w)|]; split; [lia|done]|].
  rewrite demo_lookup in Hn. destruct (decide (i ∈ dw_open w)) as [|Hi]; [done|]. destruct (Z.leb_spec 0 i); [|right; cbn; split; [by left|]; split; [lia|done]].
  left. cbn. split; [done|]. split; [done|]. split; [|split; [|split; [done|split; [done|lia]]]].
  - apply map_eq. intros j. rewrite demo_lookup. cbn [dw_open]. destruct (decide (j = i)) as [->|Hne].
    + rewrite lookup_insert_eq. by rewrite decide_True by set_solver.
    + rewrite lookup_insert_ne by done. rewrite demo_lookup. apply decide_ext. set_solver.
  - intros j. rewrite demo_lookup. destruct (decide (j ∈ dw_open w)); [|done]. by intros [= ->].
Qed.
Next Obligation. done. Qed.
Next Obligation. done. Qed.
Next Obligation. done. Qed.
Next Obligation.
  intros w f. cbn. split; [|done]. apply map_eq. intros j. rewrite demo_lookup. cbn [dw_open].
  destruct (decide (j ∈ dw_open w ∖ {[f]})) as [Hj|Hj].
  - symmetry. apply map_lookup_filter_Some. rewrite demo_lookup. rewrite decide_True by set_solver. split; [done|]. set_solver.
  - symmetry. apply map_lookup_filter_None. rewrite demo_lookup. destruct (decide (j ∈ dw_open w)); [|by left]. right. intros g [= <-] Hne. set_solver.
Qed.
Next Obligation. done. Qed.
Next Obligation. done. Qed.
Next Obligation. done. Qed.
Next Obligation. done. Qed.
Next Obligation.
  intros w l n nodelay. cbn. split; [done|]. split; [intros Hn; unfold zlen; rewrite length_take; lia|].
  apply Forall_take, Forall_cons. split; [by intros [?|?]|]. apply Forall_forall. intros ev (i & -> & Hi)%list_elem_of_fmap _. exists i. split; [done|]. rewrite demo_lookup.
  rewrite decide_True; [by eexists|]. by apply elem_of_elements.
Qed.

(** ** Runs *)

(** C34: at the head of the loop the table, the identifiers and the counter agree
    with the connections that are open: a connection of the table has a
    descriptor exactly when it is open, its own, its index is the identifier
    in use, and there are as many as [active_conns] says, at most
    [max_clients]. The next turn returns: it neither leaves the arrays of the
    plan nor fails an assertion, if the application asks for every TLS
    connection to be writable. *)
Theorem reaplan_run_invariant {W : Type} {E : Env W} (opts : reaplan_opts) {L : EnvLaws W opts} (s : loop_state) :
  0 <= max_clients opts < 2 ^ 32 -> 0 <= connects_per_tick opts -> reachable opts s ->
  (forall i, 0 <= i < max_clients opts -> exists c, rd (conns (l_ctx s)) i = Ret c /\ conn_ok opts (opened (l_w s) !! i) c) /\
  repr (ids (l_ctx s)) (max_clients opts) (dom (opened (l_w s))) /\
  (forall i j f, opened (l_w s) !! i = Some f -> opened (l_w s) !! j = Some f -> i = j) /\
  active_conns (l_ctx s) = Z.of_nat (base.size (opened (l_w s))) /\ 0 <= active_conns (l_ctx s) <= max_clients opts /\
  exists k r, forall fuel, (k <= fuel)%nat -> turn opts fuel s = Ret (Some r).
Proof.
  intros Hm Hc Hr. pose proof (reachable_ok opts s Hm Hc Hr) as Hs. pose proof Hs as [Hi _].
  split; [|split; [apply (i_ids _ _ _ Hi)|split; [apply (i_inj _ _ _ Hi)|split; [apply (i_active _ _ _ Hi)|split; [by apply (active_range opts _ (l_w s))|]]]]].
  - intros i Hri. destruct (open_conn opts _ _ i Hi Hri) as (c & Erd & _ & Hok). by exists c.
  - destruct (turn_spec opts s Hs) as (k & r & Hk & _). by exists k, r.
Qed.

(** C35: a run from a new plan, with any fuel, is still going on or returns,
    never with a failed assertion or an access outside the plan: with
    [REAPLAN_OK] when every connection that was established has been closed,
    and the plan can be cleaned up, or with [REAPLAN_ERR]. *)
Theorem reaplan_run_closes {W : Type} {E : Env W} (opts : reaplan_opts) {L : EnvLaws W opts} alloc_ok kqueue_ok ctx w fuel :
  0 <= max_clients opts < 2 ^ 32 -> 0 <= connects_per_tick opts ->
  reaplan_init opts alloc_ok kqueue_ok = Some ctx -> opened w = ∅ ->
  match reaplan_run opts fuel ctx w with
  | OutOfFuel => True
  | Ret (Some (ctx', w', r)) =>
      (r = REAPLAN_OK /\ opened w' = ∅ /\ active_conns ctx' = 0 /\ reaplan_cleanup opts ctx' = Ret ()) \/ r = REAPLAN_ERR
  | _ => False
  end.
Proof.
  intros Hm Hc Hinit Ho. destruct (start_ok opts _ _ _ _ Hm Hc Hinit Ho) as (ctx1 & w1 & n & E1 & Hs). unfold reaplan_run. cbv zeta. rewrite E1.
  cbn [mbind prog_mbind]. pose proof (run_loop_spec opts fuel _ Hs) as H. destruct (run_loop opts fuel _) as [[[[ctx' w'] r]|]| |]; try done.
  destruct H as [Hi [[-> Hop]| ->]]; [left|by right]. split; [done|]. split; [done|]. split; [|by apply (cleanup_spec opts ctx' w')].
  rewrite (i_active _ _ _ Hi), Hop. done.
Qed.

Definition demo_start : option loop_state :=
  match reaplan_init demo_opts (fun _ => true) true with
  | Some ctx =>
      match reaplan_update_timer demo_opts (set_done (set_timer ctx 0) 0) (Demo 7 ∅ 0 false) with
      | Ret (Some (ctx, w, n)) => Some (Loop ctx w n 0)
      | _ => None
      end
  | None => None
  end.

Lemma demo_reachable : match demo_start with Some s => reachable demo_opts s | None => False end.
Proof.
  unfold demo_start. destruct (reaplan_init demo_opts (fun _ => true) true) as [ctx|] eqn:E; [|discriminate E].
  destruct (reaplan_update_timer demo_opts (set_done (set_timer ctx 0) 0) (Demo 7 ∅ 0 false)) as [[[[ctx' w'] n]|]| |] eqn:E1.
  1: { eapply (reach_start demo_opts (fun _ => true) true); [exact E| |exact E1]. reflexivity. }
  all: exfalso; injection E as <-; discriminate E1.
Qed.

Lemma reaplan_run_invariant_witness :
  match demo_start with
  | Some s =>
      (forall i, 0 <= i < max_clients demo_opts -> exists c, rd (conns (l_ctx s)) i = Ret c /\ conn_ok demo_opts (opened (l_w s) !! i) c) /\
      repr (ids (l_ctx s)) (max_clients demo_opts) (dom (opened (l_w s))) /\
      (forall i j f, opened (l_w s) !! i = Some f -> opened (l_w s) !! j = Some f -> i = j) /\
      active_conns (l_ctx s) = Z.of_nat (base.size (opened (l_w s))) /\ 0 <= active_conns (l_ctx s) <= max_clients demo_opts /\
      exists k r, forall fuel, (k <= fuel)%nat -> turn demo_opts fuel s = Ret (Some r)
  | None => False
  end.
Proof.
  pose proof demo_reachable as H. destruct demo_start as [s|]; [|exact H].
  apply (reaplan_run_invariant demo_opts s); [split; [discriminate|reflexivity]|discriminate|exact H].
Defined.

Lemma reaplan_run_closes_witness :
  match reaplan_init demo_opts (fun _ => true) true with
  | Some ctx =>
      match reaplan_run demo_opts 50 ctx (Demo 7 ∅ 0 false) with
      | OutOfFuel => True
      | Ret (Some (ctx', w', r)) =>
          (r = REAPLAN_OK /\ opened w' = ∅ /\ active_conns ctx' = 0 /\ reaplan_cleanup demo_opts ctx' = Ret ()) \/ r = REAPLAN_ERR
      | _ => False
      end
  | None => False
  end.
Proof.
  destruct (reaplan_init demo_opts (fun _ => true) true) as [ctx|] eqn:E; [|discriminate E].
  apply (reaplan_run_closes demo_opts (fun _ => true) true); [split; [discriminate|reflexivity]|discriminate|exact E|reflexivity].
Defined.

(** how a run ends, and what cleaning up after it does *)
Definition demo_run (w : demo_world) : option (Z * Z * nat * outcome ()) :=
  match reaplan_init demo_opts (fun _ => true) true with
  | Some ctx =>
      match reaplan_run demo_opts 50 ctx w with
      | Ret (Some (ctx, w, r)) => Some (r, active_conns ctx, dw_targets w, reaplan_cleanup demo_opts ctx)
      | _ => None
      end
  | None => None
  end.

Example demo_run_ends : demo_run (Demo 7 ∅ 0 false) = Some (REAPLAN_OK, 0, 0%nat, Ret ()).
Proof. vm_compute. reflexivity. Qed.

(** When the application fails while connections are open, cleaning up the
    plan closes them after it has freed the identifiers, which closing uses. *)
Theorem reaplan_cleanup_after_error : exists w, opened w = ∅ /\
  demo_run w = Some (REAPLAN_ERR, 2, 0%nat, OutOfBounds).
Proof. exists (Demo 4 ∅ 0 true). split; [reflexivity|]. vm_compute. reflexivity. Qed.

(** a TLS connection that wants to be readable only fails the assertion at the
    end of the handshake *)
Example tls_readable_aborts :
  handle_tls_handshake (Opts true true 5 4 2 10 true)
    (Ctx [] (Idset.Ctx 0 0 0 []) [Conn 0 0 7 REAPLAN_TLS_HANDSHAKE REAPLAN_READABLE 0 0 (Some 1)] [] 0 1 0 0 0 0) (Demo 0 ∅ 0 false) 0 = Ret None.
Proof. reflexivity. Qed.
